(* ===== verification/_CoqProject ===== *)
-Q . S2P
Prelude.v
StdMap.v
Types.v
RiskChecker.v
Bytes.v
BinarySerializer.v
SerializerTheorems.v
MatchingEngine.v
Fifo.v
MpscQueue.v
OrderIndex.v
OrderBook.v
Matching.v
BookInv.v
BookSpec.v
BookExact.v
BookOps.v
BookTheorems.v
BookRegistry.v
ClientErasure.v
SafeQueue.v
Wal.v
WalSystem.v
ReplayEngine.v
ThreadPool.v
Recovery.v
PoolTheorems.v
ConnectionManager.v
ExecutionPipeline.v
Session.v
SessionTheorems.v
GatewayServer.v
Logger.v
Demo.v
OpQueue.v
Buffers.v
NetError.v
ComposedIO.v
ReadUntil.v
Counting.v
Scheduler.v
SchedulerTheorems.v
SchedulerLiveness.v
IocpContext.v
IocpTheorems.v
TimerQueue.v
TimerQueueTheorems.v
IocpTimers.v
IocpTimersTheorems.v
SocketOps.v
SocketTheorems.v
IocpSocket.v
IocpSocketTheorems.v
IpText.v
IpAddress.v
AddressRange.v
NetworkV4.v
NetworkV6.v
Strand.v
StrandTheorems.v
SessionStack.v
ClientStack.v
PipelineSystem.v
Ownership.v
PoolTrace.v
Exchange.v
ExchangeInv.v
ExchangeTheorems.v
ExchangeLiveness.v
Server.v
ServerTheorems.v
TradeIds.v
