(* ===== verification/Prelude.v ===== *)
(** * Stock exchange matching engine: verification library

    The program is a stock exchange in one process.  Clients connect over TCP and
    send orders, cancels and modifications; a session parses and checks them and
    puts them on a bounded queue; worker threads log each request and run it on
    the order book of its symbol; the reports of the book go through a pipeline
    back to the sessions of the clients concerned.  After a crash the log is
    replayed into new books.  The library models every part of this, down to the
    event loop and the socket layer of the bundled network library (asio), and
    proves what each part promises to the next.

    ** The path of a request, and where it is modelled

    - a client: [Demo] ([demo_main.cpp]): framing of requests, counting of
      reports, and the scenario [run_multi_client_demo] evaluated end to end;
      [ClientStack]: the same client's requests and read loop on its socket;
    - bytes on the wire: [Bytes] (memory images, C strings, the interface
      [Packed] with its laws) and [BinarySerializer]
      ([gateway/binary_serializer.hpp]), with [SerializerTheorems];
    - a connection: [GatewayServer] ([gateway/gateway_server.hpp]), [Session]
      ([gateway/session.hpp]; handlers are functions to a new state and a list
      of requests), [SessionTheorems], [ConnectionManager]
      ([gateway/connection_manager.hpp]);
    - pre-trade checks: [RiskChecker] ([engine/risk_checker.cpp]);
    - the task queue and the workers: [SafeQueue] ([threadpool/safe_queue.hpp],
      mutex sections as steps, both condition variables with spurious wake-ups)
      and [ThreadPool] ([threadpool/thread_pool.cpp], one worker alone, and all
      workers interleaved where they touch what they share);
    - the books: [BookRegistry] ([registry/book_registry.cpp]), [OrderBook]
      ([engine/order_book.cpp]; [std::map]s of [std::list]s whose nodes have
      addresses, see [StdMap]), [OrderIndex] ([engine/order_index.hpp]) and
      [MatchingEngine] ([engine/matching_engine.cpp]);
    - the log and its replay: [Fifo] (the interface of a queue), [MpscQueue]
      ([pipeline/mpsc_queue.hpp], nodes in a heap, each atomic access a step),
      [Wal] and [WalSystem] ([pipeline/wal.cpp], sequential and interleaved) and
      [ReplayEngine] ([engine/replay_engine.cpp]);
    - reports back to clients: [ExecutionPipeline]
      ([pipeline/execution_pipeline.cpp], sequential) and [PipelineSystem] (its
      publishers, dispatcher and [stop] interleaved);
    - all of this at once: [Exchange], the threads of [demo_main.cpp] from the task
      queue on: workers in their calls of the log and of the pipeline, flusher,
      dispatcher and the main thread with its shutdown, in [ExchangeInv],
      [ExchangeTheorems] and [ExchangeLiveness]; and [Server], the exchange with its
      clients: the thread of the [io_context] accepts connections and runs the
      handlers of all sessions, with [ServerTheorems];
    - console: [Logger] ([logger/logger.cpp], [common/time_utils.cpp]);
    - data: [Types] ([common/types.hpp], [enums.hpp], [constants.hpp],
      [trade_id_generator.hpp]).

    Below the sessions and the client, in [asio/]:

    - [OpQueue] ([detail/op_queue.hpp]): the intrusive queue of operations;
    - [Buffers] ([buffer.hpp], [detail/consuming_buffers.hpp]) and [ComposedIO]
      ([impl/read.hpp], [impl/write.hpp], [completion_condition.hpp]): reading and
      writing whole buffer sequences;
    - [ReadUntil] ([impl/read_until.hpp], [dynamic_string_buffer] of [buffer.hpp]):
      reading up to a delimiter;
    - [NetError] ([error.hpp]) and [SocketOps] ([detail/impl/socket_ops.ipp]), with
      [SocketTheorems]: the portable layer over the socket calls;
    - [IocpSocket] ([detail/impl/win_iocp_socket_service_base.ipp] and the
      operations [detail/win_iocp_socket_*_op.hpp]), with [IocpSocketTheorems]:
      asynchronous operations of a socket;
    - [IocpContext] ([detail/impl/win_iocp_io_context.ipp]), with [IocpTheorems]:
      the event loop.  [build.bat] builds for Windows, where this is the loop that
      runs the handlers;
    - [TimerQueue] ([detail/timer_queue.hpp]) and [IocpTimers]
      ([detail/deadline_timer_service.hpp], [detail/chrono_time_traits.hpp], the
      timers and [shutdown] of [detail/impl/win_iocp_io_context.ipp]), with
      [TimerQueueTheorems] and [IocpTimersTheorems]: the timers of an io_context;
    - [Strand] ([detail/impl/strand_executor_service.ipp] and [.hpp],
      [detail/impl/strand_service.ipp] and [.hpp]), with [StrandTheorems]: both
      kinds of strands, on any threads and any inner executor;
    - [IpText] ([detail/impl/socket_ops.ipp]), [IpAddress] ([ip/impl/address.ipp],
      [ip/impl/address_v4.ipp], [ip/impl/address_v6.ipp]), [AddressRange]
      ([ip/address_v4_range.hpp] and the like), [NetworkV4], [NetworkV6]
      ([ip/impl/network_v4.ipp], [ip/impl/network_v6.ipp]): IP addresses, ranges of
      them and networks; the two families are instances of one iterator interface;
    - [SessionStack]: the session of [Session] on a connection through all of the
      above;
    - [Scheduler] ([detail/impl/scheduler.ipp], [detail/posix_event.hpp]), with
      [SchedulerTheorems] and [SchedulerLiveness]: the event loop the same sources
      use on POSIX systems.

    ** What is shown

    - The order book ([BookTheorems], built on [Matching], [BookInv], [BookSpec],
      [BookExact], [BookOps]).  [BookSpec] is an abstract book, two lists in
      priority order without levels, iterators or loops; [submitOrder_refines]
      and [amendments_refine] show that the code implements it, reports and trade ids included.  From this: price-time
      priority, conservation of quantity, parties and prices of fills, best
      prices and an uncrossed book, an exact index, and that no sequence of
      operations, duplicate ids included, follows a dangling iterator.
    - Recovery ([ClientErasure], [Recovery], [PoolTheorems], [ExchangeTheorems]):
      under any interleaving of workers, flusher and dispatcher, what a crash
      leaves in the file rebuilds the books of one earlier moment of the run, and
      what a shutdown leaves rebuilds the final books, up to client ids, which the
      log does not hold; a torn last record is skipped.  [TradeIds]: after a
      shutdown the generator of trade ids is recovered too.
    - The exchange as a whole: it implements the pool whose log and reports are
      written in single steps ([exchange_refines_pool]); it can always shut down
      ([ExchangeLiveness]), and a shutdown executes every task accepted and
      dispatches every report.
    - The server: reports reach the connection of the client who submitted the
      order, whole and in order, and no other ([Ownership], [PoolTrace],
      [server_clients_isolated], [server_delivers]); no input of a client makes a
      step go wrong except a symbol without terminator ([server_fault_source]).
    - Queues and the log ([MpscQueue], [SafeQueue], [WalSystem]): no deleted node
      is accessed, first in first out, no lost wake-up, release on close, the file
      is a prefix of the log and complete when [stop] finds no logger inside.
    - Sessions ([SessionTheorems], [SerializerTheorems]): framing, one response
      per packet, round trips, reports written whole, in order and one at a time;
      in [SessionStack] the same on a TCP connection whose transfers are of any
      size and may fail; in [ClientStack] from the client's [asio::write] to the
      tasks the session submits ([client_requests_arrive]) and from the session's
      reports to the client's count ([client_hears_session]).
    - The network layer: intrusive queues refine lists; [asio::read] and [write]
      and their asynchronous forms transfer exactly the buffer and agree with
      each other; [read_until] finds the first delimiter, also one that arrives in
      pieces ([read_until_first_match]); accepting; blocking modes; each started
      operation is reported
      to the event loop once; each handler runs at most once, with the result
      that was reported, and no wake-up is lost, on both event loops.
    - Timers: the timer queue (a heap with back indices and a linked list) refines
      a map from timers to their time and operations ([timer_queue_refines]); every
      wait is in one place until it completes, not before its time, is
      cancelled, or is destroyed by the shutdown ([timers_exactly_once]); no
      timer is forgotten ([timers_fire]).
    - Strands: the functions of a strand never overlap, begin in the order they were
      handed over and are never lost ([strand_serialises]); they can always be run,
      and the list of implementations is followed safely ([strand_completes]).
    - Addresses: the parser ends on every string within its buffers and reads back
      what is printed ([address_text_round_trip], [network_text_round_trip]); the
      orders are total ([address_order_total]); networks are sets of addresses:
      the subnet test is proper inclusion, masks and prefixes correspond, and the
      hosts are visited in order, each once ([network_v4_correct],
      [network_v6_correct]).
    - Defects found are theorems as well: [wal_restart_hangs], [wal_late_log_lost],
      [append_after_torn_record_lost], [exchange_report_before_record],
      [exchange_cancel_overtakes], [recovered_trade_ids_differ],
      [market_order_sets_price],
      [modify_to_zero_is_silent], [session_unterminated_symbol],
      [iocp_result_lost], [restarted_accept_reports],
      [all_addresses_have_no_host], [v6_find_misses_last], [atoi_overflow].

    ** Conventions

    Machine integers are [Z] with the wrap-around of their width ([u8] .. [u64]
    below).  An operation that the language gives no meaning to is a [Fault];
    theorems that say "completes" exclude it.  A loop whose end is not structural
    carries fuel; each theorem about one states how much is enough: the number of
    resting orders for the matching loops, the records of the file for the
    replay, the size of the buffer for the composed reads and writes,
    [retries] of the world (how often the operating system can still say "try
    again") for the socket loops, the entries of the heap and the active timers for the
    timer queue, the number of hosts for the loop over a range, the packets of the port for the shutdown, the items queued for the flusher and the
    dispatcher.  Concurrency is interleaving of steps: a critical section of a
    mutex is one step, and every atomic access is one (the code uses sequentially
    consistent atomics).  The environment is a parameter with the documented
    behaviour as laws: the clock (any function of the number of reads), the
    operating system's socket calls ([Winsock], [WinsockLaws], [Overlapped],
    [OverlappedRecv], [OverlappedSend], [FionbioLaws]), the completion port (a queue of packets),
    the characters of uninitialised arrays, the calendar of time stamps.
    [demo_world] instantiates the socket laws.

    ** Not modelled

    Write errors of the log's stream and of the console; creation and joining of
    threads beyond the number of running workers; [disconnect] of the demo's
    clients, which closes a socket under a pending read (the scenario's requests
    are run one at a time, as its sleeps make them).  In [Server] the bound of the task queue, which makes
    [submit] wait, is left to [SafeQueue].  Of asio: reactors, SSL,
    IPv4 addresses as text, endpoints, resolvers, executors, coroutines, datagrams,
    blocking waits on timers and several clocks on one io_context, the shutdown of
    the POSIX loop, the loops' own threads and
    exceptions thrown by handlers; the POSIX branches of the socket layer.

    ** Plan

    The rest of the socket service; the POSIX loop's [poll] and timers on it. *)

From stdpp Require Import base list gmap strings fin_maps.
From Stdlib Require Import ZArith Lia.

(** ** Machine integers

    [uint8_t] .. [uint64_t] values are [Z]; every arithmetic operation of the
    code that can wrap is followed by the wrap-around of its width. *)

Definition u8 (z : Z) : Z := (z mod 2 ^ 8)%Z.
Definition u16 (z : Z) : Z := (z mod 2 ^ 16)%Z.
Definition u32 (z : Z) : Z := (z mod 2 ^ 32)%Z.
Definition u64 (z : Z) : Z := (z mod 2 ^ 64)%Z.

Definition is_u8 (z : Z) : Prop := (0 <= z < 2 ^ 8)%Z.
Definition is_u16 (z : Z) : Prop := (0 <= z < 2 ^ 16)%Z.
Definition is_u32 (z : Z) : Prop := (0 <= z < 2 ^ 32)%Z.
Definition is_u64 (z : Z) : Prop := (0 <= z < 2 ^ 64)%Z.

(** ** Outcomes

    A C++ operation either completes or does something the language gives no
    meaning to.  [Fault] records what went wrong; the loops of the model carry
    fuel and report [OutOfFuel] when it does not suffice. *)

Inductive fault : Type :=
  | OutOfFuel            (* the fuel of a loop ran out *)
  | BadIterator          (* a std::list iterator that denotes no live node *)
  | UnterminatedString   (* std::string(p) with no NUL inside p's array *)
  | UseAfterFree         (* a node that was deleted, or never allocated *)
  | OutOfRange           (* operator[] of a std::vector past its end *)
  | IntOverflow.         (* std::atoi of a number that does not fit *)

Inductive outcome (A : Type) : Type :=
  | Ok (a : A)
  | Fault (f : fault).

Arguments Ok {A} a.
Arguments Fault {A} f.

Definition obind {A B : Type} (m : outcome A) (k : A -> outcome B) : outcome B :=
  match m with
  | Ok a => k a
  | Fault f => Fault f
  end.

Definition of_option {A : Type} (f : fault) (o : option A) : outcome A :=
  match o with
  | Some a => Ok a
  | None => Fault f
  end.

Declare Scope exchange_scope.
Delimit Scope exchange_scope with exchange.

Notation "'let*' x := m 'in' k" := (obind m (fun x => k))
  (at level 10, x pattern, m at level 100, k at level 200,
   format "'[' 'let*'  x  :=  m  'in' ']' '//' k") : exchange_scope.

#[export] Instance fault_eq_dec : EqDecision fault.
Proof. solve_decision. Defined.

(** ** Sums over lists *)

Fixpoint sum_by {A : Type} (f : A -> Z) (l : list A) : Z :=
  match l with
  | [] => 0%Z
  | x :: l' => (f x + sum_by f l')%Z
  end.

(** ** Runs of a step relation *)

Inductive star {S : Type} (step : S -> S -> Prop) : S -> S -> Prop :=
  | star_refl s : star step s s
  | star_step s1 s2 s3 : step s1 s2 -> star step s2 s3 -> star step s1 s3.

Inductive reachable {S : Type} (init : S -> Prop) (step : S -> S -> Prop) : S -> Prop :=
  | reach_init s : init s -> reachable init step s
  | reach_step s s' : reachable init step s -> step s s' -> reachable init step s'.

(** ** Tactics *)

(** Take apart the existentials, conjunctions and pair equations of the context. *)
Ltac deex_all :=
  repeat match goal with
  | H : exists _, _ |- _ => destruct H
  | H : _ /\ _ |- _ => destruct H
  | H : (_, _) = (_, _) |- _ => inversion H; subst; clear H
  | H : Some _ = Some _ |- _ => inversion H; subst; clear H
  | H : Ok _ = Ok _ |- _ => inversion H; subst; clear H
  end.

(** Case analysis on the boolean integer test [t], everywhere it occurs. *)
Ltac case_test t :=
  let E := fresh "Ht" in
  lazymatch t with
  | Z.eqb _ _ => destruct t eqn:E; [apply Z.eqb_eq in E|apply Z.eqb_neq in E]
  | Z.ltb _ _ => destruct t eqn:E; [apply Z.ltb_lt in E|apply Z.ltb_ge in E]
  | Z.leb _ _ => destruct t eqn:E; [apply Z.leb_le in E|apply Z.leb_gt in E]
  end.

(** Case analysis on the boolean integer tests of the goal. *)
Ltac case_Z :=
  repeat match goal with
  | |- context [Z.eqb ?a ?b] => case_test (Z.eqb a b)
  | |- context [Z.ltb ?a ?b] => case_test (Z.ltb a b)
  | |- context [Z.leb ?a ?b] => case_test (Z.leb a b)
  end.

(** The same in the hypothesis [H]. *)
Ltac case_Z_in H :=
  repeat match type of H with
  | context [Z.eqb ?a ?b] => case_test (Z.eqb a b)
  | context [Z.ltb ?a ?b] => case_test (Z.ltb a b)
  | context [Z.leb ?a ?b] => case_test (Z.leb a b)
  end.

(** Reduce a step of an outcome computation whose head is known. *)
Ltac ok_step H :=
  rewrite H; cbn [obind].

(** ** Facts about machine integers *)

Lemma u32_small z : is_u32 z -> u32 z = z.
Proof. unfold is_u32, u32. intros. by apply Z.mod_small. Qed.

Lemma u64_small z : is_u64 z -> u64 z = z.
Proof. unfold is_u64, u64. intros. by apply Z.mod_small. Qed.

Lemma u32_range z : is_u32 (u32 z).
Proof. unfold is_u32, u32. apply Z.mod_pos_bound. lia. Qed.

Lemma u64_range z : is_u64 (u64 z).
Proof. unfold is_u64, u64. apply Z.mod_pos_bound. lia. Qed.

Create HintDb exchange.
Create Rewrite HintDb exchange.
#[export] Hint Resolve u32_range u64_range : exchange.
#[export] Hint Rewrite u32_small u64_small using (unfold is_u32, is_u64 in *; lia) : exchange.

(** ** Facts about outcomes *)

Lemma obind_ok {A B} (m : outcome A) (k : A -> outcome B) b :
  obind m k = Ok b <-> exists a, m = Ok a /\ k a = Ok b.
Proof.
  destruct m as [a|f]; simpl; split.
  - eauto.
  - intros (a' & [= <-] & H). exact H.
  - discriminate.
  - intros (a' & [=] & _).
Qed.

Lemma of_option_ok {A} f (o : option A) a : of_option f o = Ok a <-> o = Some a.
Proof. destruct o; simpl; split; congruence. Qed.

(** ** Facts about sums *)

Section SumBy.
Context {A : Type}.
Implicit Types (f : A -> Z) (l : list A).

Lemma sum_by_app f l1 l2 : sum_by f (l1 ++ l2) = (sum_by f l1 + sum_by f l2)%Z.
Proof. induction l1; simpl; lia. Qed.

Lemma sum_by_nonneg f l : Forall (fun x => 0 <= f x)%Z l -> (0 <= sum_by f l)%Z.
Proof. induction 1; simpl; lia. Qed.

Lemma sum_by_ext f g l : Forall (fun x => f x = g x) l -> sum_by f l = sum_by g l.
Proof. induction 1; simpl; lia. Qed.

Lemma sum_by_map {B} (h : B -> A) f (l : list B) :
  sum_by f (h <$> l) = sum_by (fun x => f (h x)) l.
Proof. induction l; csimpl; lia. Qed.

Lemma sum_by_perm f l1 l2 : l1 ≡ₚ l2 -> sum_by f l1 = sum_by f l2.
Proof. induction 1; simpl; lia. Qed.
End SumBy.

#[export] Hint Rewrite @sum_by_app : exchange.

(** ** Facts about runs *)

Section Runs.
Context {S : Type} {init : S -> Prop} {step : S -> S -> Prop}.

Lemma star_one s1 s2 : step s1 s2 -> star step s1 s2.
Proof. intros. eapply star_step; [done|]. apply star_refl. Qed.

Lemma star_trans s1 s2 s3 : star step s1 s2 -> star step s2 s3 -> star step s1 s3.
Proof. induction 1; eauto using star. Qed.

Lemma reachable_star s s' : reachable init step s -> star step s s' -> reachable init step s'.
Proof. intros Hr. induction 1; eauto using reachable. Qed.

(** Rule induction packaged for inductive invariants. *)
Lemma reachable_invariant (I : S -> Prop) :
  (forall s, init s -> I s) ->
  (forall s s', I s -> step s s' -> I s') ->
  forall s, reachable init step s -> I s.
Proof. intros Hi Hs. induction 1; eauto. Qed.
End Runs.
