(* ===== verification/StdMap.v ===== *)
(** * [std::map] as an ordered association list

    The part of [std::map<Key, T, Compare>] the order book uses: [find],
    [operator[]], [erase] of an element, [begin] and in-order traversal.  The
    list holds the elements in iteration order; [cmp] is the comparator object
    ([std::less] or [std::greater]). *)

From stdpp Require Import base list fin_maps.
From Stdlib Require Import ZArith Lia.
From S2P Require Import Prelude.

Inductive cmp : Type := Less | Greater.

Definition before (c : cmp) (a b : Z) : bool :=
  match c with
  | Less => (a <? b)%Z
  | Greater => (b <? a)%Z
  end.

Section StdMap.
Context {V : Type}.

(** [m.find(k)] *)
Fixpoint map_find (k : Z) (m : list (Z * V)) : option V :=
  match m with
  | [] => None
  | (k', v) :: m' => if (k' =? k)%Z then Some v else map_find k m'
  end.

(** The insertion [m\[k\]] makes when there is no element with key [k]. *)
Fixpoint map_at (c : cmp) (d : V) (k : Z) (m : list (Z * V)) : list (Z * V) :=
  match m with
  | [] => [(k, d)]
  | (k', v) :: m' =>
      if (k' =? k)%Z then m
      else if before c k k' then (k, d) :: m
      else (k', v) :: map_at c d k m'
  end.

(** Mutation of the element with key [k] through a reference or an iterator. *)
Fixpoint map_mutate (f : V -> V) (k : Z) (m : list (Z * V)) : list (Z * V) :=
  match m with
  | [] => []
  | (k', v) :: m' =>
      if (k' =? k)%Z then (k', f v) :: m' else (k', v) :: map_mutate f k m'
  end.

(** [m.erase(it)] for the iterator [it] at key [k]. *)
Fixpoint map_erase (k : Z) (m : list (Z * V)) : list (Z * V) :=
  match m with
  | [] => []
  | (k', v) :: m' => if (k' =? k)%Z then m' else (k', v) :: map_erase k m'
  end.

(** The order invariant of the container. *)
Fixpoint keys_sorted (c : cmp) (ks : list Z) : Prop :=
  match ks with
  | [] => True
  | k :: ks' => Forall (fun k' => before c k k' = true) ks' /\ keys_sorted c ks'
  end.

Definition map_sorted (c : cmp) (m : list (Z * V)) : Prop := keys_sorted c m.*1.
End StdMap.

(** ** The comparators *)

Lemma before_irrefl c a : before c a a = false.
Proof. destruct c; simpl; lia. Qed.

Lemma before_trans c x y z : before c x y = true -> before c y z = true -> before c x z = true.
Proof. destruct c; simpl; lia. Qed.

Lemma before_total c a b : a <> b -> before c a b = false -> before c b a = true.
Proof. destruct c; simpl; lia. Qed.

Lemma before_asym c a b : before c a b = true -> before c b a = false.
Proof. destruct c; simpl; lia. Qed.

Lemma before_ne c a b : before c a b = true -> a <> b.
Proof. intros H ->. by rewrite before_irrefl in H. Qed.

#[export] Hint Resolve before_trans : exchange.

(** ** The container *)

Section Facts.
Context {V : Type}.
Implicit Types (m : list (Z * V)) (k : Z) (v d : V).

Lemma keys_sorted_suffix c ks1 ks2 : keys_sorted c (ks1 ++ ks2) -> keys_sorted c ks2.
Proof. induction ks1; simpl; naive_solver. Qed.

Lemma keys_sorted_NoDup c ks : keys_sorted c ks -> NoDup ks.
Proof.
  induction ks as [|k ks IH]; simpl; [constructor|].
  intros [Hall Hs]. constructor; [|auto]. intros Hin.
  rewrite Forall_forall in Hall. apply Hall in Hin. by rewrite before_irrefl in Hin.
Qed.

Lemma map_find_elem k v m : map_find k m = Some v -> (k, v) ∈ m.
Proof.
  induction m as [|[k' v'] m IH]; simpl; [done|]. case_Z; intros H.
  - simplify_eq. left.
  - right. auto.
Qed.

Lemma elem_map_find c k v m : map_sorted c m -> (k, v) ∈ m -> map_find k m = Some v.
Proof.
  unfold map_sorted. induction m as [|[k' v'] m IH]; simpl; [set_solver|].
  intros [Hall Hs] [[= -> ->]|Hin]%elem_of_cons; case_Z; auto; try done.
  subst. rewrite Forall_forall in Hall.
  assert (k ∈ m.*1) as Hk by (apply list_elem_of_fmap; by exists (k, v)).
  apply Hall in Hk. by rewrite before_irrefl in Hk.
Qed.

Lemma map_find_None k m : map_find k m = None <-> k ∉ m.*1.
Proof.
  induction m as [|[k' v'] m IH]; simpl; [set_solver|].
  case_Z; subst; [split; [done|set_solver]|]. rewrite IH. set_solver.
Qed.

Lemma map_at_keys c d k m x : x ∈ (map_at c d k m).*1 <-> x = k \/ x ∈ m.*1.
Proof.
  induction m as [|[k' v'] m IH]; simpl; [set_solver|].
  case_Z; subst; [set_solver|]. destruct (before c k k'); set_solver.
Qed.

Lemma map_at_sorted c d k m : map_sorted c m -> map_sorted c (map_at c d k m).
Proof.
  unfold map_sorted. induction m as [|[k' v'] m IH]; simpl.
  { intros _. split; [constructor|done]. }
  intros [Hall Hs]. case_Z; subst; [done|].
  destruct (before c k k') eqn:Hb; simpl.
  - split; [|done]. constructor; [done|].
    eapply Forall_impl; [exact Hall|]. eauto with exchange.
  - split; [|auto]. rewrite Forall_forall in *. intros x Hx%map_at_keys.
    destruct Hx as [->|Hx]; [|auto]. apply before_total; [lia|done].
Qed.

Lemma map_mutate_keys f k m : (map_mutate f k m).*1 = m.*1.
Proof.
  induction m as [|[k' v'] m IH]; simpl; [done|].
  case_Z; csimpl; congruence.
Qed.

Lemma map_mutate_sorted c f k m : map_sorted c m -> map_sorted c (map_mutate f k m).
Proof. unfold map_sorted. by rewrite map_mutate_keys. Qed.

Lemma map_erase_keys k m x : x ∈ (map_erase k m).*1 -> x ∈ m.*1.
Proof.
  induction m as [|[k' v'] m IH]; simpl; [done|]. case_Z; set_solver.
Qed.

Lemma map_erase_sorted c k m : map_sorted c m -> map_sorted c (map_erase k m).
Proof.
  unfold map_sorted. induction m as [|[k' v'] m IH]; simpl; [done|].
  intros [Hall Hs]. case_Z; simpl; [done|]. split; [|auto].
  rewrite Forall_forall in *. intros x Hx%map_erase_keys. auto.
Qed.

(** Splitting the container at a key it holds. *)
Lemma map_split c k v m :
  map_sorted c m -> map_find k m = Some v ->
  exists m1 m2, m = m1 ++ (k, v) :: m2 /\ k ∉ m1.*1 /\ k ∉ m2.*1 /\
    map_erase k m = m1 ++ m2 /\
    (forall f, map_mutate f k m = m1 ++ (k, f v) :: m2) /\
    (forall d, map_at c d k m = m).
Proof.
  unfold map_sorted. induction m as [|[k' v'] m IH]; simpl; [done|].
  intros [Hall Hs] Hf. case_Z_in Hf.
  - simplify_eq. exists [], m. split_and!; try done.
    + set_solver.
    + intros Hin. rewrite Forall_forall in Hall. apply Hall in Hin.
      by rewrite before_irrefl in Hin.
  - destruct (IH Hs Hf) as (m1 & m2 & -> & H1 & H2 & H3 & H4 & H5).
    exists ((k', v') :: m1), m2.
    assert (before c k k' = false) as Hbf.
    { apply before_asym. rewrite Forall_forall in Hall. apply Hall.
      rewrite fmap_app. set_solver. }
    rewrite Hbf. split_and!; [done|set_solver|done|by rewrite H3| |].
    + intros f. by rewrite H4.
    + intros d. f_equal. apply H5.
Qed.

(** Splitting the container at the place a new key goes to. *)
Lemma map_mutate_mid f k v m1 m2 :
  k ∉ m1.*1 -> map_mutate f k (m1 ++ (k, v) :: m2) = m1 ++ (k, f v) :: m2.
Proof.
  induction m1 as [|[k' v'] m1 IH]; csimpl; intros Hn.
  - by rewrite Z.eqb_refl.
  - rewrite (proj2 (Z.eqb_neq k' k)) by set_solver. f_equal. apply IH. set_solver.
Qed.

Lemma map_at_new c d k m :
  map_sorted c m -> map_find k m = None ->
  exists m1 m2, m = m1 ++ m2 /\ map_at c d k m = m1 ++ (k, d) :: m2 /\
    Forall (fun k' => before c k' k = true) m1.*1 /\
    Forall (fun k' => before c k k' = true) m2.*1.
Proof.
  unfold map_sorted. induction m as [|[k' v'] m IH]; csimpl.
  { intros _ _. exists [], []. split_and!; try done; constructor. }
  intros [Hall Hs] Hf. case_Z_in Hf; [done|].
  destruct (before c k k') eqn:Hb.
  - exists [], ((k', v') :: m). csimpl. split_and!; try done; constructor; [done|].
    eapply Forall_impl; [exact Hall|]. eauto with exchange.
  - destruct (IH Hs Hf) as (m1 & m2 & -> & H1 & H2 & H3).
    exists ((k', v') :: m1), m2. csimpl. split_and!; try done.
    + f_equal. exact H1.
    + constructor; [|done]. apply before_total; [lia|done].
Qed.
End Facts.
