(* ===== verification/Types.v ===== *)
(** * Data model

    The types of [src/common]: enumerations, requests, fills and reports, the
    limits of [constants.hpp], the trade-id counter and the clock. *)

From stdpp Require Import base list gmap strings.
From Stdlib Require Import ZArith Lia.
From S2P Require Import Prelude.

(** ** Enumerations

    Each has the fixed underlying type [uint8_t], so a variable of the type can
    hold any of its 256 values: [static_cast] from a byte read off the network
    or the log does not check it.  [.._unnamed] are the values with no
    enumerator. *)

Inductive Side : Type :=
  | Buy
  | Sell
  | Side_unnamed (v : Z).

Inductive OrderType : Type :=
  | Limit
  | Market
  | OrderType_unnamed (v : Z).

Inductive OrderStatus : Type :=
  | New
  | PartiallyFilled
  | Filled
  | Cancelled
  | Rejected.

Definition Side_to_u8 (s : Side) : Z :=
  match s with Buy => 0 | Sell => 1 | Side_unnamed v => v end.

Definition Side_of_u8 (b : Z) : Side :=
  if (b =? 0)%Z then Buy else if (b =? 1)%Z then Sell else Side_unnamed b.

Definition OrderType_to_u8 (t : OrderType) : Z :=
  match t with Limit => 0 | Market => 1 | OrderType_unnamed v => v end.

Definition OrderType_of_u8 (b : Z) : OrderType :=
  if (b =? 0)%Z then Limit else if (b =? 1)%Z then Market else OrderType_unnamed b.

Definition OrderStatus_to_u8 (s : OrderStatus) : Z :=
  match s with
  | New => 0 | PartiallyFilled => 1 | Filled => 2 | Cancelled => 3 | Rejected => 4
  end.

(** [side == Side::Buy] and [type == OrderType::Limit] *)
Definition is_buy (s : Side) : bool := match s with Buy => true | _ => false end.
Definition is_limit (t : OrderType) : bool := match t with Limit => true | _ => false end.

Definition to_string (status : OrderStatus) : string :=
  match status with
  | New => "NEW"
  | PartiallyFilled => "PARTIALLY_FILLED"
  | Filled => "FILLED"
  | Cancelled => "CANCELLED"
  | Rejected => "REJECTED"
  end.

(** ** Records *)

Abbreviation Price := Z (only parsing).
Abbreviation Quantity := Z (only parsing).
Abbreviation OrderID := Z (only parsing).
Abbreviation Timestamp := Z (only parsing).
Abbreviation Symbol := string (only parsing).

Record Order : Type := mkOrder {
  o_order_id : OrderID;
  o_symbol : Symbol;
  o_side : Side;
  o_type : OrderType;
  o_price : Price;
  o_quantity : Quantity;
  o_remaining_quantity : Quantity;
  o_timestamp : Timestamp;
  o_client_id : Z }.

Definition is_filled (o : Order) : bool := (o_remaining_quantity o =? 0)%Z.

Record CancelRequest : Type := mkCancelRequest {
  c_order_id : OrderID;
  c_symbol : Symbol;
  c_timestamp : Timestamp;
  c_client_id : Z }.

Record ModifyRequest : Type := mkModifyRequest {
  m_order_id : OrderID;
  m_symbol : Symbol;
  m_price : Price;
  m_quantity : Quantity;
  m_timestamp : Timestamp;
  m_client_id : Z }.

Record Fill : Type := mkFill {
  f_trade_id : Z;
  f_buy_order_id : OrderID;
  f_sell_order_id : OrderID;
  f_symbol : Symbol;
  f_price : Price;
  f_quantity : Quantity;
  f_timestamp : Timestamp }.

Record Trade : Type := mkTrade {
  t_trade_id : Z;
  t_symbol : Symbol;
  t_price : Price;
  t_quantity : Quantity;
  t_timestamp : Timestamp }.

Record ExecutionReport : Type := mkExecutionReport {
  er_order_id : OrderID;
  er_symbol : Symbol;
  er_side : Side;
  er_status : OrderStatus;
  er_price : Price;
  er_quantity : Quantity;
  er_remaining_quantity : Quantity;
  er_last_qty : Quantity;
  er_last_px : Price;
  er_timestamp : Timestamp;
  er_reject_reason : string;
  er_client_id : Z }.

Record MatchResult : Type := mkMatchResult {
  mr_status : OrderStatus;
  mr_fills : list Fill;
  mr_execution_reports : list ExecutionReport }.

(** The default member initialisers of [MatchResult]. *)
Definition empty_result : MatchResult := mkMatchResult New [] [].

(** [result.fills.push_back(f)] and [result.execution_reports.push_back(r)] *)
Definition push_fill (f : Fill) (r : MatchResult) : MatchResult :=
  mkMatchResult (mr_status r) (mr_fills r ++ [f]) (mr_execution_reports r).

Definition push_report (er : ExecutionReport) (r : MatchResult) : MatchResult :=
  mkMatchResult (mr_status r) (mr_fills r) (mr_execution_reports r ++ [er]).

(** [order.remaining_quantity = q] and [order.client_id = c] *)
Definition set_remaining (q : Quantity) (o : Order) : Order :=
  mkOrder (o_order_id o) (o_symbol o) (o_side o) (o_type o) (o_price o)
    (o_quantity o) q (o_timestamp o) (o_client_id o).

Definition set_client (c : Z) (o : Order) : Order :=
  mkOrder (o_order_id o) (o_symbol o) (o_side o) (o_type o) (o_price o)
    (o_quantity o) (o_remaining_quantity o) (o_timestamp o) c.

(** ** Limits ([constants.hpp]) *)

Definition DEFAULT_THREAD_POOL_SIZE : nat := 4.
Definition MAX_QUEUE_CAPACITY : Z := 65536.
Definition MIN_PRICE : Price := 1.
Definition MAX_PRICE : Price := 99999999.
Definition MAX_QUANTITY : Quantity := 10000000.

(** ** Process-wide state the engine reads: trade-id counter and clock

    [clock i] is the value of the [i]-th call of
    [time_utils::get_current_time_ns], an arbitrary function: nothing is
    assumed of the system clock, not even that it advances. *)

Record Env : Type := mkEnv {
  counter_ : Z;
  clock : nat -> Timestamp;
  clock_reads : nat }.

(** [TradeIDGenerator::TradeIDGenerator], [reset] and [next_id]
    ([fetch_add] wraps at 64 bits). *)
Definition initial_counter : Z := 1.

Definition reset_ids (start_id : Z) (e : Env) : Env :=
  mkEnv (u64 start_id) (clock e) (clock_reads e).

Definition next_id (e : Env) : Z * Env :=
  (counter_ e, mkEnv (u64 (counter_ e + 1)) (clock e) (clock_reads e)).

Definition get_current_time_ns (e : Env) : Timestamp * Env :=
  (u64 (clock e (clock_reads e)), mkEnv (counter_ e) (clock e) (S (clock_reads e))).

(** ** Decidable equality *)

#[export] Instance Side_eq_dec : EqDecision Side.
Proof. solve_decision. Defined.

#[export] Instance OrderType_eq_dec : EqDecision OrderType.
Proof. solve_decision. Defined.

#[export] Instance OrderStatus_eq_dec : EqDecision OrderStatus.
Proof. solve_decision. Defined.

#[export] Instance Order_eq_dec : EqDecision Order.
Proof. solve_decision. Defined.

#[export] Instance CancelRequest_eq_dec : EqDecision CancelRequest.
Proof. solve_decision. Defined.

#[export] Instance ModifyRequest_eq_dec : EqDecision ModifyRequest.
Proof. solve_decision. Defined.

#[export] Instance Fill_eq_dec : EqDecision Fill.
Proof. solve_decision. Defined.

#[export] Instance ExecutionReport_eq_dec : EqDecision ExecutionReport.
Proof. solve_decision. Defined.

(** ** Facts *)

Lemma Side_u8_roundtrip b : Side_to_u8 (Side_of_u8 b) = b.
Proof. unfold Side_of_u8, Side_to_u8. case_Z; congruence. Qed.

Lemma OrderType_u8_roundtrip b : OrderType_to_u8 (OrderType_of_u8 b) = b.
Proof. unfold OrderType_of_u8, OrderType_to_u8. case_Z; congruence. Qed.

(** A value of the enumeration: an enumerator, or an unnamed value of a byte. *)
Definition Side_ok (s : Side) : Prop :=
  match s with Side_unnamed v => (2 <= v < 256)%Z | _ => True end.
Definition OrderType_ok (t : OrderType) : Prop :=
  match t with OrderType_unnamed v => (2 <= v < 256)%Z | _ => True end.

Lemma Side_of_to_u8 s : Side_ok s -> Side_of_u8 (Side_to_u8 s) = s.
Proof.
  destruct s as [| |v]; simpl; try done. unfold Side_of_u8. intros. case_Z; lia || done.
Qed.

Lemma OrderType_of_to_u8 t : OrderType_ok t -> OrderType_of_u8 (OrderType_to_u8 t) = t.
Proof.
  destruct t as [| |v]; simpl; try done. unfold OrderType_of_u8. intros. case_Z; lia || done.
Qed.

Lemma next_id_env e : snd (next_id e) = mkEnv (u64 (counter_ e + 1)) (clock e) (clock_reads e).
Proof. done. Qed.
