(* ===== verification/RiskChecker.v ===== *)
(** * RiskChecker: pre-trade validation

    [engine/risk_checker.hpp] and [engine/risk_checker.cpp].  The singleton's
    two sets are its state; every operation holds [mutex_]. *)

From stdpp Require Import base list gmap sets strings.
From Stdlib Require Import ZArith Lia.
From S2P Require Import Prelude Types.

(** ** Definitions *)

Record RiskChecker : Type := mkRiskChecker {
  allowed_symbols_ : gset string;
  seen_order_ids_ : gset Z }.

Definition new_checker : RiskChecker := mkRiskChecker ∅ ∅.

Definition register_symbol (symbol : Symbol) (rc : RiskChecker) : RiskChecker :=
  mkRiskChecker ({[symbol]} ∪ allowed_symbols_ rc) (seen_order_ids_ rc).

Definition MAX_ORDER_VALUE : Z := 500000000.

(** [static_cast<uint64_t>(order.price) * order.quantity] *)
Definition order_value (o : Order) : Z := u64 (o_price o * o_quantity o).

(** The first test that fails decides the reason; [reject_reason] is an output
    parameter, so an accepted order leaves it as it was.  [price <= 0] and
    [quantity <= 0] compare unsigned values. *)
Definition validate_order (o : Order) (reject_reason : string) (rc : RiskChecker)
    : bool * string * RiskChecker :=
  if negb (bool_decide (o_symbol o ∈ allowed_symbols_ rc)) then (false, "Invalid Symbol", rc)
  else if (o_price o <=? 0)%Z || (MAX_PRICE <? o_price o)%Z then
    (false, "Invalid Price Bounds", rc)
  else if (o_quantity o <=? 0)%Z || (MAX_QUANTITY <? o_quantity o)%Z then
    (false, "Invalid Quantity Bounds", rc)
  else if bool_decide (o_order_id o ∈ seen_order_ids_ rc) then (false, "Duplicate Order ID", rc)
  else if (MAX_ORDER_VALUE <? order_value o)%Z then (false, "Order Value Exceeds Limit", rc)
  else (true, reject_reason,
        mkRiskChecker (allowed_symbols_ rc) ({[o_order_id o]} ∪ seen_order_ids_ rc)).

Definition risk_reset (rc : RiskChecker) : RiskChecker := mkRiskChecker ∅ ∅.

(** What an order must satisfy, without machine arithmetic. *)
Record acceptable (rc : RiskChecker) (o : Order) : Prop := mkAcceptable {
  acc_symbol : o_symbol o ∈ allowed_symbols_ rc;
  acc_price : (MIN_PRICE <= o_price o <= MAX_PRICE)%Z;
  acc_qty : (1 <= o_quantity o <= MAX_QUANTITY)%Z;
  acc_new : o_order_id o ∉ seen_order_ids_ rc;
  acc_value : (o_price o * o_quantity o <= MAX_ORDER_VALUE)%Z }.

(** Validating a stream of orders: the accepted ones, in order. *)
Fixpoint validate_all (os : list Order) (rc : RiskChecker) : list Order * RiskChecker :=
  match os with
  | [] => ([], rc)
  | o :: os =>
      let '(ok, _, rc) := validate_order o "" rc in
      let '(acc, rc) := validate_all os rc in
      (if ok then o :: acc else acc, rc)
  end.

Definition w_checker : RiskChecker := register_symbol "MSFT" (register_symbol "AAPL" new_checker).
Definition w_risk_order (id px qty : Z) : Order := mkOrder id "AAPL" Buy Limit px qty qty 1 1.

(** ** Facts *)

(** In range, the product does not wrap. *)
Lemma order_value_exact o :
  (0 <= o_price o <= MAX_PRICE)%Z -> (0 <= o_quantity o <= MAX_QUANTITY)%Z ->
  order_value o = (o_price o * o_quantity o)%Z.
Proof.
  unfold order_value, MAX_PRICE, MAX_QUANTITY. intros Hp Hq. apply u64_small.
  unfold is_u64. nia.
Qed.

(** The tests of [validate_order], one case each. *)
Lemma validate_order_cases o r rc :
  (acceptable rc o /\ validate_order o r rc =
     (true, r, mkRiskChecker (allowed_symbols_ rc) ({[o_order_id o]} ∪ seen_order_ids_ rc))) \/
  (~ acceptable rc o /\ exists reason, validate_order o r rc = (false, reason, rc) /\
     (reason = "Invalid Symbol" /\ o_symbol o ∉ allowed_symbols_ rc \/
      reason = "Invalid Price Bounds" /\ ~ (MIN_PRICE <= o_price o <= MAX_PRICE)%Z \/
      reason = "Invalid Quantity Bounds" /\ ~ (1 <= o_quantity o <= MAX_QUANTITY)%Z \/
      reason = "Duplicate Order ID" /\ o_order_id o ∈ seen_order_ids_ rc \/
      reason = "Order Value Exceeds Limit" /\
        (MAX_ORDER_VALUE < o_price o * o_quantity o)%Z)).
Proof.
  unfold validate_order, MIN_PRICE. case_bool_decide as Hs; simpl.
  2:{ right. split; [by intros []|]. eauto 10. }
  destruct (Z.leb_spec (o_price o) 0); simpl.
  { right. split; [intros []; unfold MIN_PRICE in *; lia|]. eexists; split; [done|]. right; left. split; [done|lia]. }
  destruct (Z.ltb_spec MAX_PRICE (o_price o)); simpl.
  { right. split; [intros []; lia|]. eexists; split; [done|]. right; left. split; [done|lia]. }
  destruct (Z.leb_spec (o_quantity o) 0); simpl.
  { right. split; [intros []; lia|]. eexists; split; [done|]. do 2 right; left. split; [done|lia]. }
  destruct (Z.ltb_spec MAX_QUANTITY (o_quantity o)); simpl.
  { right. split; [intros []; lia|]. eexists; split; [done|]. do 2 right; left. split; [done|lia]. }
  case_bool_decide as Hseen; simpl.
  { right. split; [by intros []|]. eexists; split; [done|]. by do 3 right; left. }
  rewrite order_value_exact by lia. case_Z.
  - right. split; [intros []; lia|]. eexists; split; [done|]. by do 4 right.
  - left. split; [|done]. constructor; unfold MIN_PRICE; try done; lia.
Qed.

Lemma validate_all_seen os rc acc rc' :
  validate_all os rc = (acc, rc') ->
  NoDup (o_order_id <$> acc) /\ (forall id, id ∈ o_order_id <$> acc -> id ∉ seen_order_ids_ rc) /\
  seen_order_ids_ rc' = list_to_set (o_order_id <$> acc) ∪ seen_order_ids_ rc /\
  allowed_symbols_ rc' = allowed_symbols_ rc /\
  Forall (fun o => o_symbol o ∈ allowed_symbols_ rc /\
    (MIN_PRICE <= o_price o <= MAX_PRICE)%Z /\ (1 <= o_quantity o <= MAX_QUANTITY)%Z /\
    (o_price o * o_quantity o <= MAX_ORDER_VALUE)%Z) acc.
Proof.
  revert rc acc rc'. induction os as [|o os IH]; intros rc acc rc' H; simpl in H.
  { injection H as <- <-. csimpl. split_and!; [constructor|set_solver|set_solver|done|constructor]. }
  destruct (validate_order_cases o "" rc) as [[Ha Hv]|[Hn (reason & Hv & _)]]; rewrite Hv in H.
  - destruct (validate_all os _) as [acc2 rc2] eqn:E. injection H as <- <-.
    destruct (IH _ _ _ E) as (H1 & H2 & H3 & H4 & H5). simpl in *. destruct Ha as [A1 A2 A3 A4 A5].
    csimpl. split_and!.
    + constructor; [|done]. intros Hin. apply (H2 _ Hin). set_solver.
    + intros id [->|Hin]%elem_of_cons; [done|]. intros Hs. apply (H2 _ Hin). set_solver.
    + rewrite H3. apply set_eq. set_solver.
    + done.
    + constructor; [done|]. by rewrite ?H4 in H5.
  - destruct (validate_all os rc) as [acc2 rc2] eqn:E. injection H as <- <-. by apply IH.
Qed.

(** ** Properties *)

(** C20: [validate_order] accepts exactly the acceptable orders: known symbol,
    price and quantity within bounds, id never accepted before, true (unwrapped)
    value within the limit.  An accepted id is remembered; a rejection changes
    nothing and names a test the order fails. *)
Theorem validate_order_correct o r rc :
  exists ok reason rc', validate_order o r rc = (ok, reason, rc') /\
    (ok = true <-> acceptable rc o) /\
    (ok = true -> reason = r /\ allowed_symbols_ rc' = allowed_symbols_ rc /\
       seen_order_ids_ rc' = {[o_order_id o]} ∪ seen_order_ids_ rc) /\
    (ok = false -> rc' = rc /\
      (reason = "Invalid Symbol" /\ o_symbol o ∉ allowed_symbols_ rc \/
       reason = "Invalid Price Bounds" /\ ~ (MIN_PRICE <= o_price o <= MAX_PRICE)%Z \/
       reason = "Invalid Quantity Bounds" /\ ~ (1 <= o_quantity o <= MAX_QUANTITY)%Z \/
       reason = "Duplicate Order ID" /\ o_order_id o ∈ seen_order_ids_ rc \/
       reason = "Order Value Exceeds Limit" /\
         (MAX_ORDER_VALUE < o_price o * o_quantity o)%Z)).
Proof.
  destruct (validate_order_cases o r rc) as [[Ha Hv]|[Hn (reason & Hv & Hr)]]; rewrite Hv.
  - eexists true, _, _. split_and!; try done.
  - eexists false, _, _. split_and!; try done.
Qed.

(** Over any stream of orders, accepted ids are pairwise distinct, and every
    accepted order is within the limits. *)
Theorem accepted_ids_unique os rc acc rc' :
  validate_all os rc = (acc, rc') ->
  NoDup (o_order_id <$> acc) /\
  (forall id, id ∈ o_order_id <$> acc -> id ∉ seen_order_ids_ rc) /\
  Forall (fun o => (1 <= o_price o <= MAX_PRICE)%Z /\ (1 <= o_quantity o <= MAX_QUANTITY)%Z /\
    (o_price o * o_quantity o <= MAX_ORDER_VALUE)%Z) acc.
Proof.
  intros H. destruct (validate_all_seen _ _ _ _ H) as (H1 & H2 & _ & _ & H3).
  split_and!; try done. eapply Forall_impl; [exact H3|]. by intros o (_ & ? & ? & ?).
Qed.

Lemma accepted_ids_unique_witness :
  exists acc rc',
    validate_all [w_risk_order 1 100 5; w_risk_order 1 100 5; w_risk_order 2 0 5; w_risk_order 3 50 7]
      w_checker = (acc, rc') /\
    o_order_id <$> acc = [1; 3]%Z /\ NoDup (o_order_id <$> acc).
Proof.
  eexists _, _. split; [vm_compute; reflexivity|]. split; [reflexivity|].
  refine (proj1 (accepted_ids_unique
    [w_risk_order 1 100 5; w_risk_order 1 100 5; w_risk_order 2 0 5; w_risk_order 3 50 7]
    w_checker _ _ _)).
  vm_compute. reflexivity.
Defined.
