(* ===== verification/Bytes.v ===== *)
(** * Bytes, fixed-width fields and C strings

    A byte is an [ascii]; a memory block is a list of them.  Multi-byte fields
    of a packed struct are read and written with [memcpy] on the (little-endian)
    host.  [Packed] is the interface a packed struct offers to the code that
    copies it to and from byte buffers. *)

From stdpp Require Import base list sets strings.
From Stdlib Require Import ZArith Lia Ascii.
From S2P Require Import Prelude.
Local Open Scope list_scope.

(** ** Definitions *)

Definition byte_of (z : Z) : ascii := ascii_of_N (Z.to_N (z mod 256)).
Definition byte_val (a : ascii) : Z := Z.of_N (N_of_ascii a).

Fixpoint le_encode (n : nat) (z : Z) : list ascii :=
  match n with
  | O => []
  | S n => byte_of z :: le_encode n (z / 256)%Z
  end.

Fixpoint le_decode (bs : list ascii) : Z :=
  match bs with
  | [] => 0
  | b :: bs => byte_val b + 256 * le_decode bs
  end%Z.

(** Reading a field off the front of a block. *)
Definition read_le (n : nat) (bs : list ascii) : Z * list ascii := (le_decode (take n bs), drop n bs).
Definition read_chars (n : nat) (bs : list ascii) : list ascii * list ascii := (take n bs, drop n bs).

Definition NUL : ascii := Ascii.zero.

Definition chars (s : string) : list ascii := String.list_ascii_of_string s.

(** The characters before the first NUL, if there is one. *)
Fixpoint until_nul (bs : list ascii) : option (list ascii) :=
  match bs with
  | [] => None
  | b :: bs =>
      if Ascii.eqb b NUL then Some []
      else match until_nul bs with Some s => Some (b :: s) | None => None end
  end.

(** [std::string(array)]: reads up to a NUL; past the array there is no meaning. *)
Definition c_string (array : list ascii) : outcome string :=
  match until_nul array with
  | Some s => Ok (String.string_of_list_ascii s)
  | None => Fault UnterminatedString
  end.

(** A packed struct: its size, its image in memory and the values its fields
    can hold. *)
Class Packed (A : Type) : Type := {
  sizeof : nat;
  pack : A -> list ascii;
  unpack : list ascii -> A;
  fields_ok : A -> Prop }.
Arguments sizeof A {_}.

Class PackedLaws (A : Type) `{Packed A} : Prop := {
  pack_length a : fields_ok a -> length (pack a) = sizeof A;
  unpack_pack a rest : fields_ok a -> unpack (pack a ++ rest) = a;
  pack_unpack bs : length bs = sizeof A -> fields_ok (unpack bs) /\ pack (unpack bs) = bs }.

(** A field of [n] bytes holds a value below [256 ^ n]. *)
Definition fits (n : nat) (z : Z) : Prop := (0 <= z < 2 ^ (8 * Z.of_nat n))%Z.

(** A string that a NUL-terminated array of [n] characters can hold. *)
Definition fits_chars (n : nat) (s : string) : Prop :=
  (length (chars s) < n)%nat /\ NUL ∉ chars s.

(** ** Bytes *)

Lemma byte_val_range a : (0 <= byte_val a < 256)%Z.
Proof.
  unfold byte_val. pose proof (N_ascii_bounded a). lia.
Qed.

Lemma byte_of_val a : byte_of (byte_val a) = a.
Proof.
  unfold byte_of. rewrite Z.mod_small by apply byte_val_range.
  unfold byte_val. rewrite N2Z.id. apply ascii_N_embedding.
Qed.

Lemma byte_val_of z : byte_val (byte_of z) = (z mod 256)%Z.
Proof.
  unfold byte_val, byte_of. pose proof (Z.mod_pos_bound z 256).
  rewrite N_ascii_embedding by lia. lia.
Qed.

Lemma length_le_encode n z : length (le_encode n z) = n.
Proof. revert z. induction n; simpl; auto. Qed.

Lemma le_decode_encode n z : fits n z -> le_decode (le_encode n z) = z.
Proof.
  unfold fits. revert z. induction n as [|n IH]; intros z Hz; simpl.
  { simpl in Hz. lia. }
  rewrite byte_val_of, IH; [pose proof (Z.div_mod z 256); lia|].
  replace (8 * Z.of_nat (S n))%Z with (8 + 8 * Z.of_nat n)%Z in Hz by lia.
  rewrite Z.pow_add_r in Hz by lia. split; [apply Z.div_pos; lia|].
  apply Z.div_lt_upper_bound; lia.
Qed.

Lemma le_decode_fits bs : fits (length bs) (le_decode bs).
Proof.
  unfold fits. induction bs as [|b bs IH]; simpl; [lia|].
  replace (8 * Z.of_nat (S (length bs)))%Z with (8 + 8 * Z.of_nat (length bs))%Z by lia.
  rewrite Z.pow_add_r by lia. pose proof (byte_val_range b). lia.
Qed.

Lemma le_encode_decode bs n : length bs = n -> le_encode n (le_decode bs) = bs.
Proof.
  revert n. induction bs as [|b bs IH]; intros n <-; simpl; [done|].
  pose proof (byte_val_range b). f_equal.
  - assert ((byte_val b + 256 * le_decode bs) mod 256 = byte_val b)%Z as E.
    { rewrite Z.mul_comm, Z.mod_add by lia. apply Z.mod_small. lia. }
    unfold byte_of. rewrite E, <- (Z.mod_small (byte_val b) 256) by lia. apply byte_of_val.
  - rewrite Z.add_comm, Z.mul_comm, Z.div_add_l by lia.
    rewrite (Z.div_small (byte_val b)) by lia. rewrite Z.add_0_r. by apply IH.
Qed.

Lemma read_le_app n z rest : fits n z -> read_le n (le_encode n z ++ rest) = (z, rest).
Proof.
  intros Hz. unfold read_le. rewrite take_app_length', drop_app_length' by by rewrite length_le_encode.
  by rewrite le_decode_encode.
Qed.

Lemma read_chars_app n cs rest : length cs = n -> read_chars n (cs ++ rest) = (cs, rest).
Proof. intros Hn. unfold read_chars. by rewrite take_app_length', drop_app_length'. Qed.

Lemma read_le_fits n bs : (n <= length bs)%nat -> fits n (read_le n bs).1.
Proof.
  intros Hn. unfold read_le; simpl. rewrite <- (length_take_le bs n) at 1 by done. apply le_decode_fits.
Qed.

Lemma encode_read n bs : (n <= length bs)%nat ->
  le_encode n (read_le n bs).1 = take n bs.
Proof. intros Hn. unfold read_le; simpl. apply le_encode_decode. by apply length_take_le. Qed.

(** ** C strings *)

Lemma until_nul_app s rest : NUL ∉ s -> until_nul (s ++ NUL :: rest) = Some s.
Proof.
  induction s as [|c s IH]; intros Hs; cbn; [done|].
  rewrite (proj2 (Ascii.eqb_neq c NUL)) by set_solver. by rewrite IH by set_solver.
Qed.

Lemma until_nul_None bs : until_nul bs = None <-> NUL ∉ bs.
Proof.
  induction bs as [|b bs IH]; cbn [until_nul]; [split; [set_solver|done]|].
  destruct (Ascii.eqb_spec b NUL) as [->|Hb]; [set_solver|].
  destruct (until_nul bs); [set_solver|]. split; [|done]. intros _. set_solver.
Qed.

Lemma until_nul_no_nul bs s : until_nul bs = Some s -> NUL ∉ s /\ (length s < length bs)%nat.
Proof.
  revert s. induction bs as [|b bs IH]; intros s; cbn [until_nul]; [done|].
  destruct (Ascii.eqb_spec b NUL) as [->|Hb].
  - intros [= <-]. simpl. split; [set_solver|lia].
  - destruct (until_nul bs) as [s'|]; [|done]. intros [= <-].
    destruct (IH s' eq_refl). simpl. split; [set_solver|lia].
Qed.

Lemma chars_of_list l : chars (String.string_of_list_ascii l) = l.
Proof. apply String.list_ascii_of_string_of_list_ascii. Qed.

Lemma string_of_chars s : String.string_of_list_ascii (chars s) = s.
Proof. apply String.string_of_list_ascii_of_string. Qed.

(** A string read from an array of [n] characters fits an array of [n]. *)
Lemma c_string_fits array s : c_string array = Ok s -> fits_chars (length array) s.
Proof.
  unfold c_string. destruct (until_nul array) as [l|] eqn:E; [|done]. intros [= <-].
  unfold fits_chars. rewrite chars_of_list. apply until_nul_no_nul in E. tauto.
Qed.

Lemma c_string_undefined array : c_string array = Fault UnterminatedString <-> NUL ∉ array.
Proof.
  unfold c_string. rewrite <- until_nul_None. destruct (until_nul array); split; congruence.
Qed.
