(* ===== verification/BinarySerializer.v ===== *)
(** * BinarySerializer: wire structs and conversions

    [gateway/binary_serializer.hpp].  The [Net*] records are the packed structs,
    [pack]/[unpack] their memory images.  A conversion to a [Net*] struct starts
    from an uninitialised local variable: the characters of its arrays that
    [safe_strncpy] does not write are those of [uninit], an argument. *)

From stdpp Require Import base list sets strings.
From Stdlib Require Import ZArith Lia Ascii.
From S2P Require Import Prelude Types Bytes.
Local Open Scope exchange_scope.
Local Open Scope list_scope.

(** ** Message types *)

Inductive MsgType : Type :=
  | MsgOrder
  | MsgCancel
  | MsgModify
  | MsgExecutionReport
  | MsgType_unnamed (v : Z).

Definition MsgType_to_u16 (t : MsgType) : Z :=
  match t with
  | MsgOrder => 1 | MsgCancel => 2 | MsgModify => 3 | MsgExecutionReport => 4
  | MsgType_unnamed v => v
  end.

Definition MsgType_of_u16 (v : Z) : MsgType :=
  if (v =? 1)%Z then MsgOrder else if (v =? 2)%Z then MsgCancel
  else if (v =? 3)%Z then MsgModify else if (v =? 4)%Z then MsgExecutionReport
  else MsgType_unnamed v.

(** ** Packed structs *)

Record MsgHeader : Type := mkMsgHeader {
  h_type : Z;
  h_length : Z }.

Record NetOrder : Type := mkNetOrder {
  no_order_id : Z;
  no_symbol : list ascii;      (* char[8] *)
  no_side : Z;
  no_type : Z;
  no_price : Z;
  no_quantity : Z;
  no_timestamp : Z }.

Record NetCancel : Type := mkNetCancel {
  nc_order_id : Z;
  nc_symbol : list ascii;      (* char[8] *)
  nc_timestamp : Z }.

Record NetModify : Type := mkNetModify {
  nm_order_id : Z;
  nm_symbol : list ascii;      (* char[8] *)
  nm_price : Z;
  nm_quantity : Z;
  nm_timestamp : Z }.

Record NetExecutionReport : Type := mkNetExecutionReport {
  ne_order_id : Z;
  ne_symbol : list ascii;      (* char[8] *)
  ne_side : Z;
  ne_status : Z;
  ne_price : Z;
  ne_quantity : Z;
  ne_remaining_quantity : Z;
  ne_last_qty : Z;
  ne_last_px : Z;
  ne_timestamp : Z;
  ne_reject_reason : list ascii }.  (* char[32] *)

(** The memory images: fields in order, no padding. *)

#[export] Instance MsgHeader_Packed : Packed MsgHeader := {
  sizeof := 4;
  pack h := le_encode 2 (h_type h) ++ le_encode 2 (h_length h);
  unpack bs :=
    let '(ty, bs) := read_le 2 bs in
    let '(len, bs) := read_le 2 bs in
    mkMsgHeader ty len;
  fields_ok h := fits 2 (h_type h) /\ fits 2 (h_length h) }.

#[export] Instance NetOrder_Packed : Packed NetOrder := {
  sizeof := 38;
  pack n := le_encode 8 (no_order_id n) ++ no_symbol n ++ le_encode 1 (no_side n) ++
    le_encode 1 (no_type n) ++ le_encode 8 (no_price n) ++ le_encode 4 (no_quantity n) ++
    le_encode 8 (no_timestamp n);
  unpack bs :=
    let '(id, bs) := read_le 8 bs in
    let '(sym, bs) := read_chars 8 bs in
    let '(side, bs) := read_le 1 bs in
    let '(ty, bs) := read_le 1 bs in
    let '(px, bs) := read_le 8 bs in
    let '(qty, bs) := read_le 4 bs in
    let '(ts, bs) := read_le 8 bs in
    mkNetOrder id sym side ty px qty ts;
  fields_ok n := fits 8 (no_order_id n) /\ length (no_symbol n) = 8 /\ fits 1 (no_side n) /\
    fits 1 (no_type n) /\ fits 8 (no_price n) /\ fits 4 (no_quantity n) /\ fits 8 (no_timestamp n) }.

#[export] Instance NetCancel_Packed : Packed NetCancel := {
  sizeof := 24;
  pack n := le_encode 8 (nc_order_id n) ++ nc_symbol n ++ le_encode 8 (nc_timestamp n);
  unpack bs :=
    let '(id, bs) := read_le 8 bs in
    let '(sym, bs) := read_chars 8 bs in
    let '(ts, bs) := read_le 8 bs in
    mkNetCancel id sym ts;
  fields_ok n := fits 8 (nc_order_id n) /\ length (nc_symbol n) = 8 /\ fits 8 (nc_timestamp n) }.

#[export] Instance NetModify_Packed : Packed NetModify := {
  sizeof := 36;
  pack n := le_encode 8 (nm_order_id n) ++ nm_symbol n ++ le_encode 8 (nm_price n) ++
    le_encode 4 (nm_quantity n) ++ le_encode 8 (nm_timestamp n);
  unpack bs :=
    let '(id, bs) := read_le 8 bs in
    let '(sym, bs) := read_chars 8 bs in
    let '(px, bs) := read_le 8 bs in
    let '(qty, bs) := read_le 4 bs in
    let '(ts, bs) := read_le 8 bs in
    mkNetModify id sym px qty ts;
  fields_ok n := fits 8 (nm_order_id n) /\ length (nm_symbol n) = 8 /\ fits 8 (nm_price n) /\
    fits 4 (nm_quantity n) /\ fits 8 (nm_timestamp n) }.

#[export] Instance NetExecutionReport_Packed : Packed NetExecutionReport := {
  sizeof := 86;
  pack n := le_encode 8 (ne_order_id n) ++ ne_symbol n ++ le_encode 1 (ne_side n) ++
    le_encode 1 (ne_status n) ++ le_encode 8 (ne_price n) ++ le_encode 4 (ne_quantity n) ++
    le_encode 4 (ne_remaining_quantity n) ++ le_encode 4 (ne_last_qty n) ++
    le_encode 8 (ne_last_px n) ++ le_encode 8 (ne_timestamp n) ++ ne_reject_reason n;
  unpack bs :=
    let '(id, bs) := read_le 8 bs in
    let '(sym, bs) := read_chars 8 bs in
    let '(side, bs) := read_le 1 bs in
    let '(st, bs) := read_le 1 bs in
    let '(px, bs) := read_le 8 bs in
    let '(qty, bs) := read_le 4 bs in
    let '(rq, bs) := read_le 4 bs in
    let '(lq, bs) := read_le 4 bs in
    let '(lpx, bs) := read_le 8 bs in
    let '(ts, bs) := read_le 8 bs in
    let '(rr, bs) := read_chars 32 bs in
    mkNetExecutionReport id sym side st px qty rq lq lpx ts rr;
  fields_ok n := fits 8 (ne_order_id n) /\ length (ne_symbol n) = 8 /\ fits 1 (ne_side n) /\
    fits 1 (ne_status n) /\ fits 8 (ne_price n) /\ fits 4 (ne_quantity n) /\
    fits 4 (ne_remaining_quantity n) /\ fits 4 (ne_last_qty n) /\ fits 8 (ne_last_px n) /\
    fits 8 (ne_timestamp n) /\ length (ne_reject_reason n) = 32 }.

(** ** Conversions *)

(** [safe_strncpy(dest, src, max_len)] on the array [dest]. *)
Definition safe_strncpy (dest : list ascii) (src : string) (max_len : nat) : list ascii :=
  let len := Nat.min (length (chars src)) (max_len - 1) in
  take len (chars src) ++ NUL :: drop (S len) dest.

Definition to_net_order (uninit : list ascii) (order : Order) : NetOrder :=
  mkNetOrder (o_order_id order) (safe_strncpy uninit (o_symbol order) 8)
    (Side_to_u8 (o_side order)) (OrderType_to_u8 (o_type order))
    (o_price order) (o_quantity order) (o_timestamp order).

(** [client_id] keeps its default member initialiser. *)
Definition from_net_order (net : NetOrder) : outcome Order :=
  let* sym := c_string (no_symbol net) in
  Ok (mkOrder (no_order_id net) sym (Side_of_u8 (no_side net)) (OrderType_of_u8 (no_type net))
        (no_price net) (no_quantity net) (no_quantity net) (no_timestamp net) 0).

Definition from_net_cancel (net : NetCancel) : outcome CancelRequest :=
  let* sym := c_string (nc_symbol net) in
  Ok (mkCancelRequest (nc_order_id net) sym (nc_timestamp net) 0).

Definition to_net_cancel (uninit : list ascii) (req : CancelRequest) : NetCancel :=
  mkNetCancel (c_order_id req) (safe_strncpy uninit (c_symbol req) 8) (c_timestamp req).

Definition from_net_modify (net : NetModify) : outcome ModifyRequest :=
  let* sym := c_string (nm_symbol net) in
  Ok (mkModifyRequest (nm_order_id net) sym (nm_price net) (nm_quantity net)
        (nm_timestamp net) 0).

Definition to_net_modify (uninit : list ascii) (req : ModifyRequest) : NetModify :=
  mkNetModify (m_order_id req) (safe_strncpy uninit (m_symbol req) 8)
    (m_price req) (m_quantity req) (m_timestamp req).

Definition to_net_report (uninit_symbol uninit_reason : list ascii) (report : ExecutionReport)
    : NetExecutionReport :=
  mkNetExecutionReport (er_order_id report) (safe_strncpy uninit_symbol (er_symbol report) 8)
    (Side_to_u8 (er_side report)) (OrderStatus_to_u8 (er_status report))
    (er_price report) (er_quantity report) (er_remaining_quantity report)
    (er_last_qty report) (er_last_px report) (er_timestamp report)
    (safe_strncpy uninit_reason (er_reject_reason report) 32).

(** ** Field ranges of the domain objects *)

Record order_fields_ok (o : Order) : Prop := mkOrderFieldsOk {
  of_id : is_u64 (o_order_id o);
  of_side : Side_ok (o_side o);
  of_type : OrderType_ok (o_type o);
  of_price : is_u64 (o_price o);
  of_qty : is_u32 (o_quantity o);
  of_ts : is_u64 (o_timestamp o) }.

Record cancel_fields_ok (c : CancelRequest) : Prop := mkCancelFieldsOk {
  cf_id : is_u64 (c_order_id c);
  cf_ts : is_u64 (c_timestamp c) }.

Record modify_fields_ok (m : ModifyRequest) : Prop := mkModifyFieldsOk {
  mf_id : is_u64 (m_order_id m);
  mf_price : is_u64 (m_price m);
  mf_qty : is_u32 (m_quantity m);
  mf_ts : is_u64 (m_timestamp m) }.

Record report_fields_ok (r : ExecutionReport) : Prop := mkReportFieldsOk {
  rf_id : is_u64 (er_order_id r);
  rf_side : Side_ok (er_side r);
  rf_price : is_u64 (er_price r);
  rf_qty : is_u32 (er_quantity r);
  rf_rem : is_u32 (er_remaining_quantity r);
  rf_lq : is_u32 (er_last_qty r);
  rf_lpx : is_u64 (er_last_px r);
  rf_ts : is_u64 (er_timestamp r) }.

(** ** Facts about the packed structs *)

Lemma join_le n (bs x : list ascii) : (n <= length bs)%nat -> x = drop n bs ->
  le_encode n (le_decode (take n bs)) ++ x = bs.
Proof.
  intros Hn ->. pose proof (encode_read n bs Hn) as E. unfold read_le in E; simpl in E.
  rewrite E. apply take_drop.
Qed.

Lemma join_chars n (bs x : list ascii) : x = drop n bs -> take n bs ++ x = bs.
Proof. intros ->. apply take_drop. Qed.

Lemma join_le_last n (bs : list ascii) : length bs = n -> le_encode n (le_decode (take n bs)) = bs.
Proof. intros <-. rewrite firstn_all. by apply le_encode_decode. Qed.

Lemma join_chars_last n (bs : list ascii) : length bs = n -> take n bs = bs.
Proof. intros <-. apply firstn_all. Qed.

Lemma fits_take n (bs : list ascii) : (n <= length bs)%nat -> fits n (le_decode (take n bs)).
Proof. apply read_le_fits. Qed.

(** The three laws of a packed struct, field by field. *)
Ltac solve_length := rewrite ?length_app, ?length_le_encode, ?length_drop in *; lia.

Ltac packed_laws I :=
  constructor; unfold pack, unpack, fields_ok, sizeof, I;
  [ intros a Hok; destruct_and? Hok; solve_length
  | intros a rest Hok; destruct a; simpl in Hok; destruct_and? Hok; cbn beta iota;
    rewrite <- ?app_assoc;
    repeat first [rewrite read_le_app by assumption | rewrite read_chars_app by assumption]; done
  | intros bs Hbs; cbn beta iota delta [read_le read_chars]; split;
    [ split_and?; first [apply fits_take; solve_length | apply length_take_le; solve_length]
    | repeat first [ apply join_le; [solve_length|] | apply join_chars
                   | apply join_le_last; solve_length | apply join_chars_last; solve_length ] ] ].

#[export] Instance MsgHeader_Laws : PackedLaws MsgHeader.
Proof. packed_laws MsgHeader_Packed. Qed.

#[export] Instance NetOrder_Laws : PackedLaws NetOrder.
Proof. packed_laws NetOrder_Packed. Qed.

#[export] Instance NetCancel_Laws : PackedLaws NetCancel.
Proof. packed_laws NetCancel_Packed. Qed.

#[export] Instance NetModify_Laws : PackedLaws NetModify.
Proof. packed_laws NetModify_Packed. Qed.

#[export] Instance NetExecutionReport_Laws : PackedLaws NetExecutionReport.
Proof. packed_laws NetExecutionReport_Packed. Qed.
