(* ===== verification/SerializerTheorems.v ===== *)
(** * Correctness of the wire format

    Round trips of the conversions of [gateway/binary_serializer.hpp] through
    their memory images, the bounds of [safe_strncpy], and when reading a symbol
    off the wire has no meaning. *)

From stdpp Require Import base list sets strings.
From Stdlib Require Import ZArith Lia Ascii.
From S2P Require Import Prelude Types Bytes BinarySerializer.
Local Open Scope exchange_scope.
Local Open Scope list_scope.

(** ** Definitions *)

(** What a NUL-terminated array of [n] characters can keep of a string: its
    first [n - 1] characters, up to an embedded NUL. *)
Fixpoint before_nul (bs : list ascii) : list ascii :=
  match bs with
  | [] => []
  | b :: bs => if Ascii.eqb b NUL then [] else b :: before_nul bs
  end.

Definition kept (n : nat) (s : string) : string :=
  String.string_of_list_ascii (before_nul (take (n - 1) (chars s))).

(** What survives of an order, a cancel and a modify request on the wire. *)
Definition wire_order (o : Order) : Order :=
  mkOrder (o_order_id o) (kept 8 (o_symbol o)) (o_side o) (o_type o) (o_price o)
    (o_quantity o) (o_quantity o) (o_timestamp o) 0.

Definition wire_cancel (c : CancelRequest) : CancelRequest :=
  mkCancelRequest (c_order_id c) (kept 8 (c_symbol c)) (c_timestamp c) 0.

Definition wire_modify (m : ModifyRequest) : ModifyRequest :=
  mkModifyRequest (m_order_id m) (kept 8 (m_symbol m)) (m_price m) (m_quantity m)
    (m_timestamp m) 0.

Definition w_uninit (n : nat) : list ascii := repeat (Ascii.ascii_of_nat 204) n.

Definition w_wire_order : Order := mkOrder 1001 "AAPL" Buy Limit 15000 100 60 1001 3.

(** ** [safe_strncpy] and C strings *)

Lemma before_nul_until s rest : until_nul (s ++ NUL :: rest) = Some (before_nul s).
Proof.
  induction s as [|c s IH]; cbn [before_nul until_nul app].
  - by rewrite Ascii.eqb_refl.
  - destruct (Ascii.eqb c NUL); [done|]. by rewrite IH.
Qed.

Lemma before_nul_id s : NUL ∉ s -> before_nul s = s.
Proof.
  induction s as [|c s IH]; cbn [before_nul]; [done|]. intros Hs.
  rewrite (proj2 (Ascii.eqb_neq c NUL)) by set_solver. by rewrite IH by set_solver.
Qed.

Lemma safe_strncpy_take dest src n :
  safe_strncpy dest src n =
    take (n - 1) (chars src) ++ NUL :: drop (S (Nat.min (length (chars src)) (n - 1))) dest.
Proof.
  unfold safe_strncpy. f_equal. destruct (le_lt_dec (length (chars src)) (n - 1)).
  - rewrite Nat.min_l by done. rewrite !take_ge by lia. done.
  - by rewrite Nat.min_r by lia.
Qed.

(** The conversions never read past an array they filled themselves. *)
Lemma c_string_strncpy dest src n : c_string (safe_strncpy dest src n) = Ok (kept n src).
Proof. unfold c_string. by rewrite safe_strncpy_take, before_nul_until. Qed.

Lemma kept_id n s : fits_chars n s -> kept n s = s.
Proof.
  intros [Hl Hn]. unfold kept. rewrite take_ge by lia. rewrite before_nul_id by done.
  apply string_of_chars.
Qed.

Lemma length_strncpy dest src n :
  (1 <= n <= length dest)%nat -> length (safe_strncpy dest src n) = length dest.
Proof.
  intros Hn. rewrite safe_strncpy_take, length_app. cbn [length].
  rewrite length_take, length_drop. lia.
Qed.

(** ** Values of the domain types fit the wire fields *)

Lemma fits_u64 z : is_u64 z -> fits 8 z.
Proof. done. Qed.

Lemma fits_u32 z : is_u32 z -> fits 4 z.
Proof. done. Qed.

Lemma fits_side s : Side_ok s -> fits 1 (Side_to_u8 s).
Proof. unfold fits. destruct s as [| |v]; simpl; lia. Qed.

Lemma fits_type t : OrderType_ok t -> fits 1 (OrderType_to_u8 t).
Proof. unfold fits. destruct t as [| |v]; simpl; lia. Qed.

Lemma fits_status s : fits 1 (OrderStatus_to_u8 s).
Proof. unfold fits. destruct s; simpl; lia. Qed.

#[export] Hint Resolve fits_u64 fits_u32 fits_side fits_type fits_status : exchange.

Lemma to_net_order_fields u o :
  order_fields_ok o -> length u = 8 -> fields_ok (to_net_order u o).
Proof.
  intros [] Hu. unfold fields_ok, NetOrder_Packed. simpl. rewrite length_strncpy by lia.
  split_and!; auto with exchange.
Qed.

Lemma to_net_cancel_fields u c :
  cancel_fields_ok c -> length u = 8 -> fields_ok (to_net_cancel u c).
Proof.
  intros [] Hu. unfold fields_ok, NetCancel_Packed. simpl. rewrite length_strncpy by lia.
  split_and!; auto with exchange.
Qed.

Lemma to_net_modify_fields u m :
  modify_fields_ok m -> length u = 8 -> fields_ok (to_net_modify u m).
Proof.
  intros [] Hu. unfold fields_ok, NetModify_Packed. simpl. rewrite length_strncpy by lia.
  split_and!; auto with exchange.
Qed.

Lemma to_net_report_fields u v r :
  report_fields_ok r -> length u = 8 -> length v = 32 -> fields_ok (to_net_report u v r).
Proof.
  intros [] Hu Hv. unfold fields_ok, NetExecutionReport_Packed. simpl.
  rewrite !length_strncpy by lia. split_and!; auto with exchange.
Qed.

(** ** The conversions, struct to struct *)

Lemma from_to_order u o : Side_ok (o_side o) -> OrderType_ok (o_type o) ->
  from_net_order (to_net_order u o) = Ok (wire_order o).
Proof.
  intros Hs Ht. unfold from_net_order, to_net_order. simpl. rewrite c_string_strncpy. simpl.
  by rewrite Side_of_to_u8, OrderType_of_to_u8.
Qed.

Lemma from_to_cancel u c : from_net_cancel (to_net_cancel u c) = Ok (wire_cancel c).
Proof. unfold from_net_cancel, to_net_cancel. simpl. by rewrite c_string_strncpy. Qed.

Lemma from_to_modify u m : from_net_modify (to_net_modify u m) = Ok (wire_modify m).
Proof. unfold from_net_modify, to_net_modify. simpl. by rewrite c_string_strncpy. Qed.

Lemma w_order_fields : order_fields_ok w_wire_order.
Proof. constructor; unfold is_u64, is_u32; simpl; lia || done. Qed.

(** ** Properties *)

(** C21: an order written to the wire and read back, whatever follows it in the
    buffer and whatever the uninitialised array held: every field survives, the
    symbol to its first seven characters, [remaining_quantity] restarts at
    [quantity] and the client id is not carried. *)
Theorem order_wire_roundtrip uninit o rest :
  order_fields_ok o -> length uninit = 8 ->
  length (pack (to_net_order uninit o)) = sizeof NetOrder /\
  from_net_order (unpack (pack (to_net_order uninit o) ++ rest)) = Ok (wire_order o).
Proof.
  intros Ho Hu. pose proof (to_net_order_fields uninit o Ho Hu) as Hf. split.
  - by apply pack_length.
  - rewrite unpack_pack by done. apply from_to_order; apply Ho.
Qed.

Lemma order_wire_roundtrip_witness :
  length (pack (to_net_order (w_uninit 8) w_wire_order)) = 38 /\
  from_net_order (unpack (pack (to_net_order (w_uninit 8) w_wire_order) ++ [NUL]))
    = Ok (mkOrder 1001 "AAPL" Buy Limit 15000 100 100 1001 0).
Proof. exact (order_wire_roundtrip (w_uninit 8) w_wire_order [NUL] w_order_fields eq_refl). Defined.

(** The same for cancel and modify requests. *)
Theorem request_wire_roundtrip uninit c m rest :
  cancel_fields_ok c -> modify_fields_ok m -> length uninit = 8 ->
  from_net_cancel (unpack (pack (to_net_cancel uninit c) ++ rest)) = Ok (wire_cancel c) /\
  from_net_modify (unpack (pack (to_net_modify uninit m) ++ rest)) = Ok (wire_modify m).
Proof.
  intros Hc Hm Hu. rewrite !unpack_pack by auto using to_net_cancel_fields, to_net_modify_fields.
  split; [apply from_to_cancel|apply from_to_modify].
Qed.

Lemma request_wire_roundtrip_witness :
  from_net_cancel (unpack (pack (to_net_cancel (w_uninit 8) (mkCancelRequest 7 "MSFT" 9 2)) ++ []))
    = Ok (mkCancelRequest 7 "MSFT" 9 0) /\
  from_net_modify (unpack (pack (to_net_modify (w_uninit 8) (mkModifyRequest 7 "MSFT" 3 4 9 2)) ++ []))
    = Ok (mkModifyRequest 7 "MSFT" 3 4 9 0).
Proof.
  apply (request_wire_roundtrip (w_uninit 8) (mkCancelRequest 7 "MSFT" 9 2)
    (mkModifyRequest 7 "MSFT" 3 4 9 2) []);
    [constructor; unfold is_u64; simpl; lia|constructor; unfold is_u64, is_u32; simpl; lia|done].
Defined.

(** A block of the right size is an order in exactly one way: every field
    value is in range and packing what was read gives the block back.  Turning
    it into an [Order] is undefined exactly when the eight symbol bytes hold no
    NUL; otherwise the symbol fits the array it came from. *)
Theorem order_from_bytes bs :
  length bs = sizeof NetOrder ->
  let net := unpack bs : NetOrder in
  fields_ok net /\ pack net = bs /\
  (from_net_order net = Fault UnterminatedString <-> NUL ∉ no_symbol net) /\
  (forall o, from_net_order net = Ok o ->
     fits_chars 8 (o_symbol o) /\ is_u64 (o_order_id o) /\ is_u64 (o_price o) /\
     is_u32 (o_quantity o) /\ o_remaining_quantity o = o_quantity o /\ o_client_id o = 0%Z).
Proof.
  intros Hl net. destruct (pack_unpack bs Hl) as [Hf Hp]. fold net in Hf, Hp.
  split_and!; [done|done| |].
  - rewrite <- c_string_undefined. unfold from_net_order.
    destruct (c_string (no_symbol net)) as [s|f]; cbn [obind]; split; congruence.
  - intros o Ho. unfold from_net_order in Ho. apply obind_ok in Ho as (s & Hs & [= <-]). simpl.
    destruct Hf as (H1 & H2 & H3 & H4 & H5 & H6 & H7). apply c_string_fits in Hs.
    rewrite H2 in Hs. done.
Qed.

Lemma order_from_bytes_witness :
  from_net_order (unpack (repeat (Ascii.ascii_of_nat 65) 38)) = Fault UnterminatedString.
Proof.
  destruct (order_from_bytes (repeat (Ascii.ascii_of_nat 65) 38) eq_refl) as (_ & _ & H & _).
  apply H. apply (bool_decide_unpack _). vm_compute. exact I.
Defined.

(** [safe_strncpy] stays inside the array: it keeps the array's length,
    leaves a NUL within [max_len], and every byte behind that NUL is the one the
    array held before (so an uninitialised local's bytes reach the wire). *)
Theorem safe_strncpy_bounds dest src max_len :
  (1 <= max_len <= length dest)%nat ->
  let len := Nat.min (length (chars src)) (max_len - 1) in
  length (safe_strncpy dest src max_len) = length dest /\
  (len < max_len)%nat /\
  take len (safe_strncpy dest src max_len) = take len (chars src) /\
  safe_strncpy dest src max_len !! len = Some NUL /\
  drop (S len) (safe_strncpy dest src max_len) = drop (S len) dest.
Proof.
  intros Hn len. split_and!; [by apply length_strncpy|lia| | |]; unfold safe_strncpy; fold len;
    assert (length (take len (chars src)) = len) as Hlen by (rewrite length_take; lia).
  - by rewrite take_app_length'.
  - rewrite list_lookup_middle; done.
  - replace (S len) with (length (take len (chars src)) + 1)%nat at 1 by lia.
    by rewrite <- drop_drop, drop_app_length.
Qed.

Lemma safe_strncpy_bounds_witness :
  safe_strncpy (w_uninit 8) "AAPL" 8 !! 4 = Some NUL /\
  drop 5 (safe_strncpy (w_uninit 8) "AAPL" 8) = drop 5 (w_uninit 8).
Proof.
  destruct (safe_strncpy_bounds (w_uninit 8) "AAPL" 8) as (_ & _ & _ & H1 & H2);
    [simpl; lia|split; [exact H1|exact H2]].
Defined.

(** An execution report's packet has the declared size and its fields can be
    read back from it, the reject reason to its first 31 characters. *)
Theorem report_wire_roundtrip uninit_symbol uninit_reason r rest :
  report_fields_ok r -> length uninit_symbol = 8 -> length uninit_reason = 32 ->
  let net := to_net_report uninit_symbol uninit_reason r in
  length (pack net) = sizeof NetExecutionReport /\ unpack (pack net ++ rest) = net /\
  c_string (ne_symbol net) = Ok (kept 8 (er_symbol r)) /\
  c_string (ne_reject_reason net) = Ok (kept 32 (er_reject_reason r)) /\
  Side_of_u8 (ne_side net) = er_side r.
Proof.
  intros Hr Hu Hv net. pose proof (to_net_report_fields _ _ r Hr Hu Hv) as Hf. fold net in Hf.
  split_and!.
  - by apply pack_length.
  - by apply unpack_pack.
  - apply c_string_strncpy.
  - apply c_string_strncpy.
  - apply Side_of_to_u8, Hr.
Qed.

Lemma report_wire_roundtrip_witness :
  c_string (ne_reject_reason (to_net_report (w_uninit 8) (w_uninit 32)
    (mkExecutionReport 1 "AAPL" Buy Cancelled 0 50 50 0 0 9 "Market Order Expired / Unfilled Qty" 1)))
  = Ok "Market Order Expired / Unfilled"%string.
Proof.
  refine (proj1 (proj2 (proj2 (proj2 (report_wire_roundtrip (w_uninit 8) (w_uninit 32)
    (mkExecutionReport 1 "AAPL" Buy Cancelled 0 50 50 0 0 9 "Market Order Expired / Unfilled Qty" 1)
    [] _ eq_refl eq_refl))))).
  constructor; unfold is_u64, is_u32; simpl; lia || done.
Defined.
