(* ===== verification/MatchingEngine.v ===== *)
(** * MatchingEngine: one match of a buy against a sell order

    [MatchingEngine::matchOrders] of [engine/matching_engine.cpp]. *)

From stdpp Require Import base list strings.
From Stdlib Require Import ZArith Lia.
From S2P Require Import Prelude Types.

(** The execution report both sides get; [last_qty] is the matched quantity. *)
Definition fill_report (o : Order) (match_qty : Quantity) (exec_price : Price)
    (now : Timestamp) : ExecutionReport :=
  mkExecutionReport (o_order_id o) (o_symbol o) (o_side o)
    (if (o_remaining_quantity o =? 0)%Z then Filled else PartiallyFilled)
    (o_price o) (o_quantity o) (o_remaining_quantity o) match_qty exec_price now
    "" (o_client_id o).

(** The price of the order with the smaller time stamp, the buy order's on a tie. *)
Definition execution_price (buy_order sell_order : Order) : Price :=
  if (o_timestamp sell_order <? o_timestamp buy_order)%Z
  then o_price sell_order else o_price buy_order.

Definition matchOrders (buy_order sell_order : Order) (symbol : Symbol)
    (result : MatchResult) (env : Env) : Order * Order * MatchResult * Env :=
  let match_qty := Z.min (o_remaining_quantity buy_order) (o_remaining_quantity sell_order) in
  if (match_qty =? 0)%Z then (buy_order, sell_order, result, env)
  else
    let '(trade_id, env) := next_id env in
    let '(now, env) := get_current_time_ns env in
    let exec_price := execution_price buy_order sell_order in
    let fill := mkFill trade_id (o_order_id buy_order) (o_order_id sell_order)
                  symbol exec_price match_qty now in
    let result := push_fill fill result in
    let buy_order :=
      set_remaining (u32 (o_remaining_quantity buy_order - match_qty)) buy_order in
    let sell_order :=
      set_remaining (u32 (o_remaining_quantity sell_order - match_qty)) sell_order in
    let result := push_report (fill_report buy_order match_qty exec_price now) result in
    let result := push_report (fill_report sell_order match_qty exec_price now) result in
    (buy_order, sell_order, result, env).
