(* ===== verification/Fifo.v ===== *)
(** * The interface between the queues and their clients

    What [WAL] and [ThreadPool] rely on: a queue stands for a list of values and
    a closed flag, [enqueue] appends unless the queue is closed, [dequeue] takes
    the head.  [MPSCQueue] discharges the laws for its linked list of nodes. *)

From stdpp Require Import base list.
From S2P Require Import Prelude.
Local Open Scope exchange_scope.

(** ** Definitions *)

Class Fifo (Q T : Type) : Type := {
  fifo_new : Q;
  fifo_enqueue : T -> Q -> outcome (bool * Q);
  fifo_dequeue : Q -> outcome (option T * Q);
  fifo_empty : Q -> outcome bool;
  fifo_close : Q -> Q }.

(** [fifo_repr q closed vs]: the queue [q] holds [vs], oldest first. *)
Class FifoLaws (Q T : Type) `{Fifo Q T} : Type := {
  fifo_repr : Q -> bool -> list T -> Prop;
  fifo_new_repr : fifo_repr fifo_new false [];
  fifo_enqueue_closed q vs v :
    fifo_repr q true vs -> fifo_enqueue v q = Ok (false, q);
  fifo_enqueue_open q vs v :
    fifo_repr q false vs ->
    exists q', fifo_enqueue v q = Ok (true, q') /\ fifo_repr q' false (vs ++ [v]);
  fifo_dequeue_nil q c :
    fifo_repr q c [] -> fifo_dequeue q = Ok (None, q);
  fifo_dequeue_cons q c v vs :
    fifo_repr q c (v :: vs) ->
    exists q', fifo_dequeue q = Ok (Some v, q') /\ fifo_repr q' c vs;
  fifo_empty_repr q c vs :
    fifo_repr q c vs -> fifo_empty q = Ok (match vs with [] => true | _ => false end);
  fifo_close_repr q c vs :
    fifo_repr q c vs -> fifo_repr (fifo_close q) true vs }.

(** Calls of one client, and the answers: [enqueue] returns a [bool],
    [dequeue] an [std::optional<T>]. *)
Inductive fifo_call (T : Type) : Type :=
  | F_enqueue (v : T)
  | F_dequeue
  | F_close.

Inductive fifo_answer (T : Type) : Type :=
  | R_bool (b : bool)
  | R_value (v : option T)
  | R_void.

Arguments F_enqueue {T} v.
Arguments F_dequeue {T}.
Arguments F_close {T}.
Arguments R_bool {T} b.
Arguments R_value {T} v.
Arguments R_void {T}.

Section Runs.
Context {Q T : Type} `{Fifo Q T}.

Definition fifo_call_step (c : fifo_call T) (q : Q) : outcome (fifo_answer T * Q) :=
  match c with
  | F_enqueue v => let* (b, q) := fifo_enqueue v q in Ok (R_bool b, q)
  | F_dequeue => let* (v, q) := fifo_dequeue q in Ok (R_value v, q)
  | F_close => Ok (R_void, fifo_close q)
  end.

Fixpoint fifo_run (cs : list (fifo_call T)) (q : Q) : outcome (list (fifo_answer T) * Q) :=
  match cs with
  | [] => Ok ([], q)
  | c :: cs =>
      let* (a, q) := fifo_call_step c q in
      let* (bs, q) := fifo_run cs q in
      Ok (a :: bs, q)
  end.
End Runs.

(** The abstract queue: a closed flag and the list of values. *)
Definition list_call_step {T} (c : fifo_call T) (st : bool * list T) : fifo_answer T * (bool * list T) :=
  let '(closed, vs) := st in
  match c with
  | F_enqueue v => if closed then (R_bool false, st) else (R_bool true, (closed, vs ++ [v]))
  | F_dequeue =>
      match vs with
      | [] => (R_value None, st)
      | v :: vs => (R_value (Some v), (closed, vs))
      end
  | F_close => (R_void, (true, vs))
  end.

Fixpoint list_run {T} (cs : list (fifo_call T)) (st : bool * list T) : list (fifo_answer T) * (bool * list T) :=
  match cs with
  | [] => ([], st)
  | c :: cs =>
      let '(a, st) := list_call_step c st in
      let '(bs, st) := list_run cs st in
      (a :: bs, st)
  end.

(** ** Facts *)

Section Facts.
Context {Q T : Type} `{FifoLaws Q T}.

Lemma fifo_call_refines c q st :
  fifo_repr q st.1 st.2 ->
  exists q', fifo_call_step c q = Ok ((list_call_step c st).1, q') /\
    fifo_repr q' (list_call_step c st).2.1 (list_call_step c st).2.2.
Proof.
  destruct st as [closed vs]. simpl. intros Hq. destruct c as [v| |]; simpl.
  - destruct closed.
    + exists q. by rewrite (fifo_enqueue_closed q vs).
    + destruct (fifo_enqueue_open q vs v Hq) as (q' & -> & Hq'). by exists q'.
  - destruct vs as [|v vs].
    + exists q. by rewrite (fifo_dequeue_nil q closed).
    + destruct (fifo_dequeue_cons q closed v vs Hq) as (q' & -> & Hq'). by exists q'.
  - eexists. split; [done|]. by eapply fifo_close_repr.
Qed.

(** Every run of calls answers what the list answers. *)
Lemma fifo_run_refines cs : forall q st,
  fifo_repr q st.1 st.2 ->
  exists q', fifo_run cs q = Ok ((list_run cs st).1, q') /\
    fifo_repr q' (list_run cs st).2.1 (list_run cs st).2.2.
Proof.
  induction cs as [|c cs IH]; intros q st Hq; simpl; [by exists q|].
  destruct (fifo_call_refines c q st Hq) as (q1 & -> & Hq1). simpl.
  destruct (list_call_step c st) as [a st1]. simpl in *.
  destruct (IH q1 st1 Hq1) as (q2 & -> & Hq2). simpl.
  destruct (list_run cs st1) as [bs st2]. simpl in *. by exists q2.
Qed.
End Facts.
