(* ===== verification/MpscQueue.v ===== *)
(** * MPSCQueue: the multi-producer single-consumer linked queue

    [pipeline/mpsc_queue.hpp].  The nodes live in a heap from addresses to
    nodes; [delete] removes a node, and reading or writing a node that is not in
    the heap is the fault [UseAfterFree].  Each atomic access of the code is one
    function on the shared state; [enqueue] and [dequeue] compose them for one
    caller, and [mstep] interleaves them for any number of producers and the one
    consumer. *)

From stdpp Require Import base list gmap sets.
From Stdlib Require Import ZArith Lia.
From S2P Require Import Prelude Fifo.
Local Open Scope exchange_scope.

(** ** Definitions *)

Section Queue.
Context {T : Type}.

(** [data] is [None] in the stub node and in a node whose value was moved out. *)
Record QNode : Type := mkQNode {
  data : option T;
  next : option nat }.

Record MPSCQueue : Type := mkMPSCQueue {
  nodes : gmap nat QNode;
  tail_ : nat;
  head_ : nat;
  closed_ : bool;
  next_node : nat }.      (* the allocator: addresses below are used up *)

(** [MPSCQueue::MPSCQueue()]: one stub node. *)
Definition new_queue : MPSCQueue := mkMPSCQueue {[ 0 := mkQNode None None ]} 0 0 false 1.

(** [new Node(val)] and [tail_.exchange(new_node)]: the previous tail, the new
    node, and the state after. *)
Definition q_exchange (val : T) (q : MPSCQueue) : nat * nat * MPSCQueue :=
  let n := next_node q in
  (tail_ q, n,
   mkMPSCQueue (<[ n := mkQNode (Some val) None ]> (nodes q)) n (head_ q) (closed_ q) (S n)).

(** [prev_tail->next.store(new_node)] *)
Definition q_link (prev n : nat) (q : MPSCQueue) : outcome MPSCQueue :=
  match nodes q !! prev with
  | None => Fault UseAfterFree
  | Some nd =>
      Ok (mkMPSCQueue (<[ prev := mkQNode (data nd) (Some n) ]> (nodes q))
            (tail_ q) (head_ q) (closed_ q) (next_node q))
  end.

(** [head_->next.load()] *)
Definition q_load_next (q : MPSCQueue) : outcome (option nat) :=
  match nodes q !! head_ q with
  | None => Fault UseAfterFree
  | Some nd => Ok (next nd)
  end.

(** [T val = std::move(next->data); head_ = next; delete head;] *)
Definition q_take (n : nat) (q : MPSCQueue) : outcome (T * MPSCQueue) :=
  match nodes q !! n with
  | Some (mkQNode (Some val) nx) =>
      Ok (val, mkMPSCQueue (delete (head_ q) (<[ n := mkQNode None nx ]> (nodes q)))
                 (tail_ q) n (closed_ q) (next_node q))
  | _ => Fault UseAfterFree
  end.

Definition q_close (q : MPSCQueue) : MPSCQueue :=
  mkMPSCQueue (nodes q) (tail_ q) (head_ q) true (next_node q).

Definition enqueue (val : T) (q : MPSCQueue) : outcome (bool * MPSCQueue) :=
  if closed_ q then Ok (false, q)
  else
    let '(prev_tail, new_node, q) := q_exchange val q in
    let* q := q_link prev_tail new_node q in
    Ok (true, q).

Definition dequeue (q : MPSCQueue) : outcome (option T * MPSCQueue) :=
  let* nx := q_load_next q in
  match nx with
  | None => Ok (None, q)
  | Some n => let* (val, q) := q_take n q in Ok (Some val, q)
  end.

Definition q_empty (q : MPSCQueue) : outcome bool :=
  let* nx := q_load_next q in
  Ok (match nx with None => true | Some _ => false end).

(** [while (auto item = dequeue()) {}] of the destructor. *)
Fixpoint drain (fuel : nat) (q : MPSCQueue) : outcome MPSCQueue :=
  match fuel with
  | O => Fault OutOfFuel
  | S fuel =>
      let* (v, q) := dequeue q in
      match v with Some _ => drain fuel q | None => Ok q end
  end.

(** [~MPSCQueue()]: the nodes left in the heap after it. *)
Definition destroy (fuel : nat) (q : MPSCQueue) : outcome (gmap nat QNode) :=
  let* q := drain fuel (q_close q) in
  Ok (delete (head_ q) (nodes q)).

(** ** Interleaving *)

(** Where a call of [enqueue] is: about to test [closed_], past the test, or
    past the exchange with the link still to store. *)
Inductive producer : Type :=
  | P_test (val : T)
  | P_exchange (val : T)
  | P_link (prev n : nat).

(** Where the consumer is: between calls, or in [dequeue] past the load of a
    non-null [next]. *)
Inductive consumer : Type :=
  | C_idle
  | C_take (n : nat).

(** [enqueued] lists the values in the order of their exchanges, [dequeued] those
    the consumer received, [returned] the results of finished [enqueue] calls. *)
Record System : Type := mkSystem {
  queue : MPSCQueue;
  producers : gmap nat producer;
  cons_pc : consumer;
  enqueued : list T;
  dequeued : list T }.

Definition init_system : System := mkSystem new_queue ∅ C_idle [] [].

Inductive action : Type :=
  | A_call (tid : nat) (val : T)     (* thread tid calls enqueue(val) *)
  | A_producer (tid : nat)           (* thread tid performs its next access *)
  | A_dequeue                        (* the consumer performs its next access *)
  | A_close.

(** [None] when the action is not enabled. *)
Definition mstep (a : action) (s : System) : option (outcome System) :=
  match a with
  | A_call tid val =>
      match producers s !! tid with
      | Some _ => None
      | None => Some (Ok (mkSystem (queue s) (<[ tid := P_test val ]> (producers s))
                            (cons_pc s) (enqueued s) (dequeued s)))
      end
  | A_producer tid =>
      match producers s !! tid with
      | None => None
      | Some (P_test val) =>
          Some (Ok (mkSystem (queue s)
            (if closed_ (queue s) then delete tid (producers s)
             else <[ tid := P_exchange val ]> (producers s))
            (cons_pc s) (enqueued s) (dequeued s)))
      | Some (P_exchange val) =>
          let '(prev, n, q) := q_exchange val (queue s) in
          Some (Ok (mkSystem q (<[ tid := P_link prev n ]> (producers s))
            (cons_pc s) (enqueued s ++ [val]) (dequeued s)))
      | Some (P_link prev n) =>
          Some (let* q := q_link prev n (queue s) in
                Ok (mkSystem q (delete tid (producers s)) (cons_pc s) (enqueued s) (dequeued s)))
      end
  | A_dequeue =>
      match cons_pc s with
      | C_idle =>
          Some (let* nx := q_load_next (queue s) in
                match nx with
                | None => Ok s
                | Some n => Ok (mkSystem (queue s) (producers s) (C_take n) (enqueued s) (dequeued s))
                end)
      | C_take n =>
          Some (let* (val, q) := q_take n (queue s) in
                Ok (mkSystem q (producers s) C_idle (enqueued s) (dequeued s ++ [val])))
      end
  | A_close =>
      Some (Ok (mkSystem (q_close (queue s)) (producers s) (cons_pc s) (enqueued s) (dequeued s)))
  end.

Definition sys_step (s s' : System) : Prop := exists a, mstep a s = Some (Ok s').

Definition sys_reachable : System -> Prop := reachable (fun s => s = init_system) sys_step.

(** ** The invariant *)

(** Consecutive elements. *)
Fixpoint links (ls : list nat) : list (nat * nat) :=
  match ls with
  | a :: (b :: _) as ls' => (a, b) :: links ls'
  | _ => []
  end.

(** [ls] is the list of the live nodes in exchange order, from the stub to the
    tail, and [vs] the values of all but the first. *)
Record chain (q : MPSCQueue) (pend : nat -> nat -> Prop) (ls : list nat) (vs : list T) : Prop :=
  mkChain {
  ch_head : exists rest, ls = head_ q :: rest /\ Forall2 (fun l v =>
              exists nx, nodes q !! l = Some (mkQNode (Some v) nx)) rest vs;
  ch_tail : last ls = Some (tail_ q);
  ch_nodup : NoDup ls;
  ch_fresh : Forall (fun l => l < next_node q)%nat ls;
  ch_live : forall l, is_Some (nodes q !! l) <-> l ∈ ls;
  ch_last : exists d, nodes q !! tail_ q = Some (mkQNode d None);
  ch_link : forall a b, (a, b) ∈ links ls ->
    exists d, nodes q !! a = Some (mkQNode d (Some b)) \/
              (nodes q !! a = Some (mkQNode d None) /\ pend a b);
  ch_pend : forall a b, pend a b ->
    (a, b) ∈ links ls /\ exists d, nodes q !! a = Some (mkQNode d None) }.

Definition pending (ps : gmap nat producer) (a b : nat) : Prop :=
  exists tid, ps !! tid = Some (P_link a b).

Definition pending_unique (ps : gmap nat producer) : Prop :=
  forall t1 t2 a b1 b2,
    ps !! t1 = Some (P_link a b1) -> ps !! t2 = Some (P_link a b2) -> t1 = t2.

Record sys_inv (s : System) : Prop := mkSysInv {
  si_chain : exists ls vs, chain (queue s) (pending (producers s)) ls vs /\
               enqueued s = dequeued s ++ vs;
  si_unique : pending_unique (producers s);
  si_cons : match cons_pc s with
            | C_idle => True
            | C_take n => exists d, nodes (queue s) !! head_ (queue s) = Some (mkQNode d (Some n))
            end }.

(** A queue no call is in the middle of, holding the values [vs]. *)
Definition holds (q : MPSCQueue) (vs : list T) : Prop :=
  exists ls, chain q (fun _ _ => False) ls vs.

End Queue.

Arguments MPSCQueue T : clear implicits.
Arguments QNode T : clear implicits.
Arguments System T : clear implicits.
Arguments producer T : clear implicits.
Arguments action T : clear implicits.

(** ** Facts *)

Section Facts.
Context {T : Type}.
Implicit Types (q : MPSCQueue T) (vs : list T) (s : System T).

Lemma links_cons a b ls : links (a :: b :: ls) = (a, b) :: links (b :: ls).
Proof. done. Qed.

Lemma links_snoc ls a b : last ls = Some a -> links (ls ++ [b]) = links ls ++ [(a, b)].
Proof.
  induction ls as [|x [|y ls] IH]; intros H; [done|by injection H as ->|].
  rewrite <- !app_comm_cons, !links_cons, <- app_comm_cons. f_equal. by apply IH.
Qed.

Lemma links_fst ls a b : (a, b) ∈ links ls -> a ∈ ls /\ b ∈ ls.
Proof.
  induction ls as [|x [|y ls] IH]; try (intros H; by apply not_elem_of_nil in H).
  rewrite links_cons. intros [[= -> ->]|H]%elem_of_cons; [set_solver|]. apply IH in H. set_solver.
Qed.

Lemma links_unique ls a b1 b2 : NoDup ls -> (a, b1) ∈ links ls -> (a, b2) ∈ links ls -> b1 = b2.
Proof.
  induction ls as [|x [|y ls] IH]; try (intros _ H; by apply not_elem_of_nil in H).
  rewrite links_cons.
  intros [Hx Hnd]%NoDup_cons [E1|H1]%elem_of_cons [E2|H2]%elem_of_cons.
  - congruence.
  - injection E1 as -> ->. by apply links_fst in H2 as [? _].
  - injection E2 as -> ->. by apply links_fst in H1 as [? _].
  - by apply IH.
Qed.

Lemma links_not_last ls a b : NoDup ls -> (a, b) ∈ links ls -> last ls <> Some a.
Proof.
  induction ls as [|x [|y ls] IH]; try (intros _ H; by apply not_elem_of_nil in H).
  rewrite links_cons. intros [Hx Hnd]%NoDup_cons [E|H]%elem_of_cons Hl.
  - injection E as -> ->. apply Hx. by apply last_Some_elem_of.
  - by eapply IH.
Qed.

Lemma new_chain : chain (new_queue (T:=T)) (fun _ _ => False) [0] [].
Proof.
  constructor; simpl; try done.
  - by exists [].
  - apply NoDup_singleton.
  - repeat constructor.
  - intros l. rewrite lookup_singleton_is_Some. set_solver.
  - by exists None.
  - intros a b H. by apply not_elem_of_nil in H.
Qed.

Lemma chain_ext q (P Q : nat -> nat -> Prop) ls vs :
  (forall a b, P a b <-> Q a b) -> chain q P ls vs -> chain q Q ls vs.
Proof.
  intros HPQ [H1 H2 H3 H4 H5 H6 H7 H8]. constructor; try done.
  - intros a b Hab. destruct (H7 a b Hab) as [d [Hd|[Hd Hp]]]; exists d; [by left|right].
    split; [done|by apply HPQ].
  - intros a b Hq. apply H8, HPQ, Hq.
Qed.

(** The exchange appends a node with a link to store. *)
Lemma chain_exchange q (P : nat -> nat -> Prop) ls vs v prev n q' :
  chain q P ls vs -> q_exchange v q = (prev, n, q') ->
  prev ∈ ls /\ n ∉ ls /\
  chain q' (fun a b => P a b \/ (a = prev /\ b = n)) (ls ++ [n]) (vs ++ [v]).
Proof.
  intros [H1 H2 H3 H4 H5 H6 H7 H8] [= <- <- <-].
  assert (Hn : next_node q ∉ ls).
  { intros Hin. rewrite Forall_forall in H4. apply H4 in Hin. lia. }
  assert (Ht : tail_ q ∈ ls) by by apply last_Some_elem_of.
  assert (Hne : forall a, a ∈ ls -> a <> next_node q) by (intros a Ha ->; done).
  split_and!; [done|done|]. constructor; cbn [nodes head_ tail_ next_node].
  - destruct H1 as (rest & -> & Hv). exists (rest ++ [next_node q]). split; [done|].
    apply Forall2_app; [|constructor; [|constructor]].
    + eapply Forall2_impl; [exact Hv|]. intros l v' [nx Hl]. exists nx.
      rewrite lookup_insert_ne; [done|]. intros <-. apply Hn. apply H5. eauto.
    + exists None. by rewrite lookup_insert_eq.
  - by rewrite last_snoc.
  - apply NoDup_app. split_and!; [done|set_solver|apply NoDup_singleton].
  - apply Forall_app. split; [|repeat constructor]. eapply Forall_impl; [exact H4|]. simpl. lia.
  - intros l. rewrite lookup_insert_is_Some, H5. set_solver.
  - exists (Some v). by rewrite lookup_insert_eq.
  - intros a b. rewrite (links_snoc _ (tail_ q)) by done. rewrite elem_of_app.
    intros [Hab|Hab%list_elem_of_singleton].
    + destruct (H7 a b Hab) as [d Hd]. pose proof (links_fst _ _ _ Hab) as [Ha _].
      exists d. rewrite lookup_insert_ne by (apply not_eq_sym; auto). naive_solver.
    + injection Hab as -> ->. destruct H6 as [d Hd]. exists d.
      rewrite lookup_insert_ne by (apply not_eq_sym; auto). right. auto.
  - intros a b [Hp|[-> ->]].
    + destruct (H8 a b Hp) as [Hab [d Hd]]. rewrite (links_snoc _ (tail_ q)) by done.
      split; [set_solver|]. exists d. rewrite lookup_insert_ne; [done|].
      apply not_eq_sym, Hne. by apply links_fst in Hab as [? _].
    + rewrite (links_snoc _ (tail_ q)) by done. split; [set_solver|].
      destruct H6 as [d Hd]. exists d. rewrite lookup_insert_ne; [done|]. by apply not_eq_sym, Hne.
Qed.

(** Storing a pending link never touches a deleted node. *)
Lemma chain_link q (P Q : nat -> nat -> Prop) ls vs a b :
  chain q P ls vs -> P a b ->
  (forall x y, Q x y <-> P x y /\ x <> a) ->
  exists q', q_link a b q = Ok q' /\ chain q' Q ls vs /\ head_ q' = head_ q /\
    closed_ q' = closed_ q /\
    (forall l d n, nodes q !! l = Some (mkQNode d (Some n)) -> nodes q' !! l = Some (mkQNode d (Some n))).
Proof.
  intros [H1 H2 H3 H4 H5 H6 H7 H8] Hp HQ.
  destruct (H8 a b Hp) as [Hab [d Hd]]. unfold q_link. rewrite Hd.
  eexists. split; [done|]. split; [|split; [done|split; [done|]]].
  2:{ cbn [nodes]. intros l d' n Hl. rewrite lookup_insert_ne; [done|]. congruence. }
  pose proof (links_not_last _ _ _ H3 Hab) as Hnl.
  assert (a <> tail_ q) as Hat by congruence.
  constructor; cbn [nodes head_ tail_ next_node data]; try done.
  - destruct H1 as (rest & -> & Hv). exists rest. split; [done|].
    eapply Forall2_impl; [exact Hv|]. intros l v [nx Hl]. destruct (decide (l = a)) as [->|Hne].
    + exists (Some b). rewrite lookup_insert_eq. congruence.
    + exists nx. by rewrite lookup_insert_ne.
  - intros l. rewrite lookup_insert_is_Some, H5. apply links_fst in Hab as [Ha _].
    split; [intros [->|[_ ?]]; done|]. intros Hl. destruct (decide (a = l)); auto.
  - destruct H6 as [d' Hd']. exists d'. by rewrite lookup_insert_ne.
  - intros x y Hxy. destruct (decide (x = a)) as [->|Hne].
    + exists d. left. rewrite lookup_insert_eq. by rewrite (links_unique _ _ _ _ H3 Hxy Hab).
    + destruct (H7 x y Hxy) as [d' Hd']. exists d'. rewrite lookup_insert_ne by done.
      rewrite HQ. naive_solver.
  - intros x y [Hx Hne]%HQ. destruct (H8 x y Hx) as [Hxy [d' Hd']]. split; [done|].
    exists d'. by rewrite lookup_insert_ne.
Qed.

(** Taking the first value deletes a node nobody has a link to store into. *)
Lemma chain_take q (P : nat -> nat -> Prop) ls vs n d :
  chain q P ls vs -> nodes q !! head_ q = Some (mkQNode d (Some n)) ->
  exists v vs' ls' q', vs = v :: vs' /\ q_take n q = Ok (v, q') /\ chain q' P ls' vs' /\
    closed_ q' = closed_ q.
Proof.
  intros [H1 H2 H3 H4 H5 H6 H7 H8] Hh. destruct H1 as (rest & -> & Hv).
  destruct rest as [|m rest].
  { simpl in H2. injection H2 as H2. destruct H6 as [d' Hd']. rewrite <- H2 in Hd'. congruence. }
  assert (n = m) as ->.
  { destruct (H7 (head_ q) m) as [d' [Hd'|[Hd' _]]]; [by left|congruence|congruence]. }
  inversion Hv as [|? v ? vs' [nx Hm] Hv']; subst. apply NoDup_cons in H3 as [Hnh Hnd].
  assert (m <> head_ q) as Hmh by set_solver.
  pose proof Hnd as Hnd'. apply NoDup_cons in Hnd' as [Hmr _].
  exists v, vs', (m :: rest). eexists. split; [done|]. unfold q_take. rewrite Hm.
  split; [done|]. split; [|done].
  assert (Hoth : forall l, l ∈ rest -> delete (head_ q) (<[m:=mkQNode None nx]> (nodes q)) !! l = nodes q !! l).
  { intros l Hl. rewrite lookup_delete_ne by set_solver. rewrite lookup_insert_ne; set_solver. }
  assert (Hmm : delete (head_ q) (<[m:=mkQNode None nx]> (nodes q)) !! m = Some (mkQNode None nx)).
  { rewrite lookup_delete_ne by done. by rewrite lookup_insert_eq. }
  assert (Hnx : forall l d' n', l ∈ m :: rest -> nodes q !! l = Some (mkQNode d' n') ->
    exists d'', delete (head_ q) (<[m:=mkQNode None nx]> (nodes q)) !! l = Some (mkQNode d'' n')).
  { intros l d' n' [->|Hl]%elem_of_cons He.
    - rewrite Hm in He. injection He as _ <-. eauto.
    - rewrite Hoth by done. eauto. }
  constructor; cbn [nodes head_ tail_ next_node]; try done.
  - exists rest. split; [done|]. clear -Hv' Hoth.
    apply Forall2_same_length_lookup. split; [by apply Forall2_length in Hv'|].
    intros i l v Hl Hv. eapply Forall2_lookup_lr in Hv'; [|done..]. destruct Hv' as [nx' Hl'].
    exists nx'. rewrite Hoth; [done|]. by eapply list_elem_of_lookup_2.
  - by apply Forall_cons in H4 as [_ ?].
  - intros l. rewrite lookup_delete_is_Some, lookup_insert_is_Some, H5. split; [set_solver|].
    intros Hl. split; [set_solver|]. destruct (decide (m = l)); [by left|right]. set_solver.
  - destruct H6 as [d' Hd']. eapply Hnx; [|exact Hd']. by eapply last_Some_elem_of.
  - intros a b Hab. pose proof (links_fst (m :: rest) a b Hab) as [Ha _].
    destruct (H7 a b) as [d' [Hd'|[Hd' Hp]]]; [by right| |];
      destruct (Hnx _ _ _ Ha Hd') as [d'' Hd'']; exists d''; auto.
  - intros a b Hp. destruct (H8 a b Hp) as [Hab [d' Hd']].
    apply elem_of_cons in Hab as [[= -> ->]|Hab]; [congruence|]. split; [done|].
    eapply Hnx; [|exact Hd']. by apply (links_fst (m :: rest) a b) in Hab as [? _].
Qed.

Lemma chain_close q P ls vs : chain q P ls vs -> chain (q_close q) P ls vs.
Proof. intros []. by constructor. Qed.

(** The consumer's load: a null pointer exactly when the queue is empty or the
    first link is still to be stored. *)
Lemma chain_load q P ls vs : chain q P ls vs ->
  exists d nx, nodes q !! head_ q = Some (mkQNode d nx) /\ q_load_next q = Ok nx /\
    (nx = None -> vs = [] \/ exists b, P (head_ q) b).
Proof.
  intros [H1 H2 H3 H4 H5 H6 H7 H8]. destruct H1 as (rest & -> & Hv).
  destruct (proj2 (H5 (head_ q))) as [[d nx] Hh]; [left|].
  exists d, nx. unfold q_load_next. rewrite Hh. split_and!; try done. intros ->.
  destruct rest as [|m rest]; [left; by inversion Hv|right].
  destruct (H7 (head_ q) m) as [d' [Hd'|[Hd' Hp]]]; [by left|congruence|by exists m].
Qed.

(** ** Sequential use: the queue is a list *)

Lemma enqueue_closed q v : closed_ q = true -> enqueue v q = Ok (false, q).
Proof. unfold enqueue. by intros ->. Qed.

Lemma enqueue_holds q vs v : closed_ q = false -> holds q vs ->
  exists q', enqueue v q = Ok (true, q') /\ holds q' (vs ++ [v]) /\ closed_ q' = false.
Proof.
  intros Hc [ls Hch]. unfold enqueue. rewrite Hc.
  destruct (q_exchange v q) as [[prev n] q1] eqn:He.
  destruct (chain_exchange _ _ _ _ _ _ _ _ Hch He) as (_ & _ & Hch1).
  destruct (chain_link q1 _ (fun _ _ => False) _ _ prev n Hch1) as (q' & Hl & Hch' & _ & Hcl & _).
  { by right. }
  { naive_solver. }
  exists q'. rewrite Hl. split; [done|]. split; [by exists (ls ++ [n])|].
  rewrite Hcl. by injection He as _ _ <-.
Qed.

Lemma dequeue_nil q : holds q [] -> dequeue q = Ok (None, q).
Proof.
  intros [ls Hch]. destruct (chain_load _ _ _ _ Hch) as (d & nx & Hh & Hl & _).
  unfold dequeue. rewrite Hl. simpl. destruct nx as [n|]; [|done].
  by destruct (chain_take _ _ _ _ _ _ Hch Hh) as (v & vs' & ls' & q' & ? & _).
Qed.

Lemma dequeue_cons q v vs : holds q (v :: vs) ->
  exists q', dequeue q = Ok (Some v, q') /\ holds q' vs /\ closed_ q' = closed_ q.
Proof.
  intros [ls Hch]. destruct (chain_load _ _ _ _ Hch) as (d & nx & Hh & Hl & Hn).
  destruct nx as [n|]; [|by destruct Hn as [|[]]].
  destruct (chain_take _ _ _ _ _ _ Hch Hh) as (v' & vs' & ls' & q' & [= <- <-] & Ht & Hch' & Hc).
  exists q'. unfold dequeue. rewrite Hl. simpl. rewrite Ht. split; [done|]. split; [by exists ls'|done].
Qed.

Lemma empty_holds q vs : holds q vs -> q_empty q = Ok (match vs with [] => true | _ => false end).
Proof.
  intros [ls Hch]. destruct (chain_load _ _ _ _ Hch) as (d & nx & Hh & Hl & Hn).
  unfold q_empty. rewrite Hl. simpl. destruct nx as [n|].
  - by destruct (chain_take _ _ _ _ _ _ Hch Hh) as (v & vs' & ls' & q' & -> & _).
  - by destruct Hn as [->|[]].
Qed.

Lemma close_holds q vs : holds q vs -> holds (q_close q) vs /\ closed_ (q_close q) = true.
Proof. intros [ls Hch]. split; [|done]. exists ls. by apply chain_close. Qed.

Lemma drain_holds vs : forall q fuel, holds q vs -> (length vs < fuel)%nat ->
  exists q', drain fuel q = Ok q' /\ holds q' [].
Proof.
  induction vs as [|v vs IH]; intros q [|fuel] Hq Hf; simpl in *; try lia.
  - exists q. by rewrite (dequeue_nil q Hq).
  - destruct (dequeue_cons _ _ _ Hq) as (q' & -> & Hq' & _). simpl. apply IH; [done|lia].
Qed.

(** The chain of an empty queue is the stub alone. *)
Lemma holds_nil_nodes q : holds q [] -> delete (head_ q) (nodes q) = ∅.
Proof.
  intros [ls [H1 H2 H3 H4 H5 H6 H7 H8]]. destruct H1 as (rest & -> & Hv).
  inversion Hv; subst. apply map_eq. intros l. rewrite lookup_empty.
  destruct (decide (l = head_ q)) as [->|Hne]; [apply lookup_delete_eq|].
  rewrite lookup_delete_ne by done. apply eq_None_not_Some. rewrite H5. set_solver.
Qed.

(** ** The interleaved system *)

Lemma init_inv : sys_inv (init_system (T:=T)).
Proof.
  constructor; simpl; [|by intros t1 t2 a b1 b2 Hp; rewrite lookup_empty in Hp|done].
  exists [0], []. split; [|done]. eapply chain_ext; [|apply new_chain].
  intros a b. split; [done|]. intros [tid Ht]. by rewrite lookup_empty in Ht.
Qed.

(** Replacing a thread's position by one without a link to store, where it had
    none, changes no pending link. *)
Lemma pending_other (ps ps' : gmap nat (producer T)) tid :
  (forall a b, ps !! tid <> Some (P_link a b)) ->
  (forall a b, ps' !! tid <> Some (P_link a b)) ->
  (forall t, t <> tid -> ps' !! t = ps !! t) ->
  (forall a b, pending ps a b <-> pending ps' a b) /\ (pending_unique ps -> pending_unique ps').
Proof.
  intros H1 H2 H3. assert (forall t a b, ps' !! t = Some (P_link a b) <-> ps !! t = Some (P_link a b)) as He.
  { intros t a b. destruct (decide (t = tid)) as [->|Hne]; [naive_solver|by rewrite H3]. }
  split.
  - intros a b. split; intros [t Ht]; exists t; by apply He.
  - intros Hu t1 t2 a b1 b2. rewrite !He. apply Hu.
Qed.

Lemma inv_producer_moves s tid ps' :
  sys_inv s ->
  (forall a b, producers s !! tid <> Some (P_link a b)) ->
  (forall a b, ps' !! tid <> Some (P_link a b)) ->
  (forall t, t <> tid -> ps' !! t = producers s !! t) ->
  sys_inv (mkSystem (queue s) ps' (cons_pc s) (enqueued s) (dequeued s)).
Proof.
  intros [(ls & vs & Hch & He) Hu Hc] H1 H2 H3.
  destruct (pending_other _ _ _ H1 H2 H3) as [Hp Hu']. constructor; simpl; auto.
  exists ls, vs. split; [|done]. by eapply chain_ext.
Qed.

Lemma inv_exchange s tid v prev n q' :
  sys_inv s -> producers s !! tid = Some (P_exchange v) ->
  q_exchange v (queue s) = (prev, n, q') ->
  sys_inv (mkSystem q' (<[ tid := P_link prev n ]> (producers s)) (cons_pc s)
    (enqueued s ++ [v]) (dequeued s)).
Proof.
  intros [(ls & vs & Hch & He) Hu Hc] Ht Hx.
  destruct (chain_exchange _ _ _ _ _ _ _ _ Hch Hx) as (Hprev & Hn & Hch').
  assert (Hnew : forall t b, producers s !! t = Some (P_link prev b) -> False).
  { intros t b Hp. destruct (ch_pend _ _ _ _ Hch prev b) as [Hl _]; [by exists t|].
    apply links_not_last in Hl; [|by destruct Hch]. injection Hx as <- _ _. by destruct Hch. }
  constructor; simpl.
  - exists (ls ++ [n]), (vs ++ [v]). split; [|by rewrite He, app_assoc].
    eapply chain_ext; [|exact Hch']. intros a b. split.
    + intros [[t Hp]|[-> ->]].
      * exists t. rewrite lookup_insert_ne; [done|]. congruence.
      * exists tid. by rewrite lookup_insert_eq.
    + intros [t Hp]. destruct (decide (tid = t)) as [->|Hne].
      * rewrite lookup_insert_eq in Hp. injection Hp as -> ->. by right.
      * rewrite lookup_insert_ne in Hp by done. left. by exists t.
  - intros t1 t2 a b1 b2. rewrite !lookup_insert_Some.
    intros [[<- E1]|[Hn1 Hp1]] [[<- E2]|[Hn2 Hp2]]; try injection E1 as <- <-; try injection E2 as <- <-; try done.
    + by apply Hnew in Hp2.
    + by apply Hnew in Hp1.
    + eauto.
  - destruct (cons_pc s) as [|m]; [done|]. destruct Hc as [d Hd]. injection Hx as _ _ <-. exists d.
    simpl. rewrite lookup_insert_ne; [done|]. intros Heq.
    assert (Hin : next_node (queue s) ∈ ls).
    { apply (ch_live _ _ _ _ Hch). rewrite Heq. eauto. }
    pose proof (ch_fresh _ _ _ _ Hch) as Hf. rewrite Forall_forall in Hf. apply Hf in Hin. lia.
Qed.

Lemma inv_link s tid a b :
  sys_inv s -> producers s !! tid = Some (P_link a b) ->
  exists q', q_link a b (queue s) = Ok q' /\
    sys_inv (mkSystem q' (delete tid (producers s)) (cons_pc s) (enqueued s) (dequeued s)).
Proof.
  intros [(ls & vs & Hch & He) Hu Hc] Ht.
  destruct (chain_link _ _ (pending (delete tid (producers s))) _ _ a b Hch)
    as (q' & Hl & Hch' & Hh & _ & Hk).
  { by exists tid. }
  { intros x y. split.
    - intros [t Hp]. rewrite lookup_delete_Some in Hp. destruct Hp as [Hne Hp].
      split; [by exists t|]. intros ->. apply Hne. by eapply Hu.
    - intros [[t Hp] Hne]. exists t. rewrite lookup_delete_ne; [done|]. congruence. }
  exists q'. split; [done|]. constructor; simpl.
  - by exists ls, vs.
  - intros t1 t2 x y1 y2. rewrite !lookup_delete_Some. naive_solver.
  - destruct (cons_pc s) as [|m]; [done|]. destruct Hc as [d Hd]. exists d. rewrite Hh. eauto.
Qed.

Lemma inv_take s n :
  sys_inv s -> cons_pc s = C_take n ->
  exists v q', q_take n (queue s) = Ok (v, q') /\
    sys_inv (mkSystem q' (producers s) C_idle (enqueued s) (dequeued s ++ [v])).
Proof.
  intros [(ls & vs & Hch & He) Hu Hc] Hp. rewrite Hp in Hc. destruct Hc as [d Hd].
  destruct (chain_take _ _ _ _ _ _ Hch Hd) as (v & vs' & ls' & q' & -> & Ht & Hch' & _).
  exists v, q'. split; [done|]. constructor; simpl; [|done|done].
  exists ls', vs'. split; [done|]. by rewrite He, <- app_assoc.
Qed.

Lemma mstep_inv s a r : sys_inv s -> mstep a s = Some r ->
  exists s', r = Ok s' /\ sys_inv s'.
Proof.
  intros Hi Hs. destruct a as [tid v|tid| |]; simpl in Hs.
  - destruct (producers s !! tid) eqn:Ht; [done|]. injection Hs as <-. eexists. split; [done|].
    apply (inv_producer_moves s tid); [done|congruence| |].
    + intros a b. by rewrite lookup_insert_eq.
    + intros t Hne. by rewrite lookup_insert_ne.
  - destruct (producers s !! tid) as [[v|v|a b]|] eqn:Ht; [| | |done].
    + injection Hs as <-. eexists. split; [done|].
      apply (inv_producer_moves s tid); [done|congruence| |].
      * intros a b. destruct (closed_ (queue s)); [by rewrite lookup_delete_eq|by rewrite lookup_insert_eq].
      * intros t Hne. destruct (closed_ (queue s)); [by rewrite lookup_delete_ne|by rewrite lookup_insert_ne].
    + injection Hs as <-. eexists. split; [done|]. by eapply inv_exchange.
    + injection Hs as <-. destruct (inv_link _ _ _ _ Hi Ht) as (q' & Hl & Hi').
      rewrite Hl. simpl. eauto.
  - destruct (cons_pc s) as [|n] eqn:Hc.
    + injection Hs as <-. pose proof Hi as [(ls & vs & Hch & He) Hu _].
      destruct (chain_load _ _ _ _ Hch) as (d & nx & Hh & -> & _). simpl.
      destruct nx as [n|]; [|eauto]. eexists. split; [done|]. constructor; simpl; eauto.
    + injection Hs as <-. destruct (inv_take _ _ Hi Hc) as (v & q' & Ht & Hi').
      rewrite Ht. simpl. eauto.
  - injection Hs as <-. eexists. split; [done|]. destruct Hi as [(ls & vs & Hch & He) Hu Hc].
    constructor; simpl; [|done|done]. exists ls, vs. split; [by apply chain_close|done].
Qed.

Lemma reachable_inv s : sys_reachable s -> sys_inv s.
Proof.
  apply reachable_invariant; [intros ? ->; apply init_inv|].
  intros s1 s2 Hi [a Ha]. destruct (mstep_inv _ _ _ Hi Ha) as (s' & [= <-] & Hi'). done.
Qed.
End Facts.

(** ** The queue discharges the interface *)

#[export] Instance MPSCQueue_Fifo (T : Type) : Fifo (MPSCQueue T) T := {
  fifo_new := new_queue;
  fifo_enqueue := enqueue;
  fifo_dequeue := dequeue;
  fifo_empty := q_empty;
  fifo_close := q_close }.

#[export] Program Instance MPSCQueue_Laws (T : Type) : FifoLaws (MPSCQueue T) T := {
  fifo_repr q c vs := holds q vs /\ closed_ q = c }.
Next Obligation. intros T. split; [|done]. exists [0]. apply new_chain. Qed.
Next Obligation. intros T q vs v [_ Hc]. by apply enqueue_closed. Qed.
Next Obligation.
  intros T q vs v [Hq Hc]. destruct (enqueue_holds q vs v Hc Hq) as (q' & He & Hq' & Hc'). by exists q'.
Qed.
Next Obligation. intros T q c [Hq _]. by apply dequeue_nil. Qed.
Next Obligation.
  intros T q c v vs [Hq Hc]. destruct (dequeue_cons q v vs Hq) as (q' & He & Hq' & Hc').
  exists q'. by rewrite Hc'.
Qed.
Next Obligation. intros T q c vs [Hq _]. by apply empty_holds. Qed.
Next Obligation. intros T q c vs [Hq _]. by apply close_holds. Qed.

(** Executable runs of the interleaved system; an action that is not enabled
    gives [None]. *)
Fixpoint mrun {T} (acts : list (action T)) (s : System T) : option (outcome (System T)) :=
  match acts with
  | [] => Some (Ok s)
  | a :: acts =>
      match mstep a s with
      | Some (Ok s') => mrun acts s'
      | r => r
      end
  end.

Lemma mrun_reachable {T} (acts : list (action T)) : forall s s',
  sys_reachable s -> mrun acts s = Some (Ok s') -> sys_reachable s'.
Proof.
  induction acts as [|a acts IH]; intros s s' Hr; simpl; [by intros [= <-]|].
  destruct (mstep a s) as [[s1|f]|] eqn:Ha; try done. intros Hm. apply (IH s1); [|done].
  eapply reach_step; [exact Hr|by exists a].
Qed.

(** Two producers, interleaved so that the second exchange's link is stored
    first, then the consumer takes both values. *)
Definition w_actions : list (action nat) :=
  [A_call 1 10; A_call 2 20; A_producer 1; A_producer 2; A_producer 1; A_producer 2;
   A_producer 2; A_dequeue; A_producer 1; A_dequeue; A_dequeue; A_dequeue; A_dequeue].

Lemma w_actions_run : exists s, mrun w_actions init_system = Some (Ok s) /\
  enqueued s = [10; 20] /\ dequeued s = [10; 20].
Proof. eexists. split; [vm_compute; reflexivity|done]. Qed.

Lemma live_nodes {T} (q : MPSCQueue T) P ls vs :
  chain q P ls vs -> size (nodes q) = S (length vs).
Proof.
  intros [H1 H2 H3 H4 H5 H6 H7 H8].
  assert (dom (nodes q) = list_to_set ls) as Hd.
  { apply set_eq. intros l. rewrite elem_of_dom, H5. by rewrite elem_of_list_to_set. }
  rewrite <- size_dom, Hd, size_list_to_set by done.
  destruct H1 as (rest & -> & Hv). simpl. by rewrite (Forall2_length _ _ _ Hv).
Qed.

(** ** Properties *)

(** With any number of producers interleaved with the consumer at every
    atomic access, no access is to a deleted node, and the live nodes are
    exactly the stub and one per value not yet dequeued: no leak, no double
    deletion. *)
Theorem mpsc_memory_safe {T} (s : System T) :
  sys_reachable s ->
  (forall a r, mstep a s = Some r -> exists s', r = Ok s') /\
  size (nodes (queue s)) = S (length (enqueued s) - length (dequeued s)).
Proof.
  intros Hi%reachable_inv. split.
  - intros a r Ha. destruct (mstep_inv _ _ _ Hi Ha) as (s' & -> & _). by exists s'.
  - destruct Hi as [(ls & vs & Hch & He) _ _]. rewrite (live_nodes _ _ _ _ Hch), He, length_app.
    f_equal. lia.
Qed.

(** The values the consumer receives are a prefix of the values in the order
    of the producers' exchanges: nothing is lost, duplicated or reordered; and
    when no producer is between its exchange and its store, the consumer finds
    a null pointer only if it has received everything. *)
Theorem mpsc_fifo {T} (s : System T) :
  sys_reachable s ->
  exists rest, enqueued s = dequeued s ++ rest /\
    ((forall a b, ~ pending (producers s) a b) -> q_empty (queue s) = Ok (match rest with [] => true | _ => false end)).
Proof.
  intros [(ls & vs & Hch & He) _ _]%reachable_inv. exists vs. split; [done|]. intros Hp.
  apply empty_holds. exists ls. eapply chain_ext; [|exact Hch]. naive_solver.
Qed.

(** C11: with any number of producers interleaved with the consumer at every atomic
    access, no access is to a deleted node, and the live nodes are exactly the stub and one
    per value not yet dequeued: no leak, no double deletion.  The values the consumer
    receives are a prefix of the values in the order of the producers' exchanges: nothing
    is lost, duplicated or reordered; and when no producer is between its exchange and its
    store, the consumer finds a null pointer only if it has received everything. *)
Theorem mpsc_safe_fifo {T} (s : System T) :
  sys_reachable s ->
  (forall a r, mstep a s = Some r -> exists s', r = Ok s') /\
  size (nodes (queue s)) = S (length (enqueued s) - length (dequeued s)) /\
  exists rest, enqueued s = dequeued s ++ rest /\
    ((forall a b, ~ pending (producers s) a b) -> q_empty (queue s) = Ok (match rest with [] => true | _ => false end)).
Proof.
  intros Hr. destruct (mpsc_memory_safe s Hr) as [H1 H2]. split_and!; [exact H1|exact H2|by apply mpsc_fifo].
Qed.

Lemma mpsc_safe_fifo_witness :
  exists s : System nat, sys_reachable s /\ size (nodes (queue s)) = 1 /\ exists rest, enqueued s = dequeued s ++ rest.
Proof.
  destruct w_actions_run as (s & Hs & He & Hd). exists s.
  assert (sys_reachable s) as Hr by (eapply mrun_reachable; [by apply reach_init|exact Hs]).
  split; [exact Hr|]. destruct (mpsc_safe_fifo s Hr) as (_ & -> & rest & Hrest & _). split; [by rewrite He, Hd|by exists rest].
Defined.

(** For a single caller the linked list is a first-in first-out list with a
    closed flag: any sequence of [enqueue], [dequeue] and [close] answers what
    the list answers, and the destructor then frees every node. *)
Theorem mpsc_refines_list {T} (cs : list (fifo_call T)) :
  exists q, fifo_run cs (new_queue (T:=T)) = Ok ((list_run cs (false, [])).1, q) /\
    forall fuel, (length (list_run cs (false, [])).2.2 < fuel)%nat -> destroy fuel q = Ok ∅.
Proof.
  destruct (fifo_run_refines (Q:=MPSCQueue T) cs new_queue (false, [])) as (q & Hr & Hq).
  { exact (fifo_new_repr (Q:=MPSCQueue T)). }
  exists q. split; [exact Hr|]. intros fuel Hf. destruct Hq as [Hq _].
  unfold destroy. destruct (drain_holds _ _ fuel (proj1 (close_holds _ _ Hq)) Hf) as (q' & -> & Hq').
  simpl. by rewrite holds_nil_nodes.
Qed.

(** The closed flag does not stop a call that has already tested it: from
    some reachable state in which the queue is closed and the consumer finds it
    empty, a producer's pending call still adds its value. *)
Theorem mpsc_late_enqueue :
  exists s s' : System nat,
    sys_reachable s /\ closed_ (queue s) = true /\ q_empty (queue s) = Ok true /\
    mrun [A_producer 1; A_producer 1] s = Some (Ok s') /\
    producers s' = ∅ /\ dequeued s' = [] /\ enqueued s' = [7] /\ q_empty (queue s') = Ok false.
Proof.
  destruct (mrun [A_call 1 7; A_producer 1; A_close; A_dequeue] (init_system (T:=nat))) as [[s|]|] eqn:E;
    try discriminate E.
  exists s. eexists. split; [by eapply mrun_reachable; [apply reach_init|exact E]|].
  injection E as <-. split_and!; try (vm_compute; reflexivity).
Qed.
