(* ===== verification/OrderIndex.v ===== *)
(** * OrderIndex: order id to resting position

    [engine/order_index.hpp].  A [std::list<Order>::iterator] is the address of
    a list node; addresses are handed out once and never reused, so an iterator
    to an erased node denotes no node. *)

From stdpp Require Import base gmap.
From Stdlib Require Import ZArith Lia.
From S2P Require Import Prelude Types.

Record OrderIndexEntry : Type := mkOrderIndexEntry {
  side : Side;
  price_level : Price;
  position : nat }.

Abbreviation OrderIndex := (gmap Z OrderIndexEntry).

(** [index_\[order_id\] = ...]: an entry already there is overwritten. *)
Definition index_insert (order_id : OrderID) (s : Side) (price : Price) (pos : nat)
    (index_ : OrderIndex) : OrderIndex :=
  <[order_id := mkOrderIndexEntry s price pos]> index_.

Definition index_get (order_id : OrderID) (index_ : OrderIndex) : option OrderIndexEntry :=
  index_ !! order_id.

(** [remove] returns whether an entry was erased. *)
Definition index_remove (order_id : OrderID) (index_ : OrderIndex) : bool * OrderIndex :=
  (bool_decide (is_Some (index_ !! order_id)), delete order_id index_).

Definition index_clear (index_ : OrderIndex) : OrderIndex := ∅.

Definition index_size (index_ : OrderIndex) : nat := size index_.
