(* ===== verification/OrderBook.v ===== *)
(** * OrderBook: the price-time priority book of one symbol

    [engine/order_book.hpp] and [engine/order_book.cpp].  The two sides are
    [std::map]s from a price to the queue of orders resting at it; the queues
    are [std::list]s of nodes with an address, the target of the iterators the
    index holds.  Every operation runs under [book_mutex_], so each is one
    function from the state before to the state after. *)

From stdpp Require Import base list gmap strings.
From Stdlib Require Import ZArith Lia.
From S2P Require Import Prelude StdMap Types MatchingEngine OrderIndex.
Local Open Scope exchange_scope.

(** ** State *)

Record Node : Type := mkNode {
  n_addr : nat;
  n_order : Order }.

Abbreviation Level := (Z * list Node)%type.

Record OrderBook : Type := mkOrderBook {
  symbol_ : Symbol;
  buy_orders_ : list Level;      (* std::map with std::greater *)
  sell_orders_ : list Level;     (* std::map with std::less *)
  order_index_ : OrderIndex;
  next_addr : nat }.             (* the allocator: addresses below are used up *)

(** [OrderBook::OrderBook(symbol)] *)
Definition new_book (symbol : Symbol) : OrderBook := mkOrderBook symbol [] [] ∅ 0.

Definition get_symbol (b : OrderBook) : Symbol := symbol_ b.

(** ** The two sides

    [submitOrderInternal] holds the same code twice, once per side of the
    incoming order, with the two maps, their comparators and the price test
    exchanged.  [taker] is the side being run: [TakeAsks] is the branch of a
    buy order, [TakeBids] the other. *)

Inductive taker : Type := TakeAsks | TakeBids.

Definition taker_of (s : Side) : taker := if is_buy s then TakeAsks else TakeBids.

Definition own_cmp (t : taker) : cmp :=
  match t with TakeAsks => Greater | TakeBids => Less end.

Definition opp_cmp (t : taker) : cmp :=
  match t with TakeAsks => Less | TakeBids => Greater end.

Definition own_levels (t : taker) (b : OrderBook) : list Level :=
  match t with TakeAsks => buy_orders_ b | TakeBids => sell_orders_ b end.

Definition opp_levels (t : taker) (b : OrderBook) : list Level :=
  match t with TakeAsks => sell_orders_ b | TakeBids => buy_orders_ b end.

Definition set_sides (t : taker) (own opp : list Level) (b : OrderBook) : OrderBook :=
  match t with
  | TakeAsks => mkOrderBook (symbol_ b) own opp (order_index_ b) (next_addr b)
  | TakeBids => mkOrderBook (symbol_ b) opp own (order_index_ b) (next_addr b)
  end.

(** [order_index_.insert(.., Side::Buy, ..)] or [Side::Sell], by branch. *)
Definition own_side (t : taker) : Side :=
  match t with TakeAsks => Buy | TakeBids => Sell end.

(** The [break] of the outer loop: a limit order does not trade at [best]. *)
Definition price_stops (t : taker) (o : Order) (best : Price) : bool :=
  is_limit (o_type o) &&
  match t with
  | TakeAsks => (o_price o <? best)%Z
  | TakeBids => (best <? o_price o)%Z
  end.

(** ** The matching loops *)

(** What the loops thread besides the opposite map. *)
Record Run : Type := mkRun {
  r_incoming : Order;
  r_index : OrderIndex;
  r_result : MatchResult;
  r_env : Env }.

(** [MatchingEngine::matchOrders(incoming_order, resting_sell, ..)] or
    [matchOrders(resting_buy, incoming_order, ..)]. *)
Definition match_resting (t : taker) (sym : Symbol) (r : Run) (resting : Order)
    : Order * Run :=
  match t with
  | TakeAsks =>
      let '(b, s, res, e) := matchOrders (r_incoming r) resting sym (r_result r) (r_env r) in
      (s, mkRun b (r_index r) res e)
  | TakeBids =>
      let '(b, s, res, e) := matchOrders resting (r_incoming r) sym (r_result r) (r_env r) in
      (b, mkRun s (r_index r) res e)
  end.

Definition drop_index (id : OrderID) (r : Run) : Run :=
  mkRun (r_incoming r) (index_remove id (r_index r)).2 (r_result r) (r_env r).

(** [while (incoming_order.remaining_quantity > 0 && !queue.empty())] *)
Fixpoint match_queue (fuel : nat) (t : taker) (sym : Symbol) (queue : list Node) (r : Run)
    : outcome (list Node * Run) :=
  match fuel with
  | O => Fault OutOfFuel
  | S fuel =>
      match queue with
      | [] => Ok ([], r)
      | front :: rest =>
          if (0 <? o_remaining_quantity (r_incoming r))%Z then
            let '(resting, r) := match_resting t sym r (n_order front) in
            if (o_remaining_quantity resting =? 0)%Z
            then match_queue fuel t sym rest (drop_index (o_order_id resting) r)
            else match_queue fuel t sym (mkNode (n_addr front) resting :: rest) r
          else Ok (queue, r)
      end
  end.

(** [while (incoming_order.remaining_quantity > 0 && it != end())]; the levels
    the iterator has passed stay in front of the ones it returns. *)
Fixpoint match_levels (fuel : nat) (t : taker) (sym : Symbol) (levels : list Level) (r : Run)
    : outcome (list Level * Run) :=
  match fuel with
  | O => Fault OutOfFuel
  | S fuel =>
      match levels with
      | [] => Ok ([], r)
      | (best, queue) :: more =>
          if (0 <? o_remaining_quantity (r_incoming r))%Z then
            if price_stops t (r_incoming r) best then Ok (levels, r)
            else
              let* (queue, r) := match_queue (S (length queue)) t sym queue r in
              match queue with
              | [] => match_levels fuel t sym more r
              | _ =>
                  let* (more, r) := match_levels fuel t sym more r in
                  Ok ((best, queue) :: more, r)
              end
          else Ok (levels, r)
      end
  end.

(** ** What happens to an unfilled rest *)

Definition new_report (o : Order) (now : Timestamp) : ExecutionReport :=
  mkExecutionReport (o_order_id o) (o_symbol o) (o_side o) New (o_price o)
    (o_quantity o) (o_remaining_quantity o) 0 0 now "" (o_client_id o).

Definition expired_report (o : Order) (now : Timestamp) : ExecutionReport :=
  mkExecutionReport (o_order_id o) (o_symbol o) (o_side o) Cancelled (o_price o)
    (o_quantity o) (o_remaining_quantity o) 0 0 now
    "Market Order Expired / Unfilled Qty" (o_client_id o).

(** [orders_\[price\].push_back(order)] followed by [order_index_.insert]. *)
Definition rest_order (t : taker) (o : Order) (b : OrderBook) : OrderBook :=
  let levels := map_at (own_cmp t) [] (o_price o) (own_levels t b) in
  let levels := map_mutate (fun q => q ++ [mkNode (next_addr b) o]) (o_price o) levels in
  let b' := set_sides t levels (opp_levels t b) b in
  mkOrderBook (symbol_ b') (buy_orders_ b') (sell_orders_ b')
    (index_insert (o_order_id o) (own_side t) (o_price o) (next_addr b) (order_index_ b'))
    (S (next_addr b)).

Definition finish_order (t : taker) (b : OrderBook) (r : Run) : OrderBook * MatchResult * Env :=
  let o := r_incoming r in
  if (0 <? o_remaining_quantity o)%Z then
    if is_limit (o_type o) then
      let b := rest_order t o b in
      if (o_remaining_quantity o =? o_quantity o)%Z then
        let '(now, env) := get_current_time_ns (r_env r) in
        (b, push_report (new_report o now) (r_result r), env)
      else (b, r_result r, r_env r)
    else
      let '(now, env) := get_current_time_ns (r_env r) in
      (b, push_report (expired_report o now) (r_result r), env)
  else (b, r_result r, r_env r).

Definition set_index (ix : OrderIndex) (b : OrderBook) : OrderBook :=
  mkOrderBook (symbol_ b) (buy_orders_ b) (sell_orders_ b) ix (next_addr b).

(** [OrderBook::submitOrderInternal]; the fuel of the outer loop is one more
    than the number of levels. *)
Definition submitOrderInternal (order : Order) (result : MatchResult)
    (b : OrderBook) (env : Env) : outcome (OrderBook * MatchResult * Env) :=
  let t := taker_of (o_side order) in
  let r := mkRun order (order_index_ b) result env in
  let* (opp, r) :=
    match_levels (S (length (opp_levels t b))) t (symbol_ b) (opp_levels t b) r in
  Ok (finish_order t (set_index (r_index r) (set_sides t (own_levels t b) opp b)) r).

(** ** Operations

    [log_func] is the callback each operation runs first, inside the critical
    section, on the state [L] of the log it writes; [None] is [nullptr]. *)

Definition run_log {L : Type} (log_func : option (L -> L)) (l : L) : L :=
  match log_func with Some f => f l | None => l end.

Definition submitOrder {L : Type} (order : Order) (log_func : option (L -> L))
    (b : OrderBook) (env : Env) (l : L) : outcome (OrderBook * MatchResult * Env * L) :=
  let l := run_log log_func l in
  let* (b, result, env) := submitOrderInternal order empty_result b env in
  Ok (b, result, env, l).

(** [*it] for an iterator into one of the book's lists. *)
Fixpoint list_deref (pos : nat) (q : list Node) : option Order :=
  match q with
  | [] => None
  | n :: q' => if Nat.eqb (n_addr n) pos then Some (n_order n) else list_deref pos q'
  end.

Definition book_deref (pos : nat) (b : OrderBook) : outcome Order :=
  of_option BadIterator
    (list_deref pos (concat ((buy_orders_ b).*2 ++ (sell_orders_ b).*2))).

(** [list.erase(it)]: undefined unless [it] points into this list. *)
Fixpoint list_erase (pos : nat) (q : list Node) : option (list Node) :=
  match q with
  | [] => None
  | n :: q' =>
      if Nat.eqb (n_addr n) pos then Some q'
      else match list_erase pos q' with Some q'' => Some (n :: q'') | None => None end
  end.

(** The common part of [cancelOrder] and [modifyOrder]: [find] the level,
    [erase] the node, and [erase] the level when its queue became empty. *)
Definition unlink_level (price : Price) (pos : nat) (levels : list Level)
    : outcome (list Level) :=
  match map_find price levels with
  | None => Ok levels
  | Some q =>
      let* q' := of_option BadIterator (list_erase pos q) in
      match q' with
      | [] => Ok (map_erase price levels)
      | _ => Ok (map_mutate (fun _ => q') price levels)
      end
  end.

Definition unlink (entry : OrderIndexEntry) (b : OrderBook) : outcome OrderBook :=
  if is_buy (side entry) then
    let* l := unlink_level (price_level entry) (position entry) (buy_orders_ b) in
    Ok (mkOrderBook (symbol_ b) l (sell_orders_ b) (order_index_ b) (next_addr b))
  else
    let* l := unlink_level (price_level entry) (position entry) (sell_orders_ b) in
    Ok (mkOrderBook (symbol_ b) (buy_orders_ b) l (order_index_ b) (next_addr b)).

Definition cancel_report (order_id : OrderID) (sym : Symbol) (entry : OrderIndexEntry)
    (now : Timestamp) (cid : Z) : ExecutionReport :=
  mkExecutionReport order_id sym (side entry) Cancelled (price_level entry)
    0 0 0 0 now "" cid.

Definition cancelOrder {L : Type} (order_id : OrderID) (result : MatchResult)
    (log_func : option (L -> L)) (b : OrderBook) (env : Env) (l : L)
    : outcome (bool * OrderBook * MatchResult * Env * L) :=
  let l := run_log log_func l in
  match index_get order_id (order_index_ b) with
  | None => Ok (false, b, result, env, l)
  | Some entry =>
      let* o := book_deref (position entry) b in
      let* b := unlink entry b in
      let '(now, env) := get_current_time_ns env in
      let result :=
        push_report (cancel_report order_id (symbol_ b) entry now (o_client_id o)) result in
      Ok (true, set_index (index_remove order_id (order_index_ b)).2 b, result, env, l)
  end.

(** The order [modifyOrder] resubmits. *)
Definition modified_order (existing_order : Order) (request : ModifyRequest) : Order :=
  mkOrder (o_order_id existing_order) (o_symbol existing_order) (o_side existing_order)
    (o_type existing_order) (m_price request) (m_quantity request) (m_quantity request)
    (m_timestamp request) (o_client_id existing_order).

Definition modifyOrder {L : Type} (request : ModifyRequest) (result : MatchResult)
    (log_func : option (L -> L)) (b : OrderBook) (env : Env) (l : L)
    : outcome (bool * OrderBook * MatchResult * Env * L) :=
  let l := run_log log_func l in
  match index_get (m_order_id request) (order_index_ b) with
  | None => Ok (false, b, result, env, l)
  | Some entry =>
      let* existing_order := book_deref (position entry) b in
      let* b := unlink entry b in
      let b := set_index (index_remove (m_order_id request) (order_index_ b)).2 b in
      let* (b, result, env) :=
        submitOrderInternal (modified_order existing_order request) result b env in
      Ok (true, b, result, env, l)
  end.

(** ** Queries *)

Definition queryOrder (order_id : OrderID) (b : OrderBook) : outcome (option Order) :=
  match index_get order_id (order_index_ b) with
  | None => Ok None
  | Some entry => let* o := book_deref (position entry) b in Ok (Some o)
  end.

Definition bestBid (b : OrderBook) : Price :=
  match buy_orders_ b with [] => 0 | (p, _) :: _ => p end.

Definition bestAsk (b : OrderBook) : Price :=
  match sell_orders_ b with [] => 0 | (p, _) :: _ => p end.

(** [print_book]: the lines it prints, as price, wrapped 32-bit quantity and
    number of orders; asks from the highest price down, then bids. *)
Definition qty_at_price (q : list Node) : Z :=
  foldl (fun acc n => u32 (acc + o_remaining_quantity (n_order n))) 0%Z q.

Definition print_level (l : Level) : Z * Z * nat := (l.1, qty_at_price l.2, length l.2).

Definition print_book (b : OrderBook) : list (Z * Z * nat) * list (Z * Z * nat) :=
  (print_level <$> rev (sell_orders_ b), print_level <$> buy_orders_ b).
