(* ===== verification/Matching.v ===== *)
(** * The matching loops against a reference over one list

    [match_levels] walks a map of queues with an iterator; [sweep] is the same
    matching written by recursion over the flat list of the resting orders in
    priority order.  The loops terminate within their fuel and agree with it. *)

From stdpp Require Import base list gmap strings.
From Stdlib Require Import ZArith Lia.
From S2P Require Import Prelude StdMap Types MatchingEngine OrderIndex OrderBook.
Local Open Scope exchange_scope.

(** ** Definitions *)

(** The nodes of a side in priority order, each with the key of its level. *)
Definition tag (p : Z) (q : list Node) : list (Z * Node) := (fun n => (p, n)) <$> q.

Fixpoint flat (levels : list Level) : list (Z * Node) :=
  match levels with
  | [] => []
  | (p, q) :: more => tag p q ++ flat more
  end.

Definition rem (o : Order) : Z := o_remaining_quantity o.
Definition inc_rem (r : Run) : Z := rem (r_incoming r).
Definition node_rem (pn : Z * Node) : Z := rem (n_order pn.2).

Fixpoint sweep (t : taker) (sym : Symbol) (ns : list (Z * Node)) (r : Run)
    : list (Z * Node) * Run :=
  match ns with
  | [] => ([], r)
  | (p, n) :: rest =>
      if (0 <? inc_rem r)%Z && negb (price_stops t (r_incoming r) p) then
        let '(resting, r) := match_resting t sym r (n_order n) in
        if (rem resting =? 0)%Z
        then sweep t sym rest (drop_index (o_order_id resting) r)
        else ((p, mkNode (n_addr n) resting) :: rest, r)
      else (ns, r)
  end.

(** One trade of [q] between the incoming order of [r] and [resting], as an
    explicit record: what [match_resting] does when both have something left. *)
Definition buyer (t : taker) (incoming resting : Order) : Order :=
  match t with TakeAsks => incoming | TakeBids => resting end.
Definition seller (t : taker) (incoming resting : Order) : Order :=
  match t with TakeAsks => resting | TakeBids => incoming end.

Definition trade_fill (t : taker) (sym : Symbol) (r : Run) (resting : Order) (q : Z) : Fill :=
  mkFill (counter_ (r_env r)) (o_order_id (buyer t (r_incoming r) resting))
    (o_order_id (seller t (r_incoming r) resting)) sym
    (execution_price (buyer t (r_incoming r) resting) (seller t (r_incoming r) resting))
    q (u64 (clock (r_env r) (clock_reads (r_env r)))).

Definition take_from (q : Z) (o : Order) : Order := set_remaining (rem o - q) o.

Definition trade_reports (t : taker) (sym : Symbol) (r : Run) (resting : Order) (q : Z)
    : list ExecutionReport :=
  let f := trade_fill t sym r resting q in
  [fill_report (take_from q (buyer t (r_incoming r) resting)) q (f_price f) (f_timestamp f);
   fill_report (take_from q (seller t (r_incoming r) resting)) q (f_price f) (f_timestamp f)].

Definition traded (t : taker) (sym : Symbol) (r : Run) (resting : Order) (q : Z) : Run :=
  mkRun (take_from q (r_incoming r)) (r_index r)
    (mkMatchResult (mr_status (r_result r))
       (mr_fills (r_result r) ++ [trade_fill t sym r resting q])
       (mr_execution_reports (r_result r) ++ trade_reports t sym r resting q))
    (mkEnv (u64 (counter_ (r_env r) + 1)) (clock (r_env r)) (S (clock_reads (r_env r)))).

(** The sweep as a relation, one rule per way an iteration can go. *)
Inductive Sweeps (t : taker) (sym : Symbol)
    : list (Z * Node) -> Run -> list (Z * Node) -> Run -> Prop :=
  | Sw_end r : Sweeps t sym [] r [] r
  | Sw_filled ns r : inc_rem r = 0%Z -> Sweeps t sym ns r ns r
  | Sw_price p n ns r :
      (0 < inc_rem r)%Z -> price_stops t (r_incoming r) p = true ->
      Sweeps t sym ((p, n) :: ns) r ((p, n) :: ns) r
  | Sw_consume p n ns r ns' r' :
      (0 < rem (n_order n) <= inc_rem r)%Z -> price_stops t (r_incoming r) p = false ->
      Sweeps t sym ns
        (drop_index (o_order_id (n_order n)) (traded t sym r (n_order n) (rem (n_order n))))
        ns' r' ->
      Sweeps t sym ((p, n) :: ns) r ns' r'
  | Sw_partial p n ns r :
      (0 < inc_rem r < rem (n_order n))%Z -> price_stops t (r_incoming r) p = false ->
      Sweeps t sym ((p, n) :: ns) r
        ((p, mkNode (n_addr n) (take_from (inc_rem r) (n_order n))) :: ns)
        (traded t sym r (n_order n) (inc_rem r)).

Definition rem_ok (o : Order) : Prop := (0 <= rem o < 2 ^ 32)%Z.
Definition live (pn : Z * Node) : Prop := (0 < node_rem pn < 2 ^ 32)%Z.

Definition level_live (l : Level) : Prop := l.2 <> [] /\ Forall (fun n => live (l.1, n)) l.2.

(** The levels left are the levels of the map with a prefix erased and the
    queue of the first one left possibly shortened. *)
Inductive cut : list Level -> list Level -> Prop :=
  | cut_same ls : cut ls ls
  | cut_drop l ls ls' : cut ls ls' -> cut (l :: ls) ls'
  | cut_head p q q' ls : q' <> [] -> cut ((p, q) :: ls) ((p, q') :: ls).

Definition node_id (pn : Z * Node) : Z := o_order_id (n_order pn.2).
Definition node_addr (pn : Z * Node) : nat := n_addr pn.2.

(** What is left of the nodes: a suffix, its first node possibly reduced. *)
Inductive cut_nodes : list (Z * Node) -> list (Z * Node) -> Prop :=
  | cutn_same ns : cut_nodes ns ns
  | cutn_reduce p n ns q :
      (0 < q < rem (n_order n))%Z ->
      cut_nodes ((p, n) :: ns) ((p, mkNode (n_addr n) (take_from q (n_order n))) :: ns).

Definition delete_ids (ids : list Z) (ix : OrderIndex) : OrderIndex :=
  foldl (fun ix id => delete id ix) ix ids.

(** ** One match *)

Lemma take_from_0 o : take_from 0 o = o.
Proof. destruct o. unfold take_from, rem; simpl. unfold set_remaining. simpl. f_equal. lia. Qed.

Lemma rem_take_from q o : rem (take_from q o) = (rem o - q)%Z.
Proof. done. Qed.

Lemma u32_take o q : rem_ok o -> (0 <= q <= rem o)%Z ->
  set_remaining (u32 (o_remaining_quantity o - q)) o = take_from q o.
Proof.
  unfold rem_ok, rem, take_from. intros Ho Hq. f_equal. apply u32_small.
  unfold is_u32, rem in *. lia.
Qed.

Lemma match_resting_trade t sym r o :
  rem_ok (r_incoming r) -> rem_ok o -> (0 < Z.min (inc_rem r) (rem o))%Z ->
  match_resting t sym r o =
    (take_from (Z.min (inc_rem r) (rem o)) o, traded t sym r o (Z.min (inc_rem r) (rem o))).
Proof.
  intros Hi Ho Hq. unfold inc_rem in *. unfold rem in *.
  destruct t; unfold match_resting, matchOrders; cbn [next_id get_current_time_ns].
  - rewrite (proj2 (Z.eqb_neq _ 0)) by lia.
    rewrite !u32_take by (done || unfold rem; lia).
    unfold traded, push_fill, push_report, trade_reports. cbn.
    by rewrite <- app_assoc.
  - rewrite (Z.min_comm (o_remaining_quantity o)).
    rewrite (proj2 (Z.eqb_neq _ 0)) by lia.
    rewrite !u32_take by (done || unfold rem; lia).
    unfold traded, push_fill, push_report, trade_reports. cbn.
    by rewrite <- app_assoc.
Qed.

Lemma match_resting_empty t sym r o :
  rem_ok (r_incoming r) -> rem o = 0%Z -> match_resting t sym r o = (o, r).
Proof.
  intros Hi Ho. destruct r as [inc ix res e]. unfold rem_ok, rem in *; simpl in *.
  destruct t; unfold match_resting, matchOrders; simpl;
    [rewrite Z.min_r by lia|rewrite Z.min_l by lia]; by rewrite Ho.
Qed.

Lemma price_stops_take t q o p : price_stops t (take_from q o) p = price_stops t o p.
Proof. done. Qed.

(** ** The sweep satisfies its relation *)

Lemma traded_rem_ok t sym r o q :
  rem_ok (r_incoming r) -> (0 <= q <= inc_rem r)%Z -> rem_ok (r_incoming (traded t sym r o q)).
Proof. unfold rem_ok, inc_rem, traded, take_from, rem. simpl. lia. Qed.

Lemma sweep_Sweeps t sym ns r :
  rem_ok (r_incoming r) -> Forall live ns ->
  Sweeps t sym ns r (sweep t sym ns r).1 (sweep t sym ns r).2.
Proof.
  intros Hr Hl. revert r Hr. induction Hl as [|[p n] ns Hn Hl IH]; intros r Hr; simpl.
  { constructor. }
  unfold live, node_rem in Hn; simpl in Hn.
  assert (0 <= inc_rem r)%Z as Hpos by (unfold rem_ok, inc_rem in *; lia).
  case_Z; simpl; [|constructor; lia].
  destruct (price_stops t (r_incoming r) p) eqn:Hp; simpl; [by constructor|].
  rewrite match_resting_trade by (done || unfold rem_ok; lia).
  rewrite rem_take_from. case_Z.
  - rewrite (Z.min_r (inc_rem r)) by lia. cbn [o_order_id take_from set_remaining].
    eapply Sw_consume; [lia|done|]. apply IH.
    apply (traded_rem_ok t sym r); [done|lia].
  - rewrite Z.min_l by lia. cbn [fst snd]. eapply Sw_partial; [lia|done].
Qed.

(** ** The inner loop *)

Lemma sweep_done t sym ns r : (inc_rem r <= 0)%Z -> sweep t sym ns r = (ns, r).
Proof. destruct ns as [|[p n] ns]; simpl; [done|]. intros. by rewrite (proj2 (Z.ltb_ge _ _)). Qed.

(** The inner loop never runs out of its fuel, and running it then going on
    with the levels behind is the sweep of the whole. *)
Lemma match_queue_sweep t sym p q r fuel :
  (length q < fuel)%nat -> rem_ok (r_incoming r) -> Forall (fun n => live (p, n)) q ->
  price_stops t (r_incoming r) p = false ->
  exists q' r', match_queue fuel t sym q r = Ok (q', r') /\ rem_ok (r_incoming r') /\
    (q' <> [] -> inc_rem r' = 0%Z) /\
    forall rest, sweep t sym (tag p q ++ rest) r =
      match q' with [] => sweep t sym rest r' | _ => (tag p q' ++ rest, r') end.
Proof.
  revert q r. induction fuel as [|fuel IH]; intros q r Hf Hr Hq Hp; [lia|].
  destruct q as [|n q]; [by exists [], r|]. cbn [match_queue tag fmap list_fmap app sweep].
  rewrite Hp. cbn [negb]. rewrite andb_true_r. simpl in Hf.
  apply Forall_cons in Hq as [Hn Hq]. unfold live, node_rem in Hn; cbn [snd] in Hn.
  change (o_remaining_quantity (r_incoming r)) with (inc_rem r).
  assert (0 <= inc_rem r)%Z as Hpos by (unfold rem_ok, inc_rem in *; lia).
  case_Z; [|by exists (n :: q), r; split_and!; try done; lia].
  rewrite match_resting_trade by (done || unfold rem_ok; lia).
  change (o_remaining_quantity ?o) with (rem o). rewrite rem_take_from. case_Z.
  - assert (rem_ok (r_incoming (traded t sym r (n_order n) (Z.min (inc_rem r) (rem (n_order n))))))
      as Hr1 by (apply traded_rem_ok; [done|lia]).
    destruct (IH q (drop_index (o_order_id (take_from (Z.min (inc_rem r) (rem (n_order n))) (n_order n)))
                (traded t sym r (n_order n) (Z.min (inc_rem r) (rem (n_order n))))))
      as (q' & r' & -> & H1 & H2 & H3); [lia|done|done|done|].
    exists q', r'. split_and!; try done.
  - destruct fuel as [|fuel]; [lia|]. cbn [match_queue traded r_incoming].
    rewrite Z.min_l in * by lia.
    rewrite (proj2 (Z.ltb_ge _ _)) by (change (rem (take_from (inc_rem r) (r_incoming r)) <= 0)%Z;
      rewrite rem_take_from; unfold inc_rem; lia).
    eexists _, _. split; [done|]. split_and!; [|unfold inc_rem; simpl; unfold rem; simpl; unfold rem; lia|done].
    apply traded_rem_ok; [done|lia].
Qed.

(** ** The outer loop *)

Lemma match_levels_done t sym levels r fuel :
  (0 < fuel)%nat -> (inc_rem r <= 0)%Z -> match_levels fuel t sym levels r = Ok (levels, r).
Proof.
  intros Hf Hr. destruct fuel as [|fuel]; [lia|]. simpl.
  destruct levels as [|[p q] levels]; [done|].
  by rewrite (proj2 (Z.ltb_ge _ _)).
Qed.

Lemma match_levels_sweep t sym levels r fuel :
  (length levels < fuel)%nat -> rem_ok (r_incoming r) -> Forall level_live levels ->
  exists levels' r', match_levels fuel t sym levels r = Ok (levels', r') /\
    cut levels levels' /\ sweep t sym (flat levels) r = (flat levels', r').
Proof.
  revert levels r. induction fuel as [|fuel IH]; intros levels r Hf Hr Hl; [lia|].
  destruct levels as [|[p q] levels]; [by exists [], r; split_and!; try constructor|].
  cbn [match_levels]. simpl in Hf. apply Forall_cons in Hl as [[Hne Hq] Hl].
  cbn [fst snd] in Hne, Hq.
  change (o_remaining_quantity (r_incoming r)) with (inc_rem r).
  destruct (0 <? inc_rem r)%Z eqn:Hpos.
  2:{ apply Z.ltb_ge in Hpos. exists ((p, q) :: levels), r.
      split_and!; [done|constructor|by apply sweep_done]. }
  destruct (price_stops t (r_incoming r) p) eqn:Hp.
  { exists ((p, q) :: levels), r. split_and!; [done|constructor|].
    cbn [flat]. destruct q as [|n q]; [done|]. simpl. by rewrite Hp, andb_false_r. }
  destruct (match_queue_sweep t sym p q r (S (length q))) as (q' & r' & -> & Hr' & Hz & Hsw);
    [lia|done..|].
  cbn [obind flat]. rewrite Hsw. destruct q' as [|n q'].
  - destruct (IH levels r') as (levels' & r'' & -> & Hcut & ->); [lia|done..|].
    exists levels', r''. split_and!; try done. by constructor.
  - rewrite match_levels_done by (lia || rewrite Hz by done; lia). cbn [obind].
    exists ((p, n :: q') :: levels), r'. split_and!; try done. by constructor.
Qed.

(** ** What a sweep does *)

Lemma Sweeps_nodes t sym ns r ns' r' :
  Sweeps t sym ns r ns' r' ->
  exists gone left, ns = gone ++ left /\ cut_nodes left ns' /\
    r_index r' = delete_ids (node_id <$> gone) (r_index r) /\
    Forall (fun pn => price_stops t (r_incoming r) pn.1 = false) gone.
Proof.
  induction 1 as [r|ns r Hz|p n ns r Hz Hp|p n ns r ns' r' Hq Hp Hs IH|p n ns r Hq Hp].
  - exists [], []. repeat constructor.
  - exists [], ns. repeat constructor.
  - exists [], ((p, n) :: ns). repeat constructor.
  - destruct IH as (gone & left & -> & Hc & Hi & Hg).
    exists ((p, n) :: gone), left. split_and!; try done. by constructor.
  - exists [], ((p, n) :: ns). split_and!; try done; try constructor. lia.
Qed.

Lemma take_from_take a b o : take_from b (take_from a o) = take_from (a + b) o.
Proof. unfold take_from, set_remaining, rem. simpl. f_equal. lia. Qed.

Lemma Sweeps_incoming t sym ns r ns' r' :
  Sweeps t sym ns r ns' r' -> (0 <= inc_rem r)%Z ->
  (0 <= inc_rem r' <= inc_rem r)%Z /\
  r_incoming r' = take_from (inc_rem r - inc_rem r') (r_incoming r).
Proof.
  induction 1 as [r|ns r Hz|p n ns r Hz Hp|p n ns r ns' r' Hq Hp Hs IH|p n ns r Hq Hp]; intros Hpos;
    try (split; [lia|]; by rewrite Z.sub_diag, take_from_0).
  - assert (inc_rem (drop_index (o_order_id (n_order n)) (traded t sym r (n_order n) (rem (n_order n))))
      = inc_rem r - rem (n_order n))%Z as E by done.
    rewrite E in IH. destruct IH as [IH1 IH2]; [lia|]. split; [lia|].
    rewrite IH2. cbn [r_incoming drop_index traded]. rewrite take_from_take. f_equal. lia.
  - unfold inc_rem. cbn [r_incoming traded]. rewrite rem_take_from.
    split; [unfold inc_rem in *; lia|]. f_equal. unfold inc_rem in *; lia.
Qed.

(** Quantity is conserved: what the incoming order loses is what the side loses. *)
Lemma Sweeps_conserve t sym ns r ns' r' :
  Sweeps t sym ns r ns' r' ->
  (inc_rem r - inc_rem r' = sum_by node_rem ns - sum_by node_rem ns')%Z.
Proof.
  induction 1 as [r|ns r Hz|p n ns r Hz Hp|p n ns r ns' r' Hq Hp Hs IH|p n ns r Hq Hp];
    simpl; try lia.
  - unfold inc_rem in IH at 1. cbn [drop_index traded r_incoming] in IH.
    rewrite rem_take_from in IH. unfold node_rem at 1. simpl. fold (inc_rem r) in IH. lia.
  - unfold node_rem. cbn [snd n_order traded r_incoming]. unfold inc_rem at 2. cbn [traded r_incoming].
    rewrite !rem_take_from. fold (inc_rem r). lia.
Qed.

(** Matching goes on until the order is filled, the side is empty, or the best
    price left is not acceptable. *)
Lemma Sweeps_stops t sym ns r ns' r' :
  Sweeps t sym ns r ns' r' ->
  inc_rem r' = 0%Z \/ ns' = [] \/
  exists p n ns2, ns' = (p, n) :: ns2 /\ price_stops t (r_incoming r) p = true.
Proof.
  induction 1 as [r|ns r Hz|p n ns r Hz Hp|p n ns r ns' r' Hq Hp Hs IH|p n ns r Hq Hp]; eauto 8.
  left. unfold inc_rem. cbn [r_incoming traded]. rewrite rem_take_from. unfold inc_rem. lia.
Qed.
