(* ===== verification/BookInv.v ===== *)
(** * The invariant of the order book

    Both maps sorted and without empty queues, every resting order a limit
    order of its level's price and side with quantity left, the book not
    crossed, and every iterator of the index pointing at a live node of the
    level its entry names.  Every operation preserves it and, from a book that
    has it, every operation completes. *)

From stdpp Require Import base list gmap strings.
From Stdlib Require Import ZArith Lia.
From S2P Require Import Prelude StdMap Types MatchingEngine OrderIndex OrderBook Matching.
Local Open Scope exchange_scope.

(** ** Definitions *)

Definition resting_ok (buy : bool) (pn : Z * Node) : Prop :=
  o_price (n_order pn.2) = pn.1 /\ is_buy (o_side (n_order pn.2)) = buy /\
  o_type (n_order pn.2) = Limit /\ live pn.

Record levels_ok (c : cmp) (buy : bool) (levels : list Level) : Prop := mkLevelsOk {
  lv_sorted : map_sorted c levels;
  lv_nonempty : Forall (fun l : Level => l.2 <> []) levels;
  lv_resting : Forall (resting_ok buy) (flat levels) }.

(** The entry [e] of order [id] points at a node of the level it names. *)
Definition points (bids asks : list Level) (id : Z) (e : OrderIndexEntry) : Prop :=
  exists n, (price_level e, n) ∈ flat (if is_buy (side e) then bids else asks) /\
    n_addr n = position e /\ o_order_id (n_order n) = id.

Definition book_nodes (b : OrderBook) : list (Z * Node) :=
  flat (buy_orders_ b) ++ flat (sell_orders_ b).

Record book_ok (b : OrderBook) : Prop := mkBookOk {
  ok_bids : levels_ok Greater true (buy_orders_ b);
  ok_asks : levels_ok Less false (sell_orders_ b);
  ok_addrs : NoDup (node_addr <$> book_nodes b);
  ok_fresh : Forall (fun pn => node_addr pn < next_addr b)%nat (book_nodes b);
  ok_index : map_Forall (points (buy_orders_ b) (sell_orders_ b)) (order_index_ b);
  ok_uncrossed : forall p q,
    p ∈ (buy_orders_ b).*1 -> q ∈ (sell_orders_ b).*1 -> (p < q)%Z }.

(** Order ids are unique and the index is complete: it maps the id of every
    resting order to that order's position. *)
Definition entry_of (buy : bool) (pn : Z * Node) : OrderIndexEntry :=
  mkOrderIndexEntry (if buy then Buy else Sell) pn.1 (node_addr pn).

Record book_exact (b : OrderBook) : Prop := mkBookExact {
  ex_ok : book_ok b;
  ex_ids : NoDup (node_id <$> book_nodes b);
  ex_bids : forall pn, pn ∈ flat (buy_orders_ b) ->
    order_index_ b !! node_id pn = Some (entry_of true pn);
  ex_asks : forall pn, pn ∈ flat (sell_orders_ b) ->
    order_index_ b !! node_id pn = Some (entry_of false pn) }.

Definition resting_ids (b : OrderBook) : list Z := node_id <$> book_nodes b.

(** The invariant seen from the side of a taker. *)
Definition own_buy (t : taker) : bool := match t with TakeAsks => true | TakeBids => false end.
Definition bids_of (t : taker) (own opp : list Level) : list Level :=
  match t with TakeAsks => own | TakeBids => opp end.
Definition asks_of (t : taker) (own opp : list Level) : list Level :=
  match t with TakeAsks => opp | TakeBids => own end.

Record sided_ok (t : taker) (own opp : list Level) (ix : OrderIndex) (nxt : nat) : Prop :=
  mkSidedOk {
  sd_own : levels_ok (own_cmp t) (own_buy t) own;
  sd_opp : levels_ok (opp_cmp t) (negb (own_buy t)) opp;
  sd_addrs : NoDup (node_addr <$> (flat own ++ flat opp));
  sd_fresh : Forall (fun pn => node_addr pn < nxt)%nat (flat own ++ flat opp);
  sd_index : map_Forall (points (bids_of t own opp) (asks_of t own opp)) ix;
  sd_uncrossed : forall p q, p ∈ own.*1 -> q ∈ opp.*1 -> before (opp_cmp t) p q = true }.

(** ** Flattening *)

Lemma tag_app p q1 q2 : tag p (q1 ++ q2) = tag p q1 ++ tag p q2.
Proof. apply fmap_app. Qed.

Lemma flat_app l1 l2 : flat (l1 ++ l2) = flat l1 ++ flat l2.
Proof. induction l1 as [|[p q] l1 IH]; simpl; [done|]. by rewrite IH, app_assoc. Qed.

Lemma elem_tag p q pn : pn ∈ tag p q <-> pn.1 = p /\ pn.2 ∈ q.
Proof.
  unfold tag. rewrite list_elem_of_fmap. split.
  - intros (n & -> & Hn). done.
  - destruct pn as [p' n]. simpl. intros [-> Hn]. by exists n.
Qed.

Lemma elem_flat pn levels :
  pn ∈ flat levels <-> exists q, (pn.1, q) ∈ levels /\ pn.2 ∈ q.
Proof.
  induction levels as [|[p q] levels IH]; simpl; [set_solver|].
  rewrite elem_of_app, elem_tag, IH. destruct pn as [p' n]; simpl. split.
  - intros [[-> Hn]|(q' & Hq & Hn)]; [exists q|exists q']; set_solver.
  - intros (q' & Hq & Hn). apply elem_of_cons in Hq as [[= -> ->]|Hq]; [by left|eauto].
Qed.

Lemma flat_keys pn levels : pn ∈ flat levels -> pn.1 ∈ levels.*1.
Proof.
  rewrite elem_flat. intros (q & Hq & _). apply list_elem_of_fmap. by exists (pn.1, q).
Qed.

Lemma keys_flat p levels : Forall (fun l : Level => l.2 <> []) levels ->
  p ∈ levels.*1 -> exists n, (p, n) ∈ flat levels.
Proof.
  intros Hne. rewrite list_elem_of_fmap. intros ([p' q] & -> & Hq).
  rewrite Forall_forall in Hne. specialize (Hne _ Hq). simpl in Hne.
  destruct q as [|n q]; [done|]. exists n. apply elem_flat. exists (n :: q). set_solver.
Qed.

(** ** The two views of the invariant *)

Lemma own_opp_perm t b :
  flat (own_levels t b) ++ flat (opp_levels t b) ≡ₚ book_nodes b.
Proof. destruct t; unfold book_nodes; simpl; [done|]. apply Permutation_app_comm. Qed.

Lemma bids_of_levels t b : bids_of t (own_levels t b) (opp_levels t b) = buy_orders_ b.
Proof. by destruct t. Qed.

Lemma asks_of_levels t b : asks_of t (own_levels t b) (opp_levels t b) = sell_orders_ b.
Proof. by destruct t. Qed.

Lemma book_sided t b : book_ok b <->
  sided_ok t (own_levels t b) (opp_levels t b) (order_index_ b) (next_addr b).
Proof.
  split.
  - intros [H1 H2 H3 H4 H5 H6]. constructor.
    + by destruct t.
    + by destruct t.
    + by rewrite own_opp_perm.
    + by rewrite own_opp_perm.
    + by rewrite bids_of_levels, asks_of_levels.
    + intros p q Hp Hq. destruct t; simpl in *; apply Z.ltb_lt; auto.
  - intros [H1 H2 H3 H4 H5 H6]. constructor.
    + by destruct t.
    + by destruct t.
    + by rewrite <- (own_opp_perm t).
    + by rewrite <- (own_opp_perm t).
    + by rewrite bids_of_levels, asks_of_levels in H5.
    + intros p q Hp Hq. destruct t; simpl in *; apply Z.ltb_lt; auto.
Qed.

Lemma new_book_ok sym : book_ok (new_book sym).
Proof.
  constructor; simpl.
  1,2: by repeat constructor.
  1,2: constructor.
  - intros id e He. by rewrite lookup_empty in He.
  - set_solver.
Qed.

Lemma new_book_exact sym : book_exact (new_book sym).
Proof. constructor; [apply new_book_ok|constructor|set_solver..]. Qed.

(** ** Levels after matching *)

Lemma cut_keys ls ls' : cut ls ls' -> exists ks, ls.*1 = ks ++ ls'.*1.
Proof.
  induction 1 as [ls|l ls ls' _ [ks IH]|p q q' ls Hq]; [by exists []| |by exists []].
  exists (l.1 :: ks). csimpl. by rewrite IH.
Qed.

Lemma cut_sorted c ls ls' : cut ls ls' -> map_sorted c ls -> map_sorted c ls'.
Proof.
  unfold map_sorted. intros [ks ->]%cut_keys. apply keys_sorted_suffix.
Qed.

Lemma cut_nonempty ls ls' : cut ls ls' ->
  Forall (fun l : Level => l.2 <> []) ls -> Forall (fun l : Level => l.2 <> []) ls'.
Proof.
  induction 1 as [ls|l ls ls' _ IH|p q q' ls Hq]; [done| |].
  - rewrite Forall_cons. naive_solver.
  - rewrite !Forall_cons. naive_solver.
Qed.

Lemma cut_nodes_resting buy ns ns' : cut_nodes ns ns' ->
  Forall (resting_ok buy) ns -> Forall (resting_ok buy) ns'.
Proof.
  destruct 1 as [|p n ns q Hq]; [done|]. rewrite !Forall_cons.
  intros [(H1 & H2 & H3 & H4) Hns]. split; [|done].
  unfold resting_ok, live, node_rem, take_from, rem in *. simpl in *. split_and!; done || lia.
Qed.

Lemma cut_nodes_addrs ns ns' : cut_nodes ns ns' -> node_addr <$> ns' = node_addr <$> ns.
Proof. by destruct 1. Qed.

Lemma cut_nodes_ids ns ns' : cut_nodes ns ns' -> node_id <$> ns' = node_id <$> ns.
Proof. by destruct 1. Qed.

Lemma cut_nodes_elem ns ns' p n : cut_nodes ns ns' -> (p, n) ∈ ns ->
  exists n', (p, n') ∈ ns' /\ n_addr n' = n_addr n /\ o_order_id (n_order n') = o_order_id (n_order n).
Proof.
  destruct 1 as [|p' n' ns q Hq]; [by eauto|].
  intros [[= -> ->]|Hin]%elem_of_cons.
  - eexists. split; [left|]. done.
  - exists n. split; [by right|done].
Qed.

Lemma delete_ids_lookup ids ix id e :
  delete_ids ids ix !! id = Some e <-> id ∉ ids /\ ix !! id = Some e.
Proof.
  unfold delete_ids. revert ix. induction ids as [|i ids IH]; intros ix; simpl; [set_solver|].
  rewrite IH, lookup_delete_Some. set_solver.
Qed.

Lemma levels_ok_live c buy levels : levels_ok c buy levels -> Forall level_live levels.
Proof.
  intros [_ Hne Hr]. rewrite Forall_forall in Hne; rewrite Forall_forall in Hr. apply Forall_forall.
  intros [p q] Hl. split; [apply (Hne (p, q)), Hl|].
  apply Forall_forall. intros n Hn. apply (Hr (p, n)). apply elem_flat. by exists q.
Qed.

Lemma levels_ok_flat_live c buy levels : levels_ok c buy levels -> Forall live (flat levels).
Proof. intros [_ _ Hr]. eapply Forall_impl; [exact Hr|]. intros pn. by intros (_ & _ & _ & ?). Qed.

#[export] Hint Resolve levels_ok_live levels_ok_flat_live cut_sorted cut_nonempty
  cut_nodes_resting : exchange.

(** What the matching loops leave of a side, in one statement. *)
Lemma match_levels_effect t sym c buy levels r :
  levels_ok c buy levels -> rem_ok (r_incoming r) ->
  exists levels' r' gone left,
    match_levels (S (length levels)) t sym levels r = Ok (levels', r') /\
    Sweeps t sym (flat levels) r (flat levels') r' /\ cut levels levels' /\
    levels_ok c buy levels' /\
    flat levels = gone ++ left /\ cut_nodes left (flat levels') /\
    r_index r' = delete_ids (node_id <$> gone) (r_index r) /\
    Forall (fun pn => price_stops t (r_incoming r) pn.1 = false) gone.
Proof.
  intros Hl Hr.
  destruct (match_levels_sweep t sym levels r (S (length levels))) as (levels' & r' & He & Hc & Hs);
    [lia|done|eauto with exchange|].
  pose proof (sweep_Sweeps t sym (flat levels) r Hr ltac:(eauto with exchange)) as Hsw.
  rewrite Hs in Hsw. cbn [fst snd] in Hsw.
  destruct (Sweeps_nodes _ _ _ _ _ _ Hsw) as (gone & left & Hfl & Hcn & Hix & Hst).
  exists levels', r', gone, left. split_and!; try done.
  constructor.
  - eapply cut_sorted; [done|apply Hl].
  - eapply cut_nonempty; [done|apply Hl].
  - eapply cut_nodes_resting; [done|]. destruct Hl as [_ _ Hres]. rewrite Hfl in Hres.
    by apply Forall_app in Hres as [_ ?].
Qed.

(** ** Matching preserves the invariant *)

Lemma points_bids_of t own opp id e :
  points (bids_of t own opp) (asks_of t own opp) id e <->
  exists n, (price_level e, n) ∈ flat (if eqb (is_buy (side e)) (own_buy t) then own else opp) /\
    n_addr n = position e /\ o_order_id (n_order n) = id.
Proof. destruct t, (is_buy (side e)) eqn:E; unfold points; simpl; by rewrite E. Qed.

Lemma sided_match t own opp opp' ix nxt gone left :
  sided_ok t own opp ix nxt -> levels_ok (opp_cmp t) (negb (own_buy t)) opp' ->
  cut opp opp' -> flat opp = gone ++ left -> cut_nodes left (flat opp') ->
  sided_ok t own opp' (delete_ids (node_id <$> gone) ix) nxt.
Proof.
  intros [H1 H2 H3 H4 H5 H6] Hl Hc Hf Hn. constructor; try done.
  - rewrite Hf in H3. rewrite !fmap_app, (cut_nodes_addrs _ _ Hn) in *.
    apply NoDup_app in H3 as (? & Hd & (? & ? & ?)%NoDup_app).
    apply NoDup_app. split_and!; try done. intros a Ha Hb. apply (Hd a Ha), elem_of_app. by right.
  - rewrite Forall_forall in H4. apply Forall_forall. intros pn Hpn.
    apply elem_of_app in Hpn as [Hpn|Hpn]; [apply H4, elem_of_app; by left|].
    assert (node_addr pn ∈ node_addr <$> flat opp) as Ha.
    { rewrite Hf, fmap_app, elem_of_app. right. rewrite <- (cut_nodes_addrs _ _ Hn).
      apply list_elem_of_fmap. eauto. }
    apply list_elem_of_fmap in Ha as (pn' & -> & Hpn'). apply H4, elem_of_app. by right.
  - intros id e [Hid He]%delete_ids_lookup. specialize (H5 _ _ He).
    rewrite points_bids_of in *. destruct H5 as (n & Hin & Ha & Ho).
    destruct (eqb (is_buy (side e)) (own_buy t)); [by eauto|].
    rewrite Hf in Hin. apply elem_of_app in Hin as [Hin|Hin].
    + destruct Hid. apply list_elem_of_fmap. by exists (price_level e, n).
    + destruct (cut_nodes_elem _ _ _ _ Hn Hin) as (n' & ? & ? & ?). exists n'. split_and!; congruence.
  - intros p q Hp Hq. apply H6; [done|]. destruct (cut_keys _ _ Hc) as [ks ->]. set_solver.
Qed.

(** After the loops, an order with quantity left does not cross the other side. *)
Lemma match_uncrossed t sym ns r opp' r' :
  levels_ok (opp_cmp t) (negb (own_buy t)) opp' ->
  Sweeps t sym ns r (flat opp') r' -> (0 < inc_rem r')%Z ->
  o_type (r_incoming r) = Limit ->
  forall q, q ∈ opp'.*1 -> before (opp_cmp t) (o_price (r_incoming r)) q = true.
Proof.
  intros Hl Hs Hpos Hlim q Hq.
  destruct (Sweeps_stops _ _ _ _ _ _ Hs) as [?|[Hnil|(p & n & ns2 & He & Hp)]]; [lia| |].
  - destruct (keys_flat q opp') as [n Hn]; [apply Hl|done|]. rewrite Hnil in Hn. by apply not_elem_of_nil in Hn.
  - assert (before (opp_cmp t) (o_price (r_incoming r)) p = true) as Hb.
    { unfold price_stops in Hp. rewrite Hlim in Hp. by destruct t. }
    destruct opp' as [|[p' [|n' q']] opp']; [by simpl in Hq| |].
    + pose proof (lv_nonempty _ _ _ Hl) as Hne. by apply Forall_cons in Hne as [? _].
    + cbn in He. injection He as -> _ _. apply elem_of_cons in Hq as [->|Hq]; [done|].
      pose proof (lv_sorted _ _ _ Hl) as [Hall _]. rewrite Forall_forall in Hall.
      eapply before_trans; [exact Hb|]. by apply Hall.
Qed.

(** ** Resting the rest of an order *)

(** Where [operator\[\]] and [push_back] put the new node. *)
Lemma push_level c p (n : Node) (levels : list Level) :
  map_sorted c levels ->
  exists l1 l2,
    flat levels = l1 ++ l2 /\
    flat (map_mutate (fun q => q ++ [n]) p (map_at c [] p levels)) = l1 ++ (p, n) :: l2 /\
    Forall (fun pn => before c p pn.1 = false) l1 /\
    Forall (fun pn => before c p pn.1 = true) l2.
Proof.
  intros Hs. destruct (map_find p levels) as [q|] eqn:Hf.
  - destruct (map_split c p q levels Hs Hf) as (m1 & m2 & -> & H1 & H2 & _ & Hm & Ha).
    rewrite Ha, Hm. exists (flat m1 ++ tag p q), (flat m2).
    rewrite !flat_app. cbn [flat]. rewrite tag_app, <- !app_assoc. split_and!; try done.
    + unfold map_sorted in Hs. rewrite fmap_app in Hs. apply Forall_forall. intros pn Hpn.
      apply elem_of_app in Hpn as [Hpn|[-> _]%elem_tag]; [|apply before_irrefl].
      apply flat_keys in Hpn. apply before_asym. csimpl in Hs. clear -Hs Hpn.
      induction m1 as [|l m1 IH]; csimpl in *; [by apply not_elem_of_nil in Hpn|].
      destruct Hs as [Hall Hs]. apply elem_of_cons in Hpn as [->|Hpn]; [|by apply IH].
      rewrite Forall_forall in Hall. apply Hall. set_solver.
    + unfold map_sorted in Hs. rewrite fmap_app in Hs. apply keys_sorted_suffix in Hs.
      destruct Hs as [Hall _]. apply Forall_forall. intros pn Hpn%flat_keys.
      rewrite Forall_forall in Hall. by apply Hall.
  - destruct (map_at_new c [] p levels Hs Hf) as (m1 & m2 & -> & Ha & H1 & H2).
    rewrite Ha, map_mutate_mid.
    2:{ intros Hin. rewrite Forall_forall in H1. apply H1 in Hin. by rewrite before_irrefl in Hin. }
    exists (flat m1), (flat m2). rewrite !flat_app. cbn. split_and!; try done.
    + rewrite Forall_forall in H1. apply Forall_forall. intros pn Hpn%flat_keys. apply before_asym. auto.
    + rewrite Forall_forall in H2. apply Forall_forall. intros pn Hpn%flat_keys. auto.
Qed.

Lemma push_level_nonempty c p (n : Node) (levels : list Level) :
  Forall (fun l : Level => l.2 <> []) levels ->
  Forall (fun l : Level => l.2 <> []) (map_mutate (fun q => q ++ [n]) p (map_at c [] p levels)).
Proof.
  induction levels as [|[p' q] levels IH]; simpl.
  { intros _. rewrite Z.eqb_refl. repeat constructor. done. }
  intros [Hq Hl]%Forall_cons. simpl in Hq.
  assert (q ++ [n] <> []) by by destruct q.
  destruct (p' =? p)%Z eqn:E; simpl; rewrite ?E; [by constructor|].
  destruct (before c p p'); simpl; rewrite ?Z.eqb_refl, ?E; repeat constructor; auto; done.
Qed.

Lemma push_level_keys c p (n : Node) (levels : list Level) x :
  x ∈ (map_mutate (fun q => q ++ [n]) p (map_at c [] p levels)).*1 <-> x = p \/ x ∈ levels.*1.
Proof. rewrite map_mutate_keys. apply map_at_keys. Qed.

Lemma sided_rest t own opp ix nxt o :
  sided_ok t own opp ix nxt -> o_type o = Limit -> is_buy (o_side o) = own_buy t ->
  (0 < rem o < 2 ^ 32)%Z ->
  (forall q, q ∈ opp.*1 -> before (opp_cmp t) (o_price o) q = true) ->
  sided_ok t
    (map_mutate (fun q => q ++ [mkNode nxt o]) (o_price o) (map_at (own_cmp t) [] (o_price o) own))
    opp (index_insert (o_order_id o) (own_side t) (o_price o) nxt ix) (S nxt).
Proof.
  intros [H1 H2 H3 H4 H5 H6] Hlim Hside Hrem Hunc.
  destruct (push_level (own_cmp t) (o_price o) (mkNode nxt o) own (lv_sorted _ _ _ H1))
    as (l1 & l2 & Hf & Hf' & _ & _).
  assert (Hperm : flat (map_mutate (fun q => q ++ [mkNode nxt o]) (o_price o)
            (map_at (own_cmp t) [] (o_price o) own)) ≡ₚ (o_price o, mkNode nxt o) :: flat own).
  { rewrite Hf, Hf'. symmetry. apply Permutation_middle. }
  constructor; try done.
  - constructor.
    + apply map_mutate_sorted, map_at_sorted, H1.
    + apply push_level_nonempty, H1.
    + rewrite Hperm. constructor; [|apply H1]. unfold resting_ok, live, node_rem. simpl. done.
  - rewrite Hperm. simpl. constructor; [|done]. intros Hin.
    apply list_elem_of_fmap in Hin as (pn & Heq & Hpn). rewrite Forall_forall in H4.
    apply H4 in Hpn. unfold node_addr in *. simpl in *. lia.
  - rewrite Hperm. simpl. constructor; [unfold node_addr; simpl; lia|].
    eapply Forall_impl; [exact H4|]. simpl. lia.
  - unfold index_insert. intros id e Hlk. rewrite points_bids_of.
    apply lookup_insert_Some in Hlk as [[<- <-]|[Hne Hlk]].
    + cbn [price_level side position]. assert (eqb (is_buy (own_side t)) (own_buy t) = true) as ->
        by by destruct t.
      exists (mkNode nxt o). rewrite Hperm. split_and!; [by left|done|done].
    + specialize (H5 _ _ Hlk). rewrite points_bids_of in H5. destruct H5 as (n & Hin & ? & ?).
      exists n. split_and!; try done. destruct (eqb _ _); [|done]. rewrite Hperm. by right.
  - intros p q Hp Hq. apply push_level_keys in Hp as [->|Hp]; [by apply Hunc|by apply H6].
Qed.

(** ** submitOrderInternal *)

Lemma taker_of_own s : is_buy s = own_buy (taker_of s).
Proof. unfold taker_of. by destruct (is_buy s). Qed.

Lemma own_set_sides t own opp b : own_levels t (set_sides t own opp b) = own.
Proof. by destruct t. Qed.

Lemma opp_set_sides t own opp b : opp_levels t (set_sides t own opp b) = opp.
Proof. by destruct t. Qed.

Lemma index_set_sides t own opp b : order_index_ (set_sides t own opp b) = order_index_ b.
Proof. by destruct t. Qed.

Lemma symbol_set_sides t own opp b : symbol_ (set_sides t own opp b) = symbol_ b.
Proof. by destruct t. Qed.

Lemma next_set_sides t own opp b : next_addr (set_sides t own opp b) = next_addr b.
Proof. by destruct t. Qed.

Lemma own_set_index t ix b : own_levels t (set_index ix b) = own_levels t b.
Proof. by destruct t. Qed.

Lemma opp_set_index t ix b : opp_levels t (set_index ix b) = opp_levels t b.
Proof. by destruct t. Qed.

#[export] Hint Rewrite own_set_sides opp_set_sides index_set_sides next_set_sides
  own_set_index opp_set_index : exchange.

(** The book [finish_order] starts from. *)
Definition matched_book (t : taker) (opp : list Level) (ix : OrderIndex) (b : OrderBook) : OrderBook :=
  set_index ix (set_sides t (own_levels t b) opp b).

Lemma matched_book_sided t opp ix b : book_ok (matched_book t opp ix b) <->
  sided_ok t (own_levels t b) opp ix (next_addr b).
Proof.
  rewrite (book_sided t). unfold matched_book. autorewrite with exchange. simpl.
  autorewrite with exchange. done.
Qed.

(** The unfolded form of [submitOrderInternal] on a well-formed book. *)
Lemma submit_unfold o res b env :
  book_ok b -> rem_ok o ->
  let t := taker_of (o_side o) in
  let r := mkRun o (order_index_ b) res env in
  exists opp' r' gone left,
    submitOrderInternal o res b env = Ok (finish_order t (matched_book t opp' (r_index r') b) r') /\
    Sweeps t (symbol_ b) (flat (opp_levels t b)) r (flat opp') r' /\
    cut (opp_levels t b) opp' /\
    book_ok (matched_book t opp' (r_index r') b) /\
    flat (opp_levels t b) = gone ++ left /\ cut_nodes left (flat opp') /\
    r_index r' = delete_ids (node_id <$> gone) (order_index_ b) /\
    (forall q, (0 < inc_rem r')%Z -> o_type o = Limit -> q ∈ opp'.*1 ->
       before (opp_cmp t) (o_price o) q = true).
Proof.
  intros Hb Ho t r. pose proof (proj1 (book_sided t b) Hb) as Hsd.
  destruct (match_levels_effect t (symbol_ b) _ _ _ r (sd_opp _ _ _ _ _ Hsd) Ho)
    as (opp' & r' & gone & left & He & Hsw & Hc & Hl & Hf & Hn & Hix & Hst).
  exists opp', r', gone, left. split_and!; try done.
  - unfold submitOrderInternal. fold t. fold r. by rewrite He.
  - rewrite matched_book_sided, Hix. by eapply sided_match.
  - intros q Hpos Hlim Hq. eapply match_uncrossed in Hsw; try done.
Qed.

Lemma finish_ok t b r :
  book_ok b -> t = taker_of (o_side (r_incoming r)) -> rem_ok (r_incoming r) ->
  (forall q, (0 < inc_rem r)%Z -> o_type (r_incoming r) = Limit -> q ∈ (opp_levels t b).*1 ->
     before (opp_cmp t) (o_price (r_incoming r)) q = true) ->
  book_ok (finish_order t b r).1.1.
Proof.
  intros Hb Ht Ho Hunc. unfold finish_order. fold (inc_rem r).
  change (o_remaining_quantity (r_incoming r)) with (inc_rem r).
  destruct (0 <? inc_rem r)%Z eqn:Hpos; [|done]. apply Z.ltb_lt in Hpos.
  destruct (o_type (r_incoming r)) eqn:Hty; simpl; try done.
  assert (book_ok (rest_order t (r_incoming r) b)) as Hr.
  { apply (book_sided t). apply (book_sided t) in Hb.
    assert (own_levels t (rest_order t (r_incoming r) b) =
      map_mutate (fun q => q ++ [mkNode (next_addr b) (r_incoming r)]) (o_price (r_incoming r))
        (map_at (own_cmp t) [] (o_price (r_incoming r)) (own_levels t b))) as -> by by destruct t.
    assert (opp_levels t (rest_order t (r_incoming r) b) = opp_levels t b) as -> by by destruct t.
    assert (order_index_ (rest_order t (r_incoming r) b) =
      index_insert (o_order_id (r_incoming r)) (own_side t) (o_price (r_incoming r)) (next_addr b)
        (order_index_ b)) as -> by by destruct t.
    apply sided_rest; try done.
    - rewrite Ht. apply taker_of_own.
    - unfold rem_ok, inc_rem in *. lia.
    - intros q Hq. by apply Hunc. }
  destruct (_ =? _)%Z; simpl; done.
Qed.

Lemma submit_internal_ok o res b env :
  book_ok b -> rem_ok o ->
  exists b' res' env', submitOrderInternal o res b env = Ok (b', res', env') /\ book_ok b'.
Proof.
  intros Hb Ho.
  destruct (submit_unfold o res b env Hb Ho)
    as (opp' & r' & gone & left & He & Hsw & Hc & Hb' & Hf & Hn & Hix & Hunc).
  destruct (Sweeps_incoming _ _ _ _ _ _ Hsw) as [Hrem Hinc]; [unfold rem_ok, inc_rem in *; simpl; lia|].
  destruct (finish_order (taker_of (o_side o)) (matched_book (taker_of (o_side o)) opp' (r_index r') b) r')
    as [[b' res'] env'] eqn:E.
  exists b', res', env'. split; [done|].
  change b' with (b', res', env').1.1. rewrite <- E. apply finish_ok.
  - done.
  - by rewrite Hinc.
  - unfold rem_ok in *. fold (inc_rem r'). unfold inc_rem in Hrem at 3. simpl in Hrem. lia.
  - intros q Hpos Hlim Hq. rewrite Hinc in *. apply Hunc; try done.
    unfold matched_book in Hq. by autorewrite with exchange in Hq.
Qed.

(** ** Following and erasing an iterator *)

Lemma flat_snd levels : (flat levels).*2 = concat levels.*2.
Proof.
  induction levels as [|[p q] levels IH]; csimpl; [done|].
  rewrite fmap_app, IH. f_equal. unfold tag. rewrite <- list_fmap_compose.
  by apply list_fmap_id.
Qed.

Lemma book_deref_nodes pos b :
  book_deref pos b = of_option BadIterator (list_deref pos (book_nodes b).*2).
Proof. unfold book_deref, book_nodes. by rewrite fmap_app, !flat_snd, concat_app. Qed.

Lemma list_deref_found n q :
  NoDup (n_addr <$> q) -> n ∈ q -> list_deref (n_addr n) q = Some (n_order n).
Proof.
  induction q as [|m q IH]; csimpl; [by intros _ ?%not_elem_of_nil|].
  intros [Hm Hq]%NoDup_cons [->|Hin]%elem_of_cons; [by rewrite Nat.eqb_refl|].
  rewrite (proj2 (Nat.eqb_neq _ _)); [auto|]. intros He. destruct Hm. rewrite He.
  apply list_elem_of_fmap. eauto.
Qed.

Lemma list_erase_found n q :
  NoDup (n_addr <$> q) -> n ∈ q ->
  exists q1 q2, q = q1 ++ n :: q2 /\ list_erase (n_addr n) q = Some (q1 ++ q2).
Proof.
  induction q as [|m q IH]; csimpl; [by intros _ ?%not_elem_of_nil|].
  intros [Hm Hq]%NoDup_cons [->|Hin]%elem_of_cons.
  { exists [], q. by rewrite Nat.eqb_refl. }
  rewrite (proj2 (Nat.eqb_neq _ _)).
  2:{ intros He. destruct Hm. rewrite He. apply list_elem_of_fmap. eauto. }
  destruct (IH Hq Hin) as (q1 & q2 & -> & ->). by exists (m :: q1), q2.
Qed.

Lemma node_addr_snd l : node_addr <$> l = n_addr <$> (l.*2 : list Node).
Proof. by rewrite <- list_fmap_compose. Qed.

Lemma NoDup_tag p q l1 l2 :
  NoDup (node_addr <$> (l1 ++ tag p q ++ l2)) -> NoDup (n_addr <$> q).
Proof.
  rewrite !fmap_app. intros (_ & _ & (Hq & _ & _)%NoDup_app)%NoDup_app.
  unfold tag in Hq. by rewrite <- list_fmap_compose in Hq.
Qed.

Lemma unlink_level_ok c buy p n levels :
  levels_ok c buy levels -> NoDup (node_addr <$> flat levels) -> (p, n) ∈ flat levels ->
  exists levels' l1 l2,
    unlink_level p (n_addr n) levels = Ok levels' /\ levels_ok c buy levels' /\
    flat levels = l1 ++ (p, n) :: l2 /\ flat levels' = l1 ++ l2 /\
    (forall x, x ∈ levels'.*1 -> x ∈ levels.*1).
Proof.
  intros [Hs Hne Hr] Hnd Hin. pose proof Hin as Hin'.
  apply elem_flat in Hin' as (q & Hq & Hn). simpl in Hq, Hn.
  pose proof (elem_map_find _ _ _ _ Hs Hq) as Hf.
  destruct (map_split c p q levels Hs Hf) as (m1 & m2 & -> & _ & _ & Her & Hmu & _).
  rewrite flat_app in Hnd. cbn [flat] in Hnd. pose proof (NoDup_tag _ _ _ _ Hnd) as Hqd.
  destruct (list_erase_found n q Hqd Hn) as (q1 & q2 & -> & Hle).
  assert (Hfl : flat (m1 ++ (p, q1 ++ n :: q2) :: m2) =
            (flat m1 ++ tag p q1) ++ (p, n) :: (tag p q2 ++ flat m2)).
  { rewrite flat_app. cbn [flat]. rewrite tag_app, <- !app_assoc. done. }
  rewrite Hfl in Hr. apply Forall_app in Hr as [Hr1 Hr2]. apply Forall_cons in Hr2 as [_ Hr2].
  apply Forall_app in Hne as [Hne1 Hne2]. apply Forall_cons in Hne2 as [_ Hne2].
  unfold unlink_level. rewrite Hf, Hle. cbn [of_option obind].
  destruct (q1 ++ q2) as [|m q'] eqn:Hq12.
  - apply app_nil in Hq12 as [-> ->]. exists (m1 ++ m2), (flat m1), (flat m2).
    rewrite Her, Hfl, flat_app. cbn [tag list_fmap fmap]. rewrite app_nil_r in *. split_and!; try done.
    + constructor; [|by apply Forall_app|by rewrite flat_app; apply Forall_app].
      rewrite <- Her. by apply map_erase_sorted.
    + intros x. rewrite !fmap_app. set_solver.
  - rewrite Hmu, <- Hq12. eexists _, (flat m1 ++ tag p q1), (tag p q2 ++ flat m2). split; [done|].
    assert (Hfl' : flat (m1 ++ (p, q1 ++ q2) :: m2) = (flat m1 ++ tag p q1) ++ tag p q2 ++ flat m2).
    { rewrite flat_app. cbn [flat]. rewrite tag_app, <- !app_assoc. done. }
    split_and!; [|done|done|].
    + constructor.
      * rewrite <- (Hmu (fun _ => q1 ++ q2)). by apply map_mutate_sorted.
      * apply Forall_app. split; [done|]. constructor; [|done]. simpl. by rewrite Hq12.
      * rewrite Hfl'. by apply Forall_app.
    + intros x. rewrite !fmap_app. csimpl. set_solver.
Qed.

(** The side of the book an index entry names, as a taker's own side. *)
Definition entry_taker (e : OrderIndexEntry) : taker := taker_of (side e).

Lemma unlink_own e b :
  unlink e b =
    (let* l := unlink_level (price_level e) (position e) (own_levels (entry_taker e) b) in
     Ok (set_sides (entry_taker e) l (opp_levels (entry_taker e) b) b)).
Proof. unfold unlink, entry_taker, taker_of. by destruct (is_buy (side e)). Qed.

(** The common half of [cancelOrder] and [modifyOrder]. *)
Lemma unlink_ok b id e :
  book_ok b -> order_index_ b !! id = Some e ->
  let t := entry_taker e in
  exists n own' l1 l2,
    book_deref (position e) b = Ok (n_order n) /\ o_order_id (n_order n) = id /\
    unlink e b = Ok (set_sides t own' (opp_levels t b) b) /\
    flat (own_levels t b) = l1 ++ (price_level e, n) :: l2 /\ flat own' = l1 ++ l2 /\
    resting_ok (own_buy t) (price_level e, n) /\
    book_ok (set_index (delete id (order_index_ b)) (set_sides t own' (opp_levels t b) b)).
Proof.
  intros Hb He t. destruct (proj1 (book_sided t b) Hb) as [H1 H2 H3 H4 H5 H6].
  assert (Hpt := H5 _ _ He). rewrite points_bids_of in Hpt.
  assert (eqb (is_buy (side e)) (own_buy t) = true) as Hside.
  { rewrite (taker_of_own (side e)). apply eqb_reflx. }
  rewrite Hside in Hpt. destruct Hpt as (n & Hin & Ha & Ho).
  assert (NoDup (node_addr <$> flat (own_levels t b))) as Hnd.
  { rewrite fmap_app in H3. by apply NoDup_app in H3 as (? & _ & _). }
  destruct (unlink_level_ok _ _ _ n _ H1 Hnd Hin) as (own' & l1 & l2 & Hu & Hl & Hf & Hf' & Hk).
  exists n, own', l1, l2. split_and!; try done.
  - rewrite book_deref_nodes, <- Ha, (list_deref_found n); [done| |].
    + rewrite <- node_addr_snd. apply Hb.
    + apply list_elem_of_fmap. exists (price_level e, n). split; [done|].
      rewrite <- (own_opp_perm t). set_solver.
  - rewrite unlink_own. fold t. by rewrite <- Ha, Hu.
  - destruct H1 as [_ _ Hr]. rewrite Forall_forall in Hr. by apply Hr.
  - assert (Hperm : flat (own_levels t b) ≡ₚ (price_level e, n) :: flat own').
    { rewrite Hf, Hf'. symmetry. apply Permutation_middle. }
    apply (book_sided t). rewrite !own_set_index, !opp_set_index, own_set_sides, opp_set_sides.
    cbn [set_index order_index_ next_addr]. rewrite next_set_sides.
    constructor; try done.
    + rewrite Hperm in H3. simpl in H3. by apply NoDup_cons in H3 as [_ ?].
    + rewrite Hperm in H4. by apply Forall_cons in H4 as [_ ?].
    + intros id' e' [Hne He']%lookup_delete_Some. specialize (H5 _ _ He').
      rewrite points_bids_of in *. destruct H5 as (n' & Hin' & ? & Ho').
      exists n'. split_and!; try done. destruct (eqb _ _); [|done].
      rewrite Hperm in Hin'. apply elem_of_cons in Hin' as [[= _ ->]|?]; [congruence|done].
    + intros p q Hp Hq. apply H6; auto.
Qed.

(** ** The operations complete and preserve the invariant *)

Section Operations.
Context {L : Type} (log_func : option (L -> L)) (l : L).

Lemma cancel_unfold id res b env :
  book_ok b ->
  match order_index_ b !! id with
  | None => cancelOrder id res log_func b env l = Ok (false, b, res, env, run_log log_func l)
  | Some e =>
      exists n own' l1 l2,
        let t := entry_taker e in
        let b' := set_index (delete id (order_index_ b)) (set_sides t own' (opp_levels t b) b) in
        cancelOrder id res log_func b env l =
          Ok (true, b',
            push_report (cancel_report id (symbol_ b) e (get_current_time_ns env).1
              (o_client_id (n_order n))) res,
            (get_current_time_ns env).2, run_log log_func l) /\
        o_order_id (n_order n) = id /\ resting_ok (own_buy t) (price_level e, n) /\
        flat (own_levels t b) = l1 ++ (price_level e, n) :: l2 /\ flat own' = l1 ++ l2 /\
        book_ok b'
  end.
Proof.
  intros Hb. destruct (order_index_ b !! id) as [e|] eqn:He.
  2:{ unfold cancelOrder, index_get. by rewrite He. }
  destruct (unlink_ok b id e Hb He) as (n & own' & l1 & l2 & Hd & Hid & Hu & Hf & Hf' & Hr & Hb').
  exists n, own', l1, l2. cbn zeta. split_and!; try done.
  unfold cancelOrder, index_get. rewrite He, Hd. cbn [obind]. rewrite Hu. cbn [obind].
  unfold get_current_time_ns, index_remove. cbn [snd]. rewrite index_set_sides.
  by rewrite symbol_set_sides.
Qed.

Lemma modify_unfold req res b env :
  book_ok b ->
  match order_index_ b !! m_order_id req with
  | None => modifyOrder req res log_func b env l = Ok (false, b, res, env, run_log log_func l)
  | Some e =>
      exists n own' l1 l2,
        let t := entry_taker e in
        let b' := set_index (delete (m_order_id req) (order_index_ b))
                    (set_sides t own' (opp_levels t b) b) in
        modifyOrder req res log_func b env l =
          (let* (b'', res', env') :=
             submitOrderInternal (modified_order (n_order n) req) res b' env in
           Ok (true, b'', res', env', run_log log_func l)) /\
        o_order_id (n_order n) = m_order_id req /\ resting_ok (own_buy t) (price_level e, n) /\
        flat (own_levels t b) = l1 ++ (price_level e, n) :: l2 /\ flat own' = l1 ++ l2 /\
        book_ok b'
  end.
Proof.
  intros Hb. destruct (order_index_ b !! m_order_id req) as [e|] eqn:He.
  2:{ unfold modifyOrder, index_get. by rewrite He. }
  destruct (unlink_ok b _ e Hb He) as (n & own' & l1 & l2 & Hd & Hid & Hu & Hf & Hf' & Hr & Hb').
  exists n, own', l1, l2. cbn zeta. split_and!; try done.
  unfold modifyOrder, index_get. rewrite He, Hd. cbn [obind]. rewrite Hu. cbn [obind].
  unfold index_remove. cbn [snd]. by rewrite index_set_sides.
Qed.
End Operations.
