(* ===== verification/BookSpec.v ===== *)
(** * Abstract specification of the order book

    A book is two lists of orders in priority order: no price levels, list
    nodes, iterators, index or loops.  An incoming order is matched by
    allocating its quantity greedily to the orders of the other side whose
    price it accepts, best price first and oldest first within a price; what is
    left of a limit order is inserted behind every order of the same or a
    better price.  [submit_refines] and its companions show that
    [engine/order_book.cpp] implements this. *)

From stdpp Require Import base list gmap strings.
From Stdlib Require Import ZArith Lia.
From S2P Require Import Prelude StdMap Types MatchingEngine OrderIndex OrderBook Matching BookInv.
Local Open Scope exchange_scope.

(** ** Definitions *)

Record SpecBook : Type := mkSpecBook {
  sb_bids : list Order;
  sb_asks : list Order }.

(** One trade of the incoming order: the resting order before it, the quantity,
    and what the incoming order has left after it. *)
Record Alloc : Type := mkAlloc {
  al_resting : Order;
  al_qty : Z;
  al_left : Z }.

Fixpoint take_while {A} (f : A -> bool) (l : list A) : list A :=
  match l with [] => [] | x :: l' => if f x then x :: take_while f l' else [] end.

Fixpoint drop_while {A} (f : A -> bool) (l : list A) : list A :=
  match l with [] => [] | x :: l' => if f x then drop_while f l' else l end.

(** [o] accepts the price of the resting order [x]. *)
Definition accepts (t : taker) (o x : Order) : bool := negb (price_stops t o (o_price x)).

(** Greedy allocation of [q] over [l], in the order of [l]. *)
Fixpoint alloc (q : Z) (l : list Order) : list Alloc :=
  match l with
  | [] => []
  | o :: l' =>
      if (q <=? 0)%Z then []
      else
        let x := Z.min q (rem o) in
        mkAlloc o x (q - x) :: alloc (q - x) l'
  end.

(** What [alloc] leaves of [l]. *)
Fixpoint settle (q : Z) (l : list Order) : list Order :=
  match l with
  | [] => []
  | o :: l' =>
      if (q <=? 0)%Z then l
      else if (rem o <=? q)%Z then settle (q - rem o) l'
      else take_from q o :: l'
  end.

Definition allocs (t : taker) (o : Order) (opp : list Order) : list Alloc :=
  alloc (rem o) (take_while (accepts t o) opp).

Definition opp_after (t : taker) (o : Order) (opp : list Order) : list Order :=
  settle (rem o) (take_while (accepts t o) opp) ++ drop_while (accepts t o) opp.

Definition left_after (t : taker) (o : Order) (opp : list Order) : Z :=
  (rem o - sum_by al_qty (allocs t o opp))%Z.

(** The [i]-th trade's fill and pair of execution reports. *)
Definition spec_fill (t : taker) (sym : Symbol) (o : Order) (env : Env) (i : nat) (a : Alloc) : Fill :=
  let b := buyer t o (al_resting a) in
  let s := seller t o (al_resting a) in
  mkFill (u64 (counter_ env + Z.of_nat i)) (o_order_id b) (o_order_id s) sym
    (execution_price b s) (al_qty a) (u64 (clock env (clock_reads env + i))).

Definition spec_fill_reports (t : taker) (o : Order) (env : Env) (i : nat) (a : Alloc)
    : list ExecutionReport :=
  let px := execution_price (buyer t o (al_resting a)) (seller t o (al_resting a)) in
  let now := u64 (clock env (clock_reads env + i)) in
  let o' := set_remaining (al_left a) o in
  let x' := take_from (al_qty a) (al_resting a) in
  [fill_report (buyer t o' x') (al_qty a) px now; fill_report (seller t o' x') (al_qty a) px now].

Definition advance (n : nat) (env : Env) : Env :=
  mkEnv (u64 (counter_ env + Z.of_nat n)) (clock env) (clock_reads env + n).

(** Insertion by price priority [c], behind the orders of equal price. *)
Fixpoint insert_order (c : cmp) (o : Order) (l : list Order) : list Order :=
  match l with
  | [] => [o]
  | x :: l' => if before c (o_price o) (o_price x) then o :: l else x :: insert_order c o l'
  end.

Definition own_orders (t : taker) (sb : SpecBook) : list Order :=
  match t with TakeAsks => sb_bids sb | TakeBids => sb_asks sb end.
Definition opp_orders (t : taker) (sb : SpecBook) : list Order :=
  match t with TakeAsks => sb_asks sb | TakeBids => sb_bids sb end.
Definition spec_sides (t : taker) (own opp : list Order) : SpecBook :=
  match t with TakeAsks => mkSpecBook own opp | TakeBids => mkSpecBook opp own end.

(** The last report and clock read, for what is left of the order. *)
Definition spec_tail (o : Order) (env : Env) : list ExecutionReport * Env :=
  if (0 <? rem o)%Z then
    if is_limit (o_type o) then
      if (rem o =? o_quantity o)%Z
      then let '(now, env) := get_current_time_ns env in ([new_report o now], env)
      else ([], env)
    else let '(now, env) := get_current_time_ns env in ([expired_report o now], env)
  else ([], env).

Definition spec_submit (sym : Symbol) (o : Order) (sb : SpecBook) (env : Env)
    : SpecBook * list Fill * list ExecutionReport * Env :=
  let t := taker_of (o_side o) in
  let opp := opp_orders t sb in
  let trades := allocs t o opp in
  let o' := set_remaining (left_after t o opp) o in
  let own := if (0 <? rem o')%Z && is_limit (o_type o')
             then insert_order (own_cmp t) o' (own_orders t sb) else own_orders t sb in
  let '(reports, env') := spec_tail o' (advance (length trades) env) in
  (spec_sides t own (opp_after t o opp),
   imap (spec_fill t sym o env) trades,
   concat (imap (spec_fill_reports t o env) trades) ++ reports,
   env').

(** Cancelling removes the order with the given id. *)
Definition remove_id (id : Z) (l : list Order) : list Order :=
  filter (fun o => o_order_id o <> id) l.

Definition spec_remove (id : Z) (sb : SpecBook) : SpecBook :=
  mkSpecBook (remove_id id (sb_bids sb)) (remove_id id (sb_asks sb)).

Definition spec_find (id : Z) (sb : SpecBook) : option Order :=
  list_find (fun o => o_order_id o = id) (sb_bids sb ++ sb_asks sb) ≫= fun p => Some p.2.

(** The abstraction function. *)
Definition ords (ns : list (Z * Node)) : list Order := (fun pn => n_order pn.2) <$> ns.

Definition abs (b : OrderBook) : SpecBook :=
  mkSpecBook (ords (flat (buy_orders_ b))) (ords (flat (sell_orders_ b))).

(** [submitOrderInternal]'s outcome against the specification's: the book, and
    the fills and reports appended to the result it was given. *)
Definition extends (res res' : MatchResult) (fs : list Fill) (ers : list ExecutionReport) : Prop :=
  res' = mkMatchResult (mr_status res) (mr_fills res ++ fs) (mr_execution_reports res ++ ers).

Definition env_ok (env : Env) : Prop := is_u64 (counter_ env).

(** ** Lists *)

Lemma take_drop_while {A} (f : A -> bool) l : take_while f l ++ drop_while f l = l.
Proof. induction l as [|x l IH]; simpl; [done|]. destruct (f x); simpl; [by f_equal|done]. Qed.

Lemma settle_0 q l : (q <= 0)%Z -> settle q l = l.
Proof. destruct l; simpl; intros; [done|]. by rewrite (proj2 (Z.leb_le _ _)). Qed.

Lemma alloc_0 q l : (q <= 0)%Z -> alloc q l = [].
Proof. destruct l; simpl; intros; [done|]. by rewrite (proj2 (Z.leb_le _ _)). Qed.

Lemma imap_ext_all {A B} (f g : nat -> A -> B) l :
  (forall i x, f i x = g i x) -> imap f l = imap g l.
Proof. intros H. apply imap_ext. intros. apply H. Qed.

(** ** Advancing the counter and the clock *)

Lemma advance_0 env : env_ok env -> advance 0 env = env.
Proof.
  destruct env as [c k n]. unfold advance, env_ok; simpl. intros Hc.
  rewrite Z.add_0_r, Nat.add_0_r, u64_small by done. done.
Qed.

Lemma u64_add_l a b : u64 (u64 a + b) = u64 (a + b).
Proof. unfold u64. apply Zplus_mod_idemp_l. Qed.

Lemma advance_S n env : advance n (advance 1 env) = advance (S n) env.
Proof.
  unfold advance; simpl. rewrite u64_add_l. f_equal; [f_equal; lia|lia].
Qed.

Lemma advance_ok n env : env_ok (advance n env).
Proof. apply u64_range. Qed.

Lemma spec_fill_step t sym o q env i a :
  spec_fill t sym (take_from q o) (advance 1 env) i a = spec_fill t sym o env (S i) a.
Proof.
  unfold spec_fill, advance. cbn [counter_ clock clock_reads].
  rewrite u64_add_l. replace (clock_reads env + 1 + i)%nat with (clock_reads env + S i)%nat by lia.
  destruct t; cbn [buyer seller take_from set_remaining o_order_id]; f_equal; f_equal; lia.
Qed.

Lemma spec_fill_reports_step t o q env i a :
  spec_fill_reports t (take_from q o) (advance 1 env) i a = spec_fill_reports t o env (S i) a.
Proof.
  unfold spec_fill_reports, advance. cbn [counter_ clock clock_reads].
  replace (clock_reads env + 1 + i)%nat with (clock_reads env + S i)%nat by lia.
  by destruct t.
Qed.

Lemma accepts_take t q o : accepts t (take_from q o) = accepts t o.
Proof. done. Qed.

Lemma traded_env e : mkEnv (u64 (counter_ e + 1)) (clock e) (S (clock_reads e)) = advance 1 e.
Proof. unfold advance. f_equal. lia. Qed.

Lemma trade_fill_spec t sym r x q left : env_ok (r_env r) ->
  trade_fill t sym r x q = spec_fill t sym (r_incoming r) (r_env r) 0 (mkAlloc x q left).
Proof.
  intros He. unfold trade_fill, spec_fill. cbn [al_resting al_qty Z.of_nat].
  by rewrite Z.add_0_r, Nat.add_0_r, (u64_small _ He).
Qed.

Lemma trade_reports_spec t sym r x q :
  trade_reports t sym r x q =
    spec_fill_reports t (r_incoming r) (r_env r) 0 (mkAlloc x q (inc_rem r - q)).
Proof.
  unfold trade_reports, trade_fill, spec_fill_reports. cbn [al_resting al_qty al_left f_price f_timestamp].
  rewrite Nat.add_0_r. by destruct t.
Qed.

(** ** The sweep allocates greedily *)

Lemma Sweeps_spec t sym ns r ns' r' :
  Sweeps t sym ns r ns' r' -> env_ok (r_env r) ->
  Forall (fun pn => o_price (n_order pn.2) = pn.1) ns ->
  let o := r_incoming r in
  let tr := allocs t o (ords ns) in
  ords ns' = opp_after t o (ords ns) /\
  extends (r_result r) (r_result r') (imap (spec_fill t sym o (r_env r)) tr)
    (concat (imap (spec_fill_reports t o (r_env r)) tr)) /\
  r_env r' = advance (length tr) (r_env r) /\
  inc_rem r' = left_after t o (ords ns).
Proof.
  unfold left_after, opp_after, allocs, extends.
  induction 1 as [r|ns r Hz|p n ns r Hz Hp|p n ns r ns' r' Hq Hp Hs IH|p n ns r Hq Hp];
    intros Henv Hpr; cbn zeta.
  - cbn. rewrite !app_nil_r, advance_0 by done. split_and!; try done; [by destruct (r_result r)|].
    unfold inc_rem. lia.
  - unfold inc_rem in Hz.
    unfold allocs, left_after, opp_after, allocs. rewrite Hz, alloc_0, settle_0, take_drop_while by lia.
    cbn. rewrite !app_nil_r, advance_0 by done. split_and!; try done; by destruct (r_result r).
  - apply Forall_cons in Hpr as [Hn _]. simpl in Hn.
    assert (accepts t (r_incoming r) (n_order n) = false) as Hacc
      by (unfold accepts; by rewrite Hn, Hp).
    unfold allocs, left_after, opp_after, allocs, ords. csimpl. rewrite Hacc. cbn.
    rewrite !app_nil_r, advance_0 by done. split_and!; try done; [by destruct (r_result r)|].
    unfold inc_rem. lia.
  - apply Forall_cons in Hpr as [Hn Hpr]. simpl in Hn.
    assert (accepts t (r_incoming r) (n_order n) = true) as Hacc
      by (unfold accepts; by rewrite Hn, Hp).
    cbn zeta in IH. cbn [drop_index traded r_incoming r_result r_env] in IH.
    rewrite traded_env in IH. destruct IH as (IH1 & IH2 & IH3 & IH4); [apply u64_range|done|].
    unfold ords in *. csimpl. rewrite Hacc. csimpl.
    fold (inc_rem r) in *. rewrite rem_take_from in *. fold (inc_rem r) in *.
    rewrite (proj2 (Z.leb_gt _ _)) by lia. rewrite (proj2 (Z.leb_le _ _)) by lia.
    rewrite Z.min_r by lia. csimpl.
    split_and!.
    + exact IH1.
    + rewrite IH2. cbn [mr_status mr_fills mr_execution_reports imap concat fmap list_fmap].
      rewrite (trade_fill_spec _ _ _ _ _ (inc_rem r - rem (n_order n))), trade_reports_spec by done.
      rewrite <- !app_assoc. f_equal; f_equal; cbn; [f_equal|do 3 f_equal];
        apply imap_ext_all; intros; [apply spec_fill_step|apply spec_fill_reports_step].
    + rewrite IH3. apply advance_S.
    + rewrite IH4, accepts_take. lia.
  - apply Forall_cons in Hpr as [Hn Hpr]. simpl in Hn.
    assert (accepts t (r_incoming r) (n_order n) = true) as Hacc
      by (unfold accepts; by rewrite Hn, Hp).
    unfold ords. csimpl. rewrite Hacc. csimpl. fold (inc_rem r).
    rewrite !(proj2 (Z.leb_gt _ _)) by lia. rewrite Z.min_l, Z.sub_diag, alloc_0 by lia.
    cbn. rewrite take_drop_while. split_and!.
    + done.
    + rewrite (trade_fill_spec _ _ _ _ _ 0), trade_reports_spec, Z.sub_diag by done. done.
    + unfold advance. f_equal; lia.
    + unfold inc_rem, take_from, rem. cbn. lia.
Qed.

(** ** Resting inserts by priority *)

Lemma insert_order_split c o l1 l2 :
  Forall (fun x => before c (o_price o) (o_price x) = false) l1 ->
  Forall (fun x => before c (o_price o) (o_price x) = true) l2 ->
  insert_order c o (l1 ++ l2) = l1 ++ o :: l2.
Proof.
  intros H1 H2. induction H1 as [|x l1 Hx H1 IH]; simpl.
  - destruct H2 as [|x l2 Hx H2]; simpl; [done|]. by rewrite Hx.
  - by rewrite Hx, IH.
Qed.

Lemma ords_app l1 l2 : ords (l1 ++ l2) = ords l1 ++ ords l2.
Proof. apply fmap_app. Qed.

Lemma Forall_ords (P : Order -> Prop) ns : Forall P (ords ns) <-> Forall (fun pn => P (n_order pn.2)) ns.
Proof. unfold ords. apply Forall_fmap. Qed.

Lemma levels_ok_price c buy levels : levels_ok c buy levels ->
  Forall (fun pn => o_price (n_order pn.2) = pn.1) (flat levels).
Proof. intros [_ _ Hr]. eapply Forall_impl; [exact Hr|]. intros pn. by intros (? & _). Qed.

Lemma push_level_ords c buy o a levels :
  levels_ok c buy levels ->
  ords (flat (map_mutate (fun q => q ++ [mkNode a o]) (o_price o) (map_at c [] (o_price o) levels)))
  = insert_order c o (ords (flat levels)).
Proof.
  intros Hl. pose proof (levels_ok_price _ _ _ Hl) as Hp.
  destruct (push_level c (o_price o) (mkNode a o) levels (lv_sorted _ _ _ Hl))
    as (l1 & l2 & Hf & -> & H1 & H2).
  rewrite Hf in *. rewrite !ords_app. symmetry.
  apply Forall_app in Hp as [Hp1 Hp2].
  apply insert_order_split; apply Forall_ords; [clear -H1 Hp1|clear -H2 Hp2].
  - induction H1; decompose_Forall_hyps; constructor; [congruence|auto].
  - induction H2; decompose_Forall_hyps; constructor; [congruence|auto].
Qed.

(** ** The two books side by side *)

Lemma own_abs t b : own_orders t (abs b) = ords (flat (own_levels t b)).
Proof. by destruct t. Qed.

Lemma opp_abs t b : opp_orders t (abs b) = ords (flat (opp_levels t b)).
Proof. by destruct t. Qed.

Lemma abs_sides t b :
  abs b = spec_sides t (ords (flat (own_levels t b))) (ords (flat (opp_levels t b))).
Proof. by destruct t. Qed.

Lemma own_rest_order t o b : own_levels t (rest_order t o b) =
  map_mutate (fun q => q ++ [mkNode (next_addr b) o]) (o_price o)
    (map_at (own_cmp t) [] (o_price o) (own_levels t b)).
Proof. by destruct t. Qed.

Lemma opp_rest_order t o b : opp_levels t (rest_order t o b) = opp_levels t b.
Proof. by destruct t. Qed.

Lemma set_remaining_id o : set_remaining (rem o) o = o.
Proof. by destruct o. Qed.

Lemma take_set q o : take_from q o = set_remaining (rem o - q) o.
Proof. done. Qed.

Lemma extends_push res res' fs ers er :
  extends res res' fs ers -> extends res (push_report er res') fs (ers ++ [er]).
Proof. intros ->. unfold extends, push_report. simpl. by rewrite app_assoc. Qed.

(** [finish_order] against the last part of the specification. *)
Lemma finish_spec t b r res fs ers :
  book_ok b -> (0 <= inc_rem r)%Z -> extends res (r_result r) fs ers ->
  let o := r_incoming r in
  let own := if (0 <? rem o)%Z && is_limit (o_type o)
             then insert_order (own_cmp t) o (own_orders t (abs b)) else own_orders t (abs b) in
  abs (finish_order t b r).1.1 = spec_sides t own (opp_orders t (abs b)) /\
  extends res (finish_order t b r).1.2 fs (ers ++ (spec_tail o (r_env r)).1) /\
  (finish_order t b r).2 = (spec_tail o (r_env r)).2.
Proof.
  intros Hb Hpos Hext. cbn zeta. unfold finish_order, spec_tail.
  change (o_remaining_quantity (r_incoming r)) with (rem (r_incoming r)).
  pose proof (sd_own _ _ _ _ _ (proj1 (book_sided t b) Hb)) as Hown.
  assert (abs (rest_order t (r_incoming r) b) =
    spec_sides t (insert_order (own_cmp t) (r_incoming r) (own_orders t (abs b)))
      (opp_orders t (abs b))) as Hrest.
  { rewrite (abs_sides t), own_rest_order, opp_rest_order, own_abs, opp_abs.
    by erewrite push_level_ords. }
  destruct (0 <? rem (r_incoming r))%Z; simpl.
  2:{ rewrite app_nil_r. split_and!; try done. by destruct t, b. }
  destruct (is_limit (o_type (r_incoming r))); simpl.
  - destruct (rem (r_incoming r) =? o_quantity (r_incoming r))%Z; simpl.
    + split_and!; try done. by apply extends_push.
    + rewrite app_nil_r. done.
  - split_and!; try done; [by destruct t, b|by apply extends_push].
Qed.

(** Functional refinement of [submitOrderInternal]. *)
Lemma submit_internal_spec o res b env :
  book_ok b -> rem_ok o -> env_ok env ->
  exists b' res' env', submitOrderInternal o res b env = Ok (b', res', env') /\ book_ok b' /\
    let '(sb', fs, ers, env'') := spec_submit (symbol_ b) o (abs b) env in
    abs b' = sb' /\ extends res res' fs ers /\ env' = env''.
Proof.
  intros Hb Ho Henv.
  destruct (submit_internal_ok o res b env Hb Ho) as (b1 & res1 & env1 & He1 & Hb1).
  exists b1, res1, env1. split_and!; [done..|].
  destruct (submit_unfold o res b env Hb Ho)
    as (opp' & r' & gone & left & He & Hsw & Hc & Hb' & Hf & Hn & Hix & Hunc).
  rewrite He in He1. set (t := taker_of (o_side o)) in *.
  pose proof (levels_ok_price _ _ _ (sd_opp _ _ _ _ _ (proj1 (book_sided t b) Hb))) as Hpr.
  destruct (Sweeps_incoming _ _ _ _ _ _ Hsw) as [Hrem Hinc]; [unfold rem_ok, inc_rem in *; simpl; lia|].
  destruct (Sweeps_spec _ _ _ _ _ _ Hsw Henv Hpr) as (Hopp & Hext & Henv' & Hleft).
  cbn [r_incoming r_result r_env] in *.
  assert (r_incoming r' = set_remaining (left_after t o (opp_orders t (abs b))) o) as Hinc'.
  { rewrite Hinc, take_set, opp_abs, <- Hleft. f_equal. unfold inc_rem. simpl. lia. }
  destruct (finish_spec t _ r' res _ _ Hb' ltac:(lia) Hext) as (Hab & Hex & Hen).
  cbn zeta in Hab, Hex, Hen. injection He1 as He1. rewrite He1 in Hab, Hex, Hen.
  unfold spec_submit. fold t.
  rewrite <- Hinc'. rewrite Hinc' in Hex, Hen. rewrite Henv' in Hex, Hen. rewrite <- Hinc' in Hex, Hen.
  rewrite <- opp_abs in Hex, Hen. unfold allocs in *.
  destruct (spec_tail (r_incoming r') _) as [tl env2] eqn:E. cbn [fst snd] in *.
  split_and!; [|done|done]. rewrite Hab.
  rewrite own_abs, opp_abs. unfold matched_book. autorewrite with exchange.
  by rewrite Hopp, own_abs, opp_abs.
Qed.
