(* ===== verification/BookExact.v ===== *)
(** * Unique order ids: the index is exact

    When no id is submitted twice, the index maps exactly the resting orders to
    their positions, and cancel, modify and query act on the one order with the
    given id. *)

From stdpp Require Import base list gmap strings.
From Stdlib Require Import ZArith Lia.
From S2P Require Import Prelude StdMap Types MatchingEngine OrderIndex OrderBook Matching BookInv BookSpec.
Local Open Scope exchange_scope.

(** ** Definitions *)

Record sided_exact (t : taker) (own opp : list Level) (ix : OrderIndex) : Prop := mkSidedExact {
  sx_ids : NoDup (node_id <$> (flat own ++ flat opp));
  sx_own : forall pn, pn ∈ flat own -> ix !! node_id pn = Some (entry_of (own_buy t) pn);
  sx_opp : forall pn, pn ∈ flat opp -> ix !! node_id pn = Some (entry_of (negb (own_buy t)) pn) }.

(** [modifyOrder]'s effect on a specification book. *)
Definition spec_modify (sym : Symbol) (req : ModifyRequest) (sb : SpecBook) (env : Env)
    : bool * SpecBook * list Fill * list ExecutionReport * Env :=
  match spec_find (m_order_id req) sb with
  | None => (false, sb, [], [], env)
  | Some o =>
      let '(sb', fs, ers, env') :=
        spec_submit sym (modified_order o req) (spec_remove (m_order_id req) sb) env in
      (true, sb', fs, ers, env')
  end.

(** [cancelOrder]'s effect: the order is gone and one report says so. *)
Definition spec_cancel_report (sym : Symbol) (o : Order) (now : Timestamp) : ExecutionReport :=
  mkExecutionReport (o_order_id o) sym (if is_buy (o_side o) then Buy else Sell) Cancelled
    (o_price o) 0 0 0 0 now "" (o_client_id o).

Definition spec_cancel (sym : Symbol) (id : OrderID) (sb : SpecBook) (env : Env)
    : bool * SpecBook * list ExecutionReport * Env :=
  match spec_find id sb with
  | None => (false, sb, [], env)
  | Some o =>
      let '(now, env) := get_current_time_ns env in
      (true, spec_remove id sb, [spec_cancel_report sym o now], env)
  end.

(** ** The two views *)

Lemma book_exact_sided t b : book_exact b <->
  book_ok b /\ sided_exact t (own_levels t b) (opp_levels t b) (order_index_ b).
Proof.
  split.
  - intros [H1 H2 H3 H4]. split; [done|]. constructor.
    + by rewrite own_opp_perm.
    + by destruct t.
    + by destruct t.
  - intros [H1 [H2 H3 H4]]. constructor; [done| | |].
    + by rewrite <- (own_opp_perm t).
    + by destruct t.
    + by destruct t.
Qed.

Lemma cut_nodes_elem_inv ns ns' pn : cut_nodes ns ns' -> pn ∈ ns' ->
  exists pn0, pn0 ∈ ns /\ node_id pn0 = node_id pn /\ node_addr pn0 = node_addr pn /\ pn0.1 = pn.1.
Proof.
  destruct 1 as [|p n ns q Hq]; [by eauto|].
  intros [->|Hin]%elem_of_cons; [|exists pn; set_solver].
  exists (p, n). split; [left|done].
Qed.

(** ** Preservation *)

Lemma sided_exact_match t own opp opp' ix gone left :
  sided_exact t own opp ix -> flat opp = gone ++ left -> cut_nodes left (flat opp') ->
  sided_exact t own opp' (delete_ids (node_id <$> gone) ix).
Proof.
  intros [H1 H2 H3] Hf Hn. rewrite Hf in *.
  rewrite !fmap_app in H1. apply NoDup_app in H1 as (Hown & Hd & (Hg & Hgl & Hl)%NoDup_app).
  constructor.
  - rewrite fmap_app, (cut_nodes_ids _ _ Hn). apply NoDup_app. split_and!; try done.
    intros i Hi Hi'. apply (Hd i Hi). set_solver.
  - intros pn Hpn. apply delete_ids_lookup. split; [|auto]. intros Hin.
    apply (Hd (node_id pn)); [apply list_elem_of_fmap; eauto|set_solver].
  - intros pn Hpn. destruct (cut_nodes_elem_inv _ _ _ Hn Hpn) as (pn0 & Hin0 & Hid & Ha & Hk).
    apply delete_ids_lookup. split.
    + intros Hin. apply (Hgl _ Hin). rewrite <- Hid. apply list_elem_of_fmap. eauto.
    + rewrite <- Hid, H3 by set_solver. unfold entry_of. by rewrite Ha, Hk.
Qed.

Lemma sided_exact_rest t b o :
  sided_exact t (own_levels t b) (opp_levels t b) (order_index_ b) ->
  book_ok b -> o_order_id o ∉ resting_ids b ->
  let b' := rest_order t o b in
  sided_exact t (own_levels t b') (opp_levels t b') (order_index_ b').
Proof.
  intros [H1 H2 H3] Hb Hnew b'. unfold b'.
  assert (order_index_ (rest_order t o b) =
    <[o_order_id o := mkOrderIndexEntry (own_side t) (o_price o) (next_addr b)]> (order_index_ b))
    as -> by by destruct t.
  rewrite own_rest_order, opp_rest_order.
  pose proof (sd_own _ _ _ _ _ (proj1 (book_sided t b) Hb)) as Hown.
  destruct (push_level (own_cmp t) (o_price o) (mkNode (next_addr b) o) _ (lv_sorted _ _ _ Hown))
    as (l1 & l2 & Hf & Hf' & _ & _).
  assert (Hnew' : o_order_id o ∉ node_id <$> (flat (own_levels t b) ++ flat (opp_levels t b)))
    by by rewrite own_opp_perm.
  assert (forall pn, pn ∈ flat (own_levels t b) ++ flat (opp_levels t b) -> node_id pn <> o_order_id o) as Hne.
  { intros pn Hpn He. apply Hnew'. rewrite <- He. apply list_elem_of_fmap. eauto. }
  constructor.
  - rewrite Hf', <- app_assoc. simpl. rewrite <- Permutation_middle, app_assoc, <- Hf. simpl.
    by constructor.
  - rewrite Hf'. intros pn Hpn. assert (pn = (o_price o, mkNode (next_addr b) o) \/ pn ∈ flat (own_levels t b))
      as [->|Hin] by (rewrite Hf; set_solver).
    + unfold node_id at 1. simpl. rewrite lookup_insert_eq. by destruct t.
    + rewrite lookup_insert_ne; [auto|]. apply not_eq_sym, Hne. set_solver.
  - intros pn Hpn. rewrite lookup_insert_ne; [auto|]. apply not_eq_sym, Hne. set_solver.
Qed.

Lemma submit_internal_exact o res b env b' res' env' :
  book_exact b -> rem_ok o -> o_order_id o ∉ resting_ids b ->
  submitOrderInternal o res b env = Ok (b', res', env') ->
  book_exact b'.
Proof.
  intros Hx Ho Hnew He1. pose proof (ex_ok _ Hx) as Hb.
  destruct (submit_internal_ok o res b env Hb Ho) as (b2 & res2 & env2 & He2 & Hb2).
  rewrite He1 in He2. injection He2 as <- _ _.
  destruct (submit_unfold o res b env Hb Ho)
    as (opp' & r' & gone & left & He & Hsw & Hc & Hb' & Hf & Hn & Hix & Hunc).
  set (t := taker_of (o_side o)) in *. rewrite He in He1. injection He1 as He1.
  apply (book_exact_sided t) in Hx as [_ Hx].
  pose proof (sided_exact_match _ _ _ _ _ _ _ Hx Hf Hn) as Hx'. rewrite <- Hix in Hx'.
  apply (book_exact_sided t). split; [done|]. clear Hb2.
  set (bm := matched_book t opp' (r_index r') b) in *.
  assert (Hxm : sided_exact t (own_levels t bm) (opp_levels t bm) (order_index_ bm)).
  { unfold bm, matched_book. autorewrite with exchange. done. }
  destruct (Sweeps_incoming _ _ _ _ _ _ Hsw) as [_ Hinc]; [unfold rem_ok, inc_rem in *; simpl; lia|].
  assert (Hid : o_order_id (r_incoming r') ∉ resting_ids bm).
  { rewrite Hinc. cbn [o_order_id take_from set_remaining r_incoming]. intros Hin. apply Hnew. unfold resting_ids in *.
    rewrite <- (own_opp_perm t bm) in Hin. rewrite <- (own_opp_perm t b). unfold bm, matched_book in Hin.
    autorewrite with exchange in Hin. rewrite fmap_app, (cut_nodes_ids _ _ Hn) in Hin.
    rewrite fmap_app, Hf, fmap_app. set_solver. }
  unfold finish_order in He1.
  assert (b' = bm \/ b' = rest_order t (r_incoming r') bm) as [->| ->]; [|done|].
  { destruct (0 <? _)%Z; [|left; congruence]. destruct (is_limit _).
    - right. destruct (_ =? _)%Z; simpl in He1; congruence.
    - simpl in He1. left. congruence. }
  by apply sided_exact_rest.
Qed.

(** ** Finding the order with an id *)

Lemma exact_lookup_None b id :
  book_exact b -> order_index_ b !! id = None -> id ∉ resting_ids b.
Proof.
  intros [_ _ Hb Ha] He Hin. apply list_elem_of_fmap in Hin as (pn & -> & Hpn).
  apply elem_of_app in Hpn as [Hpn|Hpn]; [rewrite Hb in He|rewrite Ha in He]; done.
Qed.

Lemma resting_ids_ords b : resting_ids b = o_order_id <$> (sb_bids (abs b) ++ sb_asks (abs b)).
Proof. unfold resting_ids, book_nodes, abs, ords. simpl. by rewrite <- fmap_app, <- list_fmap_compose. Qed.

Lemma spec_find_None id sb :
  id ∉ o_order_id <$> (sb_bids sb ++ sb_asks sb) -> spec_find id sb = None.
Proof.
  intros Hn. unfold spec_find. destruct (list_find _ _) as [[i o]|] eqn:E; [|done].
  apply list_find_Some in E as (Hl & Ho & _). destruct Hn. apply list_elem_of_fmap.
  exists o. split; [done|]. eapply list_elem_of_lookup. eauto.
Qed.

Lemma spec_find_Some o sb :
  NoDup (o_order_id <$> (sb_bids sb ++ sb_asks sb)) -> o ∈ sb_bids sb ++ sb_asks sb ->
  spec_find (o_order_id o) sb = Some o.
Proof.
  intros Hnd Hin. unfold spec_find.
  destruct (list_find _ _) as [[i o']|] eqn:E.
  - apply list_find_Some in E as (Hl & Ho & _). simpl. f_equal.
    apply list_elem_of_lookup in Hin as [j Hj].
    assert (i = j) as ->; [|congruence].
    eapply (NoDup_lookup _ _ _ (o_order_id o)); [exact Hnd| |]; rewrite list_lookup_fmap;
      [rewrite Hl|rewrite Hj]; simpl; congruence.
  - apply list_find_None in E. rewrite Forall_forall in E. by destruct (E _ Hin).
Qed.

(** ** Removing the order with an id *)

Lemma remove_id_fresh id l : id ∉ o_order_id <$> l -> remove_id id l = l.
Proof.
  unfold remove_id. induction l as [|o l IH]; [done|]. csimpl. intros Hn.
  rewrite filter_cons_True by set_solver. f_equal. apply IH. set_solver.
Qed.

Lemma remove_id_mid o l1 l2 :
  NoDup (o_order_id <$> (l1 ++ o :: l2)) -> remove_id (o_order_id o) (l1 ++ o :: l2) = l1 ++ l2.
Proof.
  rewrite fmap_app. csimpl. intros (H1 & H2 & [H3 _]%NoDup_cons)%NoDup_app.
  unfold remove_id. rewrite filter_app, filter_cons_False by naive_solver.
  f_equal; apply remove_id_fresh; [|done]. intros Hin. apply (H2 _ Hin). set_solver.
Qed.

(** What unlinking the order of an index entry does to the abstract book. *)
Lemma unlink_spec b id e n own' l1 l2 :
  let t := entry_taker e in
  book_exact b -> order_index_ b !! id = Some e -> o_order_id (n_order n) = id ->
  resting_ok (own_buy t) (price_level e, n) ->
  flat (own_levels t b) = l1 ++ (price_level e, n) :: l2 -> flat own' = l1 ++ l2 ->
  book_ok (set_index (delete id (order_index_ b)) (set_sides t own' (opp_levels t b) b)) ->
  let b' := set_index (delete id (order_index_ b)) (set_sides t own' (opp_levels t b) b) in
  abs b' = spec_remove id (abs b) /\ spec_find id (abs b) = Some (n_order n) /\
  book_exact b' /\ id ∉ resting_ids b' /\ e = entry_of (own_buy t) (price_level e, n).
Proof.
  intros t Hx He Hid Hr Hf Hf' Hb' b'. pose proof Hx as Hx0.
  apply (book_exact_sided t) in Hx as [Hb [H1 H2 H3]].
  assert (Hin : (price_level e, n) ∈ flat (own_levels t b)) by (rewrite Hf; set_solver).
  assert (Hids : NoDup (o_order_id <$> (ords (flat (own_levels t b)) ++ ords (flat (opp_levels t b))))).
  { unfold ords. by rewrite <- fmap_app, <- list_fmap_compose. }
  assert (Hnotin : id ∉ node_id <$> ((l1 ++ l2) ++ flat (opp_levels t b))).
  { rewrite Hf, <- app_assoc in H1. simpl in H1. rewrite <- Permutation_middle in H1.
    simpl in H1. apply NoDup_cons in H1 as [H1 _]. unfold node_id at 1 in H1. simpl in H1.
    by rewrite Hid, app_assoc in H1. }
  split_and!.
  - unfold b'. rewrite (abs_sides t). autorewrite with exchange. rewrite Hf'.
    rewrite fmap_app in Hids.
    assert (remove_id id (ords (flat (own_levels t b))) = ords (l1 ++ l2)) as <-.
    { rewrite Hf, <- Hid, !ords_app. cbn. apply remove_id_mid.
      apply NoDup_app in Hids as (Hids & _ & _). rewrite Hf, ords_app in Hids. exact Hids. }
    assert (remove_id id (ords (flat (opp_levels t b))) = ords (flat (opp_levels t b))) as <-.
    { apply remove_id_fresh. intros Hc. apply Hnotin. rewrite fmap_app, elem_of_app. right.
      unfold ords in Hc. by rewrite <- list_fmap_compose in Hc. }
    unfold spec_remove. rewrite (abs_sides t). by destruct t.
  - rewrite <- Hid. apply spec_find_Some.
    + rewrite <- resting_ids_ords. apply Hx0.
    + assert (n_order n ∈ ords (book_nodes b)) as Hn.
      { apply list_elem_of_fmap. exists (price_level e, n). split; [done|].
        rewrite <- (own_opp_perm t). set_solver. }
      unfold book_nodes in Hn. by rewrite ords_app in Hn.
  - apply (book_exact_sided t). split; [done|]. unfold b'. autorewrite with exchange.
    cbn [set_index order_index_]. constructor.
    + rewrite Hf'. rewrite Hf, <- app_assoc in H1. simpl in H1. rewrite <- Permutation_middle in H1.
      simpl in H1. apply NoDup_cons in H1 as [_ H1]. by rewrite app_assoc in H1.
    + rewrite Hf'. intros pn Hpn. rewrite lookup_delete_ne.
      * apply H2. rewrite Hf. set_solver.
      * intros ->. apply Hnotin. apply list_elem_of_fmap. exists pn. set_solver.
    + intros pn Hpn. rewrite lookup_delete_ne; [by apply H3|].
      intros ->. apply Hnotin. apply list_elem_of_fmap. exists pn. set_solver.
  - unfold b', resting_ids. rewrite <- (own_opp_perm t). autorewrite with exchange. by rewrite Hf'.
  - specialize (H2 _ Hin). unfold node_id in H2. simpl in H2. rewrite Hid, He in H2. congruence.
Qed.
