(* ===== verification/BookOps.v ===== *)
(** * Sequences of operations on one book

    What the operations of [OrderBook] guarantee over any history: the runs
    used by the safety theorems, the totals of the conservation theorem, and
    the lemmas that carry both from the specification to the code. *)

From stdpp Require Import base list gmap strings.
From Stdlib Require Import ZArith Lia.
From S2P Require Import Prelude StdMap Types MatchingEngine OrderIndex OrderBook Matching BookInv BookSpec BookExact.
Local Open Scope exchange_scope.

(** ** Definitions *)

Inductive book_op : Type :=
  | OpSubmit (o : Order)
  | OpCancel (id : OrderID)
  | OpModify (req : ModifyRequest).

(** One operation, as a worker issues it: a fresh [MatchResult] each time. *)
Definition apply_op {L : Type} (op : book_op) (log_func : option (L -> L))
    (b : OrderBook) (env : Env) (l : L) : outcome (OrderBook * MatchResult * Env * L) :=
  match op with
  | OpSubmit o => submitOrder o log_func b env l
  | OpCancel id =>
      let* (_, b, res, env, l) := cancelOrder id empty_result log_func b env l in
      Ok (b, res, env, l)
  | OpModify req =>
      let* (_, b, res, env, l) := modifyOrder req empty_result log_func b env l in
      Ok (b, res, env, l)
  end.

Fixpoint apply_ops (ops : list book_op) (b : OrderBook) (env : Env)
    : outcome (OrderBook * list MatchResult * Env) :=
  match ops with
  | [] => Ok (b, [], env)
  | op :: ops =>
      let* (b, res, env, _) := apply_op op (None : option (unit -> unit)) b env tt in
      let* (b, ress, env) := apply_ops ops b env in
      Ok (b, res :: ress, env)
  end.

(** The quantities of the operation fit the 32 bits of [Quantity]. *)
Definition op_ok (op : book_op) : Prop :=
  match op with
  | OpSubmit o => rem_ok o
  | OpCancel _ => True
  | OpModify req => is_u32 (m_quantity req)
  end.

(** No submitted id is one of [seen] or submitted twice. *)
Fixpoint ops_fresh (seen : list OrderID) (ops : list book_op) : Prop :=
  match ops with
  | [] => True
  | OpSubmit o :: ops => o_order_id o ∉ seen /\ ops_fresh (o_order_id o :: seen) ops
  | _ :: ops => ops_fresh seen ops
  end.

(** The id of the resting order of a fill. *)
Definition resting_id (t : taker) (f : Fill) : OrderID :=
  match t with TakeAsks => f_sell_order_id f | TakeBids => f_buy_order_id f end.

Definition taker_id (t : taker) (f : Fill) : OrderID :=
  match t with TakeAsks => f_buy_order_id f | TakeBids => f_sell_order_id f end.

Definition total (l : list Order) : Z := sum_by rem l.

(** ** Submitting *)

Section Submit.
Context {L : Type} (log_func : option (L -> L)) (l : L).

Lemma submit_spec o b env :
  book_ok b -> rem_ok o -> env_ok env ->
  exists b' res env', submitOrder o log_func b env l = Ok (b', res, env', run_log log_func l) /\
    book_ok b' /\ symbol_ b' = symbol_ b /\
    spec_submit (symbol_ b) o (abs b) env
      = (abs b', mr_fills res, mr_execution_reports res, env').
Proof.
  intros Hb Ho He.
  destruct (submit_internal_spec o empty_result b env Hb Ho He) as (b' & res & env' & Hs & Hb' & Hsp).
  exists b', res, env'. unfold submitOrder. rewrite Hs. split_and!; [done..| |].
  - destruct (submit_unfold o empty_result b env Hb Ho) as (opp & r & g & lf & Hu & _).
    rewrite Hs in Hu. injection Hu as Hu. unfold finish_order in Hu.
    assert (forall b2, symbol_ b2 = symbol_ (matched_book (taker_of (o_side o)) opp (r_index r) b) ->
              symbol_ b2 = symbol_ b) as Hm.
    { intros b2 ->. unfold matched_book. simpl. by rewrite symbol_set_sides. }
    apply Hm. clear Hm. destruct (0 <? _)%Z; [|congruence]. destruct (is_limit _).
    + destruct (_ =? _)%Z; simpl in Hu; injection Hu as -> _ _; simpl; by rewrite symbol_set_sides.
    + simpl in Hu. by injection Hu as -> _ _.
  - destruct (spec_submit (symbol_ b) o (abs b) env) as [[[sb fs] ers] env2].
    destruct Hsp as (<- & -> & <-). done.
Qed.

Lemma submit_exact o b env b' res env' l' :
  book_exact b -> rem_ok o -> o_order_id o ∉ resting_ids b ->
  submitOrder o log_func b env l = Ok (b', res, env', l') -> book_exact b'.
Proof.
  intros Hx Ho Hid Hs. unfold submitOrder in Hs. apply obind_ok in Hs as ([[b2 r2] e2] & Hs & [=]).
  subst. by eapply submit_internal_exact.
Qed.

(** ** Cancelling *)

Lemma cancel_spec id res b env :
  book_exact b ->
  exists found b' res' env' ers,
    cancelOrder id res log_func b env l = Ok (found, b', res', env', run_log log_func l) /\
    spec_cancel (symbol_ b) id (abs b) env = (found, abs b', ers, env') /\
    extends res res' [] ers /\ book_exact b' /\ symbol_ b' = symbol_ b.
Proof.
  intros Hx. pose proof (cancel_unfold log_func l id res b env (ex_ok _ Hx)) as Hc.
  destruct (order_index_ b !! id) as [e|] eqn:He.
  - destruct Hc as (n & own' & l1 & l2 & Hc & Hid & Hr & Hf & Hf' & Hb').
    destruct (unlink_spec b id e n own' l1 l2 Hx He Hid Hr Hf Hf' Hb') as (Ha & Hfi & Hx' & _ & Hee).
    eexists true, _, _, _, _. split; [exact Hc|]. unfold spec_cancel. rewrite Hfi, Ha.
    split_and!; [done| |done|simpl; by rewrite symbol_set_sides].
    unfold extends, push_report. rewrite app_nil_r. f_equal. f_equal. f_equal.
    unfold cancel_report, spec_cancel_report. destruct Hr as (Hp & Hs & _). simpl in Hp, Hs.
    apply (f_equal side) in Hee. cbn [entry_of side] in Hee. by rewrite Hid, Hs, Hp, Hee.
  - exists false, b, res, env, []. split_and!; try done.
    + unfold spec_cancel. rewrite spec_find_None; [done|]. rewrite <- resting_ids_ords.
      by apply exact_lookup_None.
    + unfold extends. rewrite !app_nil_r. by destruct res.
Qed.

(** ** Modifying *)

Lemma modify_spec req res b env :
  book_exact b -> is_u32 (m_quantity req) -> env_ok env ->
  exists found b' res' env' fs ers,
    modifyOrder req res log_func b env l = Ok (found, b', res', env', run_log log_func l) /\
    spec_modify (symbol_ b) req (abs b) env = (found, abs b', fs, ers, env') /\
    extends res res' fs ers /\ book_exact b'.
Proof.
  intros Hx Hq Henv. pose proof (modify_unfold log_func l req res b env (ex_ok _ Hx)) as Hm.
  destruct (order_index_ b !! m_order_id req) as [e|] eqn:He.
  - destruct Hm as (n & own' & l1 & l2 & Hm & Hid & Hr & Hf & Hf' & Hb').
    destruct (unlink_spec b _ e n own' l1 l2 Hx He Hid Hr Hf Hf' Hb') as (Ha & Hfi & Hx' & Hnew & _).
    set (b1 := set_index _ _) in *.
    assert (rem_ok (modified_order (n_order n) req)) as Hrem by done.
    destruct (submit_internal_spec _ res b1 env Hb' Hrem Henv) as (b' & res' & env' & Hs & _ & Hsp).
    rewrite Hs in Hm. exists true, b', res', env'.
    assert (symbol_ b1 = symbol_ b) as Hsym by (unfold b1; simpl; by rewrite symbol_set_sides).
    rewrite Hsym, Ha in Hsp. unfold spec_modify. rewrite Hfi.
    destruct (spec_submit _ _ _ _) as [[[sb fs] ers] env2]. destruct Hsp as (<- & Hext & <-).
    exists fs, ers. split_and!; try done.
    eapply submit_internal_exact; [exact Hx'|done| |exact Hs]. simpl. by rewrite Hid.
  - exists false, b, res, env, [], []. split_and!; try done.
    + unfold spec_modify. rewrite spec_find_None; [done|]. rewrite <- resting_ids_ords.
      by apply exact_lookup_None.
    + unfold extends. rewrite !app_nil_r. by destruct res.
Qed.
End Submit.

(** ** Any history *)

Lemma apply_op_ok {L} (log_func : option (L -> L)) op b env l :
  book_ok b -> op_ok op ->
  exists b' res env', apply_op op log_func b env l = Ok (b', res, env', run_log log_func l) /\
    book_ok b'.
Proof.
  intros Hb Hop. destruct op as [o|id|req]; simpl.
  - destruct (submit_internal_ok o empty_result b env Hb Hop) as (b' & res & env' & Hs & Hb').
    exists b', res, env'. unfold submitOrder. by rewrite Hs.
  - pose proof (cancel_unfold log_func l id empty_result b env Hb) as Hc.
    destruct (order_index_ b !! id) as [e|].
    + destruct Hc as (n & own' & l1 & l2 & -> & _ & _ & _ & _ & Hb'). simpl. eauto.
    + rewrite Hc. simpl. eauto.
  - pose proof (modify_unfold log_func l req empty_result b env Hb) as Hm.
    destruct (order_index_ b !! m_order_id req) as [e|].
    + destruct Hm as (n & own' & l1 & l2 & -> & _ & _ & _ & _ & Hb').
      destruct (submit_internal_ok (modified_order (n_order n) req) empty_result _ env Hb' Hop)
        as (b' & res & env' & -> & Hb2). simpl. eauto.
    + rewrite Hm. simpl. eauto.
Qed.

Lemma apply_ops_ok ops b env :
  book_ok b -> Forall op_ok ops ->
  exists b' ress env', apply_ops ops b env = Ok (b', ress, env') /\ book_ok b'.
Proof.
  intros Hb Hops. revert b env Hb. induction Hops as [|op ops Hop Hops IH]; intros b env Hb; simpl.
  { eauto. }
  destruct (apply_op_ok None op b env tt Hb Hop) as (b1 & res & env1 & -> & Hb1). simpl.
  destruct (IH b1 env1 Hb1) as (b2 & ress & env2 & -> & Hb2). simpl. eauto.
Qed.

(** ** Which ids can rest after an operation *)

Lemma settle_ids q l : o_order_id <$> settle q l ⊆ o_order_id <$> l.
Proof.
  revert q. induction l as [|o l IH]; intros q; simpl; [done|].
  case_Z; csimpl; set_solver.
Qed.

Lemma insert_order_ids c o l x :
  x ∈ o_order_id <$> insert_order c o l <-> x = o_order_id o \/ x ∈ o_order_id <$> l.
Proof.
  induction l as [|y l IH]; csimpl; [set_solver|].
  destruct (before c (o_price o) (o_price y)); csimpl; set_solver.
Qed.

Lemma opp_after_ids t o opp : o_order_id <$> opp_after t o opp ⊆ o_order_id <$> opp.
Proof.
  unfold opp_after. rewrite <- (take_drop_while (accepts t o) opp) at 3.
  rewrite !fmap_app. pose proof (settle_ids (rem o) (take_while (accepts t o) opp)). set_solver.
Qed.

Definition spec_ids (sb : SpecBook) : list OrderID := o_order_id <$> (sb_bids sb ++ sb_asks sb).

Lemma spec_ids_sides t sb x :
  x ∈ spec_ids sb <-> x ∈ o_order_id <$> own_orders t sb \/ x ∈ o_order_id <$> opp_orders t sb.
Proof. unfold spec_ids. rewrite fmap_app. destruct t; set_solver. Qed.

Lemma spec_submit_ids sym o sb env :
  spec_ids (spec_submit sym o sb env).1.1.1 ⊆ o_order_id o :: spec_ids sb.
Proof.
  unfold spec_submit. set (t := taker_of (o_side o)).
  destruct (spec_tail _ _) as [ers env']. cbn [fst]. intros x Hx.
  apply (spec_ids_sides t) in Hx. rewrite elem_of_cons, (spec_ids_sides t).
  assert (forall own opp, own_orders t (spec_sides t own opp) = own /\
            opp_orders t (spec_sides t own opp) = opp) as Hso by by destruct t.
  destruct (Hso (if (0 <? rem (set_remaining (left_after t o (opp_orders t sb)) o))%Z &&
                    is_limit (o_type (set_remaining (left_after t o (opp_orders t sb)) o))
                 then insert_order (own_cmp t) (set_remaining (left_after t o (opp_orders t sb)) o)
                        (own_orders t sb)
                 else own_orders t sb) (opp_after t o (opp_orders t sb))) as [Ho Hp].
  rewrite Ho, Hp in Hx. destruct Hx as [Hx|Hx].
  - destruct (_ && _); [|tauto]. apply insert_order_ids in Hx as [->|Hx]; [by left|tauto].
  - right; right. by apply opp_after_ids in Hx.
Qed.

Lemma remove_ids id l x : x ∈ o_order_id <$> remove_id id l <-> x <> id /\ x ∈ o_order_id <$> l.
Proof.
  unfold remove_id. rewrite !list_elem_of_fmap. split.
  - intros (o & -> & Ho). apply list_elem_of_filter in Ho as [? ?]. eauto.
  - intros [Hne (o & -> & Ho)]. exists o. split; [done|]. by apply list_elem_of_filter.
Qed.

Lemma spec_remove_ids id sb x : x ∈ spec_ids (spec_remove id sb) <-> x <> id /\ x ∈ spec_ids sb.
Proof. unfold spec_ids, spec_remove. simpl. rewrite !fmap_app, !elem_of_app, !remove_ids. tauto. Qed.

Lemma spec_find_id id sb o : spec_find id sb = Some o -> o_order_id o = id /\ id ∈ spec_ids sb.
Proof.
  unfold spec_find. destruct (list_find _ _) as [[i o']|] eqn:E; simpl; [|done].
  intros [= ->]. apply list_find_Some in E as (Hl & Ho & _). split; [done|].
  apply list_elem_of_fmap. exists o. split; [done|]. eapply list_elem_of_lookup. eauto.
Qed.

Lemma spec_tail_env_ok o e : env_ok e -> env_ok (spec_tail o e).2.
Proof. intros He. unfold spec_tail. simpl. repeat case_match; done. Qed.

Lemma spec_submit_env_ok sym o sb env : env_ok (spec_submit sym o sb env).2.
Proof.
  unfold spec_submit. destruct (spec_tail _ _) as [ers e] eqn:E.
  change (env_ok (ers, e).2). rewrite <- E. apply spec_tail_env_ok, advance_ok.
Qed.

(** One operation keeps the index exact and adds at most its own id. *)
Lemma apply_op_exact {L} (log_func : option (L -> L)) op b env l b' res env' l' seen :
  book_exact b -> op_ok op -> env_ok env -> resting_ids b ⊆ seen -> ops_fresh seen [op] ->
  apply_op op log_func b env l = Ok (b', res, env', l') ->
  book_exact b' /\ env_ok env' /\
  resting_ids b' ⊆ match op with OpSubmit o => o_order_id o :: seen | _ => seen end.
Proof.
  intros Hx Hop Henv Hseen Hfr Ha.
  destruct op as [o|id|req]; simpl in Ha.
  - destruct (submit_spec log_func l o b env (ex_ok _ Hx) Hop Henv)
      as (b2 & res2 & env2 & Hs & _ & _ & Hsp).
    rewrite Ha in Hs. injection Hs as -> -> -> ->. simpl in Hfr. destruct Hfr as [Hfr _].
    split_and!.
    + eapply submit_exact; [exact Hx|done| |exact Ha]. set_solver.
    + pose proof (spec_submit_env_ok (symbol_ b) o (abs b) env) as He. by rewrite Hsp in He.
    + rewrite resting_ids_ords. pose proof (spec_submit_ids (symbol_ b) o (abs b) env) as Hi.
      rewrite Hsp in Hi. cbn [fst] in Hi. etrans; [exact Hi|]. unfold spec_ids.
      rewrite <- resting_ids_ords. set_solver.
  - destruct (cancel_spec log_func l id empty_result b env Hx)
      as (f & b2 & res2 & env2 & ers & Hc & Hsp & _ & Hx2 & _).
    rewrite Hc in Ha. simpl in Ha. injection Ha as -> -> -> _. split_and!; [done| |].
    + unfold spec_cancel in Hsp. destruct (spec_find _ _); simpl in Hsp; injection Hsp; intros; subst; exact Henv.
    + rewrite resting_ids_ords. unfold spec_cancel in Hsp.
      destruct (spec_find id (abs b)); pose proof (f_equal (fun x => x.1.1.2) Hsp) as Hab;
        cbn in Hab; rewrite <- Hab.
      * intros x Hin. apply spec_remove_ids in Hin as [_ Hin]. unfold spec_ids in Hin.
        rewrite <- resting_ids_ords in Hin. auto.
      * by rewrite <- resting_ids_ords.
  - destruct (modify_spec log_func l req empty_result b env Hx Hop Henv)
      as (f & b2 & res2 & env2 & fs & ers & Hm & Hsp & _ & Hx2).
    rewrite Hm in Ha. simpl in Ha. injection Ha as -> -> -> _. split_and!; [done| |];
    unfold spec_modify in Hsp; destruct (spec_find (m_order_id req) (abs b)) as [o|] eqn:Hf;
      cbn [fst snd].
    + pose proof (spec_submit_env_ok (symbol_ b) (modified_order o req)
        (spec_remove (m_order_id req) (abs b)) env) as He.
      destruct (spec_submit _ _ _ _) as [[[sb2 fs2] ers2] e2].
      pose proof (f_equal snd Hsp) as Hee. cbn in Hee. by rewrite <- Hee.
    + pose proof (f_equal snd Hsp) as Hee. cbn in Hee. by rewrite <- Hee.
    + pose proof (spec_submit_ids (symbol_ b) (modified_order o req)
        (spec_remove (m_order_id req) (abs b)) env) as Hi.
      destruct (spec_submit _ _ _ _) as [[[sb2 fs2] ers2] e2].
      pose proof (f_equal (fun x => x.1.1.1.2) Hsp) as Hab. cbn in Hab.
      cbn [fst modified_order o_order_id] in Hi. apply spec_find_id in Hf as [Hid Hin].
      rewrite resting_ids_ords, <- Hab. intros x [->|Hx']%Hi%elem_of_cons.
      * apply Hseen. rewrite resting_ids_ords. by rewrite Hid.
      * apply spec_remove_ids in Hx' as [_ Hx']. apply Hseen. by rewrite resting_ids_ords.
    + pose proof (f_equal (fun x => x.1.1.1.2) Hsp) as Hab. cbn in Hab.
      by rewrite resting_ids_ords, <- Hab, <- resting_ids_ords.
Qed.

Lemma apply_ops_exact ops b env b' ress env' seen :
  book_exact b -> Forall op_ok ops -> env_ok env -> resting_ids b ⊆ seen -> ops_fresh seen ops ->
  apply_ops ops b env = Ok (b', ress, env') -> book_exact b'.
Proof.
  intros Hx Hops. revert b env ress env' seen Hx.
  induction Hops as [|op ops Hop Hops IH]; intros b env ress env' seen Hx Henv Hseen Hfr Ha; simpl in Ha.
  { by injection Ha as <- _ _. }
  apply obind_ok in Ha as ([[[b1 res] env1] u] & H1 & Ha).
  apply obind_ok in Ha as ([[b2 ress2] env2] & H2 & Ha). injection Ha as <- _ _.
  assert (ops_fresh seen [op]) as Hf1 by (destruct op; simpl in *; tauto).
  destruct (apply_op_exact None op b env tt b1 res env1 u seen Hx Hop Henv Hseen Hf1 H1)
    as (Hx1 & Henv1 & Hs1).
  eapply IH; [exact Hx1|exact Henv1|exact Hs1| |exact H2].
  destruct op; simpl in *; tauto.
Qed.
