(* ===== verification/BookTheorems.v ===== *)
(** * Correctness of the order book

    The properties of [engine/order_book.cpp], [engine/order_index.hpp] and
    [engine/matching_engine.cpp], each with a witness on a concrete book. *)

From stdpp Require Import base list gmap strings sorting.
From Stdlib Require Import ZArith Lia.
From S2P Require Import Prelude StdMap Types MatchingEngine OrderIndex OrderBook Matching BookInv BookSpec BookExact BookOps.
Local Open Scope exchange_scope.

(** ** Definitions *)

(** A concrete book: three asks at two prices and two bids. *)
Definition w_env : Env := mkEnv 1 (fun i => 1000 + Z.of_nat i)%Z 0.

Definition w_order (id : Z) (s : Side) (ty : OrderType) (px qty ts : Z) : Order :=
  mkOrder id "AAPL" s ty px qty qty ts 7.

Definition w_ops : list book_op :=
  [OpSubmit (w_order 1 Sell Limit 101 30 1); OpSubmit (w_order 2 Sell Limit 100 50 2);
   OpSubmit (w_order 3 Sell Limit 100 20 3); OpSubmit (w_order 4 Buy Limit 99 40 4);
   OpSubmit (w_order 5 Buy Limit 98 10 5)].

Definition w_book : OrderBook :=
  match apply_ops w_ops (new_book "AAPL") w_env with
  | Ok (b, _, _) => b
  | Fault _ => new_book "AAPL"
  end.

(** Priority order: no order is before one of a strictly better price. *)
Fixpoint priority_sorted (c : cmp) (l : list Order) : Prop :=
  match l with
  | [] => True
  | o :: l' => Forall (fun x => before c (o_price x) (o_price o) = false) l' /\ priority_sorted c l'
  end.

(** How matching consumes the other side: orders filled completely, then at
    most one reduced by a quantity below what it has, then the others untouched. *)
Definition consumed (t : taker) (opp opp' : list Order) (fs : list Fill) : Prop :=
  exists full part rest qs,
    opp = full ++ part ++ rest /\ (length part <= 1)%nat /\
    resting_id t <$> fs = o_order_id <$> (full ++ part) /\
    f_quantity <$> fs = (rem <$> full) ++ qs /\
    Forall2 (fun q x => 0 < q < rem x)%Z qs part /\
    opp' = zip_with take_from qs part ++ rest.

(** ** The specification book *)

Lemma alloc_consumes q l :
  Forall (fun x => 0 < rem x)%Z l -> (0 <= q)%Z ->
  exists full part rest qs,
    l = full ++ part ++ rest /\ (length part <= 1)%nat /\
    al_resting <$> alloc q l = full ++ part /\
    al_qty <$> alloc q l = (rem <$> full) ++ qs /\
    Forall2 (fun q x => 0 < q < rem x)%Z qs part /\
    settle q l = zip_with take_from qs part ++ rest.
Proof.
  intros Hl. revert q. induction Hl as [|x l Hx Hl IH]; intros q Hq.
  { exists [], [], [], []. split_and!; try done; simpl; lia. }
  cbn [alloc settle]. case_Z.
  - exists [], [], (x :: l), []. split_and!; try done. simpl. lia.
  - destruct (IH (q - rem x)%Z) as (full & part & rest & qs & -> & H1 & H2 & H3 & H4 & H5); [lia|].
    rewrite Z.min_r by lia. exists (x :: full), part, rest, qs. csimpl.
    split_and!; try done; by rewrite ?H2, ?H3.
  - rewrite Z.min_l by lia. rewrite Z.sub_diag, alloc_0 by lia.
    exists [], [x], l, [q]. split_and!; try done. repeat constructor; lia.
Qed.

Lemma alloc_total q l :
  Forall (fun x => 0 < rem x)%Z l -> (0 <= q)%Z ->
  (sum_by al_qty (alloc q l) + total (settle q l) = total l /\
   0 <= sum_by al_qty (alloc q l) <= q)%Z.
Proof.
  unfold total. intros Hl. revert q. induction Hl as [|x l Hx Hl IH]; intros q Hq; simpl; [lia|].
  case_Z; simpl; [lia| |].
  - rewrite Z.min_r by lia. destruct (IH (q - rem x)%Z); lia.
  - rewrite Z.min_l by lia. rewrite Z.sub_diag, alloc_0 by lia. simpl.
    unfold take_from, rem. simpl. lia.
Qed.

Lemma total_app l1 l2 : total (l1 ++ l2) = (total l1 + total l2)%Z.
Proof. apply sum_by_app. Qed.

Lemma total_insert c o l : total (insert_order c o l) = (rem o + total l)%Z.
Proof.
  unfold total. induction l as [|x l IH]; cbn [insert_order sum_by]; [done|].
  destruct (before c (o_price o) (o_price x)); cbn [sum_by]; lia.
Qed.

Lemma spec_fills_resting t sym o env tr :
  resting_id t <$> imap (spec_fill t sym o env) tr = o_order_id <$> (al_resting <$> tr).
Proof.
  rewrite fmap_imap, <- list_fmap_compose, <- imap_const. apply imap_ext_all. intros. by destruct t.
Qed.

Lemma spec_fills_qty t sym o env tr :
  f_quantity <$> imap (spec_fill t sym o env) tr = al_qty <$> tr.
Proof. rewrite fmap_imap, <- imap_const. by apply imap_ext_all. Qed.

Lemma sum_fmap {A} (f : A -> Z) l : sum_by f l = sum_by id (f <$> l).
Proof. induction l as [|x l IH]; cbn; [done|]. by rewrite IH. Qed.

Lemma Forall_take_while {A} (P : A -> Prop) f l : Forall P l -> Forall P (take_while f l).
Proof. induction 1; simpl; [constructor|]. case_match; by constructor. Qed.

Lemma take_while_true {A} (f : A -> bool) l : Forall (fun x => f x = true) (take_while f l).
Proof. induction l as [|x l IH]; simpl; [constructor|]. destruct (f x) eqn:E; by constructor. Qed.

Lemma alloc_or_empty q l :
  Forall (fun x => 0 < rem x)%Z l -> (0 <= q)%Z ->
  sum_by al_qty (alloc q l) = q \/ settle q l = [].
Proof.
  intros Hl. revert q. induction Hl as [|x l Hx Hl IH]; intros q Hq; simpl; [by right|].
  case_Z; simpl; [left; lia| |].
  - rewrite Z.min_r by lia. destruct (IH (q - rem x)%Z); [lia|left; lia|by right].
  - rewrite Z.min_l by lia. rewrite Z.sub_diag, alloc_0 by lia. left. simpl. lia.
Qed.

Lemma drop_while_head {A} (f : A -> bool) l :
  head (drop_while f l) = None \/ exists x, head (drop_while f l) = Some x /\ f x = false.
Proof. induction l as [|x l IH]; simpl; [by left|]. destruct (f x) eqn:E; [done|]. right. by exists x. Qed.

(** ** From the book to its abstraction *)

Lemma levels_rem_pos c buy levels :
  levels_ok c buy levels -> Forall (fun x => 0 < rem x)%Z (ords (flat levels)).
Proof.
  intros [_ _ Hr]. apply Forall_ords. eapply Forall_impl; [exact Hr|].
  intros pn (_ & _ & _ & Hl). unfold live, node_rem in Hl. lia.
Qed.

Lemma book_opp_pos t b : book_ok b -> Forall (fun x => 0 < rem x)%Z (opp_orders t (abs b)).
Proof.
  intros Hb. rewrite opp_abs. eapply levels_rem_pos, (sd_opp _ _ _ _ _ (proj1 (book_sided t b) Hb)).
Qed.

Lemma priority_sorted_app c l1 l2 :
  priority_sorted c l1 -> priority_sorted c l2 ->
  (forall x y, x ∈ l1 -> y ∈ l2 -> before c (o_price y) (o_price x) = false) ->
  priority_sorted c (l1 ++ l2).
Proof.
  induction l1 as [|x l1 IH]; simpl; [done|]. intros [Hx H1] H2 H. split.
  - apply Forall_app. split; [done|]. apply Forall_forall. intros y Hy. apply H; [left|done].
  - apply IH; try done. intros a y Ha Hy. apply H; [by right|done].
Qed.

Lemma same_price_sorted c p l : Forall (fun x => o_price x = p) l -> priority_sorted c l.
Proof.
  induction 1 as [|x l Hx Hl IH]; simpl; [done|]. split; [|done].
  eapply Forall_impl; [exact Hl|]. intros y Hy. simpl in *. rewrite Hx, Hy. apply before_irrefl.
Qed.

Lemma levels_priority c buy levels : levels_ok c buy levels -> priority_sorted c (ords (flat levels)).
Proof.
  intros [Hs _ Hr]. induction levels as [|[p q] levels IH]; [done|].
  cbn [flat] in *. apply Forall_app in Hr as [Hq Hr]. destruct Hs as [Hall Hs].
  rewrite ords_app. apply priority_sorted_app.
  - apply (same_price_sorted c p), Forall_ords, Forall_forall. intros pn Hpn.
    rewrite Forall_forall in Hq. destruct (Hq _ Hpn) as (-> & _). by apply elem_tag in Hpn as [-> _].
  - apply IH; done.
  - intros x y Hx Hy. apply list_elem_of_fmap in Hx as (pn & -> & Hx), Hy as (pn' & -> & Hy).
    rewrite Forall_forall in Hq. rewrite Forall_forall in Hr. rewrite Forall_forall in Hall.
    destruct (Hq _ Hx) as (-> & _), (Hr _ Hy) as (-> & _).
    apply elem_tag in Hx as [-> _]. apply flat_keys in Hy. apply before_asym, Hall, Hy.
Qed.

Lemma w_book_exact : book_exact w_book.
Proof.
  unfold w_book. destruct (apply_ops w_ops (new_book "AAPL") w_env) as [[[b ress] env]|f] eqn:E;
    [|apply new_book_exact].
  eapply (apply_ops_exact w_ops _ _ _ _ _ []); [apply new_book_exact| | |done| |exact E].
  - unfold w_ops. repeat constructor; unfold rem; simpl; lia.
  - unfold env_ok, is_u64; simpl; lia.
  - simpl. repeat split; set_solver.
Qed.

Lemma w_book_ok : book_ok w_book.
Proof. apply w_book_exact. Qed.

Lemma w_env_ok : env_ok w_env.
Proof. unfold env_ok, is_u64; simpl; lia. Qed.

Lemma alloc_elem q l a :
  Forall (fun x => 0 < rem x)%Z l -> (0 <= q)%Z -> a ∈ alloc q l ->
  al_resting a ∈ l /\ (0 < al_qty a <= rem (al_resting a))%Z.
Proof.
  intros Hl. revert q. induction Hl as [|x l Hx Hl IH]; intros q Hq; simpl; [by intros ?%not_elem_of_nil|].
  case_Z; [by intros ?%not_elem_of_nil|]. intros [->|Hin]%elem_of_cons; simpl.
  - split; [left|lia].
  - destruct (IH (q - Z.min q (rem x))%Z) as [H1 H2]; [lia|done|]. split; [by right|done].
Qed.

Lemma levels_best c buy levels : levels_ok c buy levels ->
  Forall (fun pn => match levels with
    | (p, _) :: _ => before c (o_price (n_order pn.2)) p = false | [] => False end) (flat levels).
Proof.
  intros [Hs _ Hr]. apply Forall_forall. intros pn Hpn. rewrite Forall_forall in Hr.
  destruct (Hr _ Hpn) as (-> & _).
  destruct levels as [|[p q] levels]; [by apply not_elem_of_nil in Hpn|].
  destruct Hs as [Hall _]. apply flat_keys in Hpn. apply elem_of_cons in Hpn as [->|Hpn].
  - apply before_irrefl.
  - rewrite Forall_forall in Hall. by apply before_asym, Hall.
Qed.

(** Submitting an order with nothing left changes nothing. *)
Lemma submit_nothing o res b env :
  rem o = 0%Z -> submitOrderInternal o res b env = Ok (b, res, env).
Proof.
  intros Ho. unfold submitOrderInternal. rewrite match_levels_done; [|lia|unfold inc_rem; simpl; lia].
  cbn [obind]. unfold finish_order. cbn [r_incoming]. fold (rem o). rewrite Ho. simpl.
  by destruct (taker_of (o_side o)), b.
Qed.

Lemma foldl_u32 q :
  foldl (fun acc n => u32 (acc + o_remaining_quantity (n_order n))) 0%Z q
  = u32 (sum_by (fun n => rem (n_order n)) q).
Proof.
  enough (forall a, is_u32 a -> foldl (fun acc n => u32 (acc + o_remaining_quantity (n_order n))) a q
    = u32 (a + sum_by (fun n => rem (n_order n)) q)) as H by (apply (H 0%Z); unfold is_u32; lia).
  induction q as [|n q IH]; intros a Ha; simpl.
  - by rewrite Z.add_0_r, u32_small.
  - rewrite IH by apply u32_range. unfold u32. rewrite Zplus_mod_idemp_l. f_equal. unfold rem. lia.
Qed.

(** What [submitOrder] does, read off the specification. *)
Lemma submit_view {L} (log_func : option (L -> L)) (l : L) o b env b' res env' l' :
  book_ok b -> rem_ok o -> env_ok env ->
  submitOrder o log_func b env l = Ok (b', res, env', l') ->
  let t := taker_of (o_side o) in
  let opp := opp_orders t (abs b) in
  let o' := set_remaining (left_after t o opp) o in
  book_ok b' /\ opp_orders t (abs b') = opp_after t o opp /\
  own_orders t (abs b') =
    (if (0 <? rem o')%Z && is_limit (o_type o)
     then insert_order (own_cmp t) o' (own_orders t (abs b)) else own_orders t (abs b)) /\
  mr_fills res = imap (spec_fill t (symbol_ b) o env) (allocs t o opp) /\
  env' = (spec_tail o' (advance (length (allocs t o opp)) env)).2.
Proof.
  intros Hb Ho He Hs t opp o'.
  destruct (submit_spec log_func l o b env Hb Ho He) as (b2 & r2 & e2 & Hs2 & Hb2 & _ & Hsp).
  rewrite Hs in Hs2. injection Hs2 as -> -> -> ->. unfold spec_submit in Hsp.
  fold t in Hsp. fold opp in Hsp. fold o' in Hsp. split; [done|].
  destruct (spec_tail o' _) as [tl e3] eqn:Et.
  pose proof (f_equal (fun x => x.1.1.1) Hsp) as Ha. pose proof (f_equal (fun x => x.1.1.2) Hsp) as Hf.
  pose proof (f_equal snd Hsp) as Hen. cbn [fst snd] in *. rewrite <- Ha, <- Hf, <- Hen.
  by destruct t.
Qed.

(** ** Properties *)

(** C1: [submitOrder] implements the specification.  From a well-formed book it
    completes, keeps the book well-formed, runs the log callback once before
    matching, and the new book, the fills, the execution reports, the trade-id
    counter and the clock reads are those the specification computes. *)
Theorem submitOrder_refines {L : Type} (log_func : option (L -> L)) (l : L) o b env :
  book_ok b -> rem_ok o -> env_ok env ->
  exists b' res env',
    submitOrder o log_func b env l = Ok (b', res, env', run_log log_func l) /\ book_ok b' /\
    spec_submit (symbol_ b) o (abs b) env
      = (abs b', mr_fills res, mr_execution_reports res, env').
Proof.
  intros Hb Ho He. destruct (submit_spec log_func l o b env Hb Ho He) as (b' & res & env' & ? & ? & _ & ?).
  eauto 8.
Qed.

Lemma submitOrder_refines_witness :
  exists b' res env',
    submitOrder (w_order 6 Buy Limit 100 60 6) (Some S) w_book w_env 0
      = Ok (b', res, env', run_log (Some S) 0) /\ book_ok b' /\
    spec_submit (symbol_ w_book) (w_order 6 Buy Limit 100 60 6) (abs w_book) w_env
      = (abs b', mr_fills res, mr_execution_reports res, env').
Proof.
  apply (submitOrder_refines (Some S) 0); [exact w_book_ok|unfold rem_ok, rem; simpl; lia|exact w_env_ok].
Defined.

(** C4: memory safety of the book.  Whatever operations are issued, with
    whatever ids, from an empty book: every one completes, the matching loops
    terminate, no iterator of the index is ever dangling when it is followed or
    erased, and the book stays well-formed. *)
Theorem book_operations_safe sym ops env :
  Forall op_ok ops ->
  exists b' ress env', apply_ops ops (new_book sym) env = Ok (b', ress, env') /\ book_ok b'.
Proof. intros H. apply apply_ops_ok; [apply new_book_ok|done]. Qed.

Lemma book_operations_safe_witness :
  exists b' ress env', apply_ops (w_ops ++ w_ops ++ [OpCancel 2; OpCancel 2]) (new_book "AAPL") w_env
    = Ok (b', ress, env') /\ book_ok b'.
Proof.
  apply book_operations_safe. unfold w_ops. simpl.
  repeat constructor; unfold rem; simpl; lia.
Defined.

(** When no order id is submitted twice, the index is exact after any
    history: the resting ids are distinct and every resting order, and no other
    id, is found in the index at its own position. *)
Theorem book_index_exact sym ops env b' ress env' :
  Forall op_ok ops -> ops_fresh [] ops -> env_ok env ->
  apply_ops ops (new_book sym) env = Ok (b', ress, env') ->
  book_exact b' /\ forall id, is_Some (order_index_ b' !! id) <-> id ∈ resting_ids b'.
Proof.
  intros Hops Hf He Ha.
  assert (book_exact b') as Hx by
    (eapply (apply_ops_exact ops _ _ _ _ _ []); eauto using new_book_exact; done).
  split; [done|]. intros id. split.
  - intros [e Hid]. destruct (unlink_ok b' id e (ex_ok _ Hx) Hid)
      as (n & own' & l1 & l2 & _ & <- & _ & Hfl & _). apply list_elem_of_fmap.
    exists (price_level e, n). split; [done|]. rewrite <- (own_opp_perm (entry_taker e)), Hfl. set_solver.
  - intros Hin. destruct (order_index_ b' !! id) eqn:E; [eauto|].
    by apply exact_lookup_None in E.
Qed.

(** [cancelOrder] implements the specification.  It reports whether an order
    with the id rests in the book; if so exactly that order is removed and one
    [Cancelled] report to its owner is appended. *)
Theorem cancelOrder_refines {L : Type} (log_func : option (L -> L)) (l : L) id res b env :
  book_exact b ->
  exists found b' res' env' ers,
    cancelOrder id res log_func b env l = Ok (found, b', res', env', run_log log_func l) /\
    spec_cancel (symbol_ b) id (abs b) env = (found, abs b', ers, env') /\
    extends res res' [] ers /\ book_exact b'.
Proof.
  intros Hx. destruct (cancel_spec log_func l id res b env Hx)
    as (f & b' & res' & env' & ers & ? & ? & ? & ? & _). eauto 12.
Qed.

(** [modifyOrder] implements the specification: cancel the order, then
    submit it again with the new price, quantity and time stamp, keeping its
    id, side, type, symbol and owner; an unknown id changes nothing. *)
Theorem modifyOrder_refines {L : Type} (log_func : option (L -> L)) (l : L) req res b env :
  book_exact b -> is_u32 (m_quantity req) -> env_ok env ->
  exists found b' res' env' fs ers,
    modifyOrder req res log_func b env l = Ok (found, b', res', env', run_log log_func l) /\
    spec_modify (symbol_ b) req (abs b) env = (found, abs b', fs, ers, env') /\
    extends res res' fs ers /\ book_exact b'.
Proof. apply modify_spec. Qed.

(** C13: [cancelOrder] and [modifyOrder] implement the specification.  A cancellation
    reports whether an order with the id rests in the book; it takes exactly that order
    out of the book, with its index entry and, when empty, its price level, and reports
    the cancellation to the order's owner.  A modification is a cancellation followed by a
    submission with the new price, quantity and time stamp that keeps the id, side, type,
    symbol and owner.  An unknown id changes nothing, and the log callback runs once. *)
Theorem amendments_refine {L : Type} (log_func : option (L -> L)) (l : L) res b env :
  book_exact b ->
  (forall id, exists found b' res' env' ers,
     cancelOrder id res log_func b env l = Ok (found, b', res', env', run_log log_func l) /\
     spec_cancel (symbol_ b) id (abs b) env = (found, abs b', ers, env') /\
     extends res res' [] ers /\ book_exact b') /\
  (forall req, is_u32 (m_quantity req) -> env_ok env -> exists found b' res' env' fs ers,
     modifyOrder req res log_func b env l = Ok (found, b', res', env', run_log log_func l) /\
     spec_modify (symbol_ b) req (abs b) env = (found, abs b', fs, ers, env') /\
     extends res res' fs ers /\ book_exact b').
Proof. intros Hb. split; intros; [by apply cancelOrder_refines|by apply modifyOrder_refines]. Qed.

Lemma amendments_refine_witness :
  (exists found b' res' env' ers,
    cancelOrder 2 empty_result (Some S) w_book w_env 0
      = Ok (found, b', res', env', run_log (Some S) 0) /\
    spec_cancel (symbol_ w_book) 2 (abs w_book) w_env = (found, abs b', ers, env') /\
    extends empty_result res' [] ers /\ book_exact b') /\
  exists found b' res' env' fs ers,
    modifyOrder (mkModifyRequest 4 "AAPL" 100 70 9 7) empty_result (Some S) w_book w_env 0
      = Ok (found, b', res', env', run_log (Some S) 0) /\
    spec_modify (symbol_ w_book) (mkModifyRequest 4 "AAPL" 100 70 9 7) (abs w_book) w_env
      = (found, abs b', fs, ers, env') /\
    extends empty_result res' fs ers /\ book_exact b'.
Proof.
  split; apply (amendments_refine (Some S) 0 empty_result w_book w_env w_book_exact);
    [unfold is_u32; simpl; lia|exact w_env_ok].
Defined.

(** C5: price-time priority.  The other side is kept in price order; an incoming
    order trades with a prefix of it: orders filled completely in sequence, then
    at most one partially, and everything behind is untouched.  If the incoming
    order is not filled, no resting order it would accept is left. *)
Theorem submit_price_time_priority {L : Type} (log_func : option (L -> L)) (l : L)
    o b env b' res env' l' :
  book_ok b -> rem_ok o -> env_ok env ->
  submitOrder o log_func b env l = Ok (b', res, env', l') ->
  let t := taker_of (o_side o) in
  priority_sorted (opp_cmp t) (opp_orders t (abs b)) /\
  consumed t (opp_orders t (abs b)) (opp_orders t (abs b')) (mr_fills res) /\
  (sum_by f_quantity (mr_fills res) = rem o \/
   head (opp_orders t (abs b')) = None \/
   exists x, head (opp_orders t (abs b')) = Some x /\ accepts t o x = false).
Proof.
  intros Hb Ho He Hs t.
  destruct (submit_view log_func l o b env b' res env' l' Hb Ho He Hs) as (Hb' & Hopp & _ & Hf & _).
  fold t in Hopp, Hf. rewrite Hopp, Hf. split_and!.
  - rewrite opp_abs. eapply levels_priority, (sd_opp _ _ _ _ _ (proj1 (book_sided t b) Hb)).
  - set (opp := opp_orders t (abs b)).
    assert (Forall (fun x => 0 < rem x)%Z (take_while (accepts t o) opp)) as Hpos
      by (apply Forall_take_while, book_opp_pos, Hb).
    destruct (alloc_consumes (rem o) _ Hpos) as (full & part & rest & qs & Hl & H1 & H2 & H3 & H4 & H5);
      [unfold rem_ok in Ho; lia|].
    exists full, part, (rest ++ drop_while (accepts t o) opp), qs. unfold allocs, opp_after.
    rewrite spec_fills_resting, spec_fills_qty, H2, H3, H5. split_and!; try done.
    + rewrite <- (take_drop_while (accepts t o) opp) at 1. by rewrite Hl, <- !app_assoc.
    + by rewrite <- app_assoc.
  - rewrite sum_fmap, spec_fills_qty, <- sum_fmap. unfold opp_after, allocs.
    destruct (alloc_or_empty (rem o) (take_while (accepts t o) (opp_orders t (abs b)))) as [H|H];
      [by apply Forall_take_while, book_opp_pos|unfold rem_ok in Ho; lia|by left|].
    rewrite H. right. apply drop_while_head.
Qed.

Lemma submit_price_time_priority_witness :
  exists b' res env' l',
    submitOrder (w_order 6 Buy Limit 100 60 6) (Some S) w_book w_env 0 = Ok (b', res, env', l') /\
    priority_sorted Less (sb_asks (abs w_book)) /\
    consumed TakeAsks (sb_asks (abs w_book)) (sb_asks (abs b')) (mr_fills res).
Proof.
  eexists _, _, _, _. split; [vm_compute; reflexivity|].
  edestruct (submit_price_time_priority (Some S) 0 (w_order 6 Buy Limit 100 60 6) w_book w_env)
    as (H1 & H2 & _).
  - exact w_book_ok.
  - unfold rem_ok, rem; simpl; lia.
  - exact w_env_ok.
  - vm_compute. reflexivity.
  - split; [exact H1|exact H2].
Defined.

(** C12: quantity is conserved.  What an incoming order trades leaves the other
    side, never exceeds its quantity, and what is left of a limit order, and
    only of a limit order, is added to its own side. *)
Theorem submit_conserves_quantity {L : Type} (log_func : option (L -> L)) (l : L)
    o b env b' res env' l' :
  book_ok b -> rem_ok o -> env_ok env ->
  submitOrder o log_func b env l = Ok (b', res, env', l') ->
  let t := taker_of (o_side o) in
  let traded := sum_by f_quantity (mr_fills res) in
  (0 <= traded <= rem o)%Z /\
  (total (opp_orders t (abs b')) = total (opp_orders t (abs b)) - traded)%Z /\
  (total (own_orders t (abs b')) =
     total (own_orders t (abs b)) + if is_limit (o_type o) then rem o - traded else 0)%Z.
Proof.
  intros Hb Ho He Hs t traded.
  destruct (submit_view log_func l o b env b' res env' l' Hb Ho He Hs) as (_ & Hopp & Hown & Hf & _).
  fold t in Hopp, Hown, Hf.
  assert (Hr : (0 <= rem o)%Z) by (unfold rem_ok in Ho; lia).
  destruct (alloc_total (rem o) (take_while (accepts t o) (opp_orders t (abs b)))) as [Hsum Hbnd];
    [by apply Forall_take_while, book_opp_pos|done|].
  assert (traded = sum_by al_qty (allocs t o (opp_orders t (abs b)))) as Ht.
  { unfold traded. by rewrite Hf, sum_fmap, spec_fills_qty, <- sum_fmap. }
  unfold allocs in Ht. split_and!; [lia|lia| |].
  - rewrite Hopp. unfold opp_after. rewrite total_app.
    pose proof (total_app (take_while (accepts t o) (opp_orders t (abs b)))
      (drop_while (accepts t o) (opp_orders t (abs b)))) as Hd.
    rewrite take_drop_while in Hd. lia.
  - rewrite Hown. change (rem (set_remaining ?q o)) with q. unfold left_after, allocs. rewrite <- Ht.
    destruct (is_limit (o_type o)); [|rewrite andb_false_r; lia].
    rewrite andb_true_r. case_Z; [|lia]. rewrite total_insert. unfold rem at 1. simpl. lia.
Qed.

Lemma submit_conserves_quantity_witness :
  exists b' res env' l',
    submitOrder (w_order 6 Buy Limit 100 90 6) (Some S) w_book w_env 0 = Ok (b', res, env', l') /\
    (0 <= sum_by f_quantity (mr_fills res) <= 90)%Z /\
    (total (sb_asks (abs b')) = total (sb_asks (abs w_book)) - sum_by f_quantity (mr_fills res))%Z.
Proof.
  eexists _, _, _, _. split; [vm_compute; reflexivity|].
  edestruct (submit_conserves_quantity (Some S) 0 (w_order 6 Buy Limit 100 90 6) w_book w_env)
    as (H1 & H2 & _).
  - exact w_book_ok.
  - unfold rem_ok, rem; simpl; lia.
  - exact w_env_ok.
  - vm_compute. reflexivity.
  - split; [exact H1|exact H2].
Defined.

(** C19: who trades and at what price.  Every fill is between the incoming order
    and a resting order of the other side; its price is the sell order's if the
    sell order has the smaller time stamp and the buy order's otherwise.  For a
    limit order that price is within both limits, and it is the resting order's
    whenever the resting order has the smaller time stamp. *)
Theorem fill_parties_and_price {L : Type} (log_func : option (L -> L)) (l : L)
    o b env b' res env' l' :
  book_ok b -> rem_ok o -> env_ok env ->
  submitOrder o log_func b env l = Ok (b', res, env', l') ->
  let t := taker_of (o_side o) in
  Forall (fun f => exists x, x ∈ opp_orders t (abs b) /\
    resting_id t f = o_order_id x /\ taker_id t f = o_order_id o /\
    f_symbol f = symbol_ b /\ (0 < f_quantity f <= rem x)%Z /\
    f_price f = execution_price (buyer t o x) (seller t o x) /\
    ((o_timestamp x < o_timestamp o)%Z -> f_price f = o_price x) /\
    (is_limit (o_type o) = true ->
       (o_price (seller t o x) <= f_price f <= o_price (buyer t o x))%Z)) (mr_fills res).
Proof.
  intros Hb Ho He Hs t.
  destruct (submit_view log_func l o b env b' res env' l' Hb Ho He Hs) as (_ & _ & _ & Hf & _).
  fold t in Hf. rewrite Hf. apply Forall_forall. intros f Hin.
  apply list_elem_of_lookup in Hin as [i Hi]. rewrite list_lookup_imap in Hi.
  destruct (allocs t o (opp_orders t (abs b)) !! i) as [a|] eqn:Ea; [|done].
  injection Hi as <-. apply list_elem_of_lookup_2 in Ea.
  assert (Hr : (0 <= rem o)%Z) by (unfold rem_ok in Ho; lia).
  destruct (alloc_elem (rem o) (take_while (accepts t o) (opp_orders t (abs b))) a) as [Hx Hq];
    [by apply Forall_take_while, book_opp_pos|done|done|].
  exists (al_resting a).
  assert (accepts t o (al_resting a) = true) as Hacc.
  { pose proof (take_while_true (accepts t o) (opp_orders t (abs b))) as Ht.
    rewrite Forall_forall in Ht. auto. }
  split_and!.
  - rewrite <- (take_drop_while (accepts t o)). set_solver.
  - by destruct t.
  - by destruct t.
  - done.
  - apply Hq.
  - apply Hq.
  - done.
  - unfold spec_fill, execution_price. simpl. destruct t; simpl; case_Z; lia.
  - intros Hlim. unfold accepts, price_stops in Hacc. rewrite Hlim in Hacc. simpl in Hacc.
    unfold spec_fill, execution_price. simpl. destruct t; simpl in *; case_Z_in Hacc;
      simpl in Hacc; try done; case_Z; lia.
Qed.

Lemma fill_parties_and_price_witness :
  exists b' res env' l',
    submitOrder (w_order 6 Buy Limit 101 90 6) (Some S) w_book w_env 0 = Ok (b', res, env', l') /\
    Forall (fun f => (100 <= f_price f <= 101)%Z) (mr_fills res).
Proof.
  eexists _, _, _, _. split; [vm_compute; reflexivity|].
  eapply Forall_impl; [eapply (fill_parties_and_price (Some S) 0 (w_order 6 Buy Limit 101 90 6)
    w_book w_env)|].
  - exact w_book_ok.
  - unfold rem_ok, rem; simpl; lia.
  - exact w_env_ok.
  - vm_compute. reflexivity.
  - intros f (x & Hx & _ & _ & _ & _ & _ & _ & Hp). specialize (Hp eq_refl). simpl in Hp.
    assert (100 <= o_price x)%Z; [|lia]. revert x Hx Hp. vm_compute opp_orders.
    intros x Hx _. repeat (apply elem_of_cons in Hx as [->|Hx]; [simpl; lia|]).
    by apply not_elem_of_nil in Hx.
Defined.

(** Trade ids.  The fills of a submission carry consecutive ids starting at
    the generator's counter, modulo 2^64, and the counter ends right after them. *)
Theorem trade_ids_consecutive {L : Type} (log_func : option (L -> L)) (l : L)
    o b env b' res env' l' :
  book_ok b -> rem_ok o -> env_ok env ->
  submitOrder o log_func b env l = Ok (b', res, env', l') ->
  f_trade_id <$> mr_fills res =
    (fun i => u64 (counter_ env + Z.of_nat i)) <$> seq 0 (length (mr_fills res)) /\
  counter_ env' = u64 (counter_ env + Z.of_nat (length (mr_fills res))).
Proof.
  intros Hb Ho He Hs.
  destruct (submit_view log_func l o b env b' res env' l' Hb Ho He Hs) as (_ & _ & _ & Hf & Hen).
  rewrite Hf, Hen. rewrite length_imap. split.
  - apply list_eq. intros i. rewrite !list_lookup_fmap, list_lookup_imap.
    destruct (allocs _ _ _ !! i) as [a|] eqn:E.
    + rewrite lookup_seq_lt by (by eapply lookup_lt_Some). done.
    + rewrite lookup_seq_ge by (by apply lookup_ge_None). done.
  - unfold spec_tail. simpl. repeat case_match; done.
Qed.

Lemma trade_ids_consecutive_witness :
  exists b' res env' l',
    submitOrder (w_order 6 Buy Limit 101 90 6) (Some S) w_book w_env 0 = Ok (b', res, env', l') /\
    f_trade_id <$> mr_fills res = [1; 2; 3]%Z /\ counter_ env' = 4%Z.
Proof.
  eexists _, _, _, _. split; [vm_compute; reflexivity|].
  edestruct (trade_ids_consecutive (Some S) 0 (w_order 6 Buy Limit 101 90 6) w_book w_env)
    as (H1 & H2).
  - exact w_book_ok.
  - unfold rem_ok, rem; simpl; lia.
  - exact w_env_ok.
  - vm_compute. reflexivity.
  - split; [exact H1|exact H2].
Defined.

(** The book is never crossed.  After any history [bestBid] is the highest
    bid, [bestAsk] the lowest ask, and the bid is below the ask. *)
Theorem best_prices_uncrossed sym ops env b' ress env' :
  Forall op_ok ops -> apply_ops ops (new_book sym) env = Ok (b', ress, env') ->
  Forall (fun o => o_price o <= bestBid b')%Z (sb_bids (abs b')) /\
  Forall (fun o => bestAsk b' <= o_price o)%Z (sb_asks (abs b')) /\
  (sb_bids (abs b') <> [] -> sb_asks (abs b') <> [] -> (bestBid b' < bestAsk b')%Z).
Proof.
  intros Hops Ha. destruct (apply_ops_ok ops (new_book sym) env (new_book_ok sym) Hops)
    as (b2 & r2 & e2 & Ha2 & Hb). rewrite Ha in Ha2. injection Ha2 as <- _ _.
  split_and!.
  - apply Forall_ords. eapply Forall_impl; [apply (levels_best _ _ _ (ok_bids _ Hb))|].
    intros pn Hpn. simpl in *. unfold bestBid. destruct (buy_orders_ b') as [|[p q] ls]; [done|].
    simpl in Hpn. lia.
  - apply Forall_ords. eapply Forall_impl; [apply (levels_best _ _ _ (ok_asks _ Hb))|].
    intros pn Hpn. simpl in *. unfold bestAsk. destruct (sell_orders_ b') as [|[p q] ls]; [done|].
    simpl in Hpn. lia.
  - intros Hbid Hask. pose proof (ok_uncrossed _ Hb) as Hu. unfold bestBid, bestAsk, abs in *. simpl in *.
    destruct (buy_orders_ b') as [|[p q] ls]; [done|]. destruct (sell_orders_ b') as [|[p' q'] ls']; [done|].
    apply Hu; left.
Qed.

(** C18: what the book shows after any history of submissions, cancellations and
    modifications.  [bestBid] is the highest bid, [bestAsk] the lowest ask, and the bid is
    below the ask: the book is never crossed.  When no order id was submitted twice, the
    index is exact: the resting ids are distinct and every resting order, and no other id,
    is found in the index at its own position. *)
Theorem book_view_correct sym ops env b' ress env' :
  Forall op_ok ops -> apply_ops ops (new_book sym) env = Ok (b', ress, env') ->
  (Forall (fun o => o_price o <= bestBid b')%Z (sb_bids (abs b')) /\
   Forall (fun o => bestAsk b' <= o_price o)%Z (sb_asks (abs b')) /\
   (sb_bids (abs b') <> [] -> sb_asks (abs b') <> [] -> (bestBid b' < bestAsk b')%Z)) /\
  (ops_fresh [] ops -> env_ok env ->
   book_exact b' /\ forall id, is_Some (order_index_ b' !! id) <-> id ∈ resting_ids b').
Proof. intros Hops Ha. split; [by eapply best_prices_uncrossed|]. intros. by eapply book_index_exact. Qed.

Lemma book_view_correct_witness :
  exists b' ress env',
    apply_ops (w_ops ++ [OpCancel 2]) (new_book "AAPL") w_env = Ok (b', ress, env') /\
    (bestBid b' < bestAsk b')%Z /\
    book_exact b' /\ forall id, is_Some (order_index_ b' !! id) <-> id ∈ resting_ids b'.
Proof.
  eexists _, _, _. split; [vm_compute; reflexivity|].
  edestruct (book_view_correct "AAPL" (w_ops ++ [OpCancel 2]) w_env) as ((_ & _ & H1) & H2).
  - unfold w_ops. simpl. repeat constructor; unfold rem; simpl; lia.
  - vm_compute. reflexivity.
  - split; [apply H1; done|]. apply H2; [|exact w_env_ok]. simpl. repeat split; set_solver.
Defined.

(** [queryOrder] finds the resting order with the given id, with its current
    remaining quantity, and nothing when there is none. *)
Theorem queryOrder_spec id b : book_exact b -> queryOrder id b = Ok (spec_find id (abs b)).
Proof.
  intros Hx. unfold queryOrder, index_get. destruct (order_index_ b !! id) as [e|] eqn:He.
  - destruct (unlink_ok b id e (ex_ok _ Hx) He) as (n & own' & l1 & l2 & Hd & Hid & Hu & Hf & Hf' & Hr & Hb').
    destruct (unlink_spec b id e n own' l1 l2 Hx He Hid Hr Hf Hf' Hb') as (_ & -> & _). by rewrite Hd.
  - rewrite spec_find_None; [done|]. rewrite <- resting_ids_ords. by apply exact_lookup_None.
Qed.

Lemma queryOrder_spec_witness :
  queryOrder 3 w_book = Ok (Some (w_order 3 Sell Limit 100 20 3)).
Proof. rewrite (queryOrder_spec 3 w_book w_book_exact). vm_compute. reflexivity. Defined.

(** The nested loops of [submitOrderInternal] terminate within one more
    iteration than there are levels (and orders in a level), and compute the
    same result as one pass over the flat list of resting orders. *)
Theorem matching_loops_equal_sweep t sym c buy levels r fuel :
  levels_ok c buy levels -> rem_ok (r_incoming r) -> (length levels < fuel)%nat ->
  exists levels' r', match_levels fuel t sym levels r = Ok (levels', r') /\
    levels_ok c buy levels' /\ sweep t sym (flat levels) r = (flat levels', r').
Proof.
  intros Hl Hr Hf.
  destruct (match_levels_effect t sym c buy levels r Hl Hr) as (ls & r1 & g & lf & H1 & _ & _ & Hl' & _).
  destruct (match_levels_sweep t sym levels r fuel Hf Hr) as (ls2 & r2 & H2 & Hc2 & Hs2);
    [eauto with exchange|].
  destruct (match_levels_sweep t sym levels r (S (length levels))) as (ls3 & r3 & H3 & Hc3 & Hs3);
    [lia|done|eauto with exchange|].
  exists ls2, r2. split_and!; [done| |done]. constructor.
  - eapply cut_sorted; [done|apply Hl].
  - eapply cut_nonempty; [done|apply Hl].
  - assert (flat ls2 = flat ls) as -> by congruence. apply Hl'.
Qed.

Lemma matching_loops_equal_sweep_witness :
  exists levels' r',
    match_levels 9 TakeAsks "AAPL" (sell_orders_ w_book)
      (mkRun (w_order 6 Buy Limit 101 90 6) ∅ empty_result w_env) = Ok (levels', r') /\
    levels_ok Less false levels' /\
    sweep TakeAsks "AAPL" (flat (sell_orders_ w_book))
      (mkRun (w_order 6 Buy Limit 101 90 6) ∅ empty_result w_env) = (flat levels', r').
Proof.
  apply (matching_loops_equal_sweep TakeAsks "AAPL" Less false).
  - exact (ok_asks _ w_book_ok).
  - unfold rem_ok, rem; simpl; lia.
  - vm_compute. lia.
Defined.

(** Modifying a resting order to quantity 0 takes it out of the book with
    no fill and no execution report at all: its owner is told nothing. *)
Theorem modify_to_zero_is_silent {L : Type} (log_func : option (L -> L)) (l : L) req res b env :
  book_exact b -> m_quantity req = 0%Z -> m_order_id req ∈ resting_ids b ->
  exists b', modifyOrder req res log_func b env l = Ok (true, b', res, env, run_log log_func l) /\
    abs b' = spec_remove (m_order_id req) (abs b) /\ m_order_id req ∉ resting_ids b'.
Proof.
  intros Hx Hq Hin. pose proof (modify_unfold log_func l req res b env (ex_ok _ Hx)) as Hm.
  destruct (order_index_ b !! m_order_id req) as [e|] eqn:He; [|by destruct (exact_lookup_None _ _ Hx He Hin)].
  destruct Hm as (n & own' & l1 & l2 & Hm & Hid & Hr & Hf & Hf' & Hb').
  destruct (unlink_spec b _ e n own' l1 l2 Hx He Hid Hr Hf Hf' Hb') as (Ha & _ & Hx' & Hnew & _).
  rewrite submit_nothing in Hm by (simpl; congruence). eauto.
Qed.

Lemma modify_to_zero_is_silent_witness :
  exists b', modifyOrder (mkModifyRequest 4 "AAPL" 100 0 9 7) empty_result (Some S) w_book w_env 0
      = Ok (true, b', empty_result, w_env, run_log (Some S) 0) /\
    abs b' = spec_remove 4 (abs w_book) /\ 4%Z ∉ resting_ids b'.
Proof.
  apply (modify_to_zero_is_silent (Some S) 0 (mkModifyRequest 4 "AAPL" 100 0 9 7) empty_result);
    [exact w_book_exact|done|].
  apply (bool_decide_unpack (4%Z ∈ resting_ids w_book)). vm_compute. exact I.
Defined.

(** The price rule lets a market order set its own price.  On a book whose
    best ask is 100, a market buy order carrying price 1 and time stamp 0 trades
    at price 1. *)
Theorem market_order_sets_price :
  exists b' res env',
    submitOrder (w_order 6 Buy Market 1 50 0) None w_book w_env tt = Ok (b', res, env', tt) /\
    bestAsk w_book = 100%Z /\ f_price <$> mr_fills res = [1]%Z.
Proof. eexists _, _, _. split_and!; vm_compute; reflexivity. Qed.

(** [print_book] shows, for every level, its price, the number of its orders
    and their total quantity modulo 2^32. *)
Theorem print_book_levels b :
  (print_book b).2 = (fun l : Level =>
    (l.1, u32 (total (n_order <$> l.2)), length l.2)) <$> buy_orders_ b /\
  (print_book b).1 = (fun l : Level =>
    (l.1, u32 (total (n_order <$> l.2)), length l.2)) <$> rev (sell_orders_ b).
Proof.
  assert (forall q, qty_at_price q = u32 (total (n_order <$> q))) as Hq.
  { intros q. unfold qty_at_price, total. rewrite sum_by_map. apply foldl_u32. }
  split; unfold print_book; simpl; apply list_fmap_ext; intros i [p q] _;
    unfold print_level; simpl; by rewrite Hq.
Qed.
