(* ===== verification/BookRegistry.v ===== *)
(** * BookRegistry: the order books by symbol

    [registry/book_registry.hpp] and [registry/book_registry.cpp].  The map owns
    the books through [unique_ptr]s and never erases one, so the [OrderBook*]
    that [get_order_book] returns stays valid; the model's pointer is the key,
    and following one that has no book is [UseAfterFree]. *)

From stdpp Require Import base list gmap strings.
From Stdlib Require Import ZArith Lia.
From S2P Require Import Prelude StdMap Types MatchingEngine OrderIndex OrderBook Matching BookInv BookSpec BookExact BookOps.
Local Open Scope exchange_scope.

(** ** Definitions *)

Record BookRegistry : Type := mkBookRegistry {
  books_ : gmap string OrderBook }.

Definition new_registry : BookRegistry := mkBookRegistry ∅.

Definition get_order_book (symbol : Symbol) (r : BookRegistry) : Symbol * BookRegistry :=
  match books_ r !! symbol with
  | Some _ => (symbol, r)
  | None => (symbol, mkBookRegistry (<[ symbol := new_book symbol ]> (books_ r)))
  end.

(** [book->f(..)] for the pointer [p]. *)
Definition with_book {A : Type} (p : Symbol) (f : OrderBook -> outcome (OrderBook * A))
    (r : BookRegistry) : outcome (BookRegistry * A) :=
  let* b := of_option UseAfterFree (books_ r !! p) in
  let* (b, a) := f b in
  Ok (mkBookRegistry (<[ p := b ]> (books_ r)), a).

(** [registry.get_order_book(symbol)] and one call on the book it returns, as
    the worker threads and the replay do. *)
Definition registry_op {L : Type} (symbol : Symbol) (op : book_op) (log_func : option (L -> L))
    (r : BookRegistry) (env : Env) (l : L) : outcome (BookRegistry * (MatchResult * Env * L)) :=
  let '(book, r) := get_order_book symbol r in
  with_book book (fun b =>
    let* (b, res, env, l) := apply_op op log_func b env l in Ok (b, (res, env, l))) r.

(** The book a symbol stands for, existing or not. *)
Definition book_of (symbol : Symbol) (r : BookRegistry) : OrderBook :=
  default (new_book symbol) (books_ r !! symbol).

(** Every book is registered under its own symbol and satisfies its invariant. *)
Definition registry_ok (r : BookRegistry) : Prop :=
  map_Forall (fun sym b => symbol_ b = sym /\ book_ok b) (books_ r).

(** ** Facts *)

(** No operation changes the symbol of a book. *)
Lemma finish_symbol t b r : symbol_ (finish_order t b r).1.1 = symbol_ b.
Proof.
  unfold finish_order, rest_order. repeat (case_match; cbn); try done; destruct t; done.
Qed.

Lemma submit_internal_symbol o res b env b' res' env' :
  submitOrderInternal o res b env = Ok (b', res', env') -> symbol_ b' = symbol_ b.
Proof.
  unfold submitOrderInternal. intros ([opp r] & _ & [= Hf])%obind_ok.
  apply (f_equal (fun x => symbol_ x.1.1)) in Hf. rewrite finish_symbol in Hf. simpl in Hf.
  rewrite <- Hf. by destruct (taker_of (o_side o)).
Qed.

Lemma unlink_symbol e b b' : unlink e b = Ok b' -> symbol_ b' = symbol_ b.
Proof. unfold unlink. case_match; intros (l & _ & [= <-])%obind_ok; done. Qed.

Lemma apply_op_symbol {L} op (lf : option (L -> L)) b env l b' res env' l' :
  apply_op op lf b env l = Ok (b', res, env', l') -> symbol_ b' = symbol_ b.
Proof.
  destruct op as [o|id|req]; simpl; intros H.
  - apply obind_ok in H as ([[b1 r1] e1] & Hs & [=]); subst. by eapply submit_internal_symbol.
  - apply obind_ok in H as ([[[[f1 b1] r1] e1] l1] & Hs & [=]); subst. unfold cancelOrder in Hs.
    destruct (index_get _ _); [|by injection Hs as _ <- _ _ _].
    apply obind_ok in Hs as (o1 & _ & (b1 & Hu & [=])%obind_ok). subst. simpl. by eapply unlink_symbol.
  - apply obind_ok in H as ([[[[f1 b1] r1] e1] l1] & Hs & [=]); subst. unfold modifyOrder in Hs.
    destruct (index_get _ _); [|by injection Hs as _ <- _ _ _].
    apply obind_ok in Hs as (o1 & _ & (b1 & Hu & ([[b2 r2] e2] & Hi & [=])%obind_ok)%obind_ok). subst.
    apply submit_internal_symbol in Hi. simpl in Hi. rewrite Hi. by eapply unlink_symbol.
Qed.

Lemma get_order_book_spec sym r :
  (get_order_book sym r).1 = sym /\
  books_ (get_order_book sym r).2 = <[ sym := book_of sym r ]> (books_ r).
Proof.
  unfold get_order_book, book_of. destruct (books_ r !! sym) as [b|] eqn:E; [|done].
  split; [done|]. simpl. by rewrite insert_id.
Qed.

Lemma book_of_ok sym r : registry_ok r -> symbol_ (book_of sym r) = sym /\ book_ok (book_of sym r).
Proof.
  intros Hr. unfold book_of. destruct (books_ r !! sym) as [b|] eqn:E; simpl.
  - exact (Hr _ _ E).
  - split; [done|apply new_book_ok].
Qed.

Lemma registry_op_unfold {L} sym op (lf : option (L -> L)) r env l :
  registry_op sym op lf r env l =
    let* (b, res, env, l) := apply_op op lf (book_of sym r) env l in
    Ok (mkBookRegistry (<[ sym := b ]> (books_ r)), (res, env, l)).
Proof.
  unfold registry_op. pose proof (get_order_book_spec sym r) as [H1 H2].
  destruct (get_order_book sym r) as [p r1]. simpl in H1, H2. subst p.
  unfold with_book. rewrite H2, lookup_insert_eq. cbn [of_option obind].
  destruct (apply_op _ _ _ _ _) as [[[[b res] e] l']|]; cbn [obind]; [|done].
  by rewrite insert_insert_eq.
Qed.

(** Following the pointer just obtained finds the book: the registry and the
    other books are as before. *)
Lemma registry_op_ok {L} sym op (lf : option (L -> L)) r env l :
  registry_ok r -> op_ok op ->
  exists b res env',
    apply_op op lf (book_of sym r) env l = Ok (b, res, env', run_log lf l) /\
    registry_op sym op lf r env l
      = Ok (mkBookRegistry (<[ sym := b ]> (books_ r)), (res, env', run_log lf l)) /\
    registry_ok (mkBookRegistry (<[ sym := b ]> (books_ r))).
Proof.
  intros Hr Hop. destruct (book_of_ok sym r Hr) as [Hsym Hb].
  destruct (apply_op_ok lf op _ env l Hb Hop) as (b & res & env' & Ha & Hb').
  exists b, res, env'. split; [done|]. rewrite registry_op_unfold, Ha. split; [done|].
  apply map_Forall_insert_2; [|done]. apply apply_op_symbol in Ha. by rewrite Ha.
Qed.
