(* ===== verification/ClientErasure.v ===== *)
(** * Books up to client ids

    The log does not hold client ids, and neither the clock nor the trade-id
    counter of a replay is that of the original run.  None of them decides what
    happens to a book: the operations of [engine/order_book.cpp] respect
    equality of books up to the client ids of their orders, whatever the
    environment, the log and the [MatchResult] they run with. *)

From stdpp Require Import base list gmap strings.
From Stdlib Require Import ZArith Lia.
From S2P Require Import Prelude StdMap Types MatchingEngine OrderIndex OrderBook BookOps.
Local Open Scope exchange_scope.

(** ** Definitions *)

Definition order_sim (o1 o2 : Order) : Prop := exists c, o2 = set_client c o1.

Definition node_sim (n1 n2 : Node) : Prop :=
  n_addr n1 = n_addr n2 /\ order_sim (n_order n1) (n_order n2).

Definition queue_sim : list Node -> list Node -> Prop := Forall2 node_sim.

Definition level_sim (l1 l2 : Level) : Prop := l1.1 = l2.1 /\ queue_sim l1.2 l2.2.

Definition levels_sim : list Level -> list Level -> Prop := Forall2 level_sim.

Record book_sim (b1 b2 : OrderBook) : Prop := mkBookSim {
  bs_symbol : symbol_ b1 = symbol_ b2;
  bs_bids : levels_sim (buy_orders_ b1) (buy_orders_ b2);
  bs_asks : levels_sim (sell_orders_ b1) (sell_orders_ b2);
  bs_index : order_index_ b1 = order_index_ b2;
  bs_next : next_addr b1 = next_addr b2 }.

(** The same request as far as a book is concerned. *)
Definition op_sim (op1 op2 : book_op) : Prop :=
  match op1, op2 with
  | OpSubmit o1, OpSubmit o2 => order_sim o1 o2
  | OpCancel i, OpCancel j => i = j
  | OpModify r1, OpModify r2 =>
      m_order_id r1 = m_order_id r2 /\ m_price r1 = m_price r2 /\
      m_quantity r1 = m_quantity r2 /\ m_timestamp r1 = m_timestamp r2
  | _, _ => False
  end.

(** Two computations that fail alike, or complete with related results. *)
Definition outcome_rel {A B} (R : A -> B -> Prop) (m1 : outcome A) (m2 : outcome B) : Prop :=
  match m1, m2 with
  | Ok a, Ok b => R a b
  | Fault f, Fault g => f = g
  | _, _ => False
  end.

(** As many fills. *)
Definition fills_sim (res1 res2 : MatchResult) : Prop := length (mr_fills res1) = length (mr_fills res2).

Definition run_sim (r1 r2 : Run) : Prop :=
  order_sim (r_incoming r1) (r_incoming r2) /\ r_index r1 = r_index r2 /\
  fills_sim (r_result r1) (r_result r2).

(** ** Equivalences *)

#[export] Instance order_sim_equiv : Equivalence order_sim.
Proof.
  split.
  - intros [] . eexists. reflexivity.
  - intros o1 o2 [c ->]. exists (o_client_id o1). by destruct o1.
  - intros o1 o2 o3 [c ->] [d ->]. by exists d.
Qed.

#[export] Instance node_sim_equiv : Equivalence node_sim.
Proof.
  split.
  - done.
  - intros n1 n2 [? ?]. by split.
  - intros n1 n2 n3 [? ?] [? ?]. split; by etrans.
Qed.

#[export] Instance queue_sim_equiv : Equivalence queue_sim.
Proof. unfold queue_sim. split; apply _. Qed.

#[export] Instance level_sim_equiv : Equivalence level_sim.
Proof.
  split.
  - done.
  - intros l1 l2 [? ?]. by split.
  - intros l1 l2 l3 [? ?] [? ?]. split; by etrans.
Qed.

#[export] Instance levels_sim_equiv : Equivalence levels_sim.
Proof. unfold levels_sim. split; apply _. Qed.

#[export] Instance book_sim_equiv : Equivalence book_sim.
Proof.
  split.
  - done.
  - intros b1 b2 []. by constructor.
  - intros b1 b2 b3 [] []. constructor; by etrans.
Qed.

(** ** Relational reasoning about outcomes *)

Lemma outcome_rel_bind {A B C D} (R : A -> B -> Prop) (S : C -> D -> Prop) m1 m2 k1 k2 :
  outcome_rel R m1 m2 -> (forall a b, R a b -> outcome_rel S (k1 a) (k2 b)) ->
  outcome_rel S (obind m1 k1) (obind m2 k2).
Proof. destruct m1, m2; simpl; auto; contradiction. Qed.

Lemma outcome_rel_ok {A B} (R : A -> B -> Prop) a m2 :
  outcome_rel R (Ok a) m2 -> exists b, m2 = Ok b /\ R a b.
Proof. destruct m2; simpl; [eauto|done]. Qed.

(** ** The containers *)

Lemma map_find_sim p ls1 ls2 : levels_sim ls1 ls2 ->
  option_Forall2 queue_sim (map_find p ls1) (map_find p ls2).
Proof.
  induction 1 as [|[k1 q1] [k2 q2] ls1 ls2 [Hk Hq] _ IH]; simpl in *; [constructor|].
  subst k2. case_Z; [by constructor|done].
Qed.

Lemma map_at_sim c p ls1 ls2 : levels_sim ls1 ls2 ->
  levels_sim (map_at c [] p ls1) (map_at c [] p ls2).
Proof.
  induction 1 as [|[k1 q1] [k2 q2] ls1 ls2 [Hk Hq] Hls IH]; simpl in *.
  { constructor; [done|constructor]. }
  subst k2. case_Z; [by constructor|]. destruct (before c p k1); repeat (constructor; try done).
Qed.

Lemma map_mutate_sim p f g ls1 ls2 :
  (forall q1 q2, queue_sim q1 q2 -> queue_sim (f q1) (g q2)) ->
  levels_sim ls1 ls2 -> levels_sim (map_mutate f p ls1) (map_mutate g p ls2).
Proof.
  intros Hfg. induction 1 as [|[k1 q1] [k2 q2] ls1 ls2 [Hk Hq] Hls IH]; simpl in *; [constructor|].
  subst k2. case_Z; constructor; try done. split; [done|]. by apply Hfg.
Qed.

Lemma map_erase_sim p ls1 ls2 : levels_sim ls1 ls2 -> levels_sim (map_erase p ls1) (map_erase p ls2).
Proof.
  induction 1 as [|[k1 q1] [k2 q2] ls1 ls2 [Hk Hq] Hls IH]; simpl in *; [constructor|].
  subst k2. case_Z; [done|by constructor].
Qed.

Lemma list_deref_sim pos q1 q2 : queue_sim q1 q2 ->
  option_Forall2 order_sim (list_deref pos q1) (list_deref pos q2).
Proof.
  induction 1 as [|n1 n2 q1 q2 [Ha Ho] _ IH]; simpl; [constructor|]. rewrite Ha.
  destruct (Nat.eqb _ _); [by constructor|done].
Qed.

Lemma list_erase_sim pos q1 q2 : queue_sim q1 q2 ->
  option_Forall2 queue_sim (list_erase pos q1) (list_erase pos q2).
Proof.
  induction 1 as [|n1 n2 q1 q2 [Ha Ho] Hq IH]; simpl; [constructor|]. rewrite Ha.
  destruct (Nat.eqb _ _); [by constructor|]. destruct IH; constructor. constructor; done.
Qed.

Lemma concat_sim ls1 ls2 : levels_sim ls1 ls2 -> queue_sim (concat ls1.*2) (concat ls2.*2).
Proof. induction 1 as [|l1 l2 ls1 ls2 [_ Hq] _ IH]; csimpl; [constructor|]. by apply Forall2_app. Qed.

Lemma of_option_rel {A B} (R : A -> B -> Prop) f o1 o2 :
  option_Forall2 R o1 o2 -> outcome_rel R (of_option f o1) (of_option f o2).
Proof. by destruct 1. Qed.

Lemma book_deref_sim pos b1 b2 : book_sim b1 b2 ->
  outcome_rel order_sim (book_deref pos b1) (book_deref pos b2).
Proof.
  intros []. unfold book_deref. apply of_option_rel, list_deref_sim.
  rewrite !concat_app. apply Forall2_app; by apply concat_sim.
Qed.

Lemma levels_of_sim t b1 b2 : book_sim b1 b2 ->
  levels_sim (own_levels t b1) (own_levels t b2) /\ levels_sim (opp_levels t b1) (opp_levels t b2).
Proof. intros []. by destruct t. Qed.

Lemma set_sides_sim t own1 own2 opp1 opp2 b1 b2 :
  book_sim b1 b2 -> levels_sim own1 own2 -> levels_sim opp1 opp2 ->
  book_sim (set_sides t own1 opp1 b1) (set_sides t own2 opp2 b2).
Proof. intros [] ? ?. destruct t; by constructor. Qed.

Lemma set_index_sim ix b1 b2 : book_sim b1 b2 -> book_sim (set_index ix b1) (set_index ix b2).
Proof. intros []. by constructor. Qed.

(** ** Matching *)

Lemma match_resting_sim t sym r1 r2 x1 x2 : run_sim r1 r2 -> order_sim x1 x2 ->
  order_sim (match_resting t sym r1 x1).1 (match_resting t sym r2 x2).1 /\
  run_sim (match_resting t sym r1 x1).2 (match_resting t sym r2 x2).2.
Proof.
  destruct r1 as [o1 ix1 res1 e1], r2 as [o2 ix2 res2 e2]. intros ([c Ho] & Hix & Hf) [d Hx].
  simpl in *. subst. unfold match_resting, run_sim, order_sim, fills_sim in *.
  destruct t; simpl; unfold matchOrders; simpl; case_Z; simpl; rewrite ?length_app, ?Hf; eauto 10.
Qed.

Lemma match_queue_sim t sym fuel : forall q1 q2 r1 r2,
  queue_sim q1 q2 -> run_sim r1 r2 ->
  outcome_rel (fun a b => queue_sim a.1 b.1 /\ run_sim a.2 b.2)
    (match_queue fuel t sym q1 r1) (match_queue fuel t sym q2 r2).
Proof.
  induction fuel as [|fuel IH]; intros q1 q2 r1 r2 Hq Hr; simpl; [done|].
  destruct Hq as [|n1 n2 q1 q2 [Ha Ho] Hq]; [by split; [constructor|]|].
  assert (o_remaining_quantity (r_incoming r1) = o_remaining_quantity (r_incoming r2)) as <-
    by (destruct Hr as [[c ->] _]; done).
  destruct (0 <? _)%Z; [|split; [by constructor|done]].
  pose proof (match_resting_sim t sym r1 r2 _ _ Hr Ho) as [Hx Hr'].
  destruct (match_resting t sym r1 (n_order n1)) as [x1 r1'].
  destruct (match_resting t sym r2 (n_order n2)) as [x2 r2']. simpl in *.
  destruct Hx as [c ->]. simpl. destruct (_ =? 0)%Z.
  - apply IH; [done|]. destruct Hr' as (Hi & Hix & Hf). split; [done|]. simpl. by rewrite Hix.
  - apply IH; [|done]. constructor; [|done]. split; [done|]. by exists c.
Qed.

Lemma match_levels_sim t sym fuel : forall ls1 ls2 r1 r2,
  levels_sim ls1 ls2 -> run_sim r1 r2 ->
  outcome_rel (fun a b => levels_sim a.1 b.1 /\ run_sim a.2 b.2)
    (match_levels fuel t sym ls1 r1) (match_levels fuel t sym ls2 r2).
Proof.
  induction fuel as [|fuel IH]; intros ls1 ls2 r1 r2 Hls Hr; cbn [match_levels]; [done|].
  destruct Hls as [|[k1 q1] [k2 q2] ls1 ls2 [Hk Hq] Hls]; [by split; [constructor|]|].
  simpl in Hk, Hq. subst k2. rewrite <- (Forall2_length _ _ _ Hq).
  assert (o_remaining_quantity (r_incoming r1) = o_remaining_quantity (r_incoming r2) /\
          price_stops t (r_incoming r1) k1 = price_stops t (r_incoming r2) k1) as [<- <-]
    by (destruct Hr as [[c ->] _]; done).
  destruct (0 <? _)%Z; [|split; [by constructor|done]].
  destruct (price_stops _ _ _); [split; [by constructor|done]|].
  eapply outcome_rel_bind; [apply (match_queue_sim t sym (S (length q1))); done|].
  intros [q1' r1'] [q2' r2'] [Hq' Hr']. simpl in *.
  destruct Hq' as [|n1 n2 q1' q2' Hn Hq']; [by apply IH|].
  eapply outcome_rel_bind; [by apply IH|].
  intros [m1 s1] [m2 s2] [Hm Hs]. simpl in *. split; [|done]. constructor; [|done].
  split; [done|]. by constructor.
Qed.

(** ** Operations *)

Lemma rest_order_sim t o1 o2 b1 b2 : order_sim o1 o2 -> book_sim b1 b2 ->
  book_sim (rest_order t o1 b1) (rest_order t o2 b2).
Proof.
  intros [c ->] Hb. pose proof (levels_of_sim t _ _ Hb) as [Hown Hopp].
  assert (book_sim
    (set_sides t (map_mutate (fun q => q ++ [mkNode (next_addr b1) o1]) (o_price o1)
       (map_at (own_cmp t) [] (o_price o1) (own_levels t b1))) (opp_levels t b1) b1)
    (set_sides t (map_mutate (fun q => q ++ [mkNode (next_addr b2) (set_client c o1)]) (o_price o1)
       (map_at (own_cmp t) [] (o_price o1) (own_levels t b2))) (opp_levels t b2) b2)) as [].
  { apply set_sides_sim; [done| |done]. apply map_mutate_sim; [|by apply map_at_sim].
    intros q1 q2 Hq. apply Forall2_app; [done|]. constructor; [|constructor].
    split; [by destruct Hb|by exists c]. }
  unfold rest_order. constructor; simpl; try done; destruct Hb; congruence.
Qed.

Lemma finish_order_sim t b1 b2 r1 r2 : book_sim b1 b2 -> run_sim r1 r2 ->
  book_sim (finish_order t b1 r1).1.1 (finish_order t b2 r2).1.1 /\
  fills_sim (finish_order t b1 r1).1.2 (finish_order t b2 r2).1.2.
Proof.
  intros Hb ([c Ho] & _ & Hf). unfold finish_order. rewrite Ho. simpl.
  destruct (0 <? _)%Z; [|done]. destruct (is_limit _); [|done].
  assert (book_sim (rest_order t (r_incoming r1) b1) (rest_order t (set_client c (r_incoming r1)) b2))
    by (apply rest_order_sim; [by exists c|done]).
  destruct (_ =? _)%Z; done.
Qed.

Lemma submit_internal_sim o1 o2 res1 res2 b1 b2 env1 env2 :
  order_sim o1 o2 -> book_sim b1 b2 -> fills_sim res1 res2 ->
  outcome_rel (fun x y => book_sim x.1.1 y.1.1 /\ fills_sim x.1.2 y.1.2)
    (submitOrderInternal o1 res1 b1 env1) (submitOrderInternal o2 res2 b2 env2).
Proof.
  intros Ho Hb Hf. unfold submitOrderInternal. pose proof Ho as [c ->]. cbn [set_client o_side].
  set (t := taker_of (o_side o1)). pose proof (levels_of_sim t _ _ Hb) as [Hown Hopp].
  rewrite (Forall2_length _ _ _ Hopp), (bs_symbol _ _ Hb).
  eapply outcome_rel_bind.
  - apply match_levels_sim; [exact Hopp|]. split; [exact Ho|]. split; [by apply bs_index|done].
  - intros [opp1 r1] [opp2 r2] [Hl Hr]. cbn [outcome_rel]. simpl in Hl, Hr.
    apply finish_order_sim; [|done]. rewrite (proj1 (proj2 Hr)). by apply set_index_sim, set_sides_sim.
Qed.

Lemma unlink_level_sim p pos ls1 ls2 : levels_sim ls1 ls2 ->
  outcome_rel levels_sim (unlink_level p pos ls1) (unlink_level p pos ls2).
Proof.
  intros Hls. unfold unlink_level. destruct (map_find_sim p _ _ Hls) as [q1 q2 Hq|]; [|done].
  eapply outcome_rel_bind; [by apply of_option_rel, list_erase_sim|].
  intros q1' q2' [|n1 n2 q1'' q2'' Hn Hq']; cbn [outcome_rel]; [by apply map_erase_sim|].
  apply map_mutate_sim; [|done]. intros _ _ _. by constructor.
Qed.

Lemma unlink_sim e b1 b2 : book_sim b1 b2 -> outcome_rel book_sim (unlink e b1) (unlink e b2).
Proof.
  intros []. unfold unlink. destruct (is_buy _);
    (eapply outcome_rel_bind; [by apply unlink_level_sim|]); intros l1 l2 Hl; by constructor.
Qed.

(** Related operations on related books leave related books, or fail alike. *)
Lemma apply_op_sim {L1 L2} op1 op2 (lf1 : option (L1 -> L1)) (lf2 : option (L2 -> L2))
    b1 b2 env1 env2 l1 l2 :
  op_sim op1 op2 -> book_sim b1 b2 ->
  outcome_rel (fun x y => book_sim x.1.1.1 y.1.1.1 /\ fills_sim x.1.1.2 y.1.1.2)
    (apply_op op1 lf1 b1 env1 l1) (apply_op op2 lf2 b2 env2 l2).
Proof.
  intros Hop Hb. destruct op1 as [o1|i|r1], op2 as [o2|j|r2]; simpl in Hop; try done; simpl.
  - eapply outcome_rel_bind; [by apply submit_internal_sim|].
    by intros [[] ] [[] ] ?.
  - subst j. eapply (outcome_rel_bind (fun x y => book_sim x.1.1.1.2 y.1.1.1.2 /\ fills_sim x.1.1.2 y.1.1.2)).
    2:{ by intros [[[[] ] ] ] [[[[] ] ] ] ?. }
    unfold cancelOrder, index_get. rewrite <- (bs_index _ _ Hb).
    destruct (order_index_ b1 !! i) as [e|]; [|done].
    eapply outcome_rel_bind; [by apply book_deref_sim|]. intros x1 x2 _.
    eapply outcome_rel_bind; [by apply unlink_sim|]. intros b1' b2' Hb'. simpl.
    rewrite (bs_index _ _ Hb'). split; [by apply set_index_sim|done].
  - destruct Hop as (Hi & Hp & Hq & Ht).
    eapply (outcome_rel_bind (fun x y => book_sim x.1.1.1.2 y.1.1.1.2 /\ fills_sim x.1.1.2 y.1.1.2)).
    2:{ by intros [[[[] ] ] ] [[[[] ] ] ] ?. }
    unfold modifyOrder, index_get. rewrite <- (bs_index _ _ Hb), <- Hi.
    destruct (order_index_ b1 !! m_order_id r1) as [e|]; [|done].
    eapply outcome_rel_bind; [by apply book_deref_sim|]. intros x1 x2 [c ->].
    eapply outcome_rel_bind; [by apply unlink_sim|]. intros b1' b2' Hb'. simpl.
    eapply outcome_rel_bind.
    + apply (submit_internal_sim _ (modified_order (set_client c x1) r2)); [| |done].
      * exists c. unfold modified_order. simpl. by rewrite Hp, Hq, Ht.
      * rewrite (bs_index _ _ Hb'). by apply set_index_sim.
    + by intros [[] ] [[] ] ?.
Qed.

(** What [print_book] prints does not depend on the client ids. *)
Lemma print_book_sim b1 b2 : book_sim b1 b2 -> print_book b1 = print_book b2.
Proof.
  intros []. unfold print_book.
  assert (forall ls1 ls2, levels_sim ls1 ls2 -> print_level <$> ls1 = print_level <$> ls2) as Hp.
  { induction 1 as [|[k1 q1] [k2 q2] ls1 ls2 [Hk Hq] _ IH]; csimpl; [done|]. f_equal; [|done].
    unfold print_level; simpl in *. subst k2. rewrite (Forall2_length _ _ _ Hq). f_equal. f_equal.
    unfold qty_at_price. generalize 0%Z. induction Hq as [|n1 n2 q1 q2 [_ [c Hc]] _ IHq]; intros z; simpl; [done|].
    by rewrite Hc. }
  assert (forall ls, print_level <$> rev ls = rev (print_level <$> ls)) as Hrev.
  { induction ls as [|l ls IH]; csimpl; [done|]. by rewrite fmap_app, IH. }
  rewrite !Hrev. by rewrite (Hp _ _ bs_bids0), (Hp _ _ bs_asks0).
Qed.
