(* ===== verification/SafeQueue.v ===== *)
(** * SafeQueue: the bounded blocking queue

    [threadpool/safe_queue.hpp].  A call holds [mutex_] from its entry, or from
    its wake-up, to its next wait or its return, so each such stretch is one
    step.  A thread that waits is in the wait set of one of the two condition
    variables; [notify_one] moves one of them, chosen by the scheduler, back to
    its loop test, [notify_all] all of them, and any waiter may wake
    spuriously.  [close] sets the flag under the mutex and notifies after
    releasing it. *)

From stdpp Require Import base list gmap.
From Stdlib Require Import ZArith Lia.
From S2P Require Import Prelude.
Local Open Scope exchange_scope.

(** ** Definitions *)

Section SafeQueue.
Context {T : Type}.

Record SafeQueue : Type := mkSafeQueue {
  queue_ : list T;
  max_capacity_ : nat;
  shutdown_ : bool }.

(** [SafeQueue::SafeQueue(max_capacity)] *)
Definition new_safe_queue (max_capacity : nat) : SafeQueue := mkSafeQueue [] max_capacity false.

(** One pass over the loop of a call: it waits, or it returns a value. *)
Inductive attempt (A : Type) : Type :=
  | Waits
  | Returns (a : A).

Definition try_enqueue (item : T) (q : SafeQueue) : attempt (bool * SafeQueue) :=
  if (max_capacity_ q <=? length (queue_ q))%nat && negb (shutdown_ q) then Waits _
  else if shutdown_ q then Returns _ (false, q)
  else Returns _ (true, mkSafeQueue (queue_ q ++ [item]) (max_capacity_ q) (shutdown_ q)).

Definition try_dequeue (q : SafeQueue) : attempt (option T * SafeQueue) :=
  match queue_ q with
  | [] => if negb (shutdown_ q) then Waits _ else Returns _ (None, q)
  | item :: rest => Returns _ (Some item, mkSafeQueue rest (max_capacity_ q) (shutdown_ q))
  end.

Definition sq_size (q : SafeQueue) : nat := length (queue_ q).
Definition sq_empty (q : SafeQueue) : bool := match queue_ q with [] => true | _ => false end.

Definition set_shutdown (q : SafeQueue) : SafeQueue := mkSafeQueue (queue_ q) (max_capacity_ q) true.

(** ** Threads *)

(** A thread is at the loop test of a call, in a wait set, or done. *)
Inductive thread : Type :=
  | Enqueuing (item : T)
  | Dequeuing
  | WaitPush (item : T)
  | WaitPop
  | Enqueued (ok : bool)
  | Dequeued (item : option T).

(** [close]: not called, past the flag, past [cond_pop_.notify_all()], returned. *)
Inductive closing : Type := NotClosed | FlagSet | PopNotified | Closed.

(** [pushed] and [popped] list the items of the calls that succeeded, in order. *)
Record System : Type := mkSystem {
  sq : SafeQueue;
  threads : list thread;
  close_pc : closing;
  pushed : list T;
  popped : list T }.

Definition init_system (max_capacity : nat) : System :=
  mkSystem (new_safe_queue max_capacity) [] NotClosed [] [].

Definition waits_pop (t : thread) : bool := match t with WaitPop => true | _ => false end.
Definition waits_push (t : thread) : bool := match t with WaitPush _ => true | _ => false end.
Definition at_dequeue (t : thread) : bool := match t with Dequeuing => true | _ => false end.
Definition at_enqueue (t : thread) : bool := match t with Enqueuing _ => true | _ => false end.

(** Back to the loop test. *)
Definition wake (t : thread) : thread :=
  match t with WaitPush item => Enqueuing item | WaitPop => Dequeuing | _ => t end.

(** [notify_one] on the wait set [f]: the scheduler proposes [who]; [None] when
    the proposal is not a waiter although there is one. *)
Definition notify_one (f : thread -> bool) (who : nat) (ts : list thread) : option (list thread) :=
  match ts !! who with
  | Some t =>
      if f t then Some (<[ who := wake t ]> ts)
      else if existsb f ts then None else Some ts
  | None => if existsb f ts then None else Some ts
  end.

Definition notify_all (f : thread -> bool) (ts : list thread) : list thread :=
  (fun t => if f t then wake t else t) <$> ts.

Inductive action : Type :=
  | A_enqueue (item : T)        (* a thread calls enqueue *)
  | A_dequeue                   (* a thread calls dequeue *)
  | A_run (i who : nat)         (* thread i runs to its next wait or return *)
  | A_spurious (i : nat)        (* thread i wakes without a notification *)
  | A_close.                    (* the next part of close *)

Definition run_thread (i who : nat) (t : thread) (s : System) : option System :=
  match t with
  | Enqueuing item =>
      match try_enqueue item (sq s) with
      | Waits _ => Some (mkSystem (sq s) (<[ i := WaitPush item ]> (threads s)) (close_pc s) (pushed s) (popped s))
      | Returns _ (ok, q) =>
          let ts := <[ i := Enqueued ok ]> (threads s) in
          if ok then
            match notify_one waits_pop who ts with
            | Some ts => Some (mkSystem q ts (close_pc s) (pushed s ++ [item]) (popped s))
            | None => None
            end
          else Some (mkSystem q ts (close_pc s) (pushed s) (popped s))
      end
  | Dequeuing =>
      match try_dequeue (sq s) with
      | Waits _ => Some (mkSystem (sq s) (<[ i := WaitPop ]> (threads s)) (close_pc s) (pushed s) (popped s))
      | Returns _ (r, q) =>
          let ts := <[ i := Dequeued r ]> (threads s) in
          match r with
          | Some item =>
              match notify_one waits_push who ts with
              | Some ts => Some (mkSystem q ts (close_pc s) (pushed s) (popped s ++ [item]))
              | None => None
              end
          | None => Some (mkSystem q ts (close_pc s) (pushed s) (popped s))
          end
      end
  | _ => None
  end.

Definition close_step (s : System) : option System :=
  match close_pc s with
  | NotClosed => Some (mkSystem (set_shutdown (sq s)) (threads s) FlagSet (pushed s) (popped s))
  | FlagSet => Some (mkSystem (sq s) (notify_all waits_pop (threads s)) PopNotified (pushed s) (popped s))
  | PopNotified => Some (mkSystem (sq s) (notify_all waits_push (threads s)) Closed (pushed s) (popped s))
  | Closed => None
  end.

Definition qstep (a : action) (s : System) : option System :=
  match a with
  | A_enqueue item =>
      Some (mkSystem (sq s) (threads s ++ [Enqueuing item]) (close_pc s) (pushed s) (popped s))
  | A_dequeue =>
      Some (mkSystem (sq s) (threads s ++ [Dequeuing]) (close_pc s) (pushed s) (popped s))
  | A_run i who => threads s !! i ≫= fun t => run_thread i who t s
  | A_spurious i =>
      match threads s !! i with
      | Some t =>
          if waits_pop t || waits_push t
          then Some (mkSystem (sq s) (<[ i := wake t ]> (threads s)) (close_pc s) (pushed s) (popped s))
          else None
      | None => None
      end
  | A_close => close_step s
  end.

Definition sq_step (s s' : System) : Prop := exists a, qstep a s = Some s'.

Definition sq_reachable (cap : nat) : System -> Prop :=
  reachable (fun s => s = init_system cap) sq_step.

Fixpoint qrun (acts : list action) (s : System) : option System :=
  match acts with
  | [] => Some s
  | a :: acts => qstep a s ≫= qrun acts
  end.

(** ** The invariant *)

Definition count (f : thread -> bool) (ts : list thread) : nat := length (List.filter f ts).

(** Sleepers have enough runners to pass the wake-up on: if a thread sleeps on
    an empty queue, every item present has a dequeuer at its test; if a thread
    sleeps on a full queue that is not shut down, every free slot has an
    enqueuer at its test. *)
Record sq_inv (cap : nat) (s : System) : Prop := mkSqInv {
  qi_cap : max_capacity_ (sq s) = cap;
  qi_bound : (length (queue_ (sq s)) <= cap)%nat;
  qi_items : pushed s = popped s ++ queue_ (sq s);
  qi_flag : shutdown_ (sq s) = match close_pc s with NotClosed => false | _ => true end;
  qi_pop : (0 < count waits_pop (threads s))%nat ->
    (length (queue_ (sq s)) <= count at_dequeue (threads s))%nat;
  qi_push : (0 < count waits_push (threads s))%nat -> shutdown_ (sq s) = false ->
    (cap - length (queue_ (sq s)) <= count at_enqueue (threads s))%nat;
  qi_closed_pop : close_pc s = PopNotified \/ close_pc s = Closed -> count waits_pop (threads s) = 0;
  qi_closed_push : close_pc s = Closed -> count waits_push (threads s) = 0 }.
End SafeQueue.

Arguments SafeQueue T : clear implicits.
Arguments System T : clear implicits.
Arguments thread T : clear implicits.
Arguments action T : clear implicits.

(** ** Counting threads *)

Section Facts.
Context {T : Type}.
Implicit Types (s : System T) (ts : list (thread T)).

Lemma count_app (f : thread T -> bool) ts1 ts2 : count f (ts1 ++ ts2) = count f ts1 + count f ts2.
Proof. unfold count. by rewrite List.filter_app, length_app. Qed.

Lemma count_cons (f : thread T -> bool) t ts :
  count f (t :: ts) = (if f t then 1 else 0) + count f ts.
Proof. unfold count. simpl. by destruct (f t). Qed.

(** Replacing one thread changes the counts by that thread. *)
Lemma count_insert (f : thread T -> bool) ts i t t' : ts !! i = Some t ->
  count f (<[ i := t' ]> ts) + (if f t then 1 else 0) = count f ts + (if f t' then 1 else 0).
Proof.
  intros Hi. rewrite <- (take_drop_middle _ _ _ Hi) at 2.
  rewrite insert_take_drop by by eapply lookup_lt_Some.
  rewrite !count_app, !count_cons. lia.
Qed.

Lemma count_zero (f : thread T -> bool) ts : count f ts = 0 <-> existsb f ts = false.
Proof.
  induction ts as [|t ts IH]; [done|]. rewrite count_cons. simpl. destruct (f t); simpl; [lia|].
  rewrite <- IH. lia.
Qed.

Lemma count_snoc (f : thread T -> bool) ts t :
  count f (ts ++ [t]) = count f ts + (if f t then 1 else 0).
Proof. rewrite count_app. unfold count at 2. simpl. by destruct (f t). Qed.

(** [notify_one] wakes a waiter if there is one and changes nothing otherwise. *)
Lemma notify_one_spec (f : thread T -> bool) who ts ts' : notify_one f who ts = Some ts' ->
  (count f ts = 0 /\ ts' = ts) \/
  (exists t, ts !! who = Some t /\ f t = true /\ ts' = <[ who := wake t ]> ts).
Proof.
  unfold notify_one. destruct (ts !! who) as [t|] eqn:Et.
  - destruct (f t) eqn:Ef.
    + intros [= <-]. right. eauto.
    + destruct (existsb f ts) eqn:Ex; [done|]. intros [= <-]. left. by rewrite count_zero.
  - destruct (existsb f ts) eqn:Ex; [done|]. intros [= <-]. left. by rewrite count_zero.
Qed.

Lemma count_notify_all (f g : thread T -> bool) ts :
  (forall t, f t = true -> g t = false /\ g (wake t) = false) ->
  count g (notify_all f ts) = count g ts.
Proof.
  intros Hfg. induction ts as [|t ts IH]; [done|]. unfold notify_all in *. csimpl.
  rewrite !count_cons, IH. destruct (f t) eqn:E; [|done]. by destruct (Hfg t E) as [-> ->].
Qed.

Lemma count_notify_gone (f : thread T -> bool) ts :
  (forall t, f (wake t) = false) -> count f (notify_all f ts) = 0.
Proof.
  intros Hf. induction ts as [|t ts IH]; [done|]. unfold notify_all in *. csimpl.
  rewrite count_cons, IH. destruct (f t) eqn:E; [by rewrite Hf|by rewrite E].
Qed.

Lemma count_notify_le (f g : thread T -> bool) ts :
  (forall t, g t = true -> f t = false) -> (count g ts <= count g (notify_all f ts))%nat.
Proof.
  intros Hfg. induction ts as [|t ts IH]; [done|]. unfold notify_all in *. csimpl.
  rewrite !count_cons. destruct (f t) eqn:E; destruct (g t) eqn:G; simpl; try lia.
  by rewrite Hfg in E.
Qed.

(** The four counts after thread [i] became [t']. *)
Ltac counts Hi t' :=
  let H1 := fresh "Hc" in let H2 := fresh "Hc" in let H3 := fresh "Hc" in let H4 := fresh "Hc" in
  pose proof (count_insert waits_pop _ _ _ t' Hi) as H1;
  pose proof (count_insert waits_push _ _ _ t' Hi) as H2;
  pose proof (count_insert at_dequeue _ _ _ t' Hi) as H3;
  pose proof (count_insert at_enqueue _ _ _ t' Hi) as H4;
  cbn [waits_pop waits_push at_dequeue at_enqueue wake] in H1, H2, H3, H4.

(** The counts after a notification of the pop or of the push waiters. *)
Lemma notify_pop_counts who ts ts' : notify_one waits_pop who ts = Some ts' ->
  count waits_push ts' = count waits_push ts /\ count at_enqueue ts' = count at_enqueue ts /\
  ((count waits_pop ts = 0 /\ count waits_pop ts' = 0 /\ count at_dequeue ts' = count at_dequeue ts) \/
   (count waits_pop ts = S (count waits_pop ts') /\ count at_dequeue ts' = S (count at_dequeue ts))).
Proof.
  intros [[H0 ->]|(t & Ht & Hf & ->)]%notify_one_spec; [auto 10|].
  destruct t; try done. counts Ht (@Dequeuing T). simpl wake. split_and!; [lia..|right; lia].
Qed.

Lemma notify_push_counts who ts ts' : notify_one waits_push who ts = Some ts' ->
  count waits_pop ts' = count waits_pop ts /\ count at_dequeue ts' = count at_dequeue ts /\
  ((count waits_push ts = 0 /\ count waits_push ts' = 0 /\ count at_enqueue ts' = count at_enqueue ts) \/
   (count waits_push ts = S (count waits_push ts') /\ count at_enqueue ts' = S (count at_enqueue ts))).
Proof.
  intros [[H0 ->]|(t & Ht & Hf & ->)]%notify_one_spec; [auto 10|].
  destruct t as [| |item| | |]; try done. counts Ht (Enqueuing item). simpl wake.
  split_and!; [lia..|right; lia].
Qed.

Lemma init_sq_inv cap : sq_inv cap (init_system (T:=T) cap).
Proof. constructor; simpl; try done; unfold count; simpl; lia. Qed.

Lemma run_thread_inv cap i who t s s' :
  sq_inv cap s -> threads s !! i = Some t -> run_thread i who t s = Some s' -> sq_inv cap s'.
Proof.
  intros [Hcap Hb Hit Hfl Hpop Hpush Hcp Hcq] Hi.
  destruct t as [item| | | | |]; simpl; try done.
  - unfold try_enqueue. rewrite Hcap. destruct (Nat.leb_spec cap (length (queue_ (sq s)))) as [Hle|Hlt];
      destruct (shutdown_ (sq s)) eqn:Es; simpl.
    + counts Hi (@Enqueued T false). intros [= <-]. constructor; simpl; try done; rewrite ?Es; try done; try lia.
      * intros Hc'. apply Hcp in Hc'. lia.
      * intros Hc'. apply Hcq in Hc'. lia.
    + counts Hi (WaitPush item). intros [= <-]. constructor; simpl; try done; rewrite ?Es; try done; try lia;
        intros Hc'; exfalso; destruct (close_pc s); naive_solver.
    + counts Hi (@Enqueued T false). intros [= <-]. constructor; simpl; try done; rewrite ?Es; try done; try lia.
      * intros Hc'. apply Hcp in Hc'. lia.
      * intros Hc'. apply Hcq in Hc'. lia.
    + destruct (notify_one _ _ _) as [ts'|] eqn:En; [|done]. intros [= <-].
      counts Hi (@Enqueued T true). apply notify_pop_counts in En.
      constructor; simpl; rewrite ?length_app; simpl; try done; try lia.
      * by rewrite Hit, app_assoc.
      * intros Hc'. exfalso. destruct (close_pc s); naive_solver.
      * intros Hc'. exfalso. destruct (close_pc s); naive_solver.
  - unfold try_dequeue. destruct (queue_ (sq s)) as [|item rest] eqn:Eq.
    + destruct (shutdown_ (sq s)) eqn:Es; simpl.
      * counts Hi (@Dequeued T None). intros [= <-]. constructor; simpl; rewrite ?Eq, ?Es; simpl; try done; try lia.
        -- intros Hc'. apply Hcp in Hc'. lia.
        -- intros Hc'. apply Hcq in Hc'. lia.
      * counts Hi (@WaitPop T). intros [= <-]. constructor; simpl; rewrite ?Eq, ?Es; simpl; try done; try lia.
        -- intros Hw Hs. simpl in Hpush. specialize (Hpush ltac:(lia) Hs). lia.
        -- intros Hc'. exfalso. destruct (close_pc s); naive_solver.
        -- intros Hc'. exfalso. destruct (close_pc s); naive_solver.
    + destruct (notify_one _ _ _) as [ts'|] eqn:En; [|done]. intros [= <-].
      counts Hi (Dequeued (Some item)). apply notify_push_counts in En. simpl in Hb, Hpop, Hpush.
      constructor; simpl; try done; try lia.
      * by rewrite Hit, <- app_assoc.
      * intros Hw Hs. specialize (Hpush ltac:(lia) Hs). lia.
      * intros Hc'. apply Hcp in Hc'. lia.
      * intros Hc'. apply Hcq in Hc'. lia.
Qed.

Lemma wake_inv cap i t s : sq_inv cap s -> threads s !! i = Some t ->
  waits_pop t || waits_push t = true ->
  sq_inv cap (mkSystem (sq s) (<[ i := wake t ]> (threads s)) (close_pc s) (pushed s) (popped s)).
Proof.
  intros [Hcap Hb Hit Hfl Hpop Hpush Hcp Hcq] Hi Hw.
  destruct t as [| |item| | |]; try done; [counts Hi (Enqueuing item)|counts Hi (@Dequeuing T)];
    constructor; simpl; try done; try lia;
    intros Hc'; first [apply Hcp in Hc'; lia | apply Hcq in Hc'; lia | intros Hs; specialize (Hpush ltac:(lia) Hs); lia].
Qed.

Lemma close_step_inv cap s s' : sq_inv cap s -> close_step s = Some s' -> sq_inv cap s'.
Proof.
  intros [Hcap Hb Hit Hfl Hpop Hpush Hcp Hcq]. unfold close_step.
  assert (count waits_pop (notify_all waits_pop (threads s)) = 0) as Hp0
    by (apply count_notify_gone; by intros []).
  assert (count waits_push (notify_all waits_push (threads s)) = 0) as Hq0
    by (apply count_notify_gone; by intros []).
  assert (count waits_push (notify_all waits_pop (threads s)) = count waits_push (threads s)) as Hpq
    by (apply count_notify_all; by intros []).
  assert (count waits_pop (notify_all waits_push (threads s)) = count waits_pop (threads s)) as Hqp
    by (apply count_notify_all; by intros []).
  assert (shutdown_ (sq s) = false \/ shutdown_ (sq s) = true) as Hs by (destruct (shutdown_ _); auto).
  destruct (close_pc s) eqn:Ec; intros [= <-]; constructor; simpl; try done; rewrite ?Hp0, ?Hq0; try lia;
    try congruence; try (by intros [|]).
  - rewrite Hqp. intros Hw. exfalso. rewrite Hcp in Hw by auto. lia.
  - rewrite Hqp. auto.
Qed.

Lemma qstep_inv cap a s s' : sq_inv cap s -> qstep a s = Some s' -> sq_inv cap s'.
Proof.
  intros Hinv. destruct a as [item| |i who|i|]; simpl.
  - intros [= <-]. destruct Hinv as [Hcap Hb Hit Hfl Hpop Hpush Hcp Hcq].
    constructor; simpl; try done; rewrite ?count_snoc; simpl; rewrite ?Nat.add_0_r; auto.
    intros Hw Hs. specialize (Hpush Hw Hs). lia.
  - intros [= <-]. destruct Hinv as [Hcap Hb Hit Hfl Hpop Hpush Hcp Hcq].
    constructor; simpl; try done; rewrite ?count_snoc; simpl; rewrite ?Nat.add_0_r; auto.
    intros Hw. specialize (Hpop Hw). lia.
  - destruct (threads s !! i) as [t|] eqn:Hi; simpl; [|done]. by apply run_thread_inv.
  - destruct (threads s !! i) as [t|] eqn:Hi; simpl; [|done].
    destruct (waits_pop t || waits_push t) eqn:Hw; [|done]. intros [= <-]. by apply wake_inv.
  - by apply close_step_inv.
Qed.

Lemma sq_reachable_inv cap s : sq_reachable cap s -> sq_inv cap s.
Proof.
  apply reachable_invariant; [intros ? ->; apply init_sq_inv|]. intros s1 s2 Hi [a Ha]. by eapply qstep_inv.
Qed.

(** ** Progress *)

(** Every thread at its loop test can run: it proposes a waiter if there is one. *)
Lemma notify_one_exists (f : thread T -> bool) ts : exists who ts', notify_one f who ts = Some ts'.
Proof.
  destruct (existsb f ts) eqn:E.
  - apply existsb_exists in E as (t & Hin & Hf). apply list_elem_of_In, list_elem_of_lookup in Hin as [who Ht].
    exists who. unfold notify_one. rewrite Ht, Hf. eauto.
  - exists 0. unfold notify_one. rewrite E. destruct (ts !! 0) as [t|] eqn:Et; [|eauto].
    destruct (f t) eqn:Ef; [|eauto]. eauto.
Qed.

Lemma count_pos (f : thread T -> bool) ts : (0 < count f ts)%nat -> exists i t, ts !! i = Some t /\ f t = true.
Proof.
  intros Hc. destruct (existsb f ts) eqn:E; [|apply count_zero in E; lia].
  apply existsb_exists in E as (t & Hin & Hf). apply list_elem_of_In, list_elem_of_lookup in Hin as [i Ht]. eauto.
Qed.

Lemma run_dequeuing s i item rest : threads s !! i = Some Dequeuing -> queue_ (sq s) = item :: rest ->
  exists who s', qstep (A_run i who) s = Some s' /\ popped s' = popped s ++ [item].
Proof.
  intros Hi Hq. destruct (notify_one_exists waits_push (<[ i := Dequeued (Some item) ]> (threads s)))
    as (who & ts' & Hn).
  exists who. simpl. rewrite Hi. simpl. unfold try_dequeue. rewrite Hq, Hn. eauto.
Qed.

Lemma run_enqueuing s i item : threads s !! i = Some (Enqueuing item) ->
  (length (queue_ (sq s)) < max_capacity_ (sq s))%nat -> shutdown_ (sq s) = false ->
  exists who s', qstep (A_run i who) s = Some s' /\ pushed s' = pushed s ++ [item].
Proof.
  intros Hi Hl Hs. destruct (notify_one_exists waits_pop (<[ i := Enqueued true ]> (threads s)))
    as (who & ts' & Hn).
  exists who. simpl. rewrite Hi. simpl. unfold try_enqueue. rewrite (proj2 (Nat.leb_gt _ _) Hl), Hs.
  simpl. rewrite Hn. eauto.
Qed.

(** After the shutdown flag no call waits: each returns when it runs. *)
Lemma run_after_shutdown s i t : threads s !! i = Some t -> shutdown_ (sq s) = true ->
  at_enqueue t || at_dequeue t = true ->
  exists who s', qstep (A_run i who) s = Some s' /\
    match threads s' !! i with Some (Enqueued false) | Some (Dequeued _) => True | _ => False end.
Proof.
  intros Hi Hs Ht. destruct t as [item| | | | |]; try done.
  - exists 0. simpl. rewrite Hi. simpl. unfold try_enqueue. rewrite Hs, andb_false_r.
    eexists. split; [done|]. simpl. by rewrite list_lookup_insert_eq by by eapply lookup_lt_Some.
  - destruct (queue_ (sq s)) as [|item rest] eqn:Eq.
    + exists 0. simpl. rewrite Hi. simpl. unfold try_dequeue. rewrite Eq, Hs. simpl.
      eexists. split; [done|]. simpl. by rewrite list_lookup_insert_eq by by eapply lookup_lt_Some.
    + destruct (notify_one_exists waits_push (<[ i := Dequeued (Some item) ]> (threads s)))
        as (who & ts' & Hn).
      exists who. simpl. rewrite Hi. simpl. unfold try_dequeue. rewrite Eq, Hn.
      eexists. split; [done|]. simpl.
      assert ((<[ i := Dequeued (Some item) ]> (threads s)) !! i = Some (Dequeued (Some item))) as Hii
        by by rewrite list_lookup_insert_eq by by eapply lookup_lt_Some.
      apply notify_one_spec in Hn as [[_ ->]|(t & Ht' & Hw & ->)]; [by rewrite Hii|].
      rewrite list_lookup_insert_ne; [by rewrite Hii|]. intros ->. rewrite Hii in Ht'.
      by injection Ht' as <-.
Qed.
End Facts.

(** A consumer sleeps, two producers fill a queue of one slot, the consumer is
    notified; then the queue is closed. *)
Definition w_sq_actions : list (action nat) :=
  [A_dequeue; A_run 0 0; A_enqueue 7; A_enqueue 8; A_run 1 0; A_run 2 0; A_run 0 2; A_run 2 5;
   A_dequeue; A_run 3 9; A_dequeue; A_run 4 9].

Lemma qrun_reachable {T} cap (acts : list (action T)) : forall s s',
  sq_reachable cap s -> qrun acts s = Some s' -> sq_reachable cap s'.
Proof.
  induction acts as [|a acts IH]; intros s s' Hr; simpl; [by intros [= <-]|].
  destruct (qstep a s) as [s1|] eqn:Ha; simpl; [|done]. apply IH. eapply reach_step; [exact Hr|by exists a].
Qed.

Lemma w_sq_run : exists s, qrun w_sq_actions (init_system 1) = Some s /\
  threads s = [Dequeued (Some 7); Enqueued true; Enqueued true; Dequeued (Some 8); WaitPop].
Proof. eexists. split; [vm_compute; reflexivity|reflexivity]. Qed.

(** ** Properties *)

(** C22: the queue never holds more than its capacity, and what was dequeued is a
    prefix of what was enqueued, in order: nothing lost, duplicated or reordered,
    whatever the threads, the scheduler and spurious wake-ups do. *)
Theorem safe_queue_bounded_fifo {T} cap (s : System T) :
  sq_reachable cap s ->
  (length (queue_ (sq s)) <= cap)%nat /\ pushed s = popped s ++ queue_ (sq s).
Proof. intros []%sq_reachable_inv. done. Qed.

Lemma safe_queue_bounded_fifo_witness : exists s : System nat,
  sq_reachable 1 s /\ (length (queue_ (sq s)) <= 1)%nat /\ pushed s = popped s ++ queue_ (sq s).
Proof.
  destruct w_sq_run as (s & Hs & _). exists s.
  assert (sq_reachable 1 s) as Hr by (eapply qrun_reachable; [apply reach_init; reflexivity|exact Hs]).
  split; [exact Hr|]. exact (safe_queue_bounded_fifo 1 s Hr).
Defined.

(** C14: no lost wake-up: while a thread sleeps in [dequeue] and an item is there,
    some dequeuer is awake and takes the next item when it runs; while a thread
    sleeps in [enqueue] of an open queue with room, some enqueuer is awake and
    adds its item when it runs. *)
Theorem safe_queue_no_lost_wakeup {T} cap (s : System T) :
  sq_reachable cap s ->
  (WaitPop ∈ threads s -> queue_ (sq s) <> [] ->
     exists i who s' item, threads s !! i = Some Dequeuing /\ qstep (A_run i who) s = Some s' /\
       head (queue_ (sq s)) = Some item /\ popped s' = popped s ++ [item]) /\
  (forall item, WaitPush item ∈ threads s -> (length (queue_ (sq s)) < cap)%nat ->
     shutdown_ (sq s) = false ->
     exists i who s' item', threads s !! i = Some (Enqueuing item') /\
       qstep (A_run i who) s = Some s' /\ pushed s' = pushed s ++ [item']).
Proof.
  intros [Hcap _ _ _ Hpop Hpush _ _]%sq_reachable_inv.
  assert (forall (f : thread T -> bool) t, t ∈ threads s -> f t = true -> (0 < count f (threads s))%nat) as Hpos.
  { intros f t Hin Hf. destruct (decide (count f (threads s) = 0)) as [E|]; [|lia].
    apply count_zero in E. apply list_elem_of_In in Hin.
    assert (existsb f (threads s) = true) by (apply existsb_exists; eauto). congruence. }
  split.
  - intros Hin Hq. destruct (queue_ (sq s)) as [|item rest] eqn:Eq; [done|].
    pose proof (Hpop (Hpos waits_pop _ Hin eq_refl)) as Hc. simpl in Hc.
    destruct (count_pos at_dequeue (threads s)) as (i & t & Hi & Ht); [lia|].
    destruct t; try done. destruct (run_dequeuing s i item rest Hi Eq) as (who & s' & Hs & Hp).
    exists i, who, s', item. done.
  - intros item Hin Hl Hs. pose proof (Hpush (Hpos waits_push _ Hin eq_refl) Hs) as Hc.
    destruct (count_pos at_enqueue (threads s)) as (i & t & Hi & Ht); [lia|].
    destruct t as [item'| | | | |]; try done. rewrite <- Hcap in Hl.
    destruct (run_enqueuing s i item' Hi Hl Hs) as (who & s' & Hst & Hp). exists i, who, s', item'. done.
Qed.

Lemma w_sq_run2 : exists s,
  qrun (w_sq_actions ++ [A_dequeue; A_run 5 0; A_enqueue 9; A_run 6 4]) (init_system 1) = Some s /\
  threads s !! 5 = Some WaitPop /\ queue_ (sq s) = [9].
Proof. eexists. split; [vm_compute; reflexivity|done]. Qed.

Lemma safe_queue_no_lost_wakeup_witness : exists s : System nat,
  sq_reachable 1 s /\
     exists i who s' item, threads s !! i = Some Dequeuing /\ qstep (A_run i who) s = Some s' /\
       head (queue_ (sq s)) = Some item /\ popped s' = popped s ++ [item].
Proof.
  destruct w_sq_run2 as (s & Hs & Ht & Hq). exists s.
  assert (sq_reachable 1 s) as Hr by (eapply qrun_reachable; [apply reach_init; reflexivity|exact Hs]).
  split; [exact Hr|].
  apply (proj1 (safe_queue_no_lost_wakeup 1 s Hr)); [exact (list_elem_of_lookup_2 _ _ _ Ht)|].
  rewrite Hq. discriminate.
Defined.

(** C23: once [close] has returned no thread sleeps, none will, and every call
    still at its loop test returns when it runs: an [enqueue] with false, a
    [dequeue] with an item left in the queue or with nothing. *)
Theorem safe_queue_close_releases {T} cap (s : System T) :
  sq_reachable cap s -> close_pc s = Closed ->
  (forall i t, threads s !! i = Some t -> waits_pop t = false /\ waits_push t = false) /\
  (forall i t, threads s !! i = Some t -> at_enqueue t || at_dequeue t = true ->
     exists who s', qstep (A_run i who) s = Some s' /\
       match threads s' !! i with Some (Enqueued false) | Some (Dequeued _) => True | _ => False end).
Proof.
  intros [_ _ _ Hfl _ _ Hcp Hcq]%sq_reachable_inv Hc. rewrite Hc in Hfl. split.
  - intros i t Hi. assert (forall (f : thread T -> bool), count f (threads s) = 0 -> f t = false) as Hz.
    { intros f Hf%count_zero. destruct (f t) eqn:E; [|done].
      assert (existsb f (threads s) = true); [|congruence].
      apply existsb_exists. exists t. split; [|done]. apply list_elem_of_In. by eapply list_elem_of_lookup_2. }
    split; apply Hz; auto.
  - intros i t Hi Ht. by apply run_after_shutdown with t.
Qed.

Lemma w_sq_closed : exists s, qrun (w_sq_actions ++ [A_close; A_close; A_close]) (init_system 1) = Some s /\
  close_pc s = Closed /\ threads s !! 4 = Some Dequeuing.
Proof. eexists. split; [vm_compute; reflexivity|done]. Qed.

Lemma safe_queue_close_releases_witness : exists s : System nat,
  sq_reachable 1 s /\ close_pc s = Closed /\ threads s !! 4 = Some Dequeuing /\
  exists who s', qstep (A_run 4 who) s = Some s' /\
    match threads s' !! 4 with Some (Enqueued false) | Some (Dequeued _) => True | _ => False end.
Proof.
  destruct w_sq_closed as (s & Hs & Hc & Ht). exists s.
  assert (sq_reachable 1 s) as Hr by (eapply qrun_reachable; [apply reach_init; reflexivity|exact Hs]).
  split; [exact Hr|]. split; [exact Hc|]. split; [exact Ht|].
  exact (proj2 (safe_queue_close_releases 1 s Hr Hc) 4 Dequeuing Ht eq_refl).
Defined.
