(* ===== verification/Wal.v ===== *)
(** * WAL: the write-ahead log

    [pipeline/wal_event.hpp], [pipeline/wal.hpp] and [pipeline/wal.cpp].  A log
    record is one type byte and a union of the packed structs.  The log is
    proved against the queue interface of [Fifo], which [MPSCQueue] implements:
    first the calls of one thread, then any number of logging threads
    interleaved with the flusher and with [stop]. *)

From stdpp Require Import base list gmap strings.
From Stdlib Require Import ZArith Lia Ascii.
From S2P Require Import Prelude Types Bytes BinarySerializer SerializerTheorems Fifo.
Local Open Scope exchange_scope.
Local Open Scope list_scope.

(** ** Records *)

Inductive WALEventType : Type :=
  | WSubmit
  | WCancel
  | WModify
  | WFill
  | WALEventType_unnamed (v : Z).

Definition WALEventType_to_u8 (t : WALEventType) : Z :=
  match t with
  | WSubmit => 1 | WCancel => 2 | WModify => 3 | WFill => 4
  | WALEventType_unnamed v => v
  end.

Definition WALEventType_of_u8 (v : Z) : WALEventType :=
  if (v =? 1)%Z then WSubmit else if (v =? 2)%Z then WCancel
  else if (v =? 3)%Z then WModify else if (v =? 4)%Z then WFill
  else WALEventType_unnamed v.

Record NetFill : Type := mkNetFill {
  nf_trade_id : Z;
  nf_buy_order_id : Z;
  nf_sell_order_id : Z;
  nf_symbol : list ascii;      (* char[8] *)
  nf_price : Z;
  nf_quantity : Z;
  nf_timestamp : Z }.

#[export] Instance NetFill_Packed : Packed NetFill := {
  sizeof := 52;
  pack n := le_encode 8 (nf_trade_id n) ++ le_encode 8 (nf_buy_order_id n) ++
    le_encode 8 (nf_sell_order_id n) ++ nf_symbol n ++ le_encode 8 (nf_price n) ++
    le_encode 4 (nf_quantity n) ++ le_encode 8 (nf_timestamp n);
  unpack bs :=
    let '(tid, bs) := read_le 8 bs in
    let '(bid, bs) := read_le 8 bs in
    let '(sid, bs) := read_le 8 bs in
    let '(sym, bs) := read_chars 8 bs in
    let '(px, bs) := read_le 8 bs in
    let '(qty, bs) := read_le 4 bs in
    let '(ts, bs) := read_le 8 bs in
    mkNetFill tid bid sid sym px qty ts;
  fields_ok n := fits 8 (nf_trade_id n) /\ fits 8 (nf_buy_order_id n) /\ fits 8 (nf_sell_order_id n) /\
    length (nf_symbol n) = 8 /\ fits 8 (nf_price n) /\ fits 4 (nf_quantity n) /\ fits 8 (nf_timestamp n) }.

#[export] Instance NetFill_Laws : PackedLaws NetFill.
Proof. packed_laws NetFill_Packed. Qed.

(** [data] is the union: the bytes of its largest member, [NetFill]. *)
Record WALEntry : Type := mkWALEntry {
  we_type : Z;
  we_data : list ascii }.

#[export] Instance WALEntry_Packed : Packed WALEntry := {
  sizeof := 53;
  pack e := le_encode 1 (we_type e) ++ we_data e;
  unpack bs :=
    let '(ty, bs) := read_le 1 bs in
    let '(data, bs) := read_chars 52 bs in
    mkWALEntry ty data;
  fields_ok e := fits 1 (we_type e) /\ length (we_data e) = 52 }.

#[export] Instance WALEntry_Laws : PackedLaws WALEntry.
Proof. packed_laws WALEntry_Packed. Qed.

#[export] Instance WALEntry_eq_dec : EqDecision WALEntry.
Proof. solve_decision. Defined.

(** Storing a member of the union leaves the bytes past it as they were. *)
Definition set_member {A : Type} `{Packed A} (a : A) (data : list ascii) : list ascii :=
  pack a ++ drop (sizeof A) data.

(** ** The records of the four events

    [entry] is an uninitialised local: [u] is the content of its union, [v] that
    of the array of the temporary [BinarySerializer::to_net] fills. *)

Definition order_entry (u v : list ascii) (order : Order) : WALEntry :=
  mkWALEntry (WALEventType_to_u8 WSubmit) (set_member (to_net_order v order) u).

Definition cancel_entry (u : list ascii) (req : CancelRequest) : WALEntry :=
  mkWALEntry (WALEventType_to_u8 WCancel)
    (set_member
      (mkNetCancel (c_order_id req) (safe_strncpy (nc_symbol (unpack u)) (c_symbol req) 8)
         (c_timestamp req)) u).

Definition modify_entry (u : list ascii) (req : ModifyRequest) : WALEntry :=
  mkWALEntry (WALEventType_to_u8 WModify)
    (set_member
      (mkNetModify (m_order_id req) (safe_strncpy (nm_symbol (unpack u)) (m_symbol req) 8)
         (m_price req) (m_quantity req) (m_timestamp req)) u).

Definition fill_entry (u : list ascii) (fill : Fill) : WALEntry :=
  mkWALEntry (WALEventType_to_u8 WFill)
    (set_member
      (mkNetFill (f_trade_id fill) (f_buy_order_id fill) (f_sell_order_id fill)
         (safe_strncpy (nf_symbol (unpack u)) (f_symbol fill) 8)
         (f_price fill) (f_quantity fill) (f_timestamp fill)) u).

(** What a file holding the records [es] contains. *)
Definition wal_bytes (es : list WALEntry) : list ascii := concat (pack <$> es).

(** ** The log *)

Section Wal.
Context {Q : Type} `{Fifo Q WALEntry}.

Record WAL : Type := mkWAL {
  file_open : bool;                (* file_stream_.is_open() *)
  disk : list ascii;               (* the contents of the file *)
  queue_ : Q;
  running_ : bool;
  flush_thread_ : bool }.          (* joinable() *)

(** [WAL::WAL(path)] for a file that holds [contents]. *)
Definition new_wal (contents : list ascii) : WAL := mkWAL false contents fifo_new false false.

(** [WAL::start]; [opens] is whether the file can be opened, for appending. *)
Definition start (opens : bool) (w : WAL) : WAL :=
  if running_ w then w
  else if opens then mkWAL true (disk w) (queue_ w) true true
  else w.

(** [while (running_ && !queue_.enqueue(entry)) yield();] *)
Fixpoint log_loop (fuel : nat) (entry : WALEntry) (w : WAL) : outcome WAL :=
  match fuel with
  | O => Fault OutOfFuel
  | S fuel =>
      if running_ w then
        let* (ok, q) := fifo_enqueue entry (queue_ w) in
        let w := mkWAL (file_open w) (disk w) q (running_ w) (flush_thread_ w) in
        if ok then Ok w else log_loop fuel entry w
      else Ok w
  end.

(** The common shape of [log_order], [log_cancel], [log_modify], [log_fill]. *)
Definition log_entry (fuel : nat) (entry : WALEntry) (w : WAL) : outcome WAL :=
  if negb (running_ w) then Ok w else log_loop fuel entry w.

Definition log_order (fuel : nat) (u v : list ascii) (order : Order) : WAL -> outcome WAL :=
  log_entry fuel (order_entry u v order).
Definition log_cancel (fuel : nat) (u : list ascii) (req : CancelRequest) : WAL -> outcome WAL :=
  log_entry fuel (cancel_entry u req).
Definition log_modify (fuel : nat) (u : list ascii) (req : ModifyRequest) : WAL -> outcome WAL :=
  log_entry fuel (modify_entry u req).
Definition log_fill (fuel : nat) (u : list ascii) (fill : Fill) : WAL -> outcome WAL :=
  log_entry fuel (fill_entry u fill).

(** [WAL::flush_loop]; each turn writes and flushes one record or sleeps. *)
Fixpoint flush_loop (fuel : nat) (w : WAL) : outcome WAL :=
  match fuel with
  | O => Fault OutOfFuel
  | S fuel =>
      let* empty := fifo_empty (queue_ w) in
      if running_ w || negb empty then
        let* (entry_opt, q) := fifo_dequeue (queue_ w) in
        let written := match entry_opt with Some entry => pack entry | None => [] end in
        flush_loop fuel (mkWAL (file_open w) (disk w ++ written) q (running_ w) (flush_thread_ w))
      else Ok w
  end.

(** [WAL::stop]: joining runs the flusher to its end. *)
Definition stop (fuel : nat) (w : WAL) : outcome WAL :=
  if running_ w then
    let w := mkWAL (file_open w) (disk w) (fifo_close (queue_ w)) false (flush_thread_ w) in
    let* w := if flush_thread_ w then flush_loop fuel w else Ok w in
    Ok (mkWAL false (disk w) (queue_ w) false false)
  else Ok w.
End Wal.
Arguments WAL Q : clear implicits.
