(* ===== verification/WalSystem.v ===== *)
(** * The log under concurrency

    Any number of threads in [log_order] .. [log_fill], the flusher thread and
    one thread in [stop], interleaved at every access of [running_] and at every
    queue operation; and the theorems about the log, sequential and
    interleaved.  The queue is any implementation of [Fifo]. *)

From stdpp Require Import base list gmap strings.
From Stdlib Require Import ZArith Lia Ascii.
From S2P Require Import Prelude Types Bytes BinarySerializer SerializerTheorems Fifo MpscQueue Wal.
Local Open Scope exchange_scope.
Local Open Scope list_scope.

(** ** Definitions *)

(** Where a logging call is: before [if (!running_) return], before the test of
    the loop, before [queue_.enqueue]. *)
Inductive writer : Type :=
  | W_check (e : WALEntry)
  | W_test (e : WALEntry)
  | W_enqueue (e : WALEntry).

(** The flusher: before reading [running_], before [queue_.empty()] having read
    [running_] as false, before [dequeue], returned. *)
Inductive flusher : Type := F_test | F_empty | F_dequeue | F_done.

(** The thread that stops the log: not yet, past the exchange of [running_],
    past [queue_.close()], past the join. *)
Inductive stopper : Type := S_idle | S_close | S_join | S_end.

Section System.
Context {Q : Type} `{Fifo Q WALEntry}.

(** [logged] lists the records whose [enqueue] returned true, in order; [wrote]
    those the flusher wrote. *)
Record WalSystem : Type := mkWalSystem {
  ws_wal : WAL Q;
  ws_writers : gmap nat writer;
  ws_flusher : flusher;
  ws_stopper : stopper;
  logged : list WALEntry;
  wrote : list WALEntry }.

(** A log that was just started on an empty file. *)
Definition init_wal_system : WalSystem :=
  mkWalSystem (Wal.start true (new_wal [])) ∅ F_test S_idle [] [].

Definition set_queue (q : Q) (w : WAL Q) : WAL Q :=
  mkWAL (file_open w) (disk w) q (running_ w) (flush_thread_ w).

Definition writer_step (tid : nat) (s : WalSystem) : option (outcome WalSystem) :=
  let upd ws lg wal := mkWalSystem wal ws (ws_flusher s) (ws_stopper s) lg (wrote s) in
  match ws_writers s !! tid with
  | None => None
  | Some (W_check e) | Some (W_test e) =>
      let next := match ws_writers s !! tid with Some (W_check _) => W_test e | _ => W_enqueue e end in
      Some (Ok (upd (if running_ (ws_wal s) then <[ tid := next ]> (ws_writers s)
                     else delete tid (ws_writers s)) (logged s) (ws_wal s)))
  | Some (W_enqueue e) =>
      Some (let* (ok, q) := fifo_enqueue e (queue_ (ws_wal s)) in
            Ok (if ok then upd (delete tid (ws_writers s)) (logged s ++ [e]) (set_queue q (ws_wal s))
                else upd (<[ tid := W_test e ]> (ws_writers s)) (logged s) (set_queue q (ws_wal s))))
  end.

Definition flusher_step (s : WalSystem) : option (outcome WalSystem) :=
  let upd f wal wr := mkWalSystem wal (ws_writers s) f (ws_stopper s) (logged s) wr in
  match ws_flusher s with
  | F_test => Some (Ok (upd (if running_ (ws_wal s) then F_dequeue else F_empty) (ws_wal s) (wrote s)))
  | F_empty =>
      Some (let* empty := fifo_empty (queue_ (ws_wal s)) in
            Ok (upd (if empty then F_done else F_dequeue) (ws_wal s) (wrote s)))
  | F_dequeue =>
      Some (let* (entry_opt, q) := fifo_dequeue (queue_ (ws_wal s)) in
            let w := ws_wal s in
            match entry_opt with
            | Some e => Ok (upd F_test (mkWAL (file_open w) (disk w ++ pack e) q (running_ w)
                                          (flush_thread_ w)) (wrote s ++ [e]))
            | None => Ok (upd F_test (set_queue q w) (wrote s))
            end)
  | F_done => None
  end.

Definition stopper_step (s : WalSystem) : option (outcome WalSystem) :=
  let upd p wal := mkWalSystem wal (ws_writers s) (ws_flusher s) p (logged s) (wrote s) in
  let w := ws_wal s in
  match ws_stopper s with
  | S_idle => Some (Ok (upd S_close (mkWAL (file_open w) (disk w) (queue_ w) false (flush_thread_ w))))
  | S_close => Some (Ok (upd S_join (set_queue (fifo_close (queue_ w)) w)))
  | S_join =>
      match ws_flusher s with
      | F_done => Some (Ok (upd S_end (mkWAL false (disk w) (queue_ w) (running_ w) false)))
      | _ => None
      end
  | S_end => None
  end.

Inductive wal_action : Type :=
  | WA_call (tid : nat) (e : WALEntry)
  | WA_writer (tid : nat)
  | WA_flusher
  | WA_stopper.

Definition wstep (a : wal_action) (s : WalSystem) : option (outcome WalSystem) :=
  match a with
  | WA_call tid e =>
      match ws_writers s !! tid with
      | Some _ => None
      | None => Some (Ok (mkWalSystem (ws_wal s) (<[ tid := W_check e ]> (ws_writers s))
                            (ws_flusher s) (ws_stopper s) (logged s) (wrote s)))
      end
  | WA_writer tid => writer_step tid s
  | WA_flusher => flusher_step s
  | WA_stopper => stopper_step s
  end.

Definition wal_step (s s' : WalSystem) : Prop := exists a, wstep a s = Some (Ok s').

Definition wal_reachable : WalSystem -> Prop := reachable (fun s => s = init_wal_system) wal_step.

(** A step that starts no logging call. *)
Definition quiet_step (s s' : WalSystem) : Prop :=
  exists a, (forall tid e, a <> WA_call tid e) /\ wstep a s = Some (Ok s').

Fixpoint wrun (acts : list wal_action) (s : WalSystem) : option (outcome WalSystem) :=
  match acts with
  | [] => Some (Ok s)
  | a :: acts =>
      match wstep a s with
      | Some (Ok s') => wrun acts s'
      | r => r
      end
  end.
End System.

Arguments WalSystem Q : clear implicits.

(** ** Facts about the sequential log *)

Section Facts.
Context {Q : Type} `{FifoLaws Q WALEntry}.

(** A running log whose queue holds [vs]. *)
Record wal_holds (w : WAL Q) (vs : list WALEntry) : Prop := mkWalHolds {
  wh_open : file_open w = true;
  wh_running : running_ w = true;
  wh_thread : flush_thread_ w = true;
  wh_queue : fifo_repr (queue_ w) false vs }.

Lemma wal_bytes_app es1 es2 : wal_bytes (es1 ++ es2) = wal_bytes es1 ++ wal_bytes es2.
Proof. unfold wal_bytes. by rewrite fmap_app, concat_app. Qed.

Lemma wal_bytes_snoc es e : wal_bytes (es ++ [e]) = wal_bytes es ++ pack e.
Proof. rewrite wal_bytes_app. unfold wal_bytes at 2. csimpl. by rewrite app_nil_r. Qed.

Lemma log_entry_holds fuel e w vs : wal_holds w vs ->
  exists w', log_entry (S fuel) e w = Ok w' /\ wal_holds w' (vs ++ [e]) /\ disk w' = disk w.
Proof.
  intros [Ho Hr Ht Hq]. unfold log_entry. rewrite Hr. simpl. rewrite Hr.
  destruct (fifo_enqueue_open _ _ e Hq) as (q' & -> & Hq'). simpl. eexists. split; [done|].
  split; [by constructor|done].
Qed.

Lemma flush_loop_drains fuel : forall (w : WAL Q) vs,
  running_ w = false -> fifo_repr (queue_ w) true vs -> (length vs < fuel)%nat ->
  exists w', flush_loop fuel w = Ok w' /\ disk w' = disk w ++ wal_bytes vs /\
    fifo_repr (queue_ w') true [] /\ running_ w' = false.
Proof.
  induction fuel as [|fuel IH]; intros w vs Hr Hq Hf; [lia|]. simpl.
  rewrite (fifo_empty_repr _ _ _ Hq). simpl. rewrite Hr. simpl. destruct vs as [|e vs]; simpl.
  - exists w. by rewrite app_nil_r.
  - destruct (fifo_dequeue_cons _ _ _ _ Hq) as (q' & -> & Hq'). simpl.
    edestruct (IH (mkWAL (file_open w) (disk w ++ pack e) q' (running_ w) (flush_thread_ w)) vs)
      as (w' & Hw & Hd & Hq2 & Hr'); [done|done|simpl in Hf; lia|].
    exists w'. rewrite Hr in Hw. split; [exact Hw|]. split; [|done].
    rewrite Hd. simpl. by rewrite <- app_assoc.
Qed.

(** ** The invariant of the interleaved log *)

Definition stop_phase (p : stopper) (running closed : bool) : Prop :=
  match p with
  | S_idle => running = true /\ closed = false
  | S_close => running = false /\ closed = false
  | S_join | S_end => running = false /\ closed = true
  end.

Record ws_inv (s : WalSystem Q) : Prop := mkWsInv {
  wi_queue : exists closed vs, fifo_repr (queue_ (ws_wal s)) closed vs /\
    logged s = wrote s ++ vs /\ stop_phase (ws_stopper s) (running_ (ws_wal s)) closed;
  wi_disk : disk (ws_wal s) = wal_bytes (wrote s);
  wi_done : ws_flusher s = F_empty \/ ws_flusher s = F_done -> running_ (ws_wal s) = false;
  wi_end : ws_stopper s = S_end -> ws_flusher s = F_done }.

Lemma init_wal_inv : ws_inv (init_wal_system (Q:=Q)).
Proof.
  constructor; simpl; [|done|by intros [|]|done].
  exists false, []. split_and!; [apply fifo_new_repr|done..].
Qed.

Lemma writer_step_inv tid (s : WalSystem Q) r : ws_inv s -> writer_step tid s = Some r ->
  exists s', r = Ok s' /\ ws_inv s'.
Proof.
  intros [(c & vs & Hq & Hl & Hp) Hd Hf He]. unfold writer_step.
  destruct (ws_writers s !! tid) as [[e|e|e]|] eqn:Ht; [| | |done].
  1,2: intros [= <-]; eexists; split; [done|]; constructor; simpl; eauto.
  intros [= <-]. destruct c.
  - rewrite (fifo_enqueue_closed _ _ e Hq). simpl. eexists. split; [done|].
    constructor; simpl; eauto.
  - destruct (fifo_enqueue_open _ _ e Hq) as (q' & -> & Hq'). simpl. eexists. split; [done|].
    constructor; simpl; eauto. exists false, (vs ++ [e]). split_and!; [done| |done].
    by rewrite Hl, app_assoc.
Qed.

Lemma flusher_step_inv (s : WalSystem Q) r : ws_inv s -> flusher_step s = Some r ->
  exists s', r = Ok s' /\ ws_inv s'.
Proof.
  intros [(c & vs & Hq & Hl & Hp) Hd Hf He]. unfold flusher_step.
  destruct (ws_flusher s) eqn:Ef; intros [= <-].
  - eexists. split; [done|]. constructor; simpl; eauto.
    + destruct (running_ (ws_wal s)); [by intros [|]|done].
    + intros Hs. specialize (He Hs). done.
  - rewrite (fifo_empty_repr _ _ _ Hq). simpl. eexists. split; [done|]. constructor; simpl; eauto.
    intros Hs. specialize (He Hs). done.
  - destruct vs as [|e vs].
    + rewrite (fifo_dequeue_nil _ _ Hq). simpl. eexists. split; [done|].
      constructor; simpl; eauto; [by intros [|]|]. intros Hs. specialize (He Hs). done.
    + destruct (fifo_dequeue_cons _ _ _ _ Hq) as (q' & -> & Hq'). simpl. eexists. split; [done|].
      constructor; simpl; [|by rewrite Hd, wal_bytes_snoc|by intros [|]|].
      * exists c, vs. split_and!; [done| |done]. by rewrite Hl, <- app_assoc.
      * intros Hs. specialize (He Hs). done.
Qed.

Lemma stopper_step_inv (s : WalSystem Q) r : ws_inv s -> stopper_step s = Some r ->
  exists s', r = Ok s' /\ ws_inv s'.
Proof.
  intros [(c & vs & Hq & Hl & Hp) Hd Hf He]. unfold stopper_step.
  destruct (ws_stopper s) eqn:Es; simpl in Hp.
  - intros [= <-]. eexists. split; [done|]. constructor; simpl; [|done|done|done].
    exists c, vs. split_and!; [done..|]. tauto.
  - intros [= <-]. eexists. split; [done|]. constructor; simpl; [|done|done|done].
    exists true, vs. split_and!; [by eapply fifo_close_repr|done|tauto|done].
  - destruct (ws_flusher s) eqn:Ef; try done. intros [= <-]. eexists. split; [done|].
    constructor; simpl; [|done|done|done]. exists c, vs. split_and!; [done..|tauto|tauto].
  - done.
Qed.

Lemma wstep_inv a (s : WalSystem Q) r : ws_inv s -> wstep a s = Some r ->
  exists s', r = Ok s' /\ ws_inv s'.
Proof.
  intros Hi. destruct a as [tid e|tid| |]; simpl.
  - destruct (ws_writers s !! tid); [done|]. intros [= <-]. eexists. split; [done|].
    destruct Hi. by constructor.
  - by apply writer_step_inv.
  - by apply flusher_step_inv.
  - by apply stopper_step_inv.
Qed.

Lemma wal_reachable_inv (s : WalSystem Q) : wal_reachable s -> ws_inv s.
Proof.
  apply reachable_invariant; [intros ? ->; apply init_wal_inv|].
  intros s1 s2 Hi [a Ha]. by destruct (wstep_inv _ _ _ Hi Ha) as (s' & [= <-] & Hi').
Qed.

(** ** Stopping with no logging call in progress *)

Record quiet_inv (s0 s : WalSystem Q) : Prop := mkQuietInv {
  qi_inv : ws_inv s;
  qi_writers : ws_writers s = ∅;
  qi_logged : logged s = logged s0;
  qi_done : ws_flusher s = F_done -> wrote s = logged s }.

Lemma quiet_step_inv s0 s s' : quiet_inv s0 s -> quiet_step s s' -> quiet_inv s0 s'.
Proof.
  intros [Hi Hw Hl Hd] (a & Ha & Hs). destruct (wstep_inv _ _ _ Hi Hs) as (s2 & [= <-] & Hi').
  destruct a as [tid e|tid| |]; simpl in Hs; [by destruct (Ha tid e)| | |].
  - unfold writer_step in Hs. by rewrite Hw, lookup_empty in Hs.
  - destruct Hi as [(c & vs & Hq & Hlg & Hp) _ _ _].
    unfold flusher_step in Hs. destruct (ws_flusher s); [| | |done].
    + injection Hs as <-. constructor; simpl; try done. by destruct (running_ _).
    + rewrite (fifo_empty_repr _ _ _ Hq) in Hs. simpl in Hs. injection Hs as <-.
      constructor; simpl; try done. destruct vs; [|done]. intros _. by rewrite Hlg, app_nil_r.
    + destruct vs as [|e vs].
      * rewrite (fifo_dequeue_nil _ _ Hq) in Hs. simpl in Hs. injection Hs as <-. by constructor.
      * destruct (fifo_dequeue_cons _ _ _ _ Hq) as (q' & Hdq & Hq'). rewrite Hdq in Hs. simpl in Hs.
        injection Hs as <-. by constructor.
  - unfold stopper_step in Hs. destruct (ws_stopper s); [| |destruct (ws_flusher s) eqn:Ef|];
      try done; injection Hs as <-; constructor; simpl; try done; by rewrite ?Ef.
Qed.
End Facts.

(** ** Properties *)

(** One thread logging [es] in order. *)
Fixpoint log_all {Q} `{Fifo Q WALEntry} (fuel : nat) (es : list WALEntry) (w : WAL Q) : outcome (WAL Q) :=
  match es with
  | [] => Ok w
  | e :: es => let* w := log_entry fuel e w in log_all fuel es w
  end.

Lemma log_all_holds {Q} `{FifoLaws Q WALEntry} fuel es : forall (w : WAL Q) vs, wal_holds w vs ->
  exists w', log_all (S fuel) es w = Ok w' /\ wal_holds w' (vs ++ es) /\ disk w' = disk w.
Proof.
  induction es as [|e es IH]; intros w vs Hw; cbn [log_all].
  { exists w. by rewrite app_nil_r. }
  destruct (log_entry_holds fuel e w vs Hw) as (w1 & -> & Hw1 & Hd1). cbn [obind].
  destruct (IH w1 _ Hw1) as (w2 & -> & Hw2 & Hd2). exists w2. rewrite <- app_assoc in Hw2.
  by rewrite Hd2, Hd1.
Qed.

Definition w_entry (n : Z) : WALEntry := mkWALEntry n (w_uninit 52).

(** The actions of a thread 1 that logs one record, with the flusher and [stop]
    in between: the thread tests [running_], [stop] clears it, the flusher
    finds the queue empty and returns, and only then is the record queued. *)
Definition w_late_actions : list wal_action :=
  [WA_call 1 (w_entry 1); WA_writer 1; WA_writer 1; WA_stopper; WA_flusher; WA_flusher;
   WA_writer 1; WA_stopper; WA_stopper].

Definition w_logged_actions : list wal_action :=
  [WA_call 1 (w_entry 1); WA_call 2 (w_entry 2); WA_writer 2; WA_writer 1; WA_writer 1; WA_writer 2;
   WA_writer 2; WA_flusher; WA_writer 1; WA_flusher].

Lemma wrun_reachable {Q} `{Fifo Q WALEntry} acts : forall s s' : WalSystem Q,
  wal_reachable s -> wrun acts s = Some (Ok s') -> wal_reachable s'.
Proof.
  induction acts as [|a acts IH]; intros s s' Hr; simpl; [by intros [= <-]|].
  destruct (wstep a s) as [[s1|f]|] eqn:Ha; try done. apply IH. eapply reach_step; [exact Hr|by exists a].
Qed.

Lemma wrun_quiet {Q} `{Fifo Q WALEntry} acts : forall s s' : WalSystem Q,
  Forall (fun a => forall tid e, a <> WA_call tid e) acts ->
  wrun acts s = Some (Ok s') -> star quiet_step s s'.
Proof.
  induction acts as [|a acts IH]; intros s s' Hq; simpl; [intros [= <-]; apply star_refl|].
  apply Forall_cons in Hq as [Ha Hq].
  destruct (wstep a s) as [[s1|f]|] eqn:Hs; try done. intros Hrun.
  eapply star_step; [by exists a|]. by apply IH.
Qed.

Lemma w_logged_run : exists s : WalSystem (MPSCQueue WALEntry),
  wrun w_logged_actions init_wal_system = Some (Ok s) /\
  ws_writers s = ∅ /\ ws_stopper s = S_idle /\ logged s = [w_entry 2; w_entry 1].
Proof. eexists. split; [vm_compute; reflexivity|]. split_and!; vm_compute; reflexivity. Qed.

Lemma w_late_run : exists s : WalSystem (MPSCQueue WALEntry),
  wrun w_late_actions init_wal_system = Some (Ok s) /\
  ws_stopper s = S_end /\ ws_writers s = ∅ /\ logged s = [w_entry 1] /\ disk (ws_wal s) = [].
Proof. eexists. split; [vm_compute; reflexivity|]. split_and!; vm_compute; reflexivity. Qed.

(** C15: the file is, at every moment and under any interleaving of logging
    threads, flusher and [stop], a sequence of whole records: a prefix of the
    records whose enqueue succeeded, in that order; and no step faults.  When
    [stop] begins with no logging call in progress and none starts, the file it
    closes holds every record that was logged. *)
Theorem wal_complete {Q} `{FifoLaws Q WALEntry} (s : WalSystem Q) :
  wal_reachable s ->
  (exists rest, logged s = wrote s ++ rest) /\ disk (ws_wal s) = wal_bytes (wrote s) /\
  (forall a r, wstep a s = Some r -> exists s', r = Ok s') /\
  (forall s', ws_writers s = ∅ -> ws_stopper s = S_idle -> star quiet_step s s' -> ws_stopper s' = S_end ->
     disk (ws_wal s') = wal_bytes (logged s)).
Proof.
  intros Hi%wal_reachable_inv. split_and!.
  - destruct Hi as [(c & vs & _ & ? & _) _ _ _]. by exists vs.
  - by destruct Hi.
  - intros a r Ha. destruct (wstep_inv _ _ _ Hi Ha) as (s' & -> & _). by exists s'.
  - intros s' Hw Hs Hstar Hend.
    assert (quiet_inv s s) as Hq.
    { constructor; [done..|]. intros Hf. destruct Hi as [(c & vs & _ & _ & Hp) _ Hd _].
      rewrite Hs in Hp. destruct Hp as [Hp _]. rewrite Hd in Hp by by right. done. }
    assert (quiet_inv s s') as Hq'.
    { clear -Hstar Hq. revert Hq. generalize s at 1 3. intros s0.
      induction Hstar; [done|]. intros. apply IHHstar. by eapply quiet_step_inv. }
    destruct Hq' as [[_ Hd _ He] _ Hl Hf]. by rewrite Hd, Hf, Hl by auto.
Qed.

Lemma wal_complete_witness : exists s s' : WalSystem (MPSCQueue WALEntry),
  wal_reachable s /\ star quiet_step s s' /\ ws_stopper s' = S_end /\
  disk (ws_wal s') = wal_bytes [w_entry 2; w_entry 1].
Proof.
  destruct w_logged_run as (s & Hs & Hw & Hst & Hl).
  assert (wal_reachable s) as Hr by (eapply wrun_reachable; [apply reach_init; reflexivity|exact Hs]).
  destruct (wrun [WA_stopper; WA_stopper; WA_flusher; WA_flusher; WA_flusher; WA_flusher; WA_flusher;
    WA_stopper] s) as [[s'|]|] eqn:E.
  2,3: exfalso; vm_compute in Hs; injection Hs as <-; vm_compute in E; discriminate E.
  exists s, s'. pose proof E as Hend.
  apply wrun_quiet in E; [|repeat constructor; done].
  assert (ws_stopper s' = S_end) as He.
  { vm_compute in Hs. injection Hs as <-. vm_compute in Hend. injection Hend as <-. reflexivity. }
  split; [exact Hr|]. split; [exact E|]. split; [exact He|]. rewrite <- Hl.
  exact (proj2 (proj2 (proj2 (wal_complete s Hr))) s' Hw Hst E He).
Defined.

(** One thread that starts the log, logs any records and stops it returns,
    the file being what it was followed by exactly those records. *)
Theorem wal_start_log_stop {Q} `{FifoLaws Q WALEntry} contents es fuel :
  (length es < fuel)%nat ->
  exists w w' : WAL Q, log_all 1 es (start true (new_wal contents)) = Ok w /\
    stop fuel w = Ok w' /\ disk w' = contents ++ wal_bytes es /\ file_open w' = false.
Proof.
  intros Hf. destruct (log_all_holds 0 es (start true (new_wal (Q:=Q) contents)) [])
    as (w & Hw & [Ho Hr Ht Hq] & Hd).
  { constructor; try done. apply fifo_new_repr. }
  exists w. unfold stop. rewrite Hr, Ht. apply fifo_close_repr in Hq.
  destruct (flush_loop_drains fuel (mkWAL (file_open w) (disk w) (fifo_close (queue_ w)) false true) es)
    as (w' & -> & Hd' & _); [done|done|done|].
  eexists. split; [exact Hw|]. split; [done|]. split; [|done]. simpl. by rewrite Hd', Hd.
Qed.

Lemma wal_start_log_stop_witness :
  (length [w_entry 1; w_entry 2] < 3)%nat /\
  exists w w' : WAL (MPSCQueue WALEntry),
    log_all 1 [w_entry 1; w_entry 2] (start true (new_wal [])) = Ok w /\
    stop 3 w = Ok w' /\ disk w' = [] ++ wal_bytes [w_entry 1; w_entry 2] /\ file_open w' = false.
Proof.
  assert (length [w_entry 1; w_entry 2] < 3)%nat as Hl by (simpl; lia).
  split; [exact Hl|]. exact (wal_start_log_stop [] [w_entry 1; w_entry 2] 3 Hl).
Defined.

(** A call in progress when [stop] begins can be lost although its enqueue
    returned true: here the log stops and closes its file without the record. *)
Theorem wal_late_log_lost :
  exists s : WalSystem (MPSCQueue WALEntry),
    wal_reachable s /\ ws_stopper s = S_end /\ ws_writers s = ∅ /\
    logged s = [w_entry 1] /\ disk (ws_wal s) = [].
Proof.
  destruct w_late_run as (s & Hs & He & Hw & Hl & Hd). exists s.
  split; [|exact (conj He (conj Hw (conj Hl Hd)))].
  eapply wrun_reachable; [apply reach_init; reflexivity|exact Hs].
Qed.

(** A log that was stopped cannot be started again: [start] sets [running_]
    but the queue stays closed, and the next logging call never returns. *)
Theorem wal_restart_hangs {Q} `{FifoLaws Q WALEntry} (w : WAL Q) e vs :
  running_ w = false -> fifo_repr (queue_ w) true vs ->
  forall fuel, log_entry fuel e (start true w) = Fault OutOfFuel.
Proof.
  intros Hr Hq. unfold start. rewrite Hr. unfold log_entry. simpl.
  induction fuel as [|fuel IH]; simpl; [done|]. by rewrite (fifo_enqueue_closed _ _ e Hq).
Qed.

Lemma wal_restart_hangs_witness :
  exists w : WAL (MPSCQueue WALEntry),
    stop 1 (start true (new_wal [])) = Ok w /\
    forall fuel, log_entry fuel (w_entry 1) (start true w) = Fault OutOfFuel.
Proof.
  pose (w := mkWAL (Q:=MPSCQueue WALEntry) false [] (fifo_close fifo_new) false false).
  assert (fifo_repr (queue_ w) true []) as Hq.
  { exact (fifo_close_repr (Q:=MPSCQueue WALEntry) fifo_new false [] fifo_new_repr). }
  exists w. split; [vm_compute; reflexivity|].
  exact (wal_restart_hangs w (w_entry 1) [] eq_refl Hq).
Defined.
