(* ===== verification/ReplayEngine.v ===== *)
(** * ReplayEngine: rebuilding the books from the log

    [engine/replay_engine.cpp]: the loop over the records of the file, and what
    each record of [pipeline/wal.cpp] does when it is read back. *)

From stdpp Require Import base list gmap strings.
From Stdlib Require Import ZArith Lia Ascii.
From S2P Require Import Prelude Types Bytes BinarySerializer SerializerTheorems OrderBook BookInv BookOps BookRegistry Wal WalSystem.
Local Open Scope exchange_scope.
Local Open Scope list_scope.

(** ** Definitions *)

Record ReplayState : Type := mkReplayState {
  rs_registry : BookRegistry;
  rs_env : Env;
  replayed_count : nat }.

(** [book->submitOrder(order)] and the like: no log callback. *)
Definition replay_op (symbol : Symbol) (op : book_op) (st : ReplayState) : outcome ReplayState :=
  let* (r, (_, env, _)) :=
    registry_op symbol op (None : option (unit -> unit)) (rs_registry st) (rs_env st) tt in
  Ok (mkReplayState r env (S (replayed_count st))).

(** The body of the loop. *)
Definition replay_entry (entry : WALEntry) (st : ReplayState) : outcome ReplayState :=
  match WALEventType_of_u8 (we_type entry) with
  | WSubmit =>
      let* order := from_net_order (unpack (we_data entry)) in
      replay_op (o_symbol order) (OpSubmit order) st
  | WCancel =>
      let* req := from_net_cancel (unpack (we_data entry)) in
      replay_op (c_symbol req) (OpCancel (c_order_id req)) st
  | WModify =>
      let* req := from_net_modify (unpack (we_data entry)) in
      replay_op (m_symbol req) (OpModify req) st
  | _ => Ok st
  end.

(** [while (file.read(&entry, sizeof(WALEntry)))]: a read of fewer bytes than
    asked for fails the stream. *)
Fixpoint replay_loop (fuel : nat) (file : list ascii) (st : ReplayState) : outcome ReplayState :=
  match fuel with
  | O => Fault OutOfFuel
  | S fuel =>
      if (length file <? sizeof WALEntry)%nat then Ok st
      else
        let* st := replay_entry (unpack (take (sizeof WALEntry) file)) st in
        replay_loop fuel (drop (sizeof WALEntry) file) st
  end.

(** [ReplayEngine::replay]; [None] is a file that cannot be opened.  Every turn
    of the loop consumes bytes, so one more than the length is fuel enough. *)
Definition replay (file : option (list ascii)) (r : BookRegistry) (env : Env)
    : outcome (bool * ReplayState) :=
  match file with
  | None => Ok (false, mkReplayState r env 0)
  | Some bytes =>
      let* st := replay_loop (S (length bytes)) bytes (mkReplayState r (reset_ids 1 env) 0) in
      Ok (true, st)
  end.

(** The records one after the other, without the file. *)
Fixpoint replay_all (es : list WALEntry) (st : ReplayState) : outcome ReplayState :=
  match es with
  | [] => Ok st
  | e :: es => let* st := replay_entry e st in replay_all es st
  end.

(** ** Framing *)

Lemma replay_all_app es1 es2 st :
  replay_all (es1 ++ es2) st = (let* st := replay_all es1 st in replay_all es2 st).
Proof.
  revert st. induction es1 as [|e es1 IH]; intros st; simpl; [done|].
  destruct (replay_entry e st); simpl; [apply IH|done].
Qed.

Lemma replay_loop_records es tail : Forall fields_ok es -> (length tail < sizeof WALEntry)%nat ->
  forall fuel st, (length es < fuel)%nat ->
  replay_loop fuel (wal_bytes es ++ tail) st = replay_all es st.
Proof.
  intros Hes Ht. induction Hes as [|e es He Hes IH]; intros [|fuel] st Hf; simpl in Hf; try lia.
  - cbn [replay_loop wal_bytes fmap list_fmap concat app replay_all].
    by rewrite (proj2 (Nat.ltb_lt _ _)).
  - cbn [replay_loop replay_all]. change (wal_bytes (e :: es)) with (pack e ++ wal_bytes es).
    rewrite <- app_assoc.
    pose proof (pack_length e He) as Hl.
    rewrite (proj2 (Nat.ltb_ge _ _)) by (rewrite length_app, Hl; lia).
    rewrite take_app_length', drop_app_length' by done.
    pose proof (unpack_pack e [] He) as Hu. rewrite app_nil_r in Hu. rewrite Hu.
    destruct (replay_entry e st); cbn [obind]; [|done]. apply IH. lia.
Qed.

Lemma wal_bytes_length es : Forall fields_ok es -> (length es <= length (wal_bytes es))%nat.
Proof.
  induction 1 as [|e es He _ IH]; [done|]. change (wal_bytes (e :: es)) with (pack e ++ wal_bytes es).
  rewrite length_app. cbn [length]. rewrite (pack_length e He). unfold sizeof, WALEntry_Packed. lia.
Qed.

(** ** Reading back what the log wrote *)

Lemma unpack_set_member {A} `{PackedLaws A} (a : A) u : fields_ok a -> unpack (set_member a u) = a.
Proof. intros Ha. unfold set_member. by apply unpack_pack. Qed.

Lemma set_member_length {A} `{PackedLaws A} (a : A) u :
  fields_ok a -> (sizeof A <= length u)%nat -> length (set_member a u) = length u.
Proof.
  intros Ha Hu. unfold set_member. rewrite length_app, length_drop, pack_length by done. lia.
Qed.

Section Decode.
Context (u : list ascii) (Hu : length u = 52).

Lemma order_entry_ok v o : length v = 8 -> order_fields_ok o -> fields_ok (order_entry u v o).
Proof using Hu.
  intros Hv Ho. split; [done|]. unfold order_entry. cbn [we_data]. rewrite set_member_length; [done| |rewrite Hu; unfold sizeof; simpl; lia].
  by apply to_net_order_fields.
Qed.

Lemma replay_order_entry v o st : length v = 8 -> order_fields_ok o ->
  replay_entry (order_entry u v o) st = replay_op (kept 8 (o_symbol o)) (OpSubmit (wire_order o)) st.
Proof using.
  intros Hv Ho. unfold replay_entry, order_entry. cbn [we_type we_data].
  change (WALEventType_of_u8 (WALEventType_to_u8 WSubmit)) with WSubmit. cbn iota. rewrite unpack_set_member by by apply to_net_order_fields.
  rewrite from_to_order by apply Ho. done.
Qed.

Lemma cancel_symbol_room : length (nc_symbol (unpack u)) = 8.
Proof using Hu. unfold unpack, NetCancel_Packed, read_le, read_chars. simpl. rewrite length_take, length_drop. lia. Qed.

Lemma modify_symbol_room : length (nm_symbol (unpack u)) = 8.
Proof using Hu. unfold unpack, NetModify_Packed, read_le, read_chars. simpl. rewrite length_take, length_drop. lia. Qed.

Lemma fill_symbol_room : length (nf_symbol (unpack u)) = 8.
Proof using Hu.
  unfold unpack, NetFill_Packed, read_le, read_chars. simpl. rewrite length_take, !length_drop. lia.
Qed.

Lemma cancel_entry_ok c : cancel_fields_ok c -> fields_ok (cancel_entry u c).
Proof using Hu.
  intros Hc. split; [done|]. unfold cancel_entry. cbn [we_data]. rewrite set_member_length; [done| |rewrite Hu; unfold sizeof; simpl; lia].
  apply (to_net_cancel_fields (nc_symbol (unpack u)) c Hc cancel_symbol_room).
Qed.

Lemma replay_cancel_entry c st : cancel_fields_ok c ->
  replay_entry (cancel_entry u c) st = replay_op (kept 8 (c_symbol c)) (OpCancel (c_order_id c)) st.
Proof using Hu.
  intros Hc. unfold replay_entry, cancel_entry. cbn [we_type we_data].
  change (WALEventType_of_u8 (WALEventType_to_u8 WCancel)) with WCancel. cbn iota.
  rewrite unpack_set_member
    by apply (to_net_cancel_fields (nc_symbol (unpack u)) c Hc cancel_symbol_room).
  change (mkNetCancel _ _ _) with (to_net_cancel (nc_symbol (unpack u)) c).
  by rewrite from_to_cancel.
Qed.

Lemma modify_entry_ok m : modify_fields_ok m -> fields_ok (modify_entry u m).
Proof using Hu.
  intros Hm. split; [done|]. unfold modify_entry. cbn [we_data]. rewrite set_member_length; [done| |rewrite Hu; unfold sizeof; simpl; lia].
  apply (to_net_modify_fields (nm_symbol (unpack u)) m Hm modify_symbol_room).
Qed.

Lemma replay_modify_entry m st : modify_fields_ok m ->
  replay_entry (modify_entry u m) st = replay_op (kept 8 (m_symbol m)) (OpModify (wire_modify m)) st.
Proof using Hu.
  intros Hm. unfold replay_entry, modify_entry. cbn [we_type we_data].
  change (WALEventType_of_u8 (WALEventType_to_u8 WModify)) with WModify. cbn iota.
  rewrite unpack_set_member
    by apply (to_net_modify_fields (nm_symbol (unpack u)) m Hm modify_symbol_room).
  change (mkNetModify _ _ _ _ _) with (to_net_modify (nm_symbol (unpack u)) m).
  by rewrite from_to_modify.
Qed.

Lemma fill_entry_ok f : fields_ok (fill_entry u f).
Proof using Hu.
  split; [done|]. unfold fill_entry, set_member. cbn [we_data].
  pose proof fill_symbol_room as Hr. revert Hr. generalize (nf_symbol (unpack u)). intros l Hl.
  unfold pack, sizeof, NetFill_Packed. cbn [nf_trade_id nf_buy_order_id nf_sell_order_id nf_symbol
    nf_price nf_quantity nf_timestamp].
  rewrite !length_app, !length_le_encode, length_strncpy, length_drop, Hl, Hu by lia. done.
Qed.

Lemma replay_fill_entry f st : replay_entry (fill_entry u f) st = Ok st.
Proof. done. Qed.
End Decode.
