(* ===== verification/ThreadPool.v ===== *)
(** * ThreadPool: tasks and the worker threads

    [threadpool/task.hpp], [threadpool/thread_pool.hpp] and
    [threadpool/thread_pool.cpp].  [process_task] is the body of
    [ThreadPool::worker_loop] run by one worker alone; [pool_step] interleaves
    the workers at the points where they touch what they share: the task queue,
    the registry, the mutex of a book, the log queue and the report queues. *)

From stdpp Require Import base list gmap strings.
From Stdlib Require Import ZArith Lia Ascii.
From S2P Require Import Prelude Types Bytes BinarySerializer OrderIndex OrderBook BookInv BookOps BookRegistry SafeQueue Wal.
Local Open Scope exchange_scope.
Local Open Scope list_scope.

(** ** Tasks *)

Inductive TaskType : Type := T_Submit | T_Cancel | T_Modify.

(** [std::variant<Order, CancelRequest, ModifyRequest>] *)
Inductive Request : Type :=
  | ReqOrder (o : Order)
  | ReqCancel (c : CancelRequest)
  | ReqModify (m : ModifyRequest).

Record Task : Type := mkTask {
  task_type : TaskType;
  task_request : Request;
  task_symbol : Symbol }.

(** [std::get] of the alternative the type announces; [None] is the exception
    [std::bad_variant_access]. *)
Definition task_op (t : Task) : option book_op :=
  match task_type t, task_request t with
  | T_Submit, ReqOrder o => Some (OpSubmit o)
  | T_Cancel, ReqCancel c => Some (OpCancel (c_order_id c))
  | T_Modify, ReqModify m => Some (OpModify m)
  | _, _ => None
  end.

(** ** The pool *)

Record ThreadPool : Type := mkThreadPool {
  num_threads_ : nat;
  workers_ : nat;                    (* running worker threads *)
  task_queue_ : SafeQueue Task;
  stop_ : bool }.

Definition new_pool (num_threads : nat) : ThreadPool :=
  mkThreadPool num_threads 0 (new_safe_queue (Z.to_nat MAX_QUEUE_CAPACITY)) false.

Definition pool_start (p : ThreadPool) : ThreadPool :=
  if (0 <? workers_ p)%nat then p
  else mkThreadPool (num_threads_ p) (num_threads_ p) (task_queue_ p) (stop_ p).

(** [ThreadPool::submit]: may wait, in [enqueue], for a free slot. *)
Definition pool_submit (t : Task) (p : ThreadPool) : attempt (bool * ThreadPool) :=
  if stop_ p then Returns _ (false, p)
  else
    match try_enqueue t (task_queue_ p) with
    | Waits _ => Waits _
    | Returns _ (ok, q) => Returns _ (ok, mkThreadPool (num_threads_ p) (workers_ p) q (stop_ p))
    end.

(** [ThreadPool::shutdown]: the first call closes the queue and joins the
    workers, which first take what is left in it: the tasks returned are those
    they still process. *)
Definition pool_shutdown (p : ThreadPool) : list Task * ThreadPool :=
  if stop_ p then ([], p)
  else
    let q := set_shutdown (task_queue_ p) in
    if (0 <? workers_ p)%nat
    then (SafeQueue.queue_ q, mkThreadPool (num_threads_ p) 0 (mkSafeQueue [] (max_capacity_ q) (shutdown_ q)) true)
    else ([], mkThreadPool (num_threads_ p) 0 q true).

(** ** What a worker writes to *)

(** The records enqueued in the log, and the reports and trades published, in
    the order of their enqueues. *)
Record Sinks : Type := mkSinks {
  log_records : list WALEntry;
  published_reports : list ExecutionReport;
  published_trades : list Trade }.

Definition add_record (e : WALEntry) (s : Sinks) : Sinks :=
  mkSinks (log_records s ++ [e]) (published_reports s) (published_trades s).
Definition add_report (r : ExecutionReport) (s : Sinks) : Sinks :=
  mkSinks (log_records s) (published_reports s ++ [r]) (published_trades s).
Definition add_trade (t : Trade) (s : Sinks) : Sinks :=
  mkSinks (log_records s) (published_reports s) (published_trades s ++ [t]).

(** [Trade{fill.trade_id, fill.symbol, fill.price, fill.quantity, fill.timestamp}] *)
Definition trade_of (f : Fill) : Trade :=
  mkTrade (f_trade_id f) (f_symbol f) (f_price f) (f_quantity f) (f_timestamp f).

Section Workers.
(** [wal] and [pipeline]: whether the pointers are non-null (and what they point
    to is running); [junk n], [junk8 n]: the uninitialised bytes the [n]-th
    record of the log is built over. *)
Context (wal pipeline : bool) (junk junk8 : nat -> list ascii).

Definition request_entry (n : nat) (r : Request) : WALEntry :=
  match r with
  | ReqOrder o => order_entry (junk n) (junk8 n) o
  | ReqCancel c => cancel_entry (junk n) c
  | ReqModify m => modify_entry (junk n) m
  end.

(** [log_action] *)
Definition log_action (t : Task) (s : Sinks) : Sinks :=
  if wal then add_record (request_entry (length (log_records s)) (task_request t)) s else s.

Definition log_fill_record (s : Sinks) (f : Fill) : Sinks :=
  if wal then add_record (fill_entry (junk (length (log_records s))) f) s else s.

Definition publish_report (s : Sinks) (r : ExecutionReport) : Sinks :=
  if pipeline then add_report r s else s.

Definition publish_trade (s : Sinks) (f : Fill) : Sinks :=
  if pipeline then add_trade (trade_of f) s else s.

(** What follows the book operation. *)
Definition after_match (res : MatchResult) (s : Sinks) : Sinks :=
  foldl publish_trade
    (foldl publish_report (foldl log_fill_record s (mr_fills res)) (mr_execution_reports res))
    (mr_fills res).

(** The body of the loop for one task.  An exception is caught and leaves what
    was done before it: the book has been looked up. *)
Definition process_task (t : Task) (r : BookRegistry) (env : Env) (s : Sinks)
    : outcome (BookRegistry * Env * Sinks) :=
  let '(book, r) := get_order_book (task_symbol t) r in
  match task_op t with
  | None => Ok (r, env, s)
  | Some op =>
      let* (r, (res, env, s)) :=
        with_book book (fun b =>
          let* (b, res, env, s) := apply_op op (Some (log_action t)) b env s in
          Ok (b, (res, env, s))) r in
      Ok (r, env, after_match res s)
  end.

(** ** Interleaved workers *)

(** Where a worker is in the body of the loop. *)
Inductive worker : Type :=
  | WK_task (t : Task)                          (* dequeued *)
  | WK_book (t : Task)                          (* has the book *)
  | WK_locked (t : Task) (op : book_op)         (* holds the book's mutex, has logged *)
  | WK_fills (res : MatchResult) (fs : list Fill)             (* fills still to log *)
  | WK_reports (rs : list ExecutionReport) (fs : list Fill)   (* still to publish *)
  | WK_trades (fs : list Fill).

(** [taken] lists the tasks in the order the workers dequeued them. *)
Record PoolSystem : Type := mkPoolSystem {
  ps_registry : BookRegistry;
  ps_env : Env;
  ps_sinks : Sinks;
  ps_tasks : list Task;
  ps_workers : gmap nat worker }.

Definition locks (sym : Symbol) (w : worker) : bool :=
  match w with WK_locked t _ => bool_decide (task_symbol t = sym) | _ => false end.

(** No worker is in a critical section of the book of [sym]. *)
Definition unlocked (sym : Symbol) (ws : gmap nat worker) : Prop :=
  map_Forall (fun _ w => locks sym w = false) ws.

#[export] Instance unlocked_dec sym ws : Decision (unlocked sym ws).
Proof using. unfold unlocked. apply _. Defined.

Definition set_worker (i : nat) (w : worker) (s : PoolSystem) : PoolSystem :=
  mkPoolSystem (ps_registry s) (ps_env s) (ps_sinks s) (ps_tasks s) (<[ i := w ]> (ps_workers s)).
Definition free_worker (i : nat) (s : PoolSystem) : PoolSystem :=
  mkPoolSystem (ps_registry s) (ps_env s) (ps_sinks s) (ps_tasks s) (delete i (ps_workers s)).
Definition set_sinks (k : Sinks) (s : PoolSystem) : PoolSystem :=
  mkPoolSystem (ps_registry s) (ps_env s) k (ps_tasks s) (ps_workers s).
Definition set_books (r : BookRegistry) (env : Env) (s : PoolSystem) : PoolSystem :=
  mkPoolSystem r env (ps_sinks s) (ps_tasks s) (ps_workers s).

Definition worker_step (i : nat) (s : PoolSystem) : option (outcome PoolSystem) :=
  match ps_workers s !! i with
  | None =>
      match ps_tasks s with
      | [] => None
      | t :: ts => Some (Ok (mkPoolSystem (ps_registry s) (ps_env s) (ps_sinks s) ts
                               (<[ i := WK_task t ]> (ps_workers s))))
      end
  | Some (WK_task t) =>
      Some (Ok (set_worker i (WK_book t)
                  (set_books (get_order_book (task_symbol t) (ps_registry s)).2 (ps_env s) s)))
  | Some (WK_book t) =>
      match task_op t with
      | None => Some (Ok (free_worker i s))
      | Some op =>
          if bool_decide (unlocked (task_symbol t) (ps_workers s))
          then Some (Ok (set_worker i (WK_locked t op) (set_sinks (log_action t (ps_sinks s)) s)))
          else None
      end
  | Some (WK_locked t op) =>
      Some (let* (r, (res, env)) :=
              with_book (task_symbol t) (fun b =>
                let* (b, res, env, _) := apply_op op (None : option (unit -> unit)) b (ps_env s) tt in
                Ok (b, (res, env))) (ps_registry s) in
            Ok (set_worker i (WK_fills res (mr_fills res)) (set_books r env s)))
  | Some (WK_fills res (f :: fs)) =>
      Some (Ok (set_worker i (WK_fills res fs) (set_sinks (log_fill_record (ps_sinks s) f) s)))
  | Some (WK_fills res []) =>
      Some (Ok (set_worker i (WK_reports (mr_execution_reports res) (mr_fills res)) s))
  | Some (WK_reports (r :: rs) fs) =>
      Some (Ok (set_worker i (WK_reports rs fs) (set_sinks (publish_report (ps_sinks s) r) s)))
  | Some (WK_reports [] fs) => Some (Ok (set_worker i (WK_trades fs) s))
  | Some (WK_trades (f :: fs)) =>
      Some (Ok (set_worker i (WK_trades fs) (set_sinks (publish_trade (ps_sinks s) f) s)))
  | Some (WK_trades []) => Some (Ok (free_worker i s))
  end.

Inductive pool_action : Type :=
  | PA_submit (t : Task)
  | PA_worker (i : nat).

Definition pstep (a : pool_action) (s : PoolSystem) : option (outcome PoolSystem) :=
  match a with
  | PA_submit t =>
      Some (Ok (mkPoolSystem (ps_registry s) (ps_env s) (ps_sinks s) (ps_tasks s ++ [t]) (ps_workers s)))
  | PA_worker i => worker_step i s
  end.

Definition init_pool (env : Env) : PoolSystem :=
  mkPoolSystem new_registry env (mkSinks [] [] []) [] ∅.

Fixpoint prun (acts : list pool_action) (s : PoolSystem) : option (outcome PoolSystem) :=
  match acts with
  | [] => Some (Ok s)
  | a :: acts =>
      match pstep a s with
      | Some (Ok s') => prun acts s'
      | r => r
      end
  end.
End Workers.

(** ** Facts *)

(** The log callback runs first and does not influence the operation. *)
Lemma apply_op_log {L} op (lf : option (L -> L)) b env l :
  apply_op op lf b env l =
    (let* (b, res, env, _) := apply_op op (None : option (unit -> unit)) b env tt in
     Ok (b, res, env, run_log lf l)).
Proof.
  destruct op as [o|id|req]; simpl.
  - unfold submitOrder. simpl. destruct (submitOrderInternal _ _ _ _) as [[[b' res] e]|]; done.
  - unfold cancelOrder. simpl. destruct (index_get _ _) as [e|]; simpl; [|done].
    destruct (book_deref _ _); simpl; [|done]. by destruct (unlink _ _).
  - unfold modifyOrder. simpl. destruct (index_get _ _) as [e|]; simpl; [|done].
    destruct (book_deref _ _); simpl; [|done]. destruct (unlink _ _); simpl; [|done].
    destruct (submitOrderInternal _ _ _ _) as [[[b' res] e']|]; done.
Qed.

Section WorkerFacts.
Context (wal pipeline : bool) (junk junk8 : nat -> list ascii).

(** One worker's steps, no other thread in between. *)
Definition alone (i : nat) (s s' : PoolSystem) : Prop :=
  worker_step wal pipeline junk junk8 i s = Some (Ok s').

Lemma fills_run i fs : forall res s, ps_workers s !! i = Some (WK_fills res fs) ->
  star (alone i) s
    (set_worker i (WK_reports (mr_execution_reports res) (mr_fills res))
       (set_sinks (foldl (log_fill_record wal junk) (ps_sinks s) fs) s)).
Proof using.
  induction fs as [|f fs IH]; intros res s Hi.
  - apply star_one. unfold alone, worker_step. by rewrite Hi.
  - eapply star_step.
    { unfold alone, worker_step. rewrite Hi. reflexivity. }
    eapply eq_rect; [apply (IH res); cbn [ps_workers set_worker]; by rewrite lookup_insert_eq|].
    unfold set_worker, set_sinks. simpl. by rewrite insert_insert_eq.
Qed.

Lemma reports_run i rs : forall fs s, ps_workers s !! i = Some (WK_reports rs fs) ->
  star (alone i) s
    (set_worker i (WK_trades fs) (set_sinks (foldl (publish_report pipeline) (ps_sinks s) rs) s)).
Proof using.
  induction rs as [|r rs IH]; intros fs s Hi.
  - apply star_one. unfold alone, worker_step. by rewrite Hi.
  - eapply star_step.
    { unfold alone, worker_step. rewrite Hi. reflexivity. }
    eapply eq_rect; [apply (IH fs); cbn [ps_workers set_worker]; by rewrite lookup_insert_eq|].
    unfold set_worker, set_sinks. simpl. by rewrite insert_insert_eq.
Qed.

Lemma trades_run i fs : forall s, ps_workers s !! i = Some (WK_trades fs) ->
  star (alone i) s
    (free_worker i (set_sinks (foldl (publish_trade pipeline) (ps_sinks s) fs) s)).
Proof using.
  induction fs as [|f fs IH]; intros s Hi.
  - apply star_one. unfold alone, worker_step. by rewrite Hi.
  - eapply star_step.
    { unfold alone, worker_step. rewrite Hi. reflexivity. }
    eapply eq_rect; [apply IH; cbn [ps_workers set_worker]; by rewrite lookup_insert_eq|].
    unfold free_worker, set_worker, set_sinks. simpl. by rewrite delete_insert_eq.
Qed.

(** The part of the body after the match, run by one worker. *)
Lemma after_match_run i res s : ps_workers s !! i = Some (WK_fills res (mr_fills res)) ->
  star (alone i) s (free_worker i (set_sinks (after_match wal pipeline junk res (ps_sinks s)) s)).
Proof using.
  intros Hi. eapply star_trans; [by apply fills_run|].
  eapply star_trans; [apply reports_run; simpl; by rewrite lookup_insert_eq|].
  eapply eq_rect; [apply trades_run; simpl; by rewrite lookup_insert_eq|].
  unfold free_worker, set_worker, set_sinks, after_match. simpl. by rewrite !delete_insert_eq.
Qed.
End WorkerFacts.
