(* ===== verification/Recovery.v ===== *)
(** * Recovery: the replayed log rebuilds the books

    The log and the books of [threadpool/thread_pool.cpp] under any interleaving
    of the workers: at every moment, replaying the records logged so far gives
    the books as they are, except that an operation that has logged itself and
    has yet to match, inside the critical section of its book, is already in
    the replayed book.  Books are compared up to client ids, which the log does
    not hold. *)

From stdpp Require Import base list gmap strings.
From Stdlib Require Import ZArith Lia Ascii.
From S2P Require Import Prelude Types Bytes BinarySerializer SerializerTheorems OrderBook Matching BookInv BookOps BookRegistry ClientErasure SafeQueue Wal ReplayEngine ThreadPool.
Local Open Scope exchange_scope.
Local Open Scope list_scope.

(** ** Definitions *)

(** A task as [Session::process_packet] builds it: the request is the one the
    type announces, its fields fit their types, its symbol fits the wire, and
    the task goes to the book of that symbol. *)
Definition task_ok (t : Task) : Prop :=
  match task_type t, task_request t with
  | T_Submit, ReqOrder o =>
      order_fields_ok o /\ o_remaining_quantity o = o_quantity o /\
      fits_chars 8 (o_symbol o) /\ task_symbol t = o_symbol o
  | T_Cancel, ReqCancel c =>
      cancel_fields_ok c /\ fits_chars 8 (c_symbol c) /\ task_symbol t = c_symbol c
  | T_Modify, ReqModify m =>
      modify_fields_ok m /\ fits_chars 8 (m_symbol m) /\ task_symbol t = m_symbol m
  | _, _ => False
  end.

(** Two registries with the same books, up to client ids; a symbol with no book
    counts as one with an empty book. *)
Definition registry_sim (r1 r2 : BookRegistry) : Prop :=
  forall sym, book_sim (book_of sym r1) (book_of sym r2).

(** ** Registries *)

Lemma book_of_insert sym b r : book_of sym (mkBookRegistry (<[ sym := b ]> (books_ r))) = b.
Proof. unfold book_of. simpl. by rewrite lookup_insert_eq. Qed.

Lemma book_of_insert_ne sym sym' b r : sym <> sym' ->
  book_of sym' (mkBookRegistry (<[ sym := b ]> (books_ r))) = book_of sym' r.
Proof. intros. unfold book_of. simpl. by rewrite lookup_insert_ne. Qed.

Lemma book_of_get sym sym' r : book_of sym' (get_order_book sym r).2 = book_of sym' r.
Proof.
  destruct (get_order_book_spec sym r) as [_ Hb]. unfold book_of at 1. rewrite Hb.
  destruct (decide (sym = sym')) as [<-|Hne].
  - by rewrite lookup_insert_eq.
  - by rewrite lookup_insert_ne.
Qed.

Lemma registry_ok_get sym r : registry_ok r -> registry_ok (get_order_book sym r).2.
Proof.
  intros Hr. destruct (get_order_book_spec sym r) as [_ Hb]. unfold registry_ok. rewrite Hb.
  apply map_Forall_insert_2; [|done]. by apply book_of_ok.
Qed.

(** ** A request and its record *)

Lemma wire_order_sim o : o_remaining_quantity o = o_quantity o -> fits_chars 8 (o_symbol o) ->
  wire_order o = set_client 0 o.
Proof. intros Hr Hf. unfold wire_order, set_client. by rewrite kept_id, Hr. Qed.

Section Recovery.
Context (pipeline : bool) (junk junk8 : nat -> list ascii) (env0 : Env).
Context (Hjunk : forall n, length (junk n) = 52) (Hjunk8 : forall n, length (junk8 n) = 8).

Lemma task_op_ok t : task_ok t -> exists op, task_op t = Some op /\ op_ok op.
Proof using.
  unfold task_ok, task_op. destruct (task_type t), (task_request t); try done.
  - intros (Ho & Hr & _). eexists. split; [done|]. simpl. unfold rem_ok, rem. rewrite Hr. apply Ho.
  - intros _. by eexists.
  - intros (Hm & _). eexists. split; [done|]. apply Hm.
Qed.

Lemma request_entry_ok n t : task_ok t -> fields_ok (request_entry junk junk8 n (task_request t)).
Proof using Hjunk Hjunk8.
  unfold task_ok. destruct (task_type t), (task_request t); try done; simpl.
  - intros (Ho & _). by apply order_entry_ok.
  - intros (Hc & _). by apply cancel_entry_ok.
  - intros (Hm & _). by apply modify_entry_ok.
Qed.

(** Reading the record of a task back runs the task's operation, up to client
    ids, on the book of the task's symbol. *)
Lemma replay_request n t op st : task_ok t -> task_op t = Some op ->
  exists op', replay_entry (request_entry junk junk8 n (task_request t)) st
                = replay_op (task_symbol t) op' st /\ op_sim op op' /\ op_ok op'.
Proof using Hjunk Hjunk8.
  unfold task_ok, task_op. destruct (task_type t), (task_request t) as [o|c|m]; try done; simpl.
  - intros (Ho & Hr & Hf & ->) [= <-]. exists (OpSubmit (wire_order o)).
    rewrite replay_order_entry, kept_id by done. split; [done|]. rewrite wire_order_sim by done.
    split; [by exists 0%Z|]. simpl. unfold rem_ok, rem. simpl. rewrite Hr. apply Ho.
  - intros (Hc & Hf & ->) [= <-]. exists (OpCancel (c_order_id c)).
    by rewrite replay_cancel_entry, kept_id.
  - intros (Hm & Hf & ->) [= <-]. exists (OpModify (wire_modify m)).
    rewrite replay_modify_entry, kept_id by done. split; [done|]. split; [done|]. apply Hm.
Qed.

(** One replayed operation, on a book related to the live one. *)
Lemma replay_op_sim sym op op' st b env b' res env' u :
  registry_ok (rs_registry st) -> op_ok op' -> op_sim op op' ->
  book_sim (book_of sym (rs_registry st)) b ->
  apply_op op (None : option (unit -> unit)) b env tt = Ok (b', res, env', u) ->
  exists st', replay_op sym op' st = Ok st' /\ registry_ok (rs_registry st') /\
    book_sim (book_of sym (rs_registry st')) b' /\
    (forall sym', sym <> sym' -> book_of sym' (rs_registry st') = book_of sym' (rs_registry st)).
Proof using.
  intros Hr Hok Hop Hb Ha.
  destruct (registry_op_ok sym op' (None : option (unit -> unit)) (rs_registry st) (rs_env st) tt Hr Hok)
    as (b2 & res2 & env2 & Ha2 & Hro & Hr2).
  pose proof (apply_op_sim op op' (None : option (unit -> unit)) (None : option (unit -> unit))
    b (book_of sym (rs_registry st)) env (rs_env st) tt tt Hop (symmetry Hb)) as Hs.
  rewrite Ha, Ha2 in Hs. destruct Hs as [Hs _]. simpl in Hs.
  unfold replay_op. rewrite Hro. cbn [obind]. eexists. split; [done|]. cbn [rs_registry].
  split; [done|]. split; [by rewrite book_of_insert|]. intros. by rewrite book_of_insert_ne.
Qed.

(** ** The invariant *)

Definition replays_to (log : list WALEntry) (rep : BookRegistry) : Prop :=
  exists st, replay_all log (mkReplayState new_registry env0 0) = Ok st /\ rs_registry st = rep.

Definition in_critical (w : option worker) : Prop :=
  match w with Some (WK_locked _ _) => True | _ => False end.

Definition worker_ok (r : BookRegistry) (w : worker) : Prop :=
  match w with
  | WK_task t => task_ok t
  | WK_book t => task_ok t /\ is_Some (books_ r !! task_symbol t)
  | WK_locked t op => task_ok t /\ task_op t = Some op /\ is_Some (books_ r !! task_symbol t)
  | _ => True
  end.

(** The replayed book of [sym] against the live one. *)
Definition sym_sim (rep r : BookRegistry) (ws : gmap nat worker) (sym : Symbol) : Prop :=
  (unlocked sym ws -> book_sim (book_of sym rep) (book_of sym r)) /\
  (forall i t op, ws !! i = Some (WK_locked t op) -> task_symbol t = sym ->
     exists b' res env' u,
       apply_op op (None : option (unit -> unit)) (book_of sym r) env0 tt = Ok (b', res, env', u) /\
       book_sim (book_of sym rep) b').

Record pool_inv (s : PoolSystem) : Prop := mkPoolInv {
  pi_registry : registry_ok (ps_registry s);
  pi_tasks : Forall task_ok (ps_tasks s);
  pi_workers : map_Forall (fun _ w => worker_ok (ps_registry s) w) (ps_workers s);
  pi_excl : forall i j t1 t2 o1 o2,
    ps_workers s !! i = Some (WK_locked t1 o1) -> ps_workers s !! j = Some (WK_locked t2 o2) ->
    task_symbol t1 = task_symbol t2 -> i = j;
  pi_log : Forall fields_ok (log_records (ps_sinks s));
  pi_replay : exists rep, replays_to (log_records (ps_sinks s)) rep /\ registry_ok rep /\
    forall sym, sym_sim rep (ps_registry s) (ps_workers s) sym }.

Lemma init_pool_inv env : pool_inv (init_pool env).
Proof using.
  constructor; simpl; try done.
  exists new_registry. split; [by eexists|]. split; [done|]. intros sym. by split.
Qed.

Lemma unlocked_agree sym i (ws ws' : gmap nat worker) :
  ~ in_critical (ws !! i) -> ~ in_critical (ws' !! i) ->
  (forall j, j <> i -> ws' !! j = ws !! j) -> unlocked sym ws -> unlocked sym ws'.
Proof using.
  intros H1 H2 H3 Hu j w Hj. destruct (decide (j = i)) as [->|Hne].
  - rewrite Hj in H2. by destruct w.
  - rewrite H3 in Hj by done. exact (Hu j w Hj).
Qed.

Lemma locked_agree i (ws ws' : gmap nat worker) j t op :
  ~ in_critical (ws' !! i) -> (forall j, j <> i -> ws' !! j = ws !! j) ->
  ws' !! j = Some (WK_locked t op) -> ws !! j = Some (WK_locked t op).
Proof using.
  intros H2 H3 Hj. destruct (decide (j = i)) as [->|Hne].
  - by rewrite Hj in H2.
  - by rewrite <- H3.
Qed.

(** A step of worker [i] outside the critical section: no book changes, and
    what it may log is skipped by the replay. *)
Lemma inv_move i s s' :
  pool_inv s ->
  registry_ok (ps_registry s') ->
  (forall sym, book_of sym (ps_registry s') = book_of sym (ps_registry s)) ->
  (forall sym, is_Some (books_ (ps_registry s) !! sym) -> is_Some (books_ (ps_registry s') !! sym)) ->
  Forall task_ok (ps_tasks s') ->
  ~ in_critical (ps_workers s !! i) -> ~ in_critical (ps_workers s' !! i) ->
  (forall j, j <> i -> ps_workers s' !! j = ps_workers s !! j) ->
  (forall w, ps_workers s' !! i = Some w -> worker_ok (ps_registry s') w) ->
  Forall fields_ok (log_records (ps_sinks s')) ->
  (forall rep, replays_to (log_records (ps_sinks s)) rep -> replays_to (log_records (ps_sinks s')) rep) ->
  pool_inv s'.
Proof using.
  intros [Hr Ht Hw He Hl (rep & Hrep & Hrr & Hs)] Hr' Hb Hd Ht' Hi Hi' Hj Hwi Hl' Hrep'.
  constructor; try done.
  - intros j w Hjw. destruct (decide (j = i)) as [->|Hne]; [by apply Hwi|].
    rewrite Hj in Hjw by done. specialize (Hw _ _ Hjw). destruct w; simpl in *; naive_solver.
  - intros j1 j2 t1 t2 o1 o2 H1 H2. apply (locked_agree i (ps_workers s)) in H1, H2; try done. eauto.
  - exists rep. split; [auto|]. split; [done|]. intros sym. destruct (Hs sym) as [Hsu Hsl].
    split; rewrite Hb.
    + intros Hu. apply Hsu. eapply (unlocked_agree sym i (ps_workers s')); try done.
      intros j Hne. by rewrite Hj.
    + intros j t op Hjl. apply Hsl with j. by apply (locked_agree i (ps_workers s)) in Hjl.
Qed.

Lemma replays_to_snoc log e st st' rep :
  replay_all log (mkReplayState new_registry env0 0) = Ok st -> replay_entry e st = Ok st' ->
  rs_registry st' = rep -> replays_to (log ++ [e]) rep.
Proof using.
  intros Hl He <-. exists st'. split; [|done]. rewrite replay_all_app, Hl. simpl. by rewrite He.
Qed.

Lemma not_unlocked i w sym (ws : gmap nat worker) :
  ws !! i = Some w -> locks sym w = true -> ~ unlocked sym ws.
Proof using. intros Hi Hl Hu. specialize (Hu _ _ Hi). simpl in Hu. congruence. Qed.

Lemma unlocked_insert sym i w (ws : gmap nat worker) :
  ~ in_critical (ws !! i) -> unlocked sym (<[ i := w ]> ws) -> unlocked sym ws.
Proof using.
  intros Hi Hu j w' Hj. destruct (decide (j = i)) as [->|Hne].
  - rewrite Hj in Hi. by destruct w'.
  - apply (Hu j). by rewrite lookup_insert_ne.
Qed.

(** Entering the critical section: the record is logged, and the replayed book
    runs ahead of the live one by this operation. *)
Lemma inv_lock i t op s :
  pool_inv s -> ps_workers s !! i = Some (WK_book t) -> task_op t = Some op ->
  unlocked (task_symbol t) (ps_workers s) ->
  pool_inv (set_worker i (WK_locked t op) (set_sinks (log_action true junk junk8 t (ps_sinks s)) s)).
Proof using Hjunk Hjunk8.
  intros [Hr Ht Hw He Hl (rep & (st & Hall & Hst) & Hrr & Hs)] Hi Hop Hu.
  pose proof (Hw _ _ Hi) as [Htok Hbook]. simpl in Htok, Hbook.
  destruct (task_op_ok t Htok) as (op1 & Hop1 & Hok). rewrite Hop in Hop1. injection Hop1 as <-.
  destruct (replay_request (length (log_records (ps_sinks s))) t op st Htok Hop) as (op' & Hre & Hsim & Hok').
  destruct (book_of_ok (task_symbol t) _ Hr) as [_ Hbok].
  destruct (apply_op_ok (None : option (unit -> unit)) op _ env0 tt Hbok Hok) as (b' & res & env' & Ha & _).
  rewrite <- Hst in Hrr, Hs.
  destruct (replay_op_sim (task_symbol t) op op' st _ _ _ _ _ _ Hrr Hok' Hsim (proj1 (Hs _) Hu) Ha)
    as (st' & Hrop & Hr' & Hb' & Hoth).
  assert (forall sym j t' op2, ps_workers s !! j = Some (WK_locked t' op2) -> task_symbol t' = sym ->
            sym <> task_symbol t) as Hne.
  { intros sym j t' op2 Hj <- Heq. apply (not_unlocked _ _ (task_symbol t)) in Hj; [done|].
    simpl. by rewrite Heq, bool_decide_eq_true_2. }
  constructor; cbn [ps_registry ps_env ps_sinks ps_tasks ps_workers set_worker set_sinks log_action
    add_record log_records]; try done.
  - apply map_Forall_insert_2; [|done]. done.
  - intros j1 j2 t1 t2 o1 o2. rewrite !lookup_insert_Some.
    intros [[<- [= <- <-]]|[Hn1 H1]] [[<- E2]|[Hn2 H2]] Heq; try injection E2 as <- <-; try done.
    + exfalso. by apply (Hne _ _ _ _ H2 eq_refl).
    + exfalso. by apply (Hne _ _ _ _ H1 eq_refl).
    + eauto.
  - apply Forall_app. split; [done|]. constructor; [|constructor]. by apply request_entry_ok.
  - exists (rs_registry st'). split; [eapply replays_to_snoc; [exact Hall|by rewrite Hre|done]|].
    split; [done|]. intros sym. split.
    + intros Hu'. destruct (decide (task_symbol t = sym)) as [<-|Hns].
      { exfalso. eapply (not_unlocked i (WK_locked t op)); [by rewrite lookup_insert_eq| |exact Hu'].
        simpl. by rewrite bool_decide_eq_true_2. }
      rewrite Hoth by done. apply (Hs sym). eapply unlocked_insert; [|exact Hu']. rewrite Hi; simpl; tauto.
    + intros j t' op2 [[<- E]|[Hn Hj]]%lookup_insert_Some Hsy.
      * injection E as <- <-. subst sym. eauto 10.
      * pose proof (Hne _ _ _ _ Hj Hsy). rewrite Hoth by done. exact (proj2 (Hs sym) j t' op2 Hj Hsy).
Qed.

(** Leaving it: the live book catches up. *)
Lemma inv_match i t op s :
  pool_inv s -> ps_workers s !! i = Some (WK_locked t op) ->
  exists b' res env',
    with_book (task_symbol t) (fun b =>
      let* (b, res, env, _) := apply_op op (None : option (unit -> unit)) b (ps_env s) tt in
      Ok (b, (res, env))) (ps_registry s)
      = Ok (mkBookRegistry (<[ task_symbol t := b' ]> (books_ (ps_registry s))), (res, env')) /\
    pool_inv (set_worker i (WK_fills res (mr_fills res))
      (set_books (mkBookRegistry (<[ task_symbol t := b' ]> (books_ (ps_registry s)))) env' s)).
Proof using Hjunk Hjunk8.
  intros [Hr Ht Hw He Hl (rep & Hrep & Hrr & Hs)] Hi.
  pose proof (Hw _ _ Hi) as (Htok & Hop & [b Hb]). simpl in Htok, Hop, Hb.
  destruct (task_op_ok t Htok) as (op1 & Hop1 & Hok). rewrite Hop in Hop1. injection Hop1 as <-.
  assert (book_of (task_symbol t) (ps_registry s) = b) as Hbo by (unfold book_of; by rewrite Hb).
  destruct (Hr _ _ Hb) as [Hsym Hbok].
  destruct (apply_op_ok (None : option (unit -> unit)) op b (ps_env s) tt Hbok Hok)
    as (b' & res & env' & Ha & Hb'ok).
  exists b', res, env'. unfold with_book. rewrite Hb. cbn [of_option obind]. rewrite Ha. split; [done|].
  assert (registry_ok (mkBookRegistry (<[ task_symbol t := b' ]> (books_ (ps_registry s))))) as Hr'.
  { apply map_Forall_insert_2; [|done]. apply apply_op_symbol in Ha. by rewrite Ha. }
  assert (Hother : forall j w, j <> i -> ps_workers s !! j = Some w -> locks (task_symbol t) w = false).
  { intros j w Hne Hj. destruct w; try done. simpl. apply bool_decide_eq_false_2. intros Heq.
    apply Hne. by eapply He. }
  constructor; cbn [ps_registry ps_env ps_sinks ps_tasks ps_workers set_worker set_books]; try done.
  - apply map_Forall_insert_2; [done|]. intros j w Hj. specialize (Hw _ _ Hj).
    destruct w; try done; simpl in *; destruct_and?; split_and?; try done;
      by rewrite lookup_insert_is_Some'; right.
  - intros j1 j2 t1 t2 o1 o2. rewrite !lookup_insert_Some.
    intros [[<- [=]]|[Hn1 H1]] [[<- [=]]|[Hn2 H2]] Heq. eauto.
  - exists rep. split; [done|]. split; [done|]. intros sym.
    destruct (decide (task_symbol t = sym)) as [<-|Hns].
    + split; rewrite book_of_insert.
      * intros _. destruct (proj2 (Hs (task_symbol t)) i t op Hi eq_refl) as (b0 & r0 & e0 & u0 & Ha0 & Hb0).
        rewrite Hbo in Ha0.
        assert (op_sim op op) as Hss by (destruct op; simpl; done).
        pose proof (apply_op_sim op op (None : option (unit -> unit)) (None : option (unit -> unit))
          b b env0 (ps_env s) tt tt Hss (reflexivity b)) as Hsim.
        rewrite Ha0, Ha in Hsim. destruct Hsim as [Hsim _]. simpl in Hsim. by etrans.
      * intros j t' op2 [[<- [=]]|[Hn Hj]]%lookup_insert_Some Hsy.
        apply Hother in Hj; [|done]. simpl in Hj. by apply bool_decide_eq_false in Hj.
    + unfold sym_sim. rewrite book_of_insert_ne by done. split.
      * intros Hu. apply (Hs sym). intros j w Hj. destruct (decide (j = i)) as [->|Hne].
        -- rewrite Hi in Hj. injection Hj as <-. simpl. by apply bool_decide_eq_false_2.
        -- apply (Hu j). by rewrite lookup_insert_ne.
      * intros j t' op2 [[<- [=]]|[Hn Hj]]%lookup_insert_Some Hsy. exact (proj2 (Hs sym) j t' op2 Hj Hsy).
Qed.

Lemma replays_to_fill log f rep :
  replays_to log rep -> replays_to (log ++ [fill_entry (junk (length log)) f]) rep.
Proof using. intros (st & Hall & Hst). eapply replays_to_snoc; [exact Hall|apply replay_fill_entry|done]. Qed.

Lemma worker_step_inv i s r :
  pool_inv s -> worker_step true pipeline junk junk8 i s = Some r -> exists s', r = Ok s' /\ pool_inv s'.
Proof using Hjunk Hjunk8.
  intros Hinv Hstep. pose proof Hinv as [Hr Ht Hw _ Hl _]. unfold worker_step in Hstep.
  destruct (ps_workers s !! i) as [[t|t|t op|res [|f fs]|[|er rs] fs|[|f fs]]|] eqn:Hi.
  3:{ destruct (inv_match i t op s Hinv Hi) as (b' & res & env' & Hwb & Hinv'). rewrite Hwb in Hstep.
      simpl in Hstep. injection Hstep as <-. eauto. }
  2:{ destruct (Hw _ _ Hi) as [Htok _]. destruct (task_op_ok t Htok) as (op & Hop & _). rewrite Hop in Hstep.
      destruct (bool_decide _) eqn:Eu; [|done]. injection Hstep as <-. apply bool_decide_eq_true in Eu.
      eexists. split; [done|]. by apply inv_lock. }
  all: try (injection Hstep as <-).
  8:{ destruct (ps_tasks s) as [|t ts] eqn:Ets; [done|]. injection Hstep as <-. eexists. split; [done|].
      apply Forall_cons in Ht as [Ht1 Ht]. apply (inv_move i s); simpl; rewrite ?Hi, ?lookup_insert_eq; auto.
      - intros j Hne. by rewrite lookup_insert_ne.
      - by intros w [= <-]. }
  all: eexists; split; [done|]; apply (inv_move i s);
    cbn [ps_registry ps_env ps_sinks ps_tasks ps_workers set_worker set_books set_sinks free_worker];
    rewrite ?Hi, ?lookup_insert_eq, ?lookup_delete_eq; simpl; auto;
    try (intros j Hne; by rewrite ?lookup_insert_ne, ?lookup_delete_ne);
    try (by intros w [= <-]); try done.
  - by apply registry_ok_get.
  - intros sym. apply book_of_get.
  - intros sym. destruct (get_order_book_spec (task_symbol t) (ps_registry s)) as [_ ->].
    rewrite lookup_insert_is_Some'. tauto.
  - intros w [= <-]. simpl. split; [exact (Hw _ _ Hi)|].
    destruct (get_order_book_spec (task_symbol t) (ps_registry s)) as [_ ->]. by rewrite lookup_insert_eq.
  - apply Forall_app. split; [done|]. constructor; [|constructor]. by apply fill_entry_ok.
  - intros rep. apply replays_to_fill.
  - by destruct pipeline.
  - by destruct pipeline.
  - by destruct pipeline.
  - by destruct pipeline.
Qed.

(** A step of the pool: a task of the gateway arrives, or a worker moves. *)
Definition pool_step (s s' : PoolSystem) : Prop :=
  exists a, match a with PA_submit t => task_ok t | PA_worker _ => True end /\
    pstep true pipeline junk junk8 a s = Some (Ok s').

Definition pool_reachable : PoolSystem -> Prop :=
  reachable (fun s => exists env, s = init_pool env) pool_step.

Lemma pool_reachable_inv s : pool_reachable s -> pool_inv s.
Proof using Hjunk Hjunk8.
  apply reachable_invariant; [intros ? [env ->]; apply init_pool_inv|].
  intros s1 s2 Hinv ([t|i] & Hok & Hs); simpl in Hs.
  - injection Hs as <-. destruct Hinv. constructor; try done. simpl. apply Forall_app. auto.
  - destruct (worker_step_inv i s1 _ Hinv Hs) as (s' & [= <-] & Hinv'). done.
Qed.
End Recovery.
