(* ===== verification/PoolTheorems.v ===== *)
(** * Theorems about the workers, the log and recovery

    Properties of [threadpool/thread_pool.cpp], [engine/replay_engine.cpp] and
    [registry/book_registry.cpp] together. *)

From stdpp Require Import base list gmap strings.
From Stdlib Require Import ZArith Lia Ascii.
From S2P Require Import Prelude Types Bytes BinarySerializer SerializerTheorems Fifo MpscQueue OrderBook Matching BookInv BookOps BookRegistry ClientErasure SafeQueue Wal WalSystem ReplayEngine ThreadPool Recovery.
Local Open Scope exchange_scope.
Local Open Scope list_scope.

(** ** Definitions *)

Definition w_junk (n : nat) : list ascii := w_uninit 52.
Definition w_junk8 (n : nat) : list ascii := w_uninit 8.
Definition w_env : Env := mkEnv 1 (fun n => Z.of_nat n) 0.

Definition w_task_order (id : Z) (sym : string) (s : Side) (px qty : Z) (c : Z) : Task :=
  mkTask T_Submit (ReqOrder (mkOrder id sym s Limit px qty qty id c)) sym.

Definition w_cancel_task (id : Z) (sym : string) (c : Z) : Task :=
  mkTask T_Cancel (ReqCancel (mkCancelRequest id sym 99 c)) sym.

Definition w_modify_task (id : Z) (sym : string) (px qty : Z) (c : Z) : Task :=
  mkTask T_Modify (ReqModify (mkModifyRequest id sym px qty 50 c)) sym.

(** Orders on two symbols, a cross, a modify and a cancel, on three workers. *)
Definition w_pool_actions : list pool_action :=
  [PA_submit (w_task_order 1 "AAPL" Buy 100 10 1);
   PA_submit (w_task_order 2 "MSFT" Sell 300 5 2);
   PA_submit (w_task_order 3 "AAPL" Sell 100 4 2);
   PA_submit (w_modify_task 2 "MSFT" 290 7 2)] ++
  (PA_worker <$> [1; 2; 3; 1; 2; 3; 2; 2; 1; 1; 3; 1; 2; 3; 1; 2; 3; 1; 2; 3; 1; 2; 3; 1; 3; 1; 3; 1; 3; 1; 3; 1; 1; 1; 1]).

Definition submitted_ok (a : pool_action) : Prop :=
  match a with PA_submit t => task_ok t | PA_worker _ => True end.

(** ** Facts *)

Lemma w_junk_length n : length (w_junk n) = 52.
Proof. reflexivity. Qed.

Lemma w_junk8_length n : length (w_junk8 n) = 8.
Proof. reflexivity. Qed.

Lemma prun_reachable pipeline junk junk8 acts : forall s s',
  pool_reachable pipeline junk junk8 s -> Forall submitted_ok acts ->
  prun true pipeline junk junk8 acts s = Some (Ok s') -> pool_reachable pipeline junk junk8 s'.
Proof.
  induction acts as [|a acts IH]; intros s s' Hr Hok; simpl; [by intros [= <-]|].
  apply Forall_cons in Hok as [Ha Hok].
  destruct (pstep true pipeline junk junk8 a s) as [[s1|f]|] eqn:Hs; try done.
  apply IH; [|done]. eapply reach_step; [exact Hr|]. exists a. by destruct a.
Qed.

Lemma w_tasks_ok : Forall submitted_ok w_pool_actions.
Proof.
  repeat constructor; simpl; unfold is_u64, is_u32, fits_chars; simpl; try lia; try done;
    intros Hin; repeat (apply elem_of_cons in Hin as [Hin|Hin]; [discriminate Hin|]);
    by apply not_elem_of_nil in Hin.
Qed.

Lemma w_pool_run : exists s, prun true true w_junk w_junk8 w_pool_actions (init_pool w_env) = Some (Ok s) /\
  ps_workers s = ∅ /\ length (log_records (ps_sinks s)) = 5.
Proof. eexists. split; [vm_compute; reflexivity|]. split; vm_compute; reflexivity. Qed.

Lemma replay_all_prefix es1 es2 st st' : replay_all (es1 ++ es2) st = Ok st' ->
  exists st1, replay_all es1 st = Ok st1.
Proof. rewrite replay_all_app. intros (st1 & H & _)%obind_ok. eauto. Qed.

(** ** Properties *)

(** Whatever the interleaving of clients and workers, no step of a worker
    faults (no dangling book pointer, no bad iterator, no exhausted loop), and
    every book stays under its own symbol with its invariant. *)
Theorem pool_safe pipeline junk junk8 s i r :
  (forall n, length (junk n) = 52) -> (forall n, length (junk8 n) = 8) ->
  pool_reachable pipeline junk junk8 s ->
  registry_ok (ps_registry s) /\
  (worker_step true pipeline junk junk8 i s = Some r -> exists s', r = Ok s').
Proof.
  intros Hj Hj8 Hr. pose proof (pool_reachable_inv pipeline junk junk8 w_env Hj Hj8 s Hr) as Hinv.
  split; [by destruct Hinv|]. intros Hs.
  destruct (worker_step_inv pipeline junk junk8 w_env Hj Hj8 i s r Hinv Hs) as (s' & -> & _). eauto.
Qed.

Lemma pool_safe_witness : exists s r,
  pool_reachable true w_junk w_junk8 s /\ worker_step true true w_junk w_junk8 7 s = Some r /\
  exists s', r = Ok s'.
Proof.
  pose (s := mkPoolSystem new_registry w_env (mkSinks [] [] []) [w_task_order 1 "AAPL" Buy 100 10 1] ∅).
  assert (pool_reachable true w_junk w_junk8 s) as Hr.
  { eapply (prun_reachable _ _ _ (take 1 w_pool_actions)); [apply reach_init; by exists w_env| |reflexivity].
    apply Forall_take, w_tasks_ok. }
  eexists s, _. split; [exact Hr|]. split; [reflexivity|].
  exact (proj2 (pool_safe true w_junk w_junk8 s 7 _ w_junk_length w_junk8_length Hr) eq_refl).
Defined.

(** Recovery.  Replaying the log of any run of the pool, cut at any moment
    when no worker is inside a critical section, opens, consumes every record
    and gives back the books of the live registry, up to client ids; a record
    torn off at the end of the file is skipped. *)
Theorem replay_recovers_books pipeline junk junk8 s torn env :
  (forall n, length (junk n) = 52) -> (forall n, length (junk8 n) = 8) ->
  pool_reachable pipeline junk junk8 s -> (forall sym, unlocked sym (ps_workers s)) ->
  (length torn < sizeof WALEntry)%nat ->
  exists st, replay (Some (wal_bytes (log_records (ps_sinks s)) ++ torn)) new_registry env = Ok (true, st) /\
    registry_sim (rs_registry st) (ps_registry s).
Proof.
  intros Hj Hj8 Hr Hu Ht.
  destruct (pool_reachable_inv pipeline junk junk8 (reset_ids 1 env) Hj Hj8 s Hr)
    as [_ _ _ _ Hlog (rep & (st & Hall & <-) & _ & Hs)].
  exists st. unfold replay. rewrite replay_loop_records; [|done..|].
  - rewrite Hall. split; [done|]. intros sym. by apply Hs.
  - pose proof (wal_bytes_length _ Hlog). rewrite length_app. lia.
Qed.

Lemma replay_recovers_books_witness : exists s st,
  pool_reachable true w_junk w_junk8 s /\
  replay (Some (wal_bytes (log_records (ps_sinks s)) ++ w_uninit 20)) new_registry w_env = Ok (true, st) /\
  registry_sim (rs_registry st) (ps_registry s).
Proof.
  destruct w_pool_run as (s & Hs & Hw & _). exists s.
  assert (pool_reachable true w_junk w_junk8 s) as Hr.
  { eapply prun_reachable; [apply reach_init; exists w_env; reflexivity|exact w_tasks_ok|exact Hs]. }
  assert (forall sym, unlocked sym (ps_workers s)) as Hu.
  { intros sym. rewrite Hw. apply map_Forall_empty. }
  assert (length (w_uninit 20) < sizeof WALEntry)%nat as Hl by (vm_compute; lia).
  destruct (replay_recovers_books true w_junk w_junk8 s (w_uninit 20) w_env w_junk_length w_junk8_length
    Hr Hu Hl) as (st & Hst & Hsim).
  exists st. exact (conj Hr (conj Hst Hsim)).
Defined.

(** A crash loses at most the end of the log: replaying any prefix of the
    records logged so far, at any moment, followed by a torn record, succeeds. *)
Theorem replay_after_crash pipeline junk junk8 s flushed rest torn env :
  (forall n, length (junk n) = 52) -> (forall n, length (junk8 n) = 8) ->
  pool_reachable pipeline junk junk8 s -> log_records (ps_sinks s) = flushed ++ rest ->
  (length torn < sizeof WALEntry)%nat ->
  exists st, replay (Some (wal_bytes flushed ++ torn)) new_registry env = Ok (true, st) /\
    replay_all flushed (mkReplayState new_registry (reset_ids 1 env) 0) = Ok st.
Proof.
  intros Hj Hj8 Hr Hl Ht.
  destruct (pool_reachable_inv pipeline junk junk8 (reset_ids 1 env) Hj Hj8 s Hr)
    as [_ _ _ _ Hlog (rep & (st & Hall & _) & _ & _)].
  rewrite Hl in Hall, Hlog. apply replay_all_prefix in Hall as (st1 & Hall).
  apply Forall_app in Hlog as [Hlog _].
  exists st1. unfold replay. rewrite replay_loop_records; [by rewrite Hall|done..|].
  pose proof (wal_bytes_length _ Hlog). rewrite length_app. lia.
Qed.

Lemma replay_after_crash_witness : exists s st,
  pool_reachable true w_junk w_junk8 s /\
  replay (Some (wal_bytes (take 3 (log_records (ps_sinks s))) ++ [])) new_registry w_env = Ok (true, st).
Proof.
  destruct w_pool_run as (s & Hs & _). exists s.
  assert (pool_reachable true w_junk w_junk8 s) as Hr.
  { eapply prun_reachable; [apply reach_init; exists w_env; reflexivity|exact w_tasks_ok|exact Hs]. }
  assert (length (@nil ascii) < sizeof WALEntry)%nat as Hl by (vm_compute; lia).
  destruct (replay_after_crash true w_junk w_junk8 s (take 3 (log_records (ps_sinks s)))
    (drop 3 (log_records (ps_sinks s))) [] w_env w_junk_length w_junk8_length
    Hr (eq_sym (take_drop _ _)) Hl) as (st & Hst & _).
  exists st. exact (conj Hr Hst).
Defined.

(** A worker that runs one task with no other thread in between does what
    the body of [worker_loop] does: the interleaved steps compose to it. *)
Theorem worker_runs_process_task wal pipeline junk junk8 i t op ts s :
  ps_workers s !! i = None -> ps_tasks s = t :: ts -> task_op t = Some op -> op_ok op ->
  registry_ok (ps_registry s) -> unlocked (task_symbol t) (ps_workers s) ->
  exists r env k,
    process_task wal pipeline junk junk8 t (ps_registry s) (ps_env s) (ps_sinks s) = Ok (r, env, k) /\
    star (alone wal pipeline junk junk8 i) s (mkPoolSystem r env k ts (ps_workers s)).
Proof.
  intros Hi Hts Hop Hok Hr Hu.
  pose proof (registry_ok_get (task_symbol t) _ Hr) as Hr1.
  destruct (get_order_book_spec (task_symbol t) (ps_registry s)) as [Hg1 Hg2].
  destruct (book_of_ok (task_symbol t) _ Hr) as [_ Hb].
  destruct (apply_op_ok (None : option (unit -> unit)) op _ (ps_env s) tt Hb Hok) as (b' & res & env' & Ha & _).
  exists (mkBookRegistry (<[ task_symbol t := b' ]> (books_ (ps_registry s)))), env',
    (after_match wal pipeline junk res (log_action wal junk junk8 t (ps_sinks s))).
  split.
  - unfold process_task. destruct (get_order_book _ _) as [p r1]. cbn [fst snd] in *. subst p.
    rewrite Hop. unfold with_book. rewrite Hg2, lookup_insert_eq. cbn [of_option obind].
    rewrite apply_op_log, Ha. cbn [obind]. by rewrite insert_insert_eq.
  - assert (~ in_critical (ps_workers s !! i)) as Hnc by (rewrite Hi; simpl; tauto).
    eapply star_step. { unfold alone, worker_step. rewrite Hi, Hts. reflexivity. }
    eapply star_step. { unfold alone, worker_step. cbn [ps_workers]. rewrite lookup_insert_eq. reflexivity. }
    eapply star_step.
    { unfold alone, worker_step. cbn [ps_workers set_worker]. rewrite lookup_insert_eq, Hop.
      cbn [ps_workers set_books set_worker]. rewrite bool_decide_eq_true_2; [reflexivity|].
      rewrite insert_insert_eq. apply map_Forall_insert_2; [done|exact Hu]. }
    eapply star_step.
    { unfold alone, worker_step. cbn [ps_workers set_worker]. rewrite lookup_insert_eq.
      cbn [ps_registry ps_env set_sinks set_books set_worker]. unfold with_book.
      rewrite Hg2, lookup_insert_eq. cbn [of_option obind]. rewrite Ha. cbn [obind]. reflexivity. }
    eapply eq_rect; [apply after_match_run; cbn [ps_workers set_worker]; by rewrite lookup_insert_eq|].
    unfold free_worker, set_worker, set_sinks, set_books. simpl.
    by rewrite !insert_insert_eq, !delete_insert_eq, delete_id, ?insert_insert_eq by done.
Qed.

Lemma worker_runs_process_task_witness :
  let t := w_task_order 3 "AAPL" Sell 100 4 2 in
  let s := mkPoolSystem new_registry w_env (mkSinks [] [] []) [t] ∅ in
  exists r env k,
    process_task true true w_junk w_junk8 t (ps_registry s) (ps_env s) (ps_sinks s) = Ok (r, env, k) /\
    star (alone true true w_junk w_junk8 1) s (mkPoolSystem r env k [] (ps_workers s)).
Proof.
  cbv zeta. eapply (worker_runs_process_task true true w_junk w_junk8 1 (w_task_order 3 "AAPL" Sell 100 4 2)).
  - reflexivity.
  - reflexivity.
  - reflexivity.
  - unfold op_ok, rem_ok, rem. simpl. lia.
  - apply map_Forall_empty.
  - apply map_Forall_empty.
Defined.

(** A torn record is skipped by the replay, but the log that is started on the
    same file appends behind it: from then on no record is read where it was
    written.  Here an order is on file, one byte of the next record follows, and
    the log is started, given the order's cancellation and stopped; the replay
    never sees the cancellation. *)
Definition w_torn : list ascii := [ascii_of_nat 2].
Definition w_order_record : WALEntry :=
  order_entry (w_uninit 52) (w_uninit 8) (mkOrder 1 "AAPL" Buy Limit 100 10 10 1 1).
Definition w_cancel_record : WALEntry := cancel_entry (w_uninit 52) (mkCancelRequest 1 "AAPL" 99 1).

Theorem append_after_torn_record_lost :
  exists w w' : WAL (MpscQueue.MPSCQueue WALEntry),
    log_all 1 [w_cancel_record] (Wal.start true (new_wal (wal_bytes [w_order_record] ++ w_torn))) = Ok w /\
    Wal.stop 2 w = Ok w' /\
    (exists st, replay (Some (disk w')) new_registry w_env = Ok (true, st) /\
       resting_ids (book_of "AAPL" (rs_registry st)) = [1%Z]) /\
    (exists st, replay (Some (wal_bytes [w_order_record; w_cancel_record])) new_registry w_env = Ok (true, st) /\
       resting_ids (book_of "AAPL" (rs_registry st)) = []).
Proof.
  eexists _, _. split; [vm_compute; reflexivity|]. split; [vm_compute; reflexivity|].
  split; eexists; (split; [vm_compute; reflexivity|vm_compute; reflexivity]).
Qed.
