(* ===== verification/ConnectionManager.v ===== *)
(** * ConnectionManager: active sessions by client id

    [gateway/connection_manager.hpp].  The [shared_ptr<Session>]s are session
    identities [S]; every operation holds [mutex_]. *)

From stdpp Require Import base gmap.
From Stdlib Require Import ZArith Lia.
From S2P Require Import Prelude Types.

Section ConnectionManager.
Context {S : Type}.

Record ConnectionManager : Type := mkConnectionManager {
  sessions_ : gmap Z S }.

Definition new_manager : ConnectionManager := mkConnectionManager ∅.

(** [sessions_\[client_id\] = session]: a session already there is replaced. *)
Definition add_session (client_id : Z) (session : S) (m : ConnectionManager) : ConnectionManager :=
  mkConnectionManager (<[ client_id := session ]> (sessions_ m)).

Definition remove_session (client_id : Z) (m : ConnectionManager) : ConnectionManager :=
  mkConnectionManager (delete client_id (sessions_ m)).

(** [None] is the null pointer. *)
Definition get_session (client_id : Z) (m : ConnectionManager) : option S := sessions_ m !! client_id.

Definition clear (m : ConnectionManager) : ConnectionManager := mkConnectionManager ∅.
End ConnectionManager.
Arguments ConnectionManager S : clear implicits.
