(* ===== verification/ExecutionPipeline.v ===== *)
(** * ExecutionPipeline: reports to the clients' sessions

    [pipeline/execution_pipeline.hpp] and [pipeline/execution_pipeline.cpp]:
    two queues, of reports and of trades, and the dispatch loop.  The queues are
    any implementations of [Fifo]. *)

From stdpp Require Import base list gmap strings.
From Stdlib Require Import ZArith Lia.
From S2P Require Import Prelude Types Fifo MpscQueue ConnectionManager.
Local Open Scope exchange_scope.

(** ** Definitions *)

Section Pipeline.
Context {S QR QT : Type} `{Fifo QR ExecutionReport} `{Fifo QT Trade}.

Record ExecutionPipeline : Type := mkExecutionPipeline {
  report_queue_ : QR;
  trade_queue_ : QT;
  running_ : bool;
  dispatch_thread_ : bool }.       (* joinable() *)

Definition new_pipeline : ExecutionPipeline := mkExecutionPipeline fifo_new fifo_new false false.

Definition pipeline_start (p : ExecutionPipeline) : ExecutionPipeline :=
  if running_ p then p
  else mkExecutionPipeline (report_queue_ p) (trade_queue_ p) true true.

Fixpoint publish_report_loop (fuel : nat) (report : ExecutionReport) (p : ExecutionPipeline)
    : outcome ExecutionPipeline :=
  match fuel with
  | O => Fault OutOfFuel
  | Datatypes.S fuel =>
      if running_ p then
        let* (ok, q) := fifo_enqueue report (report_queue_ p) in
        let p := mkExecutionPipeline q (trade_queue_ p) (running_ p) (dispatch_thread_ p) in
        if ok then Ok p else publish_report_loop fuel report p
      else Ok p
  end.

Definition publish_execution_report (fuel : nat) (report : ExecutionReport) (p : ExecutionPipeline)
    : outcome ExecutionPipeline :=
  if negb (running_ p) then Ok p else publish_report_loop fuel report p.

Fixpoint publish_trade_loop (fuel : nat) (trade : Trade) (p : ExecutionPipeline)
    : outcome ExecutionPipeline :=
  match fuel with
  | O => Fault OutOfFuel
  | Datatypes.S fuel =>
      if running_ p then
        let* (ok, q) := fifo_enqueue trade (trade_queue_ p) in
        let p := mkExecutionPipeline (report_queue_ p) q (running_ p) (dispatch_thread_ p) in
        if ok then Ok p else publish_trade_loop fuel trade p
      else Ok p
  end.

Definition publish_trade (fuel : nat) (trade : Trade) (p : ExecutionPipeline)
    : outcome ExecutionPipeline :=
  if negb (running_ p) then Ok p else publish_trade_loop fuel trade p.

(** One turn of [dispatch_loop]: the calls of [send_execution_report] it makes,
    as the session and the report.  Trades are taken out and dropped. *)
Definition dispatch_turn (sessions : ConnectionManager S) (p : ExecutionPipeline)
    : outcome (ExecutionPipeline * list (S * ExecutionReport)) :=
  let* (report_opt, rq) := fifo_dequeue (report_queue_ p) in
  let sends :=
    match report_opt with
    | Some report =>
        match get_session (er_client_id report) sessions with
        | Some session => [(session, report)]
        | None => []
        end
    | None => []
    end in
  let* (trade_opt, tq) := fifo_dequeue (trade_queue_ p) in
  Ok (mkExecutionPipeline rq tq (running_ p) (dispatch_thread_ p), sends).

Fixpoint dispatch_loop (fuel : nat) (sessions : ConnectionManager S) (p : ExecutionPipeline)
    : outcome (ExecutionPipeline * list (S * ExecutionReport)) :=
  match fuel with
  | O => Fault OutOfFuel
  | Datatypes.S fuel =>
      let* reports_empty := fifo_empty (report_queue_ p) in
      let* trades_empty := fifo_empty (trade_queue_ p) in
      if running_ p || negb reports_empty || negb trades_empty then
        let* (p, sends) := dispatch_turn sessions p in
        let* (p, more) := dispatch_loop fuel sessions p in
        Ok (p, sends ++ more)
      else Ok (p, [])
  end.

(** [ExecutionPipeline::stop]: joining runs the dispatcher to its end. *)
Definition pipeline_stop (fuel : nat) (sessions : ConnectionManager S) (p : ExecutionPipeline)
    : outcome (ExecutionPipeline * list (S * ExecutionReport)) :=
  if running_ p then
    let p := mkExecutionPipeline (fifo_close (report_queue_ p)) (fifo_close (trade_queue_ p))
               false (dispatch_thread_ p) in
    let* (p, sends) := if dispatch_thread_ p then dispatch_loop fuel sessions p else Ok (p, []) in
    Ok (mkExecutionPipeline (report_queue_ p) (trade_queue_ p) false false, sends)
  else Ok (p, []).

(** What should reach the sessions: every report whose client is connected. *)
Definition deliverable (sessions : ConnectionManager S) (rs : list ExecutionReport)
    : list (S * ExecutionReport) :=
  omap (fun r => match get_session (er_client_id r) sessions with
                 | Some s => Some (s, r) | None => None end) rs.

(** Publishing reports and trades, in order. *)
Fixpoint publish_all (fuel : nat) (rs : list ExecutionReport) (ts : list Trade) (p : ExecutionPipeline)
    : outcome ExecutionPipeline :=
  match rs with
  | r :: rs => let* p := publish_execution_report fuel r p in publish_all fuel rs ts p
  | [] =>
      (fix trades (ts : list Trade) p :=
         match ts with
         | t :: ts => let* p := publish_trade fuel t p in trades ts p
         | [] => Ok p
         end) ts p
  end.
End Pipeline.
Arguments ExecutionPipeline QR QT : clear implicits.

(** ** Facts *)

Section Facts.
Context {S QR QT : Type} `{FifoLaws QR ExecutionReport} `{FifoLaws QT Trade}.

Record pipeline_holds (p : ExecutionPipeline QR QT) (closed : bool) (rs : list ExecutionReport)
    (ts : list Trade) : Prop := mkPipelineHolds {
  ph_reports : fifo_repr (report_queue_ p) closed rs;
  ph_trades : fifo_repr (trade_queue_ p) closed ts }.

Lemma dispatch_turn_holds (sessions : ConnectionManager S) p c rs ts : pipeline_holds p c rs ts ->
  exists p', dispatch_turn sessions p = Ok (p', deliverable sessions (take 1 rs)) /\
    pipeline_holds p' c (tail rs) (tail ts) /\ running_ p' = running_ p.
Proof.
  intros [Hr Ht]. unfold dispatch_turn.
  assert (exists tq, (exists to, fifo_dequeue (trade_queue_ p) = Ok (to, tq)) /\ fifo_repr tq c (tail ts))
    as (tq & (to & Htd) & Htq).
  { destruct ts as [|t ts].
    - exists (trade_queue_ p). split; [|done]. exists None. by apply fifo_dequeue_nil with c.
    - destruct (fifo_dequeue_cons _ _ _ _ Ht) as (tq & Hd & Hq). exists tq. eauto. }
  destruct rs as [|r rs].
  - rewrite (fifo_dequeue_nil _ _ Hr). cbn [obind]. rewrite Htd. cbn [obind].
    eexists. split; [done|]. split; [by constructor|done].
  - destruct (fifo_dequeue_cons _ _ _ _ Hr) as (rq & -> & Hq). cbn [obind]. rewrite Htd. cbn [obind].
    eexists. split.
    { cbn [deliverable take omap list_omap]. by destruct (get_session _ _). }
    split; [by constructor|done].
Qed.

Lemma dispatch_loop_drains fuel : forall (sessions : ConnectionManager S) p c rs ts,
  running_ p = false -> pipeline_holds p c rs ts -> (length rs < fuel)%nat -> (length ts < fuel)%nat ->
  exists p', dispatch_loop fuel sessions p = Ok (p', deliverable sessions rs) /\
    pipeline_holds p' c [] [] /\ running_ p' = false.
Proof.
  induction fuel as [|fuel IH]; intros sessions p c rs ts Hrun Hp Hlr Hlt; [lia|]. cbn [dispatch_loop].
  pose proof Hp as [Hr Ht]. rewrite (fifo_empty_repr _ _ _ Hr), (fifo_empty_repr _ _ _ Ht). cbn [obind].
  rewrite Hrun. cbn [orb].
  destruct (dispatch_turn_holds sessions p c rs ts Hp) as (p1 & Hd & Hp1 & Hrun1).
  assert (rs = [] /\ ts = [] \/ (match rs with [] => true | _ => false end = false \/
            match ts with [] => true | _ => false end = false)) as [[-> ->]|Hne]
    by (destruct rs; [destruct ts|]; auto).
  - cbn [negb orb]. exists p. split; [done|]. by split.
  - assert (negb (match rs with [] => true | _ => false end) || negb (match ts with [] => true | _ => false end)
      = true) as -> by (destruct Hne as [-> | ->]; [done|apply orb_true_r]).
    rewrite Hd. cbn [obind].
    destruct (IH sessions p1 c (tail rs) (tail ts)) as (p2 & -> & Hp2 & Hrun2);
      [congruence|done|destruct rs, ts; simpl in *; lia || naive_solver..|].
    cbn [obind]. exists p2. split; [|done]. f_equal. f_equal. unfold deliverable. rewrite <- omap_app.
    by destruct rs.
Qed.

Lemma publish_holds_report fuel r (p : ExecutionPipeline QR QT) rs ts :
  running_ p = true -> pipeline_holds p false rs ts ->
  exists p', publish_execution_report (Datatypes.S fuel) r p = Ok p' /\ running_ p' = true /\
    dispatch_thread_ p' = dispatch_thread_ p /\ pipeline_holds p' false (rs ++ [r]) ts.
Proof.
  intros Hrun [Hr Ht]. unfold publish_execution_report. rewrite Hrun. simpl. rewrite Hrun.
  destruct (fifo_enqueue_open _ _ r Hr) as (q & -> & Hq). simpl. eexists. split; [done|].
  split; [done|]. split; [done|]. by constructor.
Qed.

Lemma publish_holds_trade fuel t (p : ExecutionPipeline QR QT) rs ts :
  running_ p = true -> pipeline_holds p false rs ts ->
  exists p', publish_trade (Datatypes.S fuel) t p = Ok p' /\ running_ p' = true /\
    dispatch_thread_ p' = dispatch_thread_ p /\ pipeline_holds p' false rs (ts ++ [t]).
Proof.
  intros Hrun [Hr Ht]. unfold publish_trade. rewrite Hrun. simpl. rewrite Hrun.
  destruct (fifo_enqueue_open _ _ t Ht) as (q & -> & Hq). simpl. eexists. split; [done|].
  split; [done|]. split; [done|]. by constructor.
Qed.

Lemma publish_all_holds fuel rs ts : forall (p : ExecutionPipeline QR QT) rs0 ts0,
  running_ p = true -> pipeline_holds p false rs0 ts0 ->
  exists p', publish_all (Datatypes.S fuel) rs ts p = Ok p' /\ running_ p' = true /\
    dispatch_thread_ p' = dispatch_thread_ p /\ pipeline_holds p' false (rs0 ++ rs) (ts0 ++ ts).
Proof.
  induction rs as [|r rs IH]; intros p rs0 ts0 Hrun Hp; cbn [publish_all].
  - rewrite app_nil_r. revert p ts0 Hrun Hp. induction ts as [|t ts IHt]; intros p ts0 Hrun Hp.
    { exists p. by rewrite app_nil_r. }
    destruct (publish_holds_trade fuel t p rs0 ts0 Hrun Hp) as (p1 & -> & Hr1 & Hd1 & Hp1). cbn [obind].
    destruct (IHt p1 _ Hr1 Hp1) as (p2 & He2 & Hr2 & Hd2 & Hp2). exists p2. rewrite <- app_assoc in Hp2.
    split; [exact He2|]. by rewrite Hd2, Hd1.
  - destruct (publish_holds_report fuel r p rs0 ts0 Hrun Hp) as (p1 & -> & Hr1 & Hd1 & Hp1). cbn [obind].
    destruct (IH p1 _ _ Hr1 Hp1) as (p2 & He2 & Hr2 & Hd2 & Hp2). exists p2. rewrite <- app_assoc in Hp2.
    split; [exact He2|]. by rewrite Hd2, Hd1.
Qed.
End Facts.

(** ** Properties *)

(** A pipeline that is started, given any reports and trades and stopped
    hands each report whose client is connected to that client's session,
    exactly once and in the order of publication, and drops the others and the
    trades. *)
Theorem pipeline_delivers {S QR QT} `{FifoLaws QR ExecutionReport} `{FifoLaws QT Trade}
    (sessions : ConnectionManager S) rs ts fuel :
  (length rs < fuel)%nat -> (length ts < fuel)%nat ->
  exists (p p' : ExecutionPipeline QR QT),
    publish_all 1 rs ts (pipeline_start new_pipeline) = Ok p /\
    pipeline_stop fuel sessions p = Ok (p', deliverable sessions rs) /\
    pipeline_holds p' true [] [].
Proof.
  intros Hr Ht.
  destruct (publish_all_holds 0 rs ts (pipeline_start (new_pipeline (QR:=QR) (QT:=QT))) [] [])
    as (p & Hp & Hrun & Hd & [Hqr Hqt]); [done|constructor; apply fifo_new_repr|].
  exists p. unfold pipeline_stop. rewrite Hrun, Hd. cbn [dispatch_thread_ pipeline_start new_pipeline running_].
  destruct (dispatch_loop_drains fuel sessions
    (mkExecutionPipeline (fifo_close (report_queue_ p)) (fifo_close (trade_queue_ p)) false true) true rs ts)
    as (p' & -> & [Hr' Ht'] & _); [done|constructor; by eapply fifo_close_repr|done..|].
  cbn [obind]. eexists. split; [exact Hp|]. split; [done|]. by constructor.
Qed.

Definition w_pipe_report (id c : Z) : ExecutionReport :=
  mkExecutionReport id "AAPL" Buy New 100 10 10 0 0 5 "" c.

Definition w_manager : ConnectionManager nat := add_session 2 20 (add_session 1 10 new_manager).

Lemma pipeline_delivers_witness :
  exists (p p' : ExecutionPipeline (MPSCQueue ExecutionReport) (MPSCQueue Trade)),
    publish_all 1 [w_pipe_report 7 2; w_pipe_report 8 3; w_pipe_report 9 1] [mkTrade 1 "AAPL" 100 10 5]
      (pipeline_start new_pipeline) = Ok p /\
    pipeline_stop 4 w_manager p = Ok (p', [(20, w_pipe_report 7 2); (10, w_pipe_report 9 1)]) /\
    pipeline_holds p' true [] [].
Proof.
  assert (length [w_pipe_report 7 2; w_pipe_report 8 3; w_pipe_report 9 1] < 4)%nat as Hr by (simpl; lia).
  assert (length [mkTrade 1 "AAPL" 100 10 5] < 4)%nat as Ht by (simpl; lia).
  exact (pipeline_delivers w_manager _ _ 4 Hr Ht).
Defined.
