(* ===== verification/Session.v ===== *)
(** * Session: one client connection

    [gateway/session.hpp].  Asynchronous operations are what the session asks of
    the network library: a handler returns the session's new state and the list
    of requests it makes, in order.  Completions call the handlers back, one at
    a time: the demo runs the [io_context] on one thread. *)

From stdpp Require Import base list gmap sets strings.
From Stdlib Require Import ZArith Lia Ascii.
From S2P Require Import Prelude Types Bytes BinarySerializer RiskChecker ThreadPool.
Local Open Scope exchange_scope.
Local Open Scope list_scope.

(** ** State *)

Record Session : Type := mkSession {
  client_id_ : Z;
  active_ : bool;
  incoming_header_ : MsgHeader;
  incoming_body_ : list ascii;
  write_queue_ : list (list ascii) }.

(** What a handler asks for. *)
Inductive effect : Type :=
  | E_add_session (client_id : Z)
  | E_remove_session (client_id : Z)
  | E_close_socket
  | E_read_header                       (* async_read of a MsgHeader *)
  | E_read_body (length : Z)            (* async_read of [length] bytes *)
  | E_write (buffer : list ascii)       (* async_write of [write_queue_.front()] *)
  | E_post (report : ExecutionReport)   (* post of the handler below *)
  | E_submit (t : Task).                (* pool_.submit(task) *)

(** [Session::Session]: the static counter [next_client_id] is the argument. *)
Definition new_session (next_client_id : Z) : Session * Z :=
  (mkSession next_client_id true (mkMsgHeader 0 0) [] [], u32 (next_client_id + 1)).

Definition set_header (h : MsgHeader) (s : Session) : Session :=
  mkSession (client_id_ s) (active_ s) h (incoming_body_ s) (write_queue_ s).
Definition set_body (b : list ascii) (s : Session) : Session :=
  mkSession (client_id_ s) (active_ s) (incoming_header_ s) b (write_queue_ s).
Definition set_write_queue (q : list (list ascii)) (s : Session) : Session :=
  mkSession (client_id_ s) (active_ s) (incoming_header_ s) (incoming_body_ s) q.

Definition session_start (s : Session) : Session * list effect :=
  (s, [E_add_session (client_id_ s); E_read_header]).

(** [Session::close]: the compare-exchange lets only the first call act. *)
Definition session_close (s : Session) : Session * list effect :=
  if active_ s then
    (mkSession (client_id_ s) false (incoming_header_ s) (incoming_body_ s) (write_queue_ s),
     [E_remove_session (client_id_ s); E_close_socket])
  else (s, []).

(** ** Writing *)

(** The buffer of a report: header and packed struct. *)
Definition report_buffer (uninit_symbol uninit_reason : list ascii) (report : ExecutionReport) : list ascii :=
  pack (mkMsgHeader (MsgType_to_u16 MsgExecutionReport) (Z.of_nat (sizeof NetExecutionReport))) ++
  pack (to_net_report uninit_symbol uninit_reason report).

(** [send_execution_report]: the work is posted to the socket's executor. *)
Definition send_execution_report (report : ExecutionReport) : list effect := [E_post report].

Definition write_next (s : Session) : list effect :=
  match write_queue_ s with
  | [] => []
  | front :: _ => [E_write front]
  end.

(** The posted handler. *)
Definition on_post (uninit_symbol uninit_reason : list ascii) (report : ExecutionReport) (s : Session)
    : Session * list effect :=
  let buffer := report_buffer uninit_symbol uninit_reason report in
  let write_in_progress := match write_queue_ s with [] => false | _ => true end in
  let s := set_write_queue (write_queue_ s ++ [buffer]) s in
  (s, if negb write_in_progress then write_next s else []).

(** The completion of [async_write]; [ec] is whether it failed. *)
Definition on_write (ec : bool) (s : Session) : Session * list effect :=
  if negb ec then
    let s := set_write_queue (tail (write_queue_ s)) s in
    (s, match write_queue_ s with [] => [] | _ => write_next s end)
  else session_close s.

(** ** Reading *)

(** The completion of the header read: [data] is what was read. *)
Definition on_header (ec : bool) (data : list ascii) (s : Session) : Session * list effect :=
  if negb ec then
    let s := set_header (unpack data) s in
    let length := h_length (incoming_header_ s) in
    (set_body (repeat NUL (Z.to_nat length)) s, [E_read_body length])
  else session_close s.

Definition reject_report_of (order : Order) (reason : string) (now : Timestamp) (client_id : Z)
    : ExecutionReport :=
  mkExecutionReport (o_order_id order) (o_symbol order) (o_side order) Rejected 0 0 0 0 0 now
    reason client_id.

(** [Session::process_packet]. *)
Definition process_packet (s : Session) (rc : RiskChecker) (env : Env)
    : outcome (list effect * RiskChecker * Env) :=
  let body := incoming_body_ s in
  match MsgType_of_u16 (h_type (incoming_header_ s)) with
  | MsgOrder =>
      if negb (length body =? sizeof NetOrder)%nat then Ok ([], rc, env)
      else
        let* order := from_net_order (unpack body) in
        let order := set_client (client_id_ s) order in
        let '(ok, reject_reason, rc) := validate_order order "" rc in
        if negb ok then
          let '(now, env) := get_current_time_ns env in
          Ok (send_execution_report (reject_report_of order reject_reason now (client_id_ s)), rc, env)
        else Ok ([E_submit (mkTask T_Submit (ReqOrder order) (o_symbol order))], rc, env)
  | MsgCancel =>
      if negb (length body =? sizeof NetCancel)%nat then Ok ([], rc, env)
      else
        let* req := from_net_cancel (unpack body) in
        let req := mkCancelRequest (c_order_id req) (c_symbol req) (c_timestamp req) (client_id_ s) in
        Ok ([E_submit (mkTask T_Cancel (ReqCancel req) (c_symbol req))], rc, env)
  | MsgModify =>
      if negb (length body =? sizeof NetModify)%nat then Ok ([], rc, env)
      else
        let* req := from_net_modify (unpack body) in
        let req := mkModifyRequest (m_order_id req) (m_symbol req) (m_price req) (m_quantity req)
                     (m_timestamp req) (client_id_ s) in
        Ok ([E_submit (mkTask T_Modify (ReqModify req) (m_symbol req))], rc, env)
  | _ => Ok ([], rc, env)
  end.

(** The completion of the body read. *)
Definition on_body (ec : bool) (data : list ascii) (s : Session) (rc : RiskChecker) (env : Env)
    : outcome (Session * list effect * RiskChecker * Env) :=
  if negb ec then
    let s := set_body data s in
    let* (effects, rc, env) := process_packet s rc env in
    Ok (s, effects ++ [E_read_header], rc, env)
  else
    let '(s, effects) := session_close s in
    Ok (s, effects, rc, env).

(** ** The read side on a byte stream *)

(** The reads of a session against a connection that delivers [bytes] and then
    fails: [async_read] completes with exactly the bytes asked for, or with an
    error when the stream ends before.  A turn reads a header and its body. *)
Fixpoint read_session (fuel : nat) (bytes : list ascii) (s : Session) (rc : RiskChecker) (env : Env)
    : outcome (Session * list effect * RiskChecker * Env) :=
  match fuel with
  | O => Fault OutOfFuel
  | S fuel =>
      if (length bytes <? sizeof MsgHeader)%nat then
        let '(s, effects) := on_header true bytes s in Ok (s, effects, rc, env)
      else
        let '(s, effects1) := on_header false (take (sizeof MsgHeader) bytes) s in
        let bytes := drop (sizeof MsgHeader) bytes in
        let n := Z.to_nat (h_length (incoming_header_ s)) in
        if (length bytes <? n)%nat then
          let* (s, effects2, rc, env) := on_body true bytes s rc env in
          Ok (s, effects1 ++ effects2, rc, env)
        else
          let* (s, effects2, rc, env) := on_body false (take n bytes) s rc env in
          let* (s, effects3, rc, env) := read_session fuel (drop n bytes) s rc env in
          Ok (s, effects1 ++ effects2 ++ effects3, rc, env)
  end.

(** ** The write side *)

(** One session's output: the reports posted and not yet run, the write in
    flight, what the connection has carried, and all reports sent so far. *)
Record Output : Type := mkOutput {
  out_session : Session;
  out_posted : list ExecutionReport;
  out_in_flight : option (list ascii);
  out_wire : list ascii;
  out_sent : list ExecutionReport }.

(** Requests of the handlers that concern the write side. *)
Definition write_request (effects : list effect) (in_flight : option (list ascii)) : option (list ascii) :=
  match effects with
  | E_write buffer :: _ => Some buffer
  | _ => in_flight
  end.

Inductive out_action : Type :=
  | O_send (report : ExecutionReport)    (* any thread calls send_execution_report *)
  | O_run                                (* the executor runs the oldest posted handler *)
  | O_written                            (* the write in flight completes *)
  | O_failed (n : nat)                   (* it fails after [n] bytes *)
  | O_close.                             (* a read fails: the session closes *)

Section Output.
(** The uninitialised bytes of the [NetExecutionReport] each report is built in. *)
Context (junk_symbol junk_reason : ExecutionReport -> list ascii).

Definition buffer_of (r : ExecutionReport) : list ascii :=
  report_buffer (junk_symbol r) (junk_reason r) r.

Definition ostep (a : out_action) (o : Output) : option Output :=
  match a with
  | O_send r =>
      Some (mkOutput (out_session o) (out_posted o ++ [r]) (out_in_flight o) (out_wire o) (out_sent o ++ [r]))
  | O_run =>
      match out_posted o with
      | [] => None
      | r :: rs =>
          let '(s, effects) := on_post (junk_symbol r) (junk_reason r) r (out_session o) in
          Some (mkOutput s rs (write_request effects (out_in_flight o)) (out_wire o) (out_sent o))
      end
  | O_written =>
      match out_in_flight o with
      | None => None
      | Some buffer =>
          let '(s, effects) := on_write false (out_session o) in
          Some (mkOutput s (out_posted o) (write_request effects None) (out_wire o ++ buffer) (out_sent o))
      end
  | O_failed n =>
      match out_in_flight o with
      | None => None
      | Some buffer =>
          let '(s, effects) := on_write true (out_session o) in
          Some (mkOutput s (out_posted o) None (out_wire o ++ take n buffer) (out_sent o))
      end
  | O_close =>
      let '(s, effects) := session_close (out_session o) in
      Some (mkOutput s (out_posted o) (out_in_flight o) (out_wire o) (out_sent o))
  end.

Definition out_step (o o' : Output) : Prop := exists a, ostep a o = Some o'.

Definition init_output (id : Z) : Output :=
  mkOutput (new_session id).1 [] None [] [].
End Output.
