(* ===== verification/SessionTheorems.v ===== *)
(** * Theorems about a session

    What [gateway/session.hpp] guarantees: framing of the byte stream, the
    response to every packet, the tasks it submits, and the order and
    exclusiveness of its writes. *)

From stdpp Require Import base list gmap sets strings.
From Stdlib Require Import ZArith Lia Ascii.
From S2P Require Import Prelude Types Bytes BinarySerializer SerializerTheorems RiskChecker OrderBook BookOps SafeQueue ThreadPool Recovery Session.
Local Open Scope exchange_scope.
Local Open Scope list_scope.

(** ** Definitions *)

(** A frame as a client sends it. *)
Record frame : Type := mkFrame {
  fr_type : Z;
  fr_body : list ascii }.

Definition frame_ok (f : frame) : Prop :=
  fits 2 (fr_type f) /\ (Z.of_nat (length (fr_body f)) < 2 ^ 16)%Z.

Definition frame_bytes (f : frame) : list ascii :=
  pack (mkMsgHeader (fr_type f) (Z.of_nat (length (fr_body f)))) ++ fr_body f.

Definition frames_bytes (fs : list frame) : list ascii := concat (frame_bytes <$> fs).

(** The session that has just read [f]. *)
Definition with_frame (f : frame) (s : Session) : Session :=
  set_body (fr_body f) (set_header (mkMsgHeader (fr_type f) (Z.of_nat (length (fr_body f)))) s).

(** The packets of [fs] processed one after the other: the effects of each. *)
Fixpoint process_all (fs : list frame) (s : Session) (rc : RiskChecker) (env : Env)
    : outcome (Session * list (list effect) * RiskChecker * Env) :=
  match fs with
  | [] => Ok (s, [], rc, env)
  | f :: fs =>
      let s := with_frame f s in
      let* (effects, rc, env) := process_packet s rc env in
      let* (s, more, rc, env) := process_all fs s rc env in
      Ok (s, effects :: more, rc, env)
  end.

(** Reads are requested around each packet: a header, a body, the packet's own
    effects, and so on. *)
Fixpoint read_effects (fs : list frame) (effs : list (list effect)) : list effect :=
  match fs, effs with
  | f :: fs, e :: effs => E_read_body (Z.of_nat (length (fr_body f))) :: (e ++ [E_read_header]) ++ read_effects fs effs
  | _, _ => []
  end.

Definition is_request (e : effect) : bool :=
  match e with E_post _ | E_submit _ => true | _ => false end.

(** A stream that ends inside a header. *)
Definition torn_header (tail : list ascii) : Prop := (length tail < sizeof MsgHeader)%nat.

(** ** Reading a frame *)

Lemma header_fields f : frame_ok f ->
  fields_ok (mkMsgHeader (fr_type f) (Z.of_nat (length (fr_body f)))).
Proof. intros [Ht Hl]. split; [done|]. unfold fits. cbn [h_length]. lia. Qed.

Lemma read_frame fuel f bytes s rc env : frame_ok f ->
  read_session (S fuel) (frame_bytes f ++ bytes) s rc env =
    let* (effects, rc, env) := process_packet (with_frame f s) rc env in
    let* (s, more, rc, env) := read_session fuel bytes (with_frame f s) rc env in
    Ok (s, E_read_body (Z.of_nat (length (fr_body f))) :: (effects ++ [E_read_header]) ++ more, rc, env).
Proof.
  intros Hf. pose proof (header_fields f Hf) as Hh. pose proof (pack_length _ Hh) as Hl.
  cbn [read_session]. unfold frame_bytes. rewrite <- app_assoc.
  assert ((length (pack (mkMsgHeader (fr_type f) (Z.of_nat (length (fr_body f)))) ++ fr_body f ++ bytes)
             <? sizeof MsgHeader)%nat = false) as ->
    by (apply Nat.ltb_ge; rewrite length_app, Hl; lia).
  rewrite take_app_length', drop_app_length' by done.
  unfold on_header. cbn [negb]. pose proof (unpack_pack _ [] Hh) as Hu. rewrite app_nil_r in Hu. rewrite Hu.
  cbn [set_header set_body incoming_header_ h_length].
  rewrite Nat2Z.id.
  assert ((length (fr_body f ++ bytes) <? length (fr_body f))%nat = false) as ->
    by (apply Nat.ltb_ge; rewrite length_app; lia).
  rewrite take_app_length', drop_app_length' by done.
  unfold on_body. cbn [negb].
  change (set_body (fr_body f) (set_body _ _)) with (with_frame f s).
  destruct (process_packet (with_frame f s) rc env) as [[[effects rc1] env1]|]; cbn [obind]; [|done].
  by destruct (read_session fuel bytes _ rc1 env1) as [[[[s2 more] rc2] env2]|]; cbn [obind].
Qed.

(** ** Decoding *)

Lemma decoded_order_ok bs o : length bs = sizeof NetOrder -> from_net_order (unpack bs) = Ok o ->
  order_fields_ok o /\ o_remaining_quantity o = o_quantity o /\ fits_chars 8 (o_symbol o).
Proof.
  intros Hbs. destruct (pack_unpack bs Hbs) as [Hok _].
  destruct (unpack bs) as [id sym sd ty px qty ts]. unfold fields_ok, NetOrder_Packed in Hok.
  cbn [no_order_id no_symbol no_side no_type no_price no_quantity no_timestamp] in Hok.
  destruct Hok as (H1 & H2 & H3 & H4 & H5 & H6 & H7).
  unfold from_net_order. intros (str & Hs & [= <-])%obind_ok. cbn in Hs. apply c_string_fits in Hs.
  rewrite H2 in Hs. split_and!; [|done|done]. constructor; simpl; try done.
  - unfold Side_of_u8, fits in *. case_Z; simpl; try done. simpl in H3. lia.
  - unfold OrderType_of_u8, fits in *. case_Z; simpl; try done. simpl in H4. lia.
Qed.

Lemma decoded_cancel_ok bs c : length bs = sizeof NetCancel -> from_net_cancel (unpack bs) = Ok c ->
  cancel_fields_ok c /\ fits_chars 8 (c_symbol c).
Proof.
  intros Hbs. destruct (pack_unpack bs Hbs) as [Hok _].
  destruct (unpack bs) as [id sym ts]. unfold fields_ok, NetCancel_Packed in Hok.
  cbn [nc_order_id nc_symbol nc_timestamp] in Hok. destruct Hok as (H1 & H2 & H3).
  unfold from_net_cancel. intros (str & Hs & [= <-])%obind_ok. cbn in Hs. apply c_string_fits in Hs.
  rewrite H2 in Hs. by split.
Qed.

Lemma decoded_modify_ok bs m : length bs = sizeof NetModify -> from_net_modify (unpack bs) = Ok m ->
  modify_fields_ok m /\ fits_chars 8 (m_symbol m).
Proof.
  intros Hbs. destruct (pack_unpack bs Hbs) as [Hok _].
  destruct (unpack bs) as [id sym px qty ts]. unfold fields_ok, NetModify_Packed in Hok.
  cbn [nm_order_id nm_symbol nm_price nm_quantity nm_timestamp] in Hok. destruct Hok as (H1 & H2 & H3 & H4 & H5).
  unfold from_net_modify. intros (str & Hs & [= <-])%obind_ok. cbn in Hs. apply c_string_fits in Hs.
  rewrite H2 in Hs. by split.
Qed.

(** Every packet has at most one effect: a task for the pool, well formed and
    with the session's client id, or a rejection for the client. *)
Definition request_client (t : Task) : Z :=
  match task_request t with
  | ReqOrder o => o_client_id o
  | ReqCancel c => c_client_id c
  | ReqModify m => m_client_id m
  end.

Lemma process_packet_effects s rc env effects rc' env' :
  process_packet s rc env = Ok (effects, rc', env') ->
  effects = [] \/
  (exists t, effects = [E_submit t] /\ task_ok t /\ request_client t = client_id_ s) \/
  (exists r, effects = [E_post r] /\ er_status r = Rejected /\ er_client_id r = client_id_ s).
Proof.
  unfold process_packet. destruct (MsgType_of_u16 _); try (intros [= <- <- <-]; by left).
  - destruct (Nat.eqb_spec (length (incoming_body_ s)) (sizeof NetOrder)) as [Hl|_]; cbn [negb];
      [|intros [= <- <- <-]; by left].
    intros (o & Ho & H)%obind_ok. apply decoded_order_ok in Ho as (Hf & Hr & Hc); [|done].
    destruct (validate_order _ _ _) as [[ok reason] rc1]. destruct ok; cbn [negb] in H; injection H as <- _ _.
    + right; left. eexists. split; [done|]. split; [|done]. unfold task_ok. simpl. split_and!; try done.
      destruct Hf. by constructor.
    + right; right. eexists. split; [done|]. done.
  - destruct (Nat.eqb_spec (length (incoming_body_ s)) (sizeof NetCancel)) as [Hl|_]; cbn [negb];
      [|intros [= <- <- <-]; by left].
    intros (c & Hc & [= <- _ _])%obind_ok. apply decoded_cancel_ok in Hc as (Hf & Hc); [|done].
    right; left. eexists. split; [done|]. split; [|done]. unfold task_ok. simpl. split_and!; try done.
    destruct Hf. by constructor.
  - destruct (Nat.eqb_spec (length (incoming_body_ s)) (sizeof NetModify)) as [Hl|_]; cbn [negb];
      [|intros [= <- <- <-]; by left].
    intros (m & Hm & [= <- _ _])%obind_ok. apply decoded_modify_ok in Hm as (Hf & Hm); [|done].
    right; left. eexists. split; [done|]. split; [|done]. unfold task_ok. simpl. split_and!; try done.
    destruct Hf. by constructor.
Qed.

(** ** The write side *)

Section Output.
Context (junk_symbol junk_reason : ExecutionReport -> list ascii).

Abbreviation buf := (buffer_of junk_symbol junk_reason).

Definition wire_of (rs : list ExecutionReport) : list ascii := concat (buf <$> rs).
#[local] Arguments wire_of _ : simpl never.

(** Either the write in flight is the front of the queue and nothing is missing
    on the wire; or a write has failed, the session is closed and the queue will
    never drain. *)
Definition out_inv (o : Output) : Prop :=
  (out_in_flight o = head (write_queue_ (out_session o)) /\
   wire_of (out_sent o) = out_wire o ++ concat (write_queue_ (out_session o)) ++ wire_of (out_posted o)) \/
  (out_in_flight o = None /\ write_queue_ (out_session o) <> [] /\ active_ (out_session o) = false /\
   exists rest, wire_of (out_sent o) = out_wire o ++ rest).

Lemma wire_of_app rs1 rs2 : wire_of (rs1 ++ rs2) = wire_of rs1 ++ wire_of rs2.
Proof using. unfold wire_of. by rewrite fmap_app, concat_app. Qed.

Lemma out_step_inv o o' : out_inv o -> out_step junk_symbol junk_reason o o' -> out_inv o'.
Proof using.
  intros Hinv [a Ha]. destruct o as [s posted fl wire sent]. unfold out_inv in *. cbn in Hinv.
  destruct a as [r| | |n|]; unfold ostep in Ha;
    cbn [out_posted out_session out_in_flight out_wire out_sent] in Ha.
  - injection Ha as <-. cbn. rewrite !wire_of_app.
    destruct Hinv as [[Hf ->]|(Hf & Hq & Hac & rest & ->)].
    + left. split; [done|]. by rewrite <- !app_assoc.
    + right. split_and!; [done..|]. eexists. by rewrite <- app_assoc.
  - destruct posted as [|r rs]; [done|]. unfold on_post in Ha.
    change (wire_of (r :: rs)) with (buf r ++ wire_of rs) in Hinv.
    change (report_buffer _ _ r) with (buf r) in Ha. revert Ha Hinv. generalize (buf r).
    intros bf Ha Hinv. injection Ha as <-. cbn.
    destruct Hinv as [[Hf Hw]|(Hf & Hq & Hac & Hr)].
    + left. rewrite Hw, Hf. unfold write_next. cbn.
      destruct (write_queue_ s) as [|b q]; cbn; [split; [done|by rewrite ?app_nil_r]|].
      split; [done|]. rewrite concat_app. cbn. by rewrite app_nil_r, <- !app_assoc.
    + right. destruct (write_queue_ s) as [|b q]; [done|]. cbn. done.
  - destruct fl as [b|]; [|done]. injection Ha as <-. cbn.
    destruct Hinv as [[Hf Hw]|(Hf & _)]; [|done]. left.
    destruct (write_queue_ s) as [|b' q]; [done|]. injection Hf as ->. cbn. unfold write_next. cbn.
    split; [by destruct q|]. rewrite Hw. cbn. by rewrite <- !app_assoc.
  - destruct fl as [b|]; [|done]. destruct Hinv as [[Hf Hw]|(Hf & _)]; [|done].
    unfold on_write, session_close in Ha. cbn in Ha. right.
    destruct (write_queue_ s) as [|b' q] eqn:Eq; [done|]. injection Hf as ->.
    assert (exists rest, wire_of sent = (wire ++ take n b') ++ rest) as Hrest.
    { exists (drop n b' ++ concat q ++ wire_of posted). rewrite Hw. cbn.
      rewrite <- (take_drop n b') at 1. by rewrite <- !app_assoc. }
    destruct (active_ s) eqn:Ea; injection Ha as <-; cbn; rewrite ?Eq; done.
  - unfold session_close in Ha. destruct (active_ s) eqn:Ea; injection Ha as <-; cbn; [|by rewrite ?Ea].
    destruct Hinv as [?|(? & ? & ? & ?)]; [by left|done].
Qed.

Definition out_reachable (id : Z) : Output -> Prop :=
  reachable (fun o => o = init_output id) (out_step junk_symbol junk_reason).

Lemma out_reachable_inv id o : out_reachable id o -> out_inv o.
Proof using.
  apply reachable_invariant; [|apply out_step_inv]. intros ? ->. by left.
Qed.
End Output.

(** ** From the invariants to the properties *)

Lemma read_session_frames fs tail fuel s rc env :
  Forall frame_ok fs -> torn_header tail -> (length fs < fuel)%nat ->
  read_session fuel (frames_bytes fs ++ tail) s rc env =
    let* (s, effs, rc, env) := process_all fs s rc env in
    Ok ((session_close s).1, read_effects fs effs ++ (session_close s).2, rc, env).
Proof.
  intros Hfs Ht. revert fuel s rc env. induction Hfs as [|f fs Hf Hfs IH]; intros [|fuel] s rc env Hl; simpl in Hl; try lia.
  - cbn [read_session process_all frames_bytes concat fmap list_fmap app obind].
    rewrite (proj2 (Nat.ltb_lt _ _) Ht). unfold on_header. cbn [negb read_effects app].
    by destruct (session_close s).
  - change (frames_bytes (f :: fs)) with (frame_bytes f ++ frames_bytes fs). rewrite <- app_assoc.
    rewrite read_frame by done. cbn [process_all].
    destruct (process_packet (with_frame f s) rc env) as [[[effects rc1] env1]|]; cbn [obind]; [|done].
    rewrite IH by lia.
    destruct (process_all fs (with_frame f s) rc1 env1) as [[[[s2 effs] rc2] env2]|]; cbn [obind]; [|done].
    cbn [read_effects]. by rewrite <- app_comm_cons, <- !app_assoc.
Qed.

Lemma out_prefix junk_symbol junk_reason id o :
  out_reachable junk_symbol junk_reason id o ->
  (exists rest, wire_of junk_symbol junk_reason (out_sent o) = out_wire o ++ rest) /\
  (forall b, out_in_flight o = Some b -> head (write_queue_ (out_session o)) = Some b) /\
  (active_ (out_session o) = true -> out_posted o = [] -> out_in_flight o = None ->
     out_wire o = wire_of junk_symbol junk_reason (out_sent o)).
Proof.
  intros [[Hf Hw]|(Hf & Hq & Ha & Hr)]%out_reachable_inv.
  - split_and!; [by eexists|by intros b <-|]. intros _ Hp Hn. rewrite Hn in Hf.
    rewrite Hw, Hp. destruct (write_queue_ _); [|done]. cbn. by rewrite !app_nil_r.
  - split_and!; [done|congruence|congruence].
Qed.

(** ** Witness data *)

Definition w_frame_order : frame :=
  mkFrame 1 (pack (to_net_order (w_uninit 8) (mkOrder 1001 "AAPL" Buy Limit 15000 100 100 1001 0))).
Definition w_frame_bad : frame := mkFrame 2 (w_uninit 3).

Definition w_session : Session := (new_session 5).1.
Definition w_senv : Env := mkEnv 1 (fun _ => 77%Z) 0.

Definition w_report (id : Z) : ExecutionReport :=
  mkExecutionReport id "AAPL" Buy Filled 100 10 0 10 100 5 "" 5.

Definition w_js (r : ExecutionReport) : list ascii := w_uninit 8.
Definition w_jr (r : ExecutionReport) : list ascii := w_uninit 32.

Fixpoint orun (acts : list out_action) (o : Output) : option Output :=
  match acts with
  | [] => Some o
  | a :: acts => ostep w_js w_jr a o ≫= orun acts
  end.

Lemma orun_reachable id acts : forall o o',
  out_reachable w_js w_jr id o -> orun acts o = Some o' -> out_reachable w_js w_jr id o'.
Proof.
  induction acts as [|a acts IH]; intros o o' Hr; simpl; [by intros [= <-]|].
  destruct (ostep _ _ a o) as [o1|] eqn:Ha; simpl; [|done]. apply IH. eapply reach_step; [exact Hr|by exists a].
Qed.

Lemma w_out_run : exists o,
  orun [O_send (w_report 1); O_send (w_report 2); O_run; O_run; O_written; O_written] (init_output 5) = Some o /\
  active_ (out_session o) = true /\ out_posted o = [] /\ out_in_flight o = None.
Proof. eexists. split; [vm_compute; reflexivity|done]. Qed.

(** ** Properties *)

(** Framing: however the packets of a client follow each other on the
    connection, the session reads exactly them, in order, processes each once,
    asks for the next header after each, and closes when the stream ends. *)
Theorem session_reads_frames fs tail fuel s rc env :
  Forall frame_ok fs -> torn_header tail -> (length fs < fuel)%nat ->
  read_session fuel (frames_bytes fs ++ tail) s rc env =
    let* (s, effs, rc, env) := process_all fs s rc env in
    Ok ((session_close s).1, read_effects fs effs ++ (session_close s).2, rc, env).
Proof. apply read_session_frames. Qed.

Lemma session_reads_frames_witness :
  exists s effs rc env,
    read_session 3 (frames_bytes [w_frame_order; w_frame_bad] ++ w_uninit 2) w_session w_checker w_senv
      = Ok (s, effs, rc, env) /\
    filter is_request effs = [E_submit (mkTask T_Submit
      (ReqOrder (mkOrder 1001 "AAPL" Buy Limit 15000 100 100 1001 5)) "AAPL")].
Proof.
  assert (Forall frame_ok [w_frame_order; w_frame_bad]) as Hf.
  { repeat constructor; simpl; unfold fits; simpl; lia. }
  assert (torn_header (w_uninit 2)) as Ht by (vm_compute; lia).
  assert (length [w_frame_order; w_frame_bad] < 3)%nat as Hl by (simpl; lia).
  rewrite (session_reads_frames [w_frame_order; w_frame_bad] (w_uninit 2) 3 w_session w_checker w_senv Hf Ht Hl).
  do 4 eexists. split; [vm_compute; reflexivity|reflexivity].
Defined.

(** C17: a packet asks for at most one thing: a task for the thread pool, which
    is well formed for the pool, the log and the replay and carries the client
    id of the session whatever the bytes say, or one rejection report to that
    same client. *)
Theorem session_packet_response s rc env effects rc' env' :
  process_packet s rc env = Ok (effects, rc', env') ->
  effects = [] \/
  (exists t, effects = [E_submit t] /\ task_ok t /\ request_client t = client_id_ s) \/
  (exists r, effects = [E_post r] /\ er_status r = Rejected /\ er_client_id r = client_id_ s).
Proof. apply process_packet_effects. Qed.

Lemma session_packet_response_witness :
  exists effects rc' env',
    process_packet (with_frame w_frame_order w_session) w_checker w_senv = Ok (effects, rc', env') /\
    exists t, effects = [E_submit t] /\ task_ok t /\ request_client t = 5%Z.
Proof.
  do 3 eexists. split; [vm_compute; reflexivity|].
  destruct (session_packet_response (with_frame w_frame_order w_session) w_checker w_senv _ _ _ eq_refl)
    as [H|[H|(r & H & _)]]; [discriminate H|exact H|discriminate H].
Defined.

(** An order packet built by a client is risk-checked as the wire order with
    the session's client id: accepted, it becomes that task and its id is
    remembered; rejected, the client gets the reason and the checker is
    unchanged. *)
Theorem session_order_packet s rc env u o :
  order_fields_ok o -> length u = 8 ->
  let s := with_frame (mkFrame 1 (pack (to_net_order u o))) s in
  let order := set_client (client_id_ s) (wire_order o) in
  let '(ok, reason, rc') := validate_order order "" rc in
  process_packet s rc env =
    if ok then Ok ([E_submit (mkTask T_Submit (ReqOrder order) (kept 8 (o_symbol o)))], rc', env)
    else Ok ([E_post (reject_report_of order reason (u64 (clock env (clock_reads env))) (client_id_ s))],
             rc', mkEnv (counter_ env) (clock env) (S (clock_reads env))).
Proof.
  intros Ho Hu. pose proof (to_net_order_fields u o Ho Hu) as Hf.
  pose proof (pack_length _ Hf) as Hl. pose proof (unpack_pack _ [] Hf) as Hup. rewrite app_nil_r in Hup.
  cbv zeta. unfold process_packet. cbn [incoming_body_ incoming_header_ with_frame set_body set_header
    fr_body fr_type h_type client_id_].
  change (MsgType_of_u16 1) with MsgOrder. cbn iota.
  rewrite Hl, Nat.eqb_refl, Hup, from_to_order by apply Ho. cbn [negb obind].
  destruct (validate_order _ _ _) as [[ok reason] rc']. by destruct ok.
Qed.

Lemma session_order_packet_witness :
  process_packet (with_frame w_frame_order w_session) new_checker w_senv =
    Ok ([E_post (reject_report_of (mkOrder 1001 "AAPL" Buy Limit 15000 100 100 1001 5)
           "Invalid Symbol" 77 5)], new_checker, mkEnv 1 (fun _ => 77%Z) 1).
Proof.
  assert (order_fields_ok (mkOrder 1001 "AAPL" Buy Limit 15000 100 100 1001 0)) as Ho
    by (constructor; simpl; unfold is_u64, is_u32; lia || done).
  exact (session_order_packet w_session new_checker w_senv (w_uninit 8) _ Ho eq_refl).
Defined.

(** A packet whose symbol field has no NUL makes the session read past the
    field, for each of the three requests; a packet of another size is dropped
    before its fields are looked at. *)
Theorem session_unterminated_symbol s rc env ty id sym rest :
  (ty = 1%Z /\ length rest = 22 \/ ty = 2%Z /\ length rest = 8 \/ ty = 3%Z /\ length rest = 20) ->
  length sym = 8 -> NUL ∉ sym ->
  process_packet (with_frame (mkFrame ty (le_encode 8 id ++ sym ++ rest)) s) rc env
    = Fault UnterminatedString /\
  (forall n, process_packet (with_frame (mkFrame ty (le_encode 8 id ++ sym ++ rest ++ repeat NUL (S n))) s) rc env
    = Ok ([], rc, env)).
Proof.
  intros Hty Hs Hn. apply c_string_undefined in Hn.
  assert (forall x, take 8 (drop 8 (le_encode 8 id ++ sym ++ x)) = sym) as Hsym.
  { intros x. rewrite drop_app_length' by by rewrite length_le_encode. by rewrite take_app_length'. }
  unfold process_packet. cbn [incoming_body_ incoming_header_ with_frame set_body set_header fr_body fr_type h_type].
  split; [|intros n].
  - destruct Hty as [[-> Hr]|[[-> Hr]|[-> Hr]]]; cbn iota;
      rewrite !length_app, length_le_encode, Hs, Hr; cbn [Nat.eqb Nat.add sizeof NetOrder_Packed NetCancel_Packed NetModify_Packed negb];
      unfold from_net_order, from_net_cancel, from_net_modify, unpack, NetOrder_Packed, NetCancel_Packed, NetModify_Packed, read_le, read_chars;
      cbn [no_symbol nc_symbol nm_symbol]; by rewrite Hsym, Hn.
  - destruct Hty as [[-> Hr]|[[-> Hr]|[-> Hr]]]; cbn iota;
      rewrite !length_app, length_le_encode, Hs, Hr, repeat_length; done.
Qed.

Lemma session_unterminated_symbol_witness :
  process_packet (with_frame (mkFrame 2 (le_encode 8 1 ++ w_uninit 8 ++ w_uninit 8)) w_session) new_checker w_senv
    = Fault UnterminatedString.
Proof.
  assert (NUL ∉ w_uninit 8) as Hn.
  { intros H. repeat (apply elem_of_cons in H as [H|H]; [discriminate H|]). by apply not_elem_of_nil in H. }
  exact (proj1 (session_unterminated_symbol w_session new_checker w_senv 2 1 (w_uninit 8) (w_uninit 8)
    (or_intror (or_introl (conj eq_refl eq_refl))) eq_refl Hn)).
Defined.

(** The bytes on the connection are, at every moment, a prefix of the sent
    reports' buffers in the order of the calls of [send_execution_report]; at
    most one write is in flight and it is the front of the queue; and as long as
    no write fails, once nothing is pending everything sent is on the wire. *)
Theorem session_writes_in_order junk_symbol junk_reason id o :
  out_reachable junk_symbol junk_reason id o ->
  (exists rest, wire_of junk_symbol junk_reason (out_sent o) = out_wire o ++ rest) /\
  (forall b, out_in_flight o = Some b -> head (write_queue_ (out_session o)) = Some b) /\
  (active_ (out_session o) = true -> out_posted o = [] -> out_in_flight o = None ->
     out_wire o = wire_of junk_symbol junk_reason (out_sent o)).
Proof. apply out_prefix. Qed.

Lemma session_writes_in_order_witness : exists o,
  out_reachable w_js w_jr 5 o /\ out_wire o = wire_of w_js w_jr [w_report 1; w_report 2].
Proof.
  destruct w_out_run as (o & Ho & Ha & Hp & Hf). exists o.
  assert (out_reachable w_js w_jr 5 o) as Hr by (eapply orun_reachable; [apply reach_init; reflexivity|exact Ho]).
  split; [exact Hr|].
  rewrite (proj2 (proj2 (session_writes_in_order w_js w_jr 5 o Hr)) Ha Hp Hf).
  vm_compute in Ho. injection Ho as <-. reflexivity.
Defined.
