(* ===== verification/GatewayServer.v ===== *)
(** * GatewayServer: accepting connections

    [gateway/gateway_server.hpp].  The accept loop, the client ids the static
    counter of [Session::Session] hands out, and the connection manager the
    sessions register in. *)

From stdpp Require Import base list gmap strings.
From Stdlib Require Import ZArith Lia.
From S2P Require Import Prelude Types Bytes BinarySerializer ThreadPool ConnectionManager Session.
Local Open Scope Z_scope.

(** ** Definitions *)

(** [gs_next_client_id] is the counter, [gs_live] the sessions kept alive by
    their pending reads, [gs_accepting] whether an accept is pending. *)
Record GatewayServer : Type := mkGatewayServer {
  gs_port : Z;
  gs_accepting : bool;
  gs_next_client_id : Z;
  gs_live : gmap Z Session;
  gs_manager : ConnectionManager Z }.

(** The constructor opens, binds and listens; the counter starts at 1. *)
Definition new_gateway (port : Z) : GatewayServer := mkGatewayServer port false 1 ∅ new_manager.

Definition do_accept (g : GatewayServer) : GatewayServer :=
  mkGatewayServer (gs_port g) true (gs_next_client_id g) (gs_live g) (gs_manager g).

Definition gateway_start (g : GatewayServer) : GatewayServer := do_accept g.

(** What a session's requests do to the server side. *)
Definition run_effect (e : effect) (g : GatewayServer) : GatewayServer :=
  match e with
  | E_add_session id =>
      mkGatewayServer (gs_port g) (gs_accepting g) (gs_next_client_id g) (gs_live g)
        (add_session id id (gs_manager g))
  | E_remove_session id =>
      mkGatewayServer (gs_port g) (gs_accepting g) (gs_next_client_id g) (gs_live g)
        (remove_session id (gs_manager g))
  | _ => g
  end.

(** The completion of [async_accept]; [ec] is whether it failed. *)
Definition on_accept (ec : bool) (g : GatewayServer) : GatewayServer :=
  do_accept
    (if negb ec then
       let '(session, next) := new_session (gs_next_client_id g) in
       let '(session, effects) := session_start session in
       let g := mkGatewayServer (gs_port g) (gs_accepting g) next
                  (<[ client_id_ session := session ]> (gs_live g)) (gs_manager g) in
       foldr run_effect g effects
     else g).

(** A read or write of session [id] fails: the session closes and is released. *)
Definition on_disconnect (id : Z) (g : GatewayServer) : GatewayServer :=
  match gs_live g !! id with
  | None => g
  | Some session =>
      let '(session, effects) := session_close session in
      let g := mkGatewayServer (gs_port g) (gs_accepting g) (gs_next_client_id g)
                 (delete id (gs_live g)) (gs_manager g) in
      foldr run_effect g effects
  end.

Inductive gateway_event : Type :=
  | G_accept (ec : bool)
  | G_disconnect (id : Z).

Definition gateway_step (e : gateway_event) (g : GatewayServer) : GatewayServer :=
  match e with
  | G_accept ec => on_accept ec g
  | G_disconnect id => on_disconnect id g
  end.

Definition gateway_run (es : list gateway_event) (g : GatewayServer) : GatewayServer :=
  foldl (fun g e => gateway_step e g) g es.

Definition accepts_of (es : list gateway_event) : nat :=
  length (List.filter (fun e => match e with G_accept false => true | _ => false end) es).

(** ** Facts *)

(** After [n] accepts, below the wrap of the counter. *)
Record gateway_inv (n : nat) (g : GatewayServer) : Prop := mkGatewayInv {
  gi_next : gs_next_client_id g = 1 + Z.of_nat n;
  gi_accepting : gs_accepting g = true;
  gi_ids : map_Forall (fun id s => client_id_ s = id /\ active_ s = true /\ 1 <= id < 1 + Z.of_nat n) (gs_live g);
  gi_manager : forall id, get_session id (gs_manager g) = (if decide (is_Some (gs_live g !! id)) then Some id else None) }.

Lemma accept_inv n g : Z.of_nat n < 2 ^ 32 - 2 ->
  gateway_inv n g -> gateway_inv (S n) (on_accept false g).
Proof.
  intros Hn [Hnext Hacc Hids Hm]. unfold on_accept, do_accept. cbn.
  assert (gs_live g !! gs_next_client_id g = None) as Hfresh.
  { destruct (gs_live g !! gs_next_client_id g) eqn:E; [|done]. apply Hids in E. lia. }
  constructor; cbn.
  - rewrite Hnext. rewrite u32_small by (unfold is_u32; lia). lia.
  - done.
  - apply map_Forall_insert_2; [cbn; split_and!; [done|done|lia|lia]|].
    intros id s Hs. destruct (Hids id s Hs) as (? & ? & ?). split_and!; [done|done|lia|lia].
  - intros id. unfold get_session, add_session. cbn. destruct (decide (id = gs_next_client_id g)) as [->|Hne].
    + rewrite !lookup_insert_eq. by rewrite decide_True by eauto.
    + rewrite !lookup_insert_ne by done. apply Hm.
Qed.

Lemma accept_error_inv n g : gateway_inv n g -> gateway_inv n (on_accept true g).
Proof. intros []. by constructor. Qed.

Lemma disconnect_inv n id g : gateway_inv n g -> gateway_inv n (on_disconnect id g).
Proof.
  intros [Hnext Hacc Hids Hm]. unfold on_disconnect.
  destruct (gs_live g !! id) as [s|] eqn:E; [|by constructor].
  destruct (Hids id s E) as (Hid & Ha & _). unfold session_close. rewrite Ha. cbn. rewrite Hid.
  constructor; cbn; try done.
  - by apply map_Forall_delete.
  - intros id'. unfold get_session, remove_session. cbn. destruct (decide (id = id')) as [<-|Hne].
    + rewrite !lookup_delete_eq. rewrite decide_False; [done|]. by intros [? ?].
    + rewrite !lookup_delete_ne by done. apply Hm.
Qed.

Lemma accepts_cons e es :
  accepts_of (e :: es) = ((match e with G_accept false => 1 | _ => 0 end) + accepts_of es)%nat.
Proof. unfold accepts_of. cbn. by destruct e as [[]|]. Qed.

Lemma gateway_run_inv es : forall n g, gateway_inv n g ->
  Z.of_nat (n + accepts_of es) < 2 ^ 32 - 1 -> gateway_inv (n + accepts_of es) (gateway_run es g).
Proof.
  induction es as [|e es IH]; intros n g Hg Hn.
  - cbn. by rewrite Nat.add_0_r.
  - rewrite accepts_cons in *. cbn [gateway_run foldl].
    assert (gateway_inv (n + match e with G_accept false => 1 | _ => 0 end) (gateway_step e g)) as H1.
    { destruct e as [[]|id]; cbn [gateway_step]; rewrite ?Nat.add_0_r.
      - by apply accept_error_inv.
      - rewrite Nat.add_1_r. apply accept_inv; [lia|done].
      - by apply disconnect_inv. }
    rewrite Nat.add_assoc in *. by apply (IH _ _ H1).
Qed.

(** ** Properties *)

(** After any sequence of connections, failed accepts and disconnections
    with fewer than 2^32 - 1 connections in all, the server is still accepting, the
    live sessions have distinct ids, never one used before, and the connection
    manager finds exactly the live sessions. *)
Theorem gateway_sessions es port :
  Z.of_nat (accepts_of es) < 2 ^ 32 - 1 ->
  let g := gateway_run es (gateway_start (new_gateway port)) in
  gs_accepting g = true /\ gs_next_client_id g = 1 + Z.of_nat (accepts_of es) /\
  (forall id s, gs_live g !! id = Some s -> client_id_ s = id /\ 1 <= id < gs_next_client_id g) /\
  (forall id, is_Some (get_session id (gs_manager g)) <-> is_Some (gs_live g !! id)).
Proof.
  intros Hn g. assert (gateway_inv 0 (gateway_start (new_gateway port))) as H0.
  { constructor; cbn; try done. }
  destruct (gateway_run_inv es 0 _ H0 Hn) as [Hnext Hacc Hids Hm]. fold g in Hnext, Hacc, Hids, Hm.
  split_and!; [done|done| |].
  - intros id s Hs. destruct (Hids id s Hs) as (? & _ & ?). split; [done|]. rewrite Hnext. done.
  - intros id. rewrite Hm. destruct (decide (is_Some (gs_live g !! id))) as [Hl|Hl].
    + split; eauto.
    + split; [by intros [? ?]|done].
Qed.

Lemma gateway_sessions_witness :
  let es := [G_accept false; G_accept true; G_accept false; G_disconnect 1; G_accept false] in
  let g := gateway_run es (gateway_start (new_gateway 12345)) in
  gs_accepting g = true /\ gs_next_client_id g = 4 /\
  (forall id, is_Some (get_session id (gs_manager g)) <-> is_Some (gs_live g !! id)).
Proof.
  cbv zeta.
  assert (Z.of_nat (accepts_of [G_accept false; G_accept true; G_accept false; G_disconnect 1; G_accept false])
    < 2 ^ 32 - 1) as Hn by (vm_compute; done).
  destruct (gateway_sessions [G_accept false; G_accept true; G_accept false; G_disconnect 1; G_accept false]
    12345 Hn) as (H1 & H2 & _ & H4).
  split; [exact H1|]. split; [exact H2|exact H4].
Defined.
