(* ===== verification/Logger.v ===== *)
(** * Logger and time stamps

    [logger/logger.hpp], [logger/logger.cpp] and [format_timestamp] of
    [common/time_utils.cpp].  The calendar part of a time stamp depends on the
    time zone of the host: [put_time] stands for [localtime_r] and [std::put_time]
    with the format of the code. *)

From stdpp Require Import base list strings.
From Stdlib Require Import ZArith Lia Ascii.
From S2P Require Import Prelude Types Bytes.
Local Open Scope list_scope.

(** ** Definitions *)

Inductive LogLevel : Type := DEBUG | INFO | WARN | ERROR.

Definition level_val (l : LogLevel) : Z :=
  match l with DEBUG => 0 | INFO => 1 | WARN => 2 | ERROR => 3 end.

(** [level < level_] *)
Definition below (level level_ : LogLevel) : bool := (level_val level <? level_val level_)%Z.

Definition level_str (l : LogLevel) : string :=
  match l with DEBUG => "DEBUG" | INFO => "INFO " | WARN => "WARN " | ERROR => "ERROR" end.

Definition digit (d : Z) : ascii := byte_of (48 + d).
Definition digit_val (a : ascii) : Z := (byte_val a - 48)%Z.

(** [oss << n] for a non-negative [n]; the fuel is the number of digits at most. *)
Fixpoint put_decimal (fuel : nat) (n : Z) : list ascii :=
  match fuel with
  | O => []
  | S fuel => (if (n <? 10)%Z then [] else put_decimal fuel (n / 10)) ++ [digit (n mod 10)]
  end.

(** [std::setw(w) << std::setfill(c)]: padding on the left. *)
Definition setw (w : nat) (c : ascii) (s : list ascii) : list ascii := repeat c (w - length s) ++ s.

Section Logger.
Context (put_time : Z -> list ascii).

Definition format_timestamp (ts : Timestamp) : list ascii :=
  let nanos := (ts mod 1000000000)%Z in
  let secs := (ts / 1000000000)%Z in
  put_time secs ++ digit (-2) :: setw 9 (digit 0) (put_decimal 20 nanos).

(** The lines written to [std::cout], and the level. *)
Record Logger : Type := mkLogger {
  level_ : LogLevel;
  out : list (list ascii) }.

Definition new_logger : Logger := mkLogger INFO [].

Definition set_level (level : LogLevel) (l : Logger) : Logger := mkLogger level (out l).
Definition get_level (l : Logger) : LogLevel := level_ l.

Definition log_line (level : LogLevel) (message : string) (now : Timestamp) : list ascii :=
  chars "[" ++ format_timestamp now ++ chars "] [" ++ chars (level_str level) ++ chars "] " ++ chars message.

(** [Logger::log]: the level is read twice, before and after the lock; another
    thread may have changed it in between, to [changed]. *)
Definition log (level : LogLevel) (message : string) (changed : option LogLevel) (env : Env) (l : Logger)
    : Logger * Env :=
  if below level (level_ l) then (match changed with Some v => set_level v l | None => l end, env)
  else
    let l := match changed with Some v => set_level v l | None => l end in
    if below level (level_ l) then (l, env)
    else
      let '(now, env) := get_current_time_ns env in
      (mkLogger (level_ l) (out l ++ [log_line level message now]), env).
End Logger.

(** Reading a decimal numeral. *)
Definition read_decimal (s : list ascii) : Z := foldl (fun acc c => 10 * acc + digit_val c)%Z 0%Z s.

(** ** Facts *)

Lemma digit_val_digit d : (0 <= d < 10)%Z -> digit_val (digit d) = d.
Proof. intros Hd. unfold digit_val, digit. rewrite byte_val_of, Z.mod_small; lia. Qed.

Lemma read_decimal_snoc s c : read_decimal (s ++ [c]) = (10 * read_decimal s + digit_val c)%Z.
Proof. unfold read_decimal. by rewrite foldl_app. Qed.

Lemma read_put_decimal fuel : forall n, (0 <= n < 10 ^ Z.of_nat fuel)%Z -> read_decimal (put_decimal fuel n) = n.
Proof.
  induction fuel as [|fuel IH]; intros n Hn; cbn [put_decimal]; [cbn in *; lia|].
  rewrite read_decimal_snoc, digit_val_digit by (apply Z.mod_pos_bound; lia).
  rewrite Nat2Z.inj_succ, Z.pow_succ_r in Hn by lia.
  destruct (Z.ltb_spec n 10) as [Hlt|Hge].
  - rewrite Z.mod_small by lia. cbn. lia.
  - rewrite IH; [pose proof (Z.div_mod n 10); lia|].
    split; [apply Z.div_pos; lia|]. apply Z.div_lt_upper_bound; lia.
Qed.

Lemma put_decimal_length fuel : forall k n, (0 <= n < 10 ^ Z.of_nat (S k))%Z ->
  (length (put_decimal fuel n) <= S k)%nat.
Proof.
  induction fuel as [|fuel IH]; intros k n Hn; cbn [put_decimal]; [cbn; lia|].
  rewrite length_app. cbn [length]. destruct (Z.ltb_spec n 10) as [Hlt|Hge]; [cbn; lia|].
  destruct k as [|k]; [cbn in Hn; lia|].
  assert (length (put_decimal fuel (n / 10)) <= S k)%nat; [|lia]. apply IH.
  rewrite Nat2Z.inj_succ, Z.pow_succ_r in Hn by lia.
  split; [apply Z.div_pos; lia|]. apply Z.div_lt_upper_bound; lia.
Qed.

Lemma read_setw w s : read_decimal (setw w (digit 0) s) = read_decimal s.
Proof.
  unfold setw, read_decimal. rewrite foldl_app. f_equal.
  induction (w - length s)%nat as [|m IH]; [done|]. cbn [repeat foldl].
  by rewrite digit_val_digit by lia.
Qed.

(** ** Properties *)

(** A time stamp is printed with exactly nine digits of nanoseconds, which
    read back as the nanoseconds: two stamps of the same second print
    differently unless they are equal. *)
Theorem timestamp_nanos put_time ts :
  (0 <= ts)%Z ->
  exists nanos, format_timestamp put_time ts = put_time (ts / 1000000000)%Z ++ digit (-2) :: nanos /\
    length nanos = 9 /\ read_decimal nanos = (ts mod 1000000000)%Z.
Proof.
  intros Hts. eexists. split; [reflexivity|].
  pose proof (Z.mod_pos_bound ts 1000000000) as Hb.
  split.
  - unfold setw. rewrite length_app, repeat_length.
    pose proof (put_decimal_length 20 8 (ts mod 1000000000)%Z) as Hl. lia.
  - rewrite read_setw. apply read_put_decimal. lia.
Qed.

Lemma timestamp_nanos_witness :
  exists nanos, format_timestamp (fun _ => chars "t") 5000000042%Z = chars "t" ++ digit (-2) :: nanos /\
    length nanos = 9 /\ read_decimal nanos = 42%Z.
Proof.
  assert (0 <= 5000000042)%Z as Hts by lia.
  exact (timestamp_nanos (fun _ => chars "t") 5000000042 Hts).
Defined.

(** A message below the level, at either of the two tests, is not written;
    any other is written as one line with its level, after what was there. *)
Theorem log_filters put_time level message changed env l :
  let level' := match changed with Some v => v | None => level_ l end in
  let '(l', env') := log put_time level message changed env l in
  level_ l' = level' /\
  out l' = (if below level (level_ l) || below level level' then out l
            else out l ++ [log_line put_time level message (get_current_time_ns env).1]).
Proof.
  unfold log. destruct (below level (level_ l)) eqn:E1; cbn.
  - by destruct changed.
  - destruct changed as [v|]; cbn; [destruct (below level v); done|]. by rewrite E1.
Qed.
