(* ===== verification/Demo.v ===== *)
(** * The demo: clients, and the whole exchange on one scenario

    [demo_main.cpp]: the framing of [DemoClient] and the run of
    [run_multi_client_demo], with every request carried from the client's bytes
    through the session, the risk checker, a worker, the book, the log and the
    report pipeline back to the clients' bytes, and the replay at the end.  The
    demo sleeps after each request, so its requests are handled one at a time. *)

From stdpp Require Import base list gmap sets strings.
From Stdlib Require Import ZArith Lia Ascii.
From S2P Require Import Prelude Types Bytes BinarySerializer SerializerTheorems RiskChecker OrderBook BookInv BookOps BookRegistry ClientErasure SafeQueue Wal WalSystem ReplayEngine ThreadPool Recovery Session SessionTheorems.
Local Open Scope exchange_scope.
Local Open Scope list_scope.

(** ** DemoClient *)

Record DemoClient : Type := mkDemoClient {
  dc_connected : bool;
  dc_sent_count : Z;
  dc_received_count : Z }.

Definition new_client : DemoClient := mkDemoClient false 0 0.

Definition connect (c : DemoClient) : DemoClient :=
  if dc_connected c then c else mkDemoClient true (dc_sent_count c) (dc_received_count c).

(** The buffer of a request, and the count of requests sent. *)
Definition send {A : Type} `{Packed A} (ty : MsgType) (net : A) (c : DemoClient) : list ascii * DemoClient :=
  (pack (mkMsgHeader (MsgType_to_u16 ty) (Z.of_nat (sizeof A))) ++ pack net,
   mkDemoClient (dc_connected c) (u32 (dc_sent_count c + 1)) (dc_received_count c)).

Definition send_order (u : list ascii) (order : Order) : DemoClient -> list ascii * DemoClient :=
  send MsgOrder (to_net_order u order).
Definition send_modify (u : list ascii) (req : ModifyRequest) : DemoClient -> list ascii * DemoClient :=
  send MsgModify (to_net_modify u req).
Definition send_cancel (u : list ascii) (req : CancelRequest) : DemoClient -> list ascii * DemoClient :=
  send MsgCancel (to_net_cancel u req).

(** The read loop on a stream that ends: a short read throws and ends the loop. *)
Fixpoint read_loop (fuel : nat) (bytes : list ascii) (c : DemoClient) : outcome DemoClient :=
  match fuel with
  | O => Fault OutOfFuel
  | S fuel =>
      if (length bytes <? sizeof MsgHeader)%nat then Ok c
      else
        let header : MsgHeader := unpack (take (sizeof MsgHeader) bytes) in
        let bytes := drop (sizeof MsgHeader) bytes in
        if negb (h_type header =? MsgType_to_u16 MsgExecutionReport)%Z then Ok c
        else if (length bytes <? sizeof NetExecutionReport)%nat then Ok c
        else read_loop fuel (drop (sizeof NetExecutionReport) bytes)
               (mkDemoClient (dc_connected c) (dc_sent_count c) (u32 (dc_received_count c + 1)))
  end.

(** ** The exchange, one request at a time *)

Record Exchange : Type := mkExchange {
  ex_checker : RiskChecker;
  ex_registry : BookRegistry;
  ex_env : Env;
  ex_sinks : Sinks;
  ex_rejects : list ExecutionReport }.

Definition demo_junk (n : nat) : list ascii := w_uninit 52.
Definition demo_junk8 (n : nat) : list ascii := w_uninit 8.

(** The effects of a packet: a task runs to its end, a rejection is sent. *)
Definition run_packet_effect (e : effect) (x : Exchange) : outcome Exchange :=
  match e with
  | E_submit t =>
      let* (r, env, k) :=
        process_task true true demo_junk demo_junk8 t (ex_registry x) (ex_env x) (ex_sinks x) in
      Ok (mkExchange (ex_checker x) r env k (ex_rejects x))
  | E_post r => Ok (mkExchange (ex_checker x) (ex_registry x) (ex_env x) (ex_sinks x) (ex_rejects x ++ [r]))
  | _ => Ok x
  end.

Fixpoint run_packet_effects (es : list effect) (x : Exchange) : outcome Exchange :=
  match es with
  | [] => Ok x
  | e :: es => let* x := run_packet_effect e x in run_packet_effects es x
  end.

(** The session of [client] reads the buffer a [DemoClient] wrote. *)
Definition receive (client : Z) (buffer : list ascii) (x : Exchange) : outcome Exchange :=
  let* (_, effects, rc, env) :=
    read_session (S (length buffer)) buffer (new_session client).1 (ex_checker x) (ex_env x) in
  run_packet_effects effects (mkExchange rc (ex_registry x) env (ex_sinks x) (ex_rejects x)).

Fixpoint receive_all (ps : list (Z * list ascii)) (x : Exchange) : outcome Exchange :=
  match ps with
  | [] => Ok x
  | (client, buffer) :: ps => let* x := receive client buffer x in receive_all ps x
  end.

(** The requests of the demo, in order, as the clients frame them. *)
Definition demo_order (client id : Z) (sym : string) (s : Side) (ty : OrderType) (px qty ts : Z)
    : Z * list ascii :=
  (client, (send_order (w_uninit 8) (mkOrder id sym s ty px qty qty ts 0) new_client).1).

Definition demo_requests : list (Z * list ascii) :=
  [demo_order 1 999 "GOOGL" Buy Limit 15000 100 1000;
   demo_order 1 1001 "AAPL" Buy Limit 15000 100 1001;
   demo_order 2 1002 "AAPL" Buy Limit 15010 50 1002;
   demo_order 3 1003 "AAPL" Buy Limit 14990 200 1003;
   demo_order 2 2001 "AAPL" Sell Limit 15000 80 2001;
   demo_order 3 3001 "MSFT" Sell Limit 30000 100 3001;
   demo_order 1 1004 "MSFT" Buy Limit 30000 100 1004;
   (3%Z, (send_modify (w_uninit 8) (mkModifyRequest 1003 "AAPL" 14995 150 5000 0) new_client).1);
   (1%Z, (send_cancel (w_uninit 8) (mkCancelRequest 1001 "AAPL" 6000 0) new_client).1);
   demo_order 2 2002 "AAPL" Sell Limit 15050 50 7001;
   demo_order 1 1005 "AAPL" Buy Market 0 50 7002].

Definition demo_exchange : Exchange :=
  mkExchange w_checker new_registry (mkEnv initial_counter (fun n => Z.of_nat n) 0) (mkSinks [] [] []) [].

(** Order id, status, last quantity and price of the reports of a client. *)
Definition reports_of (client : Z) (x : Exchange) : list (Z * OrderStatus * Z * Z) :=
  (fun r => (er_order_id r, er_status r, er_last_qty r, er_last_px r)) <$>
    filter (fun r => er_client_id r = client) (published_reports (ex_sinks x)).

(** What the demo shows: rejections, the reports of the three clients, the
    printed books, original and recovered, whether the replay succeeded, how
    many events it counted, and the trade-id counters before and after. *)
Record DemoOutcome : Type := mkDemoOutcome {
  do_rejects : list (Z * string);
  do_client1 : list (Z * OrderStatus * Z * Z);
  do_client2 : list (Z * OrderStatus * Z * Z);
  do_client3 : list (Z * OrderStatus * Z * Z);
  do_aapl : list (Z * Z * nat) * list (Z * Z * nat);
  do_msft : list (Z * Z * nat) * list (Z * Z * nat);
  do_recovered_aapl : list (Z * Z * nat) * list (Z * Z * nat);
  do_recovered_msft : list (Z * Z * nat) * list (Z * Z * nat);
  do_replay_ok : bool;
  do_replayed : nat;
  do_counters : Z * Z }.

Definition run_multi_client_demo : outcome DemoOutcome :=
  let* x := receive_all demo_requests demo_exchange in
  let* (replay_ok, st) :=
    replay (Some (wal_bytes (log_records (ex_sinks x)))) new_registry (ex_env x) in
  Ok (mkDemoOutcome
    ((fun r => (er_order_id r, er_reject_reason r)) <$> ex_rejects x)
    (reports_of 1 x) (reports_of 2 x) (reports_of 3 x)
    (print_book (book_of "AAPL" (ex_registry x))) (print_book (book_of "MSFT" (ex_registry x)))
    (print_book (book_of "AAPL" (rs_registry st))) (print_book (book_of "MSFT" (rs_registry st)))
    replay_ok (replayed_count st) (counter_ (ex_env x), counter_ (rs_env st))).

(** ** Facts *)

Lemma report_buffer_split js jr r : report_fields_ok r -> length js = 8 -> length jr = 32 ->
  exists hdr body, report_buffer js jr r = hdr ++ body /\ length hdr = sizeof MsgHeader /\
    unpack hdr = mkMsgHeader 4 86 /\ length body = sizeof NetExecutionReport.
Proof.
  intros Hr Hs Hl.
  assert (fields_ok (mkMsgHeader (MsgType_to_u16 MsgExecutionReport) (Z.of_nat (sizeof NetExecutionReport))))
    as Hh by (vm_compute; split_and!; done).
  do 2 eexists. split; [reflexivity|]. split; [by apply pack_length|].
  pose proof (unpack_pack _ [] Hh) as Hu. rewrite app_nil_r in Hu. split; [exact Hu|].
  apply pack_length. by apply to_net_report_fields.
Qed.

(** ** Properties *)

(** A client that reads what the session wrote counts every report, however
    many there are, and nothing else: the two ends agree on the framing. *)
Theorem client_counts_reports junk_symbol junk_reason rs torn c fuel :
  Forall report_fields_ok rs -> (forall r, length (junk_symbol r) = 8) ->
  (forall r, length (junk_reason r) = 32) -> torn_header torn -> (length rs < fuel)%nat ->
  (0 <= dc_received_count c)%Z -> (dc_received_count c + Z.of_nat (length rs) < 2 ^ 32)%Z ->
  exists c', read_loop fuel (wire_of junk_symbol junk_reason rs ++ torn) c = Ok c' /\
    dc_received_count c' = (dc_received_count c + Z.of_nat (length rs))%Z.
Proof.
  intros Hrs Hjs Hjr Ht. revert fuel c.
  induction Hrs as [|r rs Hr Hrs IH]; intros [|fuel] c Hf H0 Hlt; cbn [length] in *; try lia; cbn [read_loop].
  - exists c. change (wire_of junk_symbol junk_reason []) with (@nil ascii). cbn [app].
    rewrite (proj2 (Nat.ltb_lt _ _) Ht). split; [done|]. lia.
  - change (wire_of junk_symbol junk_reason (r :: rs))
      with (buffer_of junk_symbol junk_reason r ++ wire_of junk_symbol junk_reason rs).
    destruct (report_buffer_split (junk_symbol r) (junk_reason r) r Hr (Hjs r) (Hjr r))
      as (hdr & body & Hb & Hh & Hu & Hl).
    change (report_buffer (junk_symbol r) (junk_reason r) r) with (buffer_of junk_symbol junk_reason r) in Hb.
    rewrite Hb, <- !app_assoc.
    rewrite (proj2 (Nat.ltb_ge _ _)) by (rewrite length_app, Hh; lia).
    rewrite take_app_length', drop_app_length' by done. rewrite Hu. cbn [h_type].
    change (4 =? MsgType_to_u16 MsgExecutionReport)%Z with true. cbn [negb].
    rewrite (proj2 (Nat.ltb_ge _ _)) by (rewrite length_app, Hl; lia).
    rewrite drop_app_length' by done.
    assert (u32 (dc_received_count c + 1) = dc_received_count c + 1)%Z as -> by (apply u32_small; unfold is_u32; lia).
    destruct (IH fuel (mkDemoClient (dc_connected c) (dc_sent_count c) (dc_received_count c + 1)))
      as (c' & -> & Hc'); cbn [dc_received_count]; [lia..|].
    exists c'. split; [done|]. rewrite Hc'. cbn [dc_received_count]. lia.
Qed.

Lemma client_counts_reports_witness :
  exists c', read_loop 3 (wire_of w_js w_jr [w_report 1; w_report 2] ++ w_uninit 3) new_client = Ok c' /\
    dc_received_count c' = 2%Z.
Proof.
  assert (Forall report_fields_ok [w_report 1; w_report 2]) as Hr.
  { repeat constructor; simpl; unfold is_u64, is_u32; lia || done. }
  assert (torn_header (w_uninit 3)) as Ht by (vm_compute; lia).
  assert (length [w_report 1; w_report 2] < 3)%nat as Hl by (simpl; lia).
  assert (0 <= dc_received_count new_client)%Z as H0 by (simpl; lia).
  assert (dc_received_count new_client + Z.of_nat (length [w_report 1; w_report 2]) < 2 ^ 32)%Z as H1
    by (simpl; lia).
  exact (client_counts_reports w_js w_jr _ _ _ _ Hr (fun _ => eq_refl) (fun _ => eq_refl) Ht Hl H0 H1).
Defined.

(** The whole demo.  The requests of [run_multi_client_demo], from the
    clients' bytes on, end with the books below, the orders 999 and 1005
    rejected (1005, a market order, for its zero price), the reports below to
    the three clients, and a log whose replay prints the same books and brings
    the trade-id counter to the same value. *)
Theorem demo_run :
  run_multi_client_demo = Ok (mkDemoOutcome
    [(999, "Invalid Symbol"); (1005, "Invalid Price Bounds")]
    [(1001, New, 0, 0); (1001, PartiallyFilled, 30, 15000); (1004, Filled, 100, 30000);
     (1001, Cancelled, 0, 0)]
    [(1002, New, 0, 0); (1002, Filled, 50, 15010); (2001, PartiallyFilled, 50, 15010);
     (2001, Filled, 30, 15000); (2002, New, 0, 0)]
    [(1003, New, 0, 0); (3001, New, 0, 0); (3001, Filled, 100, 30000); (1003, New, 0, 0)]
    ([(15050, 50, 1%nat)], [(14995, 150, 1%nat)]) ([], [])
    ([(15050, 50, 1%nat)], [(14995, 150, 1%nat)]) ([], [])
    true 9%nat (4, 4))%Z.
Proof. vm_compute. reflexivity. Qed.
