(* ===== verification/OpQueue.v ===== *)
(** * op_queue: the intrusive queue of pending operations

    [asio/detail/op_queue.hpp].  An operation is its address; [memory] maps the
    address of every live operation to its [next_] field, so following a pointer
    to a destroyed operation is [UseAfterFree].  Every queue of the network
    library the gateway runs on is one of these. *)

From stdpp Require Import base list gmap sets.
From Stdlib Require Import Lia.
From S2P Require Import Prelude.
Local Open Scope exchange_scope.

(** ** Definitions *)

Abbreviation operation := nat.
Abbreviation memory := (gmap operation (option operation)).

Record op_queue : Type := mkOpQueue {
  front_ : option operation;
  back_ : option operation }.

(** [op_queue::op_queue()] *)
Definition new_op_queue : op_queue := mkOpQueue None None.

(** [op_queue_access::next(o)] *)
Definition get_next (o : operation) (h : memory) : outcome (option operation) :=
  of_option UseAfterFree (h !! o).

(** [op_queue_access::next(o1, o2)] *)
Definition set_next (o1 : operation) (o2 : option operation) (h : memory) : outcome memory :=
  match h !! o1 with
  | Some _ => Ok (<[ o1 := o2 ]> h)
  | None => Fault UseAfterFree
  end.

(** [op_queue_access::destroy(o)] *)
Definition destroy_op (o : operation) (h : memory) : memory := delete o h.

Definition oq_front (q : op_queue) : option operation := front_ q.

Definition oq_pop (q : op_queue) (h : memory) : outcome (op_queue * memory) :=
  match front_ q with
  | None => Ok (q, h)
  | Some tmp =>
      let* front := get_next tmp h in
      let back := match front with None => None | Some _ => back_ q end in
      let* h := set_next tmp None h in
      Ok (mkOpQueue front back, h)
  end.

Definition oq_push (o : operation) (q : op_queue) (h : memory) : outcome (op_queue * memory) :=
  let* h := set_next o None h in
  match back_ q with
  | Some back =>
      let* h := set_next back (Some o) h in
      Ok (mkOpQueue (front_ q) (Some o), h)
  | None => Ok (mkOpQueue (Some o) (Some o), h)
  end.

(** [push(op_queue&)]: the first queue takes the operations of the second. *)
Definition oq_splice (q other : op_queue) (h : memory) : outcome (op_queue * op_queue * memory) :=
  match front_ other with
  | None => Ok (q, other, h)
  | Some other_front =>
      match back_ q with
      | Some back =>
          let* h := set_next back (Some other_front) h in
          Ok (mkOpQueue (front_ q) (back_ other), mkOpQueue None None, h)
      | None => Ok (mkOpQueue (Some other_front) (back_ other), mkOpQueue None None, h)
      end
  end.

Definition oq_empty (q : op_queue) : bool := match front_ q with None => true | Some _ => false end.

Definition is_enqueued (o : operation) (q : op_queue) (h : memory) : outcome bool :=
  let* n := get_next o h in
  Ok (match n with Some _ => true | None => bool_decide (back_ q = Some o) end).

(** [op_queue::~op_queue()]: the operations destroyed, in order. *)
Fixpoint oq_destroy (fuel : nat) (q : op_queue) (h : memory) : outcome (list operation * memory) :=
  match fuel with
  | O => Fault OutOfFuel
  | S fuel =>
      match front_ q with
      | None => Ok ([], h)
      | Some op =>
          let* (q, h) := oq_pop q h in
          let* (ops, h) := oq_destroy fuel q (destroy_op op h) in
          Ok (op :: ops, h)
      end
  end.

(** ** What a queue stands for *)

(** The operations [ls] are linked in this order, the last one to nothing. *)
Fixpoint linked (h : memory) (ls : list operation) : Prop :=
  match ls with
  | [] => True
  | a :: ls' => h !! a = Some (head ls') /\ linked h ls'
  end.

Record queue_is (h : memory) (q : op_queue) (ls : list operation) : Prop := mkQueueIs {
  qs_front : front_ q = head ls;
  qs_back : back_ q = last ls;
  qs_nodup : NoDup ls;
  qs_linked : linked h ls }.

(** ** Facts *)

Lemma linked_ext h h' ls : (forall o, o ∈ ls -> h' !! o = h !! o) -> linked h ls -> linked h' ls.
Proof.
  induction ls as [|a ls IH]; cbn [linked]; [done|]. intros He [Ha Hl].
  rewrite He by set_solver. split; [done|]. apply IH; [set_solver|done].
Qed.

Lemma linked_app h ls1 ls2 a : linked h (ls1 ++ [a]) -> linked h ls2 ->
  linked (<[ a := head ls2 ]> h) ls2 -> NoDup (ls1 ++ [a]) -> a ∉ ls2 ->
  linked (<[ a := head ls2 ]> h) ((ls1 ++ [a]) ++ ls2).
Proof.
  intros H1 H2 H2' Hnd Ha. induction ls1 as [|b ls1 IH]; cbn [app linked] in *.
  - by rewrite lookup_insert_eq.
  - destruct H1 as [Hb H1]. apply NoDup_cons in Hnd as [Hb' Hnd].
    rewrite lookup_insert_ne by set_solver. split; [|by apply IH]. rewrite Hb. by destruct ls1.
Qed.

Lemma linked_live h ls o : linked h ls -> o ∈ ls -> is_Some (h !! o).
Proof.
  induction ls as [|a ls IH]; cbn [linked]; [set_solver|].
  intros [Ha Hl] [->|Hin]%elem_of_cons; [rewrite Ha; eauto|auto].
Qed.

Lemma queue_is_ext h h' q ls :
  (forall o, o ∈ ls -> h' !! o = h !! o) -> queue_is h q ls -> queue_is h' q ls.
Proof. intros He []. constructor; try done. by eapply linked_ext. Qed.

Lemma new_queue_is h : queue_is h new_op_queue [].
Proof. by constructor; try done; constructor. Qed.

Lemma pop_nil h q : queue_is h q [] -> oq_pop q h = Ok (q, h).
Proof. intros [Hf _ _ _]. unfold oq_pop. by rewrite Hf. Qed.

Lemma pop_cons h q o ls : queue_is h q (o :: ls) ->
  exists q', oq_pop q h = Ok (q', <[ o := None ]> h) /\ queue_is (<[ o := None ]> h) q' ls.
Proof.
  intros [Hf Hb Hnd [Ho Hl]]. apply NoDup_cons in Hnd as [Hno Hnd].
  unfold oq_pop. rewrite Hf. cbn [head]. unfold get_next, set_next. rewrite Ho. cbn [of_option obind].
  eexists. split; [done|]. constructor; cbn [front_ back_]; try done.
  - rewrite Hb. by destruct ls.
  - apply (linked_ext h); [|done]. intros x Hx. rewrite lookup_insert_ne; [done|set_solver].
Qed.

Lemma push_queue h q ls o : queue_is h q ls -> o ∉ ls -> is_Some (h !! o) ->
  exists q' h', oq_push o q h = Ok (q', h') /\ queue_is h' q' (ls ++ [o]) /\
    (forall x, x ∉ ls ++ [o] -> h' !! x = h !! x) /\ dom h' = dom h.
Proof.
  intros [Hf Hb Hnd Hl] Ho Hal. unfold oq_push, set_next at 1. destruct Hal as [nx Hnx]. rewrite Hnx.
  cbn [obind]. destruct ls as [|b ls] using rev_ind.
  - rewrite Hb. cbn [last]. do 2 eexists. split; [done|]. split_and!.
    + constructor; cbn [front_ back_ app head last linked]; [done|done|apply NoDup_singleton|].
      by rewrite lookup_insert_eq.
    + intros x Hx. rewrite lookup_insert_ne; [done|set_solver].
    + rewrite dom_insert_L. apply elem_of_dom_2 in Hnx. set_solver.
  - clear IHls. rewrite Hb, last_snoc. unfold set_next.
    assert (b <> o) as Hbo by set_solver.
    destruct (linked_live h (ls ++ [b]) b Hl) as [nb Hnb]; [set_solver|].
    rewrite lookup_insert_ne by done. rewrite Hnb. cbn [obind].
    do 2 eexists. split; [done|]. split_and!.
    + assert (linked (<[o:=None]> h) (ls ++ [b])) as Hl'.
      { apply (linked_ext h); [|done]. intros x Hx. rewrite lookup_insert_ne; [done|set_solver]. }
      constructor; cbn [front_ back_].
      * rewrite Hf. by destruct ls.
      * by rewrite last_snoc.
      * apply NoDup_app. split; [done|]. split; [set_solver|apply NoDup_singleton].
      * apply (linked_app _ ls [o] b); try done; cbn [linked head]; try set_solver.
        -- by rewrite lookup_insert_eq.
        -- rewrite lookup_insert_ne by done. by rewrite lookup_insert_eq.
    + intros x Hx. rewrite !lookup_insert_ne; [done|set_solver..].
    + rewrite !dom_insert_L. apply elem_of_dom_2 in Hnx, Hnb. set_solver.
Qed.

Lemma splice_queues h q1 q2 ls1 ls2 : queue_is h q1 ls1 -> queue_is h q2 ls2 ->
  (forall o, o ∈ ls1 -> o ∉ ls2) ->
  exists q1' q2' h', oq_splice q1 q2 h = Ok (q1', q2', h') /\ queue_is h' q1' (ls1 ++ ls2) /\
    queue_is h' q2' [] /\ (forall x, x ∉ ls1 -> h' !! x = h !! x) /\ dom h' = dom h.
Proof.
  intros Hq1 Hq2 Hdis. pose proof Hq1 as [Hf1 Hb1 Hnd1 Hl1]. pose proof Hq2 as [Hf2 Hb2 Hnd2 Hl2].
  unfold oq_splice. rewrite Hf2. destruct ls2 as [|o ls2]; cbn [head].
  - do 3 eexists. split; [done|]. rewrite app_nil_r. split_and!; done.
  - destruct ls1 as [|b ls1] using rev_ind.
    + rewrite Hb1. cbn [last]. do 3 eexists. split; [done|]. split_and!; [|apply new_queue_is|done|done].
      constructor; cbn [front_ back_ app]; done.
    + clear IHls1. rewrite Hb1, last_snoc. unfold set_next.
      destruct (linked_live h (ls1 ++ [b]) b Hl1) as [nb Hnb]; [set_solver|]. rewrite Hnb. cbn [obind].
      assert (b ∉ o :: ls2) as Hbn by (apply Hdis; set_solver).
      do 3 eexists. split; [done|]. split_and!; [|apply new_queue_is| |].
      * constructor; cbn [front_ back_].
        -- rewrite Hf1. by destruct ls1.
        -- rewrite last_app, Hb2. destruct (last (o :: ls2)) eqn:E; [done|]. by apply last_None in E.
        -- apply NoDup_app. split; [done|]. split; [|done]. intros x Hx. by apply Hdis.
        -- apply (linked_app h ls1 (o :: ls2) b); try done.
           apply (linked_ext h); [|done]. intros x Hx. rewrite lookup_insert_ne; [done|]. intros <-. done.
      * intros x Hx. rewrite lookup_insert_ne; [done|set_solver].
      * rewrite dom_insert_L. apply elem_of_dom_2 in Hnb. set_solver.
Qed.

Lemma is_enqueued_spec h q ls o : queue_is h q ls -> is_Some (h !! o) ->
  (o ∉ ls -> h !! o = Some None) -> is_enqueued o q h = Ok (bool_decide (o ∈ ls)).
Proof.
  intros [Hf Hb Hnd Hl] [nx Hnx] Hout. unfold is_enqueued, get_next. rewrite Hnx. cbn [of_option obind].
  destruct (decide (o ∈ ls)) as [Hin|Hin].
  - rewrite (bool_decide_eq_true_2 _ Hin). f_equal. destruct nx as [n|]; [done|].
    apply bool_decide_eq_true_2. rewrite Hb.
    apply list_elem_of_split in Hin as (l1 & l2 & ->). destruct l2 as [|x l2]; [by rewrite last_snoc|].
    exfalso. assert (linked h (o :: x :: l2)) as [Ho _].
    { clear -Hl. induction l1 as [|y l1 IH]; [done|]. apply IH. by destruct Hl. }
    rewrite Ho in Hnx. done.
  - rewrite (bool_decide_eq_false_2 _ Hin). rewrite (Hout Hin) in Hnx. injection Hnx as <-. f_equal.
    apply bool_decide_eq_false_2. rewrite Hb. intros Hlast. by apply Hin, last_Some_elem_of.
Qed.

Lemma destroy_queue ls : forall h q fuel, queue_is h q ls -> (length ls < fuel)%nat ->
  exists h', oq_destroy fuel q h = Ok (ls, h') /\ forall o, h' !! o = if decide (o ∈ ls) then None else h !! o.
Proof.
  induction ls as [|o ls IH]; intros h q [|fuel] Hq Hf; cbn [length] in Hf; try lia; cbn [oq_destroy].
  - pose proof Hq as [Hfr _ _ _]. rewrite Hfr. cbn [head]. exists h. split; [done|].
    intros o. rewrite decide_False; [done|]. apply not_elem_of_nil.
  - pose proof Hq as [Hfr _ Hnd _]. rewrite Hfr. cbn [head]. apply NoDup_cons in Hnd as [Hno Hnd].
    destruct (pop_cons h q o ls Hq) as (q' & -> & Hq'). cbn [obind].
    destruct (IH (destroy_op o (<[ o := None ]> h)) q' fuel) as (h' & -> & Hh'); [|lia|].
    { eapply queue_is_ext; [|exact Hq']. intros x Hx. unfold destroy_op.
      rewrite lookup_delete_ne; [done|]. intros <-. done. }
    cbn [obind]. exists h'. split; [done|]. intros x. rewrite Hh'. unfold destroy_op.
    destruct (decide (x = o)) as [->|Hne].
    + rewrite (decide_False (P := o ∈ ls)), (decide_True (P := o ∈ o :: ls)) by set_solver. by rewrite lookup_delete_eq.
    + rewrite lookup_delete_ne, lookup_insert_ne by done.
      destruct (decide (x ∈ ls)) as [Hin|Hin]; [rewrite decide_True by set_solver|rewrite decide_False by set_solver]; done.
Qed.

(** ** Two queues under any sequence of calls

    [run_commands] makes the calls; [run_lists] is the reference: it is
    undefined when an operation that is still in a queue is pushed again. *)

Inductive command : Type :=
  | Push (o : operation)       (* q1.push(o) *)
  | PushOther (o : operation)  (* q2.push(o) *)
  | Pop                        (* q1.pop() *)
  | PopOther                   (* q2.pop() *)
  | Splice                     (* q1.push(q2) *)
  | SpliceOther.               (* q2.push(q1) *)

Definition exec (c : command) (st : op_queue * op_queue * memory) : outcome (op_queue * op_queue * memory) :=
  let '(q1, q2, h) := st in
  match c with
  | Push o => let* (q1, h) := oq_push o q1 h in Ok (q1, q2, h)
  | PushOther o => let* (q2, h) := oq_push o q2 h in Ok (q1, q2, h)
  | Pop => let* (q1, h) := oq_pop q1 h in Ok (q1, q2, h)
  | PopOther => let* (q2, h) := oq_pop q2 h in Ok (q1, q2, h)
  | Splice => oq_splice q1 q2 h
  | SpliceOther => let* (q2, q1, h) := oq_splice q2 q1 h in Ok (q1, q2, h)
  end.

Definition exec_lists (c : command) (st : list operation * list operation)
    : option (list operation * list operation) :=
  let '(l1, l2) := st in
  match c with
  | Push o => if decide (o ∈ l1 ++ l2) then None else Some (l1 ++ [o], l2)
  | PushOther o => if decide (o ∈ l1 ++ l2) then None else Some (l1, l2 ++ [o])
  | Pop => Some (tail l1, l2)
  | PopOther => Some (l1, tail l2)
  | Splice => Some (l1 ++ l2, [])
  | SpliceOther => Some ([], l2 ++ l1)
  end.

Fixpoint run_commands (cs : list command) (st : op_queue * op_queue * memory)
    : outcome (op_queue * op_queue * memory) :=
  match cs with
  | [] => Ok st
  | c :: cs => let* st := exec c st in run_commands cs st
  end.

Fixpoint run_lists (cs : list command) (st : list operation * list operation)
    : option (list operation * list operation) :=
  match cs with
  | [] => Some st
  | c :: cs => match exec_lists c st with Some st => run_lists cs st | None => None end
  end.

Definition pushed (cs : list command) : list operation :=
  omap (fun c => match c with Push o | PushOther o => Some o | _ => None end) cs.

Record two_queues (h : memory) (q1 q2 : op_queue) (l1 l2 : list operation) : Prop := mkTwoQueues {
  tq_1 : queue_is h q1 l1;
  tq_2 : queue_is h q2 l2;
  tq_disjoint : forall o, o ∈ l1 -> o ∉ l2 }.

Lemma two_queues_sym h q1 q2 l1 l2 : two_queues h q1 q2 l1 l2 -> two_queues h q2 q1 l2 l1.
Proof. intros [H1 H2 Hd]. constructor; [done..|]. intros o H H'. by apply (Hd o). Qed.

Lemma push_two h q1 q2 l1 l2 o : two_queues h q1 q2 l1 l2 -> o ∉ l1 ++ l2 -> is_Some (h !! o) ->
  exists q1' h', oq_push o q1 h = Ok (q1', h') /\ two_queues h' q1' q2 (l1 ++ [o]) l2 /\ dom h' = dom h.
Proof.
  intros [H1 H2 Hd] Ho Hal. destruct (push_queue h q1 l1 o H1) as (q' & h' & Hp & Hq & Hx & Hdom); [set_solver|done|].
  exists q', h'. split; [done|]. split; [|done]. constructor; [done| |set_solver].
  eapply queue_is_ext; [|exact H2]. intros x Hin. apply Hx. set_solver.
Qed.

Lemma pop_two h q1 q2 l1 l2 : two_queues h q1 q2 l1 l2 ->
  exists q1' h', oq_pop q1 h = Ok (q1', h') /\ two_queues h' q1' q2 (tail l1) l2 /\ dom h' = dom h.
Proof.
  intros [H1 H2 Hd]. destruct l1 as [|o l1].
  - exists q1, h. split; [by apply pop_nil|]. by split.
  - destruct (pop_cons h q1 o l1 H1) as (q' & Hp & Hq). exists q', (<[ o := None ]> h).
    split; [done|]. split.
    + constructor; [done| |set_solver]. eapply queue_is_ext; [|exact H2].
      intros x Hin. rewrite lookup_insert_ne; [done|set_solver].
    + destruct (linked_live h (o :: l1) o (qs_linked _ _ _ H1)) as [n Hn]; [set_solver|].
      rewrite dom_insert_L. apply elem_of_dom_2 in Hn. set_solver.
Qed.

Lemma splice_two h q1 q2 l1 l2 : two_queues h q1 q2 l1 l2 ->
  exists q1' q2' h', oq_splice q1 q2 h = Ok (q1', q2', h') /\
    two_queues h' q1' q2' (l1 ++ l2) [] /\ dom h' = dom h.
Proof.
  intros [H1 H2 Hd]. destruct (splice_queues h q1 q2 l1 l2 H1 H2 Hd) as (q1' & q2' & h' & Hs & Ha & Hb & _ & Hdom).
  exists q1', q2', h'. split; [done|]. split; [|done]. by constructor; [| |set_solver].
Qed.

Lemma exec_refines c h q1 q2 l1 l2 l1' l2' :
  two_queues h q1 q2 l1 l2 -> (forall o, o ∈ pushed [c] -> is_Some (h !! o)) ->
  exec_lists c (l1, l2) = Some (l1', l2') ->
  exists q1' q2' h', exec c (q1, q2, h) = Ok (q1', q2', h') /\ two_queues h' q1' q2' l1' l2' /\ dom h' = dom h.
Proof.
  intros Hq Hl He. pose proof (two_queues_sym _ _ _ _ _ Hq) as Hs.
  destruct c; cbn [exec exec_lists] in *; try (case_decide; [done|]); injection He as <- <-.
  - destruct (push_two h q1 q2 l1 l2 o) as (q' & h' & -> & Hq' & Hd); [done|done|apply Hl; set_solver|].
    cbn [obind]. eauto 9.
  - destruct (push_two h q2 q1 l2 l1 o) as (q' & h' & -> & Hq' & Hd); [done|set_solver|apply Hl; set_solver|].
    cbn [obind]. eauto 9 using two_queues_sym.
  - destruct (pop_two _ _ _ _ _ Hq) as (q' & h' & -> & Hq' & Hd). cbn [obind]. eauto 9.
  - destruct (pop_two _ _ _ _ _ Hs) as (q' & h' & -> & Hq' & Hd). cbn [obind]. eauto 9 using two_queues_sym.
  - destruct (splice_two _ _ _ _ _ Hq) as (q1' & q2' & h' & -> & Hq' & Hd). eauto 9.
  - destruct (splice_two _ _ _ _ _ Hs) as (q2' & q1' & h' & -> & Hq' & Hd). cbn [obind]. eauto 9 using two_queues_sym.
Qed.

Lemma run_refines cs : forall h q1 q2 l1 l2 l1' l2',
  two_queues h q1 q2 l1 l2 -> (forall o, o ∈ pushed cs -> is_Some (h !! o)) ->
  run_lists cs (l1, l2) = Some (l1', l2') ->
  exists q1' q2' h', run_commands cs (q1, q2, h) = Ok (q1', q2', h') /\ two_queues h' q1' q2' l1' l2' /\ dom h' = dom h.
Proof.
  induction cs as [|c cs IH]; intros h q1 q2 l1 l2 l1' l2' Hq Hl Hr; cbn [run_lists run_commands] in *.
  - injection Hr as <- <-. eauto 9.
  - destruct (exec_lists c (l1, l2)) as [[m1 m2]|] eqn:He; [|done].
    assert (forall o, o ∈ pushed (c :: cs) <-> o ∈ pushed [c] \/ o ∈ pushed cs) as Hp.
    { intros o. unfold pushed. cbn [omap list_omap]. destruct c; set_solver. }
    destruct (exec_refines c h q1 q2 l1 l2 m1 m2 Hq) as (q1' & q2' & h' & -> & Hq' & Hd); [|done|].
    { intros o Ho. apply Hl, Hp. by left. }
    cbn [obind]. destruct (IH h' q1' q2' m1 m2 l1' l2' Hq') as (p1 & p2 & hh & Hrun & Hpq & Hdd); [|done|].
    { intros o Ho. apply elem_of_dom. rewrite Hd. apply elem_of_dom, Hl, Hp. by right. }
    exists p1, p2, hh. split; [done|]. split; [done|congruence].
Qed.

(** Two operation queues that start empty behave as two lists under every
    sequence of pushes, pops and splices that never pushes an operation which
    is still queued: no call follows a dangling pointer, the front of the first
    queue is the head of its list, it is empty exactly when the list is, and its
    destructor destroys exactly the operations it still holds, oldest first. *)
Theorem queues_refine_lists cs h l1 l2
    (Hlive : forall o, o ∈ pushed cs -> is_Some (h !! o))
    (Hlists : run_lists cs ([], []) = Some (l1, l2)) :
  exists q1 q2 h', run_commands cs (new_op_queue, new_op_queue, h) = Ok (q1, q2, h') /\
    oq_front q1 = head l1 /\ oq_empty q1 = bool_decide (l1 = []) /\
    exists h'', oq_destroy (S (length l1)) q1 h' = Ok (l1, h'') /\
      forall o, is_Some (h'' !! o) <-> is_Some (h !! o) /\ o ∉ l1.
Proof.
  destruct (run_refines cs h new_op_queue new_op_queue [] [] l1 l2) as (q1 & q2 & h' & Hr & [H1 _ _] & Hd);
    [by constructor; [apply new_queue_is..|set_solver]|done|done|].
  exists q1, q2, h'. split; [done|]. split; [apply H1|]. split.
  { unfold oq_empty. rewrite (qs_front _ _ _ H1). by destruct l1. }
  destruct (destroy_queue l1 h' q1 (S (length l1)) H1) as (h'' & Hdes & Hh''); [lia|].
  exists h''. split; [done|]. intros o. rewrite Hh'', <- (elem_of_dom h), <- Hd, elem_of_dom.
  case_decide; [split; [intros []%is_Some_None|tauto]|tauto].
Qed.

Lemma queues_refine_lists_witness :
  let cs := [Push 1; PushOther 2; PushOther 3; Splice; Pop; Push 1] in
  let h : memory := {[ 1 := None; 2 := Some 9; 3 := None ]} in
  run_lists cs ([], []) = Some ([2; 3; 1], []) /\
  exists q1 q2 h', run_commands cs (new_op_queue, new_op_queue, h) = Ok (q1, q2, h') /\
    oq_front q1 = Some 2 /\ oq_empty q1 = false /\
    exists h'', oq_destroy 4 q1 h' = Ok ([2; 3; 1], h'') /\
      forall o, is_Some (h'' !! o) <-> is_Some (h !! o) /\ o ∉ [2; 3; 1].
Proof.
  split; [vm_compute; reflexivity|]. apply (queues_refine_lists _ _ [2; 3; 1] []); [|vm_compute; reflexivity].
  intros o Ho. cbn in Ho. rewrite !elem_of_cons in Ho.
  destruct Ho as [->|[->|[->|[->|Ho]]]]; [by eexists..|]. by apply not_elem_of_nil in Ho.
Defined.
