(* ===== verification/Buffers.v ===== *)
(** * Buffers: memory ranges and their consumption

    [asio/buffer.hpp] (a buffer is a pointer and a size) and
    [asio/detail/consuming_buffers.hpp]: the proxies the composed reads and
    writes use to hand out the part of a buffer sequence that is still to be
    transferred.  [ConsumingLaws] states what such a proxy promises: it walks
    over the flat list of the addresses of the sequence.  The general proxy, the
    one for a single buffer and the one for an array of two satisfy it. *)

From stdpp Require Import base list numbers.
From Stdlib Require Import ZArith Lia.
From S2P Require Import Prelude.
Local Open Scope Z_scope.

(** ** Definitions *)

(** [mutable_buffer] and [const_buffer] *)
Record buffer : Type := mkBuffer {
  data_ : Z;
  size_ : Z }.

(** [operator+=] and [operator+] *)
Definition buffer_plus (b : buffer) (n : Z) : buffer :=
  let offset := if n <? size_ b then n else size_ b in
  mkBuffer (data_ b + offset) (u64 (size_ b - offset)).

(** [buffer(b, max_size_in_bytes)] *)
Definition buffer_limit (b : buffer) (max_size_in_bytes : Z) : buffer :=
  mkBuffer (data_ b) (if size_ b <? max_size_in_bytes then size_ b else max_size_in_bytes).

(** [buffer_size(multiple_buffers, begin, end)] *)
Definition buffer_size (bs : list buffer) : Z :=
  fold_left (fun total_buffer_size b => u64 (total_buffer_size + size_ b)) bs 0.

(** *** The general proxy *)

Record consuming_buffers : Type := mkConsuming {
  max_buffers : nat;
  buffers_ : list buffer;
  total_size_ : Z;
  total_consumed_ : Z;
  next_elem_ : nat;
  next_elem_offset_ : Z }.

(** [prepared_buffers::max_buffers] *)
Definition prepared_max_buffers (MaxBuffers : nat) : nat :=
  if (MaxBuffers <? 16)%nat then MaxBuffers else 16.

Definition new_consuming_buffers (MaxBuffers : nat) (buffers : list buffer) : consuming_buffers :=
  mkConsuming (prepared_max_buffers MaxBuffers) buffers (buffer_size buffers) 0 0 0.

Definition cb_empty (c : consuming_buffers) : bool := total_size_ c <=? total_consumed_ c.

(** The loop of [prepare], from the iterator [next = bs]; the result is the
    elements from [result.count = count] on. *)
Fixpoint prepare_loop (max_buffers : nat) (bs : list buffer) (elem_offset max_size : Z) (count : nat)
    : list buffer :=
  match bs with
  | [] => []
  | b :: next =>
      if (0 <? max_size) && (count <? max_buffers)%nat then
        let next_buf := buffer_plus b elem_offset in
        let elem := buffer_limit next_buf max_size in
        let max_size := u64 (max_size - size_ elem) in
        if 0 <? size_ elem then elem :: prepare_loop max_buffers next 0 max_size (S count)
        else prepare_loop max_buffers next 0 max_size count
      else []
  end.

Definition cb_prepare (c : consuming_buffers) (max_size : Z) : list buffer :=
  prepare_loop (max_buffers c) (drop (next_elem_ c) (buffers_ c)) (next_elem_offset_ c) max_size 0.

(** The loop of [consume]: the new [next_elem_] and [next_elem_offset_]. *)
Fixpoint consume_loop (bs : list buffer) (size : Z) (elem : nat) (offset : Z) : nat * Z :=
  match bs with
  | [] => (elem, offset)
  | b :: next =>
      if 0 <? size then
        let next_buf := buffer_plus b offset in
        if size <? size_ next_buf then (elem, u64 (offset + size))
        else consume_loop next (u64 (size - size_ next_buf)) (S elem) 0
      else (elem, offset)
  end.

Definition cb_consume (c : consuming_buffers) (size : Z) : consuming_buffers :=
  let '(elem, offset) :=
    consume_loop (drop (next_elem_ c) (buffers_ c)) size (next_elem_ c) (next_elem_offset_ c) in
  mkConsuming (max_buffers c) (buffers_ c) (total_size_ c) (u64 (total_consumed_ c + size)) elem offset.

(** *** The proxy for a single buffer *)

Record consuming_single_buffer : Type := mkSingle {
  csb_buffer : buffer;
  csb_consumed : Z }.

Definition new_consuming_single_buffer (b : buffer) : consuming_single_buffer := mkSingle b 0.

Definition csb_empty (c : consuming_single_buffer) : bool := size_ (csb_buffer c) <=? csb_consumed c.

Definition csb_prepare (c : consuming_single_buffer) (max_size : Z) : list buffer :=
  [buffer_limit (buffer_plus (csb_buffer c) (csb_consumed c)) max_size].

Definition csb_consume (c : consuming_single_buffer) (size : Z) : consuming_single_buffer :=
  mkSingle (csb_buffer c) (u64 (csb_consumed c + size)).

(** *** The proxy for an array of two buffers *)

Record consuming_two_buffers : Type := mkTwo {
  ctb_0 : buffer;
  ctb_1 : buffer;
  ctb_consumed : Z }.

Definition new_consuming_two_buffers (b0 b1 : buffer) : consuming_two_buffers := mkTwo b0 b1 0.

Definition ctb_empty (c : consuming_two_buffers) : bool :=
  u64 (size_ (ctb_0 c) + size_ (ctb_1 c)) <=? ctb_consumed c.

Definition ctb_prepare (c : consuming_two_buffers) (max_size : Z) : list buffer :=
  let buffer0_size := size_ (ctb_0 c) in
  let result0 := buffer_limit (buffer_plus (ctb_0 c) (ctb_consumed c)) max_size in
  let result1 :=
    buffer_limit
      (buffer_plus (ctb_1 c)
        (if ctb_consumed c <? buffer0_size then 0 else u64 (ctb_consumed c - buffer0_size)))
      (u64 (max_size - size_ result0)) in
  [result0; result1].

Definition ctb_consume (c : consuming_two_buffers) (size : Z) : consuming_two_buffers :=
  mkTwo (ctb_0 c) (ctb_1 c) (u64 (ctb_consumed c + size)).

(** ** The interface *)

(** The addresses of a buffer, and of a sequence of buffers. *)
Definition addrs (b : buffer) : list Z := seqZ (data_ b) (size_ b).
Definition flat (bs : list buffer) : list Z := concat (map addrs bs).

Class Consuming (C : Type) : Type := {
  co_empty : C -> bool;
  co_prepare : C -> Z -> list buffer;
  co_consume : C -> Z -> C;
  co_total : C -> Z }.

(** What a proxy promises: [co_rest] are the addresses still to transfer. *)
Class ConsumingLaws (C : Type) {HC : Consuming C} : Type := {
  co_valid : C -> Prop;
  co_rest : C -> list Z;
  co_total_nonneg c : co_valid c -> 0 <= co_total c;
  co_empty_spec c : co_valid c -> co_empty c = bool_decide (co_rest c = []);
  co_prepare_spec c m : co_valid c -> 0 <= m < 2 ^ 64 ->
    exists k, flat (co_prepare c m) = take k (co_rest c) /\ Z.of_nat k <= m /\
              (0 < m -> co_rest c <> [] -> (0 < k)%nat);
  co_consume_spec c n : co_valid c -> 0 <= n <= Z.of_nat (length (co_rest c)) ->
    co_valid (co_consume c n) /\ co_rest (co_consume c n) = drop (Z.to_nat n) (co_rest c) /\
    co_total (co_consume c n) = co_total c + n }.

#[export] Instance consuming_buffers_ops : Consuming consuming_buffers :=
  {| co_empty := cb_empty; co_prepare := cb_prepare; co_consume := cb_consume;
     co_total := total_consumed_ |}.

#[export] Instance consuming_single_ops : Consuming consuming_single_buffer :=
  {| co_empty := csb_empty; co_prepare := csb_prepare; co_consume := csb_consume;
     co_total := csb_consumed |}.

#[export] Instance consuming_two_ops : Consuming consuming_two_buffers :=
  {| co_empty := ctb_empty; co_prepare := ctb_prepare; co_consume := ctb_consume;
     co_total := ctb_consumed |}.

(** ** Facts about buffers *)

Definition wf_buffer (b : buffer) : Prop := is_u64 (size_ b).

Lemma length_addrs b : length (addrs b) = Z.to_nat (size_ b).
Proof. apply length_seqZ. Qed.

Lemma addrs_plus b n : wf_buffer b -> 0 <= n ->
  wf_buffer (buffer_plus b n) /\ addrs (buffer_plus b n) = drop (Z.to_nat n) (addrs b).
Proof.
  unfold wf_buffer, is_u64, buffer_plus, addrs. intros Hw Hn. cbn [size_ data_].
  case_Z; rewrite u64_small by (unfold is_u64; lia).
  - split; [lia|]. rewrite <- (Z2Nat.id n) at 1 2 by lia.
    replace (size_ b) with (Z.of_nat (Z.to_nat n) + (size_ b - n)) at 2 by lia.
    rewrite seqZ_app by lia. rewrite drop_app_length' by (rewrite length_seqZ; lia).
    f_equal. lia.
  - split; [lia|]. rewrite Z.sub_diag. rewrite drop_ge; [done|]. rewrite length_seqZ. lia.
Qed.

Lemma addrs_limit b m : wf_buffer b -> 0 <= m ->
  wf_buffer (buffer_limit b m) /\ addrs (buffer_limit b m) = take (Z.to_nat m) (addrs b).
Proof.
  unfold wf_buffer, is_u64, buffer_limit, addrs. intros Hw Hm. cbn [size_ data_]. case_Z.
  - split; [lia|]. rewrite take_ge; [done|]. rewrite length_seqZ. lia.
  - split; [lia|]. replace (size_ b) with (m + (size_ b - m)) by lia.
    rewrite seqZ_app by lia. rewrite take_app_length' by (rewrite length_seqZ; lia). done.
Qed.

Lemma flat_cons b bs : flat (b :: bs) = addrs b ++ flat bs.
Proof. done. Qed.

(** The offset [off] lies inside the first buffer of [bs]. *)
Definition offset_ok (bs : list buffer) (off : Z) : Prop :=
  match bs with
  | [] => off = 0
  | b :: _ => 0 <= off <= size_ b
  end.

Lemma flat_offset b bs off : 0 <= off <= size_ b ->
  drop (Z.to_nat off) (flat (b :: bs)) = drop (Z.to_nat off) (addrs b) ++ flat bs.
Proof. intros. rewrite flat_cons. apply drop_app_le. rewrite length_addrs. lia. Qed.

Lemma offset_ok_0 bs : Forall wf_buffer bs -> offset_ok bs 0.
Proof. intros [|b bs' Hb]; cbn; [done|]. unfold wf_buffer, is_u64 in Hb. lia. Qed.

Lemma prepare_loop_spec mb bs : forall off m count,
  Forall wf_buffer bs -> offset_ok bs off -> is_u64 m ->
  exists k, flat (prepare_loop mb bs off m count) = take k (drop (Z.to_nat off) (flat bs)) /\
    Z.of_nat k <= m /\
    (0 < m -> (count < mb)%nat -> drop (Z.to_nat off) (flat bs) <> [] -> (0 < k)%nat).
Proof.
  induction bs as [|b bs IH]; intros off m count Hwf Hoff Hm; cbn [prepare_loop].
  { exists 0%nat. split; [done|]. unfold is_u64 in Hm. split; [lia|].
    change (flat []) with (@nil Z). by rewrite drop_nil. }
  apply Forall_cons_1 in Hwf as [Hb Hwf]. cbn [offset_ok] in Hoff.
  destruct ((0 <? m) && (count <? mb)%nat) eqn:Hgo; cycle 1.
  { exists 0%nat. split; [done|]. unfold is_u64 in Hm. split; [lia|]. intros H1 H2 _.
    apply andb_false_iff in Hgo as [Hgo%Z.ltb_ge|Hgo%Nat.ltb_ge]; lia. }
  apply andb_true_iff in Hgo as [Hm0%Z.ltb_lt Hc%Nat.ltb_lt].
  rewrite flat_offset by done. unfold is_u64 in Hm.
  destruct (addrs_plus b off Hb) as [Hw1 Ha1]; [lia|].
  destruct (addrs_limit (buffer_plus b off) m Hw1) as [Hw2 Ha2]; [lia|].
  rewrite Ha1 in Ha2. set (e := buffer_limit (buffer_plus b off) m) in *.
  set (A := drop (Z.to_nat off) (addrs b)) in *.
  assert (size_ e = Z.min (Z.of_nat (length A)) m) as He.
  { assert (length (addrs e) = Z.to_nat (size_ e)) as He by apply length_addrs.
    rewrite Ha2, length_take in He. unfold wf_buffer, is_u64 in Hw2. lia. }
  rewrite u64_small by (unfold is_u64; lia).
  destruct (IH 0 (m - size_ e) (if 0 <? size_ e then S count else count) Hwf (offset_ok_0 _ Hwf))
    as (k & Hk & Hkm & Hkp); [unfold is_u64; lia|]. rewrite drop_0 in Hk, Hkp.
  exists (length (addrs e) + k)%nat. rewrite length_addrs.
  assert (addrs e ++ take k (flat bs) = take (Z.to_nat (size_ e) + k) (A ++ flat bs)) as Heq.
  { rewrite Ha2. destruct (decide (Z.of_nat (length A) < m)) as [Hlt|Hge].
    - rewrite (take_ge A) by lia. rewrite take_app_add'; [done|lia].
    - assert (k = 0%nat) as -> by lia. rewrite app_nil_r, Nat.add_0_r.
      rewrite take_app_le by lia. f_equal. lia. }
  rewrite <- Heq, <- Hk. split; [|split; [lia|]].
  - case_Z; [done|]. rewrite <- (app_nil_l (flat _)) at 1. f_equal.
    symmetry. apply length_zero_iff_nil. rewrite length_addrs. lia.
  - intros _ _ Hne. destruct A as [|a A'] eqn:EA; [|cbn [length] in He; lia].
    cbn [length] in He. cbn [app] in Hne. assert (size_ e = 0) as H0 by lia. rewrite H0 in *.
    cut (0 < k)%nat; [lia|]. apply Hkp; [lia| |done]. case_Z; lia.
Qed.

Lemma consume_loop_spec bs : forall off n elem,
  Forall wf_buffer bs -> offset_ok bs off -> is_u64 n ->
  n <= Z.of_nat (length (drop (Z.to_nat off) (flat bs))) ->
  exists j off', consume_loop bs n elem off = (elem + j, off')%nat /\
    offset_ok (drop j bs) off' /\
    drop (Z.to_nat off') (flat (drop j bs)) = drop (Z.to_nat n) (drop (Z.to_nat off) (flat bs)).
Proof.
  induction bs as [|b bs IH]; intros off n elem Hwf Hoff Hu Hn; unfold is_u64 in Hu; cbn [consume_loop].
  { exists 0%nat, off. rewrite Nat.add_0_r. cbn [drop]. change (flat []) with (@nil Z). by rewrite !drop_nil. }
  apply Forall_cons_1 in Hwf as [Hb Hwf]. cbn [offset_ok] in Hoff.
  destruct (0 <? n) eqn:Hn0; cycle 1.
  { apply Z.ltb_ge in Hn0. exists 0%nat, off. rewrite Nat.add_0_r. replace n with 0 by lia. done. }
  apply Z.ltb_lt in Hn0. rewrite flat_offset in * by done.
  destruct (addrs_plus b off Hb) as [Hw1 Ha1]; [lia|].
  assert (size_ (buffer_plus b off) = size_ b - off) as Hsz.
  { assert (length (addrs (buffer_plus b off)) = Z.to_nat (size_ (buffer_plus b off))) as Hl by apply length_addrs.
    rewrite Ha1, length_drop, length_addrs in Hl. unfold wf_buffer, is_u64 in Hw1. lia. }
  assert (length (drop (Z.to_nat off) (addrs b)) = Z.to_nat (size_ b - off)) as Hlen.
  { rewrite length_drop, length_addrs. lia. }
  unfold wf_buffer, is_u64 in Hb. rewrite length_app in Hn. rewrite Hsz.
  destruct (n <? size_ b - off) eqn:Hc; [apply Z.ltb_lt in Hc|apply Z.ltb_ge in Hc].
  - exists 0%nat, (off + n). rewrite Nat.add_0_r, u64_small by (unfold is_u64; lia). split; [done|].
    split; [cbn; lia|]. cbn [drop]. rewrite flat_offset by lia.
    rewrite drop_app_le by lia. rewrite drop_drop. do 2 f_equal. lia.
  - rewrite u64_small by (unfold is_u64; lia).
    destruct (IH 0 (n - (size_ b - off)) (S elem) Hwf (offset_ok_0 _ Hwf)) as (j & off' & -> & Ho & Hd).
    { unfold is_u64. lia. }
    { rewrite drop_0. lia. }
    exists (S j), off'. split; [f_equal; lia|]. split; [done|]. cbn [drop]. rewrite Hd, drop_0.
    rewrite drop_app_ge by lia. f_equal. lia.
Qed.

(** ** The three proxies keep the promise *)

Record consuming_valid (c : consuming_buffers) : Prop := mkConsumingValid {
  cv_max : (0 < max_buffers c)%nat;
  cv_wf : Forall wf_buffer (buffers_ c);
  cv_size : total_size_ c = Z.of_nat (length (flat (buffers_ c)));
  cv_fits : is_u64 (total_size_ c);
  cv_total : 0 <= total_consumed_ c <= total_size_ c;
  cv_offset : offset_ok (drop (next_elem_ c) (buffers_ c)) (next_elem_offset_ c);
  cv_rest : drop (Z.to_nat (next_elem_offset_ c)) (flat (drop (next_elem_ c) (buffers_ c))) =
            drop (Z.to_nat (total_consumed_ c)) (flat (buffers_ c)) }.

Lemma rest_nil {A} (l : list A) n len : 0 <= n -> len = Z.of_nat (length l) ->
  (len <=? n) = bool_decide (drop (Z.to_nat n) l = []).
Proof.
  intros Hn ->. case_Z; symmetry.
  - apply bool_decide_eq_true_2. apply drop_ge. lia.
  - apply bool_decide_eq_false_2. intros H%(f_equal length). rewrite length_drop in H. cbn in H. lia.
Qed.

#[export, program] Instance consuming_buffers_laws : ConsumingLaws consuming_buffers := {
  co_valid := consuming_valid;
  co_rest c := drop (Z.to_nat (total_consumed_ c)) (flat (buffers_ c)) }.
Next Obligation. intros c []. cbn. lia. Qed.
Next Obligation. intros c []. cbn. unfold cb_empty. apply rest_nil; [lia|done]. Qed.
Next Obligation.
  intros c m [] Hm. cbn. rewrite <- cv_rest0.
  destruct (prepare_loop_spec (max_buffers c) (drop (next_elem_ c) (buffers_ c)) (next_elem_offset_ c) m 0)
    as (k & Hk & Hkm & Hp); [by apply Forall_drop|done|done|].
  exists k. split; [done|]. split; [done|]. intros. apply Hp; done.
Qed.
Next Obligation.
  intros c n [] Hn. cbn. cbn in Hn. unfold is_u64 in *. rewrite length_drop in Hn.
  destruct (consume_loop_spec (drop (next_elem_ c) (buffers_ c)) (next_elem_offset_ c) n (next_elem_ c))
    as (j & off & Hl & Ho & Hd); [by apply Forall_drop|done|unfold is_u64; lia|rewrite cv_rest0, length_drop; lia|].
  unfold cb_consume. rewrite Hl, u64_small by (unfold is_u64; lia). cbn.
  rewrite cv_rest0, drop_drop, drop_drop in Hd. rewrite drop_drop in Ho.
  replace (Z.to_nat (total_consumed_ c) + Z.to_nat n)%nat with (Z.to_nat (total_consumed_ c + n)) in Hd by lia.
  split; [|split; [|done]].
  - constructor; cbn; try done; unfold is_u64; lia.
  - rewrite drop_drop. f_equal. lia.
Qed.

Record single_valid (c : consuming_single_buffer) : Prop := mkSingleValid {
  sv_wf : wf_buffer (csb_buffer c);
  sv_total : 0 <= csb_consumed c <= size_ (csb_buffer c) }.

#[export, program] Instance consuming_single_laws : ConsumingLaws consuming_single_buffer := {
  co_valid := single_valid;
  co_rest c := drop (Z.to_nat (csb_consumed c)) (addrs (csb_buffer c)) }.
Next Obligation. intros c []. cbn. lia. Qed.
Next Obligation.
  intros c [Hw Ht]. cbn. apply rest_nil; [lia|]. rewrite length_addrs. unfold wf_buffer, is_u64 in Hw. lia.
Qed.
Next Obligation.
  intros c m [Hw Ht] Hm. cbn. unfold csb_prepare, flat. cbn [map concat]. rewrite app_nil_r.
  destruct (addrs_plus (csb_buffer c) (csb_consumed c) Hw) as [Hw1 Ha1]; [lia|].
  destruct (addrs_limit _ m Hw1) as [_ Ha2]; [lia|].
  exists (Z.to_nat m). rewrite Ha2, Ha1. split; [done|]. split; lia.
Qed.
Next Obligation.
  intros c n [Hw Ht] Hn. cbn in *. unfold wf_buffer, is_u64 in Hw. rewrite length_drop, length_addrs in Hn.
  unfold csb_consume. rewrite u64_small by (unfold is_u64; lia). cbn.
  split; [|split; [|done]].
  - constructor; cbn; [done|lia].
  - rewrite drop_drop. f_equal. lia.
Qed.

Record two_valid (c : consuming_two_buffers) : Prop := mkTwoValid {
  tv_wf0 : wf_buffer (ctb_0 c);
  tv_wf1 : wf_buffer (ctb_1 c);
  tv_fits : is_u64 (size_ (ctb_0 c) + size_ (ctb_1 c));
  tv_total : 0 <= ctb_consumed c <= size_ (ctb_0 c) + size_ (ctb_1 c) }.

#[export, program] Instance consuming_two_laws : ConsumingLaws consuming_two_buffers := {
  co_valid := two_valid;
  co_rest c := drop (Z.to_nat (ctb_consumed c)) (addrs (ctb_0 c) ++ addrs (ctb_1 c)) }.
Next Obligation. intros c []. cbn. lia. Qed.
Next Obligation.
  intros c []. cbn. unfold ctb_empty, wf_buffer, is_u64 in *. rewrite u64_small by done.
  apply rest_nil; [lia|]. rewrite length_app, !length_addrs. lia.
Qed.
Next Obligation.
  intros c m [Hw0 Hw1 Hf Ht] Hm. cbn [co_prepare consuming_two_ops]. unfold ctb_prepare, flat. cbn [map concat]. rewrite app_nil_r.
  destruct (addrs_plus (ctb_0 c) (ctb_consumed c) Hw0) as [Hp0 Ha0]; [lia|].
  destruct (addrs_limit _ m Hp0) as [Hl0 Ht0]; [lia|]. rewrite Ha0 in Ht0.
  assert (size_ (buffer_limit (buffer_plus (ctb_0 c) (ctb_consumed c)) m)
          = Z.of_nat (length (take (Z.to_nat m) (drop (Z.to_nat (ctb_consumed c)) (addrs (ctb_0 c)))))) as Hsz.
  { rewrite <- Ht0, length_addrs. unfold wf_buffer, is_u64 in Hl0. lia. }
  rewrite length_take, length_drop, length_addrs in Hsz. unfold wf_buffer, is_u64 in Hw0, Hw1, Hf.
  rewrite (u64_small (m - _)) by (unfold is_u64; lia).
  set (r1 := if ctb_consumed c <? size_ (ctb_0 c) then 0 else u64 (ctb_consumed c - size_ (ctb_0 c))).
  assert (r1 = Z.max 0 (ctb_consumed c - size_ (ctb_0 c))) as Hr1.
  { unfold r1. case_Z; [lia|]. rewrite u64_small by (unfold is_u64; lia). lia. }
  destruct (addrs_plus (ctb_1 c) r1 Hw1) as [Hp1 Ha1]; [lia|].
  destruct (addrs_limit _ (m - size_ (buffer_limit (buffer_plus (ctb_0 c) (ctb_consumed c)) m)) Hp1) as [_ Ht1]; [lia|].
  exists (Z.to_nat m). rewrite Ht0, Ht1, Ha1. split; [|split; lia].
  rewrite (drop_app (addrs (ctb_0 c))), take_app, length_drop, length_addrs. do 2 f_equal; [lia|]. f_equal. lia.
Qed.
Next Obligation.
  intros c n [Hw0 Hw1 Hf Ht] Hn. cbn in *. unfold wf_buffer, is_u64 in *.
  rewrite length_drop, length_app, !length_addrs in Hn.
  unfold ctb_consume. rewrite u64_small by (unfold is_u64; lia). cbn.
  split; [|split; [|done]].
  - constructor; cbn; unfold wf_buffer, is_u64; lia.
  - rewrite drop_drop. f_equal. lia.
Qed.

(** ** The proxies as they are made *)

Lemma buffer_size_flat bs : forall acc, Forall wf_buffer bs ->
  is_u64 (acc + Z.of_nat (length (flat bs))) -> 0 <= acc ->
  fold_left (fun t b => u64 (t + size_ b)) bs acc = acc + Z.of_nat (length (flat bs)).
Proof.
  induction bs as [|b bs IH]; intros acc Hw Hf Ha; cbn [fold_left]; [cbn; lia|].
  apply Forall_cons_1 in Hw as [Hb Hw]. rewrite flat_cons, length_app, length_addrs in *.
  unfold wf_buffer, is_u64 in *. rewrite u64_small by (unfold is_u64; lia). rewrite IH; [lia|done|unfold is_u64; lia|lia].
Qed.

Lemma new_consuming_valid mb bs : (0 < mb)%nat -> Forall wf_buffer bs ->
  Z.of_nat (length (flat bs)) < 2 ^ 64 ->
  co_valid (new_consuming_buffers mb bs) /\ co_rest (new_consuming_buffers mb bs) = flat bs /\
  co_total (new_consuming_buffers mb bs) = 0.
Proof.
  intros Hmb Hw Hf. unfold new_consuming_buffers, buffer_size.
  rewrite buffer_size_flat by (unfold is_u64; auto with lia).
  split; [|split; done]. constructor; cbn; try done; try (unfold is_u64; lia).
  - unfold prepared_max_buffers. destruct (mb <? 16)%nat; lia.
  - by apply offset_ok_0.
Qed.

Lemma new_single_valid b : wf_buffer b ->
  co_valid (new_consuming_single_buffer b) /\ co_rest (new_consuming_single_buffer b) = addrs b /\
  co_total (new_consuming_single_buffer b) = 0.
Proof. intros Hw. split; [|split; done]. unfold wf_buffer, is_u64 in Hw. constructor; cbn; [done|lia]. Qed.
