(* ===== verification/NetError.v ===== *)
(** * NetError: error codes

    [asio/error.hpp]: an [error_code] is a value in a category and tests true
    when the value is not 0.  The numbers are those of Windows, for which
    [build.bat] builds. *)

From stdpp Require Import base list.
From Stdlib Require Import ZArith Lia.
Local Open Scope Z_scope.

Inductive error_category : Type := system_category | misc_category.

Record error_code : Type := mkErrorCode { category : error_category; value : Z }.

#[export] Instance error_category_eq_dec : EqDecision error_category.
Proof. solve_decision. Defined.

#[export] Instance error_code_eq_dec : EqDecision error_code.
Proof. solve_decision. Defined.

(** [error_code()] *)
Definition no_error : error_code := mkErrorCode system_category 0.

(** [!!ec] *)
Definition failed (ec : error_code) : bool := negb (value ec =? 0).

(** [error::clear(ec)] *)
Definition clear_error (ec : error_code) : error_code := mkErrorCode (category ec) 0.

(** [basic_errors] *)
Definition sys (v : Z) : error_code := mkErrorCode system_category v.
Definition access_denied : error_code := sys 10013.
Definition operation_aborted : error_code := sys 995.
Definition interrupted : error_code := sys 10004.
Definition bad_descriptor : error_code := sys 10009.
Definition invalid_argument : error_code := sys 10022.
Definition would_block : error_code := sys 10035.
Definition in_progress : error_code := sys 10036.
Definition not_socket : error_code := sys 10038.
Definition network_unreachable : error_code := sys 10051.
Definition connection_aborted : error_code := sys 10053.
Definition connection_reset : error_code := sys 10054.
Definition timed_out : error_code := sys 10060.
Definition connection_refused : error_code := sys 10061.
Definition host_unreachable : error_code := sys 10065.
Definition try_again : error_code := sys 1237.

(** [misc_errors] *)
Definition eof : error_code := mkErrorCode misc_category 2.
Definition already_open : error_code := mkErrorCode misc_category 1.
Definition not_found : error_code := mkErrorCode misc_category 3.

(** Winsock's own codes. *)
Definition ERROR_NETNAME_DELETED : Z := 64.
Definition ERROR_SEM_TIMEOUT : Z := 121.
Definition ERROR_MORE_DATA : Z := 234.
Definition ERROR_CONNECTION_REFUSED : Z := 1225.
Definition ERROR_NETWORK_UNREACHABLE : Z := 1231.
Definition ERROR_HOST_UNREACHABLE : Z := 1232.
Definition ERROR_PORT_UNREACHABLE : Z := 1234.
Definition WSAEMSGSIZE : Z := 10040.

Lemma failed_clear ec : failed (clear_error ec) = false.
Proof. done. Qed.
