(* ===== verification/ComposedIO.v ===== *)
(** * ComposedIO: reads and writes of whole buffer sequences

    [asio/completion_condition.hpp], the synchronous [read] and [write] of
    [asio/impl/read.hpp] and [asio/impl/write.hpp] the client makes, and
    [read_op] and [write_op], the composed operations behind the
    [async_read] and [async_write] of a session.  One [read_some] (or
    [write_some]) transfers what the operating system has: the composed
    operations loop over it.  They are written against the interface
    [Buffers.Consuming]; the stream is a parameter, with what a
    [SyncReadStream] promises as its laws. *)

From stdpp Require Import base list gmap.
From Stdlib Require Import ZArith Lia.
From S2P Require Import Prelude Buffers NetError.
Local Open Scope exchange_scope.
Local Open Scope Z_scope.

(** ** Definitions *)

(** *** Completion conditions *)

Definition default_max_transfer_size : Z := 65536.

Abbreviation completion_condition := (error_code -> Z -> Z).

Definition adapt_completion_condition_result (result : Z) : Z := result.

Definition transfer_all : completion_condition := fun err _ =>
  if failed err then 0 else default_max_transfer_size.

Definition transfer_at_least (minimum : Z) : completion_condition := fun err bytes_transferred =>
  if failed err || (minimum <=? bytes_transferred) then 0 else default_max_transfer_size.

Definition transfer_exactly (size : Z) : completion_condition := fun err bytes_transferred =>
  if failed err || (size <=? bytes_transferred) then 0
  else if u64 (size - bytes_transferred) <? default_max_transfer_size
       then u64 (size - bytes_transferred) else default_max_transfer_size.

(** *** Memory *)

Abbreviation byte := Z.
Abbreviation mem := (gmap Z byte).

(** Store the bytes at the addresses, in order. *)
Fixpoint scatter (addresses : list Z) (bytes : list byte) (m : mem) : mem :=
  match addresses, bytes with
  | a :: addresses, b :: bytes => scatter addresses bytes (<[ a := b ]> m)
  | _, _ => m
  end.

(** The bytes at the addresses. *)
Definition gather (addresses : list Z) (m : mem) : list byte :=
  map (fun a => m !!! a) addresses.

(** *** Streams

    [read_some s n]: the bytes delivered into a buffer sequence of [n] bytes,
    and the error; [write_some s bytes]: how many were accepted. *)

Class ReadStream (S : Type) : Type := read_some : S -> Z -> list byte * error_code * S.
Class WriteStream (S : Type) : Type := write_some : S -> list byte -> Z * error_code * S.

(** What the streams promise: a call that has room (or bytes) and reports no
    error transfers something, a call without does nothing.  [received] and
    [sent] are all bytes the stream has delivered or accepted so far. *)
Class ReadStreamLaws (S : Type) {HS : ReadStream S} : Type := {
  received : S -> list byte;
  read_some_spec s n bytes ec s' : read_some s n = (bytes, ec, s') -> 0 <= n ->
    Z.of_nat (length bytes) <= n /\ received s' = received s ++ bytes /\
    (failed ec = false -> 0 < n -> bytes <> []);
  read_some_nothing s : read_some s 0 = ([], no_error, s) }.

Class WriteStreamLaws (S : Type) {HS : WriteStream S} : Type := {
  sent : S -> list byte;
  write_some_spec s bytes n ec s' : write_some s bytes = (n, ec, s') ->
    0 <= n <= Z.of_nat (length bytes) /\ sent s' = sent s ++ take (Z.to_nat n) bytes /\
    (failed ec = false -> bytes <> [] -> 0 < n);
  write_some_nothing s : write_some s [] = (0, no_error, s) }.

(** A stream whose failing reads deliver nothing. *)
Class CleanErrors (S : Type) {HS : ReadStream S} : Prop :=
  failed_read_empty s n bytes ec s' : read_some s n = (bytes, ec, s') -> 0 <= n -> failed ec = true -> bytes = [].

(** *** The synchronous operations *)

Section Sync.
Context {C : Type} {HC : Consuming C} {S : Type} {HR : ReadStream S} {HW : WriteStream S}.

(** The loop of [read_buffer_seq]; the result is [ec], [tmp.total_consumed()],
    the memory and the stream. *)
Fixpoint read_loop (fuel : nat) (cond : completion_condition) (tmp : C) (ec : error_code) (m : mem) (s : S)
    : outcome (error_code * Z * mem * S) :=
  match fuel with
  | O => Fault OutOfFuel
  | Datatypes.S fuel =>
      if co_empty tmp then Ok (ec, co_total tmp, m, s)
      else
        let max_size := adapt_completion_condition_result (cond ec (co_total tmp)) in
        if max_size =? 0 then Ok (ec, co_total tmp, m, s)
        else
          let prepared := co_prepare tmp max_size in
          let '(bytes, ec, s) := read_some s (Z.of_nat (length (flat prepared))) in
          read_loop fuel cond (co_consume tmp (Z.of_nat (length bytes))) ec
            (scatter (flat prepared) bytes m) s
  end.

Definition read_buffer_seq (fuel : nat) (cond : completion_condition) (tmp : C) (m : mem) (s : S) :=
  read_loop fuel cond tmp no_error m s.

(** [read(s, buffers)]: [throw_error] throws when [ec] is set. *)
Definition read_all (fuel : nat) (tmp : C) (m : mem) (s : S) : outcome ((error_code + Z) * mem * S) :=
  let* (ec, bytes_transferred, m, s) := read_buffer_seq fuel transfer_all tmp m s in
  Ok (if failed ec then inl ec else inr bytes_transferred, m, s).

Fixpoint write_loop (fuel : nat) (cond : completion_condition) (tmp : C) (ec : error_code) (m : mem) (s : S)
    : outcome (error_code * Z * S) :=
  match fuel with
  | O => Fault OutOfFuel
  | Datatypes.S fuel =>
      if co_empty tmp then Ok (ec, co_total tmp, s)
      else
        let max_size := adapt_completion_condition_result (cond ec (co_total tmp)) in
        if max_size =? 0 then Ok (ec, co_total tmp, s)
        else
          let '(n, ec, s) := write_some s (gather (flat (co_prepare tmp max_size)) m) in
          write_loop fuel cond (co_consume tmp n) ec m s
  end.

Definition write_buffer_seq (fuel : nat) (cond : completion_condition) (tmp : C) (m : mem) (s : S) :=
  write_loop fuel cond tmp no_error m s.

Definition write_all (fuel : nat) (tmp : C) (m : mem) (s : S) : outcome ((error_code + Z) * S) :=
  let* (ec, bytes_transferred, s) := write_buffer_seq fuel transfer_all tmp m s in
  Ok (if failed ec then inl ec else inr bytes_transferred, s).

End Sync.

(** *** The asynchronous operations *)

Section Async.
Context {C : Type} {HC : Consuming C}.

(** A composed operation between two completions of the stream. *)
Record composed_op : Type := mkComposedOp {
  op_cond : completion_condition;
  op_buffers : C;
  op_start : Z }.

(** What a call of the operation does: start a transfer on the prepared
    buffers, or call the handler with the error and the total. *)
Inductive op_call : Type :=
  | StartTransfer (prepared : list buffer) (op : composed_op)
  | CallHandler (ec : error_code) (bytes_transferred : Z).

(** [base_from_completion_cond::check_for_completion] *)
Definition check_for_completion (op : composed_op) (ec : error_code) (total_transferred : Z) : Z :=
  adapt_completion_condition_result (op_cond op ec total_transferred).

(** [operator()(ec, bytes_transferred, start)] of [read_op] and of [write_op];
    [cancelled] is [cancelled() != cancellation_type::none]. *)
Definition op_run (op : composed_op) (cancelled : bool) (ec : error_code) (bytes_transferred start : Z)
    : op_call :=
  let transfer max_size buffers :=
    StartTransfer (co_prepare buffers max_size) (mkComposedOp (op_cond op) buffers start) in
  if start =? 1 then
    transfer (check_for_completion op ec (co_total (op_buffers op))) (op_buffers op)
  else
    let buffers := co_consume (op_buffers op) bytes_transferred in
    if (negb (failed ec) && (bytes_transferred =? 0)) || co_empty buffers
    then CallHandler ec (co_total buffers)
    else
      let max_size := check_for_completion op ec (co_total buffers) in
      if max_size =? 0 then CallHandler ec (co_total buffers)
      else if cancelled then CallHandler operation_aborted (co_total buffers)
      else transfer max_size buffers.

(** [write_op::operator()]: the text of [read_op] with [async_write_some]. *)
Definition write_op_run : composed_op -> bool -> error_code -> Z -> Z -> op_call := op_run.

(** [read_op(stream, buffers, completion_condition, handler)] *)
Definition new_composed_op (cond : completion_condition) (buffers : C) : composed_op :=
  mkComposedOp cond buffers 0.

(** [start_read_op], [start_write_op] *)
Definition start_op (cond : completion_condition) (buffers : C) : op_call :=
  op_run (new_composed_op cond buffers) false no_error 0 1.

Definition start_write_op (cond : completion_condition) (buffers : C) : op_call :=
  write_op_run (new_composed_op cond buffers) false no_error 0 1.

Context {S : Type} {HR : ReadStream S} {HW : WriteStream S}.

(** Drive a read operation: each [async_read_some] completes as [read_some]
    would, and its completion handler is the operation itself. *)
Fixpoint drive_read (fuel : nat) (call : op_call) (m : mem) (s : S) : outcome (error_code * Z * mem * S) :=
  match fuel with
  | O => Fault OutOfFuel
  | Datatypes.S fuel =>
      match call with
      | CallHandler ec n => Ok (ec, n, m, s)
      | StartTransfer prepared op =>
          let '(bytes, ec, s) := read_some s (Z.of_nat (length (flat prepared))) in
          drive_read fuel (op_run op false ec (Z.of_nat (length bytes)) 0)
            (scatter (flat prepared) bytes m) s
      end
  end.

Fixpoint drive_write (fuel : nat) (call : op_call) (m : mem) (s : S) : outcome (error_code * Z * S) :=
  match fuel with
  | O => Fault OutOfFuel
  | Datatypes.S fuel =>
      match call with
      | CallHandler ec n => Ok (ec, n, s)
      | StartTransfer prepared op =>
          let '(n, ec, s) := write_some s (gather (flat prepared) m) in
          drive_write fuel (write_op_run op false ec n 0) m s
      end
  end.

(** [async_read], [async_write] without a completion condition *)
Definition async_read (fuel : nat) (buffers : C) (m : mem) (s : S) :=
  drive_read fuel (start_op transfer_all buffers) m s.

Definition async_write (fuel : nat) (buffers : C) (m : mem) (s : S) :=
  drive_write fuel (start_write_op transfer_all buffers) m s.

End Async.

(** ** Facts about memory *)

Lemma scatter_app l1 : forall l2 b1 b2 m, length b1 = length l1 ->
  scatter (l1 ++ l2) (b1 ++ b2) m = scatter l2 b2 (scatter l1 b1 m).
Proof.
  induction l1 as [|a l1 IH]; intros l2 [|b b1] b2 m Hl; cbn in *; try done. apply IH. lia.
Qed.

Lemma scatter_take l : forall b m k, (length b <= k)%nat -> scatter (take k l) b m = scatter l b m.
Proof.
  induction l as [|a l IH]; intros [|b bs] m [|k] Hl; cbn in *; try done; try lia. apply IH. lia.
Qed.

Lemma scatter_nil_r l m : scatter l [] m = m.
Proof. by destruct l. Qed.

Lemma scatter_split l b1 b2 m : (length b1 + length b2 <= length l)%nat ->
  scatter l (b1 ++ b2) m = scatter (drop (length b1) l) b2 (scatter l b1 m).
Proof.
  intros Hl. rewrite <- (take_drop (length b1) l) at 1. rewrite scatter_app by (rewrite length_take; lia).
  by rewrite scatter_take by lia.
Qed.

Lemma scatter_other l : forall b m a, a ∉ take (length b) l -> scatter l b m !! a = m !! a.
Proof.
  induction l as [|x l IH]; intros [|y b] m a Ha; cbn in *; try done.
  rewrite IH by set_solver. rewrite lookup_insert_ne; [done|set_solver].
Qed.

Lemma gather_scatter l : forall b m, NoDup l -> (length b <= length l)%nat ->
  gather (take (length b) l) (scatter l b m) = b.
Proof.
  induction l as [|x l IH]; intros [|y b] m Hnd Hl; cbn in *; try done; try lia.
  apply NoDup_cons in Hnd as [Hx Hnd]. f_equal; [|apply IH; [done|lia]].
  rewrite lookup_total_alt, scatter_other; [by rewrite lookup_insert_eq|].
  intros Hin. apply Hx. by apply elem_of_take in Hin as (i & Hi & _); apply list_elem_of_lookup_2 in Hi.
Qed.

Lemma length_gather l m : length (gather l m) = length l.
Proof. apply length_map. Qed.

Lemma gather_take k l m : gather (take k l) m = take k (gather l m).
Proof. unfold gather. revert l. induction k; intros [|x l]; cbn; [done..|by f_equal]. Qed.

Lemma gather_drop k l m : gather (drop k l) m = drop k (gather l m).
Proof. unfold gather. revert l. induction k; intros [|x l]; cbn; [done..|auto]. Qed.

(** ** Completion conditions that stop at errors *)

Record stops_at_errors (cond : completion_condition) : Prop := mkStops {
  st_error ec n : failed ec = true -> cond ec n = 0;
  st_range ec n : 0 <= n -> 0 <= cond ec n < 2 ^ 64 }.

Lemma transfer_all_stops : stops_at_errors transfer_all.
Proof.
  constructor; unfold transfer_all; intros ec n H; [by rewrite H|].
  destruct (failed ec); unfold default_max_transfer_size; lia.
Qed.

Lemma transfer_at_least_stops k : stops_at_errors (transfer_at_least k).
Proof.
  constructor; unfold transfer_at_least; intros ec n H; [by rewrite H|].
  destruct (failed ec || _); unfold default_max_transfer_size; lia.
Qed.

Lemma transfer_exactly_stops k : stops_at_errors (transfer_exactly k).
Proof.
  constructor; unfold transfer_exactly; intros ec n H; [by rewrite H|].
  destruct (failed ec || _); [lia|]. pose proof (u64_range (k - n)). unfold is_u64, default_max_transfer_size in *.
  case_Z; lia.
Qed.


(** ** The synchronous loops *)

(** A condition that never lets more than [N] bytes through. *)
Definition limits (cond : completion_condition) (N : Z) : Prop :=
  forall ec t, 0 <= t <= N -> cond ec t <= N - t.

Section Loops.
Context {C : Type} {HC : Consuming C} {HCL : ConsumingLaws C}.
Context {S : Type} {HR : ReadStream S} {HRL : ReadStreamLaws S} {HW : WriteStream S} {HWL : WriteStreamLaws S}.
Context (cond : completion_condition) (Hcond : stops_at_errors cond).

(** Enough fuel for the rest of a loop. *)
Definition enough (fuel : nat) (ec : error_code) (tmp : C) : Prop :=
  (if failed ec then 1 <= fuel else length (co_rest tmp) + 2 <= fuel)%nat.

Lemma enough_next fuel ec ec' tmp (n : Z) : co_valid tmp ->
  enough (Datatypes.S fuel) ec tmp -> failed ec = false -> 0 <= n <= Z.of_nat (length (co_rest tmp)) ->
  co_rest tmp <> [] -> (failed ec' = false -> 0 < n) -> enough fuel ec' (co_consume tmp n).
Proof using HCL.
  unfold enough. intros Hv Hf Hec Hn Hne Hp. rewrite Hec in Hf.
  destruct (co_consume_spec tmp n Hv Hn) as (_ & -> & _). rewrite length_drop.
  assert (length (co_rest tmp) <> 0%nat) by (by intros ?%length_zero_iff_nil).
  destruct (failed ec') eqn:He; [lia|]. specialize (Hp eq_refl). lia.
Qed.

Lemma prepare_some tmp ec : co_valid tmp -> co_empty tmp = false -> cond ec (co_total tmp) <> 0 ->
  exists k, flat (co_prepare tmp (cond ec (co_total tmp))) = take k (co_rest tmp) /\
    Z.of_nat k <= cond ec (co_total tmp) /\ (0 < k)%nat /\ co_rest tmp <> [].
Proof using Hcond.
  intros Hv He Hz. pose proof (st_range _ Hcond ec (co_total tmp) (co_total_nonneg tmp Hv)) as Hr.
  rewrite co_empty_spec in He by done. apply bool_decide_eq_false_1 in He.
  destruct (co_prepare_spec tmp _ Hv Hr) as (k & Hk & Hkm & Hp). exists k. split_and!; try done. apply Hp; [lia|done].
Qed.

Lemma read_loop_spec fuel : forall tmp ec m s, co_valid tmp -> enough fuel ec tmp ->
  exists ec' bytes s', read_loop fuel cond tmp ec m s
      = Ok (ec', co_total tmp + Z.of_nat (length bytes), scatter (co_rest tmp) bytes m, s') /\
    (length bytes <= length (co_rest tmp))%nat /\ received s' = received s ++ bytes /\
    (length bytes = length (co_rest tmp) \/ cond ec' (co_total tmp + Z.of_nat (length bytes)) = 0) /\
    (forall N, limits cond N -> co_total tmp <= N -> co_total tmp + Z.of_nat (length bytes) <= N).
Proof using Hcond.
  induction fuel as [|fuel IH]; intros tmp ec m s Hv Hf.
  { exfalso. unfold enough in Hf. destruct (failed ec); lia. }
  cbn [read_loop]. unfold adapt_completion_condition_result. destruct (co_empty tmp) eqn:He.
  { exists ec, [], s. cbn [length]. rewrite Z.add_0_r, scatter_nil_r, app_nil_r.
    rewrite co_empty_spec in He by done. apply bool_decide_eq_true_1 in He. rewrite He.
    split_and!; try done. by left. }
  case_Z.
  { exists ec, [], s. cbn [length]. rewrite Z.add_0_r, scatter_nil_r, app_nil_r. split_and!; try done; [lia|by right]. }
  destruct (failed ec) eqn:Hec; [by rewrite (st_error _ Hcond) in Ht by done|].
  destruct (prepare_some tmp ec Hv He Ht) as (k & -> & Hkm & Hk & Hne).
  destruct (read_some s _) as [[bytes ec'] s1] eqn:Hrs.
  destruct (read_some_spec _ _ _ _ _ Hrs) as (Hlen & Hrec & Hpos); [lia|].
  rewrite length_take in Hlen, Hpos.
  assert (0 <= Z.of_nat (length bytes) <= Z.of_nat (length (co_rest tmp))) as Hn by lia.
  assert (length (co_rest tmp) <> 0%nat) as Hlr by (by intros ?%length_zero_iff_nil).
  destruct (co_consume_spec tmp _ Hv Hn) as (Hv' & Hr' & Ht').
  destruct (IH (co_consume tmp (Z.of_nat (length bytes))) ec' (scatter (take k (co_rest tmp)) bytes m) s1 Hv')
    as (ec2 & bytes2 & s2 & Hrun & Hl2 & Hrec2 & Hstop & Hlim).
  { eapply enough_next; try done. intros Hok. destruct bytes; [exfalso; apply Hpos; [done|lia|done]|cbn; lia]. }
  rewrite Hr', length_drop, Nat2Z.id in *. rewrite Ht' in *.
  exists ec2, (bytes ++ bytes2), s2. rewrite length_app, Nat2Z.inj_add, Z.add_assoc.
  split_and!.
  - rewrite Hrun. rewrite scatter_take by lia. rewrite scatter_split by lia. done.
  - lia.
  - by rewrite Hrec2, Hrec, app_assoc.
  - destruct Hstop; [left; lia|by right].
  - intros N HN Hle. apply Hlim; [done|]. specialize (HN ec (co_total tmp)).
    pose proof (co_total_nonneg tmp Hv). lia.
Qed.

(** When errors come without bytes, one reported at the end leaves room. *)
Lemma read_loop_failed (Hclean : CleanErrors S) fuel : forall tmp ec m s ec' total m' s', co_valid tmp ->
  (failed ec = true -> co_rest tmp <> []) -> read_loop fuel cond tmp ec m s = Ok (ec', total, m', s') ->
  failed ec' = true -> total < co_total tmp + Z.of_nat (length (co_rest tmp)).
Proof using Hcond HRL.
  induction fuel as [|fuel IH]; intros tmp ec m s ec' total m' s' Hv Hroom; [done|].
  cbn [read_loop]. unfold adapt_completion_condition_result. destruct (co_empty tmp) eqn:He.
  { rewrite co_empty_spec in He by done. apply bool_decide_eq_true_1 in He.
    intros [= <- <- <- <-] Hf. by destruct (Hroom Hf). }
  assert (co_rest tmp <> []) as Hne by (rewrite co_empty_spec in He by done; by apply bool_decide_eq_false_1 in He).
  assert (length (co_rest tmp) <> 0%nat) as Hlr by (by intros ?%length_zero_iff_nil).
  case_Z; [intros [= <- <- <- <-]; lia|].
  destruct (prepare_some tmp ec Hv He Ht) as (k & -> & Hkm & Hk & _).
  destruct (read_some s _) as [[bytes ec1] s1] eqn:Hrs.
  destruct (read_some_spec _ _ _ _ _ Hrs) as (Hlen & _); [lia|]. rewrite length_take in Hlen.
  destruct (co_consume_spec tmp (Z.of_nat (length bytes)) Hv) as (Hv' & Hr' & Ht'); [lia|].
  intros Hrun Hf. eapply IH in Hrun; [|done| |done].
  - rewrite Ht', Hr', length_drop, Nat2Z.id in Hrun. lia.
  - intros Hf1. eapply failed_read_empty in Hrs as ->; [|lia|done]. by rewrite Hr'.
Qed.

Lemma write_loop_spec fuel : forall tmp ec m s, co_valid tmp -> enough fuel ec tmp ->
  exists ec' k s', write_loop fuel cond tmp ec m s = Ok (ec', co_total tmp + Z.of_nat k, s') /\
    (k <= length (co_rest tmp))%nat /\ sent s' = sent s ++ take k (gather (co_rest tmp) m) /\
    (k = length (co_rest tmp) \/ cond ec' (co_total tmp + Z.of_nat k) = 0) /\
    (forall N, limits cond N -> co_total tmp <= N -> co_total tmp + Z.of_nat k <= N).
Proof using Hcond.
  induction fuel as [|fuel IH]; intros tmp ec m s Hv Hf.
  { exfalso. unfold enough in Hf. destruct (failed ec); lia. }
  cbn [write_loop]. unfold adapt_completion_condition_result. destruct (co_empty tmp) eqn:He.
  { exists ec, 0%nat, s. rewrite Z.add_0_r, app_nil_r.
    rewrite co_empty_spec in He by done. apply bool_decide_eq_true_1 in He. rewrite He.
    split_and!; try done. by left. }
  case_Z.
  { exists ec, 0%nat, s. rewrite Z.add_0_r, app_nil_r. split_and!; try done; [lia|by right]. }
  destruct (failed ec) eqn:Hec; [by rewrite (st_error _ Hcond) in Ht by done|].
  destruct (prepare_some tmp ec Hv He Ht) as (k & -> & Hkm & Hk & Hne).
  destruct (write_some s _) as [[n ec'] s1] eqn:Hws.
  destruct (write_some_spec _ _ _ _ _ Hws) as (Hlen & Hsent & Hpos).
  rewrite length_gather, length_take in Hlen.
  assert (0 <= n <= Z.of_nat (length (co_rest tmp))) as Hn by lia.
  assert (length (co_rest tmp) <> 0%nat) as Hlr by (by intros ?%length_zero_iff_nil).
  destruct (co_consume_spec tmp _ Hv Hn) as (Hv' & Hr' & Ht').
  destruct (IH (co_consume tmp n) ec' m s1 Hv') as (ec2 & k2 & s2 & Hrun & Hl2 & Hsent2 & Hstop & Hlim).
  { eapply enough_next; try done. intros Hok. apply Hpos; [done|].
    intros Hnil%(f_equal length). rewrite length_gather, length_take in Hnil. cbn in Hnil. lia. }
  rewrite Hr', length_drop in *. rewrite Ht' in *.
  exists ec2, (Z.to_nat n + k2)%nat, s2. rewrite Nat2Z.inj_add, Z.add_assoc, Z2Nat.id by lia.
  split_and!.
  - done.
  - lia.
  - rewrite Hsent2, Hsent, <- app_assoc. f_equal. rewrite gather_take, gather_drop, take_take.
    rewrite <- (take_take_drop _ (Z.to_nat n) k2). do 2 f_equal. lia.
  - destruct Hstop; [left; lia|by right].
  - intros N HN Hle. apply Hlim; [done|]. specialize (HN ec (co_total tmp)).
    pose proof (co_total_nonneg tmp Hv). lia.
Qed.

End Loops.

(** ** The asynchronous operations follow the synchronous loops *)

Section AsyncLoops.
Context {C : Type} {HC : Consuming C} {HCL : ConsumingLaws C}.
Context {S : Type} {HR : ReadStream S} {HRL : ReadStreamLaws S} {HW : WriteStream S} {HWL : WriteStreamLaws S}.
Context (cond : completion_condition) (Hcond : stops_at_errors cond).

Lemma consume_nothing tmp : co_valid tmp ->
  co_valid (co_consume tmp 0) /\ co_empty (co_consume tmp 0) = co_empty tmp /\
  co_total (co_consume tmp 0) = co_total tmp.
Proof using HCL.
  intros Hv. destruct (co_consume_spec tmp 0 Hv) as (Hv' & Hr & Ht); [lia|].
  split; [done|]. rewrite !co_empty_spec, Hr, Z.add_0_r in * by done. done.
Qed.

(** The bytes a transfer of at most [max] bytes may report. *)
Lemma prepared_length tmp m : co_valid tmp -> 0 <= m < 2 ^ 64 ->
  Z.of_nat (length (flat (co_prepare tmp m))) <= Z.of_nat (length (co_rest tmp)).
Proof using HCL.
  intros Hv Hm. destruct (co_prepare_spec tmp m Hv Hm) as (k & -> & _). rewrite length_take. lia.
Qed.

(** After a transfer that reported an error or moved something, the operation
    does what the loop does. *)
Lemma drive_read_loop fuel : forall op ec n m s, op_cond op = cond ->
  co_valid (co_consume (op_buffers op) n) -> (failed ec = false -> n <> 0) ->
  drive_read fuel (op_run op false ec n 0) m s
  = read_loop fuel cond (co_consume (op_buffers op) n) ec m s.
Proof using Hcond HRL HCL.
  induction fuel as [|fuel IH]; intros op ec n m s Hop Hv Hn; [done|].
  unfold op_run. cbn [Z.eqb read_loop]. set (tmp := co_consume (op_buffers op) n) in *.
  assert (negb (failed ec) && (n =? 0) = false) as ->.
  { apply andb_false_iff. destruct (failed ec) eqn:He; [by left|]. right. by apply Z.eqb_neq, Hn. }
  cbn [orb]. destruct (co_empty tmp) eqn:Hem; [done|].
  unfold check_for_completion, adapt_completion_condition_result. rewrite Hop. case_Z; [done|].
  cbn [drive_read]. destruct (prepare_some cond Hcond tmp ec Hv Hem Ht) as (k & Hk & Hkm & Hpos & Hne).
  rewrite Hk. destruct (read_some s _) as [[bytes ec'] s1] eqn:Hrs.
  destruct (read_some_spec _ _ _ _ _ Hrs) as (Hlen & _ & Hmoved); [lia|]. rewrite length_take in Hlen, Hmoved.
  assert (length (co_rest tmp) <> 0%nat) as Hlr by (by intros ?%length_zero_iff_nil).
  rewrite IH; [done|done| |].
  - cbn [op_buffers]. apply co_consume_spec; [done|lia].
  - intros Hok Hz. apply Hmoved; [done|lia|]. apply length_zero_iff_nil. lia.
Qed.

Lemma drive_write_loop fuel : forall op ec n m s, op_cond op = cond ->
  co_valid (co_consume (op_buffers op) n) -> (failed ec = false -> n <> 0) ->
  drive_write fuel (write_op_run op false ec n 0) m s
  = write_loop fuel cond (co_consume (op_buffers op) n) ec m s.
Proof using Hcond HWL HCL.
  induction fuel as [|fuel IH]; intros op ec n m s Hop Hv Hn; [done|].
  unfold write_op_run, op_run. cbn [Z.eqb write_loop]. set (tmp := co_consume (op_buffers op) n) in *.
  assert (negb (failed ec) && (n =? 0) = false) as ->.
  { apply andb_false_iff. destruct (failed ec) eqn:He; [by left|]. right. by apply Z.eqb_neq, Hn. }
  cbn [orb]. destruct (co_empty tmp) eqn:Hem; [done|].
  unfold check_for_completion, adapt_completion_condition_result. rewrite Hop. case_Z; [done|].
  cbn [drive_write]. destruct (prepare_some cond Hcond tmp ec Hv Hem Ht) as (k & Hk & Hkm & Hpos & Hne).
  rewrite Hk. destruct (write_some s _) as [[n' ec'] s1] eqn:Hws.
  destruct (write_some_spec _ _ _ _ _ Hws) as (Hlen & _ & Hmoved). rewrite length_gather, length_take in Hlen.
  assert (length (co_rest tmp) <> 0%nat) as Hlr by (by intros ?%length_zero_iff_nil).
  rewrite IH; [done|done| |].
  - cbn [op_buffers]. apply co_consume_spec; [done|lia].
  - intros Hok Hz. assert (0 < n') as Hlt; [|lia]. apply Hmoved; [done|].
    intros Hnil%(f_equal length). rewrite length_gather, length_take in Hnil. cbn in Hnil. lia.
Qed.

(** The first transfer is started even when there is nothing to do; a stream
    asked for nothing reports nothing, and the handler is called. *)
Lemma idle_start tmp : co_valid tmp -> co_empty tmp = true \/ cond no_error (co_total tmp) = 0 ->
  flat (co_prepare tmp (cond no_error (co_total tmp))) = [] /\
  op_run (mkComposedOp cond tmp 1) false no_error 0 0 = CallHandler no_error (co_total tmp).
Proof using Hcond HCL.
  intros Hv Hidle. destruct (consume_nothing tmp Hv) as (Hv' & He & Ht).
  split; [|unfold op_run; cbn; by rewrite Ht].
  pose proof (st_range _ Hcond no_error (co_total tmp) (co_total_nonneg tmp Hv)) as Hr.
  apply length_zero_iff_nil. destruct Hidle as [Hi|Hi].
  - rewrite co_empty_spec in Hi by done. apply bool_decide_eq_true_1 in Hi.
    pose proof (prepared_length tmp _ Hv Hr) as Hl. rewrite Hi in Hl. cbn in Hl. lia.
  - destruct (co_prepare_spec tmp _ Hv Hr) as (k & -> & Hk & _). rewrite length_take. lia.
Qed.

Lemma start_op_eq tmp : start_op cond tmp
  = StartTransfer (co_prepare tmp (cond no_error (co_total tmp))) (mkComposedOp cond tmp 1).
Proof using. done. Qed.

Lemma read_idle fuel tmp m s : co_empty tmp = true \/ cond no_error (co_total tmp) = 0 ->
  read_loop (1 + fuel) cond tmp no_error m s = Ok (no_error, co_total tmp, m, s).
Proof using.
  intros Hi. cbn [Nat.add read_loop]. unfold adapt_completion_condition_result.
  destruct Hi as [->| ->]; [done|]. by destruct (co_empty tmp).
Qed.

Lemma write_idle fuel tmp m s : co_empty tmp = true \/ cond no_error (co_total tmp) = 0 ->
  write_loop (1 + fuel) cond tmp no_error m s = Ok (no_error, co_total tmp, s).
Proof using.
  intros Hi. cbn [Nat.add write_loop]. unfold adapt_completion_condition_result.
  destruct Hi as [->| ->]; [done|]. by destruct (co_empty tmp).
Qed.

Lemma async_read_sync fuel tmp m s : co_valid tmp ->
  drive_read (2 + fuel) (start_op cond tmp) m s = read_buffer_seq (2 + fuel) cond tmp m s.
Proof using Hcond HRL HCL.
  intros Hv. unfold read_buffer_seq. rewrite start_op_eq.
  destruct (decide (co_empty tmp = true \/ cond no_error (co_total tmp) = 0)) as [Hi|Hi].
  - destruct (idle_start tmp Hv Hi) as [Hnil Hrun]. change (2 + fuel)%nat with (1 + (1 + fuel))%nat. rewrite (read_idle (1 + fuel) tmp m s Hi).
    cbn [drive_read Nat.add]. rewrite Hnil. cbn [length]. change (Z.of_nat 0) with 0. rewrite read_some_nothing.
    cbn [length scatter]. change (Z.of_nat 0) with 0. by rewrite Hrun.
  - apply Decidable.not_or in Hi as [He Hz]. apply not_true_is_false in He.
    destruct (prepare_some cond Hcond tmp no_error Hv He Hz) as (k & Hk & Hkm & Hpos & Hne).
    cbn [Nat.add]. remember (Datatypes.S fuel) as f. cbn [drive_read read_loop]. rewrite He.
    unfold adapt_completion_condition_result. rewrite (proj2 (Z.eqb_neq _ _) Hz), Hk.
    destruct (read_some s _) as [[bytes ec'] s1] eqn:Hrs.
    destruct (read_some_spec _ _ _ _ _ Hrs) as (Hlen & _ & Hmoved); [lia|]. rewrite length_take in Hlen, Hmoved.
    assert (length (co_rest tmp) <> 0%nat) as Hlr by (by intros ?%length_zero_iff_nil).
    rewrite drive_read_loop; [done|done| |].
    + cbn [op_buffers]. apply co_consume_spec; [done|lia].
    + intros Hok Hzz. apply Hmoved; [done|lia|]. apply length_zero_iff_nil. lia.
Qed.

Lemma async_write_sync fuel tmp m s : co_valid tmp ->
  drive_write (2 + fuel) (start_write_op cond tmp) m s = write_buffer_seq (2 + fuel) cond tmp m s.
Proof using Hcond HWL HCL.
  intros Hv. unfold write_buffer_seq. change (start_write_op cond tmp) with (start_op cond tmp). rewrite start_op_eq.
  destruct (decide (co_empty tmp = true \/ cond no_error (co_total tmp) = 0)) as [Hi|Hi].
  - destruct (idle_start tmp Hv Hi) as [Hnil Hrun].
    change (2 + fuel)%nat with (1 + (1 + fuel))%nat. rewrite (write_idle (1 + fuel) tmp m s Hi).
    cbn [drive_write Nat.add]. rewrite Hnil. cbn [gather map]. rewrite write_some_nothing. unfold write_op_run. by rewrite Hrun.
  - apply Decidable.not_or in Hi as [He Hz]. apply not_true_is_false in He.
    destruct (prepare_some cond Hcond tmp no_error Hv He Hz) as (k & Hk & Hkm & Hpos & Hne).
    cbn [Nat.add]. remember (Datatypes.S fuel) as f. cbn [drive_write write_loop]. rewrite He.
    unfold adapt_completion_condition_result. rewrite (proj2 (Z.eqb_neq _ _) Hz), Hk.
    destruct (write_some s _) as [[n' ec'] s1] eqn:Hws.
    destruct (write_some_spec _ _ _ _ _ Hws) as (Hlen & _ & Hmoved). rewrite length_gather, length_take in Hlen.
    assert (length (co_rest tmp) <> 0%nat) as Hlr by (by intros ?%length_zero_iff_nil).
    rewrite drive_write_loop; [done|done| |].
    + cbn [op_buffers]. apply co_consume_spec; [done|lia].
    + intros Hok Hzz. assert (0 < n') as Hlt; [|lia]. apply Hmoved; [done|].
      intros Hnil%(f_equal length). rewrite length_gather, length_take in Hnil. cbn in Hnil. lia.
Qed.

End AsyncLoops.

(** ** One buffer

    What the session and the client do: a whole read or write of one buffer. *)

Section SingleBuffer.
Context {S : Type} {HR : ReadStream S} {HRL : ReadStreamLaws S} {HW : WriteStream S} {HWL : WriteStreamLaws S}.

Lemma read_single b m s fuel : wf_buffer b -> (Z.to_nat (size_ b) + 2 <= fuel)%nat ->
  exists ec bytes s',
    read_buffer_seq fuel transfer_all (new_consuming_single_buffer b) m s
      = Ok (ec, Z.of_nat (length bytes), scatter (addrs b) bytes m, s') /\
    async_read fuel (new_consuming_single_buffer b) m s
      = Ok (ec, Z.of_nat (length bytes), scatter (addrs b) bytes m, s') /\
    received s' = received s ++ bytes /\ Z.of_nat (length bytes) <= size_ b /\
    gather (take (length bytes) (addrs b)) (scatter (addrs b) bytes m) = bytes /\
    (failed ec = false -> Z.of_nat (length bytes) = size_ b) /\
    (CleanErrors S -> failed ec = true -> Z.of_nat (length bytes) < size_ b).
Proof using HRL.
  intros Hb Hfuel. destruct (new_single_valid b Hb) as (Hv & Hrest & Htot).
  assert (length (addrs b) = Z.to_nat (size_ b)) as Hlen by apply length_addrs.
  assert (0 <= size_ b) as Hpos by apply Hb.
  assert (length (co_rest (new_consuming_single_buffer b)) + 2 <= fuel)%nat as Hf by (rewrite Hrest; lia).
  destruct (read_loop_spec transfer_all transfer_all_stops fuel _ no_error m s Hv Hf)
    as (ec & bytes & s' & Hrun & Hl & Hr & Hdone & _).
  assert (CleanErrors S -> failed ec = true -> Z.of_nat (length bytes) < size_ b) as Hclean.
  { intros HC He. eapply (read_loop_failed _ transfer_all_stops HC) in Hrun; [|done..].
    rewrite Hrest, Htot in Hrun. lia. }
  rewrite Hrest, Htot, Z.add_0_l in *. exists ec, bytes, s'. split; [done|].
  split; [|split; [done|split; [lia|split; [apply gather_scatter; [apply NoDup_seqZ|done]|split; [|exact Hclean]]]]].
  - replace fuel with (2 + (fuel - 2))%nat in * by lia. unfold async_read.
    by rewrite async_read_sync by (apply transfer_all_stops || done).
  - intros Hec. destruct Hdone as [?|Hz]; [lia|]. unfold transfer_all in Hz. by rewrite Hec in Hz.
Qed.

Lemma write_single b m s fuel : wf_buffer b -> (Z.to_nat (size_ b) + 2 <= fuel)%nat ->
  exists ec k s',
    write_buffer_seq fuel transfer_all (new_consuming_single_buffer b) m s = Ok (ec, Z.of_nat k, s') /\
    async_write fuel (new_consuming_single_buffer b) m s = Ok (ec, Z.of_nat k, s') /\
    sent s' = sent s ++ take k (gather (addrs b) m) /\ Z.of_nat k <= size_ b /\
    (failed ec = false -> Z.of_nat k = size_ b).
Proof using HWL.
  intros Hb Hfuel. destruct (new_single_valid b Hb) as (Hv & Hrest & Htot).
  assert (length (addrs b) = Z.to_nat (size_ b)) as Hlen by apply length_addrs.
  assert (0 <= size_ b) as Hpos by apply Hb.
  assert (length (co_rest (new_consuming_single_buffer b)) + 2 <= fuel)%nat as Hf by (rewrite Hrest; lia).
  destruct (write_loop_spec transfer_all transfer_all_stops fuel _ no_error m s Hv Hf)
    as (ec & k & s' & Hrun & Hl & Hr & Hdone & _).
  rewrite Hrest, Htot, Z.add_0_l in *. exists ec, k, s'. split; [done|].
  split; [|split; [done|split; [lia|]]].
  - replace fuel with (2 + (fuel - 2))%nat in * by lia. unfold async_write.
    by rewrite async_write_sync by (apply transfer_all_stops || done).
  - intros Hec. destruct Hdone as [->|Hz]; [lia|]. unfold transfer_all in Hz. by rewrite Hec in Hz.
Qed.

End SingleBuffer.

(** ** Concrete streams *)

(** A peer that sends [incoming] and then closes; the network delivers and
    accepts at most [S chunk] bytes a call. *)
Record socket : Type := mkSocket {
  delivered : list byte;
  accepted : list byte;
  incoming : list byte;
  chunk : nat }.

#[export] Instance socket_read : ReadStream socket := fun s n =>
  if n <=? 0 then ([], no_error, s)
  else match incoming s with
       | [] => ([], eof, s)
       | _ =>
           let k := Nat.min (Z.to_nat n) (Datatypes.S (chunk s)) in
           let bytes := take k (incoming s) in
           (bytes, no_error, mkSocket (delivered s ++ bytes) (accepted s) (drop k (incoming s)) (chunk s))
       end.

#[export] Instance socket_write : WriteStream socket := fun s bytes =>
  let k := Nat.min (length bytes) (Datatypes.S (chunk s)) in
  (Z.of_nat k, no_error,
   match bytes with
   | [] => s
   | _ => mkSocket (delivered s) (accepted s ++ take k bytes) (incoming s) (chunk s)
   end).

#[export, program] Instance socket_read_laws : ReadStreamLaws socket := { received := delivered }.
Next Obligation.
  unfold read_some, socket_read. intros s n bytes ec s' H Hn. case_Z_in H.
  - injection H as <- <- <-. rewrite app_nil_r. split; [cbn; lia|]. split; [done|lia].
  - destruct (incoming s) as [|b bs] eqn:E.
    + injection H as <- <- <-. rewrite app_nil_r. split; [cbn; lia|]. split; [done|]. by cbn.
    + injection H as <- <- <-. split; [rewrite length_take; lia|]. split; [done|].
      intros _ _. replace (Z.to_nat n) with (Datatypes.S (Z.to_nat n - 1))%nat by lia. done.
Qed.
Next Obligation. done. Qed.

#[export, program] Instance socket_write_laws : WriteStreamLaws socket := { sent := accepted }.
Next Obligation.
  unfold write_some, socket_write. intros s bytes n ec s' H. injection H as <- <- <-.
  split; [lia|]. rewrite Nat2Z.id. destruct bytes as [|b bytes]; cbn [length].
  - rewrite take_nil, app_nil_r. split; [done|]. intros _ Hne. by destruct Hne.
  - split; [done|]. intros _ _. lia.
Qed.
Next Obligation. done. Qed.

(** ** Theorems *)

(** [async_read] into any buffer sequence, over any stream that keeps its
    promise, completes after at most two more transfers than there are bytes.
    The bytes the stream delivered are exactly those stored, in order, at the
    first addresses of the sequence; every other address keeps its value; the
    handler gets their number, and it gets no error only if the whole sequence
    was filled. *)
Theorem async_read_completes {C} `{ConsumingLaws C} {S} `{ReadStreamLaws S}
    (buffers : C) (m : mem) (s : S) (fuel : nat)
    (Hvalid : co_valid buffers) (Hnodup : NoDup (co_rest buffers))
    (Hfuel : (length (co_rest buffers) + 2 <= fuel)%nat) :
  exists ec bytes m' s',
    async_read fuel buffers m s = Ok (ec, co_total buffers + Z.of_nat (length bytes), m', s') /\
    received s' = received s ++ bytes /\
    (length bytes <= length (co_rest buffers))%nat /\
    gather (take (length bytes) (co_rest buffers)) m' = bytes /\
    (forall a, a ∉ take (length bytes) (co_rest buffers) -> m' !! a = m !! a) /\
    (failed ec = false -> length bytes = length (co_rest buffers)).
Proof.
  destruct fuel as [|[|fuel]]; [lia..|]. change (Datatypes.S (Datatypes.S fuel)) with (2 + fuel)%nat in *. unfold async_read.
  rewrite async_read_sync; [|apply transfer_all_stops|done].
  destruct (read_loop_spec transfer_all transfer_all_stops (2 + fuel) buffers no_error m s Hvalid Hfuel)
    as (ec & bytes & s' & Hrun & Hlen & Hrec & Hstop & _).
  exists ec, bytes, (scatter (co_rest buffers) bytes m), s'. split_and!; try done.
  - by apply gather_scatter.
  - intros a. apply scatter_other.
  - intros Hok. destruct Hstop as [|Hstop]; [done|]. unfold transfer_all in Hstop. by rewrite Hok in Hstop.
Qed.

Lemma async_read_completes_witness :
  let header := new_consuming_single_buffer (mkBuffer 1000 12) in
  let s := mkSocket [] [] [1; 0; 0; 0; 34; 0; 0; 0; 7; 0; 0; 0; 255; 255] 4 in
  NoDup (co_rest header) /\
  exists ec bytes m' s',
    async_read 14 header ∅ s = Ok (ec, 0 + Z.of_nat (length bytes), m', s') /\
    received s' = [] ++ bytes /\ (length bytes <= 12)%nat /\
    gather (take (length bytes) (co_rest header)) m' = bytes /\
    (forall a, a ∉ take (length bytes) (co_rest header) -> m' !! a = (∅ : mem) !! a) /\
    (failed ec = false -> length bytes = 12%nat).
Proof.
  assert (NoDup (addrs (mkBuffer 1000 12))) as Hnd by apply NoDup_seqZ.
  split; [exact Hnd|].
  exact (async_read_completes (new_consuming_single_buffer (mkBuffer 1000 12)) ∅
    (mkSocket [] [] [1; 0; 0; 0; 34; 0; 0; 0; 7; 0; 0; 0; 255; 255] 4) 14
    (proj1 (new_single_valid (mkBuffer 1000 12) ltac:(unfold wf_buffer, is_u64; cbn; lia))) Hnd (le_n 14)).
Defined.

(** [async_write] of any buffer sequence, over any stream that keeps its
    promise, completes: the stream has accepted a prefix of the contents of the
    sequence, once and in order, the handler gets its length, and it gets no
    error only if everything was accepted. *)
Theorem async_write_completes {C} `{ConsumingLaws C} {S} `{WriteStreamLaws S}
    (buffers : C) (m : mem) (s : S) (fuel : nat)
    (Hvalid : co_valid buffers) (Hfuel : (length (co_rest buffers) + 2 <= fuel)%nat) :
  exists ec k s',
    async_write fuel buffers m s = Ok (ec, co_total buffers + Z.of_nat k, s') /\
    sent s' = sent s ++ take k (gather (co_rest buffers) m) /\
    (k <= length (co_rest buffers))%nat /\
    (failed ec = false -> sent s' = sent s ++ gather (co_rest buffers) m).
Proof.
  destruct fuel as [|[|fuel]]; [lia..|]. change (Datatypes.S (Datatypes.S fuel)) with (2 + fuel)%nat in *. unfold async_write.
  rewrite async_write_sync; [|apply transfer_all_stops|done].
  destruct (write_loop_spec transfer_all transfer_all_stops (2 + fuel) buffers no_error m s Hvalid Hfuel)
    as (ec & k & s' & Hrun & Hlen & Hsent & Hstop & _).
  exists ec, k, s'. split_and!; try done. intros Hok. destruct Hstop as [->|Hstop]; [|unfold transfer_all in Hstop; by rewrite Hok in Hstop].
  rewrite Hsent, take_ge; [done|]. by rewrite length_gather.
Qed.

Lemma async_write_completes_witness :
  let bs := [mkBuffer 100 2; mkBuffer 200 0; mkBuffer 300 3] in
  let m : mem := {[ 100 := 1; 101 := 2; 300 := 3; 301 := 4; 302 := 5 ]} in
  let s := mkSocket [] [9] [] 1 in
  exists ec k s',
    async_write 7 (new_consuming_buffers 64 bs) m s = Ok (ec, 0 + Z.of_nat k, s') /\
    sent s' = [9] ++ take k [1; 2; 3; 4; 5] /\ (k <= 5)%nat /\
    (failed ec = false -> sent s' = [9] ++ [1; 2; 3; 4; 5]).
Proof.
  intros bs m s.
  assert (co_valid (new_consuming_buffers 64 bs)) as Hv.
  { apply new_consuming_valid; [lia| |vm_compute; reflexivity].
    repeat constructor; unfold is_u64; cbn; lia. }
  exact (async_write_completes (new_consuming_buffers 64 bs) m s 7 Hv (le_n 7)).
Defined.

(** C29: for every completion condition that stops at errors, an asynchronous
    read or write whose transfers complete as the synchronous ones would ends
    with the same error, the same count, the same memory and the same stream as
    the synchronous loop. *)
Theorem async_is_sync {C} `{ConsumingLaws C} {S} `{!ReadStream S, !ReadStreamLaws S, !WriteStream S, !WriteStreamLaws S}
    (cond : completion_condition) (buffers : C) (m : mem) (s : S) (fuel : nat)
    (Hcond : stops_at_errors cond) (Hvalid : co_valid buffers) :
  drive_read (2 + fuel) (start_op cond buffers) m s = read_buffer_seq (2 + fuel) cond buffers m s /\
  drive_write (2 + fuel) (start_write_op cond buffers) m s = write_buffer_seq (2 + fuel) cond buffers m s.
Proof. split; [by apply async_read_sync|by apply async_write_sync]. Qed.

Lemma async_is_sync_witness :
  let buffers := new_consuming_two_buffers (mkBuffer 100 3) (mkBuffer 200 3) in
  let s := mkSocket [] [] [1; 2; 3; 4; 5; 6] 1 in
  drive_read 9 (start_op (transfer_exactly 5) buffers) ∅ s
    = read_buffer_seq 9 (transfer_exactly 5) buffers ∅ s /\
  drive_write 9 (start_write_op (transfer_exactly 5) buffers) ∅ s
    = write_buffer_seq 9 (transfer_exactly 5) buffers ∅ s.
Proof.
  apply (async_is_sync (transfer_exactly 5) _ ∅ _ 7); [apply transfer_exactly_stops|].
  constructor; unfold wf_buffer, is_u64; cbn; lia.
Defined.

(** A synchronous read with [transfer_exactly(N)] takes at most [N] bytes
    from the stream and, without an error, exactly [N] or as many as the
    buffers hold; one with [transfer_at_least(N)] and no error reads at least
    that many. *)
Theorem partial_reads {C} `{ConsumingLaws C} {S} `{ReadStreamLaws S}
    (buffers : C) (m : mem) (s : S) (fuel : nat) (N : Z)
    (Hvalid : co_valid buffers) (Hstart : co_total buffers = 0) (HN : is_u64 N)
    (Hfuel : (length (co_rest buffers) + 2 <= fuel)%nat) :
  (exists ec bytes m' s',
    read_buffer_seq fuel (transfer_exactly N) buffers m s = Ok (ec, Z.of_nat (length bytes), m', s') /\
    received s' = received s ++ bytes /\ Z.of_nat (length bytes) <= N /\
    (failed ec = false -> Z.of_nat (length bytes) = Z.min N (Z.of_nat (length (co_rest buffers))))) /\
  (exists ec bytes m' s',
    read_buffer_seq fuel (transfer_at_least N) buffers m s = Ok (ec, Z.of_nat (length bytes), m', s') /\
    received s' = received s ++ bytes /\
    (failed ec = false -> Z.min N (Z.of_nat (length (co_rest buffers))) <= Z.of_nat (length bytes))).
Proof.
  unfold is_u64 in HN. split.
  - destruct (read_loop_spec (transfer_exactly N) (transfer_exactly_stops N) fuel buffers no_error m s Hvalid Hfuel)
      as (ec & bytes & s' & Hrun & Hlen & Hrec & Hstop & Hlim). rewrite Hstart in *.
    exists ec, bytes, (scatter (co_rest buffers) bytes m), s'. split; [done|]. split; [done|].
    assert (0 + Z.of_nat (length bytes) <= N) as HleN.
    { apply Hlim; [|lia]. intros ec' t Ht. unfold transfer_exactly. destruct (failed ec' || _); [lia|].
      rewrite u64_small by (unfold is_u64; lia). case_Z; lia. }
    split; [lia|]. intros Hok. destruct Hstop as [Hall|Hstop]; [lia|].
    unfold transfer_exactly in Hstop. rewrite Hok in Hstop. cbn [orb] in Hstop.
    rewrite u64_small in Hstop by (unfold is_u64; lia). unfold default_max_transfer_size in Hstop.
    case_Z_in Hstop; lia.
  - destruct (read_loop_spec (transfer_at_least N) (transfer_at_least_stops N) fuel buffers no_error m s Hvalid Hfuel)
      as (ec & bytes & s' & Hrun & Hlen & Hrec & Hstop & _). rewrite Hstart in *.
    exists ec, bytes, (scatter (co_rest buffers) bytes m), s'. split; [done|]. split; [done|].
    intros Hok. destruct Hstop as [Hall|Hstop]; [lia|].
    unfold transfer_at_least, default_max_transfer_size in Hstop. rewrite Hok in Hstop. cbn [orb] in Hstop.
    case_Z_in Hstop; lia.
Qed.

Lemma partial_reads_witness :
  let buffers := new_consuming_two_buffers (mkBuffer 100 3) (mkBuffer 200 3) in
  let s := mkSocket [] [] [1; 2; 3; 4; 5; 6] 1 in
  (exists ec bytes m' s',
    read_buffer_seq 8 (transfer_exactly 5) buffers ∅ s = Ok (ec, Z.of_nat (length bytes), m', s') /\
    received s' = [] ++ bytes /\ Z.of_nat (length bytes) <= 5 /\
    (failed ec = false -> Z.of_nat (length bytes) = Z.min 5 6)) /\
  (exists ec bytes m' s',
    read_buffer_seq 8 (transfer_at_least 5) buffers ∅ s = Ok (ec, Z.of_nat (length bytes), m', s') /\
    received s' = [] ++ bytes /\ (failed ec = false -> Z.min 5 6 <= Z.of_nat (length bytes))).
Proof.
  intros buffers s.
  assert (Z.of_nat (length (co_rest buffers)) = 6) as Hlen by (vm_compute; reflexivity).
  assert (co_valid buffers) as Hv by (constructor; unfold wf_buffer, is_u64; cbn; lia).
  rewrite <- Hlen. change ([] : list byte) with (received s).
  apply (partial_reads buffers ∅ s 8 5); [done|done|unfold is_u64; lia|lia].
Defined.
