(* ===== verification/ReadUntil.v ===== *)
(** * ReadUntil: reading up to a delimiter

    [read_until] and [async_read_until] of [asio/impl/read_until.hpp], for a
    character, a string and a match condition, over either generation of the
    dynamic buffer interface; [dynamic_string_buffer] of [asio/buffer.hpp]
    implements both.  The stream is a parameter with the laws of
    [ComposedIO.ReadStreamLaws].  Positions in a buffer are numbers: the iterator
    [begin + n] is [n]. *)

From stdpp Require Import base list.
From Stdlib Require Import ZArith Lia.
From S2P Require Import Prelude NetError Buffers ComposedIO.
Local Open Scope exchange_scope.
Local Open Scope list_scope.
Local Open Scope Z_scope.

(** ** Definitions *)

(** *** The dynamic buffer

    [db_prepare] makes room for [n] bytes ([prepare] or [grow]), [db_deliver] is
    what the stream writes there, [db_commit] keeps [k] bytes of the [n]
    ([commit(k)] or [shrink(n - k)]). *)
Class DynamicBuffer (B : Type) : Type := {
  db_size : B -> Z;
  db_max_size : B -> Z;
  db_capacity : B -> Z;
  db_data : B -> list byte;
  db_prepare : B -> Z -> outcome B;
  db_deliver : B -> Z -> list byte -> B;
  db_commit : B -> Z -> Z -> B }.

(** What [read_until] needs of it. *)
Class DynamicBufferLaws (B : Type) {HB : DynamicBuffer B} : Type := {
  db_valid : B -> Prop;
  db_size_spec b : db_valid b -> db_size b = Z.of_nat (length (db_data b)) /\ db_size b <= db_max_size b
    /\ db_size b <= db_capacity b < 2 ^ 64 /\ db_max_size b < 2 ^ 64;
  db_receive_spec b n bytes : db_valid b -> Z.of_nat (length bytes) <= n -> db_size b + n <= db_max_size b ->
    exists b1, db_prepare b n = Ok b1 /\ let b2 := db_commit (db_deliver b1 n bytes) n (Z.of_nat (length bytes)) in
      db_valid b2 /\ db_data b2 = db_data b ++ bytes /\ db_max_size b2 = db_max_size b }.

(** *** dynamic_string_buffer *)

(** [std::numeric_limits<std::size_t>::max()] *)
Definition npos : Z := 2 ^ 64 - 1.

(** A [std::string] with its capacity. *)
Record string : Type := mkString { characters : list byte; reserved : Z }.

Definition string_size (s : string) : Z := Z.of_nat (length (characters s)).

(** How much a [std::string] reserves when it must grow from one capacity to hold
    [n] characters: the library's choice. *)
Class StringGrowth : Type := next_capacity : Z -> Z -> Z.
Class StringGrowthLaws {HG : StringGrowth} : Prop :=
  next_capacity_spec old n : n < 2 ^ 64 -> n <= next_capacity old n < 2 ^ 64.

Section StringBuffer.
Context {HG : StringGrowth}.

(** [resize]: zeros behind, or cut off. *)
Definition resize (n : Z) (s : string) : string :=
  mkString (take (Z.to_nat n) (characters s) ++ replicate (Z.to_nat (n - string_size s)) 0)
    (if n <=? reserved s then reserved s else next_capacity (reserved s) n).

(** Bytes stored from position [pos] on. *)
Definition store (pos : Z) (bytes : list byte) (s : string) : string :=
  mkString (take (Z.to_nat pos) (characters s) ++ bytes ++ drop (Z.to_nat pos + length bytes) (characters s)) (reserved s).

Record dynamic_string_buffer : Type := mkDsb { string_ : string; size_ : Z; max_size_ : Z }.

(** [dynamic_buffer(string, max_size)] *)
Definition dynamic_buffer (s : string) (maximum_size : Z) : dynamic_string_buffer := mkDsb s npos maximum_size.

Definition dsb_size (b : dynamic_string_buffer) : Z :=
  if negb (size_ b =? npos) then size_ b else Z.min (string_size (string_ b)) (max_size_ b).

Definition dsb_capacity (b : dynamic_string_buffer) : Z := Z.min (reserved (string_ b)) (max_size_ b).

(** [data()]: [buffer(string_, size_)] *)
Definition data_v1 (b : dynamic_string_buffer) : list byte := take (Z.to_nat (size_ b)) (characters (string_ b)).

(** [data(pos, n)] *)
Definition data_v2 (pos n : Z) (b : dynamic_string_buffer) : list byte :=
  take (Z.to_nat n) (drop (Z.to_nat pos) (take (Z.to_nat (max_size_ b)) (characters (string_ b)))).

Definition too_long (n : Z) (b : dynamic_string_buffer) : bool :=
  (max_size_ b <? dsb_size b) || (max_size_ b - dsb_size b <? n).

(** [prepare]; [OutOfRange] is the [std::length_error] it throws. *)
Definition prepare (n : Z) (b : dynamic_string_buffer) : outcome dynamic_string_buffer :=
  if too_long n b then Fault OutOfRange
  else
    let size := if size_ b =? npos then string_size (string_ b) else size_ b in
    Ok (mkDsb (resize (size + n) (string_ b)) size (max_size_ b)).

Definition commit (n : Z) (b : dynamic_string_buffer) : dynamic_string_buffer :=
  let size := size_ b + Z.min n (string_size (string_ b) - size_ b) in
  mkDsb (resize size (string_ b)) size (max_size_ b).

Definition grow (n : Z) (b : dynamic_string_buffer) : outcome dynamic_string_buffer :=
  if too_long n b then Fault OutOfRange else Ok (mkDsb (resize (dsb_size b + n) (string_ b)) (size_ b) (max_size_ b)).

Definition shrink (n : Z) (b : dynamic_string_buffer) : dynamic_string_buffer :=
  mkDsb (resize (if dsb_size b <? n then 0 else dsb_size b - n) (string_ b)) (size_ b) (max_size_ b).

Definition consume (n : Z) (b : dynamic_string_buffer) : dynamic_string_buffer :=
  let erase k := mkString (drop (Z.to_nat k) (characters (string_ b))) (reserved (string_ b)) in
  if negb (size_ b =? npos) then
    let consume_length := Z.min n (size_ b) in mkDsb (erase consume_length) (size_ b - consume_length) (max_size_ b)
  else mkDsb (erase n) (size_ b) (max_size_ b).

(** Both generations of the interface. *)
Record version_1 : Type := V1 { of_v1 : dynamic_string_buffer }.
Record version_2 : Type := V2 { of_v2 : dynamic_string_buffer }.

Definition deliver (pos : Z) (bytes : list byte) (b : dynamic_string_buffer) : dynamic_string_buffer :=
  mkDsb (store pos bytes (string_ b)) (size_ b) (max_size_ b).

#[export] Instance dynamic_buffer_v1 : DynamicBuffer version_1 := {
  db_size b := dsb_size (of_v1 b);
  db_max_size b := max_size_ (of_v1 b);
  db_capacity b := dsb_capacity (of_v1 b);
  db_data b := data_v1 (of_v1 b);
  db_prepare b n := let* b := prepare n (of_v1 b) in Ok (V1 b);
  db_deliver b n bytes := V1 (deliver (size_ (of_v1 b)) bytes (of_v1 b));
  db_commit b n k := V1 (commit k (of_v1 b)) }.

#[export] Instance dynamic_buffer_v2 : DynamicBuffer version_2 := {
  db_size b := dsb_size (of_v2 b);
  db_max_size b := max_size_ (of_v2 b);
  db_capacity b := dsb_capacity (of_v2 b);
  db_data b := data_v2 0 (dsb_size (of_v2 b)) (of_v2 b);
  db_prepare b n := let* b := grow n (of_v2 b) in Ok (V2 b);
  db_deliver b n bytes := V2 (deliver (dsb_size (of_v2 b) - n) bytes (of_v2 b));
  db_commit b n k := V2 (shrink (n - k) (of_v2 b)) }.

End StringBuffer.

(** *** Searching *)

(** The inner loop of [partial_search]: a full match, a partial one at the end of
    the data, or none; [first] says that nothing was compared yet. *)
Fixpoint test_match (first : bool) (data delim : list byte) {struct delim} : option bool :=
  match delim, data with
  | [], _ => Some true
  | _ :: _, [] => if first then None else Some false
  | d :: delim, x :: data => if x =? d then test_match false data delim else None
  end.

(** [partial_search]: the distance from [first1] and the flag. *)
Fixpoint partial_search (data delim : list byte) : nat * bool :=
  match data with
  | [] => (0%nat, false)
  | _ :: rest =>
      match test_match true data delim with
      | Some full => (0%nat, full)
      | None => let '(i, full) := partial_search rest delim in (S i, full)
      end
  end.

(** [std::find] *)
Fixpoint find (data : list byte) (c : byte) : nat :=
  match data with
  | [] => 0%nat
  | x :: rest => if x =? c then 0%nat else S (find rest c)
  end.

(** The outcome of a search: the position behind the match, or the position at
    which the next search begins. *)
Inductive found : Type := Match (n : nat) | Next (position : nat).

(** What to look for. *)
Inductive delimiter : Type :=
  | Char (delim : byte)
  | String (delim : list byte)
  | Condition (match_condition : list byte -> nat * bool).

(** The three searches, from [search_position] on. *)
Definition search (d : delimiter) (data : list byte) (search_position : nat) : found :=
  let range := drop search_position data in
  match d with
  | Char delim =>
      let iter := find range delim in
      if (iter =? length range)%nat then Next (length data) else Match (search_position + iter + 1)
  | String delim =>
      let '(first, second) := partial_search range delim in
      if (first =? length range)%nat then Next (length data)
      else if second : bool then Match (search_position + first + length delim) else Next (search_position + first)
  | Condition match_condition =>
      let '(first, second) := match_condition range in
      if second : bool then Match (search_position + first)
      else if (first =? length range)%nat then Next (length data) else Next (search_position + first)
  end.

(** *** read_until *)

Section ReadUntil.
Context {B : Type} {HB : DynamicBuffer B} {S : Type} {HR : ReadStream S}.

Definition bytes_to_read (b : B) : Z :=
  Z.min (Z.max 512 (u64 (db_capacity b - db_size b))) (Z.min 65536 (u64 (db_max_size b - db_size b))).

(** The loop of [read_until]; the result with [ec], the buffer and the stream. *)
Fixpoint read_until_loop (fuel : nat) (d : delimiter) (search_position : nat) (b : B) (s : S)
    : outcome (error_code * nat * B * S) :=
  match fuel with
  | O => Fault OutOfFuel
  | Datatypes.S fuel =>
      match search d (db_data b) search_position with
      | Match n => Ok (no_error, n, b, s)
      | Next search_position =>
          if db_size b =? db_max_size b then Ok (not_found, 0%nat, b, s)
          else
            let n := bytes_to_read b in
            let* b := db_prepare b n in
            let '(bytes, ec, s) := read_some s n in
            let b := db_commit (db_deliver b n bytes) n (Z.of_nat (length bytes)) in
            if failed ec then Ok (ec, 0%nat, b, s) else read_until_loop fuel d search_position b s
      end
  end.

Definition read_until (fuel : nat) (d : delimiter) (b : B) (s : S) := read_until_loop fuel d 0 b s.

(** [read_until_delim_op] and its variants between two completions; [None] as
    [search_position_] is [not_found].  [to_read] is what the read in flight may
    deliver. *)
Record read_until_op : Type := mkReadUntilOp {
  op_delim : delimiter;
  op_buffers : B;
  search_position_ : option nat;
  to_read : Z }.

Inductive until_call : Type :=
  | StartRead (op : read_until_op)
  | UntilHandler (ec : error_code) (n : nat) (b : B).

(** The handler's arguments. *)
Definition call_handler (op : read_until_op) (ec : error_code) : until_call :=
  match search_position_ op with
  | None => UntilHandler not_found 0 (op_buffers op)
  | Some n => UntilHandler ec (if failed ec then 0%nat else n) (op_buffers op)
  end.

(** The search, the check whether the operation is done, and the next read. *)
Definition op_search (op : read_until_op) (start : bool) : outcome until_call :=
  let b := op_buffers op in
  let '(position, n) :=
    match search (op_delim op) (db_data b) (default 0%nat (search_position_ op)) with
    | Match n => (Some n, 0)
    | Next position => if db_size b =? db_max_size b then (None, 0) else (Some position, bytes_to_read b)
    end in
  if negb start && (n =? 0) then Ok (call_handler (mkReadUntilOp (op_delim op) b position n) no_error)
  else
    let* b := db_prepare b n in
    Ok (StartRead (mkReadUntilOp (op_delim op) b position n)).

(** [operator()(ec, bytes_transferred)]: the read in flight has delivered [bytes];
    [cancelled] is [cancelled() != cancellation_type::none]. *)
Definition op_complete (op : read_until_op) (cancelled : bool) (ec : error_code) (bytes : list byte) : outcome until_call :=
  let b := db_commit (db_deliver (op_buffers op) (to_read op) bytes) (to_read op) (Z.of_nat (length bytes)) in
  let op := mkReadUntilOp (op_delim op) b (search_position_ op) (to_read op) in
  if failed ec || (length bytes =? 0)%nat then Ok (call_handler op ec)
  else if cancelled then Ok (call_handler op operation_aborted)
  else op_search op false.

(** Each read completes as [read_some] would. *)
Fixpoint drive_until (fuel : nat) (call : until_call) (s : S) : outcome (error_code * nat * B * S) :=
  match fuel with
  | O => Fault OutOfFuel
  | Datatypes.S fuel =>
      match call with
      | UntilHandler ec n b => Ok (ec, n, b, s)
      | StartRead op =>
          let '(bytes, ec, s) := read_some s (to_read op) in
          let* call := op_complete op false ec bytes in
          drive_until fuel call s
      end
  end.

(** [async_read_until] *)
Definition async_read_until (fuel : nat) (d : delimiter) (b : B) (s : S) : outcome (error_code * nat * B * S) :=
  let* call := op_search (mkReadUntilOp d b (Some 0%nat) 0) true in drive_until fuel call s.

End ReadUntil.

(** ** Searching finds the first match *)

(** [pat] starts at position [i]. *)
Definition occurs (pat data : list byte) (i : nat) : Prop := pat `prefix_of` drop i data.

Definition first_match (pat data : list byte) (i : nat) : Prop :=
  occurs pat data i /\ forall j, (j < i)%nat -> ~ occurs pat data j.

(** No match can start before [pos], whatever follows the data. *)
Definition excluded (pat data : list byte) (pos : nat) : Prop :=
  forall j more, (j < pos)%nat -> ~ occurs pat (data ++ more) j.

Lemma excluded_more pat data more pos : excluded pat data pos -> excluded pat (data ++ more) pos.
Proof. intros He j more' Hj. rewrite <- app_assoc. by apply He. Qed.

Lemma excluded_now pat data pos j : excluded pat data pos -> (j < pos)%nat -> ~ occurs pat data j.
Proof. intros He Hj. rewrite <- (app_nil_r data). by apply He. Qed.

(** What a search promises for a pattern. *)
Definition search_ok (pat : list byte) (d : delimiter) : Prop := forall data pos,
  (pos <= length data)%nat -> excluded pat data pos ->
  match search d data pos with
  | Match n => exists i, n = (i + length pat)%nat /\ first_match pat data i
  | Next pos' => (pos' <= length data)%nat /\ excluded pat data pos' /\ forall j, ~ occurs pat data j
  end.

Lemma test_match_full delim : forall first data, test_match first data delim = Some true -> delim `prefix_of` data.
Proof.
  induction delim as [|d delim IH]; intros first data Ht; [apply prefix_nil|].
  destruct data as [|x data]; cbn in Ht; [by destruct first|]. destruct (Z.eqb_spec x d) as [-> |]; [|done].
  apply prefix_cons. by eapply IH.
Qed.

Lemma test_match_none delim : forall first data, test_match first data delim = None -> (first = true -> data <> []) ->
  forall more, ~ delim `prefix_of` data ++ more.
Proof.
  induction delim as [|d delim IH]; intros first data Ht Hne more; [done|].
  destruct data as [|x data]; cbn in Ht; [destruct first; [by destruct Hne|done]|].
  destruct (Z.eqb_spec x d) as [-> |Hn].
  - intros Hp%prefix_cons_inv_2. by eapply IH.
  - intros Hp. by apply prefix_cons_inv_1 in Hp.
Qed.

Lemma test_match_partial delim : forall first data, test_match first data delim = Some false -> (length data < length delim)%nat.
Proof.
  induction delim as [|d delim IH]; intros first data Ht; [done|].
  destruct data as [|x data]; cbn in *; [lia|]. destruct (x =? d); [|done]. apply IH in Ht. lia.
Qed.

(** [partial_search] stops at the first position where a match starts or may. *)
Lemma partial_search_spec delim data : let r := partial_search data delim in
  (r.1 <= length data)%nat /\ excluded delim data r.1
  /\ (r.2 = true -> (r.1 < length data)%nat /\ occurs delim data r.1)
  /\ (r.2 = false -> delim <> [] -> forall j, ~ occurs delim data j).
Proof.
  assert (forall x rest (j : nat), occurs delim (x :: rest) (S j) <-> occurs delim rest j) as Hsucc by done.
  induction data as [|x rest IH]; cbn [partial_search fst snd].
  { split; [done|]. split; [intros j more Hj; lia|]. split; [done|]. intros _ Hne j [k Hk]. rewrite drop_nil in Hk.
    by destruct delim. }
  destruct (test_match true (x :: rest) delim) as [full|] eqn:Ht; cbn [fst snd].
  - split; [lia|]. split; [intros j more Hj; lia|]. split.
    + intros ->. split; [cbn; lia|]. by apply test_match_full in Ht.
    + intros ->. intros _ j [k Hk]. apply test_match_partial in Ht. apply (f_equal length) in Hk.
      rewrite length_app, length_drop in Hk. lia.
  - destruct (partial_search rest delim) as [i full]. cbn [fst snd] in *. destruct IH as (Hi & He & Hf & Hp).
    pose proof (test_match_none delim true (x :: rest) Ht ltac:(done)) as Hno.
    split; [cbn; lia|]. split.
    + intros [|j] more Hj; [exact (Hno more)|]. apply He. lia.
    + split.
      * intros Hfull. destruct (Hf Hfull). split; [cbn; lia|done].
      * intros Hfull Hne [|j]; [pose proof (Hno []) as Hz; by rewrite app_nil_r in Hz|]. by apply Hp.
Qed.

Lemma find_spec c data : (find data c <= length data)%nat /\ excluded [c] data (find data c)
  /\ ((find data c < length data)%nat -> occurs [c] data (find data c)).
Proof.
  induction data as [|x rest (Hi & He & Hf)]; cbn [find].
  { split; [done|]. split; [intros j more Hj; lia|]. cbn. lia. }
  destruct (Z.eqb_spec x c) as [-> |Hn].
  - split; [lia|]. split; [intros j more Hj; lia|]. intros _. by exists rest.
  - split; [cbn; lia|]. split.
    + intros [|j] more Hj; [intros [k Hk]; by injection Hk|]. apply He. lia.
    + intros Hlt. apply Hf. cbn in Hlt. lia.
Qed.

(** Results for the range from [pos] on, in terms of the whole data. *)
Lemma occurs_drop pat data pos j : occurs pat (drop pos data) j <-> occurs pat data (pos + j).
Proof. unfold occurs. by rewrite drop_drop. Qed.

Lemma excluded_drop pat data pos i : (pos <= length data)%nat -> excluded pat data pos -> excluded pat (drop pos data) i ->
  excluded pat data (pos + i).
Proof.
  intros Hpos He Hi j more Hj. destruct (decide (j < pos)%nat) as [Hlt|Hge]; [by apply He|].
  specialize (Hi (j - pos)%nat more ltac:(lia)). contradict Hi. unfold occurs in *. rewrite <- drop_app_le by done.
  rewrite drop_drop. by replace (pos + (j - pos))%nat with j by lia.
Qed.

Lemma found_first pat data pos i : (pos <= length data)%nat -> excluded pat data pos -> excluded pat (drop pos data) i ->
  occurs pat (drop pos data) i -> first_match pat data (pos + i).
Proof.
  intros Hpos He Hi Ho. split; [by apply occurs_drop|]. intros j Hj. eapply excluded_now; [|done]. by apply excluded_drop.
Qed.

Lemma not_in_range pat data pos : excluded pat data pos -> (forall j, ~ occurs pat (drop pos data) j) -> forall j, ~ occurs pat data j.
Proof.
  intros He Hn j. destruct (decide (j < pos)%nat) as [Hlt|Hge]; [by eapply excluded_now|].
  replace j with (pos + (j - pos))%nat by lia. rewrite <- occurs_drop. apply Hn.
Qed.

Lemma search_string_ok delim : delim <> [] -> search_ok delim (String delim).
Proof.
  intros Hne data pos Hpos He. unfold search. cbv zeta.
  pose proof (partial_search_spec delim (drop pos data)) as Hspec. destruct (partial_search (drop pos data) delim) as [i full].
  cbn [fst snd] in Hspec. destruct Hspec as (Hi & Hex & Hf & Hp). rewrite length_drop in *.
  destruct (Nat.eqb_spec i (length data - pos)) as [-> |Hn].
  - assert (full = false) as -> by (destruct full; [|done]; destruct (Hf eq_refl); lia).
    split; [done|]. pose proof (excluded_drop _ _ _ _ Hpos He Hex) as Hx.
    replace (pos + (length data - pos))%nat with (length data) in Hx by lia. split; [done|].
    apply (not_in_range _ _ pos He). by apply Hp.
  - destruct full.
    + destruct (Hf eq_refl) as [_ Ho]. exists (pos + i)%nat. split; [done|]. by apply found_first.
    + split; [lia|]. split; [by apply excluded_drop|]. apply (not_in_range _ _ pos He). by apply Hp.
Qed.

Lemma search_char_ok c : search_ok [c] (Char c).
Proof.
  intros data pos Hpos He. unfold search. cbv zeta. destruct (find_spec c (drop pos data)) as (Hi & Hex & Hf).
  rewrite length_drop in *. destruct (Nat.eqb_spec (find (drop pos data) c) (length data - pos)) as [Heq|Hn].
  - split; [done|]. pose proof (excluded_drop _ _ _ _ Hpos He Hex) as Hx. rewrite Heq in Hx, Hex.
    replace (pos + (length data - pos))%nat with (length data) in Hx by lia. split; [done|].
    intros j. destruct (decide (j < length data)%nat); [by eapply excluded_now|]. intros [k Hk].
    rewrite drop_ge in Hk by lia. done.
  - exists (pos + find (drop pos data) c)%nat. split; [done|]. apply found_first; [done|done|done|]. apply Hf. lia.
Qed.

(** ** The string buffer keeps what it promises *)

Section StringLaws.
Context {HG : StringGrowth} {HGL : StringGrowthLaws}.

Definition string_valid (s : string) (max : Z) : Prop :=
  string_size s <= max /\ max < npos /\ string_size s <= reserved s < 2 ^ 64.

(** Room is made, bytes are stored there, the rest of the room is given back. *)
Lemma string_receive s max n bytes : string_valid s max -> Z.of_nat (length bytes) <= n -> string_size s + n <= max ->
  let s1 := resize (string_size s + n) s in
  let s2 := resize (string_size s + Z.of_nat (length bytes)) (store (string_size s) bytes s1) in
  string_size s1 = string_size s + n /\ string_size (store (string_size s) bytes s1) = string_size s + n
  /\ characters s2 = characters s ++ bytes /\ string_valid s2 max.
Proof using HGL.
  intros (Hm & Hmax & Hr) Hn Hle s1 s2. unfold string_valid, string_size, npos in *.
  set (k := Z.to_nat (n - Z.of_nat (length bytes))).
  assert (characters s1 = characters s ++ replicate (length bytes + k) 0) as Hs1.
  { subst s1. unfold resize, string_size. cbn [characters]. rewrite take_ge by lia. do 2 f_equal. lia. }
  assert (characters (store (Z.of_nat (length (characters s))) bytes s1) = characters s ++ bytes ++ replicate k 0) as Hst.
  { unfold store. cbn [characters]. rewrite Nat2Z.id, Hs1, take_app_length. do 2 f_equal.
    rewrite drop_app_add, replicate_add, drop_app_length' by by rewrite length_replicate. done. }
  assert (characters s2 = characters s ++ bytes) as Hs2.
  { subst s2. unfold resize, string_size. cbn [characters]. rewrite Hst, app_assoc.
    replace (Z.to_nat (Z.of_nat (length (characters s)) + Z.of_nat (length bytes))) with (length (characters s ++ bytes)) by (rewrite length_app; lia).
    rewrite take_app_length. replace (Z.to_nat (_ - _)) with 0%nat by (rewrite !length_app, length_replicate; lia).
    apply app_nil_r. }
  assert (Z.of_nat (length (characters s)) + n <= reserved s1 < 2 ^ 64) as Hr1.
  { subst s1. unfold resize, string_size. cbn [reserved]. destruct (Z.leb_spec (Z.of_nat (length (characters s)) + n) (reserved s)); [lia|].
    apply next_capacity_spec. lia. }
  assert (reserved s2 = reserved s1) as Hr2.
  { subst s2. unfold resize, string_size. cbn [reserved store]. by rewrite (proj2 (Z.leb_le _ _)) by lia. }
  rewrite Hst, Hs2, Hs1, Hr2. rewrite !length_app, !length_replicate. split; [lia|]. split; [lia|]. split; [done|]. lia.
Qed.

Definition valid_v1 (b : version_1) : Prop :=
  string_valid (string_ (of_v1 b)) (max_size_ (of_v1 b))
  /\ (size_ (of_v1 b) = npos \/ size_ (of_v1 b) = string_size (string_ (of_v1 b))).

Definition valid_v2 (b : version_2) : Prop :=
  string_valid (string_ (of_v2 b)) (max_size_ (of_v2 b)) /\ size_ (of_v2 b) = npos.

(** Until the first [prepare] the sentinel stands for the whole string. *)
Lemma size_v1 s sz max : string_valid s max -> sz = npos \/ sz = string_size s ->
  dsb_size (mkDsb s sz max) = string_size s /\ data_v1 (mkDsb s sz max) = characters s
  /\ (if sz =? npos then string_size s else sz) = string_size s.
Proof.
  unfold string_valid, dsb_size, data_v1, npos. cbn [string_ size_ max_size_]. intros (Hm & Hmax & Hr) [-> | ->].
  - rewrite Z.eqb_refl. cbn [negb]. split; [lia|]. split; [|done]. apply take_ge. unfold string_size in *. lia.
  - rewrite (proj2 (Z.eqb_neq _ _)) by lia. split; [done|]. split; [|done]. apply take_ge. unfold string_size. lia.
Qed.

#[export] Program Instance dynamic_buffer_v1_laws : DynamicBufferLaws version_1 := {| db_valid := valid_v1 |}.
Next Obligation.
  intros [[s sz max]] [Hs Hsz]. cbn in *. destruct (size_v1 s sz max Hs Hsz) as (-> & -> & _).
  unfold string_valid, dsb_capacity, string_size, npos in *. cbn. lia.
Qed.
Next Obligation.
  intros [[s sz max]] n bytes [Hs Hsz] Hn Hle. cbn [of_v1 string_ size_ max_size_] in *.
  destruct (size_v1 s sz max Hs Hsz) as (Hsize & Hdata & Hcur). cbn [db_size db_max_size dynamic_buffer_v1 of_v1 max_size_] in Hle.
  rewrite Hsize in Hle. destruct (string_receive s max n bytes Hs Hn Hle) as (_ & Hsize1 & Hchars & Hvalid).
  cbn [db_prepare dynamic_buffer_v1 of_v1]. unfold prepare, too_long. rewrite Hsize. cbn [max_size_ string_ size_].
  unfold string_valid in Hs. rewrite (proj2 (Z.ltb_ge _ _)), (proj2 (Z.ltb_ge _ _)) by lia. cbn [orb].
  rewrite Hcur. cbn [obind]. eexists. split; [reflexivity|]. cbv zeta.
  cbn [db_deliver db_commit db_data db_max_size dynamic_buffer_v1 of_v1]. unfold deliver, commit. cbn [size_ string_ max_size_].
  set (s1 := resize (string_size s + n) s) in *. rewrite Hsize1, Z.add_simpl_l, (Z.min_l _ n) by lia.
  set (s2 := resize (string_size s + Z.of_nat (length bytes)) (store (string_size s) bytes s1)) in *.
  assert (string_size s2 = string_size s + Z.of_nat (length bytes)) as Hs2 by (unfold string_size; rewrite Hchars, length_app; lia).
  rewrite <- Hs2. destruct (size_v1 s2 (string_size s2) max Hvalid (or_intror eq_refl)) as (_ & -> & _).
  rewrite Hdata. split; [split; [done|by right]|done].
Qed.

Lemma size_v2 s max : string_valid s max -> dsb_size (mkDsb s npos max) = string_size s
  /\ data_v2 0 (string_size s) (mkDsb s npos max) = characters s.
Proof.
  unfold string_valid, dsb_size, data_v2, string_size. cbn [string_ size_ max_size_]. intros (Hm & Hmax & Hr).
  rewrite Z.eqb_refl. cbn [negb]. split; [lia|]. cbn [drop Z.to_nat]. rewrite (take_ge (characters s) (Z.to_nat max)) by lia. apply take_ge. lia.
Qed.

#[export] Program Instance dynamic_buffer_v2_laws : DynamicBufferLaws version_2 := {| db_valid := valid_v2 |}.
Next Obligation.
  intros [[s sz max]] [Hs Hsz]. cbn in *. subst sz. destruct (size_v2 s max Hs) as [-> ->].
  unfold string_valid, dsb_capacity, string_size, npos in *. cbn. lia.
Qed.
Next Obligation.
  intros [[s sz max]] n bytes [Hs Hsz] Hn Hle. cbn [of_v2 string_ size_ max_size_] in *. subst sz.
  destruct (size_v2 s max Hs) as [Hsize Hdata]. cbn [db_size db_max_size dynamic_buffer_v2 of_v2 max_size_] in Hle.
  rewrite Hsize in Hle. destruct (string_receive s max n bytes Hs Hn Hle) as (Hsize0 & Hsize1 & Hchars & Hvalid).
  cbn [db_prepare dynamic_buffer_v2 of_v2]. unfold grow, too_long. rewrite Hsize. cbn [max_size_ string_ size_].
  pose proof Hs as (Hs1 & Hs2 & Hs3). rewrite (proj2 (Z.ltb_ge _ _)), (proj2 (Z.ltb_ge _ _)) by lia. cbn [orb].
  cbn [obind]. eexists. split; [reflexivity|]. cbv zeta.
  cbn [db_deliver db_commit db_data db_max_size dynamic_buffer_v2 of_v2]. unfold deliver, shrink. cbn [size_ string_ max_size_].
  set (s1 := resize (string_size s + n) s) in *.
  assert (forall t, string_size t = string_size s + n -> dsb_size (mkDsb t npos max) = string_size s + n) as Hmin.
  { intros t Ht. unfold dsb_size. cbn [size_ string_ max_size_]. rewrite Z.eqb_refl, Ht. cbn [negb]. lia. }
  rewrite (Hmin s1 Hsize0), Z.add_simpl_r. rewrite (Hmin _ Hsize1), (proj2 (Z.ltb_ge _ _)) by (unfold string_size; lia).
  replace (string_size s + n - (n - Z.of_nat (length bytes))) with (string_size s + Z.of_nat (length bytes)) by lia.
  set (s2 := resize (string_size s + Z.of_nat (length bytes)) (store (string_size s) bytes s1)) in *.
  destruct (size_v2 s2 max Hvalid) as [-> ->]. rewrite Hsize, Hdata. split; [by split|done].
Qed.

End StringLaws.

(** ** The loops *)

Section Loops.
Context {B : Type} {HB : DynamicBuffer B} {HBL : DynamicBufferLaws B}.
Context {S : Type} {HR : ReadStream S} {HRL : ReadStreamLaws S}.
Context (d : delimiter) (pat : list byte) (Hd : search_ok pat d).
Implicit Types (b : B) (s : S).

Lemma bytes_to_read_range b : db_valid b -> db_size b <> db_max_size b ->
  0 < bytes_to_read b /\ db_size b + bytes_to_read b <= db_max_size b.
Proof using HBL.
  intros Hv Hne. destruct (db_size_spec b Hv) as (Hs & Hm & Hc & Hmax). unfold bytes_to_read.
  rewrite !u64_small by (unfold is_u64; lia). lia.
Qed.

(** What [read_until] has done when it returns: [delivered] was read and is in the
    buffer, and the result says where the first match is, that the full buffer
    has none, or how the stream failed. *)
Definition until_done (b : B) (s : S) (ec : error_code) (n : nat) (b' : B) (s' : S) : Prop :=
  exists delivered, db_valid b' /\ db_max_size b' = db_max_size b /\ db_data b' = db_data b ++ delivered
    /\ received s' = received s ++ delivered
    /\ ((ec = no_error /\ exists i, n = (i + length pat)%nat /\ first_match pat (db_data b') i)
        \/ (ec = not_found /\ n = 0%nat /\ db_size b' = db_max_size b' /\ forall j, ~ occurs pat (db_data b') j)
        \/ (failed ec = true /\ n = 0%nat /\ exists s1 k bytes, read_some s1 k = (bytes, ec, s'))).

Definition room (b : B) : nat := Z.to_nat (db_max_size b - db_size b).

(** One read, as the loop and the operation make it. *)
Lemma receive_step b s n bytes ec s' : db_valid b -> db_size b <> db_max_size b -> n = bytes_to_read b ->
  read_some s n = (bytes, ec, s') -> exists b1, db_prepare b n = Ok b1 /\
  let b2 := db_commit (db_deliver b1 n bytes) n (Z.of_nat (length bytes)) in
  db_valid b2 /\ db_data b2 = db_data b ++ bytes /\ db_max_size b2 = db_max_size b /\ received s' = received s ++ bytes
  /\ (failed ec = false -> bytes <> [] /\ (room b2 < room b)%nat).
Proof using HBL HRL.
  intros Hv Hne -> Hrd. destruct (bytes_to_read_range b Hv Hne) as [Hpos Hle].
  destruct (read_some_spec s _ bytes ec s' Hrd ltac:(lia)) as (Hlen & Hrec & Hsome).
  destruct (db_receive_spec b (bytes_to_read b) bytes Hv Hlen Hle) as (b1 & Hp & Hv2 & Hd2 & Hm2).
  exists b1. split; [done|]. split; [done|]. split; [done|]. split; [done|]. split; [done|]. intros Hf.
  specialize (Hsome Hf Hpos). split; [done|]. unfold room. destruct (db_size_spec b Hv) as (Hs & _).
  destruct (db_size_spec _ Hv2) as (Hs2 & Hm & _). rewrite Hs2, Hm2, Hd2, length_app in *.
  destruct bytes; [done|]. cbn [length] in *. lia.
Qed.

Lemma until_done_more b s b2 s2 bytes ec n b' s' : db_data b2 = db_data b ++ bytes -> db_max_size b2 = db_max_size b ->
  received s2 = received s ++ bytes -> until_done b2 s2 ec n b' s' -> until_done b s ec n b' s'.
Proof.
  intros Hdata Hm Hrec (delivered & Hv & Hm' & Hd' & Hr' & Hres). exists (bytes ++ delivered).
  rewrite Hm', Hd', Hr', Hdata, Hrec, <- !app_assoc. rewrite Hd', Hdata, <- app_assoc, Hm' in Hres. by rewrite Hm in *.
Qed.

Lemma loop_spec fuel : forall pos b s, db_valid b -> (pos <= length (db_data b))%nat -> excluded pat (db_data b) pos ->
  (room b + 2 <= fuel)%nat -> exists ec n b' s', read_until_loop fuel d pos b s = Ok (ec, n, b', s') /\ until_done b s ec n b' s'.
Proof using HBL HRL Hd.
  induction fuel as [|fuel IH]; intros pos b s Hv Hpos He Hf; [lia|]. cbn [read_until_loop].
  pose proof (Hd (db_data b) pos Hpos He) as Hs. destruct (search d (db_data b) pos) as [n|pos'].
  { exists no_error, n, b, s. split; [done|]. exists []. rewrite !app_nil_r. do 4 (split; [done|]). left. by split. }
  destruct Hs as (Hpos' & He' & Hno). destruct (Z.eqb_spec (db_size b) (db_max_size b)) as [Heq|Hne].
  { exists not_found, 0%nat, b, s. split; [done|]. exists []. rewrite !app_nil_r. do 4 (split; [done|]). right. by left. }
  destruct (read_some s (bytes_to_read b)) as [[bytes ec] s2] eqn:Hrd.
  destruct (receive_step b s _ bytes ec s2 Hv Hne eq_refl Hrd) as (b1 & Hp & Hv2 & Hd2 & Hm2 & Hrec & Hok).
  rewrite Hp. cbn [obind]. cbv zeta. set (b2 := db_commit _ _ _) in *. clearbody b2.
  destruct (failed ec) eqn:Hec.
  { exists ec, 0%nat, b2, s2. split; [done|]. exists bytes. do 4 (split; [done|]). right. right. split; [done|]. split; [done|].
    by do 3 eexists. }
  destruct (Hok eq_refl) as [_ Hroom]. destruct (IH pos' b2 s2 Hv2) as (ec' & n & b' & s' & Hrun & Hdone).
  { rewrite Hd2, length_app. lia. } { rewrite Hd2. by apply excluded_more. } { lia. }
  exists ec', n, b', s'. split; [done|]. by eapply until_done_more.
Qed.

(** From the first completion on the operation does what the loop does. *)
Lemma op_loop fuel : forall pos b s tr, db_valid b -> (pos <= length (db_data b))%nat -> excluded pat (db_data b) pos ->
  (room b + 2 <= fuel)%nat ->
  (let* call := op_search (mkReadUntilOp d b (Some pos) tr) false in drive_until fuel call s) = read_until_loop fuel d pos b s.
Proof using HBL HRL Hd.
  induction fuel as [|fuel IH]; intros pos b s tr Hv Hpos He Hf; [lia|]. cbn [read_until_loop].
  unfold op_search. cbn [op_buffers op_delim search_position_]. change (default 0%nat (Some pos)) with pos.
  pose proof (Hd (db_data b) pos Hpos He) as Hs. destruct (search d (db_data b) pos) as [n|pos']; [done|].
  destruct Hs as (Hpos' & He' & Hno). destruct (Z.eqb_spec (db_size b) (db_max_size b)) as [Heq|Hne]; [done|].
  cbn [negb andb]. destruct (bytes_to_read_range b Hv Hne) as [Hn _].
  rewrite (proj2 (Z.eqb_neq (bytes_to_read b) 0)) by lia.
  destruct (read_some s (bytes_to_read b)) as [[bytes ec] s2] eqn:Hrd.
  destruct (receive_step b s _ bytes ec s2 Hv Hne eq_refl Hrd) as (b1 & Hp & Hv2 & Hd2 & Hm2 & Hrec & Hok).
  rewrite Hp. cbn [obind drive_until to_read]. rewrite Hrd. unfold op_complete. cbn [op_buffers op_delim search_position_ to_read].
  cbv zeta. set (b2 := db_commit _ _ _) in *. clearbody b2. destruct (failed ec) eqn:Hec.
  { cbn [orb obind]. unfold call_handler. cbn [search_position_ op_buffers]. rewrite Hec. destruct fuel; [lia|done]. }
  destruct (Hok eq_refl) as [Hb Hroom]. destruct bytes as [|x bytes]; [done|]. cbn [orb length Nat.eqb].
  apply IH; [done| | |lia].
  - rewrite Hd2, length_app. lia.
  - rewrite Hd2. by apply excluded_more.
Qed.

(** A match, or a full buffer, at the start: the operation makes a read of nothing
    before it calls the handler. *)
Lemma async_sync fuel b s : db_valid b -> (room b + 3 <= fuel)%nat -> exists ec n b1 b2 s',
  read_until fuel d b s = Ok (ec, n, b1, s') /\ async_read_until fuel d b s = Ok (ec, n, b2, s') /\ db_data b2 = db_data b1.
Proof using HBL HRL Hd.
  intros Hv Hf. unfold read_until, async_read_until.
  assert (excluded pat (db_data b) 0%nat) as He by (intros j more Hj; lia).
  pose proof (Hd (db_data b) 0%nat ltac:(lia) He) as Hs.
  destruct (loop_spec fuel 0%nat b s Hv ltac:(lia) He ltac:(lia)) as (ec & n & b' & s' & Hrun & _).
  assert (forall q m, op_search (mkReadUntilOp d b (Some 0%nat) 0) true = (let* b1 := db_prepare b 0 in Ok (StartRead (mkReadUntilOp d b1 q 0))) ->
      read_until_loop fuel d 0 b s = Ok (match q with None => not_found | _ => no_error end, m, b, s) ->
      m = default 0%nat q -> exists ec n b1 b2 s', read_until_loop fuel d 0 b s = Ok (ec, n, b1, s')
        /\ (let* call := op_search (mkReadUntilOp d b (Some 0%nat) 0) true in drive_until fuel call s) = Ok (ec, n, b2, s')
        /\ db_data b2 = db_data b1) as Hdone.
  { intros q m Hop Hloop Hm. destruct (db_size_spec b Hv) as (Hsz & Hmx & _).
    destruct (db_receive_spec b 0 [] Hv) as (b1 & Hp & Hv2 & Hd2 & Hm2); [done|lia|].
    rewrite Hop, Hp. cbn [obind]. destruct fuel as [|[|fuel]]; [lia|lia|]. cbn [drive_until to_read].
    rewrite read_some_nothing. unfold op_complete. cbn [length Nat.eqb orb negb failed]. rewrite orb_true_r. cbn [obind].
    unfold call_handler. cbn [search_position_ op_buffers to_read]. rewrite Hloop, Hm.
    destruct q as [q|]; cbn [default]; do 5 eexists; (split; [reflexivity|]); (split; [reflexivity|]);
      cbn [length] in Hd2; by rewrite Hd2, app_nil_r. }
  destruct fuel as [|fuel]; [lia|]. revert Hdone. unfold op_search. cbn [op_buffers op_delim search_position_].
  change (default 0%nat (Some 0%nat)) with 0%nat.
  cbn [read_until_loop] in *. destruct (search d (db_data b) 0) as [n0|pos'] eqn:Hse.
  { intros Hdone. by apply (Hdone (Some n0) n0). }
  destruct Hs as (Hpos' & He' & Hno). destruct (Z.eqb_spec (db_size b) (db_max_size b)) as [Heq|Hne].
  { intros Hdone. by apply (Hdone None 0%nat). }
  intros _. cbn [negb andb]. pose proof (op_loop (Datatypes.S fuel) 0%nat b s 0 Hv ltac:(lia) He ltac:(lia)) as Hop.
  unfold op_search in Hop. cbn [op_buffers op_delim search_position_ read_until_loop] in Hop.
  change (default 0%nat (Some 0%nat)) with 0%nat in Hop. rewrite Hse in Hop.
  rewrite (proj2 (Z.eqb_neq _ _) Hne) in Hop. cbn [negb andb] in Hop. destruct (bytes_to_read_range b Hv Hne) as [Hn _].
  rewrite (proj2 (Z.eqb_neq (bytes_to_read b) 0)) in Hop by lia.
  exists ec, n, b', b', s'. split; [done|]. split; [|done]. rewrite <- Hrun. exact Hop.
Qed.

End Loops.

(** ** Theorems *)

(** The bytes that end the read; a match condition is the caller's. *)
Definition pattern (d : delimiter) : option (list byte) :=
  match d with
  | Char c => Some [c]
  | String [] => None
  | String delim => Some delim
  | Condition _ => None
  end.

Lemma pattern_ok d pat : pattern d = Some pat -> search_ok pat d.
Proof.
  destruct d as [c|[|x delim]|]; cbn; intros [= <-]; [apply search_char_ok|by apply search_string_ok].
Qed.

(** C37: [read_until] and [async_read_until] with a character or a non-empty string, over any
    dynamic buffer and any stream that keep their promises (both generations of
    [dynamic_string_buffer] do), return: everything the stream delivered is behind what the
    buffer held, and the result is the position behind the first match in the whole buffer
    (also one that several reads completed), or [not_found] with the buffer full and no
    match in it, or the error of a read.  The asynchronous operation gives its handler the
    same result and leaves the same data and stream. *)
Theorem read_until_first_match {B} `{DynamicBufferLaws B} {S} `{ReadStreamLaws S} (d : delimiter) (pat : list byte)
    (b : B) (s : S) (fuel : nat)
    (Hpat : pattern d = Some pat) (Hvalid : db_valid b) (Hfuel : (room b + 3 <= fuel)%nat) :
  exists ec n b1 b2 s', read_until fuel d b s = Ok (ec, n, b1, s') /\ until_done pat b s ec n b1 s'
    /\ async_read_until fuel d b s = Ok (ec, n, b2, s') /\ db_data b2 = db_data b1.
Proof.
  pose proof (pattern_ok d pat Hpat) as Hd.
  destruct (async_sync d pat Hd fuel b s Hvalid Hfuel) as (ec & n & b1 & b2 & s' & Hsync & Hasync & Hdata).
  assert (excluded pat (db_data b) 0%nat) as He by (intros j more Hj; lia).
  destruct (loop_spec d pat Hd fuel 0%nat b s Hvalid ltac:(lia) He ltac:(lia)) as (ec' & n' & b' & s2 & Hrun & Hdone).
  unfold read_until in Hsync. rewrite Hsync in Hrun. injection Hrun as <- <- <- <-. by exists ec, n, b1, b2, s'.
Qed.

(** ** Witnesses *)

#[local] Instance doubling : StringGrowth := fun old n => Z.max n (Z.min (2 * old) (2 ^ 64 - 1)).

#[local] Instance doubling_laws : StringGrowthLaws.
Proof. intros old n Hn. change (n <= Z.max n (Z.min (2 * old) (2 ^ 64 - 1)) < 2 ^ 64). lia. Qed.

(** "ab", CR, LF, "c" two bytes at a time: the delimiter CR LF comes in two reads
    after "a". *)
Lemma read_until_first_match_witness :
  let b := V2 (dynamic_buffer (mkString [97] 15) 20) in
  let s := mkSocket [] [] [98; 13; 10; 99] 1 in
  (exists ec n b1 b2 s', read_until 22 (String [13; 10]) b s = Ok (ec, n, b1, s') /\ until_done [13; 10] b s ec n b1 s'
     /\ async_read_until 22 (String [13; 10]) b s = Ok (ec, n, b2, s') /\ db_data b2 = db_data b1)
  /\ exists b1 s', read_until 22 (String [13; 10]) b s = Ok (no_error, 4%nat, b1, s') /\ db_data b1 = [97; 98; 13; 10; 99].
Proof.
  cbv zeta. split.
  - apply read_until_first_match; [reflexivity| |apply Nat.leb_le; reflexivity]. repeat split; vm_compute; congruence.
  - do 2 eexists. split; vm_compute; reflexivity.
Defined.
