(* ===== verification/Counting.v ===== *)
(** * Counting: how often things occur

    The proofs that operations are neither lost nor duplicated count their
    occurrences in the places where they can be. *)

From stdpp Require Import base list sets.
From Stdlib Require Import ZArith Lia.
From S2P Require Import Prelude.
Local Open Scope Z_scope.

(** ** Sums *)

Lemma sum_by_insert {A} (f : A -> Z) (l : list A) : forall i x y, l !! i = Some x ->
  sum_by f (<[ i := y ]> l) = sum_by f l - f x + f y.
Proof.
  induction l as [|a l IH]; intros [|i] x y Hi; try done.
  - injection Hi as ->. cbn. lia.
  - change (<[ S i := y ]> (a :: l)) with (a :: <[ i := y ]> l). cbn [sum_by].
    rewrite (IH i x y Hi). lia.
Qed.

Lemma sum_by_ge {A} (f : A -> Z) (l : list A) i x : Forall (fun x => 0 <= f x) l -> l !! i = Some x ->
  f x <= sum_by f l.
Proof.
  intros Hf. revert i. induction Hf as [|a l Ha Hf IH]; intros [|i] Hi; cbn in *; try done.
  - injection Hi as ->. pose proof (sum_by_nonneg f l Hf). lia.
  - specialize (IH i Hi). lia.
Qed.

Lemma sum_by_zero {A} (f : A -> Z) (l : list A) x : Forall (fun x => 0 <= f x) l -> sum_by f l = 0 ->
  x ∈ l -> f x = 0.
Proof.
  intros Hf Hs [i Hi]%list_elem_of_lookup. pose proof (sum_by_ge f l i x Hf Hi).
  rewrite Forall_forall in Hf. specialize (Hf x (list_elem_of_lookup_2 _ _ _ Hi)). lia.
Qed.

(** ** Occurrences *)

(** How often an element occurs in a list. *)
Definition occurrences {A : Type} `{EqDecision A} (o : A) (l : list A) : Z :=
  sum_by (fun x => if decide (x = o) then 1 else 0) l.

Section Occurrences.
Context {A : Type} `{EqDecision A}.
Implicit Types (o : A) (l : list A).

Lemma occurrences_app o l1 l2 : occurrences o (l1 ++ l2) = occurrences o l1 + occurrences o l2.
Proof. apply sum_by_app. Qed.

Lemma occurrences_nil o : occurrences o [] = 0.
Proof. done. Qed.

Lemma occurrences_one o x : occurrences x [o] = if decide (o = x) then 1 else 0.
Proof. unfold occurrences. cbn. lia. Qed.

Lemma occurrences_perm o l1 l2 : l1 ≡ₚ l2 -> occurrences o l1 = occurrences o l2.
Proof. apply sum_by_perm. Qed.

Lemma occurrences_nonneg o l : 0 <= occurrences o l.
Proof. apply sum_by_nonneg, Forall_forall. intros x _. case_decide; lia. Qed.

Lemma occurrences_in o l : o ∈ l -> 1 <= occurrences o l.
Proof.
  intros [i Hi]%list_elem_of_lookup.
  pose proof (sum_by_ge (fun x => if decide (x = o) then 1 else 0) l i o) as H. cbn in H.
  rewrite decide_True in H by done. apply H; [|done]. apply Forall_forall. intros x _. case_decide; lia.
Qed.

Lemma occurrences_not_in o l : o ∉ l -> occurrences o l = 0.
Proof.
  induction l as [|a l IH]; intros Ho; [done|]. unfold occurrences in *. cbn.
  rewrite decide_False by set_solver. rewrite IH by set_solver. done.
Qed.

Lemma nodup_occurrences l : NoDup l <-> forall o, occurrences o l <= 1.
Proof.
  induction l as [|a l IH]; [split; [intros _ o; done|constructor]|].
  rewrite NoDup_cons, IH. unfold occurrences in *. cbn [sum_by]. split.
  - intros [Ha Hl] o. case_decide; [subst|specialize (Hl o); lia].
    rewrite (occurrences_not_in o l Ha : sum_by _ l = 0). lia.
  - intros H. split.
    + intros Hin%occurrences_in. specialize (H a). rewrite decide_True in H by done.
      unfold occurrences in Hin. lia.
    + intros o. specialize (H o). case_decide; lia.
Qed.

Lemma occurrences_permutation l1 : forall l2, (forall o, occurrences o l1 = occurrences o l2) -> l1 ≡ₚ l2.
Proof.
  induction l1 as [|a l1 IH]; intros l2 H.
  - destruct l2 as [|b l2]; [done|]. exfalso. specialize (H b). rewrite occurrences_nil in H.
    assert (b ∈ b :: l2) as Hb by set_solver. apply occurrences_in in Hb. lia.
  - assert (a ∈ l2) as Hin.
    { destruct (decide (a ∈ l2)) as [|Hn]; [done|]. specialize (H a).
      rewrite (occurrences_not_in a l2 Hn) in H.
      assert (a ∈ a :: l1) as Ha by set_solver. apply occurrences_in in Ha. lia. }
    apply elem_of_Permutation in Hin as [l2' Hp]. rewrite Hp. apply Permutation_skip, IH. intros o.
    specialize (H o). rewrite (occurrences_perm o _ _ Hp) in H. unfold occurrences in *. cbn in H. lia.
Qed.

End Occurrences.
