(* ===== verification/Scheduler.v ===== *)
(** * Scheduler: the event loop of an io_context

    [asio/detail/scheduler.hpp], [asio/detail/impl/scheduler.ipp],
    [asio/detail/posix_event.hpp] and [asio/detail/scheduler_thread_info.hpp],
    with locking enabled (the default concurrency hint): the queue of completed
    operations, the count of outstanding work, and the threads that call [run].

    A queue of operations is the list it stands for ([OpQueue] shows that the
    intrusive queue is one).  The stretches of code between taking and releasing
    the mutex, between a wait and the next, and each access to the atomic counter
    are the steps of [sstep].  [pthread_cond_signal] is called after the mutex is
    released, so a pending signal is part of the state. *)

From stdpp Require Import base list.
From Stdlib Require Import ZArith Lia.
From S2P Require Import Prelude.
Local Open Scope Z_scope.

(** ** Definitions *)

Abbreviation operation := nat.

(** An element of [op_queue_]: [&task_operation_], or a handler. *)
Inductive entry : Type :=
  | TaskOp
  | Handler (o : operation).

(** [scheduler_thread_info] *)
Record thread_info : Type := mkThreadInfo {
  private_op_queue : list operation;
  private_outstanding_work : Z }.

Definition new_thread_info : thread_info := mkThreadInfo [] 0.

Record scheduler : Type := mkScheduler {
  one_thread_ : bool;
  event_state_ : Z;              (* wakeup_event_.state_ *)
  task_ : bool;                  (* task_ != 0 *)
  task_interrupted_ : bool;
  outstanding_work_ : Z;
  op_queue_ : list entry;
  stopped_ : bool;
  shutdown_ : bool }.

Definition set_event (e : Z) (s : scheduler) : scheduler :=
  mkScheduler (one_thread_ s) e (task_ s) (task_interrupted_ s) (outstanding_work_ s) (op_queue_ s)
    (stopped_ s) (shutdown_ s).
Definition set_task (t : bool) (s : scheduler) : scheduler :=
  mkScheduler (one_thread_ s) (event_state_ s) t (task_interrupted_ s) (outstanding_work_ s) (op_queue_ s)
    (stopped_ s) (shutdown_ s).
Definition set_interrupted (i : bool) (s : scheduler) : scheduler :=
  mkScheduler (one_thread_ s) (event_state_ s) (task_ s) i (outstanding_work_ s) (op_queue_ s)
    (stopped_ s) (shutdown_ s).
Definition set_work (w : Z) (s : scheduler) : scheduler :=
  mkScheduler (one_thread_ s) (event_state_ s) (task_ s) (task_interrupted_ s) w (op_queue_ s)
    (stopped_ s) (shutdown_ s).
Definition set_queue (q : list entry) (s : scheduler) : scheduler :=
  mkScheduler (one_thread_ s) (event_state_ s) (task_ s) (task_interrupted_ s) (outstanding_work_ s) q
    (stopped_ s) (shutdown_ s).
Definition set_stopped (b : bool) (s : scheduler) : scheduler :=
  mkScheduler (one_thread_ s) (event_state_ s) (task_ s) (task_interrupted_ s) (outstanding_work_ s)
    (op_queue_ s) b (shutdown_ s).
Definition set_shutdown (b : bool) (s : scheduler) : scheduler :=
  mkScheduler (one_thread_ s) (event_state_ s) (task_ s) (task_interrupted_ s) (outstanding_work_ s)
    (op_queue_ s) (stopped_ s) b.

(** [scheduler::scheduler(ctx, concurrency_hint, false)] *)
Definition new_scheduler (one_thread : bool) : scheduler :=
  mkScheduler one_thread 0 false true 0 [] false false.

(** *** The event *)

(** What a call does besides changing the state: [pthread_cond_signal],
    [pthread_cond_broadcast] and [task_->interrupt()]. *)
Inductive signal : Type :=
  | CondSignal
  | CondBroadcast
  | TaskInterrupt.

Definition ev_set (state : Z) : Z := Z.lor state 1.

Definition signal_all (state : Z) : Z * list signal := (ev_set state, [CondBroadcast]).

Definition unlock_and_signal_one (state : Z) : Z * list signal :=
  let state := ev_set state in
  let have_waiters := 1 <? state in
  (state, if have_waiters then [CondSignal] else []).

Definition maybe_unlock_and_signal_one (state : Z) : bool * Z * list signal :=
  let state := ev_set state in
  if 1 <? state then (true, state, [CondSignal]) else (false, state, []).

Definition ev_clear (state : Z) : Z := Z.land state (Z.lnot 1).

(** The loop test of [wait], and the changes around [pthread_cond_wait]. *)
Definition ev_signalled (state : Z) : bool := negb (Z.land state 1 =? 0).
Definition ev_begin_wait (state : Z) : Z := state + 2.
Definition ev_end_wait (state : Z) : Z := state - 2.

(** *** Operations *)

Definition stop_all_threads (s : scheduler) : scheduler * list signal :=
  let s := set_stopped true s in
  let '(e, sg) := signal_all (event_state_ s) in
  let s := set_event e s in
  if negb (task_interrupted_ s) && task_ s
  then (set_interrupted true s, sg ++ [TaskInterrupt])
  else (s, sg).

Definition stop (s : scheduler) : scheduler * list signal := stop_all_threads s.

Definition restart (s : scheduler) : scheduler := set_stopped false s.

Definition wake_one_thread_and_unlock (s : scheduler) : scheduler * list signal :=
  let '(woken, e, sg) := maybe_unlock_and_signal_one (event_state_ s) in
  let s := set_event e s in
  if woken then (s, sg)
  else if negb (task_interrupted_ s) && task_ s
       then (set_interrupted true s, [TaskInterrupt])
       else (s, []).

Definition work_started (s : scheduler) : scheduler := set_work (outstanding_work_ s + 1) s.

(** [work_finished]: the flag says that [stop()] is called next. *)
Definition work_finished (s : scheduler) : scheduler * bool :=
  let s := set_work (outstanding_work_ s - 1) s in (s, outstanding_work_ s =? 0).

Definition compensating_work_started (ti : thread_info) : thread_info :=
  mkThreadInfo (private_op_queue ti) (private_outstanding_work ti + 1).

Definition init_task (s : scheduler) : scheduler * list signal :=
  if negb (shutdown_ s) && negb (task_ s)
  then wake_one_thread_and_unlock (set_queue (op_queue_ s ++ [TaskOp]) (set_task true s))
  else (s, []).

(** The locked part of the posting operations. *)
Definition push_and_wake (ops : list operation) (s : scheduler) : scheduler * list signal :=
  wake_one_thread_and_unlock (set_queue (op_queue_ s ++ map Handler ops) s).

(** [ti] is the caller's [thread_info] when it runs this scheduler
    ([thread_call_stack::contains(this)]). *)
Definition post_immediate_completion (ti : option thread_info) (op : operation) (is_continuation : bool)
    (s : scheduler) : option thread_info * scheduler * list signal :=
  match ti with
  | Some t =>
      if one_thread_ s || is_continuation
      then (Some (mkThreadInfo (private_op_queue t ++ [op]) (private_outstanding_work t + 1)), s, [])
      else let '(s, sg) := push_and_wake [op] (work_started s) in (ti, s, sg)
  | None => let '(s, sg) := push_and_wake [op] (work_started s) in (ti, s, sg)
  end.

Definition post_immediate_completions (ti : option thread_info) (n : Z) (ops : list operation)
    (is_continuation : bool) (s : scheduler) : option thread_info * scheduler * list signal :=
  match ti with
  | Some t =>
      if one_thread_ s || is_continuation
      then (Some (mkThreadInfo (private_op_queue t ++ ops) (private_outstanding_work t + n)), s, [])
      else let '(s, sg) := push_and_wake ops (set_work (outstanding_work_ s + n) s) in (ti, s, sg)
  | None => let '(s, sg) := push_and_wake ops (set_work (outstanding_work_ s + n) s) in (ti, s, sg)
  end.

Definition post_deferred_completion (ti : option thread_info) (op : operation) (s : scheduler)
    : option thread_info * scheduler * list signal :=
  match ti with
  | Some t =>
      if one_thread_ s
      then (Some (mkThreadInfo (private_op_queue t ++ [op]) (private_outstanding_work t)), s, [])
      else let '(s, sg) := push_and_wake [op] s in (ti, s, sg)
  | None => let '(s, sg) := push_and_wake [op] s in (ti, s, sg)
  end.

Definition post_deferred_completions (ti : option thread_info) (ops : list operation) (s : scheduler)
    : option thread_info * scheduler * list signal :=
  match ops with
  | [] => (ti, s, [])
  | _ =>
      match ti with
      | Some t =>
          if one_thread_ s
          then (Some (mkThreadInfo (private_op_queue t ++ ops) (private_outstanding_work t)), s, [])
          else let '(s, sg) := push_and_wake ops s in (ti, s, sg)
      | None => let '(s, sg) := push_and_wake ops s in (ti, s, sg)
      end
  end.

Definition do_dispatch (op : operation) (s : scheduler) : scheduler * list signal :=
  push_and_wake [op] (work_started s).

(** [shutdown] without an own thread: the handlers destroyed, in order. *)
Fixpoint queued (q : list entry) : list operation :=
  match q with
  | [] => []
  | TaskOp :: q => queued q
  | Handler o :: q => o :: queued q
  end.

Definition shutdown (s : scheduler) : scheduler * list operation :=
  (set_task false (set_queue [] (set_shutdown true s)), queued (op_queue_ s)).

(** *** The run loop *)

(** Where a thread is. *)
Inductive pc : Type :=
  | Outside                                  (* not in run *)
  | AtLoop                                   (* about to lock and test the loop of do_run_one *)
  | Asleep                                   (* in pthread_cond_wait *)
  | Notified                                 (* woken, about to take the mutex back *)
  | InTask (block interrupted : bool)        (* in task_->run *)
  | AfterTask                                (* task_->run returned: task_cleanup *)
  | InHandler (o : operation)                (* in o->complete *)
  | Stopping (entering : bool)               (* outstanding_work_ was 0: about to call stop *)
  | Flushing                                 (* the second half of work_cleanup *)
  | Returned.

(** One turn of the loop of [do_run_one], with the mutex held. *)
Definition do_run_one (s : scheduler) : scheduler * list signal * pc :=
  if stopped_ s then (s, [], Returned)
  else
    match op_queue_ s with
    | o :: rest =>
        let s := set_queue rest s in
        let more_handlers := negb (match rest with [] => true | _ => false end) in
        match o with
        | TaskOp =>
            let s := set_interrupted more_handlers s in
            let '(e, sg) :=
              if more_handlers && negb (one_thread_ s) then unlock_and_signal_one (event_state_ s)
              else (event_state_ s, []) in
            (set_event e s, sg, InTask (negb more_handlers) false)
        | Handler o =>
            let '(s, sg) :=
              if more_handlers && negb (one_thread_ s) then wake_one_thread_and_unlock s
              else (s, []) in
            (s, sg, InHandler o)
        end
    | [] => (set_event (ev_begin_wait (ev_clear (event_state_ s))) s, [], Asleep)
    end.

(** A woken thread has the mutex: the loop of [wait], then that of [do_run_one]. *)
Definition resume_wait (s : scheduler) : scheduler * list signal * pc :=
  let s := set_event (ev_end_wait (event_state_ s)) s in
  if ev_signalled (event_state_ s) then do_run_one s
  else (set_event (ev_begin_wait (event_state_ s)) s, [], Asleep).

(** [~task_cleanup], which leaves the mutex locked. *)
Definition task_cleanup (s : scheduler) (ti : thread_info) : scheduler * thread_info :=
  let s := if 0 <? private_outstanding_work ti
           then set_work (outstanding_work_ s + private_outstanding_work ti) s else s in
  (set_queue (op_queue_ s ++ map Handler (private_op_queue ti) ++ [TaskOp]) (set_interrupted true s),
   mkThreadInfo [] 0).

(** The first half of [~work_cleanup]: the count, and whether [stop()] is next. *)
Definition work_cleanup_count (s : scheduler) (ti : thread_info) : scheduler * thread_info * bool :=
  let '(s, last) :=
    if 1 <? private_outstanding_work ti
    then (set_work (outstanding_work_ s + (private_outstanding_work ti - 1)) s, false)
    else if private_outstanding_work ti <? 1 then work_finished s
    else (s, false) in
  (s, mkThreadInfo (private_op_queue ti) 0, last).

(** The second half, then [lock.lock()] and the next turn of the loop of [run];
    when there is something to push the mutex stays locked in between. *)
Definition work_cleanup_push (s : scheduler) (ti : thread_info) : scheduler * list signal * pc * thread_info :=
  match private_op_queue ti with
  | [] => (s, [], AtLoop, ti)
  | ops =>
      let '(s, sg, p) := do_run_one (set_queue (op_queue_ s ++ map Handler ops) s) in
      (s, sg, p, mkThreadInfo [] (private_outstanding_work ti))
  end.

(** The entry of [run]. *)
Definition run_entry (s : scheduler) : pc :=
  if outstanding_work_ s =? 0 then Stopping true else AtLoop.

(** ** The threads together

    Besides the scheduler and its threads the state holds the signals not yet
    delivered, the operations whose work has started and that are not queued
    yet ([external]: waiting in the reactor or in another thread's post), and
    callers outside [run] about to call [stop].  [posted], [queue_log], [run_log]
    and [dropped] record what happened: the operations ever started, those
    pushed on [op_queue_], those taken from it, those given up. *)

Record system : Type := mkSystem {
  sched : scheduler;
  threads : list (pc * thread_info);
  pending_signals : nat;
  pending_stops : nat;
  external : list operation;
  posted : list operation;
  queue_log : list operation;
  run_log : list operation;
  dropped : list operation }.

Definition new_system (one_thread : bool) (n : nat) : system :=
  mkSystem (new_scheduler one_thread) (replicate n (Outside, new_thread_info)) 0 0 [] [] [] [] [].

(** The effect of a broadcast, and of an interrupt, on a thread. *)
Definition broadcast_thread (t : pc * thread_info) : pc * thread_info :=
  match t with (Asleep, ti) => (Notified, ti) | _ => t end.

Definition interrupt_thread (t : pc * thread_info) : pc * thread_info :=
  match t with (InTask b _, ti) => (InTask b true, ti) | _ => t end.

Definition apply_signal (sg : signal) (ts : list (pc * thread_info) * nat) : list (pc * thread_info) * nat :=
  match sg with
  | CondSignal => (ts.1, S ts.2)
  | CondBroadcast => (map broadcast_thread ts.1, ts.2)
  | TaskInterrupt => (map interrupt_thread ts.1, ts.2)
  end.

Definition apply_signals (sgs : list signal) (ts : list (pc * thread_info)) (n : nat)
    : list (pc * thread_info) * nat := fold_left (fun a sg => apply_signal sg a) sgs (ts, n).

(** The system after a call that left the scheduler [s], the threads [ts] and
    the signals [sgs]. *)
Definition after (σ : system) (s : scheduler) (sgs : list signal) (ts : list (pc * thread_info)) : system :=
  let '(ts, n) := apply_signals sgs ts (pending_signals σ) in
  mkSystem s ts n (pending_stops σ) (external σ) (posted σ) (queue_log σ) (run_log σ) (dropped σ).

(** Bookkeeping. *)
Definition taken (p : pc) : list operation := match p with InHandler o => [o] | _ => [] end.

Definition log_run (p : pc) (σ : system) : system :=
  mkSystem (sched σ) (threads σ) (pending_signals σ) (pending_stops σ) (external σ) (posted σ) (queue_log σ)
    (run_log σ ++ taken p) (dropped σ).

Definition log_queue (ops : list operation) (σ : system) : system :=
  mkSystem (sched σ) (threads σ) (pending_signals σ) (pending_stops σ) (external σ) (posted σ)
    (queue_log σ ++ ops) (run_log σ) (dropped σ).

Definition set_external (ext : list operation) (σ : system) : system :=
  mkSystem (sched σ) (threads σ) (pending_signals σ) (pending_stops σ) ext (posted σ) (queue_log σ)
    (run_log σ) (dropped σ).

Definition log_posted (ops : list operation) (σ : system) : system :=
  mkSystem (sched σ) (threads σ) (pending_signals σ) (pending_stops σ) (external σ) (posted σ ++ ops)
    (queue_log σ) (run_log σ) (dropped σ).

Definition log_dropped (o : operation) (σ : system) : system :=
  mkSystem (sched σ) (threads σ) (pending_signals σ) (pending_stops σ) (external σ) (posted σ) (queue_log σ)
    (run_log σ) (dropped σ ++ [o]).

Definition set_stops (n : nat) (σ : system) : system :=
  mkSystem (sched σ) (threads σ) (pending_signals σ) n (external σ) (posted σ) (queue_log σ) (run_log σ)
    (dropped σ).

Definition set_signals (n : nat) (σ : system) : system :=
  mkSystem (sched σ) (threads σ) n (pending_stops σ) (external σ) (posted σ) (queue_log σ) (run_log σ)
    (dropped σ).

Definition put (i : nat) (p : pc) (ti : thread_info) (σ : system) : list (pc * thread_info) :=
  <[ i := (p, ti) ]> (threads σ).

Inductive sstep (σ : system) : system -> Prop :=
  (* run *)
  | step_enter i ti p :
      threads σ !! i = Some (Outside, ti) -> p = run_entry (sched σ) ->
      sstep σ (after σ (sched σ) [] (put i p new_thread_info σ))
  | step_loop i ti s sgs p :
      threads σ !! i = Some (AtLoop, ti) -> do_run_one (sched σ) = (s, sgs, p) ->
      sstep σ (log_run p (after σ s sgs (put i p ti σ)))
  | step_resume i ti s sgs p :
      threads σ !! i = Some (Notified, ti) -> resume_wait (sched σ) = (s, sgs, p) ->
      sstep σ (log_run p (after σ s sgs (put i p ti σ)))
  (* task_->run returns the completed operations [ops] *)
  | step_task i ti block interrupted ops ext :
      threads σ !! i = Some (InTask block interrupted, ti) -> external σ ≡ₚ ops ++ ext ->
      sstep σ (set_external ext (after σ (sched σ) []
        (put i AfterTask (mkThreadInfo (private_op_queue ti ++ ops) (private_outstanding_work ti)) σ)))
  | step_task_cleanup i ti s ti' s' sgs p :
      threads σ !! i = Some (AfterTask, ti) -> task_cleanup (sched σ) ti = (s, ti') ->
      do_run_one s = (s', sgs, p) ->
      sstep σ (log_run p (log_queue (private_op_queue ti) (after σ s' sgs (put i p ti' σ))))
  (* a handler posts to its thread's queue, or returns *)
  | step_post_private i o ti op cont ti' s sgs :
      threads σ !! i = Some (InHandler o, ti) -> one_thread_ (sched σ) || cont = true ->
      post_immediate_completion (Some ti) op cont (sched σ) = (Some ti', s, sgs) ->
      sstep σ (log_posted [op] (after σ s sgs (put i (InHandler o) ti' σ)))
  | step_deferred_private i o ti ops ext ti' s sgs :
      threads σ !! i = Some (InHandler o, ti) -> one_thread_ (sched σ) = true ->
      external σ ≡ₚ ops ++ ext ->
      post_deferred_completions (Some ti) ops (sched σ) = (Some ti', s, sgs) ->
      sstep σ (set_external ext (after σ s sgs (put i (InHandler o) ti' σ)))
  | step_handler_done i o ti s ti' last :
      threads σ !! i = Some (InHandler o, ti) -> work_cleanup_count (sched σ) ti = (s, ti', last) ->
      sstep σ (after σ s [] (put i (if last then Stopping false else Flushing) ti' σ))
  | step_thread_stop i ti entering s sgs :
      threads σ !! i = Some (Stopping entering, ti) -> stop (sched σ) = (s, sgs) ->
      sstep σ (after σ s sgs (put i (if entering then Returned else Flushing) ti σ))
  | step_flush i ti s sgs p ti' :
      threads σ !! i = Some (Flushing, ti) -> work_cleanup_push (sched σ) ti = (s, sgs, p, ti') ->
      sstep σ (log_run p (log_queue (private_op_queue ti) (after σ s sgs (put i p ti' σ))))
  (* the two halves of a post to op_queue_: the count, then the push *)
  | step_work_started ops :
      sstep σ (log_posted ops (set_external (external σ ++ ops)
        (after σ (set_work (outstanding_work_ (sched σ) + Z.of_nat (length ops)) (sched σ)) [] (threads σ))))
  | step_push ops ext s sgs :
      external σ ≡ₚ ops ++ ext -> ops <> [] -> push_and_wake ops (sched σ) = (s, sgs) ->
      sstep σ (log_queue ops (set_external ext (after σ s sgs (threads σ))))
  (* work given up by its owner *)
  | step_work_finished op ext s last :
      external σ ≡ₚ op :: ext -> work_finished (sched σ) = (s, last) ->
      sstep σ (log_dropped op (set_external ext
        (set_stops ((if last then 1 else 0) + pending_stops σ) (after σ s [] (threads σ)))))
  | step_pending_stop n s sgs :
      pending_stops σ = S n -> stop (sched σ) = (s, sgs) ->
      sstep σ (set_stops n (after σ s sgs (threads σ)))
  | step_stop s sgs :
      stop (sched σ) = (s, sgs) -> sstep σ (after σ s sgs (threads σ))
  | step_init_task s sgs :
      init_task (sched σ) = (s, sgs) -> sstep σ (after σ s sgs (threads σ))
  (* signals reach a sleeping thread, or nobody; a wait may end by itself *)
  | step_signal i ti n :
      pending_signals σ = S n -> threads σ !! i = Some (Asleep, ti) ->
      sstep σ (set_signals n (after σ (sched σ) [] (put i Notified ti σ)))
  | step_signal_nobody n :
      pending_signals σ = S n -> (forall i ti, threads σ !! i <> Some (Asleep, ti)) ->
      sstep σ (set_signals n (after σ (sched σ) [] (threads σ)))
  | step_spurious i ti :
      threads σ !! i = Some (Asleep, ti) ->
      sstep σ (after σ (sched σ) [] (put i Notified ti σ)).

Definition system_reachable (one_thread : bool) (n : nat) : system -> Prop :=
  reachable (fun σ => σ = new_system one_thread n) sstep.
