(* ===== verification/SchedulerTheorems.v ===== *)
(** * SchedulerTheorems: what the event loop guarantees

    For any number of threads in [run] and any interleaving: the count of
    outstanding work is exact, operations are run at most once and in the order
    in which they entered the queue, and no wake-up is lost. *)

From stdpp Require Import base list sets.
From Stdlib Require Import ZArith Lia.
From S2P Require Import Prelude Counting Scheduler.
Local Open Scope Z_scope.

(** ** Signals *)

Lemma apply_signals_cons sg sgs ts n :
  apply_signals (sg :: sgs) ts n = apply_signals sgs (apply_signal sg (ts, n)).1 (apply_signal sg (ts, n)).2.
Proof. unfold apply_signals. cbn [fold_left]. by destruct (apply_signal sg (ts, n)). Qed.

(** Signals keep what broadcasts and interrupts keep. *)
Lemma sum_by_signals (f : pc * thread_info -> Z) sgs : 
  (forall t, f (broadcast_thread t) = f t) -> (forall t, f (interrupt_thread t) = f t) ->
  forall ts n, sum_by f (apply_signals sgs ts n).1 = sum_by f ts.
Proof.
  intros Hb Hi. induction sgs as [|sg sgs IH]; intros ts n; [done|].
  rewrite apply_signals_cons, IH. destruct sg; cbn [apply_signal fst snd]; [done| |].
  - rewrite (sum_by_map broadcast_thread). apply sum_by_ext, Forall_forall. intros; apply Hb.
  - rewrite (sum_by_map interrupt_thread). apply sum_by_ext, Forall_forall. intros; apply Hi.
Qed.

Lemma Forall_signals (P : pc * thread_info -> Prop) sgs :
  (forall t, P t -> P (broadcast_thread t)) -> (forall t, P t -> P (interrupt_thread t)) ->
  forall ts n, Forall P ts -> Forall P (apply_signals sgs ts n).1.
Proof.
  intros Hb Hi. induction sgs as [|sg sgs IH]; intros ts n Hts; [done|].
  rewrite apply_signals_cons. apply IH. destruct sg; cbn [apply_signal fst snd]; [done| |].
  - apply Forall_fmap. eapply Forall_impl; [done|]. apply Hb.
  - apply Forall_fmap. eapply Forall_impl; [done|]. apply Hi.
Qed.

Lemma queued_app q1 q2 : queued (q1 ++ q2) = queued q1 ++ queued q2.
Proof. induction q1 as [|[|o] q1 IH]; cbn; [done|done|by rewrite IH]. Qed.

Lemma queued_handlers ops : queued (map Handler ops) = ops.
Proof. induction ops as [|o ops IH]; cbn; [done|by rewrite IH]. Qed.

(** ** The accounts *)

(** The work of a thread that [outstanding_work_] counts. *)
Definition thread_work (t : pc * thread_info) : Z :=
  Z.of_nat (length (taken t.1)) + Z.of_nat (length (private_op_queue t.2)) - private_outstanding_work t.2.

(** A thread has private operations only in a handler or after it. *)
Definition may_hold (p : pc) : bool :=
  match p with InHandler _ | AfterTask | Stopping false | Flushing => true | _ => false end.

Definition thread_ok (t : pc * thread_info) : Prop :=
  0 <= private_outstanding_work t.2 <= Z.of_nat (length (private_op_queue t.2)) /\
  (may_hold t.1 = false -> private_op_queue t.2 = []) /\
  (taken t.1 = [] -> private_outstanding_work t.2 = 0).

Record accounts (s : scheduler) (ts : list (pc * thread_info)) (ext pos qlog rlog drp : list operation)
    : Prop := mkAccounts {
  ac_work : outstanding_work_ s =
    Z.of_nat (length ext) + Z.of_nat (length (queued (op_queue_ s))) + sum_by thread_work ts;
  ac_fifo : rlog ++ queued (op_queue_ s) = qlog;
  ac_once : forall o, occurrences o pos = occurrences o ext + occurrences o qlog
    + sum_by (fun t => occurrences o (private_op_queue t.2)) ts + occurrences o drp;
  ac_threads : Forall thread_ok ts }.

Definition system_accounts (σ : system) : Prop :=
  accounts (sched σ) (threads σ) (external σ) (posted σ) (queue_log σ) (run_log σ) (dropped σ).

Lemma accounts_signals s ts ext pos qlog rlog drp sgs n :
  accounts s ts ext pos qlog rlog drp -> accounts s (apply_signals sgs ts n).1 ext pos qlog rlog drp.
Proof.
  intros [Hw Hf Ho Ht]. constructor.
  - rewrite sum_by_signals; [done|by intros [[] ?]..].
  - done.
  - intros o. rewrite sum_by_signals; [done|by intros [[] ?]..].
  - apply Forall_signals; [by intros [[] ?]..|done].
Qed.

(** One thread changes, and the scheduler with it. *)
Lemma accounts_put s ts ext pos qlog rlog drp s' ext' pos' qlog' rlog' drp' i p ti p' ti' :
  accounts s ts ext pos qlog rlog drp -> ts !! i = Some (p, ti) -> thread_ok (p', ti') ->
  outstanding_work_ s' - outstanding_work_ s
    = Z.of_nat (length ext') - Z.of_nat (length ext)
      + Z.of_nat (length (queued (op_queue_ s'))) - Z.of_nat (length (queued (op_queue_ s)))
      + thread_work (p', ti') - thread_work (p, ti) ->
  rlog' ++ queued (op_queue_ s') = qlog' ->
  (forall o, occurrences o pos' - occurrences o pos
    = occurrences o ext' - occurrences o ext + occurrences o qlog' - occurrences o qlog
      + occurrences o (private_op_queue ti') - occurrences o (private_op_queue ti)
      + occurrences o drp' - occurrences o drp) ->
  accounts s' (<[ i := (p', ti') ]> ts) ext' pos' qlog' rlog' drp'.
Proof.
  intros [Hw Hf Ho Ht] Hi Hok Hwork Hfifo Honce. constructor.
  - rewrite (sum_by_insert _ _ _ _ _ Hi). lia.
  - done.
  - intros o. specialize (Ho o). specialize (Honce o). rewrite (sum_by_insert _ _ _ _ _ Hi). cbn [snd]. lia.
  - by apply Forall_insert.
Qed.

Lemma accounts_at s ts ext pos qlog rlog drp i t :
  accounts s ts ext pos qlog rlog drp -> ts !! i = Some t -> thread_ok t.
Proof. intros [_ _ _ Ht] Hi. by eapply Forall_lookup_1 in Hi. Qed.

(** What the operations do to the count and the queue. *)
Lemma wake_queue s s' sgs : wake_one_thread_and_unlock s = (s', sgs) ->
  outstanding_work_ s' = outstanding_work_ s /\ op_queue_ s' = op_queue_ s.
Proof.
  unfold wake_one_thread_and_unlock, maybe_unlock_and_signal_one. intros H.
  destruct (1 <? _); [|destruct (_ && _)]; by injection H as <- _.
Qed.

Lemma stop_queue s s' sgs : stop s = (s', sgs) ->
  outstanding_work_ s' = outstanding_work_ s /\ op_queue_ s' = op_queue_ s.
Proof.
  unfold stop, stop_all_threads. cbn [signal_all fst snd]. intros H.
  destruct (_ && _); by injection H as <- _.
Qed.

Lemma push_and_wake_queue s ops s' sgs : push_and_wake ops s = (s', sgs) ->
  outstanding_work_ s' = outstanding_work_ s /\ queued (op_queue_ s') = queued (op_queue_ s) ++ ops.
Proof. intros [-> ->]%wake_queue. cbn. by rewrite queued_app, queued_handlers. Qed.

Lemma init_queue s s' sgs : init_task s = (s', sgs) ->
  outstanding_work_ s' = outstanding_work_ s /\ queued (op_queue_ s') = queued (op_queue_ s).
Proof.
  unfold init_task. destruct (_ && _); [|by intros [= <- _]].
  intros [-> ->]%wake_queue. cbn. by rewrite queued_app, app_nil_r.
Qed.

(** A thread that comes out of a turn holds nothing private yet. *)
Definition fresh_pc (p : pc) : Prop := may_hold p = true -> exists o, p = InHandler o.

Lemma do_run_one_queue s s' sgs p : do_run_one s = (s', sgs, p) ->
  outstanding_work_ s' = outstanding_work_ s /\ queued (op_queue_ s) = taken p ++ queued (op_queue_ s') /\
  fresh_pc p.
Proof.
  unfold do_run_one, fresh_pc. destruct (stopped_ s); [by intros [= <- _ <-]|].
  destruct (op_queue_ s) as [|[|o] rest] eqn:Hq; cbn [queued].
  - intros [= <- _ <-]. cbn. by rewrite Hq.
  - destruct (_ && _); cbn [unlock_and_signal_one]; intros [= <- _ <-]; cbn; by destruct rest.
  - destruct (_ && _).
    + destruct (wake_one_thread_and_unlock _) as [s1 sg1] eqn:Hw. intros [= <- _ <-].
      apply wake_queue in Hw as [-> ->]. cbn. eauto.
    + intros [= <- _ <-]. cbn. eauto.
Qed.

Lemma resume_queue s s' sgs p : resume_wait s = (s', sgs, p) ->
  outstanding_work_ s' = outstanding_work_ s /\ queued (op_queue_ s) = taken p ++ queued (op_queue_ s') /\
  fresh_pc p.
Proof.
  unfold resume_wait. destruct (ev_signalled _).
  - intros (H1 & H2 & H3)%do_run_one_queue. done.
  - by intros [= <- _ <-].
Qed.

Lemma thread_ok_fresh p ti : fresh_pc p -> private_op_queue ti = [] -> private_outstanding_work ti = 0 ->
  thread_ok (p, ti).
Proof. intros Hp Hq Hw. unfold thread_ok. cbn [fst snd]. rewrite Hq, Hw. cbn. split; [lia|done]. Qed.

(** A thread that holds nothing takes a turn. *)
Lemma accounts_turn s ts ext pos qlog rlog drp i p ti s' p' :
  accounts s ts ext pos qlog rlog drp -> ts !! i = Some (p, ti) -> may_hold p = false ->
  outstanding_work_ s' = outstanding_work_ s -> queued (op_queue_ s) = taken p' ++ queued (op_queue_ s') ->
  fresh_pc p' -> accounts s' (<[ i := (p', ti) ]> ts) ext pos qlog (rlog ++ taken p') drp.
Proof.
  intros Ha Hi Hp Hw Hq Hf. destruct (accounts_at _ _ _ _ _ _ _ _ _ Ha Hi) as (_ & Hnil & Hz). cbn in Hnil, Hz.
  specialize (Hnil Hp). assert (taken p = []) as Ht by (by destruct p). specialize (Hz Ht).
  eapply accounts_put; [done|done|by apply thread_ok_fresh| | |].
  - unfold thread_work. cbn. rewrite Hw, Hq, Ht, length_app. cbn. lia.
  - rewrite <- app_assoc, <- Hq. by destruct Ha.
  - intros o. lia.
Qed.

(** The same thread state up to its program counter. *)
Lemma accounts_move s ts ext pos qlog rlog drp i p p' ti :
  accounts s ts ext pos qlog rlog drp -> ts !! i = Some (p, ti) -> taken p = [] -> taken p' = [] ->
  (may_hold p' = false -> may_hold p = false) ->
  accounts s (<[ i := (p', ti) ]> ts) ext pos qlog rlog drp.
Proof.
  intros Ha Hi Ht Ht' Hm. destruct (accounts_at _ _ _ _ _ _ _ _ _ Ha Hi) as (H1 & H2 & H3). cbn in H2, H3.
  eapply accounts_put; [done|done| | | |].
  - split; [done|]. cbn. split; [auto|]. intros _. auto.
  - unfold thread_work. cbn. rewrite Ht, Ht'. lia.
  - by destruct Ha.
  - intros o. lia.
Qed.

Lemma accounts_scheduler s ts ext pos qlog rlog drp s' ext' pos' qlog' drp' :
  accounts s ts ext pos qlog rlog drp ->
  outstanding_work_ s' - outstanding_work_ s
    = Z.of_nat (length ext') - Z.of_nat (length ext)
      + Z.of_nat (length (queued (op_queue_ s'))) - Z.of_nat (length (queued (op_queue_ s))) ->
  rlog ++ queued (op_queue_ s') = qlog' ->
  (forall o, occurrences o pos' - occurrences o pos
    = occurrences o ext' - occurrences o ext + occurrences o qlog' - occurrences o qlog
      + occurrences o drp' - occurrences o drp) ->
  accounts s' ts ext' pos' qlog' rlog drp'.
Proof.
  intros [Hw Hf Ho Ht] Hwork Hfifo Honce. constructor; [lia|done| |done].
  intros o. specialize (Ho o). specialize (Honce o). lia.
Qed.

Lemma after_eq σ s sgs ts : after σ s sgs ts
  = mkSystem s (apply_signals sgs ts (pending_signals σ)).1 (apply_signals sgs ts (pending_signals σ)).2
      (pending_stops σ) (external σ) (posted σ) (queue_log σ) (run_log σ) (dropped σ).
Proof. unfold after. by destruct (apply_signals sgs ts (pending_signals σ)). Qed.

(** Unfold a system to its components and drop the signals. *)
Ltac accounts_goal :=
  unfold system_accounts, log_run, log_queue, set_external, log_posted, log_dropped, set_stops, set_signals;
  rewrite ?after_eq;
  cbn [sched threads external posted queue_log run_log dropped pending_stops];
  try apply accounts_signals.

Lemma work_cleanup_spec s ti s' ti' last : work_cleanup_count s ti = (s', ti', last) ->
  0 <= private_outstanding_work ti ->
  outstanding_work_ s' = outstanding_work_ s + private_outstanding_work ti - 1 /\
  op_queue_ s' = op_queue_ s /\ ti' = mkThreadInfo (private_op_queue ti) 0 /\
  (last = true -> outstanding_work_ s' = 0).
Proof.
  unfold work_cleanup_count, work_finished. intros H Hn.
  destruct (1 <? _) eqn:H1; [|destruct (_ <? 1) eqn:H2]; injection H as <- <- <-; cbn.
  - split_and!; [lia|done..].
  - apply Z.ltb_lt in H2. split_and!; [lia|done..|]. apply Z.eqb_eq.
  - apply Z.ltb_ge in H1, H2. split_and!; [lia|done..].
Qed.

Lemma step_task_accounts σ i ti block interrupted ops ext : system_accounts σ ->
  threads σ !! i = Some (InTask block interrupted, ti) -> external σ ≡ₚ ops ++ ext ->
  system_accounts (set_external ext (after σ (sched σ) []
    (put i AfterTask (mkThreadInfo (private_op_queue ti ++ ops) (private_outstanding_work ti)) σ))).
Proof.
  intros Ha Hi Hext. accounts_goal.
  destruct (accounts_at _ _ _ _ _ _ _ _ _ Ha Hi) as (Hr & Hnil & Hz). cbn in Hr, Hnil, Hz.
  specialize (Hnil eq_refl). specialize (Hz eq_refl). pose proof (Permutation_length Hext) as Hlen. rewrite length_app in Hlen.
  eapply accounts_put; [exact Ha|done| | | |].
  - unfold thread_ok. cbn. rewrite Hz. split; [lia|done].
  - unfold thread_work. cbn. rewrite Hnil, Hz. cbn. lia.
  - by destruct Ha.
  - intros o. cbn [private_op_queue]. rewrite Hnil, (occurrences_perm o _ _ Hext), !occurrences_app.
    rewrite occurrences_nil. lia.
Qed.

Lemma step_task_cleanup_accounts σ i ti s ti' s' sgs p : system_accounts σ ->
  threads σ !! i = Some (AfterTask, ti) -> task_cleanup (sched σ) ti = (s, ti') -> do_run_one s = (s', sgs, p) ->
  system_accounts (log_run p (log_queue (private_op_queue ti) (after σ s' sgs (put i p ti' σ)))).
Proof.
  intros Ha Hi Hc Hrun. accounts_goal.
  destruct (accounts_at _ _ _ _ _ _ _ _ _ Ha Hi) as (Hr & _ & Hz). cbn in Hr, Hz. specialize (Hz eq_refl).
  unfold task_cleanup in Hc. rewrite Hz in Hc. cbn in Hc. injection Hc as <- <-.
  apply do_run_one_queue in Hrun as (Hw & Hq & Hf). cbn in Hw, Hq.
  rewrite !queued_app, queued_handlers in Hq. cbn in Hq. rewrite app_nil_r in Hq.
  eapply accounts_put; [exact Ha|done|by apply thread_ok_fresh| | |].
  - unfold thread_work. cbn. rewrite Hw, Hz. apply (f_equal length) in Hq. rewrite !length_app in Hq. lia.
  - rewrite <- app_assoc, <- Hq, app_assoc. by destruct Ha as [_ -> _ _].
  - intros o. cbn [private_op_queue]. rewrite occurrences_app, occurrences_nil. lia.
Qed.

Lemma step_flush_accounts σ i ti s sgs p ti' : system_accounts σ ->
  threads σ !! i = Some (Flushing, ti) -> work_cleanup_push (sched σ) ti = (s, sgs, p, ti') ->
  system_accounts (log_run p (log_queue (private_op_queue ti) (after σ s sgs (put i p ti' σ)))).
Proof.
  intros Ha Hi Hc. accounts_goal.
  destruct (accounts_at _ _ _ _ _ _ _ _ _ Ha Hi) as (Hr & _ & Hz). cbn in Hr, Hz. specialize (Hz eq_refl).
  unfold work_cleanup_push in Hc. destruct (private_op_queue ti) as [|o ops] eqn:Hpq.
  { injection Hc as <- _ <- <-. cbn [taken]. rewrite !app_nil_r.
    eapply accounts_put; [exact Ha|done| | |by destruct Ha|intros; lia].
    - apply thread_ok_fresh; done.
    - unfold thread_work. cbn. lia. }
  destruct (do_run_one _) as [[s1 sg1] p1] eqn:Hrun. injection Hc as <- _ <- <-.
  apply do_run_one_queue in Hrun as (Hw & Hq & Hf). cbn [outstanding_work_ op_queue_ set_queue] in Hw, Hq.
  rewrite queued_app, queued_handlers in Hq.
  eapply accounts_put; [exact Ha|done|by apply thread_ok_fresh| | |].
  - unfold thread_work. cbn [fst snd taken private_op_queue private_outstanding_work]. rewrite Hw, Hz, Hpq.
    apply (f_equal length) in Hq. rewrite !length_app in Hq. cbn [length] in *. lia.
  - rewrite <- app_assoc, <- Hq, app_assoc. by destruct Ha as [_ -> _ _].
  - intros x. cbn [private_op_queue]. rewrite occurrences_app, Hpq, occurrences_nil. lia.
Qed.

Lemma step_handler_accounts σ i o ti s ti' last : system_accounts σ ->
  threads σ !! i = Some (InHandler o, ti) -> work_cleanup_count (sched σ) ti = (s, ti', last) ->
  system_accounts (after σ s [] (put i (if last then Stopping false else Flushing) ti' σ)).
Proof.
  intros Ha Hi Hc. accounts_goal.
  destruct (accounts_at _ _ _ _ _ _ _ _ _ Ha Hi) as (Hr & _ & _). cbn in Hr.
  apply work_cleanup_spec in Hc as (Hw & Hq & -> & _); [|lia].
  eapply accounts_put; [exact Ha|done| | | |].
  - unfold thread_ok. cbn. split; [lia|]. split; [by destruct last|done].
  - unfold thread_work. cbn. rewrite Hw, Hq. destruct last; cbn; lia.
  - rewrite Hq. by destruct Ha.
  - intros x. cbn [private_op_queue]. lia.
Qed.

Lemma step_post_accounts σ i o ti op cont ti' s sgs : system_accounts σ ->
  threads σ !! i = Some (InHandler o, ti) -> one_thread_ (sched σ) || cont = true ->
  post_immediate_completion (Some ti) op cont (sched σ) = (Some ti', s, sgs) ->
  system_accounts (log_posted [op] (after σ s sgs (put i (InHandler o) ti' σ))).
Proof.
  intros Ha Hi Hc. unfold post_immediate_completion. rewrite Hc. intros [= <- <- <-]. accounts_goal.
  destruct (accounts_at _ _ _ _ _ _ _ _ _ Ha Hi) as (Hr & _ & _). cbn in Hr.
  eapply accounts_put; [exact Ha|done| | |by destruct Ha|].
  - unfold thread_ok. cbn. rewrite length_app. cbn. split; [lia|done].
  - unfold thread_work. cbn. rewrite length_app. cbn. lia.
  - intros x. cbn [private_op_queue]. rewrite !occurrences_app. lia.
Qed.

Lemma step_deferred_accounts σ i o ti ops ext ti' s sgs : system_accounts σ ->
  threads σ !! i = Some (InHandler o, ti) -> one_thread_ (sched σ) = true -> external σ ≡ₚ ops ++ ext ->
  post_deferred_completions (Some ti) ops (sched σ) = (Some ti', s, sgs) ->
  system_accounts (set_external ext (after σ s sgs (put i (InHandler o) ti' σ))).
Proof.
  intros Ha Hi Hone Hext Hp.
  assert (s = sched σ /\ ti' = mkThreadInfo (private_op_queue ti ++ ops) (private_outstanding_work ti)) as [-> ->].
  { unfold post_deferred_completions in Hp. rewrite Hone in Hp. destruct ops; [|by injection Hp as <- <- _].
    injection Hp as <- <- _. rewrite app_nil_r. by destruct ti. }
  accounts_goal. destruct (accounts_at _ _ _ _ _ _ _ _ _ Ha Hi) as (Hr & _ & _). cbn in Hr.
  pose proof (Permutation_length Hext) as Hlen. rewrite length_app in Hlen.
  eapply accounts_put; [exact Ha|done| | |by destruct Ha|].
  - unfold thread_ok. cbn. rewrite length_app. split; [lia|done].
  - unfold thread_work. cbn. rewrite length_app. lia.
  - intros x. cbn [private_op_queue]. rewrite (occurrences_perm x _ _ Hext), !occurrences_app. lia.
Qed.

Lemma sstep_accounts σ σ' : system_accounts σ -> sstep σ σ' -> system_accounts σ'.
Proof.
  intros Ha Hs. destruct Hs as
    [i ti p Hi ->|i ti s sgs p Hi Hr|i ti s sgs p Hi Hr|i ti b intr ops ext Hi Hext
    |i ti s ti' s' sgs p Hi Hc Hr|i o ti op cont ti' s sgs Hi Hc Hp|i o ti ops ext ti' s sgs Hi Ho Hext Hp
    |i o ti s ti' last Hi Hc|i ti ent s sgs Hi Hst|i ti s sgs p ti' Hi Hc|ops|ops ext s sgs Hext Hne Hp
    |op ext s last Hext Hw|n s sgs Hn Hst|s sgs Hst|s sgs Hin|i ti n Hn Hi|n Hn Hno|i ti Hi].
  - destruct (accounts_at _ _ _ _ _ _ _ _ _ Ha Hi) as (_ & Hnil & Hz). cbn in Hnil, Hz.
    accounts_goal. unfold run_entry. eapply accounts_put; [exact Ha|done| | |by destruct Ha|].
    + apply thread_ok_fresh; [|done|done]. unfold fresh_pc. by destruct (_ =? 0).
    + unfold thread_work. cbn. rewrite Hnil, Hz by done. destruct (_ =? 0); cbn; lia.
    + intros o. cbn [private_op_queue new_thread_info]. rewrite Hnil by done. lia.
  - accounts_goal. apply do_run_one_queue in Hr as (? & ? & ?). by eapply accounts_turn.
  - accounts_goal. apply resume_queue in Hr as (? & ? & ?). by eapply accounts_turn.
  - by eapply step_task_accounts.
  - by eapply step_task_cleanup_accounts.
  - by eapply step_post_accounts.
  - by eapply step_deferred_accounts.
  - by eapply step_handler_accounts.
  - accounts_goal. apply stop_queue in Hst as [Hw Hq].
    eapply accounts_move; [|exact Hi|done|by destruct ent|by destruct ent].
    eapply accounts_scheduler; [exact Ha|rewrite Hw, Hq; lia|rewrite Hq; by destruct Ha|intros; lia].
  - by eapply step_flush_accounts.
  - accounts_goal. eapply accounts_scheduler; [exact Ha| |by destruct Ha|].
    + cbn. rewrite length_app. lia.
    + intros o. rewrite !occurrences_app. lia.
  - accounts_goal. apply push_and_wake_queue in Hp as [Hw Hq]. apply Permutation_length in Hext as Hlen.
    rewrite length_app in Hlen. eapply accounts_scheduler; [exact Ha| | |].
    + rewrite Hw, Hq, length_app. lia.
    + rewrite Hq, app_assoc. by destruct Ha as [_ -> _ _].
    + intros o. rewrite (occurrences_perm o _ _ Hext), !occurrences_app. lia.
  - accounts_goal. unfold work_finished in Hw. injection Hw as <- _.
    apply Permutation_length in Hext as Hlen. cbn in Hlen.
    eapply accounts_scheduler; [exact Ha|cbn; lia|by destruct Ha|].
    intros o. rewrite (occurrences_perm o _ _ Hext), occurrences_app.
    change (op :: ext) with ([op] ++ ext). rewrite occurrences_app. lia.
  - accounts_goal. apply stop_queue in Hst as [Hw Hq].
    eapply accounts_scheduler; [exact Ha|rewrite Hw, Hq; lia|rewrite Hq; by destruct Ha|intros; lia].
  - accounts_goal. apply stop_queue in Hst as [Hw Hq].
    eapply accounts_scheduler; [exact Ha|rewrite Hw, Hq; lia|rewrite Hq; by destruct Ha|intros; lia].
  - accounts_goal. apply init_queue in Hin as [Hw Hq].
    eapply accounts_scheduler; [exact Ha|rewrite Hw, Hq; lia|rewrite Hq; by destruct Ha|intros; lia].
  - accounts_goal. by eapply accounts_move.
  - accounts_goal. done.
  - accounts_goal. by eapply accounts_move.
Qed.

Lemma new_system_accounts one n : system_accounts (new_system one n).
Proof.
  constructor; cbn [sched threads external posted queue_log run_log dropped new_system].
  - cbn. induction n as [|n IH]; cbn; [done|]. unfold thread_work at 1. cbn. lia.
  - done.
  - intros o. induction n as [|n IH]; cbn; [done|]. cbn in IH. lia.
  - apply Forall_replicate. by apply thread_ok_fresh.
Qed.

Lemma reachable_accounts one n σ : system_reachable one n σ -> system_accounts σ.
Proof.
  apply reachable_invariant.
  - intros ? ->. apply new_system_accounts.
  - intros. by eapply sstep_accounts.
Qed.

(** Nothing is left to do: no handler is queued or running, no thread holds a
    private operation, and no work has been started elsewhere. *)
Definition idle (σ : system) : Prop :=
  external σ = [] /\ queued (op_queue_ (sched σ)) = [] /\
  forall i p ti, threads σ !! i = Some (p, ti) -> taken p = [] /\ private_op_queue ti = [].

Lemma thread_work_nonneg t : thread_ok t -> 0 <= thread_work t.
Proof. unfold thread_ok, thread_work. lia. Qed.

Lemma accounts_idle σ : system_accounts σ -> (outstanding_work_ (sched σ) = 0 <-> idle σ).
Proof.
  intros [Hw _ _ Ht]. assert (Forall (fun t => 0 <= thread_work t) (threads σ)) as Hnn.
  { eapply Forall_impl; [exact Ht|]. apply thread_work_nonneg. }
  pose proof (sum_by_nonneg _ _ Hnn) as Hs. unfold idle. split.
  - intros Hz. assert (forall l : list operation, Z.of_nat (length l) = 0 -> l = []) as Hnil.
    { intros [|]; cbn; [done|lia]. }
    split; [apply Hnil; lia|]. split; [apply Hnil; lia|]. intros i p ti Hi.
    assert (thread_work (p, ti) = 0) as Hzero.
    { eapply sum_by_zero; [exact Hnn|lia|by eapply list_elem_of_lookup_2]. }
    destruct (Forall_lookup_1 _ _ _ _ Ht Hi) as (H1 & H2 & H3). unfold thread_work in Hzero. cbn in *.
    assert (taken p = []) as Htk by (apply Hnil; lia). split; [done|]. apply Hnil. rewrite (H3 Htk) in *.
    rewrite Htk in Hzero. cbn in Hzero. lia.
  - intros (He & Hq & Hth). rewrite Hw, He, Hq. cbn.
    assert (Forall (fun t => thread_work t = (fun _ => 0) t) (threads σ)) as Hz.
    { apply Forall_lookup. intros i [p ti] Hi. destruct (Hth i p ti Hi) as [Htk Hpq].
      destruct (Forall_lookup_1 _ _ _ _ Ht Hi) as (_ & _ & H3). cbn in H3.
      unfold thread_work. cbn. rewrite Htk, Hpq, (H3 Htk). done. }
    rewrite (sum_by_ext _ _ _ Hz). clear. induction (threads σ) as [|t l IH]; cbn in *; lia.
Qed.

(** [outstanding_work_] is exact. Under any interleaving of any number of
    threads running the event loop, of posts from inside and outside, completed
    I/O, stops and abandoned work, it counts the operations whose work has
    started and not ended: those still with their initiators, those queued, the
    running handlers and the private operations a running handler has not
    announced. It is zero exactly when nothing is left to do, so a thread that
    finds it zero, or takes it to zero, stops an event loop with no work. *)
Theorem scheduler_work_exact one n σ (Hreach : system_reachable one n σ) :
  outstanding_work_ (sched σ)
    = Z.of_nat (length (external σ)) + Z.of_nat (length (queued (op_queue_ (sched σ))))
      + sum_by thread_work (threads σ) /\
  (outstanding_work_ (sched σ) = 0 <-> idle σ) /\
  (forall i o ti s ti', threads σ !! i = Some (InHandler o, ti) ->
     work_cleanup_count (sched σ) ti = (s, ti', true) ->
     idle (after σ s [] (put i (Stopping false) ti' σ))).
Proof.
  pose proof (reachable_accounts _ _ _ Hreach) as Ha. split; [apply Ha|]. split; [by apply accounts_idle|].
  intros i o ti s ti' Hi Hc. pose proof (step_handler_accounts _ _ _ _ _ _ _ Ha Hi Hc) as Ha'.
  apply accounts_idle in Ha'. apply Ha'. rewrite after_eq. cbn [sched].
  destruct (accounts_at _ _ _ _ _ _ _ _ _ Ha Hi) as (Hr & _ & _). cbn in Hr.
  apply work_cleanup_spec in Hc as (_ & _ & _ & Hl); [auto|lia].
Qed.

(** Operations are run in the order in which they entered the queue, and
    no operation is lost or run twice: the handlers run are a prefix of those
    queued; if no operation is posted twice none is run twice; and when no work
    is outstanding every operation posted has been run, except those whose work
    was given up by their owners. *)
Theorem scheduler_runs_once one n σ (Hreach : system_reachable one n σ) :
  run_log σ ++ queued (op_queue_ (sched σ)) = queue_log σ /\
  (NoDup (posted σ) -> NoDup (run_log σ)) /\
  (forall o, o ∈ run_log σ -> o ∈ posted σ) /\
  (outstanding_work_ (sched σ) = 0 -> posted σ ≡ₚ run_log σ ++ dropped σ).
Proof.
  pose proof (reachable_accounts _ _ _ Hreach) as Ha. pose proof Ha as [_ Hf Ho _]. split; [done|].
  assert (forall o, occurrences o (run_log σ) <= occurrences o (posted σ)) as Hle.
  { intros o. specialize (Ho o). rewrite <- Hf, occurrences_app in Ho.
    pose proof (occurrences_nonneg o (external σ)). pose proof (occurrences_nonneg o (dropped σ)).
    pose proof (occurrences_nonneg o (queued (op_queue_ (sched σ)))).
    assert (0 <= sum_by (fun t => occurrences o (private_op_queue t.2)) (threads σ)); [|lia].
    apply sum_by_nonneg, Forall_forall. intros t _. apply occurrences_nonneg. }
  split; [|split].
  - rewrite !nodup_occurrences. intros Hnd o. specialize (Hle o). specialize (Hnd o). lia.
  - intros o Hin%occurrences_in. destruct (decide (o ∈ posted σ)) as [|Hn]; [done|].
    specialize (Hle o). rewrite (occurrences_not_in _ _ Hn) in Hle. lia.
  - intros Hz. apply accounts_idle in Hz as (He & Hq & Hth); [|done].
    apply occurrences_permutation. intros o. specialize (Ho o).
    rewrite He, occurrences_nil, <- Hf, Hq, app_nil_r in Ho. rewrite occurrences_app.
    assert (Forall (fun t => (fun t => occurrences o (private_op_queue t.2)) t = (fun _ => 0) t) (threads σ)) as H0.
    { apply Forall_lookup. intros i [p ti] Hi. destruct (Hth i p ti Hi) as [_ Hpq]. cbn. by rewrite Hpq. }
    rewrite (sum_by_ext _ _ _ H0) in Ho. clear H0.
    assert (sum_by (fun _ : pc * thread_info => 0) (threads σ) = 0) as H0.
    { clear. induction (threads σ) as [|t l IH]; cbn in *; lia. }
    lia.
Qed.

(** A run to the end: one thread runs the two operations posted, and stops. *)
Lemma finished_run : exists σ, system_reachable false 1 σ /\ outstanding_work_ (sched σ) = 0 /\
  run_log σ = [7; 8]%nat /\ posted σ = [7; 8]%nat /\ stopped_ (sched σ) = true.
Proof.
  eexists. split.
  { eapply reach_step. 1: eapply reach_step. 1: eapply reach_step. 1: eapply reach_step. 1: eapply reach_step.
    1: eapply reach_step. 1: eapply reach_step. 1: eapply reach_step. 1: eapply reach_step. 1: apply reach_init; reflexivity.
    - eapply (step_work_started _ [7; 8]%nat).
    - eapply (step_push _ [7; 8]%nat [] _ _); [reflexivity|done|reflexivity].
    - eapply (step_enter _ 0%nat new_thread_info); vm_compute; reflexivity.
    - eapply (step_loop _ 0%nat new_thread_info _ _ _); vm_compute; reflexivity.
    - eapply (step_handler_done _ 0%nat 7%nat new_thread_info _ _ _); vm_compute; reflexivity.
    - eapply (step_flush _ 0%nat new_thread_info _ _ _ _); vm_compute; reflexivity.
    - eapply (step_loop _ 0%nat new_thread_info _ _ _); vm_compute; reflexivity.
    - eapply (step_handler_done _ 0%nat 8%nat new_thread_info _ _ _); vm_compute; reflexivity.
    - eapply (step_thread_stop _ 0%nat new_thread_info _ _ _); vm_compute; reflexivity. }
  split_and!; vm_compute; reflexivity.
Qed.

Lemma scheduler_work_exact_witness : exists σ, system_reachable false 1 σ /\
  outstanding_work_ (sched σ) = 0 /\ idle σ.
Proof.
  destruct finished_run as (σ & Hr & Hz & _). exists σ. split; [exact Hr|]. split; [exact Hz|].
  by apply (proj1 (proj2 (scheduler_work_exact false 1 σ Hr))).
Defined.

Lemma scheduler_runs_once_witness : exists σ, system_reachable false 1 σ /\ run_log σ = [7; 8]%nat /\
  posted σ ≡ₚ run_log σ ++ dropped σ.
Proof.
  destruct finished_run as (σ & Hr & Hz & Hl & _). exists σ. split; [exact Hr|]. split; [exact Hl|].
  by apply (proj2 (proj2 (proj2 (scheduler_runs_once false 1 σ Hr)))).
Defined.
