(* ===== verification/SchedulerLiveness.v ===== *)
(** * SchedulerLiveness: no wake-up of the event loop is lost

    A thread of the event loop sleeps on the condition variable or blocks in the
    reactor only while the queue is empty and the scheduler runs. *)

From stdpp Require Import base list sets.
From Stdlib Require Import ZArith Lia.
From S2P Require Import Prelude Counting Scheduler SchedulerTheorems.
Local Open Scope Z_scope.

(** ** The event's state word *)

(** [w] waiters, and the bit. *)
Definition ev (w : Z) (b : bool) : Z := 2 * w + Z.b2z b.

Lemma ev_lor w b : Z.lor (ev w b) 1 = ev w true.
Proof.
  unfold ev. apply Z.bits_inj'. intros n Hn. rewrite Z.lor_spec.
  destruct (Z.eq_dec n 0) as [->|Hn0].
  - rewrite !Z.testbit_0_r. by rewrite orb_true_r.
  - assert (exists m, n = Z.succ m /\ 0 <= m) as (m & -> & Hm) by (exists (n - 1); lia).
    rewrite !Z.testbit_succ_r by lia. change 1 with (2 * 0 + Z.b2z true).
    by rewrite Z.testbit_succ_r, Z.bits_0, orb_false_r by lia.
Qed.

Lemma ev_land1 w b : Z.land (ev w b) 1 = Z.b2z b.
Proof.
  unfold ev. change 1 with (Z.ones 1). rewrite Z.land_ones by lia. change (2 ^ 1) with 2.
  rewrite Z.add_comm, Z.mul_comm, Z.mod_add by lia. by destruct b.
Qed.

Lemma ev_landn w b : Z.land (ev w b) (Z.lnot 1) = ev w false.
Proof.
  change (Z.land (ev w b) (Z.lnot 1)) with (Z.land (ev w b) (Z.lnot (Z.ones 1))).
  rewrite <- Z.ldiff_land, Z.ldiff_ones_r by lia. rewrite Z.shiftl_mul_pow2, Z.shiftr_div_pow2 by lia.
  unfold ev. change (2 ^ 1) with 2. rewrite Z.add_comm, (Z.mul_comm 2 w), Z.div_add by lia.
  assert (Z.b2z b / 2 = 0) as -> by (by destruct b). cbn [Z.b2z]. lia.
Qed.

Lemma ev_signalled_spec w b : ev_signalled (ev w b) = b.
Proof. unfold ev_signalled. rewrite ev_land1. by destruct b. Qed.

Lemma ev_waiters w : 0 <= w -> (1 <? ev w true) = (0 <? w).
Proof. unfold ev. cbn [Z.b2z]. intros. case_Z; lia. Qed.

(** ** Where threads are *)

Definition is_wait (p : pc) : Z := match p with Asleep | Notified => 1 | _ => 0 end.
Definition has_task (p : pc) : Z := match p with InTask _ _ | AfterTask => 1 | _ => 0 end.
Definition blocked (p : pc) : bool := match p with InTask true false => true | _ => false end.
Definition asleep (p : pc) : bool := match p with Asleep => true | _ => false end.
Definition in_run (p : pc) : bool := match p with Outside | Returned => false | _ => true end.

(** A thread that makes progress when the scheduler of the system runs it. *)
Definition active (b : bool) (p : pc) : bool :=
  match p with
  | Outside | Returned | Asleep | InTask true false => false
  | Notified => b
  | _ => true
  end.

Abbreviation thread := (pc * thread_info)%type.

Definition waiters (ts : list thread) : Z := sum_by (fun t => is_wait t.1) ts.
Definition task_holders (ts : list thread) : Z := sum_by (fun t => has_task t.1) ts.
Definition tasks_queued (q : list entry) : Z :=
  sum_by (fun e => match e with TaskOp => 1 | Handler _ => 0 end) q.

(** Some thread is in a given state. *)
Definition some_thread (f : pc -> bool) (ts : list thread) : Prop :=
  exists i p ti, ts !! i = Some (p, ti) /\ f p = true.

Record core (s : scheduler) (ts : list thread) (b : bool) : Prop := mkCore {
  co_event : event_state_ s = ev (waiters ts) b;
  co_task : tasks_queued (op_queue_ s) + task_holders ts = Z.b2z (task_ s);
  co_blocked : some_thread blocked ts -> task_interrupted_ s = false;
  co_stopped : stopped_ s = true -> b = true /\
    forall i p ti, ts !! i = Some (p, ti) -> in_run p = true -> active b p = true }.

Definition live (s : scheduler) (ts : list thread) (n : nat) (b : bool) : Prop :=
  stopped_ s = false -> op_queue_ s <> [] -> some_thread in_run ts ->
  some_thread (active b) ts \/ ((0 < n)%nat /\ b = true /\ some_thread asleep ts).

Definition awake (s : scheduler) (ts : list thread) (n : nat) : Prop :=
  exists b, core s ts b /\ live s ts n b.

(** ** Facts *)

Lemma waiters_nonneg ts : 0 <= waiters ts.
Proof. apply sum_by_nonneg, Forall_forall. intros [[] ?] _; cbn; lia. Qed.

Lemma holders_ge ts i p ti : ts !! i = Some (p, ti) -> has_task p <= task_holders ts.
Proof.
  intros Hi. apply (sum_by_ge (fun t : thread => has_task t.1) ts i (p, ti)); [|done].
  apply Forall_forall. intros [[] ?] _; cbn; lia.
Qed.

Lemma holders_nonneg ts : 0 <= task_holders ts.
Proof. apply sum_by_nonneg, Forall_forall. intros [[] ?] _; cbn; lia. Qed.

Lemma tasks_nonneg q : 0 <= tasks_queued q.
Proof. apply sum_by_nonneg, Forall_forall. intros [] _; lia. Qed.

Lemma some_put_self f (ts : list thread) i t p ti : ts !! i = Some t -> f p = true ->
  some_thread f (<[ i := (p, ti) ]> ts).
Proof.
  intros Hi Hf. exists i, p, ti. split; [|done]. apply list_lookup_insert_eq. by eapply lookup_lt_Some.
Qed.

(** A thread other than [i] stays where it is. *)
Lemma some_put_other f (ts : list thread) i p ti p' ti' : ts !! i = Some (p, ti) -> f p = false ->
  some_thread f ts -> some_thread f (<[ i := (p', ti') ]> ts).
Proof.
  intros Hi Hf (j & q & tj & Hj & Hq). exists j, q, tj. split; [|done].
  rewrite list_lookup_insert_ne; [done|]. intros ->. rewrite Hi in Hj. injection Hj as -> ->. congruence.
Qed.

Lemma some_put_inv f (ts : list thread) i p ti : some_thread f (<[ i := (p, ti) ]> ts) ->
  f p = true \/ exists j q tj, j <> i /\ ts !! j = Some (q, tj) /\ f q = true.
Proof.
  intros (j & q & tj & Hj & Hq). apply list_lookup_insert_Some in Hj as [(-> & H & _)|[Hne Hj]].
  - injection H as <- <-. by left.
  - right. exists j, q, tj. auto.
Qed.

Lemma lookup_signals (g : thread -> thread) (ts : list thread) i p ti : map g ts !! i = Some (p, ti) ->
  exists t, ts !! i = Some t /\ g t = (p, ti).
Proof.
  intros H. change (map g ts) with (g <$> ts) in H. rewrite list_lookup_fmap in H.
  destruct (ts !! i) as [t|]; [|done]. cbn in H. injection H as H. eauto.
Qed.

Lemma some_map (f : pc -> bool) (g : thread -> thread) (ts : list thread) : (forall t, f t.1 = true -> f (g t).1 = true) ->
  some_thread f ts -> some_thread f (map g ts).
Proof.
  intros Hg (i & p & ti & Hi & Hf). exists i, (g (p, ti)).1, (g (p, ti)).2. split.
  - change (map g ts) with (g <$> ts). rewrite list_lookup_fmap, Hi. cbn. by destruct (g (p, ti)).
  - by apply (Hg (p, ti)).
Qed.

(** One thread moves; [p] and [p'] hold the task as before and after. *)
Lemma core_put s ts b s' i p ti p' ti' b' :
  core s ts b -> ts !! i = Some (p, ti) ->
  event_state_ s' = ev (waiters ts - is_wait p + is_wait p') b' ->
  tasks_queued (op_queue_ s') + has_task p' - Z.b2z (task_ s')
    = tasks_queued (op_queue_ s) + has_task p - Z.b2z (task_ s) ->
  task_interrupted_ s' = task_interrupted_ s \/ has_task p + tasks_queued (op_queue_ s) = 1 ->
  (blocked p' = true -> task_interrupted_ s' = false) ->
  (stopped_ s' = true -> stopped_ s = true /\ b' = true /\ (in_run p' = true -> active b' p' = true)) ->
  core s' (<[ i := (p', ti') ]> ts) b'.
Proof.
  intros [He Ht Hb Hs] Hi Hev Htask Hint Hbl Hst. constructor.
  - unfold waiters. rewrite (sum_by_insert _ _ _ _ _ Hi). exact Hev.
  - unfold task_holders. rewrite (sum_by_insert _ _ _ _ _ Hi). cbn [fst].
    fold (task_holders ts). lia.
  - intros [Hp|(j & q & tj & Hne & Hj & Hq)]%some_put_inv; [auto|].
    destruct Hint as [->|Hone]; [apply Hb; by exists j, q, tj|]. exfalso.
    assert (has_task q = 1) as Hq1 by (destruct q as [| | | |[] []| | | | |]; done).
    assert (has_task p + has_task q <= task_holders ts) as H2.
    { pose proof (holders_ge (<[ i := (Outside, ti) ]> ts) j q tj) as H.
      rewrite list_lookup_insert_ne in H by done. specialize (H Hj).
      unfold task_holders in H at 1. rewrite (sum_by_insert _ _ _ _ _ Hi) in H. cbn in H.
      unfold task_holders. lia. }
    pose proof (tasks_nonneg (op_queue_ s)). destruct (task_ s); cbn in *; lia.
  - intros Hs'. destruct (Hst Hs') as (Hs0 & Hb' & Hp'). split; [done|].
    intros j q tj [(-> & H & _)|[Hne Hj]]%list_lookup_insert_Some Hrun.
    + injection H as <- <-. auto.
    + destruct (Hs Hs0) as [-> Hall]. subst b'. by eapply Hall.
Qed.

(** The scheduler changes nothing the threads depend on. *)
Lemma core_scheduler s ts b s' : core s ts b ->
  event_state_ s' = event_state_ s -> task_ s' = task_ s -> task_interrupted_ s' = task_interrupted_ s ->
  stopped_ s' = stopped_ s -> tasks_queued (op_queue_ s') = tasks_queued (op_queue_ s) -> core s' ts b.
Proof. intros [] He Ht Hi Hs Hq. constructor; rewrite ?He, ?Ht, ?Hi, ?Hs, ?Hq; auto. Qed.

Lemma tasks_app q1 q2 : tasks_queued (q1 ++ q2) = tasks_queued q1 + tasks_queued q2.
Proof. apply sum_by_app. Qed.

Lemma tasks_handlers ops : tasks_queued (map Handler ops) = 0.
Proof. induction ops as [|o ops IH]; [done|]. exact IH. Qed.

(** ** What signals do *)

Lemma sum_map_thread (f : pc -> Z) (g : thread -> thread) (ts : list thread) :
  (forall t, f (g t).1 = f t.1) -> sum_by (fun t => f t.1) (map g ts) = sum_by (fun t => f t.1) ts.
Proof.
  intros H. rewrite (sum_by_map g). apply sum_by_ext, Forall_forall. intros; apply H.
Qed.

Lemma core_map s ts b s' (g : thread -> thread) : core s ts b ->
  (forall t, is_wait (g t).1 = is_wait t.1) -> (forall t, has_task (g t).1 = has_task t.1) ->
  (forall t, blocked (g t).1 = true -> blocked t.1 = true /\ task_interrupted_ s' = task_interrupted_ s) ->
  (forall t, in_run (g t).1 = true -> active b t.1 = true -> active b (g t).1 = true) ->
  (forall t, in_run (g t).1 = in_run t.1) ->
  event_state_ s' = event_state_ s -> task_ s' = task_ s ->
  stopped_ s' = stopped_ s -> op_queue_ s' = op_queue_ s -> core s' (map g ts) b.
Proof.
  intros [He Ht Hb Hs] Hw Hh Hbl Hact Hrun Hev Htk Hst Hq. constructor.
  - unfold waiters. rewrite Hev. by rewrite (sum_map_thread is_wait).
  - unfold task_holders. by rewrite (sum_map_thread has_task), Hq, Htk.
  - intros (i & p & ti & Hi & Hp). apply lookup_signals in Hi as (t & Hi & Hg).
    specialize (Hbl t). rewrite Hg in Hbl. destruct (Hbl Hp) as [Hbt ->]. apply Hb.
    exists i, t.1, t.2. by destruct t.
  - rewrite Hst. intros Hs'. destruct (Hs Hs') as [-> Hall]. split; [done|].
    intros i p ti Hi Hin. apply lookup_signals in Hi as ([q tq] & Hi & Hg).
    specialize (Hact (q, tq)). specialize (Hrun (q, tq)). rewrite Hg in Hact, Hrun. cbn in *.
    apply Hact; [done|]. eapply Hall; [done|congruence].
Qed.

Lemma core_interrupt s ts b s' : core s ts b ->
  event_state_ s' = event_state_ s -> task_ s' = task_ s -> stopped_ s' = stopped_ s ->
  op_queue_ s' = op_queue_ s -> core s' (map interrupt_thread ts) b.
Proof.
  intros Hc. eapply core_map; [exact Hc|..]; intros; try done;
    destruct t as [p ti]; destruct p as [| | | |[] []| | | | |]; done.
Qed.

(** [state_ |= 1] *)
Lemma core_set_bit s ts b : core s ts b -> core (set_event (ev (waiters ts) true) s) ts true.
Proof.
  intros [He Ht Hb Hs]. constructor; cbn; auto. intros H. destruct (Hs H) as [-> ?]. auto.
Qed.

Lemma active_mono b p : active b p = true -> active true p = true.
Proof. by destruct p. Qed.

(** After a wake-up somebody in the event loop is awake, or a sleeper is about
    to be. *)
Lemma wake_awake s ts n s' sgs b : core s ts b -> wake_one_thread_and_unlock s = (s', sgs) ->
  core s' (apply_signals sgs ts n).1 true /\
  (some_thread in_run ts ->
   some_thread (active true) (apply_signals sgs ts n).1 \/
   ((0 < (apply_signals sgs ts n).2)%nat /\ some_thread asleep (apply_signals sgs ts n).1)).
Proof.
  intros Hc. pose proof Hc as [He _ Hb _]. unfold wake_one_thread_and_unlock, maybe_unlock_and_signal_one, ev_set.
  rewrite He, ev_lor, ev_waiters by apply waiters_nonneg. pose proof (core_set_bit _ _ _ Hc) as Hc'.
  destruct (0 <? waiters ts) eqn:Hw.
  - intros [= <- <-]. cbn. split; [done|]. intros _. apply Z.ltb_lt in Hw.
    destruct (decide (Exists (fun t : thread => asleep t.1 = true) ts)) as [Ha|Hna].
    + right. split; [lia|]. apply Exists_exists in Ha as ([p ti] & [i Hi]%list_elem_of_lookup & Hp). by exists i, p, ti.
    + left. destruct (decide (Exists (fun t : thread => is_wait t.1 = 1) ts)) as [Hx|Hnx].
      * apply Exists_exists in Hx as ([p ti] & [i Hi]%list_elem_of_lookup & Hp). exists i, p, ti. split; [done|].
        destruct p; try done. exfalso. apply Hna, Exists_exists. exists (Asleep, ti).
        split; [by eapply list_elem_of_lookup_2|done].
      * exfalso. apply Forall_Exists_neg in Hnx.
        assert (sum_by (fun t : thread => is_wait t.1) ts = sum_by (fun _ => 0) ts) as H0.
        { apply sum_by_ext. eapply Forall_impl; [exact Hnx|]. intros [[] ?]; cbn; lia. }
        unfold waiters in Hw. rewrite H0 in Hw. clear -Hw. induction ts; cbn in *; lia.
  - apply Z.ltb_ge in Hw. cbn [set_event task_interrupted_ task_].
    assert (forall i p ti, ts !! i = Some (p, ti) -> is_wait p = 0) as Hnw.
    { intros i p ti Hi. pose proof (sum_by_ge (fun t : thread => is_wait t.1) ts i (p, ti)) as H.
      cbn in H. unfold waiters in Hw. enough (is_wait p <= sum_by (fun t : thread => is_wait t.1) ts) by (destruct p; cbn in *; lia).
      apply H; [|done]. apply Forall_forall. intros [[] ?] _; cbn; lia. }
    assert (forall i p ti, ts !! i = Some (p, ti) -> in_run p = true -> active true p = true \/ blocked p = true) as Hor.
    { intros i p ti Hi Hr. specialize (Hnw i p ti Hi). destruct p as [| | | |[] []| | | | |]; cbn in *; auto; lia. }
    destruct (negb (task_interrupted_ s) && task_ s) eqn:Hint.
    + intros [= <- <-]. cbn. split; [by eapply core_interrupt|]. intros (i & p & ti & Hi & Hr). left.
      exists i, (interrupt_thread (p, ti)).1, (interrupt_thread (p, ti)).2. split.
      * change (map interrupt_thread ts) with (interrupt_thread <$> ts).
        rewrite list_lookup_fmap, Hi. cbn. by destruct p.
      * destruct (Hor i p ti Hi Hr) as [Ha|Hbl]; destruct p as [| | | |[] []| | | | |]; done.
    + intros [= <- <-]. cbn. split; [done|]. intros (i & p & ti & Hi & Hr). left. exists i, p, ti. split; [done|].
      destruct (Hor i p ti Hi Hr) as [Ha|Hbl]; [done|]. exfalso.
      assert (some_thread blocked ts) as Hsb by (by exists i, p, ti). rewrite (Hb Hsb) in Hint.
      destruct (task_ s) eqn:Htk; [done|]. destruct Hc as [_ Htask _ _]. rewrite Htk in Htask. cbn in Htask.
      pose proof (holders_ge ts i p ti Hi). pose proof (tasks_nonneg (op_queue_ s)).
      assert (has_task p = 1) by (by destruct p as [| | | |[] []| | | | |]). lia.
Qed.

(** A blocked thread has the task, and nobody has interrupted it. *)
Lemma blocked_task s ts b : core s ts b -> some_thread blocked ts ->
  task_interrupted_ s = false /\ task_ s = true.
Proof.
  intros [_ Ht Hb _] Hs. split; [auto|]. destruct Hs as (i & p & ti & Hi & Hp).
  pose proof (holders_ge ts i p ti Hi). pose proof (tasks_nonneg (op_queue_ s)).
  assert (has_task p = 1) by (by destruct p as [| | | |[] []| | | | |]).
  destruct (task_ s); [done|]. cbn in Ht. lia.
Qed.

(** After a stop every thread in the event loop is awake. *)
Lemma stop_awake s ts n s' sgs b : core s ts b -> stop s = (s', sgs) ->
  core s' (apply_signals sgs ts n).1 true /\ stopped_ s' = true.
Proof.
  intros Hc. pose proof Hc as [He Ht _ _]. unfold stop, stop_all_threads. cbn [signal_all]. unfold ev_set.
  cbn [set_stopped event_state_]. rewrite He, ev_lor. cbn [set_event set_stopped task_interrupted_ task_].
  intros H. assert (forall g, g = broadcast_thread \/ g = (fun t => interrupt_thread (broadcast_thread t)) ->
    event_state_ s' = ev (waiters ts) true -> task_ s' = task_ s -> op_queue_ s' = op_queue_ s ->
    ~ some_thread blocked (map g ts) -> core s' (map g ts) true) as Hcore.
  { intros g Hg Hev Htk Hq Hnb. constructor.
    - rewrite Hev. unfold waiters. by rewrite (sum_map_thread is_wait) by (intros [[] ?]; by destruct Hg as [->| ->]).
    - rewrite Hq, Htk. unfold task_holders.
      by rewrite (sum_map_thread has_task) by (intros [[] ?]; by destruct Hg as [->| ->]).
    - done.
    - intros _. split; [done|]. intros i p ti Hi Hr.
      destruct (blocked p) eqn:Hbl; [exfalso; apply Hnb; by exists i, p, ti|].
      apply lookup_signals in Hi as ([q tq] & _ & Hgq).
      destruct Hg as [-> | ->]; destruct q as [| | | |[] []| | | | |]; injection Hgq as <- <-; done. }
  destruct (negb (task_interrupted_ s) && task_ s) eqn:Hint; injection H as <- <-; cbn; split; try done.
  - change (map interrupt_thread (map broadcast_thread ts)) with
      (interrupt_thread <$> (broadcast_thread <$> ts)). rewrite <- list_fmap_compose.
    apply (Hcore (fun t => interrupt_thread (broadcast_thread t))); [by right|done|done|done|].
    intros (i & p & ti & Hi & Hp). apply lookup_signals in Hi as ([q tq] & _ & Hgq).
    destruct q as [| | | |[] []| | | | |]; injection Hgq as <- <-; done.
  - apply (Hcore broadcast_thread); [by left|done|done|done|].
    intros (i & p & ti & Hi & Hp). apply lookup_signals in Hi as ([q tq] & Hi & Hgq).
    destruct (blocked_task s ts b Hc) as [H1 H2]; [|by rewrite H1, H2 in Hint].
    exists i, q, tq. split; [done|]. destruct q as [| | | |[] []| | | | |]; injection Hgq as <- <-; done.
Qed.

(** ** Turns of the loop *)

Lemma live_active s ts n b i p ti : ts !! i = Some (p, ti) -> active b p = true -> live s ts n b.
Proof. intros Hi Ha _ _ _. left. by exists i, p, ti. Qed.

Lemma live_empty s ts n b : op_queue_ s = [] -> live s ts n b.
Proof. by intros ? ? ?. Qed.

Lemma live_stopped s ts n b : stopped_ s = true -> live s ts n b.
Proof. intros H H'. congruence. Qed.

Lemma lookup_put_self (ts : list thread) i t x : ts !! i = Some t -> <[ i := x ]> ts !! i = Some x.
Proof. intros Hi. apply list_lookup_insert_eq. by eapply lookup_lt_Some. Qed.

(** A thread at the loop test takes a turn. *)
Lemma turn_awake s ts n b i ti ti' s' sgs p : core s ts b -> ts !! i = Some (AtLoop, ti) ->
  do_run_one s = (s', sgs, p) ->
  awake s' (apply_signals sgs (<[ i := (p, ti') ]> ts) n).1 (apply_signals sgs (<[ i := (p, ti') ]> ts) n).2.
Proof.
  intros Hc Hi. pose proof Hc as [He Ht Hb Hst]. pose proof (lookup_put_self ts i _ (p, ti') Hi) as Hself.
  unfold do_run_one. destruct (stopped_ s) eqn:Hs.
  { intros [= <- <- <-]. exists b. cbn. split; [|by apply live_stopped].
    eapply core_put; [exact Hc|done| |done|by left|done|].
    - rewrite He. cbn. f_equal. lia.
    - intros _. split; [done|]. destruct (Hst eq_refl) as [-> _]. done. }
  destruct (op_queue_ s) as [|[|o] rest] eqn:Hq.
  - intros [= <- <- <-]. exists false. cbn. split; [|by apply live_empty].
    eapply core_put; [exact Hc|done| |cbn; rewrite Hq; cbn; lia|by left|done|cbn; congruence].
    cbn. unfold ev_begin_wait, ev_clear. rewrite He, ev_landn. unfold ev. cbn. lia.
  - assert (task_ s = true) as Htk.
    { destruct (task_ s); [done|]. cbn in Ht. pose proof (holders_nonneg ts).
      pose proof (tasks_nonneg rest). unfold tasks_queued in *. lia. }
    assert (tasks_queued rest = 0) as Hr0.
    { rewrite Htk in Ht. cbn in Ht. pose proof (holders_nonneg ts). pose proof (tasks_nonneg rest).
      unfold tasks_queued in *. lia. }
    assert (has_task AtLoop + tasks_queued (op_queue_ s) = 1) as Hone by (rewrite Hq; cbn; unfold tasks_queued in Hr0; lia).
    cbn [set_queue set_interrupted event_state_ one_thread_]. destruct rest as [|e rest].
    + cbn [negb andb]. intros [= <- <- <-]. exists b. cbn. split; [|by apply live_empty].
      eapply core_put; [exact Hc|done| |cbn; rewrite Hq; cbn; lia|by right|done|cbn; congruence].
      cbn. rewrite He. f_equal. lia.
    + cbn [negb andb]. destruct (negb (one_thread_ s)).
      * unfold unlock_and_signal_one, ev_set. rewrite He, ev_lor. intros [= <- <- <-]. exists true.
        assert (core (set_event (ev (waiters ts) true) (set_interrupted true (set_queue (e :: rest) s)))
          (<[ i := (InTask false false, ti') ]> ts) true) as Hcore.
        { eapply core_put; [exact Hc|done| |cbn; rewrite Hq; cbn; lia|by right|done|cbn; congruence].
          cbn. f_equal. lia. }
        destruct (1 <? _); cbn; (split; [exact Hcore|by eapply live_active]).
      * intros [= <- <- <-]. exists b. cbn. split; [|by eapply live_active].
        eapply core_put; [exact Hc|done| |cbn; rewrite Hq; cbn; lia|by right|done|cbn; congruence].
        cbn. rewrite He. f_equal. lia.
  - cbn [set_queue one_thread_].
    assert (core (set_queue rest s) (<[ i := (InHandler o, ti') ]> ts) b) as Hcore.
    { eapply core_put; [exact Hc|done| |cbn; rewrite Hq; cbn; lia|by left|done|cbn; congruence].
      cbn. rewrite He. f_equal. lia. }
    destruct (_ && _).
    + destruct (wake_one_thread_and_unlock _) as [s1 sg1] eqn:Hw. intros [= <- <- <-].
      destruct (wake_awake _ _ n _ _ _ Hcore Hw) as [Hc1 _]. exists true. split; [exact Hc1|].
      unfold wake_one_thread_and_unlock, maybe_unlock_and_signal_one in Hw.
      destruct (1 <? _); [|destruct (_ && _)]; injection Hw as <- <-; cbn [apply_signals fold_left apply_signal fst snd].
      * by eapply live_active.
      * eapply (live_active _ _ _ _ i (InHandler o) ti'); [|done].
        change (map interrupt_thread ?l) with (interrupt_thread <$> l). by rewrite list_lookup_fmap, Hself.
      * by eapply live_active.
    + intros [= <- <- <-]. exists b. split; [exact Hcore|]. by eapply live_active.
Qed.

(** The same for a thread [i] that is at the loop test by now. *)
Lemma turn_awake_at s ts n b i t ti ti' s' sgs p : ts !! i = Some t -> core s (<[ i := (AtLoop, ti) ]> ts) b ->
  do_run_one s = (s', sgs, p) ->
  awake s' (apply_signals sgs (<[ i := (p, ti') ]> ts) n).1 (apply_signals sgs (<[ i := (p, ti') ]> ts) n).2.
Proof.
  intros Hi Hc Hr. pose proof (turn_awake s _ n b i ti ti' s' sgs p Hc) as H.
  rewrite list_insert_insert_eq in H. apply H; [by eapply lookup_put_self|done].
Qed.

Definition system_awake (σ : system) : Prop := awake (sched σ) (threads σ) (pending_signals σ).

Ltac awake_goal :=
  unfold system_awake, log_run, log_queue, set_external, log_posted, log_dropped, set_stops, set_signals;
  rewrite ?after_eq;
  cbn [sched threads pending_signals pending_stops external posted queue_log run_log dropped].

(** A thread goes on, awake, and nothing else changes. *)
Lemma move_awake s ts n s' i p ti p' ti' : awake s ts n -> ts !! i = Some (p, ti) ->
  event_state_ s' = event_state_ s -> task_ s' = task_ s -> task_interrupted_ s' = task_interrupted_ s ->
  stopped_ s' = stopped_ s -> tasks_queued (op_queue_ s') = tasks_queued (op_queue_ s) ->
  is_wait p = 0 -> is_wait p' = 0 -> has_task p' = has_task p -> (forall b, active b p' = true) ->
  awake s' (<[ i := (p', ti') ]> ts) n.
Proof.
  intros (b & Hc & _) Hi He Htk Hint Hst Hq Hw Hw' Hh Ha. exists b. split.
  - eapply core_put; [exact Hc|exact Hi| | | | |].
    + rewrite He, Hw, Hw'. destruct Hc as [-> _ _ _]. f_equal. lia.
    + rewrite Hq, Htk, Hh. lia.
    + by left.
    + intros Hb. specialize (Ha b). by destruct p' as [| | | |[] []| | | | |].
    + rewrite Hst. intros Hs. destruct Hc as [_ _ _ Hc]. destruct (Hc Hs) as [-> _]. auto.
  - eapply live_active; [by eapply lookup_put_self|done].
Qed.

Lemma resume_awake s ts n i ti s' sgs p : awake s ts n -> ts !! i = Some (Notified, ti) ->
  resume_wait s = (s', sgs, p) ->
  awake s' (apply_signals sgs (<[ i := (p, ti) ]> ts) n).1 (apply_signals sgs (<[ i := (p, ti) ]> ts) n).2.
Proof.
  intros (b & Hc & Hl) Hi. pose proof Hc as [He _ _ Hst]. unfold resume_wait, ev_end_wait, ev_begin_wait.
  cbn [set_event event_state_]. rewrite He.
  assert (ev (waiters ts) b - 2 = ev (waiters ts - 1) b) as -> by (unfold ev; lia).
  rewrite ev_signalled_spec. destruct b.
  - intros Hr. eapply (turn_awake_at _ _ n true i _ ti); [exact Hi| |exact Hr].
    eapply core_put; [exact Hc|done|cbn; f_equal; lia|done|by left|done|].
    intros Hs. by destruct (Hst Hs).
  - intros [= <- <- <-]. exists false. cbn. split.
    + eapply core_put; [exact Hc|done|cbn; unfold ev; lia|done|by left|done|].
      cbn. intros Hs. by destruct (Hst Hs).
    + intros Hs Hq Hrun. left. destruct (Hl Hs Hq) as [Ha|(_ & H & _)]; [by exists i, Notified, ti| |done].
      by eapply some_put_other.
Qed.

Lemma task_cleanup_awake s ts n i ti s1 ti1 s' sgs p : awake s ts n -> ts !! i = Some (AfterTask, ti) ->
  task_cleanup s ti = (s1, ti1) -> do_run_one s1 = (s', sgs, p) ->
  awake s' (apply_signals sgs (<[ i := (p, ti1) ]> ts) n).1 (apply_signals sgs (<[ i := (p, ti1) ]> ts) n).2.
Proof.
  intros (b & Hc & _) Hi Hcl Hr. pose proof Hc as [He Ht _ Hst]. eapply (turn_awake_at _ _ n b i _ ti); [exact Hi| |exact Hr].
  pose proof (holders_ge ts i _ _ Hi) as Hone. cbn in Hone. pose proof (tasks_nonneg (op_queue_ s)).
  assert (tasks_queued (op_queue_ s) = 0) as H0 by (destruct (task_ s); cbn in Ht; lia).
  unfold task_cleanup in Hcl. injection Hcl as <- <-.
  eapply core_put; [exact Hc|exact Hi| | | | |].
  - destruct (0 <? _); cbn; rewrite He; f_equal; lia.
  - cbn [set_queue op_queue_ task_ set_interrupted]. rewrite !tasks_app, tasks_handlers.
    change (tasks_queued [TaskOp]) with 1. destruct (0 <? _); cbn [set_work op_queue_ task_ has_task]; lia.
  - right. cbn. lia.
  - done.
  - destruct (0 <? _); cbn; intros Hs; by destruct (Hst Hs).
Qed.

Lemma sleeper_awake s ts n n' i ti : awake s ts n -> ts !! i = Some (Asleep, ti) ->
  awake s (<[ i := (Notified, ti) ]> ts) n'.
Proof.
  intros (b & Hc & Hl) Hi. pose proof Hc as [He _ _ Hst]. exists b. split.
  - eapply core_put; [exact Hc|exact Hi|cbn; rewrite He; f_equal; lia|done|by left|done|].
    intros Hs. destruct (Hst Hs) as [-> Hall]. split_and!; auto.
  - intros Hs Hq Hrun. left. destruct (Hl Hs Hq) as [Ha|(_ & -> & _)].
    + by exists i, Asleep, ti.
    + by eapply some_put_other.
    + by eapply some_put_self.
Qed.

Lemma push_awake s ts n s' sgs b : core s ts b -> wake_one_thread_and_unlock s = (s', sgs) ->
  awake s' (apply_signals sgs ts n).1 (apply_signals sgs ts n).2.
Proof.
  intros Hc Hw. destruct (wake_awake _ _ n _ _ _ Hc Hw) as [Hc' Hl]. exists true. split; [done|].
  intros _ _ Hrun.
  assert (some_thread in_run ts) as Hrun'.
  { revert Hrun. unfold wake_one_thread_and_unlock, maybe_unlock_and_signal_one in Hw.
    destruct (1 <? _); [|destruct (_ && _)]; injection Hw as _ <-; cbn; [done| |done].
    intros (i & p & ti & Hi & Hp). apply lookup_signals in Hi as ([q tq] & Hi & Hg).
    exists i, q, tq. split; [done|]. by destruct q; injection Hg as <- <-. }
  destruct (Hl Hrun') as [H|[H1 H2]]; auto.
Qed.

(** [stop] called by thread [i], which leaves the loop or goes on. *)
Lemma stopping_awake σ i ti (ent : bool) s sgs b : core (sched σ) (threads σ) b ->
  threads σ !! i = Some (Stopping ent, ti) -> stop (sched σ) = (s, sgs) ->
  let ts := put i (if ent then Returned else Flushing) ti σ in
  awake s (apply_signals sgs ts (pending_signals σ)).1 (apply_signals sgs ts (pending_signals σ)).2.
Proof.
  intros Hc Hi Hst.
  destruct (stop_awake (sched σ) (put i (if ent then Returned else Flushing) ti σ) (pending_signals σ) s sgs b) as [Hc' Hs']; [|done|].
  - pose proof Hc as [He _ _ Hstop]. eapply core_put; [exact Hc|exact Hi| | |by left|by destruct ent|].
    + rewrite He. destruct ent; cbn; f_equal; lia.
    + destruct ent; cbn; lia.
    + intros Hs. destruct (Hstop Hs) as [-> _]. by destruct ent.
  - exists true. split; [done|]. by apply live_stopped.
Qed.

(** The second half of [work_cleanup]. *)
Lemma flush_awake σ i ti s sgs p ti' b : core (sched σ) (threads σ) b -> system_awake σ ->
  threads σ !! i = Some (Flushing, ti) -> work_cleanup_push (sched σ) ti = (s, sgs, p, ti') ->
  awake s (apply_signals sgs (put i p ti' σ) (pending_signals σ)).1
    (apply_signals sgs (put i p ti' σ) (pending_signals σ)).2.
Proof.
  intros Hc Ha Hi Hcl. unfold work_cleanup_push in Hcl. destruct (private_op_queue ti) as [|o ops].
  - injection Hcl as <- <- <- <-. by eapply move_awake.
  - destruct (do_run_one _) as [[s1 sg1] p1] eqn:Hr. injection Hcl as <- <- <- <-.
    eapply (turn_awake_at _ _ _ b i _ ti); [exact Hi| |exact Hr].
    pose proof Hc as [He _ _ Hst]. eapply core_put; [exact Hc|exact Hi| | |by left|done|].
    + cbn. rewrite He. f_equal. lia.
    + cbn [set_queue op_queue_ task_]. rewrite tasks_app. change (Handler o :: map Handler ops) with (map Handler (o :: ops)).
      rewrite tasks_handlers. cbn. lia.
    + cbn. intros Hs. by destruct (Hst Hs) as [-> _].
Qed.

Lemma sstep_awake σ σ' : system_awake σ -> sstep σ σ' -> system_awake σ'.
Proof.
  intros Ha Hs. pose proof Ha as (b & Hc & Hl). destruct Hs as
    [i ti p Hi ->|i ti s sgs p Hi Hr|i ti s sgs p Hi Hr|i ti bl intr ops ext Hi Hext
    |i ti s ti' s' sgs p Hi Hcl Hr|i o ti op cont ti' s sgs Hi Hone Hp|i o ti ops ext ti' s sgs Hi Ho Hext Hp
    |i o ti s ti' last Hi Hcl|i ti ent s sgs Hi Hst|i ti s sgs p ti' Hi Hcl|ops|ops ext s sgs Hext Hne Hp
    |op ext s last Hext Hw|n s sgs Hn Hst|s sgs Hst|s sgs Hin|i ti n Hn Hi|n Hn Hno|i ti Hi]; awake_goal.
  - unfold run_entry. eapply move_awake; try done; by destruct (_ =? 0).
  - by eapply turn_awake.
  - by eapply resume_awake.
  - exists b. cbn. split; [|eapply live_active; [by eapply lookup_put_self|done]].
    pose proof Hc as [He _ _ Hst]. eapply core_put; [exact Hc|exact Hi| |done|by left|done|].
    + rewrite He. cbn. f_equal. lia.
    + intros Hs. by destruct (Hst Hs) as [-> _].
  - by eapply task_cleanup_awake.
  - unfold post_immediate_completion in Hp. rewrite Hone in Hp. injection Hp as <- <- <-.
    by eapply move_awake.
  - assert (s = sched σ /\ sgs = []) as [-> ->].
    { unfold post_deferred_completions in Hp. rewrite Ho in Hp. by destruct ops; injection Hp as _ <- <-. }
    by eapply move_awake.
  - assert (exists w, s = set_work w (sched σ)) as [w ->].
    { unfold work_cleanup_count, work_finished in Hcl. destruct (1 <? _); [|destruct (_ <? 1)];
        injection Hcl as <- _ _; [eauto..|]. exists (outstanding_work_ (sched σ)). by destruct (sched σ). }
    eapply move_awake; try done; by destruct last.
  - by eapply stopping_awake.
  - by eapply flush_awake.
  - exists b. cbn. split; [by eapply core_scheduler|done].
  - eapply push_awake; [|exact Hp]. eapply (core_scheduler _ _ _ _ Hc); try done.
    cbn. rewrite tasks_app, tasks_handlers. lia.
  - unfold work_finished in Hw. injection Hw as <- _. exists b. cbn. split; [by eapply core_scheduler|done].
  - destruct (stop_awake _ _ (pending_signals σ) _ _ _ Hc Hst) as [Hc' Hs']. exists true. split; [done|]. by apply live_stopped.
  - destruct (stop_awake _ _ (pending_signals σ) _ _ _ Hc Hst) as [Hc' Hs']. exists true. split; [done|]. by apply live_stopped.
  - unfold init_task in Hin. destruct (negb (shutdown_ (sched σ)) && negb (task_ (sched σ))) eqn:Hi.
    + eapply push_awake; [|exact Hin]. apply andb_true_iff in Hi as [_ Htk%negb_true_iff].
      pose proof Hc as [He Ht Hb Hst]. rewrite Htk in Ht. constructor; cbn; try done.
      rewrite tasks_app. cbn in *. lia.
    + injection Hin as <- <-. by exists b.
  - by eapply sleeper_awake.
  - exists b. cbn. split; [done|]. intros Hs Hq Hrun. destruct (Hl Hs Hq Hrun) as [H|(_ & _ & H)]; [by left|].
    exfalso. destruct H as (i & p & ti & Hi & Hp). destruct p; try done. by apply (Hno i ti).
  - by eapply sleeper_awake.
Qed.

Lemma new_system_awake one n : system_awake (new_system one n).
Proof.
  exists false. split; [|by apply live_empty].
  assert (forall f : pc -> bool, f Outside = false -> ~ some_thread f (replicate n (Outside, new_thread_info))) as Hno.
  { intros f Hf (i & p & ti & Hi & Hp). apply lookup_replicate in Hi as [Hi _]. injection Hi as -> _. congruence. }
  constructor; cbn [sched threads new_system new_scheduler event_state_ op_queue_ task_ task_interrupted_ stopped_].
  - unfold waiters, ev. induction n as [|n IH]; cbn in *; [done|]. apply IH. clear.
    intros f Hf (i & p & ti & Hi & Hp). apply lookup_replicate in Hi as [Hi _]. injection Hi as -> _. congruence.
  - unfold task_holders, tasks_queued. clear. induction n as [|n IH]; cbn in *; [done|]. exact IH.
  - intros H. by apply Hno in H.
  - done.
Qed.

Lemma reachable_awake one n σ : system_reachable one n σ -> system_awake σ.
Proof.
  apply reachable_invariant.
  - intros ? ->. apply new_system_awake.
  - intros. by eapply sstep_awake.
Qed.

(** C30: no wake-up of the event loop is lost. Once the scheduler is stopped no
    thread of the event loop sleeps or blocks in the reactor uninterrupted. As
    long as it is not, and something is queued while threads are in the event
    loop, one of them is awake (and if it was just woken it will find the event
    set and not sleep again), or one sleeps and a signal for it is on its way. *)
Theorem scheduler_no_lost_wakeup one n σ (Hreach : system_reachable one n σ) :
  (stopped_ (sched σ) = true -> forall i p ti, threads σ !! i = Some (p, ti) -> in_run p = true ->
     active (ev_signalled (event_state_ (sched σ))) p = true) /\
  (stopped_ (sched σ) = false -> op_queue_ (sched σ) <> [] -> some_thread in_run (threads σ) ->
     some_thread (active (ev_signalled (event_state_ (sched σ)))) (threads σ) \/
     ((0 < pending_signals σ)%nat /\ ev_signalled (event_state_ (sched σ)) = true /\
      some_thread asleep (threads σ))).
Proof.
  destruct (reachable_awake _ _ _ Hreach) as (b & [He _ _ Hs] & Hl). rewrite He, ev_signalled_spec.
  split; [|exact Hl]. intros Hst. by destruct (Hs Hst) as [-> ?].
Qed.

(** A run in which a thread sleeps when an operation arrives. *)
Lemma sleeping_run : exists σ, system_reachable false 1 σ /\ stopped_ (sched σ) = false /\
  op_queue_ (sched σ) = [Handler 7] /\ threads σ = [(Asleep, new_thread_info)] /\
  outstanding_work_ (sched σ) = 1 /\ pending_signals σ = 1%nat.
Proof.
  eexists. split.
  { eapply reach_step. 1: eapply reach_step. 1: eapply reach_step. 1: eapply reach_step. 1: apply reach_init; reflexivity.
    - eapply (step_work_started _ [7%nat]).
    - eapply (step_enter _ 0%nat new_thread_info); vm_compute; reflexivity.
    - eapply (step_loop _ 0%nat new_thread_info _ _ _); vm_compute; reflexivity.
    - eapply (step_push _ [7%nat] [] _ _); [reflexivity|done|reflexivity]. }
  split_and!; vm_compute; reflexivity.
Qed.

Lemma scheduler_no_lost_wakeup_witness : exists σ, system_reachable false 1 σ /\
  op_queue_ (sched σ) = [Handler 7] /\
  (some_thread (active (ev_signalled (event_state_ (sched σ)))) (threads σ) \/
   ((0 < pending_signals σ)%nat /\ ev_signalled (event_state_ (sched σ)) = true /\
    some_thread asleep (threads σ))).
Proof.
  destruct sleeping_run as (σ & Hr & Hs & Hq & Ht & _). exists σ. split; [exact Hr|]. split; [exact Hq|].
  apply (proj2 (scheduler_no_lost_wakeup false 1 σ Hr)); [exact Hs|by rewrite Hq|].
  exists 0%nat, Asleep, new_thread_info. by rewrite Ht.
Defined.
