(* ===== verification/IocpContext.v ===== *)
(** * IocpContext: the event loop of an io_context on Windows

    [asio/detail/win_iocp_io_context.hpp], [asio/detail/impl/win_iocp_io_context.ipp]
    and [asio/detail/win_iocp_operation.hpp]: the loop that runs the handlers of
    the gateway and of the clients when the exchange is built by [build.bat].
    The completion port is a queue of packets in the state; every interlocked
    operation and every call on the port is a step of [istep].  Here the
    timer thread only wakes the loop; timers are in [IocpTimers]. *)

From stdpp Require Import base list gmap.
From Stdlib Require Import ZArith Lia.
From S2P Require Import Prelude NetError.
Local Open Scope Z_scope.

(** ** Definitions *)

Abbreviation operation := nat.

(** The completion keys. *)
Definition wake_for_dispatch : Z := 1.
Definition overlapped_contains_result : Z := 2.

(** [win_iocp_operation]: [ready_] and the fields of [OVERLAPPED] in use;
    [Internal] (the category) and [Offset] (the value) are one error code. *)
Record win_iocp_operation : Type := mkOp {
  ready_ : Z;
  op_ec : error_code;
  OffsetHigh : Z }.

(** [win_iocp_operation::reset] *)
Definition op_reset : win_iocp_operation := mkOp 0 no_error 0.

(** What [GetQueuedCompletionStatus] gives: the key, the number of bytes, the
    operation and the error of the call. *)
Record packet : Type := mkPacket {
  completion_key : Z;
  pk_bytes : Z;
  overlapped : option operation;
  pk_error : Z }.

Record iocp : Type := mkIocp {
  outstanding_work_ : Z;
  stopped_ : Z;
  stop_event_posted_ : Z;
  dispatch_required_ : Z;
  completed_ops_ : list operation;
  port : list packet;
  ops : gmap operation win_iocp_operation }.

Definition set_work (z : Z) (c : iocp) : iocp :=
  mkIocp z (stopped_ c) (stop_event_posted_ c) (dispatch_required_ c) (completed_ops_ c) (port c) (ops c).
Definition set_stopped (z : Z) (c : iocp) : iocp :=
  mkIocp (outstanding_work_ c) z (stop_event_posted_ c) (dispatch_required_ c) (completed_ops_ c) (port c) (ops c).
Definition set_stop_posted (z : Z) (c : iocp) : iocp :=
  mkIocp (outstanding_work_ c) (stopped_ c) z (dispatch_required_ c) (completed_ops_ c) (port c) (ops c).
Definition set_dispatch (z : Z) (c : iocp) : iocp :=
  mkIocp (outstanding_work_ c) (stopped_ c) (stop_event_posted_ c) z (completed_ops_ c) (port c) (ops c).
Definition set_completed (l : list operation) (c : iocp) : iocp :=
  mkIocp (outstanding_work_ c) (stopped_ c) (stop_event_posted_ c) (dispatch_required_ c) l (port c) (ops c).
Definition set_port (p : list packet) (c : iocp) : iocp :=
  mkIocp (outstanding_work_ c) (stopped_ c) (stop_event_posted_ c) (dispatch_required_ c) (completed_ops_ c) p (ops c).
Definition set_op (o : operation) (f : win_iocp_operation) (c : iocp) : iocp :=
  mkIocp (outstanding_work_ c) (stopped_ c) (stop_event_posted_ c) (dispatch_required_ c) (completed_ops_ c) (port c)
    (<[ o := f ]> (ops c)).

(** [win_iocp_io_context(ctx, concurrency_hint, false)] *)
Definition new_iocp : iocp := mkIocp 0 0 0 0 [] [] ∅.

(** The fields of an operation. *)
Definition op_at (o : operation) (c : iocp) : win_iocp_operation := default op_reset (ops c !! o).

(** [PostQueuedCompletionStatus(iocp_.handle, 0, key, op)] *)
Definition pqcs (key : Z) (o : option operation) (c : iocp) : iocp :=
  set_port (port c ++ [mkPacket key 0 o 0]) c.

(** Post [op]; when the system is out of resources, put it on [completed_ops_]. *)
Definition post_op (ok : bool) (key : Z) (o : operation) (c : iocp) : iocp :=
  if ok then pqcs key (Some o) c else set_dispatch 1 (set_completed (completed_ops_ c ++ [o]) c).

(** *** Work *)

Definition work_started (c : iocp) : iocp := set_work (outstanding_work_ c + 1) c.

(** [work_finished]: the flag says that [stop()] is called next. *)
Definition work_finished (c : iocp) : iocp * bool :=
  let c := set_work (outstanding_work_ c - 1) c in (c, outstanding_work_ c =? 0).

(** *** Starting and completing operations *)

Definition set_ready (o : operation) (c : iocp) : iocp :=
  set_op o (mkOp 1 (op_ec (op_at o c)) (OffsetHigh (op_at o c))) c.

Definition post_deferred_completion (ok : bool) (o : operation) (c : iocp) : iocp :=
  post_op ok 0 o (set_ready o c).

(** The loop takes one operation after the other until the queue is empty;
    [oks] says which posts succeed (those beyond its end do).  A post that fails
    moves the operation and all that follow to [completed_ops_]. *)
Fixpoint post_deferred_completions (oks : list bool) (os : list operation) (c : iocp) : iocp :=
  match os with
  | [] => c
  | o :: os =>
      let c := set_ready o c in
      match oks with
      | false :: _ => set_dispatch 1 (set_completed (completed_ops_ c ++ o :: os) c)
      | _ => post_deferred_completions (tail oks) os (pqcs 0 (Some o) c)
      end
  end.

(** [on_pending]: the exchange of [ready_]; the flag says that the operation is
    posted next. *)
Definition on_pending (o : operation) (c : iocp) : iocp * bool :=
  if ready_ (op_at o c) =? 0 then (set_ready o c, false) else (c, ready_ (op_at o c) =? 1).

Definition on_pending_post (ok : bool) (o : operation) (c : iocp) : iocp :=
  post_op ok overlapped_contains_result o c.

Definition on_completion_ec (ok : bool) (o : operation) (ec : error_code) (bytes_transferred : Z) (c : iocp) : iocp :=
  post_op ok overlapped_contains_result o (set_op o (mkOp 1 ec bytes_transferred) c).

Definition on_completion (ok : bool) (o : operation) (last_error bytes_transferred : Z) (c : iocp) : iocp :=
  post_op ok overlapped_contains_result o (set_op o (mkOp 1 (sys last_error) bytes_transferred) c).

(** *** Stopping *)

(** The two exchanges of [stop]; the flags say whether it goes on. *)
Definition stop_exchange (c : iocp) : iocp * bool := (set_stopped 1 c, stopped_ c =? 0).
Definition post_exchange (c : iocp) : iocp * bool := (set_stop_posted 1 c, stop_event_posted_ c =? 0).
Definition post_stop (c : iocp) : iocp := pqcs 0 None c.

Definition restart (c : iocp) : iocp := set_stopped 0 c.

(** *** The loop *)

(** Where a thread is; [back] says whether it goes on in the loop of [run]. *)
Inductive pc : Type :=
  | Outside                                                   (* not in run *)
  | AtLoop                                                    (* at the head of the loop of do_one *)
  | Waiting                                                   (* in GetQueuedCompletionStatus *)
  | GotOp (o : operation) (ec : error_code) (bytes : Z)       (* has an operation and its result *)
  | InHandler (o : operation)                                 (* in op->complete *)
  | Stop1 (back : bool)                                       (* in stop, at the first exchange *)
  | Stop2 (back : bool)                                       (* at the second *)
  | Stop3 (back : bool)                                       (* about to post the stop event *)
  | GotStop                                                   (* has dequeued a stop event *)
  | CheckStopped                                              (* has reset stop_event_posted_ *)
  | Repost1                                                   (* about to wake the next thread *)
  | Repost2.                                                  (* about to post the stop event again *)

(** The dispatch at the head of the loop. *)
Definition dispatch (oks : list bool) (c : iocp) : iocp :=
  if dispatch_required_ c =? 1 then
    post_deferred_completions oks (completed_ops_ c) (set_completed [] (set_dispatch 0 c))
  else c.

(** [GetQueuedCompletionStatus] returned a packet. *)
Definition dequeued (p : packet) (c : iocp) : iocp * pc :=
  match overlapped p with
  | Some o =>
      if completion_key p =? overlapped_contains_result
      then (c, GotOp o (op_ec (op_at o c)) (OffsetHigh (op_at o c)))
      else (set_op o (mkOp (ready_ (op_at o c)) (sys (pk_error p)) (pk_bytes p)) c,
            GotOp o (sys (pk_error p)) (pk_bytes p))
  | None => if completion_key p =? wake_for_dispatch then (c, AtLoop) else (c, GotStop)
  end.

(** Complete the operation if it is ready; otherwise it is now. *)
Definition try_complete (o : operation) (c : iocp) : iocp * bool :=
  if ready_ (op_at o c) =? 0 then (set_ready o c, false) else (c, ready_ (op_at o c) =? 1).

(** The entry of [run]. *)
Definition run_entry (c : iocp) : pc := if outstanding_work_ c =? 0 then Stop1 false else AtLoop.

(** Where a thread goes after [stop]. *)
Definition after_stop (back : bool) : pc := if back then AtLoop else Outside.

(** ** The threads, the operating system and the callers together

    [calls] is where the function that starts an operation is: it has counted the
    work ([Started]), its call of the operating system has returned and
    [on_pending] is next ([InCall]), or [on_pending] is about to post
    ([Posting]).  [os_pending] are the operations the operating system will
    complete.  [started], [completions] and [reported] record what happened: the
    operations started, the handlers called with their results, and the results
    reported for each operation. *)

Inductive phase : Type := Started | InCall | Posting.

Record system : Type := mkSystem {
  ctx : iocp;
  threads : list pc;
  calls : gmap operation phase;
  os_pending : list operation;
  started : list operation;
  completions : list (operation * error_code * Z);
  reported : gmap operation (error_code * Z) }.

Definition new_system (n : nat) : system := mkSystem new_iocp (replicate n Outside) ∅ [] [] [] ∅.

Definition set_ctx (c : iocp) (σ : system) : system :=
  mkSystem c (threads σ) (calls σ) (os_pending σ) (started σ) (completions σ) (reported σ).
Definition put (i : nat) (p : pc) (c : iocp) (σ : system) : system :=
  mkSystem c (<[ i := p ]> (threads σ)) (calls σ) (os_pending σ) (started σ) (completions σ) (reported σ).
Definition set_call (o : operation) (ph : option phase) (σ : system) : system :=
  mkSystem (ctx σ) (threads σ) (partial_alter (fun _ => ph) o (calls σ)) (os_pending σ) (started σ) (completions σ)
    (reported σ).
Definition set_os (l : list operation) (σ : system) : system :=
  mkSystem (ctx σ) (threads σ) (calls σ) l (started σ) (completions σ) (reported σ).
Definition log_started (o : operation) (σ : system) : system :=
  mkSystem (ctx σ) (threads σ) (calls σ) (os_pending σ) (started σ ++ [o]) (completions σ) (reported σ).
Definition log_completion (o : operation) (ec : error_code) (n : Z) (σ : system) : system :=
  mkSystem (ctx σ) (threads σ) (calls σ) (os_pending σ) (started σ) (completions σ ++ [(o, ec, n)]) (reported σ).
Definition report (o : operation) (ec : error_code) (n : Z) (σ : system) : system :=
  mkSystem (ctx σ) (threads σ) (calls σ) (os_pending σ) (started σ) (completions σ) (<[ o := (ec, n) ]> (reported σ)).

(** The steps; [may_fail] allows posts to the port to fail. *)
Inductive istep (may_fail : bool) (σ : system) : system -> Prop :=
  (* an operation is started: new operation object, work_started *)
  | step_start o :
      o ∉ started σ ->
      istep may_fail σ (log_started o (set_call o (Some Started) (set_ctx (work_started (set_op o op_reset (ctx σ))) σ)))
  (* post_immediate_completion, post_deferred_completion *)
  | step_post o ok :
      calls σ !! o = Some Started -> (ok = false -> may_fail = true) ->
      istep may_fail σ (report o (sys 0) 0 (set_call o None (set_ctx (post_deferred_completion ok o (ctx σ)) σ)))
  (* an overlapped call that failed, or was not made: on_completion *)
  | step_on_completion o ok ec n :
      calls σ !! o = Some Started -> (ok = false -> may_fail = true) ->
      istep may_fail σ (report o ec n (set_call o None (set_ctx (on_completion_ec ok o ec n (ctx σ)) σ)))
  (* an overlapped call that the operating system accepted, and its completion *)
  | step_os_call o :
      calls σ !! o = Some Started ->
      istep may_fail σ (set_os (os_pending σ ++ [o]) (set_call o (Some InCall) σ))
  | step_os_complete o rest err n :
      os_pending σ ≡ₚ o :: rest ->
      istep may_fail σ (report o (sys err) n (set_os rest
        (set_ctx (set_port (port (ctx σ) ++ [mkPacket 0 n (Some o) err]) (ctx σ)) σ)))
  | step_on_pending o c posts :
      calls σ !! o = Some InCall -> on_pending o (ctx σ) = (c, posts) ->
      istep may_fail σ (set_call o (if posts then Some Posting else None) (set_ctx c σ))
  | step_pending_post o ok :
      calls σ !! o = Some Posting -> (ok = false -> may_fail = true) ->
      istep may_fail σ (set_call o None (set_ctx (on_pending_post ok o (ctx σ)) σ))
  (* the loop *)
  | step_enter i :
      threads σ !! i = Some Outside -> istep may_fail σ (put i (run_entry (ctx σ)) (ctx σ) σ)
  | step_dispatch i oks :
      threads σ !! i = Some AtLoop -> (forallb id oks = false -> may_fail = true) ->
      istep may_fail σ (put i Waiting (dispatch oks (ctx σ)) σ)
  | step_dequeue i p rest c pc' :
      threads σ !! i = Some Waiting -> port (ctx σ) = p :: rest -> dequeued p (set_port rest (ctx σ)) = (c, pc') ->
      istep may_fail σ (put i pc' c σ)
  | step_timeout i (back : bool) :
      threads σ !! i = Some Waiting -> istep may_fail σ (put i (if back then AtLoop else Outside) (ctx σ) σ)
  | step_complete i o ec n c :
      threads σ !! i = Some (GotOp o ec n) -> try_complete o (ctx σ) = (c, true) ->
      istep may_fail σ (log_completion o ec n (put i (InHandler o) c σ))
  | step_not_ready i o ec n c :
      threads σ !! i = Some (GotOp o ec n) -> try_complete o (ctx σ) = (c, false) ->
      istep may_fail σ (put i AtLoop c σ)
  | step_handler_done i o c last :
      threads σ !! i = Some (InHandler o) -> work_finished (ctx σ) = (c, last) ->
      istep may_fail σ (put i (if last then Stop1 true else AtLoop) c σ)
  (* stop *)
  | step_call_stop i :
      threads σ !! i = Some Outside -> istep may_fail σ (put i (Stop1 false) (ctx σ) σ)
  | step_stop1 i back c more :
      threads σ !! i = Some (Stop1 back) -> stop_exchange (ctx σ) = (c, more) ->
      istep may_fail σ (put i (if more then Stop2 back else after_stop back) c σ)
  | step_stop2 i back c more :
      threads σ !! i = Some (Stop2 back) -> post_exchange (ctx σ) = (c, more) ->
      istep may_fail σ (put i (if more then Stop3 back else after_stop back) c σ)
  | step_stop3 i back :
      threads σ !! i = Some (Stop3 back) -> istep may_fail σ (put i (after_stop back) (post_stop (ctx σ)) σ)
  | step_stop3_throws i back :
      threads σ !! i = Some (Stop3 back) -> may_fail = true -> istep may_fail σ (put i Outside (ctx σ) σ)
  | step_got_stop i :
      threads σ !! i = Some GotStop -> istep may_fail σ (put i CheckStopped (set_stop_posted 0 (ctx σ)) σ)
  | step_check_stopped i :
      threads σ !! i = Some CheckStopped ->
      istep may_fail σ (put i (if negb (stopped_ (ctx σ) =? 0) then Repost1 else AtLoop) (ctx σ) σ)
  | step_repost1 i c more :
      threads σ !! i = Some Repost1 -> post_exchange (ctx σ) = (c, more) ->
      istep may_fail σ (put i (if more then Repost2 else Outside) c σ)
  | step_repost2 i :
      threads σ !! i = Some Repost2 -> istep may_fail σ (put i Outside (post_stop (ctx σ)) σ)
  | step_repost2_fails i :
      threads σ !! i = Some Repost2 -> may_fail = true -> istep may_fail σ (put i Outside (ctx σ) σ)
  | step_restart : istep may_fail σ (set_ctx (restart (ctx σ)) σ)
  (* the timer thread *)
  | step_timer ok :
      (ok = false -> may_fail = true) ->
      istep may_fail σ (set_ctx ((if ok then pqcs wake_for_dispatch None else id) (set_dispatch 1 (ctx σ))) σ).

Definition system_reachable (may_fail : bool) (n : nat) : system -> Prop :=
  reachable (fun σ => σ = new_system n) (istep may_fail).
