(* ===== verification/IocpTheorems.v ===== *)
(** * IocpTheorems: what the Windows event loop guarantees

    Each operation is in exactly one place at a time (the operating system, the
    completion port, a thread, the fallback queue, the function that starts it,
    or the log of handlers called): from this follow that its handler is called at
    most once, that none is lost, that the count of work is exact and that the
    result a handler gets is the one reported.  The stop events are counted the
    same way. *)

From stdpp Require Import base list gmap sets.
From Stdlib Require Import ZArith Lia.
From S2P Require Import Prelude Counting NetError IocpContext.
Local Open Scope Z_scope.

(** ** Where an operation is *)

Definition held_by (o : operation) (p : pc) : Z :=
  match p with GotOp x _ _ => if decide (x = o) then 1 else 0 | _ => 0 end.
Definition packet_of (o : operation) (p : packet) : Z :=
  match overlapped p with Some x => if decide (x = o) then 1 else 0 | None => 0 end.
Definition running (p : pc) : Z := match p with InHandler _ => 1 | _ => 0 end.

(** The function that starts the operation will post it, or [ready_] is set and
    it will. *)
Definition call_token (o : operation) (ph : option phase) (c : iocp) : Z :=
  match ph with
  | Some InCall => if ready_ (op_at o c) =? 0 then 0 else 1
  | Some _ => 1
  | None => 0
  end.

Definition completed_op (r : operation * error_code * Z) : operation := r.1.1.

Definition tokens (o : operation) (σ : system) : Z :=
  occurrences o (os_pending σ) + sum_by (packet_of o) (port (ctx σ)) + sum_by (held_by o) (threads σ)
  + occurrences o (completed_ops_ (ctx σ)) + call_token o (calls σ !! o) (ctx σ)
  + occurrences o (completed_op <$> completions σ).

Record exact (σ : system) : Prop := mkExact {
  ex_count o : tokens o σ = occurrences o (started σ);
  ex_nodup : NoDup (started σ);
  ex_bit o : ready_ (op_at o (ctx σ)) = 0 \/ ready_ (op_at o (ctx σ)) = 1;
  ex_new o : calls σ !! o = Some Started -> ready_ (op_at o (ctx σ)) = 0;
  ex_posting o : calls σ !! o = Some Posting -> ready_ (op_at o (ctx σ)) = 1;
  ex_done o : o ∈ started σ -> calls σ !! o = None -> ready_ (op_at o (ctx σ)) = 1;
  ex_known o : is_Some (calls σ !! o) -> o ∈ started σ;
  ex_fallback o : o ∈ completed_ops_ (ctx σ) -> ready_ (op_at o (ctx σ)) = 1;
  ex_work : outstanding_work_ (ctx σ)
    = Z.of_nat (length (started σ)) - Z.of_nat (length (completions σ)) + sum_by running (threads σ) }.

(** ** Facts about the context *)

Lemma op_at_set o f c x : op_at x (set_op o f c) = if decide (x = o) then f else op_at x c.
Proof.
  unfold op_at, set_op. cbn [ops]. case_decide; [subst; by rewrite lookup_insert_eq|by rewrite lookup_insert_ne].
Qed.

Lemma op_at_ready o c x : ready_ (op_at x (set_ready o c)) = if decide (x = o) then 1 else ready_ (op_at x c).
Proof. unfold set_ready. rewrite op_at_set. by case_decide. Qed.

Lemma op_at_post ok key o c x : op_at x (post_op ok key o c) = op_at x c.
Proof. by destruct ok. Qed.

Lemma set_ready_same o c : ready_ (op_at o c) = 1 -> forall x, op_at x (set_ready o c) = op_at x c.
Proof.
  intros H x. unfold set_ready. rewrite op_at_set. case_decide; [|done]. subst. rewrite <- H. by destruct (op_at o c).
Qed.

(** Posting again what [completed_ops_] held leaves the operations as they are. *)
Lemma post_deferred_spec os : forall oks c, (forall o, o ∈ os -> ready_ (op_at o c) = 1) ->
  let c' := post_deferred_completions oks os c in
  (forall x, op_at x c' = op_at x c) /\ outstanding_work_ c' = outstanding_work_ c /\
  stopped_ c' = stopped_ c /\ stop_event_posted_ c' = stop_event_posted_ c /\
  (forall x, sum_by (packet_of x) (port c') + occurrences x (completed_ops_ c')
    = sum_by (packet_of x) (port c) + occurrences x (completed_ops_ c) + occurrences x os) /\
  (forall x, x ∈ completed_ops_ c' -> x ∈ completed_ops_ c \/ x ∈ os) /\
  (forallb id oks = true -> completed_ops_ c' = completed_ops_ c).
Proof.
  induction os as [|o os IH]; intros oks c Hr; cbn [post_deferred_completions].
  { split_and!; try done; intros x; [rewrite occurrences_nil; lia|by left]. }
  assert (ready_ (op_at o c) = 1) as Ho by (apply Hr; set_solver).
  assert (forall c1, (forall x, op_at x c1 = op_at x (set_ready o c)) -> forall x, op_at x c1 = op_at x c) as Hsame.
  { intros c1 H1 x. by rewrite H1, set_ready_same. }
  assert (forall x, occurrences x (o :: os) = (if decide (o = x) then 1 else 0) + occurrences x os) as Hcons by done.
  assert (forall oks', let c1 := post_deferred_completions oks' os (pqcs 0 (Some o) (set_ready o c)) in
    (forall x, op_at x c1 = op_at x c) /\ outstanding_work_ c1 = outstanding_work_ c /\
    stopped_ c1 = stopped_ c /\ stop_event_posted_ c1 = stop_event_posted_ c /\
    (forall x, sum_by (packet_of x) (port c1) + occurrences x (completed_ops_ c1)
      = sum_by (packet_of x) (port c) + occurrences x (completed_ops_ c) + occurrences x (o :: os)) /\
    (forall x, x ∈ completed_ops_ c1 -> x ∈ completed_ops_ c \/ x ∈ o :: os) /\
    (forallb id oks' = true -> completed_ops_ c1 = completed_ops_ c)) as Hok.
  { intros oks'. cbn zeta. set (c0 := pqcs 0 (Some o) (set_ready o c)).
    assert (forall x, op_at x c0 = op_at x c) as Hc0 by (by apply Hsame).
    destruct (IH oks' c0) as (H1 & H2 & H3 & H4 & H5 & H6 & H7).
    { intros x Hx. rewrite Hc0. apply Hr. set_solver. }
    split_and!; try done.
    - intros x. by rewrite H1.
    - intros x. rewrite H5, Hcons. unfold c0. cbn [port completed_ops_ pqcs set_port set_ready set_op].
      rewrite sum_by_app. cbn [sum_by packet_of overlapped]. lia.
    - intros x Hx%H6. unfold c0 in Hx. cbn in Hx. set_solver. }
  destruct oks as [|[] oks]; [apply (Hok [])|apply (Hok oks)|].
  cbn zeta. split_and!; try done.
  - by apply Hsame.
  - intros x. rewrite Hcons. cbn [port completed_ops_ set_dispatch set_completed set_ready set_op].
    rewrite occurrences_app, Hcons. lia.
  - intros x. cbn [completed_ops_ set_dispatch set_completed set_ready set_op]. set_solver.
Qed.

(** ** Tokens *)

Lemma held_by_nonneg o ts : 0 <= sum_by (held_by o) ts.
Proof. apply sum_by_nonneg, Forall_forall. intros [] _; cbn; try lia. case_decide; lia. Qed.

Lemma packet_of_nonneg o p : 0 <= sum_by (packet_of o) p.
Proof. apply sum_by_nonneg, Forall_forall. intros [k b [x|] e] _; cbn; [case_decide|]; lia. Qed.

Lemma call_token_nonneg o ph c : 0 <= call_token o ph c.
Proof. destruct ph as [[]|]; cbn; case_Z; lia. Qed.

(** Every token count of an operation is 0 or 1 and at most one is 1. *)
Lemma token_parts o σ : exact σ ->
  0 <= occurrences o (os_pending σ) /\ 0 <= sum_by (packet_of o) (port (ctx σ)) /\
  0 <= sum_by (held_by o) (threads σ) /\ 0 <= occurrences o (completed_ops_ (ctx σ)) /\
  0 <= call_token o (calls σ !! o) (ctx σ) /\ 0 <= occurrences o (completed_op <$> completions σ) /\
  tokens o σ = occurrences o (started σ) /\ occurrences o (started σ) <= 1.
Proof.
  intros Hσ. split_and!; auto using occurrences_nonneg, held_by_nonneg, packet_of_nonneg, call_token_nonneg.
  - apply Hσ.
  - apply nodup_occurrences, Hσ.
Qed.

Lemma held_token σ i o ec n : threads σ !! i = Some (GotOp o ec n) -> 1 <= sum_by (held_by o) (threads σ).
Proof.
  intros Hi. pose proof (sum_by_ge (held_by o) (threads σ) i (GotOp o ec n)) as H. cbn in H.
  rewrite decide_True in H by done. apply H; [|done].
  apply Forall_forall. intros [] _; cbn; try lia. case_decide; lia.
Qed.

Lemma packet_token p o ps : p ∈ ps -> overlapped p = Some o -> 1 <= sum_by (packet_of o) ps.
Proof.
  intros [i Hi]%list_elem_of_lookup Ho. pose proof (sum_by_ge (packet_of o) ps i p) as H.
  assert (packet_of o p = 1) as Hp by (unfold packet_of; by rewrite Ho, decide_True). rewrite Hp in H. apply H; [|done].
  apply Forall_forall. intros [k b [x|] e] _; cbn; [case_decide|]; lia.
Qed.

Ltac system_simpl :=
  unfold put, set_ctx, set_call, set_os, log_started, log_completion, report, tokens in *;
  cbn [ctx threads calls os_pending started completions reported] in *.
Ltac ctx_simpl :=
  unfold set_work, set_stopped, set_stop_posted, set_dispatch, set_completed, set_port, pqcs in *;
  cbn [outstanding_work_ stopped_ stop_event_posted_ dispatch_required_ completed_ops_ port] in *.

(** A thread moves between places where it holds no operation and runs no
    handler, and the context changes in the stop flags and wake-up packets only. *)
Lemma exact_move σ i p q c : exact σ -> threads σ !! i = Some q ->
  (forall o, held_by o q = 0) -> (forall o, held_by o p = 0) -> running q = 0 -> running p = 0 ->
  (forall o, op_at o c = op_at o (ctx σ)) -> outstanding_work_ c = outstanding_work_ (ctx σ) ->
  completed_ops_ c = completed_ops_ (ctx σ) ->
  (forall o, sum_by (packet_of o) (port c) = sum_by (packet_of o) (port (ctx σ))) -> exact (put i p c σ).
Proof.
  intros Hσ Hi Hq Hp Hrq Hrp Hop Hw Hco Hport. destruct Hσ. constructor; system_simpl; try (intros o; rewrite Hop; auto).
  - intros o. rewrite (sum_by_insert _ _ _ _ _ Hi), Hport, Hco, Hq, Hp, <- (ex_count0 o).
    unfold call_token. rewrite Hop. lia.
  - done.
  - done.
  - rewrite Hco. auto.
  - rewrite Hw, ex_work0, (sum_by_insert _ _ _ _ _ Hi). lia.
Qed.

Lemma exact_ctx σ c : exact σ ->
  (forall o, op_at o c = op_at o (ctx σ)) -> outstanding_work_ c = outstanding_work_ (ctx σ) ->
  completed_ops_ c = completed_ops_ (ctx σ) ->
  (forall o, sum_by (packet_of o) (port c) = sum_by (packet_of o) (port (ctx σ))) -> exact (set_ctx c σ).
Proof.
  intros Hσ Hop Hw Hco Hport. destruct Hσ. constructor; system_simpl; try (intros o; rewrite Hop; auto); try done.
  - intros o. rewrite Hport, Hco, <- (ex_count0 o). unfold call_token. rewrite Hop. lia.
  - rewrite Hco. auto.
  - by rewrite Hw.
Qed.

(** ** Operations start and are posted *)

Lemma call_token_same o ph c c' : op_at o c' = op_at o c -> call_token o ph c' = call_token o ph c.
Proof. unfold call_token. by intros ->. Qed.

Lemma exact_start σ o : exact σ -> o ∉ started σ ->
  exact (log_started o (set_call o (Some Started) (set_ctx (work_started (set_op o op_reset (ctx σ))) σ))).
Proof.
  intros Hσ Hn. pose proof (token_parts o σ Hσ) as Hp. rewrite (occurrences_not_in o (started σ)) in Hp by done.
  assert (forall x, op_at x (work_started (set_op o op_reset (ctx σ))) = if decide (x = o) then op_reset else op_at x (ctx σ))
    as Hop by (intros x; apply op_at_set).
  destruct Hσ. constructor; system_simpl; try (intros x; rewrite Hop).
  - intros x. rewrite occurrences_app, occurrences_one.
    cbn [port completed_ops_ work_started set_work set_op]. destruct (decide (x = o)) as [->|Hx].
    + rewrite lookup_partial_alter_eq, decide_True by done. cbn [call_token]. specialize (ex_count0 o). lia.
    + rewrite lookup_partial_alter_ne, decide_False by congruence. rewrite <- (ex_count0 x).
      rewrite (call_token_same x _ (ctx σ)); [lia|]. rewrite Hop. by case_decide.
  - apply NoDup_app. split_and!; [done| |apply NoDup_singleton]. set_solver.
  - case_decide; [by left|auto].
  - case_decide; [done|]. rewrite lookup_partial_alter_ne by congruence. auto.
  - case_decide; [subst; by rewrite lookup_partial_alter_eq|]. rewrite lookup_partial_alter_ne by congruence. auto.
  - case_decide; [subst; by rewrite lookup_partial_alter_eq|]. rewrite lookup_partial_alter_ne by congruence.
    intros Hx. apply ex_done0. set_solver.
  - intros x. destruct (decide (x = o)) as [->|Hx]; [set_solver|]. rewrite lookup_partial_alter_ne by congruence.
    intros Hs%ex_known0. set_solver.
  - cbn. case_decide; [|auto]. subst. intros Hin%occurrences_in. lia.
  - rewrite length_app. cbn [outstanding_work_ work_started set_work set_op length]. lia.
Qed.

(** An operation whose starting function has it, is made ready and posted. *)
Lemma exact_post σ o ok key f ph : exact σ -> calls σ !! o = Some ph -> ph <> InCall -> ready_ f = 1 ->
  exact (set_call o None (set_ctx (post_op ok key o (set_op o f (ctx σ))) σ)).
Proof.
  intros Hσ Hc Hph Hf. pose proof (token_parts o σ Hσ) as Hp. unfold tokens in Hp. rewrite Hc in Hp.
  assert (call_token o (Some ph) (ctx σ) = 1) as Hct by (by destruct ph). rewrite Hct in Hp.
  assert (forall x, op_at x (post_op ok key o (set_op o f (ctx σ))) = if decide (x = o) then f else op_at x (ctx σ)) as Hop.
  { intros x. rewrite op_at_post. apply op_at_set. }
  assert (forall x, sum_by (packet_of x) (port (post_op ok key o (set_op o f (ctx σ))))
      + occurrences x (completed_ops_ (post_op ok key o (set_op o f (ctx σ))))
    = sum_by (packet_of x) (port (ctx σ)) + occurrences x (completed_ops_ (ctx σ)) + if decide (o = x) then 1 else 0) as Hplace.
  { intros x. destruct ok; cbn [port completed_ops_ post_op pqcs set_port set_dispatch set_completed set_op].
    - rewrite sum_by_app. cbn [sum_by packet_of overlapped]. lia.
    - rewrite occurrences_app, occurrences_one. lia. }
  destruct Hσ. constructor; system_simpl; try (intros x; rewrite Hop).
  - intros x. specialize (Hplace x). destruct (decide (x = o)) as [->|Hx].
    + rewrite lookup_partial_alter_eq. cbn [call_token]. rewrite decide_True in Hplace by done. specialize (ex_count0 o). lia.
    + rewrite lookup_partial_alter_ne by congruence. rewrite decide_False in Hplace by congruence.
      rewrite <- (ex_count0 x), (call_token_same x _ (ctx σ)); [lia|]. rewrite Hop. by case_decide.
  - done.
  - case_decide; [by right|auto].
  - case_decide; [subst; by rewrite lookup_partial_alter_eq|]. rewrite lookup_partial_alter_ne by congruence. auto.
  - case_decide; [subst; by rewrite lookup_partial_alter_eq|]. rewrite lookup_partial_alter_ne by congruence. auto.
  - case_decide; [done|]. rewrite lookup_partial_alter_ne by congruence. auto.
  - intros x. destruct (decide (x = o)) as [->|Hx]; [rewrite lookup_partial_alter_eq; by intros []|].
    rewrite lookup_partial_alter_ne by congruence. auto.
  - case_decide; [done|]. destruct ok; cbn; [auto|]. intros [Hx|Hx]%elem_of_app; [auto|]. set_solver.
  - by destruct ok.
Qed.

(** ** Overlapped calls *)

(** The call of a starting function changes, and nothing in the context. *)
Ltac call_cases x o :=
  destruct (decide (x = o)) as [->|?];
  [rewrite ?lookup_partial_alter_eq in *|rewrite ?lookup_partial_alter_ne in * by congruence].

Lemma exact_os_call σ o : exact σ -> calls σ !! o = Some Started ->
  exact (set_os (os_pending σ ++ [o]) (set_call o (Some InCall) σ)).
Proof.
  intros Hσ Hc. destruct Hσ. constructor; system_simpl; try done; intros x.
  - rewrite <- (ex_count0 x), occurrences_app, occurrences_one. call_cases x o.
    + rewrite Hc, decide_True by done. cbn [call_token]. rewrite (ex_new0 o Hc). cbn. lia.
    + rewrite decide_False by congruence. lia.
  - call_cases x o; [done|auto].
  - call_cases x o; [done|auto].
  - call_cases x o; [done|auto].
  - call_cases x o; [eauto|auto].
Qed.

Lemma exact_os_complete σ o rest err n : exact σ -> os_pending σ ≡ₚ o :: rest ->
  exact (report o (sys err) n (set_os rest
    (set_ctx (set_port (port (ctx σ) ++ [mkPacket 0 n (Some o) err]) (ctx σ)) σ))).
Proof.
  intros Hσ Hos. destruct Hσ. constructor; system_simpl; try done. intros x.
  rewrite <- (ex_count0 x), (occurrences_perm x _ _ Hos). change (o :: rest) with ([o] ++ rest).
  rewrite occurrences_app, occurrences_one. cbn [port completed_ops_ set_port].
  rewrite sum_by_app. cbn [sum_by packet_of overlapped].
  rewrite (call_token_same x _ (ctx σ)) by done. lia.
Qed.

Lemma exact_on_pending σ o c posts : exact σ -> calls σ !! o = Some InCall -> on_pending o (ctx σ) = (c, posts) ->
  exact (set_call o (if posts then Some Posting else None) (set_ctx c σ)).
Proof.
  intros Hσ Hc. destruct Hσ. unfold on_pending. destruct (ex_bit0 o) as [Hr|Hr]; rewrite Hr; cbn [Z.eqb]; intros [= <- <-].
  - constructor; system_simpl; try done; try (intros x; rewrite op_at_ready).
    + intros x. rewrite <- (ex_count0 x). cbn [port completed_ops_ set_ready set_op]. call_cases x o.
      * rewrite Hc. cbn [call_token]. rewrite Hr. cbn. lia.
      * rewrite (call_token_same x _ (ctx σ)); [lia|]. unfold set_ready. rewrite op_at_set. by rewrite decide_False.
    + case_decide; [by right|auto].
    + call_cases x o; [done|auto].
    + call_cases x o; [done|auto].
    + call_cases x o; [done|auto].
    + intros x. call_cases x o; [by intros []|auto].
    + case_decide; [done|auto].
  - constructor; system_simpl; try done; intros x.
    + rewrite <- (ex_count0 x). call_cases x o; [|done]. rewrite Hc. cbn [call_token]. rewrite Hr. done.
    + call_cases x o; [done|auto].
    + call_cases x o; [done|auto].
    + call_cases x o; [done|auto].
    + call_cases x o; [eauto|auto].
Qed.

Lemma exact_pending_post σ o ok : exact σ -> calls σ !! o = Some Posting ->
  exact (set_call o None (set_ctx (on_pending_post ok o (ctx σ)) σ)).
Proof.
  intros Hσ Hc. pose proof (ex_posting _ Hσ o Hc) as Hr.
  assert (set_op o (op_at o (ctx σ)) (ctx σ) = ctx σ) as Heq.
  { unfold op_at in *. destruct (ops (ctx σ) !! o) as [f|] eqn:Ho; [|done]. cbn.
    unfold set_op. rewrite insert_id by done. by destruct (ctx σ). }
  pose proof (exact_post σ o ok overlapped_contains_result (op_at o (ctx σ)) Posting Hσ Hc) as H.
  rewrite Heq in H. by apply H.
Qed.

(** ** The loop *)

Lemma exact_dequeue σ i p rest c pc' : exact σ -> threads σ !! i = Some Waiting -> port (ctx σ) = p :: rest ->
  dequeued p (set_port rest (ctx σ)) = (c, pc') -> exact (put i pc' c σ).
Proof.
  intros Hσ Hi Hport Hd. unfold dequeued in Hd. destruct (overlapped p) as [o|] eqn:Ho.
  - assert (exists ec n, pc' = GotOp o ec n) as (ec & n & ->) by (case_Z_in Hd; injection Hd as <- <-; eauto).
    assert (forall x, ready_ (op_at x c) = ready_ (op_at x (ctx σ))) as Hop.
    { intros x. case_Z_in Hd; injection Hd as <- _ _; [done|]. rewrite op_at_set. by case_decide; subst. }
    assert (outstanding_work_ c = outstanding_work_ (ctx σ) /\ port c = rest /\ completed_ops_ c = completed_ops_ (ctx σ))
      as (Hw & Hp & Hco) by (case_Z_in Hd; injection Hd as <- _ _; done).
    destruct Hσ. constructor; system_simpl; try (intros x; rewrite Hop; auto); try done.
    + intros x. rewrite <- (ex_count0 x), (sum_by_insert _ _ _ _ _ Hi), Hp, Hco, Hport.
      cbn [sum_by held_by]. unfold packet_of at 2. rewrite Ho. unfold call_token. rewrite Hop. lia.
    + rewrite Hco. auto.
    + rewrite Hw, ex_work0, (sum_by_insert _ _ _ _ _ Hi). cbn [running]. lia.
  - assert ((pc' = AtLoop \/ pc' = GotStop) /\ c = set_port rest (ctx σ)) as [Hpc ->].
    { case_Z_in Hd; injection Hd as <- <-; auto. }
    apply (exact_move σ i pc' Waiting); try done; try (by destruct Hpc as [-> | ->]).
    intros o. rewrite Hport. cbn [sum_by port set_port]. unfold packet_of at 2. rewrite Ho. lia.
Qed.

Lemma exact_complete σ i o ec n c : exact σ -> threads σ !! i = Some (GotOp o ec n) ->
  try_complete o (ctx σ) = (c, true) -> exact (log_completion o ec n (put i (InHandler o) c σ)).
Proof.
  intros Hσ Hi. destruct Hσ. unfold try_complete. destruct (ex_bit0 o) as [Hr|Hr]; rewrite Hr; cbn [Z.eqb]; intros [= <-].
  constructor; system_simpl; try done.
  - intros x. rewrite <- (ex_count0 x), (sum_by_insert _ _ _ _ _ Hi), fmap_app, occurrences_app. cbn [held_by].
    change (completed_op <$> [(o, ec, n)]) with [o]. rewrite occurrences_one. lia.
  - rewrite ex_work0, (sum_by_insert _ _ _ _ _ Hi), length_app. cbn [running length]. lia.
Qed.

(** Only the function that starts an operation leaves [ready_] at 0. *)
Lemma exact_not_ready σ i o ec n c : exact σ -> threads σ !! i = Some (GotOp o ec n) ->
  try_complete o (ctx σ) = (c, false) ->
  exact (put i AtLoop c σ) /\ calls σ !! o = Some InCall /\ c = set_ready o (ctx σ).
Proof.
  intros Hσ Hi Ht. pose proof (token_parts o σ Hσ) as Hp. pose proof (held_token _ _ _ _ _ Hi) as Hheld.
  unfold try_complete in Ht. destruct (ex_bit _ Hσ o) as [Hr|Hr]; rewrite Hr in Ht; cbn [Z.eqb] in Ht; [|done].
  injection Ht as <-.
  assert (calls σ !! o = Some InCall) as Hc.
  { unfold tokens in Hp. destruct (calls σ !! o) as [[]|] eqn:Hc; [cbn [call_token] in Hp; lia|done| |].
    - rewrite (ex_posting _ Hσ o Hc) in Hr. done.
    - rewrite (ex_done _ Hσ o) in Hr; [done| |done]. destruct (decide (o ∈ started σ)) as [|Hn]; [done|].
      rewrite (occurrences_not_in o (started σ) Hn) in Hp. lia. }
  split; [|done]. destruct Hσ. constructor; system_simpl; try done; try (intros x; rewrite op_at_ready; case_decide; auto).
  - intros x. rewrite <- (ex_count0 x), (sum_by_insert _ _ _ _ _ Hi). cbn [port completed_ops_ set_ready set_op held_by].
    destruct (decide (x = o)) as [->|Hx].
    + rewrite Hc, !decide_True by done. cbn [call_token]. rewrite op_at_ready, decide_True, Hr by done. cbn. lia.
    + rewrite decide_False by congruence. rewrite (call_token_same x _ (ctx σ)); [lia|].
      unfold set_ready. rewrite op_at_set. by rewrite decide_False.
  - subst. congruence.
  - rewrite (sum_by_insert _ _ _ _ _ Hi). cbn [running outstanding_work_ set_ready set_op]. lia.
Qed.

Lemma exact_handler_done σ i o c last p : exact σ -> threads σ !! i = Some (InHandler o) ->
  work_finished (ctx σ) = (c, last) -> (forall x, held_by x p = 0) -> running p = 0 -> exact (put i p c σ).
Proof.
  intros Hσ Hi [= <- _] Hp Hr. destruct Hσ. constructor; system_simpl; try done.
  - intros x. rewrite <- (ex_count0 x), (sum_by_insert _ _ _ _ _ Hi), Hp. cbn [held_by]. cbn [port completed_ops_ set_work].
    rewrite (call_token_same x _ (ctx σ)) by done. lia.
  - rewrite (sum_by_insert _ _ _ _ _ Hi). cbn [running outstanding_work_ set_work]. lia.
Qed.

Lemma exact_dispatch σ i oks : exact σ -> threads σ !! i = Some AtLoop -> exact (put i Waiting (dispatch oks (ctx σ)) σ).
Proof.
  intros Hσ Hi. unfold dispatch. destruct (dispatch_required_ (ctx σ) =? 1).
  - pose proof (post_deferred_spec (completed_ops_ (ctx σ)) oks (set_completed [] (set_dispatch 0 (ctx σ)))) as H.
    destruct H as (Hop & Hw & _ & _ & Hpl & Hfb & _); [intros o; apply (ex_fallback _ Hσ)|].
    set (c := post_deferred_completions _ _ _) in *.
    change (forall x, op_at x c = op_at x (ctx σ)) in Hop. destruct Hσ.
    constructor; system_simpl; try (intros x; rewrite Hop; auto); try done.
    + intros x. specialize (Hpl x). cbn [port completed_ops_ set_completed set_dispatch] in Hpl. rewrite occurrences_nil in Hpl.
      rewrite <- (ex_count0 x), (sum_by_insert _ _ _ _ _ Hi). cbn [held_by].
      rewrite (call_token_same x _ (ctx σ)); [lia|apply Hop].
    + intros Hx%Hfb. apply ex_fallback0. destruct Hx as [Hx|Hx]; [by apply elem_of_nil in Hx|done].
    + rewrite Hw, (sum_by_insert _ _ _ _ _ Hi). cbn [running outstanding_work_ set_completed set_dispatch]. lia.
  - by apply (exact_move σ i Waiting AtLoop).
Qed.

(** ** Every step *)

Lemma exact_report σ o ec n : exact σ -> exact (report o ec n σ).
Proof. intros []. by constructor. Qed.

Lemma on_completion_post ok o ec n c :
  on_completion_ec ok o ec n c = post_op ok overlapped_contains_result o (set_op o (mkOp 1 ec n) c).
Proof. done. Qed.

Lemma exact_pass σ i p q c : exact σ -> threads σ !! i = Some q ->
  (forall o, held_by o q = 0) -> (forall o, held_by o p = 0) -> running q = 0 -> running p = 0 ->
  ops c = ops (ctx σ) -> outstanding_work_ c = outstanding_work_ (ctx σ) ->
  completed_ops_ c = completed_ops_ (ctx σ) ->
  (port c = port (ctx σ) \/ exists k, port c = port (ctx σ) ++ [mkPacket k 0 None 0]) -> exact (put i p c σ).
Proof.
  intros Hσ Hi Hq Hp Hrq Hrp Hops Hw Hco Hport. apply (exact_move σ i p q); try done.
  - intros o. unfold op_at. by rewrite Hops.
  - intros o. destruct Hport as [-> | [k ->]]; [done|]. rewrite sum_by_app. cbn. lia.
Qed.

Ltac pass Hi := eapply (exact_pass _ _ _ _ _ ltac:(eassumption) Hi); try done; try (by left); try (by right; eexists).

Lemma exact_istep may_fail σ σ' : exact σ -> istep may_fail σ σ' -> exact σ'.
Proof.
  intros Hσ Hstep. destruct Hstep.
  - by apply exact_start.
  - apply exact_report. unfold post_deferred_completion, set_ready. by eapply exact_post.
  - apply exact_report. by eapply exact_post.
  - by apply exact_os_call.
  - by apply exact_os_complete.
  - by eapply exact_on_pending.
  - by apply exact_pending_post.
  - pass H; unfold run_entry; by destruct (_ =? 0).
  - by apply exact_dispatch.
  - by eapply exact_dequeue.
  - pass H; by destruct back.
  - by eapply exact_complete.
  - by eapply exact_not_ready.
  - eapply exact_handler_done; try done; by case_match.
  - pass H.
  - injection H0 as <- <-. pass H; by destruct (_ =? 0), back.
  - injection H0 as <- <-. pass H; by destruct (_ =? 0), back.
  - pass H; by destruct back.
  - pass H.
  - pass H.
  - pass H; by destruct (negb _).
  - injection H0 as <- <-. pass H; by destruct (_ =? 0).
  - pass H.
  - pass H.
  - by apply exact_ctx.
  - apply exact_ctx; try done; destruct ok; try done. intros o. cbn. rewrite sum_by_app. cbn. lia.
Qed.

Lemma exact_new n : exact (new_system n).
Proof.
  assert (forall (f : pc -> Z), f Outside = 0 -> sum_by f (replicate n Outside) = 0) as Hz.
  { intros f Hf. induction n as [|n IH]; [done|]. cbn [replicate sum_by]. lia. }
  constructor; cbn; try done.
  - intros o. unfold tokens. cbn [os_pending ctx threads calls completions new_system]. rewrite Hz by done. done.
  - constructor.
  - intros o. by left.
  - intros o Ho. by apply elem_of_nil in Ho.
  - intros o [x Hx]. done.
  - intros o Ho. by apply elem_of_nil in Ho.
  - by rewrite Hz.
Qed.

Lemma reachable_exact may_fail n σ : system_reachable may_fail n σ -> exact σ.
Proof.
  apply reachable_invariant; [intros s ->; apply exact_new|]. intros s s' Hs Hstep. by eapply exact_istep.
Qed.

(** ** Results

    Without failing posts: wherever an operation is, its reported result is with
    it. *)

Definition op_result (o : operation) (c : iocp) : error_code * Z := (op_ec (op_at o c), OffsetHigh (op_at o c)).

(** The result [do_one] takes with a packet. *)
Definition packet_result (p : packet) (o : operation) (c : iocp) : error_code * Z :=
  if completion_key p =? overlapped_contains_result then op_result o c else (sys (pk_error p), pk_bytes p).

Record faithful (o : operation) (σ : system) : Prop := mkFaithful {
  fa_port p : p ∈ port (ctx σ) -> overlapped p = Some o -> reported σ !! o = Some (packet_result p o (ctx σ));
  fa_held ec n : GotOp o ec n ∈ threads σ -> reported σ !! o = Some (ec, n) /\ op_result o (ctx σ) = (ec, n);
  fa_call ph : calls σ !! o = Some ph -> ph <> Started -> ready_ (op_at o (ctx σ)) = 1 ->
    reported σ !! o = Some (op_result o (ctx σ));
  fa_completions ec n : (o, ec, n) ∈ completions σ -> reported σ !! o = Some (ec, n) }.

Lemma in_insert {A} (l : list A) i x y : y ∈ <[ i := x ]> l -> y = x \/ y ∈ l.
Proof.
  intros [j Hj]%list_elem_of_lookup. apply list_lookup_insert_Some in Hj as [(_ & -> & _)|[_ Hj]]; [by left|].
  right. by eapply list_elem_of_lookup_2.
Qed.

(** What a step leaves alone. *)
Lemma faithful_frame o σ σ' : faithful o σ ->
  (forall p, p ∈ port (ctx σ') -> overlapped p = Some o -> p ∈ port (ctx σ)) ->
  (forall ec n, GotOp o ec n ∈ threads σ' -> GotOp o ec n ∈ threads σ) ->
  (calls σ' !! o = calls σ !! o \/ calls σ' !! o = None \/ calls σ' !! o = Some Started) ->
  op_at o (ctx σ') = op_at o (ctx σ) -> reported σ' !! o = reported σ !! o ->
  (forall ec n, (o, ec, n) ∈ completions σ' -> (o, ec, n) ∈ completions σ) -> faithful o σ'.
Proof.
  intros [Hp Hh Hc Hd] Fp Fh Fc Fo Fr Fd. constructor; rewrite Fr; unfold packet_result, op_result; rewrite ?Fo; try by auto.
  - intros p Hin Ho. apply (Hp p); auto.
  - intros ph Hph Hs Hr. destruct Fc as [Fc|[Fc|Fc]]; rewrite Fc in Hph; [by eapply Hc|done|congruence].
Qed.

(** An operation that has a token is nowhere else. *)
Record alone (o : operation) (σ : system) (port_ok held_ok call_ok comp_ok : bool) : Prop := mkAlone {
  al_port p : port_ok = false -> p ∈ port (ctx σ) -> overlapped p <> Some o;
  al_held ec n : held_ok = false -> GotOp o ec n ∉ threads σ;
  al_call : call_ok = false -> call_token o (calls σ !! o) (ctx σ) = 0;
  al_comp ec n : comp_ok = false -> (o, ec, n) ∉ completions σ }.

Lemma alone_from o σ (a b c d : bool) :
  (a = false -> sum_by (packet_of o) (port (ctx σ)) = 0) -> (b = false -> sum_by (held_by o) (threads σ) = 0) ->
  (c = false -> call_token o (calls σ !! o) (ctx σ) = 0) ->
  (d = false -> occurrences o (completed_op <$> completions σ) = 0) -> alone o σ a b c d.
Proof.
  intros Ha Hb Hc Hd. constructor; [| |done|].
  - intros p H%Ha Hp Ho. pose proof (packet_token _ _ _ Hp Ho). lia.
  - intros ec n H%Hb [i Hi]%list_elem_of_lookup. apply held_token in Hi. lia.
  - intros ec n H%Hd Hin. assert (o ∈ completed_op <$> completions σ) as Hin'.
    { apply list_elem_of_fmap. by exists (o, ec, n). }
    apply occurrences_in in Hin'. lia.
Qed.

Lemma alone_started o σ : exact σ -> calls σ !! o = Some Started -> alone o σ false false true false.
Proof.
  intros Hσ Hc. pose proof (token_parts o σ Hσ) as Hp. unfold tokens in Hp. rewrite Hc in Hp. cbn [call_token] in Hp.
  apply alone_from; intros; try done; lia.
Qed.

Lemma alone_posting o σ : exact σ -> calls σ !! o = Some Posting -> alone o σ false false true false.
Proof.
  intros Hσ Hc. pose proof (token_parts o σ Hσ) as Hp. unfold tokens in Hp. rewrite Hc in Hp. cbn [call_token] in Hp.
  apply alone_from; intros; try done; lia.
Qed.

Lemma alone_os o σ : exact σ -> o ∈ os_pending σ -> alone o σ false false false false.
Proof.
  intros Hσ Hc%occurrences_in. pose proof (token_parts o σ Hσ) as Hp. unfold tokens in Hp.
  apply alone_from; intros; lia.
Qed.

Lemma alone_held o σ i ec n : exact σ -> threads σ !! i = Some (GotOp o ec n) -> alone o σ false true false false.
Proof.
  intros Hσ Hc%held_token. pose proof (token_parts o σ Hσ) as Hp. unfold tokens in Hp.
  apply alone_from; intros; try done; lia.
Qed.

(** The first packet: the others in the port are of other operations. *)
Lemma alone_packet o σ p rest : exact σ -> port (ctx σ) = p :: rest -> overlapped p = Some o ->
  alone o σ true false false false /\ forall p', p' ∈ rest -> overlapped p' <> Some o.
Proof.
  intros Hσ Hport Ho. pose proof (token_parts o σ Hσ) as Hp. unfold tokens in Hp. rewrite Hport in Hp. cbn [sum_by] in Hp.
  assert (packet_of o p = 1) as Hpk by (unfold packet_of; by rewrite Ho, decide_True).
  pose proof (packet_of_nonneg o rest). split.
  - apply alone_from; intros; try done; lia.
  - intros p' Hin Ho'. pose proof (packet_token _ _ _ Hin Ho'). lia.
Qed.

Definition results_kept (σ : system) : Prop := (forall o, faithful o σ) /\ completed_ops_ (ctx σ) = [].

Lemma kept_start σ o : exact σ -> results_kept σ -> o ∉ started σ ->
  results_kept (log_started o (set_call o (Some Started) (set_ctx (work_started (set_op o op_reset (ctx σ))) σ))).
Proof.
  intros Hσ [Hf Hco] Hn. split; [|done]. pose proof (token_parts o σ Hσ) as Hp.
  rewrite (occurrences_not_in o (started σ) Hn) in Hp. unfold tokens in Hp.
  intros x. destruct (decide (x = o)) as [->|Hx].
  - assert (alone o σ false false false false) as [Ap Ah _ Ac] by (apply alone_from; intros; lia).
    constructor; system_simpl.
    + intros p Hin Ho. by destruct (Ap p eq_refl Hin).
    + intros ec n Hin. by destruct (Ah ec n eq_refl).
    + intros ph. rewrite lookup_partial_alter_eq. by intros [= <-].
    + intros ec n Hin. by destruct (Ac ec n eq_refl).
  - apply (faithful_frame x σ); system_simpl; auto.
    + left. by rewrite lookup_partial_alter_ne.
    + change (op_at x (set_op o op_reset (ctx σ)) = op_at x (ctx σ)). rewrite op_at_set. by rewrite decide_False.
Qed.

(** The operation leaves its starting function with a packet. *)
Lemma kept_post σ o key f r : exact σ -> results_kept σ -> calls σ !! o = Some Started ->
  r = (if key =? overlapped_contains_result then (op_ec f, OffsetHigh f) else (sys 0, 0)) ->
  results_kept (report o r.1 r.2 (set_call o None (set_ctx (post_op true key o (set_op o f (ctx σ))) σ))).
Proof.
  intros Hσ [Hf Hco] Hc Hr. split; [|done].
  assert (forall x, op_at x (post_op true key o (set_op o f (ctx σ))) = if decide (x = o) then f else op_at x (ctx σ)) as Hop.
  { intros x. rewrite op_at_post. apply op_at_set. }
  destruct (alone_started o σ Hσ Hc) as [Ap Ah _ Ac].
  intros x. destruct (decide (x = o)) as [->|Hx].
  - constructor; system_simpl; rewrite ?lookup_insert_eq.
    + intros p Hin Ho. cbn [port post_op pqcs set_port set_op] in Hin. apply elem_of_app in Hin as [Hin|Hin%list_elem_of_singleton].
      { by destruct (Ap p eq_refl Hin). }
      subst p r. unfold packet_result, op_result. rewrite Hop, decide_True by done. cbn. by destruct (key =? _).
    + intros ec n Hin. by destruct (Ah ec n eq_refl).
    + intros ph. by rewrite lookup_partial_alter_eq.
    + intros ec n Hin. by destruct (Ac ec n eq_refl).
  - apply (faithful_frame x σ); system_simpl; auto.
    + intros p Hin Ho. cbn [port post_op pqcs set_port set_op] in Hin. apply elem_of_app in Hin as [Hin|Hin%list_elem_of_singleton]; [done|].
      subst p. cbn in Ho. congruence.
    + left. by rewrite lookup_partial_alter_ne.
    + rewrite Hop. by rewrite decide_False.
    + by rewrite lookup_insert_ne.
Qed.

Lemma kept_os_call σ o : exact σ -> results_kept σ -> calls σ !! o = Some Started ->
  results_kept (set_os (os_pending σ ++ [o]) (set_call o (Some InCall) σ)).
Proof.
  intros Hσ [Hf Hco] Hc. split; [|done]. destruct (alone_started o σ Hσ Hc) as [Ap Ah _ Ac].
  intros x. destruct (decide (x = o)) as [->|Hx].
  - constructor; system_simpl.
    + intros p Hin Ho. by destruct (Ap p eq_refl Hin).
    + intros ec n Hin. by destruct (Ah ec n eq_refl).
    + intros ph _ _. by rewrite (ex_new _ Hσ o Hc).
    + intros ec n Hin. by destruct (Ac ec n eq_refl).
  - apply (faithful_frame x σ); system_simpl; auto. left. by rewrite lookup_partial_alter_ne.
Qed.

Lemma kept_os_complete σ o rest err n : exact σ -> results_kept σ -> os_pending σ ≡ₚ o :: rest ->
  results_kept (report o (sys err) n (set_os rest
    (set_ctx (set_port (port (ctx σ) ++ [mkPacket 0 n (Some o) err]) (ctx σ)) σ))).
Proof.
  intros Hσ [Hf Hco] Hos. split; [|done].
  assert (o ∈ os_pending σ) as Hin by (rewrite Hos; set_solver).
  destruct (alone_os o σ Hσ Hin) as [Ap Ah Ak Ac].
  intros x. destruct (decide (x = o)) as [->|Hx].
  - constructor; system_simpl; rewrite ?lookup_insert_eq.
    + intros p Hp Ho. cbn [port set_port] in Hp. apply elem_of_app in Hp as [Hp|Hp%list_elem_of_singleton].
      { by destruct (Ap p eq_refl Hp). }
      by subst p.
    + intros ec k Hp. by destruct (Ah ec k eq_refl).
    + intros ph Hph Hs Hr. change (ready_ (op_at o (ctx σ)) = 1) in Hr. specialize (Ak eq_refl).
      rewrite Hph in Ak. destruct ph; cbn [call_token] in Ak; try done. by rewrite Hr in Ak.
    + intros ec k Hp. by destruct (Ac ec k eq_refl).
  - apply (faithful_frame x σ); system_simpl; auto.
    + intros p Hp Ho. cbn [port set_port] in Hp. apply elem_of_app in Hp as [Hp|Hp%list_elem_of_singleton]; [done|].
      subst p. cbn in Ho. congruence.
    + by rewrite lookup_insert_ne.
Qed.

Lemma op_result_ready o c x : op_result x (set_ready o c) = op_result x c.
Proof. unfold op_result, set_ready. rewrite op_at_set. by case_decide; subst. Qed.

Lemma kept_on_pending σ o c posts : exact σ -> results_kept σ -> calls σ !! o = Some InCall ->
  on_pending o (ctx σ) = (c, posts) -> results_kept (set_call o (if posts then Some Posting else None) (set_ctx c σ)).
Proof.
  intros Hσ [Hf Hco] Hc Hp. unfold on_pending in Hp. destruct (ex_bit _ Hσ o) as [Hr|Hr]; rewrite Hr in Hp; cbn [Z.eqb] in Hp;
    injection Hp as <- <-; (split; [|done]); intros x; destruct (Hf x) as [Hport Hheld Hcall Hcomp];
    destruct (decide (x = o)) as [->|Hx].
  - constructor; system_simpl; unfold packet_result; rewrite ?op_result_ready; auto. by rewrite lookup_partial_alter_eq.
  - apply (faithful_frame x σ); system_simpl; auto; [left; by rewrite lookup_partial_alter_ne|].
    unfold set_ready. by rewrite op_at_set, decide_False.
  - constructor; system_simpl; auto. intros ph _ _ _. by eapply Hcall.
  - apply (faithful_frame x σ); system_simpl; auto. left. by rewrite lookup_partial_alter_ne.
Qed.

Lemma kept_pending_post σ o : exact σ -> results_kept σ -> calls σ !! o = Some Posting ->
  results_kept (set_call o None (set_ctx (on_pending_post true o (ctx σ)) σ)).
Proof.
  intros Hσ [Hf Hco] Hc. split; [|done]. destruct (alone_posting o σ Hσ Hc) as [Ap Ah _ Ac].
  intros x. destruct (decide (x = o)) as [->|Hx].
  - constructor; system_simpl.
    + intros p Hin Ho. cbn in Hin. apply elem_of_app in Hin as [Hin|Hin%list_elem_of_singleton].
      { by destruct (Ap p eq_refl Hin). }
      subst p. apply (fa_call _ _ (Hf o) Posting); [done|done|]. by apply (ex_posting _ Hσ).
    + intros ec n Hin. by destruct (Ah ec n eq_refl).
    + intros ph. by rewrite lookup_partial_alter_eq.
    + intros ec n Hin. by destruct (Ac ec n eq_refl).
  - apply (faithful_frame x σ); system_simpl; auto.
    + intros p Hin Ho. cbn in Hin. apply elem_of_app in Hin as [Hin|Hin%list_elem_of_singleton]; [done|].
      subst p. cbn in Ho. congruence.
    + left. by rewrite lookup_partial_alter_ne.
Qed.

(** A thread moves without an operation, and no operation changes. *)
Lemma kept_move σ i p c : results_kept σ -> (forall o, held_by o p = 0) -> ops c = ops (ctx σ) ->
  completed_ops_ c = completed_ops_ (ctx σ) ->
  (forall q o, q ∈ port c -> overlapped q = Some o -> q ∈ port (ctx σ)) -> results_kept (put i p c σ).
Proof.
  intros [Hf Hco] Hp Hops Hco' Hport. split; [|system_simpl; congruence].
  intros x. apply (faithful_frame x σ); system_simpl; eauto.
  - intros ec n [Hin|Hin]%in_insert; [|done]. specialize (Hp x). rewrite <- Hin in Hp. cbn in Hp. by rewrite decide_True in Hp.
  - unfold op_at. by rewrite Hops.
Qed.

Lemma kept_dequeue σ i p rest c pc' : exact σ -> results_kept σ -> threads σ !! i = Some Waiting ->
  port (ctx σ) = p :: rest -> dequeued p (set_port rest (ctx σ)) = (c, pc') -> results_kept (put i pc' c σ).
Proof.
  intros Hσ [Hf Hco] Hi Hport Hd. unfold dequeued in Hd. destruct (overlapped p) as [o|] eqn:Ho.
  - destruct (alone_packet o σ p rest Hσ Hport Ho) as [[_ Ah Ak Ac] Hrest]. specialize (Ak eq_refl).
    assert (p ∈ port (ctx σ)) as Hin by (rewrite Hport; set_solver).
    pose proof (fa_port _ _ (Hf o) p Hin Ho) as Hrep.
    assert (exists ec n, pc' = GotOp o ec n /\ packet_result p o (ctx σ) = (ec, n) /\ op_result o c = (ec, n)) as (ec & n & -> & Hres & Hcur).
    { unfold packet_result. unfold op_result at 2. case_Z_in Hd; injection Hd as <- <-; rewrite ?op_at_set, ?decide_True by done; eauto. }
    assert (port c = rest /\ completed_ops_ c = [] /\ (forall x, x <> o -> op_at x c = op_at x (ctx σ))
      /\ ready_ (op_at o c) = ready_ (op_at o (ctx σ))) as (Hp & Hc & Hop & Hready).
    { case_Z_in Hd; injection Hd as <- _ _; split_and!; try done; intros; rewrite op_at_set; by case_decide; subst. }
    split; [|done]. intros x. destruct (decide (x = o)) as [->|Hx].
    + constructor; system_simpl.
      * rewrite Hp. intros q Hq Ho'. by destruct (Hrest q Hq).
      * intros ec' n' [Hq|Hq]%in_insert; [|by destruct (Ah ec' n' eq_refl)]. injection Hq as -> ->. split; congruence.
      * intros ph Hph Hs Hr. rewrite Hph in Ak. rewrite Hready in Hr.
        destruct ph; cbn [call_token] in Ak; try done. by rewrite Hr in Ak.
      * intros ec' n' Hq. by destruct (Ac ec' n' eq_refl).
    + apply (faithful_frame x σ); system_simpl; auto.
      * rewrite Hp, Hport. set_solver.
      * intros ec' n' [Hq|Hq]%in_insert; [congruence|done].
  - assert ((pc' = AtLoop \/ pc' = GotStop) /\ c = set_port rest (ctx σ)) as [Hpc ->].
    { case_Z_in Hd; injection Hd as <- <-; auto. }
    apply kept_move; try done; [by destruct Hpc as [-> | ->]|]. intros q o Hq _. cbn in Hq. rewrite Hport. set_solver.
Qed.

Lemma kept_complete σ i o ec n c : exact σ -> results_kept σ -> threads σ !! i = Some (GotOp o ec n) ->
  try_complete o (ctx σ) = (c, true) -> results_kept (log_completion o ec n (put i (InHandler o) c σ)).
Proof.
  intros Hσ [Hf Hco] Hi. unfold try_complete.
  destruct (ex_bit _ Hσ o) as [Hr|Hr]; rewrite Hr; cbn [Z.eqb]; intros [= <-]. split; [|done].
  assert (reported σ !! o = Some (ec, n)) as Hrep by (eapply (fa_held _ _ (Hf o)), list_elem_of_lookup_2, Hi).
  intros x. destruct (Hf x) as [Hport Hheld Hcall Hcomp]. constructor; system_simpl; auto.
  - intros ec' n' [Hq|Hq]%in_insert; [done|auto].
  - intros ec' n' [Hq|Hq%list_elem_of_singleton]%elem_of_app; [auto|congruence].
Qed.

Lemma kept_not_ready σ i o ec n c : exact σ -> results_kept σ -> threads σ !! i = Some (GotOp o ec n) ->
  try_complete o (ctx σ) = (c, false) -> results_kept (put i AtLoop c σ).
Proof.
  intros Hσ [Hf Hco] Hi Ht. destruct (exact_not_ready _ _ _ _ _ _ Hσ Hi Ht) as (_ & Hc & ->).
  destruct (fa_held _ _ (Hf o) ec n) as [Hrep Hres]; [by eapply list_elem_of_lookup_2|].
  destruct (alone_held o σ i ec n Hσ Hi) as [Ap _ _ Ac].
  split; [|done]. intros x. destruct (decide (x = o)) as [->|Hx].
  - constructor; system_simpl; unfold packet_result; rewrite ?op_result_ready.
    + intros p Hp Ho. by destruct (Ap p eq_refl Hp).
    + intros ec' n' [Hq|Hq]%in_insert; [done|]. by apply (fa_held _ _ (Hf o)).
    + intros ph _ _ _. congruence.
    + intros ec' n' Hq. by destruct (Ac ec' n' eq_refl).
  - apply (faithful_frame x σ); system_simpl; auto.
    + intros ec' n' [Hq|Hq]%in_insert; [done|auto].
    + unfold set_ready. by rewrite op_at_set, decide_False.
Qed.

Lemma kept_ctx σ c : results_kept σ -> ops c = ops (ctx σ) -> completed_ops_ c = completed_ops_ (ctx σ) ->
  (forall q o, q ∈ port c -> overlapped q = Some o -> q ∈ port (ctx σ)) -> results_kept (set_ctx c σ).
Proof.
  intros [Hf Hco] Hops Hco' Hport. split; [|system_simpl; congruence].
  intros x. apply (faithful_frame x σ); system_simpl; eauto. unfold op_at. by rewrite Hops.
Qed.

Lemma no_op_packet k c q o : q ∈ port (pqcs k None c) -> overlapped q = Some o -> q ∈ port c.
Proof. cbn. intros [Hq|Hq%list_elem_of_singleton]%elem_of_app Ho; [done|]. by subst q. Qed.

Lemma kept_istep σ σ' : exact σ -> results_kept σ -> istep false σ σ' -> results_kept σ'.
Proof.
  intros Hσ Hk Hstep. destruct Hstep;
    try (match goal with ok : bool, H : ?ok = false -> false = true |- _ =>
           destruct ok; [clear H|by specialize (H eq_refl)] end).
  - by apply kept_start.
  - by apply (kept_post σ o 0 _ (sys 0, 0) Hσ Hk H).
  - by apply (kept_post σ o overlapped_contains_result (mkOp 1 ec n) (ec, n) Hσ Hk H).
  - by apply kept_os_call.
  - by apply kept_os_complete.
  - by eapply kept_on_pending.
  - by apply kept_pending_post.
  - apply kept_move; eauto. intros o. unfold run_entry. by destruct (_ =? 0).
  - destruct Hk as [Hf Hco]. unfold dispatch. rewrite Hco. cbn [post_deferred_completions].
    apply kept_move; try done; destruct (_ =? 1); eauto.
  - by eapply kept_dequeue.
  - apply kept_move; eauto. intros o. by destruct back.
  - by eapply kept_complete.
  - by eapply kept_not_ready.
  - injection H0 as <- _. apply kept_move; eauto. intros x. by case_match.
  - by apply kept_move; eauto.
  - injection H0 as <- _. apply kept_move; eauto. intros x. by destruct more, back.
  - injection H0 as <- _. apply kept_move; eauto. intros x. by destruct more, back.
  - apply kept_move; eauto; [intros x; by destruct back|]. intros q o. apply no_op_packet.
  - done.
  - by apply kept_move; eauto.
  - apply kept_move; eauto. intros o. by destruct (negb _).
  - injection H0 as <- _. apply kept_move; eauto. intros x. by destruct more.
  - apply kept_move; eauto. intros q o. apply no_op_packet.
  - done.
  - by apply kept_ctx; eauto.
  - apply kept_ctx; eauto. intros q o Hq Ho. apply (no_op_packet _ _ _ _ Hq Ho).
Qed.

(** ** Stop events *)

Definition is_stop (p : packet) : Z :=
  match overlapped p with
  | None => if completion_key p =? wake_for_dispatch then 0 else 1
  | Some _ => 0
  end.
(** A thread that answers for the stop event in flight. *)
Definition stop_holder (p : pc) : Z := match p with Stop3 _ | GotStop | Repost2 => 1 | _ => 0 end.
(** A thread that will look at the flags. *)
Definition stop_checker (p : pc) : Z := match p with Stop2 _ | CheckStopped | Repost1 => 1 | _ => 0 end.

Record stops_counted (σ : system) : Prop := mkStopsCounted {
  sc_posted : stop_event_posted_ (ctx σ) = sum_by is_stop (port (ctx σ)) + sum_by stop_holder (threads σ);
  sc_bit : stop_event_posted_ (ctx σ) = 0 \/ stop_event_posted_ (ctx σ) = 1;
  sc_stopped : stopped_ (ctx σ) <> 0 ->
    stop_event_posted_ (ctx σ) = 1 \/ 1 <= sum_by stop_checker (threads σ) }.

Lemma checkers_nonneg ts : 0 <= sum_by stop_checker ts.
Proof. apply sum_by_nonneg, Forall_forall. intros [] _; cbn; lia. Qed.

Lemma counted_move σ i q p c : stops_counted σ -> threads σ !! i = Some q ->
  stop_event_posted_ c - sum_by is_stop (port c) - stop_holder p
    = stop_event_posted_ (ctx σ) - sum_by is_stop (port (ctx σ)) - stop_holder q ->
  (stop_event_posted_ c = 0 \/ stop_event_posted_ c = 1) ->
  (stopped_ c <> 0 -> stop_event_posted_ c = 1 \/ 1 <= stop_checker p \/
    (stop_checker q = 0 /\ stopped_ (ctx σ) <> 0 /\ stop_event_posted_ c = stop_event_posted_ (ctx σ))) ->
  stops_counted (put i p c σ).
Proof.
  intros [H1 H2 H3] Hi Hp Hb Hs. constructor; system_simpl.
  - rewrite (sum_by_insert _ _ _ _ _ Hi). lia.
  - done.
  - intros Hst. rewrite (sum_by_insert _ _ _ _ _ Hi).
    pose proof (sum_by_ge stop_checker (threads σ) i q) as Hge.
    assert (stop_checker q <= sum_by stop_checker (threads σ)) as Hq.
    { apply Hge; [|done]. apply Forall_forall. intros [] _; cbn; lia. }
    assert (0 <= stop_checker p) by (destruct p; cbn; lia).
    destruct (Hs Hst) as [?|[?|(Hq0 & Hst' & Heq)]]; [by left|right; lia|].
    destruct (H3 Hst') as [?|?]; [left; congruence|right; lia].
Qed.

(** The same for steps that only add packets of operations. *)
Lemma counted_same σ σ' : stops_counted σ -> threads σ' = threads σ ->
  stop_event_posted_ (ctx σ') = stop_event_posted_ (ctx σ) -> (stopped_ (ctx σ') <> 0 -> stopped_ (ctx σ) <> 0) ->
  sum_by is_stop (port (ctx σ')) = sum_by is_stop (port (ctx σ)) -> stops_counted σ'.
Proof. intros [H1 H2 H3] Ht Hp Hs Hq. constructor; rewrite ?Ht, ?Hp, ?Hq; auto. Qed.

Ltac add_packet := apply (counted_same _ _ ltac:(eassumption)); try done; cbn; rewrite ?sum_by_app; cbn; lia.

Lemma counted_dequeue σ i p rest c pc' : stops_counted σ -> threads σ !! i = Some Waiting -> port (ctx σ) = p :: rest ->
  dequeued p (set_port rest (ctx σ)) = (c, pc') -> stops_counted (put i pc' c σ).
Proof.
  intros Hs Hi Hp Hd. pose proof (sc_bit _ Hs) as Hb. unfold dequeued in Hd. destruct (overlapped p) as [o|] eqn:Ho.
  - assert (stop_event_posted_ c = stop_event_posted_ (ctx σ) /\ stopped_ c = stopped_ (ctx σ) /\ port c = rest
      /\ stop_holder pc' = 0 /\ stop_checker pc' = 0) as (H2 & H3 & H4 & H5 & H6)
      by (case_Z_in Hd; by injection Hd as <- <-).
    apply (counted_move σ i Waiting); auto; rewrite ?H2, ?H3, ?H4, ?H5, ?Hp; cbn; auto 6.
    unfold is_stop at 2. rewrite Ho. lia.
  - assert (is_stop p = if completion_key p =? wake_for_dispatch then 0 else 1) as Hk by (unfold is_stop; by rewrite Ho).
    case_Z_in Hd; injection Hd as <- <-; apply (counted_move σ i Waiting); auto; rewrite ?Hp; cbn; rewrite ?Hk; auto 6; lia.
Qed.

(** A thread that holds the stop event: it was posted. *)
Lemma stop_held_posted σ i : stops_counted σ -> threads σ !! i = Some GotStop -> 1 <= stop_event_posted_ (ctx σ).
Proof.
  intros Hs Hi. rewrite (sc_posted _ Hs).
  pose proof (sum_by_ge stop_holder (threads σ) i GotStop) as Hge. cbn in Hge.
  assert (0 <= sum_by is_stop (port (ctx σ))).
  { apply sum_by_nonneg, Forall_forall. intros x _. unfold is_stop. case_match; [lia|]. case_match; lia. }
  assert (1 <= sum_by stop_holder (threads σ)); [|lia]. apply Hge; [|done]. apply Forall_forall. intros [] _; cbn; lia.
Qed.

Lemma counted_istep σ σ' : exact σ -> results_kept σ -> stops_counted σ -> istep false σ σ' -> stops_counted σ'.
Proof.
  intros Hσ Hk Hs Hstep. pose proof (sc_bit _ Hs) as Hb. destruct Hstep;
    try (match goal with ok : bool, H : ?ok = false -> false = true |- _ =>
           destruct ok; [clear H|by specialize (H eq_refl)] end).
  - by apply (counted_same σ).
  - add_packet.
  - add_packet.
  - by apply (counted_same σ).
  - add_packet.
  - unfold on_pending in H0. destruct (ready_ _ =? 0); injection H0 as <- <-; by apply (counted_same σ).
  - add_packet.
  - apply (counted_move σ i Outside); auto; unfold run_entry; destruct (_ =? 0); cbn; auto 6; lia.
  - destruct Hk as [_ Hco]. unfold dispatch. rewrite Hco. cbn [post_deferred_completions].
    apply (counted_move σ i AtLoop); auto; destruct (_ =? 1); cbn; auto 6; lia.
  - by eapply counted_dequeue.
  - apply (counted_move σ i Waiting); auto; destruct back; cbn; auto 6; lia.
  - assert (stops_counted (put i (InHandler o) c σ)) as []; [|by constructor].
    unfold try_complete in H0. destruct (_ =? 0); injection H0 as <-; apply (counted_move σ i (GotOp o ec n)); auto; cbn; auto 6.
  - unfold try_complete in H0. destruct (_ =? 0); injection H0 as <-; try intros _;
      apply (counted_move σ i (GotOp o ec n)); auto; cbn; auto 6.
  - injection H0 as <- _. apply (counted_move σ i (InHandler o)); auto; case_match; cbn; auto 6.
  - apply (counted_move σ i Outside); auto; cbn; auto 6.
  - injection H0 as <- <-. apply (counted_move σ i (Stop1 back)); auto; cbn;
      destruct (stopped_ (ctx σ) =? 0) eqn:E; try (destruct back; cbn; lia); cbn; auto 6.
  - injection H0 as <- <-. apply (counted_move σ i (Stop2 back)); auto; cbn; auto.
    destruct Hb as [-> | ->]; cbn; [lia|]. destruct back; cbn; lia.
  - apply (counted_move σ i (Stop3 back)); auto; cbn.
    rewrite sum_by_app. destruct back; cbn; lia.
  - done.
  - apply (counted_move σ i GotStop); auto; cbn; [pose proof (stop_held_posted σ i Hs H); lia|].
    intros _. right. left. lia.
  - apply (counted_move σ i CheckStopped); auto; cbn; destruct (stopped_ (ctx σ) =? 0) eqn:E; cbn; auto 6.
    + apply Z.eqb_eq in E. done.
    + intros _. right. left. lia.
  - injection H0 as <- <-. apply (counted_move σ i Repost1); auto; cbn; auto. destruct Hb as [-> | ->]; cbn; lia.
  - apply (counted_move σ i Repost2); auto; cbn. rewrite sum_by_app. cbn. lia.
  - done.
  - apply (counted_same σ); try done.
  - add_packet.
Qed.

(** ** Reachable systems *)

Lemma reachable_kept n σ : system_reachable false n σ -> exact σ /\ results_kept σ /\ stops_counted σ.
Proof.
  apply (reachable_invariant (fun σ => exact σ /\ results_kept σ /\ stops_counted σ)).
  - intros s ->. split_and!; [apply exact_new| |].
    + split; [|done]. intros o. constructor; cbn; try done.
      * intros p Hp. by apply elem_of_nil in Hp.
      * intros ec k Hin%elem_of_replicate. by destruct Hin.
      * intros ec k Hp. by apply elem_of_nil in Hp.
    + assert (sum_by stop_holder (replicate n Outside) = 0) as Hz.
      { induction n as [|n IH]; [done|]. cbn [replicate sum_by]. by rewrite IH. }
      constructor; [|by left|done]. cbn [ctx port stop_event_posted_ new_iocp new_system threads sum_by]. by rewrite Hz.
  - intros s s' (He & Hk & Hc) Hstep. split_and!; [by eapply exact_istep|by eapply kept_istep|by eapply counted_istep].
Qed.

(** The handler runs only after the starting function is done. *)
Definition call_finished (σ : system) : Prop := forall o, o ∈ completed_op <$> completions σ -> calls σ !! o = None.

Lemma finished_call_at σ o : exact σ -> 1 <= sum_by (held_by o) (threads σ) -> ready_ (op_at o (ctx σ)) = 1 ->
  calls σ !! o = None.
Proof.
  intros Hσ Hh Hr. pose proof (token_parts o σ Hσ) as Hp. unfold tokens in Hp.
  destruct (calls σ !! o) as [[]|] eqn:Hc; cbn [call_token] in Hp; rewrite ?Hr in Hp; cbn [Z.eqb] in Hp; [lia..|done].
Qed.

Lemma finished_istep may_fail σ σ' : exact σ -> call_finished σ -> istep may_fail σ σ' -> call_finished σ'.
Proof.
  intros Hσ Hf Hstep. assert (forall o, o ∈ completed_op <$> completions σ -> o ∈ started σ) as Hstarted.
  { intros o Ho%occurrences_in. destruct (decide (o ∈ started σ)) as [|Hn]; [done|].
    pose proof (token_parts o σ Hσ) as Hp. rewrite (occurrences_not_in o (started σ) Hn) in Hp. unfold tokens in Hp. lia. }
  assert (forall o ph s', o ∉ completed_op <$> completions σ \/ ph = None -> completions s' = completions σ ->
    calls s' = partial_alter (fun _ => ph) o (calls σ) -> call_finished s') as Hcall.
  { intros o ph s' Hn Hcs Hcl x Hx. rewrite Hcs in Hx. rewrite Hcl. call_cases x o; [|auto]. by destruct Hn. }
  destruct Hstep; try (intros x Hx; exact (Hf x Hx)); try (eapply Hcall; [|done|done]; by right).
  - eapply (Hcall o (Some Started)); [|done|done]. left. auto.
  - eapply (Hcall o (Some InCall)); [|done|done]. left. intros Hx%Hf. congruence.
  - eapply (Hcall o); [|done|done]. left. intros Hx%Hf. congruence.
  - intros x Hx. unfold log_completion in Hx. cbn [completions put] in Hx. rewrite fmap_app in Hx.
    apply elem_of_app in Hx as [Hx|Hx%list_elem_of_singleton]; [by apply Hf|]. subst x.
    change (calls σ !! o = None). apply finished_call_at; [done|by eapply held_token|]. unfold try_complete in H0.
    destruct (ex_bit _ Hσ o) as [Hr|Hr]; rewrite Hr in H0; [discriminate H0|exact Hr].
Qed.

Lemma reachable_finished may_fail n σ : system_reachable may_fail n σ -> exact σ /\ call_finished σ.
Proof.
  apply (reachable_invariant (fun σ => exact σ /\ call_finished σ)).
  - intros s ->. split; [apply exact_new|]. intros o Ho. by apply elem_of_nil in Ho.
  - intros s s' [He Hf] Hstep. split; [by eapply exact_istep|by eapply finished_istep].
Qed.

(** A run: the completion of an overlapped call overtakes the function that made
    it; a second call stays pending. *)
Lemma overtaking_run : exists σ, system_reachable false 1 σ /\ completions σ = [(7%nat, sys 0, 12)] /\
  threads σ = [Waiting] /\ port (ctx σ) = [] /\ started σ = [7; 8]%nat.
Proof.
  eexists. split.
  { eapply reach_step; [eapply reach_step; [eapply reach_step; [eapply reach_step; [eapply reach_step;
    [eapply reach_step; [eapply reach_step; [eapply reach_step; [eapply reach_step; [eapply reach_step;
    [eapply reach_step; [eapply reach_step; [eapply reach_step; [eapply reach_step; [eapply reach_step;
    [eapply reach_step; [apply reach_init; reflexivity| ]| ]| ]| ]| ]| ]| ]| ]| ]| ]| ]| ]| ]| ]| ]| ].
    - eapply (step_start _ _ 7%nat). vm_compute. by intros ?%elem_of_nil.
    - eapply (step_os_call _ _ 7%nat). vm_compute. reflexivity.
    - eapply (step_start _ _ 8%nat). vm_compute. by intros ?%list_elem_of_singleton.
    - eapply (step_os_call _ _ 8%nat). vm_compute. reflexivity.
    - eapply (step_enter _ _ 0%nat). vm_compute. reflexivity.
    - eapply (step_dispatch _ _ 0%nat []); [vm_compute; reflexivity|done].
    - eapply (step_os_complete _ _ 7%nat [8%nat] 0 12). vm_compute. reflexivity.
    - eapply (step_dequeue _ _ 0%nat); vm_compute; reflexivity.
    - eapply (step_not_ready _ _ 0%nat); vm_compute; reflexivity.
    - eapply (step_on_pending _ _ 7%nat); vm_compute; reflexivity.
    - eapply (step_pending_post _ _ 7%nat true); [vm_compute; reflexivity|done].
    - eapply (step_dispatch _ _ 0%nat []); [vm_compute; reflexivity|done].
    - eapply (step_dequeue _ _ 0%nat); vm_compute; reflexivity.
    - eapply (step_complete _ _ 0%nat); vm_compute; reflexivity.
    - eapply (step_handler_done _ _ 0%nat); vm_compute; reflexivity.
    - eapply (step_dispatch _ _ 0%nat []); [vm_compute; reflexivity|done]. }
  split_and!; vm_compute; reflexivity.
Qed.

(** ** Theorems *)

(** C24: however the threads of [run], the functions that start operations and
    the operating system interleave, and whether or not posts to the port fail:
    the handler of an operation is called at most once, only for an operation that
    was started, and only when the function that started it is done with it (a
    completion that overtakes that function is handed back to it); the count of
    outstanding work is the number of operations whose handler has not returned;
    and while posts succeed a handler gets exactly the error and the number of
    bytes that were reported for its operation, by the operating system or by the
    function that started it. *)
Theorem iocp_runs_once may_fail n σ (Hreach : system_reachable may_fail n σ) :
  NoDup (completed_op <$> completions σ) /\
  (forall o, o ∈ completed_op <$> completions σ -> o ∈ started σ /\ calls σ !! o = None) /\
  outstanding_work_ (ctx σ)
    = Z.of_nat (length (started σ)) - Z.of_nat (length (completions σ)) + sum_by running (threads σ) /\
  (may_fail = false -> forall o ec bytes, (o, ec, bytes) ∈ completions σ -> reported σ !! o = Some (ec, bytes)).
Proof.
  destruct (reachable_finished _ _ _ Hreach) as [Hσ Hf]. split_and!; [| |apply Hσ|].
  - apply nodup_occurrences. intros o. pose proof (token_parts o σ Hσ) as Hp. unfold tokens in Hp. lia.
  - intros o Ho. split; [|by apply Hf]. destruct (decide (o ∈ started σ)) as [|Hn]; [done|]. apply occurrences_in in Ho.
    pose proof (token_parts o σ Hσ) as Hp. rewrite (occurrences_not_in o (started σ) Hn) in Hp. unfold tokens in Hp. lia.
  - intros -> o ec bytes Hdone. destruct (reachable_kept _ _ Hreach) as (_ & [Hk _] & _). by apply (fa_completions _ _ (Hk o)).
Qed.

Lemma iocp_runs_once_witness : exists σ, system_reachable false 1 σ /\ NoDup (completed_op <$> completions σ) /\
  completions σ = [(7%nat, sys 0, 12)] /\ calls σ !! 7%nat = None /\ reported σ !! 7%nat = Some (sys 0, 12).
Proof.
  destruct overtaking_run as (σ & Hr & Hc & _). exists σ. split; [exact Hr|].
  destruct (iocp_runs_once false 1 σ Hr) as (Hn & Hd & _ & Hres). split; [exact Hn|]. split; [exact Hc|]. split.
  - apply Hd. rewrite Hc. apply list_elem_of_here.
  - apply (Hres eq_refl 7%nat (sys 0) 12). rewrite Hc. apply list_elem_of_here.
Defined.

(** When a post to the port fails, the result is lost: an operation that was
    completed with [bad_descriptor] and 5 bytes goes to [completed_ops_] and is
    posted again without its result, and its handler sees success and 0 bytes. *)
Theorem iocp_result_lost : exists σ, system_reachable true 1 σ /\
  reported σ !! 0%nat = Some (bad_descriptor, 5) /\ completions σ = [(0%nat, no_error, 0)].
Proof.
  eexists. split.
  { eapply reach_step; [eapply reach_step; [eapply reach_step; [eapply reach_step; [eapply reach_step;
    [eapply reach_step; [apply reach_init; reflexivity| ]| ]| ]| ]| ]| ].
    - eapply (step_start _ _ 0%nat). vm_compute. by intros ?%elem_of_nil.
    - eapply (step_on_completion _ _ 0%nat false bad_descriptor 5); [vm_compute; reflexivity|done].
    - eapply (step_enter _ _ 0%nat). vm_compute. reflexivity.
    - eapply (step_dispatch _ _ 0%nat []); [vm_compute; reflexivity|done].
    - eapply (step_dequeue _ _ 0%nat); vm_compute; reflexivity.
    - eapply (step_complete _ _ 0%nat); vm_compute; reflexivity. }
  split; vm_compute; reflexivity.
Qed.

(** C25: no wake-up and no completion is lost while posts succeed: when every
    thread in [run] waits at an empty port, the loop has not been stopped, and
    every operation started has had its handler called, or is still with the
    operating system or the function that starts it. *)
Theorem iocp_no_lost_wakeup n σ (Hreach : system_reachable false n σ)
    (Hidle : Forall (fun p => p = Outside \/ p = Waiting) (threads σ)) (Hempty : port (ctx σ) = []) :
  stopped_ (ctx σ) = 0 /\
  forall o, o ∈ started σ -> o ∈ completed_op <$> completions σ \/ o ∈ os_pending σ \/ is_Some (calls σ !! o).
Proof.
  destruct (reachable_kept _ _ Hreach) as (Hσ & [_ Hco] & Hs).
  assert (forall f : pc -> Z, f Outside = 0 -> f Waiting = 0 -> sum_by f (threads σ) = 0) as Hz.
  { intros f H1 H2. induction Hidle as [|p ts Hp _ IH]; [done|]. cbn. rewrite IH. destruct Hp; subst; lia. }
  split.
  - destruct (decide (stopped_ (ctx σ) = 0)) as [|Hst]; [done|]. exfalso.
    pose proof (sc_posted _ Hs) as Hp. rewrite Hempty, Hz in Hp by done. cbn in Hp.
    destruct (sc_stopped _ Hs Hst) as [H|H]; [lia|]. rewrite Hz in H by done. lia.
  - intros o Ho%occurrences_in. pose proof (token_parts o σ Hσ) as Hp. unfold tokens in Hp.
    rewrite Hempty, Hco, Hz in Hp by done. cbn [sum_by] in Hp. rewrite occurrences_nil in Hp.
    destruct (decide (o ∈ completed_op <$> completions σ)) as [|Hn]; [by left|].
    destruct (decide (o ∈ os_pending σ)) as [|Hn']; [by right; left|].
    rewrite (occurrences_not_in _ _ Hn), (occurrences_not_in _ _ Hn') in Hp.
    right. right. destruct (calls σ !! o); [done|]. cbn in Hp. lia.
Qed.

Lemma iocp_no_lost_wakeup_witness : exists σ, system_reachable false 1 σ /\ threads σ = [Waiting] /\
  stopped_ (ctx σ) = 0 /\ (8%nat ∈ completed_op <$> completions σ \/ 8%nat ∈ os_pending σ \/ is_Some (calls σ !! 8%nat)).
Proof.
  destruct overtaking_run as (σ & Hr & _ & Ht & Hp & Hs). exists σ. split; [exact Hr|]. split; [exact Ht|].
  assert (Forall (fun p => p = Outside \/ p = Waiting) (threads σ)) as Hi by (rewrite Ht; repeat constructor; by right).
  destruct (iocp_no_lost_wakeup 1 σ Hr Hi Hp) as [Hst Hall]. split; [exact Hst|]. apply Hall. rewrite Hs.
  apply list_elem_of_further, list_elem_of_here.
Defined.
