(* ===== verification/TimerQueue.v ===== *)
(** * timer_queue: the timers of an event loop

    [asio/detail/timer_queue.hpp].  A timer ([per_timer_data]) is its address;
    the active timers are on a doubly linked list, and those that can expire in a
    binary heap in which each knows its index.  Times are compared as integers.
    The queue of operations of a timer is the list it stands for ([OpQueue]). *)

From stdpp Require Import base list gmap.
From Stdlib Require Import ZArith Lia.
From S2P Require Import Prelude NetError.
Local Open Scope exchange_scope.
Local Open Scope list_scope.

(** ** Definitions *)

Abbreviation time_type := Z.
Abbreviation timer := nat.

(** An operation that waits on a timer, with the key it can be cancelled by. *)
Record wait_op : Type := mkWaitOp {
  wo_op : nat;
  cancellation_key_ : nat }.

(** An operation that has been dequeued, with its [ec_]. *)
Abbreviation ready_op := (wait_op * error_code)%type.

(** [heap_index_] is [None] for the largest [size_t]. *)
Record per_timer_data : Type := mkPerTimerData {
  op_queue_ : list wait_op;
  heap_index_ : option nat;
  next_ : option timer;
  prev_ : option timer }.

Definition new_timer : per_timer_data := mkPerTimerData [] None None None.

Record heap_entry : Type := mkHeapEntry {
  time_ : time_type;
  timer_ : timer }.

Record timer_queue : Type := mkTimerQueue {
  timers_ : option timer;
  heap_ : list heap_entry;
  data : gmap timer per_timer_data }.

(** The constructor; timers are created outside of the queue. *)
Definition new_timer_queue : timer_queue := mkTimerQueue None [] ∅.

Definition timer_at (t : timer) (q : timer_queue) : per_timer_data := default new_timer (data q !! t).

Definition set_timer (t : timer) (d : per_timer_data) (q : timer_queue) : timer_queue :=
  mkTimerQueue (timers_ q) (heap_ q) (<[ t := d ]> (data q)).
Definition set_timers (t : option timer) (q : timer_queue) : timer_queue :=
  mkTimerQueue t (heap_ q) (data q).
Definition set_heap (h : list heap_entry) (q : timer_queue) : timer_queue :=
  mkTimerQueue (timers_ q) h (data q).

Definition with_ops (l : list wait_op) (d : per_timer_data) : per_timer_data :=
  mkPerTimerData l (heap_index_ d) (next_ d) (prev_ d).
Definition with_index (i : option nat) (d : per_timer_data) : per_timer_data :=
  mkPerTimerData (op_queue_ d) i (next_ d) (prev_ d).
Definition with_next (t : option timer) (d : per_timer_data) : per_timer_data :=
  mkPerTimerData (op_queue_ d) (heap_index_ d) t (prev_ d).
Definition with_prev (t : option timer) (d : per_timer_data) : per_timer_data :=
  mkPerTimerData (op_queue_ d) (heap_index_ d) (next_ d) t.

Definition update_timer (t : timer) (f : per_timer_data -> per_timer_data) (q : timer_queue) : timer_queue :=
  set_timer t (f (timer_at t q)) q.

Definition update_link (t : option timer) (f : per_timer_data -> per_timer_data) (q : timer_queue) : timer_queue :=
  match t with Some t => update_timer t f q | None => q end.

(** [heap_[i]] *)
Definition heap_at (i : nat) (q : timer_queue) : outcome heap_entry := of_option OutOfRange (heap_ q !! i).

(** ** The heap *)

Definition swap_heap (index1 index2 : nat) (q : timer_queue) : outcome timer_queue :=
  let* e1 := heap_at index1 q in
  let* e2 := heap_at index2 q in
  let q := set_heap (<[ index2 := e1 ]> (<[ index1 := e2 ]> (heap_ q))) q in
  let* e := heap_at index1 q in
  let q := update_timer (timer_ e) (with_index (Some index1)) q in
  let* e := heap_at index2 q in
  Ok (update_timer (timer_ e) (with_index (Some index2)) q).

Fixpoint up_heap (fuel index : nat) (q : timer_queue) : outcome timer_queue :=
  match fuel with
  | O => Fault OutOfFuel
  | S fuel =>
      match index with
      | O => Ok q
      | S _ =>
          let parent := Nat.div (index - 1) 2 in
          let* e := heap_at index q in
          let* p := heap_at parent q in
          if negb (time_ e <? time_ p)%Z then Ok q
          else
            let* q := swap_heap index parent q in
            up_heap fuel parent q
      end
  end.

Fixpoint down_heap (fuel index : nat) (q : timer_queue) : outcome timer_queue :=
  match fuel with
  | O => Fault OutOfFuel
  | S fuel =>
      let child := index * 2 + 1 in
      if (child <? length (heap_ q))%nat then
        let* e := heap_at child q in
        let* min_child :=
          (if (child + 1 =? length (heap_ q))%nat then Ok child
           else
             let* e2 := heap_at (child + 1) q in
             Ok (if (time_ e <? time_ e2)%Z then child else child + 1)) in
        let* c := heap_at min_child q in
        let* e := heap_at index q in
        if (time_ e <? time_ c)%Z then Ok q
        else
          let* q := swap_heap index min_child q in
          down_heap fuel min_child q
      else Ok q
  end.

(** A new timer goes in; [None] is a time of positive infinity. *)
Definition enter_heap (time : option time_type) (t : timer) (q : timer_queue) : outcome timer_queue :=
  match time with
  | None => Ok (update_timer t (with_index None) q)
  | Some time =>
      let size := length (heap_ q) in
      let q := update_timer t (with_index (Some size)) q in
      let q := set_heap (heap_ q ++ [mkHeapEntry time t]) q in
      up_heap (S size) size q
  end.

(** Removing [t] from the heap: the last entry takes its place. *)
Definition remove_from_heap (t : timer) (q : timer_queue) : outcome timer_queue :=
  let size := length (heap_ q) in
  match heap_index_ (timer_at t q) with
  | None => Ok q
  | Some index =>
      if (index <? size)%nat then
        if (index =? size - 1)%nat then
          let q := update_timer t (with_index None) q in
          Ok (set_heap (take (size - 1) (heap_ q)) q)
        else
          let* q := swap_heap index (size - 1) q in
          let q := update_timer t (with_index None) q in
          let q := set_heap (take (size - 1) (heap_ q)) q in
          let* up :=
            (if (0 <? index)%nat then
               let* e := heap_at index q in
               let* p := heap_at (Nat.div (index - 1) 2) q in
               Ok (time_ e <? time_ p)%Z
             else Ok false) in
          if up : bool then up_heap (S index) index q else down_heap size index q
      else Ok q
  end.

(** Removing it from the list of active timers. *)
Definition unlink_timer (t : timer) (q : timer_queue) : timer_queue :=
  let q := if bool_decide (timers_ q = Some t) then set_timers (next_ (timer_at t q)) q else q in
  let q := update_link (prev_ (timer_at t q)) (with_next (next_ (timer_at t q))) q in
  let q := update_link (next_ (timer_at t q)) (with_prev (prev_ (timer_at t q))) q in
  update_timer t (with_prev None) (update_timer t (with_next None) q).

Definition remove_timer (t : timer) (q : timer_queue) : outcome timer_queue :=
  let* q := remove_from_heap t q in
  Ok (unlink_timer t q).

(** Inserting it at the head of that list. *)
Definition link_timer (t : timer) (q : timer_queue) : timer_queue :=
  let q := update_timer t (with_next (timers_ q)) q in
  let q := update_timer t (with_prev None) q in
  let q := update_link (timers_ q) (with_prev (Some t)) q in
  set_timers (Some t) q.

(** ** Operations *)

(** [timer.prev_ != 0 || &timer == timers_] *)
Definition is_active (t : timer) (q : timer_queue) : bool :=
  bool_decide (is_Some (prev_ (timer_at t q))) || bool_decide (timers_ q = Some t).

Definition enqueue_timer (time : option time_type) (t : timer) (op : wait_op) (q : timer_queue)
    : outcome (bool * timer_queue) :=
  let* q :=
    (if is_active t q then Ok q
     else
       let* q := enter_heap time t q in
       Ok (link_timer t q)) in
  let q := update_timer t (fun d => with_ops (op_queue_ d ++ [op]) d) q in
  Ok (bool_decide (heap_index_ (timer_at t q) = Some 0) &&
      bool_decide (wo_op <$> head (op_queue_ (timer_at t q)) = Some (wo_op op)), q).

Definition tq_empty (q : timer_queue) : bool := bool_decide (timers_ q = None).

(** [wait_duration_msec] and [wait_duration_usec]: [ticks] ticks make the unit;
    the clock reads [now]; [subtract] is [Time_Traits::subtract]. *)
Definition to_unit (ticks d max_duration : Z) : Z :=
  if (d <=? 0)%Z then 0%Z
  else
    let n := Z.quot d ticks in
    if (n =? 0)%Z then 1%Z else if (max_duration <? n)%Z then max_duration else n.

Definition wait_duration (subtract : time_type -> time_type -> outcome Z) (ticks now max_duration : Z)
    (q : timer_queue) : outcome Z :=
  match heap_ q with
  | [] => Ok max_duration
  | e :: _ => let* d := subtract (time_ e) now in Ok (to_unit ticks d max_duration)
  end.

(** [get_ready_timers]: the loop over the heap. *)
Fixpoint get_ready_timers (fuel : nat) (now : time_type) (ops : list ready_op) (q : timer_queue)
    : outcome (list ready_op * timer_queue) :=
  match fuel with
  | O => Fault OutOfFuel
  | S fuel =>
      match heap_ q with
      | [] => Ok (ops, q)
      | e :: _ =>
          if (now <? time_ e)%Z then Ok (ops, q)
          else
            let t := timer_ e in
            let ops := ops ++ ((fun op => (op, no_error)) <$> op_queue_ (timer_at t q)) in
            let q := update_timer t (with_ops []) q in
            let* q := remove_timer t q in
            get_ready_timers fuel now ops q
      end
  end.

(** [get_all_timers]: the loop over the list, and [heap_.clear()]. *)
Fixpoint get_all_loop (fuel : nat) (ops : list wait_op) (q : timer_queue)
    : outcome (list wait_op * timer_queue) :=
  match fuel with
  | O => Fault OutOfFuel
  | S fuel =>
      match timers_ q with
      | None => Ok (ops, q)
      | Some t =>
          let q := set_timers (next_ (timer_at t q)) q in
          let ops := ops ++ op_queue_ (timer_at t q) in
          let q := update_timer t (with_ops []) q in
          get_all_loop fuel ops (update_timer t (with_prev None) (update_timer t (with_next None) q))
      end
  end.

Definition get_all_timers (fuel : nat) (ops : list wait_op) (q : timer_queue)
    : outcome (list wait_op * timer_queue) :=
  let* (ops, q) := get_all_loop fuel ops q in
  Ok (ops, set_heap [] q).

(** [cancel_timer]: the number cancelled and the operations pushed. *)
Definition cancel_timer (t : timer) (max_cancelled : nat) (q : timer_queue)
    : outcome (nat * list ready_op * timer_queue) :=
  if is_active t q then
    let all := op_queue_ (timer_at t q) in
    let cancelled := take max_cancelled all in
    let q := update_timer t (with_ops (drop max_cancelled all)) q in
    let* q := (match op_queue_ (timer_at t q) with [] => remove_timer t q | _ => Ok q end) in
    Ok (length cancelled, (fun op => (op, operation_aborted)) <$> cancelled, q)
  else Ok (0, [], q).

Definition cancel_timer_by_key (t : timer) (key : nat) (q : timer_queue)
    : outcome (list ready_op * timer_queue) :=
  if is_active t q then
    let all := op_queue_ (timer_at t q) in
    let cancelled := filter (fun op => cancellation_key_ op = key) all in
    let other_ops := filter (fun op => cancellation_key_ op <> key) all in
    let q := update_timer t (with_ops other_ops) q in
    let* q := (match op_queue_ (timer_at t q) with [] => remove_timer t q | _ => Ok q end) in
    Ok ((fun op => (op, operation_aborted)) <$> cancelled, q)
  else Ok ([], q).

(** [move_timer]: what the timers hold, then the links. *)
Definition move_data (target source : timer) (q : timer_queue) : timer_queue :=
  let q := update_timer target (fun d => with_ops (op_queue_ d ++ op_queue_ (timer_at source q)) d) q in
  let q := update_timer source (with_ops []) q in
  let q := update_timer target (with_index (heap_index_ (timer_at source q))) q in
  let q := update_timer source (with_index None) q in
  match heap_index_ (timer_at target q) with
  | Some i => set_heap (alter (fun e => mkHeapEntry (time_ e) target) i (heap_ q)) q
  | None => q
  end.

Definition move_links (target source : timer) (q : timer_queue) : timer_queue :=
  let q := if bool_decide (timers_ q = Some source) then set_timers (Some target) q else q in
  let q := update_link (prev_ (timer_at source q)) (with_next (Some target)) q in
  let q := update_link (next_ (timer_at source q)) (with_prev (Some target)) q in
  let q := update_timer target (with_next (next_ (timer_at source q))) q in
  let q := update_timer target (with_prev (prev_ (timer_at source q))) q in
  update_timer source (with_prev None) (update_timer source (with_next None) q).

Definition move_timer (target source : timer) (q : timer_queue) : timer_queue :=
  move_links target source (move_data target source q).
