(* ===== verification/TimerQueueTheorems.v ===== *)
(** * Theorems about the timer queue

    [TimerQueue] keeps its invariant: the list of active timers is linked both
    ways, the heap is ordered by time, each timer knows its index.  Ready timers
    come out in the order of their times, all of them and no others. *)

From stdpp Require Import base list gmap.
From Stdlib Require Import ZArith Lia Sorted.
From S2P Require Import Prelude NetError TimerQueue.
Local Open Scope exchange_scope.
Local Open Scope list_scope.

(** ** Definitions *)

Definition parent (j : nat) : nat := Nat.div (j - 1) 2.

Definition le_at (h : list heap_entry) (i j : nat) : Prop :=
  forall a b, h !! i = Some a -> h !! j = Some b -> (time_ a <= time_ b)%Z.

Definition heap_order (h : list heap_entry) : Prop := forall j, 0 < j -> le_at h (parent j) j.

(** Each timer in the heap knows where it is. *)
Definition indexed (q : timer_queue) : Prop :=
  forall i e, heap_ q !! i = Some e -> heap_index_ (timer_at (timer_ e) q) = Some i.

Definition heap_timers (q : timer_queue) : list timer := timer_ <$> heap_ q.

(** The links of the active timers [l]. *)
Record linked (q : timer_queue) (l : list timer) : Prop := mkLinked {
  lk_nodup : NoDup l;
  lk_head : timers_ q = head l;
  lk_links : forall l1 t l2, l = l1 ++ t :: l2 ->
    next_ (timer_at t q) = head l2 /\ prev_ (timer_at t q) = last l1;
  lk_out : forall t, t ∉ l -> next_ (timer_at t q) = None /\ prev_ (timer_at t q) = None }.

(** The heap and the list agree. *)
Record structure (q : timer_queue) (l : list timer) : Prop := mkStructure {
  st_linked : linked q l;
  st_indexed : indexed q;
  st_order : heap_order (heap_ q);
  st_active : heap_timers q ⊆ l;
  st_never : forall t, t ∉ heap_timers q -> heap_index_ (timer_at t q) = None }.

(** The specification: for each active timer its time ([None] is never) and the
    operations that wait on it. *)
Abbreviation alarms := (gmap timer (option time_type * list wait_op)).

Definition due (q : timer_queue) (t : timer) (time : option time_type) : Prop :=
  match time with
  | Some x => mkHeapEntry x t ∈ heap_ q
  | None => t ∉ heap_timers q
  end.

(** What the queue has of timer [t]. *)
Definition entry_ok (q : timer_queue) (l : list timer) (t : timer) (v : option (option time_type * list wait_op)) : Prop :=
  match v with
  | Some (time, ops) => t ∈ l /\ op_queue_ (timer_at t q) = ops /\ ops <> [] /\ due q t time
  | None => t ∉ l /\ op_queue_ (timer_at t q) = []
  end.

Record abstracts (q : timer_queue) (l : list timer) (a : alarms) : Prop := mkAbstracts {
  ab_structure : structure q l;
  ab_entries : forall t, entry_ok q l t (a !! t) }.

(** [enqueue_timer]: the time counts when the timer is not active. *)
Definition alarm_enqueue (time : option time_type) (t : timer) (op : wait_op) (a : alarms) : alarms :=
  <[ t := match a !! t with Some (time', ops) => (time', ops ++ [op]) | None => (time, [op]) end ]> a.

(** Keeping the operations [f] of [t], and [t] active while there are any. *)
Definition alarm_keep (f : list wait_op -> list wait_op) (t : timer) (a : alarms) : alarms :=
  match a !! t with
  | Some (time, ops) => match f ops with [] => delete t a | ops' => <[ t := (time, ops') ]> a end
  | None => a
  end.

Definition alarm_ops (a : alarms) (t : timer) : list wait_op :=
  match a !! t with Some (_, ops) => ops | None => [] end.

Definition expired (now : time_type) (v : option time_type * list wait_op) : Prop :=
  match v with (Some x, _) => (x <= now)%Z | (None, _) => False end.

#[export] Instance expired_dec now v : Decision (expired now v).
Proof. destruct v as [[x|] ?]; simpl; apply _. Defined.

(** [get_ready_timers] at [now] takes the expired timers, the earliest first. *)
Definition alarms_ready (now : time_type) (a : alarms) (ops : list ready_op) (a' : alarms) : Prop :=
  exists es, NoDup es /\ StronglySorted (fun e f => (time_ e <= time_ f)%Z) es /\
    (forall e, e ∈ es <-> exists l, a !! timer_ e = Some (Some (time_ e), l) /\ (time_ e <= now)%Z) /\
    ops = es ≫= (fun e => (fun op => (op, no_error)) <$> alarm_ops a (timer_ e)) /\
    a' = filter (fun v => ~ expired now v.2) a.

(** The earliest time of an active timer. *)
Definition earliest (a : alarms) (x : time_type) : Prop :=
  (exists t ops, a !! t = Some (Some x, ops)) /\
  forall t y ops, a !! t = Some (Some y, ops) -> (x <= y)%Z.

Definition alarm_move (target source : timer) (a : alarms) : alarms :=
  match a !! source with Some v => <[ target := v ]> (delete source a) | None => a end.

(** [enqueue_timer] wakes the event loop only for an operation that is the next to be ready,
    and for every operation that is ready before all others. *)
Definition wakes (a : alarms) (t : timer) (op : wait_op) (b : bool) : Prop :=
  let first := fun x => exists ops, a !! t = Some (Some x, ops) /\ wo_op <$> head ops = Some (wo_op op) in
  (b = true -> exists x, first x /\ earliest a x) /\
  (forall x, first x -> (forall u y ops, u <> t -> a !! u = Some (Some y, ops) -> (x < y)%Z) -> b = true).

(** Calls on a queue, and what they return. *)
Inductive tq_call : Type :=
  | EnqueueTimer (time : option time_type) (t : timer) (op : wait_op)
  | CancelTimer (t : timer) (max_cancelled : nat)
  | CancelTimerByKey (t : timer) (key : nat)
  | GetReadyTimers (now : time_type)
  | MoveTimer (target source : timer).

Inductive tq_result : Type :=
  | Enqueued (earliest : bool)
  | Cancelled (n : nat) (ops : list ready_op)
  | Dequeued (ops : list ready_op)
  | Moved.

Definition tq_step (c : tq_call) (q : timer_queue) : outcome (tq_result * timer_queue) :=
  match c with
  | EnqueueTimer time t op => let* (b, q) := enqueue_timer time t op q in Ok (Enqueued b, q)
  | CancelTimer t n => let* (r, q) := cancel_timer t n q in Ok (Cancelled (fst r) (snd r), q)
  | CancelTimerByKey t key => let* (ops, q) := cancel_timer_by_key t key q in Ok (Dequeued ops, q)
  | GetReadyTimers now => let* (ops, q) := get_ready_timers (S (length (heap_ q))) now [] q in Ok (Dequeued ops, q)
  | MoveTimer target source => Ok (Moved, move_timer target source q)
  end.

Fixpoint tq_run (cs : list tq_call) (q : timer_queue) : outcome (list tq_result * timer_queue) :=
  match cs with
  | [] => Ok ([], q)
  | c :: cs => let* (r, q) := tq_step c q in let* (rs, q) := tq_run cs q in Ok (r :: rs, q)
  end.

Definition alarm_step (c : tq_call) (a : alarms) : alarms :=
  match c with
  | EnqueueTimer time t op => alarm_enqueue time t op a
  | CancelTimer t n => alarm_keep (drop n) t a
  | CancelTimerByKey t key => alarm_keep (filter (fun op => cancellation_key_ op <> key)) t a
  | GetReadyTimers now => filter (fun v => ~ expired now v.2) a
  | MoveTimer target source => alarm_move target source a
  end.

(** A timer is moved to another one, on which nothing waits. *)
Definition tq_allowed (c : tq_call) (a : alarms) : Prop :=
  match c with MoveTimer target source => target <> source /\ a !! target = None | _ => True end.

(** The result that a call owes its caller. *)
Definition tq_promised (c : tq_call) (a : alarms) (r : tq_result) : Prop :=
  let aborted := fmap (fun op : wait_op => (op, operation_aborted)) in
  match c, r with
  | EnqueueTimer time t op, Enqueued b => wakes (alarm_enqueue time t op a) t op b
  | CancelTimer t n, Cancelled k ops => k = length ops /\ ops = aborted (take n (alarm_ops a t))
  | CancelTimerByKey t key, Dequeued ops =>
      ops = aborted (filter (fun op => cancellation_key_ op = key) (alarm_ops a t))
  | GetReadyTimers now, Dequeued ops => alarms_ready now a ops (alarm_step c a)
  | MoveTimer _ _, Moved => True
  | _, _ => False
  end.

Fixpoint tq_calls_ok (cs : list tq_call) (a : alarms) : Prop :=
  match cs with [] => True | c :: cs => tq_allowed c a /\ tq_calls_ok cs (alarm_step c a) end.

Fixpoint tq_results_ok (cs : list tq_call) (rs : list tq_result) (a : alarms) : Prop :=
  match cs, rs with
  | [], [] => True
  | c :: cs, r :: rs => tq_promised c a r /\ tq_results_ok cs rs (alarm_step c a)
  | _, _ => False
  end.

Definition alarm_run (cs : list tq_call) (a : alarms) : alarms := fold_left (fun a c => alarm_step c a) cs a.

(** ** Accessors *)

Lemma timer_at_update t u f q :
  timer_at u (update_timer t f q) = if decide (t = u) then f (timer_at t q) else timer_at u q.
Proof.
  unfold timer_at, update_timer, set_timer. simpl. destruct (decide (t = u)) as [<-|Hne].
  - by rewrite lookup_insert_eq.
  - by rewrite lookup_insert_ne.
Qed.

Lemma timer_at_link t u f q :
  timer_at u (update_link t f q) = if decide (t = Some u) then f (timer_at u q) else timer_at u q.
Proof.
  destruct t as [t|]; simpl; [|done].
  rewrite timer_at_update. repeat case_decide; congruence.
Qed.

Lemma heap_update_link t f q : heap_ (update_link t f q) = heap_ q /\ timers_ (update_link t f q) = timers_ q.
Proof. by destruct t. Qed.

(** [q'] differs from [q] in the order of its heap and the indices of the timers there. *)
Record reordered (q q' : timer_queue) : Prop := mkReordered {
  ro_timers : timers_ q' = timers_ q;
  ro_heap : heap_ q' ≡ₚ heap_ q;
  ro_data : forall t, op_queue_ (timer_at t q') = op_queue_ (timer_at t q) /\
    next_ (timer_at t q') = next_ (timer_at t q) /\ prev_ (timer_at t q') = prev_ (timer_at t q);
  ro_index : forall t, t ∉ heap_timers q -> heap_index_ (timer_at t q') = heap_index_ (timer_at t q) }.

Lemma reordered_refl q : reordered q q.
Proof. by constructor. Qed.

Lemma reordered_trans q1 q2 q3 : reordered q1 q2 -> reordered q2 q3 -> reordered q1 q3.
Proof.
  intros [H1 H2 H3 H4] [K1 K2 K3 K4]. constructor; [by rewrite K1|by rewrite K2| |].
  - intros t. destruct (K3 t) as (-> & -> & ->). apply H3.
  - intros t Ht. rewrite K4; [by apply H4|]. unfold heap_timers. by rewrite H2.
Qed.

(** ** Swapping *)

Definition swapped (i j : nat) (a b : heap_entry) (h : list heap_entry) : list heap_entry :=
  <[ j := a ]> (<[ i := b ]> h).

Lemma swapped_lookup i j a b h k : h !! i = Some a -> h !! j = Some b -> i <> j ->
  swapped i j a b h !! k = if decide (k = i) then Some b else if decide (k = j) then Some a else h !! k.
Proof.
  intros Hi Hj Hne. unfold swapped. destruct (decide (k = i)) as [->|Hki].
  - rewrite list_lookup_insert_ne by done. apply list_lookup_insert_eq. by eapply lookup_lt_Some.
  - destruct (decide (k = j)) as [->|Hkj].
    + apply list_lookup_insert_eq. rewrite length_insert. by eapply lookup_lt_Some.
    + by rewrite !list_lookup_insert_ne by done.
Qed.

Lemma swapped_perm i j a b h : h !! i = Some a -> h !! j = Some b -> swapped i j a b h ≡ₚ h.
Proof. intros Hi Hj. unfold swapped. by apply Permutation_insert_swap. Qed.

(** The entries of a heap whose timers know their index are of different timers. *)
Lemma indexed_inj q i j a b : indexed q -> heap_ q !! i = Some a -> heap_ q !! j = Some b ->
  timer_ a = timer_ b -> i = j.
Proof. intros Hq Hi Hj He. apply Hq in Hi, Hj. rewrite He in Hi. congruence. Qed.

Lemma swap_heap_spec i j a b q : indexed q -> heap_ q !! i = Some a -> heap_ q !! j = Some b -> i <> j ->
  exists q', swap_heap i j q = Ok q' /\ heap_ q' = swapped i j a b (heap_ q) /\ indexed q' /\ reordered q q'.
Proof.
  intros Hq Hi Hj Hne. unfold swap_heap, heap_at. rewrite Hi, Hj. cbn [of_option obind].
  pose proof (swapped_lookup i j a b (heap_ q) i Hi Hj Hne) as Hsi.
  pose proof (swapped_lookup i j a b (heap_ q) j Hi Hj Hne) as Hsj.
  rewrite decide_True in Hsi by done. rewrite decide_False, decide_True in Hsj by done.
  fold (swapped i j a b (heap_ q)). set (q1 := set_heap _ q).
  assert (heap_ q1 = swapped i j a b (heap_ q)) as Hq1 by done.
  rewrite Hq1, Hsi. cbn [of_option obind]. set (q2 := update_timer _ _ q1).
  assert (heap_ q2 = swapped i j a b (heap_ q)) as Hq2 by done.
  rewrite Hq2, Hsj. cbn [of_option obind]. subst q2 q1.
  eexists. split; [done|]. split; [done|].
  assert (timer_ a <> timer_ b) as Hab by (intros He; by apply Hne, (indexed_inj q i j a b)).
  split.
  - intros k e Hk. cbn [heap_ update_timer set_timer set_heap] in Hk. rewrite !timer_at_update.
    rewrite (swapped_lookup i j a b (heap_ q) k Hi Hj Hne) in Hk.
    destruct (decide (k = i)) as [->|Hki]; [injection Hk as <-|].
    { rewrite decide_False by done. rewrite decide_True by done. done. }
    destruct (decide (k = j)) as [->|Hkj]; [injection Hk as <-|].
    { by rewrite decide_True by done. }
    rewrite !decide_False.
    + by apply Hq.
    + intros He. by apply Hkj, (indexed_inj q k j e b).
    + intros He. by apply Hki, (indexed_inj q k i e a).
  - constructor; cbn [heap_ update_timer set_timer set_heap timers_]; [done|by apply swapped_perm| |].
    + intros t. rewrite !timer_at_update. by repeat case_decide; subst.
    + intros t Ht. rewrite !timer_at_update. unfold heap_timers in Ht. rewrite !decide_False; [done|..].
      * intros <-. apply Ht, list_elem_of_fmap_2. by eapply list_elem_of_lookup_2.
      * intros <-. apply Ht, list_elem_of_fmap_2. by eapply list_elem_of_lookup_2.
Qed.

(** ** Restoring the order of the heap *)

Lemma parent_lt j : 0 < j -> parent j < j.
Proof. intros Hj. unfold parent. pose proof (Nat.Div0.div_le_mono (j - 1) j 2). pose proof (Nat.div_le_upper_bound (j - 1) 2 (j - 1)). lia. Qed.

Lemma parent_children i j : 0 < j -> parent j = i <-> j = 2 * i + 1 \/ j = 2 * i + 2.
Proof.
  intros Hj. unfold parent. pose proof (Nat.div_mod_eq (j - 1) 2). pose proof (Nat.mod_upper_bound (j - 1) 2). lia.
Qed.

(** The order, but for the entry at [i] and its parent. *)
Definition up_inv (i : nat) (h : list heap_entry) : Prop :=
  (forall j, 0 < j -> j <> i -> le_at h (parent j) j) /\
  (forall j, 0 < j -> parent j = i -> 0 < i -> le_at h (parent i) j).

(** The order, but for the entry at [i] and its children. *)
Definition down_inv (i : nat) (h : list heap_entry) : Prop :=
  (forall j, 0 < j -> parent j <> i -> le_at h (parent j) j) /\
  (forall j, 0 < j -> parent j = i -> 0 < i -> le_at h (parent i) j).

Lemma le_at_trans h i j k b : h !! j = Some b -> le_at h i j -> le_at h j k -> le_at h i k.
Proof. intros Hj H1 H2 a c Ha Hc. pose proof (H1 _ _ Ha Hj). pose proof (H2 _ _ Hj Hc). lia. Qed.

(** A pair of places after a swap, by the cases of where they were. *)
Lemma le_swapped h i j a b x y : h !! i = Some a -> h !! j = Some b -> i <> j ->
  (forall e f, (if decide (x = i) then Some b else if decide (x = j) then Some a else h !! x) = Some e ->
     (if decide (y = i) then Some b else if decide (y = j) then Some a else h !! y) = Some f ->
     (time_ e <= time_ f)%Z) ->
  le_at (swapped i j a b h) x y.
Proof. intros Hi Hj Hne H e f. rewrite !(swapped_lookup i j a b h) by done. apply H. Qed.

Lemma up_swap h i a p : 0 < i -> h !! i = Some a -> h !! parent i = Some p -> (time_ a < time_ p)%Z ->
  up_inv i h -> up_inv (parent i) (swapped i (parent i) a p h).
Proof.
  intros Hi Ha Hp Hlt [H1 H2]. pose proof (parent_lt i Hi) as Hpi. assert (i <> parent i) as Hne by lia.
  split.
  - intros j Hj Hjp. pose proof (parent_lt j Hj). apply le_swapped; [done..|]. intros e f.
    rewrite (decide_False (P := j = parent i)) by done.
    destruct (decide (j = i)) as [->|Hji].
    { rewrite decide_False, decide_True by lia. intros [= <-] [= <-]. lia. }
    destruct (decide (parent j = i)) as [Hpj|Hpj].
    { intros [= <-] Hf. by apply (H2 j Hj Hpj Hi p f). }
    destruct (decide (parent j = parent i)) as [Hpp|Hpp]; intros He Hf.
    { injection He as <-. pose proof (H1 j Hj Hji) as Hle. rewrite Hpp in Hle. pose proof (Hle _ _ Hp Hf). lia. }
    by apply (H1 j Hj Hji).
  - intros j Hj Hpj Hp0. pose proof (parent_lt (parent i) Hp0). apply le_swapped; [done..|]. intros e f.
    rewrite (decide_False (P := parent (parent i) = i)), (decide_False (P := parent (parent i) = parent i)) by lia.
    intros He. pose proof (H1 (parent i) Hp0 ltac:(lia) e p He Hp).
    pose proof (parent_lt j Hj). rewrite (decide_False (P := j = parent i)) by lia.
    destruct (decide (j = i)) as [->|Hji]; [by intros [= <-]|]. intros Hf.
    pose proof (H1 j Hj Hji) as Hle. rewrite Hpj in Hle. pose proof (Hle _ _ Hp Hf). lia.
Qed.

(** [c] is the smaller child of [i]. *)
Lemma down_swap h i c a b : 0 < c -> parent c = i -> h !! i = Some a -> h !! c = Some b ->
  (time_ b <= time_ a)%Z ->
  (forall j e, 0 < j -> parent j = i -> h !! j = Some e -> (time_ b <= time_ e)%Z) ->
  down_inv i h -> down_inv c (swapped i c a b h).
Proof.
  intros Hc Hpc Ha Hb Hle Hmin [H1 H2]. pose proof (parent_lt c Hc). assert (i <> c) as Hne by lia.
  split.
  - intros j Hj Hpj. pose proof (parent_lt j Hj). apply le_swapped; [done..|]. intros e f.
    rewrite (decide_False (P := parent j = c)) by done.
    destruct (decide (j = i)) as [->|Hji].
    { rewrite decide_False by lia. intros He [= <-]. by apply (H2 c Hc Hpc Hj e b). }
    destruct (decide (parent j = i)) as [Hpi|Hpi].
    { intros [= <-]. destruct (decide (j = c)) as [->|Hjc]; [by intros [= <-]|]. by apply Hmin. }
    destruct (decide (j = c)) as [->|Hjc]; [done|]. by apply (H1 j Hj Hpi).
  - intros j Hj Hpj _. pose proof (parent_lt j Hj). apply le_swapped; [done..|]. intros e f.
    rewrite Hpc, decide_True by done. intros [= <-].
    rewrite decide_False, decide_False by lia. intros Hf.
    pose proof (H1 j Hj ltac:(lia)) as Hx. rewrite Hpj in Hx. by apply (Hx b f).
Qed.

Lemma up_heap_spec fuel : forall i q, i < fuel -> i < length (heap_ q) -> indexed q -> up_inv i (heap_ q) ->
  exists q', up_heap fuel i q = Ok q' /\ indexed q' /\ reordered q q' /\ heap_order (heap_ q').
Proof.
  induction fuel as [|fuel IH]; intros i q Hf Hi Hq Hup; [lia|]. cbn [up_heap]. destruct i as [|i'].
  { exists q. split; [done|]. split; [done|]. split; [apply reordered_refl|]. intros j Hj. apply Hup; lia. }
  set (i := S i') in *. fold (parent i). assert (0 < i) as H0 by lia. pose proof (parent_lt i H0) as Hpi.
  destruct (heap_ q !! i) as [a|] eqn:Ha; [|apply lookup_ge_None in Ha; lia].
  destruct (heap_ q !! parent i) as [p|] eqn:Hp; [|apply lookup_ge_None in Hp; lia].
  unfold heap_at at 1 2. rewrite Ha, Hp. cbn [of_option obind].
  destruct (time_ a <? time_ p)%Z eqn:Hlt; cbn [negb].
  - apply Z.ltb_lt in Hlt. destruct (swap_heap_spec i (parent i) a p q Hq Ha Hp) as (q1 & Hs & Hh & Hq1 & Hr1); [lia|].
    ok_step Hs. destruct (IH (parent i) q1) as (q' & Hrun & Hq' & Hr' & Ho); [lia| |done| |].
    + rewrite (Permutation_length (ro_heap _ _ Hr1)). lia.
    + rewrite Hh. by apply up_swap.
    + exists q'. split; [done|]. split; [done|]. split; [by eapply reordered_trans|done].
  - apply Z.ltb_ge in Hlt. exists q. split; [done|]. split; [done|]. split; [apply reordered_refl|].
    intros j Hj. destruct (decide (j = i)) as [->|Hji]; [|by apply Hup].
    intros x y Hx Hy. rewrite Hp in Hx. rewrite Ha in Hy. simplify_eq. lia.
Qed.

Lemma down_done h i : down_inv i h -> (forall j, 0 < j -> parent j = i -> le_at h i j) -> heap_order h.
Proof.
  intros [H1 _] H j Hj. destruct (decide (parent j = i)) as [Hp|Hp]; [|by apply H1]. rewrite Hp. by apply H.
Qed.

(** The smaller child that the loop chooses. *)
Definition min_child (h : list heap_entry) (i c : nat) (b : heap_entry) : Prop :=
  0 < c /\ parent c = i /\ h !! c = Some b /\
  forall j e, 0 < j -> parent j = i -> h !! j = Some e -> (time_ b <= time_ e)%Z.

Lemma choose_child i q : i * 2 + 1 < length (heap_ q) ->
  exists c b, min_child (heap_ q) i c b /\
    (let* e := heap_at (i * 2 + 1) q in
     if (i * 2 + 1 + 1 =? length (heap_ q))%nat then Ok (i * 2 + 1)
     else
       let* e2 := heap_at (i * 2 + 1 + 1) q in
       Ok (if (time_ e <? time_ e2)%Z then i * 2 + 1 else i * 2 + 1 + 1)) = Ok c.
Proof.
  intros Hc. set (c := i * 2 + 1) in *.
  destruct (heap_ q !! c) as [b|] eqn:Hb; [|apply lookup_ge_None in Hb; lia].
  unfold heap_at. rewrite Hb. cbn [of_option obind].
  assert (parent c = i /\ parent (c + 1) = i) as [Hp1 Hp2] by (split; apply parent_children; lia).
  assert (forall j, 0 < j -> parent j = i -> j = c \/ j = c + 1) as Hch
    by (intros j Hj Hpj; apply parent_children in Hpj; lia).
  destruct (Nat.eqb_spec (c + 1) (length (heap_ q))) as [Hlast|Hlast].
  - exists c, b. split; [|done]. split_and!; [lia|done|done|].
    intros j e Hj Hpj He. destruct (Hch j Hj Hpj) as [->| ->]; [by simplify_eq|].
    apply lookup_lt_Some in He. lia.
  - destruct (heap_ q !! (c + 1)) as [b2|] eqn:Hb2; [|apply lookup_ge_None in Hb2; lia]. cbn [of_option obind].
    destruct (time_ b <? time_ b2)%Z eqn:Hlt.
    + apply Z.ltb_lt in Hlt. exists c, b. split; [|done]. split_and!; [lia|done|done|].
      intros j e Hj Hpj He. destruct (Hch j Hj Hpj) as [->| ->]; simplify_eq; lia.
    + apply Z.ltb_ge in Hlt. exists (c + 1), b2. split; [|done]. split_and!; [lia|done|done|].
      intros j e Hj Hpj He. destruct (Hch j Hj Hpj) as [->| ->]; simplify_eq; lia.
Qed.

Lemma down_heap_spec fuel : forall i q, length (heap_ q) - i < fuel -> i < length (heap_ q) -> indexed q ->
  down_inv i (heap_ q) ->
  exists q', down_heap fuel i q = Ok q' /\ indexed q' /\ reordered q q' /\ heap_order (heap_ q').
Proof.
  induction fuel as [|fuel IH]; intros i q Hf Hi Hq Hdn; [lia|]. cbn [down_heap].
  destruct (Nat.ltb_spec (i * 2 + 1) (length (heap_ q))) as [Hc|Hc].
  2:{ exists q. split; [done|]. split; [done|]. split; [apply reordered_refl|]. eapply down_done; [exact Hdn|].
      intros j Hj Hp a b _ Hb. apply parent_children in Hp; [|done]. apply lookup_lt_Some in Hb. lia. }
  destruct (choose_child i q Hc) as (c & b & (Hc0 & Hpc & Hb & Hmin) & Hch).
  destruct (heap_at (i * 2 + 1) q) as [e1|]; cbn [obind] in Hch |- *; [|done].
  rewrite Hch. cbn [obind]. destruct (heap_ q !! i) as [a|] eqn:Ha; [|apply lookup_ge_None in Ha; lia].
  unfold heap_at. rewrite Hb, Ha. cbn [of_option obind]. pose proof (parent_lt c Hc0).
  destruct (time_ a <? time_ b)%Z eqn:Hlt.
  - apply Z.ltb_lt in Hlt. exists q. split; [done|]. split; [done|]. split; [apply reordered_refl|].
    eapply down_done; [exact Hdn|]. intros j Hj Hpj x y Hx Hy. pose proof (Hmin j y Hj Hpj Hy). simplify_eq. lia.
  - apply Z.ltb_ge in Hlt. destruct (swap_heap_spec i c a b q Hq Ha Hb) as (q1 & Hs & Hh & Hq1 & Hr1); [lia|].
    ok_step Hs. pose proof (Permutation_length (ro_heap _ _ Hr1)) as Hlen.
    apply lookup_lt_Some in Hb as Hcl.
    destruct (IH c q1) as (q' & Hrun & Hq' & Hr' & Ho); [lia|lia|done| |].
    + rewrite Hh. by apply (down_swap _ i).
    + exists q'. split; [done|]. split; [done|]. split; [by eapply reordered_trans|done].
Qed.

(** ** Removing a timer from the heap *)

(** [q'] is [q] without the entry [e] in its heap. *)
Record removed (e : heap_entry) (q q' : timer_queue) : Prop := mkRemoved {
  rm_timers : timers_ q' = timers_ q;
  rm_heap : heap_ q ≡ₚ e :: heap_ q';
  rm_data : forall t, op_queue_ (timer_at t q') = op_queue_ (timer_at t q) /\
    next_ (timer_at t q') = next_ (timer_at t q) /\ prev_ (timer_at t q') = prev_ (timer_at t q);
  rm_index : forall t, t ∉ heap_timers q -> heap_index_ (timer_at t q') = heap_index_ (timer_at t q);
  rm_gone : heap_index_ (timer_at (timer_ e) q') = None }.

Lemma removed_reordered e q q1 q2 : removed e q q1 -> timer_ e ∉ heap_timers q1 -> reordered q1 q2 -> removed e q q2.
Proof.
  intros [H1 H2 H3 H4 H5] Hn [K1 K2 K3 K4]. constructor.
  - by rewrite K1.
  - by rewrite K2.
  - intros t. destruct (K3 t) as (-> & -> & ->). apply H3.
  - intros t Ht. rewrite K4; [by apply H4|]. intros Hin. apply Ht. unfold heap_timers in *.
    rewrite H2, fmap_cons. by apply list_elem_of_further.
  - by rewrite K4.
Qed.

(** Dropping the last entry, of timer [t]. *)
Lemma drop_last_entry e q q1 : indexed q1 -> reordered q q1 -> heap_ q1 !! (length (heap_ q1) - 1) = Some e ->
  let q2 := set_heap (take (length (heap_ q1) - 1) (heap_ q1)) (update_timer (timer_ e) (with_index None) q1) in
  indexed q2 /\ removed e q q2 /\ timer_ e ∉ heap_timers q2.
Proof.
  intros Hq1 [H1 H2 H3 H4] Hlast. cbv zeta. set (n := length (heap_ q1) - 1) in *.
  assert (forall k f, take n (heap_ q1) !! k = Some f -> k < n /\ heap_ q1 !! k = Some f /\ timer_ f <> timer_ e) as Htake.
  { intros k f Hk. apply lookup_take_Some in Hk as [Hk Hlt]. split_and!; [done|done|].
    intros He. pose proof (indexed_inj q1 k n f e Hq1 Hk Hlast He). lia. }
  assert (timer_ e ∉ timer_ <$> take n (heap_ q1)) as Hni.
  { intros (f & Hf & Hin)%list_elem_of_fmap. apply list_elem_of_lookup in Hin as [k Hk].
    destruct (Htake k f Hk) as (_ & _ & Hne). congruence. }
  split; [|split; [constructor|done]]; cbn [heap_ timers_ set_heap update_timer set_timer].
  - intros k f Hk. cbn [heap_ set_heap] in Hk. destruct (Htake k f Hk) as (_ & Hk' & Hne).
    change (timer_at (timer_ f) (set_heap _ ?x)) with (timer_at (timer_ f) x).
    rewrite timer_at_update, decide_False by congruence. by apply Hq1.
  - done.
  - rewrite <- H2. rewrite <- (take_drop n (heap_ q1)) at 1. rewrite (drop_S _ e n Hlast).
    rewrite drop_ge by (unfold n; lia). by rewrite Permutation_app_comm.
  - intros t. change (timer_at t (set_heap _ ?x)) with (timer_at t x).
    change (timer_at t (set_timer (timer_ e) (with_index None (timer_at (timer_ e) q1)) q1))
      with (timer_at t (update_timer (timer_ e) (with_index None) q1)).
    rewrite timer_at_update. case_decide; subst; apply H3.
  - intros t Ht. change (timer_at t (set_heap _ ?x)) with (timer_at t x).
    change (timer_at t (set_timer (timer_ e) (with_index None (timer_at (timer_ e) q1)) q1))
      with (timer_at t (update_timer (timer_ e) (with_index None) q1)).
    rewrite timer_at_update, decide_False; [by apply H4|]. intros <-. apply Ht.
    unfold heap_timers. rewrite <- H2. apply list_elem_of_fmap_2. by eapply list_elem_of_lookup_2.
  - change (timer_at ?t (set_heap _ ?x)) with (timer_at t x).
    change (timer_at ?t (set_timer (timer_ e) (with_index None (timer_at (timer_ e) q1)) q1))
      with (timer_at t (update_timer (timer_ e) (with_index None) q1)).
    by rewrite timer_at_update, decide_True by done.
Qed.

Lemma heap_order_take h n : heap_order h -> heap_order (take n h).
Proof.
  intros Ho j Hj a b [Ha _]%lookup_take_Some [Hb _]%lookup_take_Some. by apply (Ho j Hj).
Qed.

(** The heap in which the last entry [l] has replaced the one at [i]. *)
Lemma replaced_inv h i e l : heap_order h -> h !! i = Some e -> h !! (length h - 1) = Some l ->
  i < length h - 1 ->
  let h' := take (length h - 1) (swapped i (length h - 1) e l h) in
  h' !! i = Some l /\ (forall k, k <> i -> k < length h - 1 -> h' !! k = h !! k) /\
  (forall j, 0 < j -> j <> i -> parent j <> i -> le_at h' (parent j) j) /\
  (forall j, 0 < j -> parent j = i -> 0 < i -> le_at h' (parent i) j).
Proof.
  intros Ho He Hl Hi. cbv zeta. set (n := length h - 1) in *. assert (i <> n) as Hne by lia.
  assert (forall k, k < n -> take n (swapped i n e l h) !! k = if decide (k = i) then Some l else h !! k) as Hk.
  { intros k Hlt. rewrite lookup_take_lt, (swapped_lookup i n e l h) by done.
    case_decide; [done|]. rewrite decide_False; [done|lia]. }
  assert (forall k x, take n (swapped i n e l h) !! k = Some x -> k < n) as Hlt.
  { intros k x Hx. by apply lookup_take_Some in Hx as [_ Hx]. }
  split; [by rewrite Hk, decide_True by done|]. split; [intros k Hki Hkn; by rewrite Hk, decide_False by done|].
  split.
  - intros j Hj Hji Hpi a b Ha Hb. rewrite Hk, decide_False in Ha by (by eauto).
    rewrite Hk, decide_False in Hb by (by eauto). by apply (Ho j Hj).
  - intros j Hj Hpj H0 a b Ha Hb. pose proof (parent_lt i H0). pose proof (parent_lt j Hj).
    rewrite Hk, decide_False in Ha by (lia || eauto). rewrite Hk, decide_False in Hb by (lia || eauto).
    pose proof (Ho i H0 _ _ Ha He). pose proof (Ho j Hj) as Hx. rewrite Hpj in Hx. pose proof (Hx _ _ He Hb). lia.
Qed.

(** Moving the entry at [i] to its place, whichever way that is. *)
Lemma restore_spec i l size q : indexed q -> heap_ q !! i = Some l -> length (heap_ q) < size ->
  (forall j, 0 < j -> j <> i -> parent j <> i -> le_at (heap_ q) (parent j) j) ->
  (forall j, 0 < j -> parent j = i -> 0 < i -> le_at (heap_ q) (parent i) j) ->
  exists q', (let* up :=
      (if (0 <? i)%nat then
         let* e := heap_at i q in
         let* p := heap_at (parent i) q in
         Ok (time_ e <? time_ p)%Z
       else Ok false) in
    if up : bool then up_heap (S i) i q else down_heap size i q) = Ok q' /\
    indexed q' /\ reordered q q' /\ heap_order (heap_ q').
Proof.
  intros Hq Hl Hsize H1 H2. pose proof (lookup_lt_Some _ _ _ Hl) as Hi.
  assert ((0 < i -> le_at (heap_ q) (parent i) i) -> down_inv i (heap_ q)) as Hdown.
  { intros Hle. split; [|done]. intros j Hj Hpj. destruct (decide (j = i)) as [->|Hji]; [by apply Hle|by apply H1]. }
  destruct (Nat.ltb_spec 0 i) as [H0|H0].
  2:{ cbn [obind]. apply down_heap_spec; [lia|done|done|]. apply Hdown. lia. }
  pose proof (parent_lt i H0) as Hpi. destruct (heap_ q !! parent i) as [p|] eqn:Hp; [|apply lookup_ge_None in Hp; lia].
  unfold heap_at at 1 2. rewrite Hl, Hp. cbn [of_option obind]. destruct (time_ l <? time_ p)%Z eqn:Hlt.
  - apply Z.ltb_lt in Hlt. apply up_heap_spec; [lia|done|done|]. split; [|done].
    intros j Hj Hji. destruct (decide (parent j = i)) as [Hpj|Hpj]; [|by apply H1].
    rewrite Hpj. intros x y Hx Hy. pose proof (H2 j Hj Hpj H0 p y Hp Hy). simplify_eq. lia.
  - apply Z.ltb_ge in Hlt. apply down_heap_spec; [lia|done|done|]. apply Hdown.
    intros _ x y Hx Hy. simplify_eq. lia.
Qed.

Lemma remove_from_heap_spec i e q : indexed q -> heap_order (heap_ q) -> heap_ q !! i = Some e ->
  exists q', remove_from_heap (timer_ e) q = Ok q' /\ indexed q' /\ heap_order (heap_ q') /\ removed e q q'.
Proof.
  intros Hq Ho He. unfold remove_from_heap. rewrite (Hq i e He). pose proof (lookup_lt_Some _ _ _ He) as Hi.
  rewrite (proj2 (Nat.ltb_lt _ _) Hi). destruct (Nat.eqb_spec i (length (heap_ q) - 1)) as [Hlast|Hlast].
  { rewrite Hlast in He. destruct (drop_last_entry e q q Hq (reordered_refl q) He) as (Hi' & Hr & _).
    eexists. split; [done|]. split; [done|]. split; [|done]. by apply heap_order_take. }
  set (n := length (heap_ q) - 1) in *.
  destruct (heap_ q !! n) as [l|] eqn:Hl; [|apply lookup_ge_None in Hl; lia].
  destruct (swap_heap_spec i n e l q Hq He Hl Hlast) as (q1 & Hs & Hh & Hq1 & Hr1). ok_step Hs.
  pose proof (Permutation_length (ro_heap _ _ Hr1)) as Hlen.
  destruct (drop_last_entry e q q1 Hq1 Hr1) as (Hq2 & Hr2 & Hout).
  { rewrite Hlen, Hh. fold n. rewrite (swapped_lookup i n e l) by done. by rewrite decide_False, decide_True. }
  rewrite Hlen in Hq2, Hr2, Hout. fold n in Hq2, Hr2, Hout.
  set (q2 := set_heap _ _) in *.
  assert (heap_ q2 = take n (swapped i n e l (heap_ q))) as Hh2 by (unfold q2; simpl; by rewrite Hh).
  change (set_heap (take n (heap_ (update_timer (timer_ e) (with_index None) q1)))
    (update_timer (timer_ e) (with_index None) q1)) with q2.
  destruct (replaced_inv (heap_ q) i e l Ho He Hl) as (Hnew & Hold & H1 & H2); [lia|]. fold n in Hnew, Hold, H1, H2.
  rewrite <- Hh2 in Hnew, Hold, H1, H2. pose proof (lookup_lt_Some _ _ _ Hnew) as Hi2.
  destruct (restore_spec i l (length (heap_ q)) q2 Hq2 Hnew) as (q' & Hrun & Hq' & Hr' & Ho'); [|done..|].
  { rewrite Hh2, length_take. unfold n. lia. }
  exists q'. split; [exact Hrun|]. split; [done|]. split; [done|]. by eapply removed_reordered.
Qed.

(** ** Removing a timer from the list *)

(** The links after unlinking. *)
Lemma unlink_links t q l1 l2 u : linked q (l1 ++ t :: l2) ->
  timers_ (unlink_timer t q) = head (l1 ++ l2) /\
  next_ (timer_at u (unlink_timer t q)) =
    (if decide (u = t) then None else if decide (last l1 = Some u) then head l2 else next_ (timer_at u q)) /\
  prev_ (timer_at u (unlink_timer t q)) =
    (if decide (u = t) then None else if decide (head l2 = Some u) then last l1 else prev_ (timer_at u q)).
Proof.
  intros [Hnd Hhd Hlk _]. destruct (Hlk l1 t l2 eq_refl) as [Hn Hp].
  assert (last l1 <> Some t /\ head l2 <> Some t) as [Hlt Hht].
  { apply NoDup_app in Hnd as (_ & Hd & Hnd). apply NoDup_cons in Hnd as [Hnt _]. split.
    - intros Hl. apply (Hd t); [by apply last_Some_elem_of|apply list_elem_of_here].
    - intros Hh. apply Hnt. destruct l2; simplify_eq/=. apply list_elem_of_here. }
  unfold unlink_timer. set (q1 := if bool_decide _ then _ else q).
  assert (forall x, timer_at x q1 = timer_at x q) as Hq1 by (intros x; unfold q1; by case_bool_decide).
  assert (timers_ q1 = head (l1 ++ l2)) as Hhead.
  { unfold q1. rewrite Hhd. destruct l1 as [|x l1]; simpl; [by rewrite bool_decide_true, Hn by done|].
    rewrite bool_decide_false; [by rewrite Hhd|]. intros [= ->].
    apply NoDup_app in Hnd as (_ & Hd & _). by apply (Hd t); [apply list_elem_of_here|apply list_elem_of_here]. }
  rewrite (Hq1 t), Hn, Hp. set (q2 := update_link (last l1) (with_next (head l2)) q1).
  assert (timer_at t q2 = timer_at t q) as Ht2 by (unfold q2; rewrite timer_at_link, decide_False, Hq1; done).
  rewrite Ht2, Hn, Hp. split.
  { trans (timers_ (update_link (head l2) (with_prev (last l1)) q2)); [done|]. unfold q2.
    by rewrite (proj2 (heap_update_link _ _ _)), (proj2 (heap_update_link _ _ _)). }
  rewrite !timer_at_update, !timer_at_link. destruct (decide (t = u)) as [<-|Hne].
  { rewrite !(decide_True (P := t = t)) by done. done. }
  rewrite !(decide_False (P := u = t)) by congruence. unfold q2. rewrite timer_at_link, Hq1.
  repeat case_decide; done.
Qed.

Lemma unlink_frame t q u : heap_ (unlink_timer t q) = heap_ q /\
  op_queue_ (timer_at u (unlink_timer t q)) = op_queue_ (timer_at u q) /\
  heap_index_ (timer_at u (unlink_timer t q)) = heap_index_ (timer_at u q).
Proof.
  unfold unlink_timer. set (q1 := if bool_decide _ then _ else q).
  assert (heap_ q1 = heap_ q /\ forall x, timer_at x q1 = timer_at x q) as [Hh1 Hu1] by (unfold q1; by case_bool_decide).
  set (q2 := update_link _ _ q1).
  assert (heap_ q2 = heap_ q) as Hh2 by (unfold q2; by rewrite (proj1 (heap_update_link _ _ _))).
  split.
  { trans (heap_ (update_link (next_ (timer_at t q2)) (with_prev (prev_ (timer_at t q2))) q2)); [done|].
    by rewrite (proj1 (heap_update_link _ _ _)). }
  rewrite !timer_at_update, !timer_at_link. unfold q2. rewrite !timer_at_link, !Hu1.
  repeat case_decide; subst; done.
Qed.

Lemma NoDup_middle {A} (l1 l2 : list A) x : NoDup (l1 ++ x :: l2) <-> x ∉ l1 ++ l2 /\ NoDup (l1 ++ l2).
Proof. rewrite <- Permutation_middle. apply NoDup_cons. Qed.

(** An element of [l1 ++ l2] is in one of the two. *)
Lemma split_elem {A} (l1 l2 a b : list A) x : l1 ++ l2 = a ++ x :: b ->
  (exists c, l1 = a ++ x :: c /\ b = c ++ l2) \/ (exists c, l2 = c ++ x :: b /\ a = l1 ++ c).
Proof.
  intros (k & [[-> Hk]|[-> Hk]])%app_eq_app; [|right; by exists k].
  destruct k as [|y k]; simpl in Hk; [right|left].
  - exists []. by rewrite !app_nil_r.
  - injection Hk as <- ->. by exists k.
Qed.

Lemma unlink_linked t q l1 l2 : linked q (l1 ++ t :: l2) -> linked (unlink_timer t q) (l1 ++ l2).
Proof.
  intros Hl. pose proof (fun u => unlink_links t q l1 l2 u Hl) as Hu. destruct Hl as [Hnd _ Hlk Hout].
  pose proof Hnd as Hnd'. apply NoDup_middle in Hnd' as [Hnt Hnd']. rewrite elem_of_app in Hnt.
  assert (forall u, last l1 = Some u -> u ∈ l1) as Hlast by apply last_Some_elem_of.
  assert (forall u, head l2 = Some u -> u ∈ l2) as Hhead by (intros u; destruct l2; intros [=]; subst; apply list_elem_of_here).
  assert (forall u, u ∈ l1 -> u ∈ l2 -> False) as Hdis
    by (apply NoDup_app in Hnd' as (_ & Hd & _); intros u H1 H2; by apply (Hd u)).
  constructor; [done|by destruct (Hu t)| |].
  - intros a x b Heq. destruct (Hu x) as (_ & -> & ->).
    assert (x ∈ l1 ++ l2) as Hx by (rewrite Heq; apply elem_of_app; right; apply list_elem_of_here).
    assert (x <> t) as Hxt by (intros ->; apply elem_of_app in Hx; tauto).
    rewrite !(decide_False (P := x = t)) by done.
    apply split_elem in Heq as [(k & -> & ->)|(k & Hk & ->)].
    + destruct (Hlk a x (k ++ t :: l2)) as [-> ->]; [by rewrite <- app_assoc|].
      rewrite last_app_cons. rewrite (decide_False (P := head l2 = Some x)).
      2:{ intros ?%Hhead. apply (Hdis x); [apply elem_of_app; right; apply list_elem_of_here|done]. }
      split; [|done]. destruct k as [|y k]; simpl; [by rewrite decide_True|].
      rewrite decide_False; [done|]. intros Hy. apply NoDup_app in Hnd' as (Hnd1 & _).
      apply NoDup_middle in Hnd1 as [Hn _]. apply Hn, elem_of_app. right.
      apply last_Some_elem_of in Hy. done.
    + destruct (Hlk (l1 ++ t :: k) x b) as [-> ->]; [by rewrite <- app_assoc, Hk|].
      rewrite (decide_False (P := last l1 = Some x)).
      2:{ intros ?%Hlast. apply (Hdis x); [done|]. rewrite Hk. apply elem_of_app. right. apply list_elem_of_here. }
      split; [done|]. rewrite Hk. destruct k as [|y k]; simpl; [by rewrite decide_True, app_nil_r|].
      rewrite decide_False; [by rewrite !last_app_cons|]. intros [= ->]. rewrite Hk in Hnd'.
      apply NoDup_app in Hnd' as (_ & _ & Hnd2). apply (NoDup_middle (x :: k) b) in Hnd2 as [Hn _].
      apply Hn. apply list_elem_of_here.
  - intros u Hn. destruct (Hu u) as (_ & -> & ->). rewrite elem_of_app in Hn.
    destruct (decide (u = t)) as [->|Hne]; [done|]. rewrite !decide_False by (try (intros ?%Hlast); try (intros ?%Hhead); tauto).
    apply Hout. rewrite elem_of_app, elem_of_cons. tauto.
Qed.

(** ** Removing a timer *)

Lemma linked_reordered q q' l : linked q l -> timers_ q' = timers_ q ->
  (forall t, next_ (timer_at t q') = next_ (timer_at t q) /\ prev_ (timer_at t q') = prev_ (timer_at t q)) ->
  linked q' l.
Proof.
  intros [H1 H2 H3 H4] Ht Hd. constructor; [done|by rewrite Ht| |].
  - intros a x b Heq. destruct (Hd x) as [-> ->]. by apply H3.
  - intros t Hn. destruct (Hd t) as [-> ->]. by apply H4.
Qed.

Lemma in_heap_timers t q : t ∈ heap_timers q <-> exists i e, heap_ q !! i = Some e /\ timer_ e = t.
Proof.
  unfold heap_timers. rewrite list_elem_of_fmap. split.
  - intros (e & -> & [i Hi]%list_elem_of_lookup). by exists i, e.
  - intros (i & e & Hi & <-). exists e. split; [done|]. by eapply list_elem_of_lookup_2.
Qed.

(** The entries of [t] in the heap: one, or none if it never expires. *)
Definition entries_of (t : timer) (q : timer_queue) (es : list heap_entry) : Prop :=
  (es = [] /\ t ∉ heap_timers q) \/ exists e, es = [e] /\ timer_ e = t.

(** The first half: [t] is out of the heap, and still on the list. *)
Lemma leave_heap t q l1 l2 : structure q (l1 ++ t :: l2) ->
  exists q1 es, remove_from_heap t q = Ok q1 /\ linked q1 (l1 ++ t :: l2) /\ indexed q1 /\
    heap_order (heap_ q1) /\ entries_of t q es /\ heap_ q ≡ₚ es ++ heap_ q1 /\
    (forall u, op_queue_ (timer_at u q1) = op_queue_ (timer_at u q)) /\
    (forall u, u ∉ heap_timers q1 -> heap_index_ (timer_at u q1) = None) /\ t ∉ heap_timers q1.
Proof.
  intros [Hl Hi Ho Ha Hn].
  destruct (decide (t ∈ heap_timers q)) as [(i & e & He & <-)%in_heap_timers|Ht].
  - destruct (remove_from_heap_spec i e q Hi Ho He) as (q1 & Hrun & Hi1 & Ho1 & [H1 H2 H3 H4 H5]).
    exists q1, [e]. split_and!; try done.
    + eapply linked_reordered; [exact Hl|done|]. intros u. by destruct (H3 u) as (_ & -> & ->).
    + right. by exists e.
    + intros u. apply H3.
    + intros u Hnu. destruct (decide (u = timer_ e)) as [->|Hne]; [done|].
      assert (u ∉ heap_timers q) as Hnq.
      { unfold heap_timers in *. rewrite H2. simpl. rewrite elem_of_cons. intros [->|?]; done. }
      rewrite H4 by done. by apply Hn.
    + intros (k & f & Hf & Hfe)%in_heap_timers. apply Hi1 in Hf. rewrite Hfe in Hf. congruence.
  - exists q, []. unfold remove_from_heap.
    rewrite Hn by done. split_and!; try done. by left.
Qed.

Lemma remove_timer_spec t q l1 l2 : structure q (l1 ++ t :: l2) ->
  exists q' es, remove_timer t q = Ok q' /\ structure q' (l1 ++ l2) /\
    entries_of t q es /\ heap_ q ≡ₚ es ++ heap_ q' /\
    forall u, op_queue_ (timer_at u q') = op_queue_ (timer_at u q).
Proof.
  intros Hs. unfold remove_timer.
  destruct (leave_heap t q l1 l2 Hs) as (q1 & es & -> & Hl1 & Hi1 & Ho1 & Hes & Hp & Hops & Hn1 & Ht).
  cbn [obind]. exists (unlink_timer t q1), es. split; [done|].
  pose proof (fun u => unlink_frame t q1 u) as Hf. destruct (Hf t) as [Hh _].
  assert (heap_timers (unlink_timer t q1) = heap_timers q1) as Hht by (unfold heap_timers; by rewrite Hh).
  split; [constructor|].
  - by apply unlink_linked.
  - intros i e He. rewrite Hh in He. destruct (Hf (timer_ e)) as (_ & _ & ->). by apply Hi1.
  - by rewrite Hh.
  - rewrite Hht. intros u Hu. assert (u ∈ heap_timers q) as Hu'
      by (unfold heap_timers in *; rewrite Hp, fmap_app; apply elem_of_app; by right).
    apply (st_active _ _ Hs) in Hu'. rewrite <- Permutation_middle in Hu'.
    apply elem_of_cons in Hu' as [->|?]; [by destruct Ht|done].
  - intros u. rewrite Hht. destruct (Hf u) as (_ & _ & ->). apply Hn1.
  - split; [done|]. split; [by rewrite Hh|]. intros u. destruct (Hf u) as (_ & -> & _). apply Hops.
Qed.

(** ** What the operations mean for the specification *)

Lemma active_linked q l t : linked q l -> is_active t q = bool_decide (t ∈ l).
Proof.
  intros [Hnd Hhd Hlk Hout]. unfold is_active. rewrite Hhd. destruct (decide (t ∈ l)) as [Hin|Hn].
  - rewrite (bool_decide_true (t ∈ l)) by done. apply list_elem_of_split in Hin as (l1 & l2 & ->).
    destruct (Hlk l1 t l2 eq_refl) as [_ ->]. apply orb_true_iff. destruct l1 as [|x l1].
    + right. by apply bool_decide_true.
    + left. apply bool_decide_true. destruct (last (x :: l1)) eqn:Hl; [done|]. by apply last_None in Hl.
  - rewrite (bool_decide_false (t ∈ l)) by done. destruct (Hout t Hn) as [_ ->]. apply orb_false_iff.
    split; [by apply bool_decide_false; intros []|]. apply bool_decide_false. intros Hh.
    destruct l; simplify_eq/=. apply Hn. apply list_elem_of_here.
Qed.

Lemma heap_root h e : heap_order h -> head h = Some e -> forall f, f ∈ h -> (time_ e <= time_ f)%Z.
Proof.
  intros Ho He f [i Hi]%list_elem_of_lookup. rewrite head_lookup in He.
  revert f Hi. induction i as [i IH] using lt_wf_ind. intros f Hi. destruct (decide (i = 0)) as [->|Hi0].
  { simplify_eq. lia. }
  assert (0 < i) as H0 by lia. pose proof (parent_lt i H0) as Hp.
  destruct (h !! parent i) as [p|] eqn:Hpi.
  2:{ apply lookup_ge_None in Hpi. apply lookup_lt_Some in Hi. lia. }
  pose proof (IH _ Hp p Hpi). pose proof (Ho i H0 p f Hpi Hi). lia.
Qed.

(** Changes that touch the operations of one timer only. *)
Lemma structure_ops t f q l : (forall d, heap_index_ (f d) = heap_index_ d /\ next_ (f d) = next_ d /\ prev_ (f d) = prev_ d) ->
  structure q l -> structure (update_timer t f q) l.
Proof.
  intros Hf [Hl Hi Ho Ha Hn].
  assert (forall u, heap_index_ (timer_at u (update_timer t f q)) = heap_index_ (timer_at u q) /\
    next_ (timer_at u (update_timer t f q)) = next_ (timer_at u q) /\
    prev_ (timer_at u (update_timer t f q)) = prev_ (timer_at u q)) as Hu.
  { intros u. rewrite timer_at_update. case_decide; subst; [apply Hf|done]. }
  constructor; [|  | done | done | ].
  - eapply linked_reordered; [exact Hl|done|]. intros u. apply Hu.
  - intros i e He. rewrite (proj1 (Hu _)). by apply Hi.
  - intros u Hut. rewrite (proj1 (Hu _)). by apply Hn.
Qed.

Lemma ops_update t f q u : op_queue_ (timer_at u (update_timer t f q)) =
  if decide (t = u) then op_queue_ (f (timer_at t q)) else op_queue_ (timer_at u q).
Proof. rewrite timer_at_update. by case_decide. Qed.

(** An active timer whose operations are gone is removed. *)
Lemma remove_abstracts t q l a : structure q l -> t ∈ l -> op_queue_ (timer_at t q) = [] ->
  (forall u, u <> t -> entry_ok q l u (a !! u)) ->
  exists q' l', remove_timer t q = Ok q' /\ abstracts q' l' (delete t a) /\
    (forall e, e ∈ heap_ q' <-> e ∈ heap_ q /\ timer_ e <> t) /\
    (t ∈ heap_timers q -> length (heap_ q') < length (heap_ q)).
Proof.
  intros Hs Hin Hops He. pose proof (lk_nodup _ _ (st_linked _ _ Hs)) as Hnd.
  apply list_elem_of_split in Hin as (l1 & l2 & ->). apply NoDup_middle in Hnd as [Hnt _].
  destruct (remove_timer_spec t q l1 l2 Hs) as (q' & es & Hr & Hs' & Hes & Hp & Hq').
  assert (forall e, e ∈ heap_ q' <-> e ∈ heap_ q /\ timer_ e <> t) as Hheap.
  { intros e. rewrite Hp, elem_of_app. split.
    - intros Hin. split; [by right|]. intros Het. apply Hnt. apply (st_active _ _ Hs').
      rewrite <- Het. by apply list_elem_of_fmap_2.
    - intros [[Hin|Hin] Hne]; [|done]. destruct Hes as [[-> _]|(f & -> & Hft)]; [by apply not_elem_of_nil in Hin|].
      apply list_elem_of_singleton in Hin as ->. done. }
  exists q', (l1 ++ l2). split; [done|]. split.
  2:{ split; [done|]. intros Hth. rewrite (Permutation_length Hp), length_app.
      destruct Hes as [[_ Hn]|(f & -> & _)]; [done|]. simpl. lia. }
  split; [done|]. intros u. unfold entry_ok. rewrite Hq'. destruct (decide (u = t)) as [->|Hne]; [by rewrite lookup_delete_eq|].
  rewrite lookup_delete_ne by done. specialize (He u Hne). unfold entry_ok in He.
  assert (u ∈ l1 ++ l2 <-> u ∈ l1 ++ t :: l2) as Hul by (rewrite <- Permutation_middle, elem_of_cons; naive_solver).
  destruct (a !! u) as [[time ops]|]; [|by rewrite Hul].
  destruct He as (H1 & H2 & H3 & H4). split_and!; [by apply Hul|done..|].
  destruct time as [x|]; simpl in H4 |- *.
  - by apply Hheap.
  - intros (f & -> & Hf)%list_elem_of_fmap. apply H4. apply list_elem_of_fmap_2. by apply Hheap.
Qed.

(** ** Cancelling *)

Lemma entry_ops q l t v : entry_ok q l t v -> op_queue_ (timer_at t q) = match v with Some (_, ops) => ops | None => [] end.
Proof. destruct v as [[]|]; [by intros (_ & ? & _)|by intros [_ ?]]. Qed.

Lemma entry_active q l t v : entry_ok q l t v -> bool_decide (t ∈ l) = bool_decide (is_Some v).
Proof. destruct v as [[]|]; intros (H & ?); apply bool_decide_ext; split; first [done | by intros []]. Qed.

(** Keeping [f] of the operations of an active timer. *)
Lemma keep_abstracts f t q l a : abstracts q l a -> t ∈ l ->
  let q1 := update_timer t (with_ops (f (op_queue_ (timer_at t q)))) q in
  exists q' l', (match op_queue_ (timer_at t q1) with [] => remove_timer t q1 | _ => Ok q1 end) = Ok q' /\
    abstracts q' l' (alarm_keep f t a).
Proof.
  intros [Hs He] Hin q1. pose proof (He t) as Ht. unfold alarm_keep.
  destruct (a !! t) as [[time ops]|] eqn:Hat; [|by destruct Ht]. destruct Ht as (_ & Hops & Hne & Hdue).
  assert (op_queue_ (timer_at t q1) = f ops) as Hq1.
  { unfold q1. by rewrite ops_update, decide_True, Hops by done. }
  assert (structure q1 l) as Hs1 by (by apply structure_ops).
  assert (forall u v, u <> t -> entry_ok q l u v -> entry_ok q1 l u v) as Hu.
  { intros u v Hut. assert (op_queue_ (timer_at u q1) = op_queue_ (timer_at u q)) as Hop
      by (unfold q1; by rewrite ops_update, decide_False).
    destruct v as [[time' ops']|]; unfold entry_ok; by rewrite Hop. }
  rewrite Hq1. destruct (f ops) as [|op rest] eqn:Hf.
  - destruct (remove_abstracts t q1 l a Hs1 Hin Hq1) as (q' & l' & -> & Hab & _); [|by exists q', l'].
    intros u Hut. by apply Hu.
  - exists q1, l. split; [done|]. split; [done|]. intros u. destruct (decide (u = t)) as [->|Hut].
    + rewrite lookup_insert_eq. by split_and!.
    + rewrite lookup_insert_ne by done. by apply Hu.
Qed.

Lemma keep_absent f t (a : alarms) : a !! t = None -> alarm_keep f t a = a.
Proof. unfold alarm_keep. by intros ->. Qed.

Lemma cancel_timer_abstracts t n q l a : abstracts q l a ->
  exists q' l', cancel_timer t n q =
      Ok (length (take n (alarm_ops a t)), (fun op => (op, operation_aborted)) <$> take n (alarm_ops a t), q') /\
    abstracts q' l' (alarm_keep (drop n) t a).
Proof.
  intros Hab. pose proof Hab as [Hs He]. unfold cancel_timer.
  rewrite (active_linked q l t (st_linked _ _ Hs)), (entry_active _ _ _ _ (He t)), (entry_ops _ _ _ _ (He t)).
  unfold alarm_ops. destruct (a !! t) as [[time ops]|] eqn:Hat.
  - rewrite bool_decide_true by done. destruct (keep_abstracts (drop n) t q l a Hab) as (q' & l' & Hrun & Hab').
    { pose proof (He t) as Ht. rewrite Hat in Ht. apply Ht. }
    rewrite (entry_ops _ _ _ _ (He t)), Hat in Hrun. cbv zeta. rewrite Hrun. cbn [obind]. by exists q', l'.
  - rewrite bool_decide_false by (by intros []). rewrite take_nil. exists q, l. by rewrite keep_absent.
Qed.

Lemma cancel_by_key_abstracts t key q l a : abstracts q l a ->
  exists q' l', cancel_timer_by_key t key q =
      Ok ((fun op => (op, operation_aborted)) <$> filter (fun op => cancellation_key_ op = key) (alarm_ops a t), q') /\
    abstracts q' l' (alarm_keep (filter (fun op => cancellation_key_ op <> key)) t a).
Proof.
  intros Hab. pose proof Hab as [Hs He]. unfold cancel_timer_by_key.
  rewrite (active_linked q l t (st_linked _ _ Hs)), (entry_active _ _ _ _ (He t)), (entry_ops _ _ _ _ (He t)).
  unfold alarm_ops. destruct (a !! t) as [[time ops]|] eqn:Hat.
  - rewrite bool_decide_true by done.
    destruct (keep_abstracts (filter (fun op => cancellation_key_ op <> key)) t q l a Hab) as (q' & l' & Hrun & Hab').
    { pose proof (He t) as Ht. rewrite Hat in Ht. apply Ht. }
    rewrite (entry_ops _ _ _ _ (He t)), Hat in Hrun. cbv zeta. rewrite Hrun. cbn [obind]. by exists q', l'.
  - rewrite bool_decide_false by (by intros []). exists q, l. by rewrite keep_absent.
Qed.

(** ** The earliest timer *)

Lemma heap_alarms q l a e : abstracts q l a ->
  e ∈ heap_ q <-> exists ops, a !! timer_ e = Some (Some (time_ e), ops).
Proof.
  intros [Hs He]. specialize (He (timer_ e)). split.
  - intros Hin. assert (timer_ e ∈ heap_timers q) as Ht by (by apply list_elem_of_fmap_2).
    pose proof (st_active _ _ Hs _ Ht) as Hl.
    destruct (a !! timer_ e) as [[[x|] ops]|]; [|by destruct He as (_ & _ & _ & []) |by destruct He].
    exists ops. destruct He as (_ & _ & _ & Hd). simpl in Hd.
    apply list_elem_of_lookup in Hin as [i Hi]. apply list_elem_of_lookup in Hd as [j Hj].
    assert (i = j) as -> by (by apply (indexed_inj q i j e _ (st_indexed _ _ Hs) Hi Hj)).
    rewrite Hi in Hj. injection Hj as Hj. by rewrite Hj.
  - intros [ops Ha]. rewrite Ha in He. destruct He as (_ & _ & _ & Hd). by destruct e.
Qed.

Lemma root_earliest q l a : abstracts q l a ->
  match heap_ q with
  | [] => forall t x ops, a !! t <> Some (Some x, ops)
  | e :: _ => earliest a (time_ e)
  end.
Proof.
  intros Hab. pose proof (fun e => heap_alarms q l a e Hab) as Hh.
  assert (forall t x ops, a !! t = Some (Some x, ops) -> mkHeapEntry x t ∈ heap_ q) as Hin
    by (intros t x ops Ha; apply Hh; by exists ops).
  destruct (heap_ q) as [|e h] eqn:Hq.
  - intros t x ops Ha. by apply Hin, not_elem_of_nil in Ha.
  - split.
    + destruct (proj1 (Hh e)) as [ops Ha]; [by apply list_elem_of_here|]. by exists (timer_ e), ops.
    + intros t y ops Ha. apply (heap_root (e :: h) e) with (f := mkHeapEntry y t); [|done|by eapply Hin].
      rewrite <- Hq. apply (st_order _ _ (ab_structure _ _ _ Hab)).
Qed.

(** ** Enqueuing *)

Lemma link_frame t q u : heap_ (link_timer t q) = heap_ q /\
  op_queue_ (timer_at u (link_timer t q)) = op_queue_ (timer_at u q) /\
  heap_index_ (timer_at u (link_timer t q)) = heap_index_ (timer_at u q).
Proof.
  unfold link_timer. set (q1 := update_timer t _ (update_timer t _ q)).
  split; [apply (proj1 (heap_update_link _ _ q1))|].
  change (timer_at u (set_timers ?o ?x)) with (timer_at u x).
  rewrite timer_at_link. unfold q1. rewrite !timer_at_update. repeat case_decide; subst; done.
Qed.

Lemma link_linked t q l : linked q l -> t ∉ l -> linked (link_timer t q) (t :: l).
Proof.
  intros [Hnd Hhd Hlk Hout] Ht.
  assert (head l <> Some t) as Hht by (intros H; destruct l; simplify_eq/=; apply Ht, list_elem_of_here).
  assert (forall u, next_ (timer_at u (link_timer t q)) = (if decide (u = t) then head l else next_ (timer_at u q)) /\
    prev_ (timer_at u (link_timer t q)) =
      (if decide (u = t) then None else if decide (head l = Some u) then Some t else prev_ (timer_at u q))) as Hu.
  { intros u. unfold link_timer. rewrite Hhd. set (q1 := update_timer t _ (update_timer t _ q)).
    change (timer_at u (set_timers ?o ?x)) with (timer_at u x).
    change (timers_ q1) with (timers_ q). rewrite Hhd, timer_at_link. unfold q1. rewrite !timer_at_update.
    repeat case_decide; subst; done. }
  constructor.
  - by apply NoDup_cons.
  - done.
  - intros l1 x l2 Heq. destruct (Hu x) as [-> ->]. destruct l1 as [|y l1]; injection Heq as <- Heq.
    + by rewrite !decide_True by done; subst.
    + assert (x <> t) as Hxt by (intros ->; apply Ht; rewrite Heq; apply elem_of_app; right; apply list_elem_of_here).
      rewrite !(decide_False (P := x = t)) by done. destruct (Hlk l1 x l2 Heq) as [-> ->]. split; [done|].
      rewrite Heq. destruct l1 as [|z l1]; simpl; [by rewrite decide_True|].
      rewrite decide_False; [done|]. intros [= ->]. rewrite Heq in Hnd. apply (NoDup_middle (x :: l1)) in Hnd as [Hn _].
      apply Hn, list_elem_of_here.
  - intros u Hn. apply not_elem_of_cons in Hn as [Hut Hul]. destruct (Hu u) as [-> ->].
    rewrite !decide_False; [by apply Hout| |done..]. intros Hh. apply Hul. destruct l; simplify_eq/=. apply list_elem_of_here.
Qed.

(** A new entry at the end of the heap, moved up. *)
Lemma push_heap x t q l : structure q l -> t ∉ l ->
  let q1 := update_timer t (with_index (Some (length (heap_ q)))) q in
  exists q2, up_heap (S (length (heap_ q))) (length (heap_ q)) (set_heap (heap_ q1 ++ [mkHeapEntry x t]) q1) = Ok q2 /\
    indexed q2 /\ heap_order (heap_ q2) /\ heap_ q2 ≡ₚ mkHeapEntry x t :: heap_ q /\ linked q2 l /\
    (forall u, op_queue_ (timer_at u q2) = op_queue_ (timer_at u q)) /\
    (forall u, u ∉ t :: heap_timers q -> heap_index_ (timer_at u q2) = heap_index_ (timer_at u q)).
Proof.
  intros [Hl Hi Ho Ha Hn] Ht q1. set (n := length (heap_ q)). set (q1' := set_heap _ q1).
  assert (heap_ q1' = heap_ q ++ [mkHeapEntry x t]) as Hh by done.
  assert (forall u, timer_at u q1' = if decide (t = u) then with_index (Some n) (timer_at t q) else timer_at u q) as Hu
    by (intros u; apply timer_at_update).
  destruct (up_heap_spec (S n) n q1') as (q2 & Hrun & Hi2 & [R1 R2 R3 R4] & Ho2).
  - lia.
  - rewrite Hh, length_app. simpl. unfold n. lia.
  - intros k e Hk. rewrite Hh in Hk. rewrite Hu. apply lookup_app_Some in Hk as [Hk|[Hge Hk]].
    + rewrite decide_False; [by apply Hi|]. intros ->. apply Ht, Ha. apply list_elem_of_fmap_2. by eapply list_elem_of_lookup_2.
    + apply list_lookup_singleton_Some in Hk as [Hk <-]. rewrite decide_True by done. simpl. f_equal. unfold n. lia.
  - rewrite Hh. split; intros j Hj Hj2.
    + intros a b Hpa Hb. assert (j < n) as Hjn.
      { apply lookup_lt_Some in Hb. rewrite length_app in Hb. simpl in Hb. unfold n in *. lia. }
      pose proof (parent_lt j Hj). rewrite lookup_app_l in Hpa, Hb by (unfold n in *; lia). by apply (Ho j Hj).
    + intros _ a b _ Hb. apply lookup_lt_Some in Hb. rewrite length_app in Hb. simpl in Hb.
      pose proof (parent_lt j Hj). unfold n in *. lia.
  - exists q2. split_and!; [done..| | | |].
    + rewrite R2, Hh. by rewrite Permutation_app_comm.
    + eapply linked_reordered; [exact Hl|by rewrite R1|]. intros u. destruct (R3 u) as (_ & -> & ->). rewrite Hu.
      by case_decide; subst.
    + intros u. destruct (R3 u) as (-> & _). rewrite Hu. by case_decide; subst.
    + intros u Hnu. apply not_elem_of_cons in Hnu as [Hut Hnu]. assert (u ∉ heap_timers q1') as Hnu'.
      { unfold heap_timers. rewrite Hh, fmap_app, elem_of_app. simpl. rewrite list_elem_of_singleton. by intros [?|?]. }
      rewrite R4 by done. by rewrite Hu, decide_False.
Qed.

Definition new_entry (time : option time_type) (t : timer) : list heap_entry :=
  match time with Some x => [mkHeapEntry x t] | None => [] end.

Lemma enter_heap_spec time t q l : structure q l -> t ∉ l ->
  exists q2, enter_heap time t q = Ok q2 /\
    indexed q2 /\ heap_order (heap_ q2) /\ heap_ q2 ≡ₚ new_entry time t ++ heap_ q /\ linked q2 l /\
    (forall u, op_queue_ (timer_at u q2) = op_queue_ (timer_at u q)) /\
    (forall u, u ∉ heap_timers q2 -> heap_index_ (timer_at u q2) = None).
Proof.
  intros Hs Ht. pose proof Hs as [Hl Hi Ho Ha Hn]. destruct time as [x|].
  - destruct (push_heap x t q l Hs Ht) as (q2 & Hrun & Hi2 & Ho2 & Hp2 & Hl2 & Hq2 & Hn2).
    exists q2. split_and!; try done. intros u Hu. unfold heap_timers in Hu. rewrite Hp2, fmap_cons in Hu.
    rewrite Hn2 by done. apply Hn. by apply not_elem_of_cons in Hu as [_ Hu].
  - assert (with_index None (timer_at t q) = timer_at t q) as Hw.
    { assert (heap_index_ (timer_at t q) = None) as H by (apply Hn; by intros ?%Ha).
      destruct (timer_at t q); simpl in *; by rewrite H. }
    assert (forall u, timer_at u (update_timer t (with_index None) q) = timer_at u q) as Hu
      by (intros u; rewrite timer_at_update; case_decide; subst; done).
    eexists. split; [done|]. split_and!; try done.
    + intros i e He. rewrite Hu. by apply Hi.
    + eapply linked_reordered; [exact Hl|done|]. intros u. by rewrite Hu.
    + intros u. by rewrite Hu.
    + intros u Hnu. rewrite Hu. by apply Hn.
Qed.

(** A timer that was not active is put in both structures. *)
Lemma activate_structure time t q l : structure q l -> t ∉ l ->
  exists q2, enter_heap time t q = Ok q2 /\
    structure (link_timer t q2) (t :: l) /\ heap_ (link_timer t q2) ≡ₚ new_entry time t ++ heap_ q /\
    forall u, op_queue_ (timer_at u (link_timer t q2)) = op_queue_ (timer_at u q).
Proof.
  intros Hs Ht. destruct (enter_heap_spec time t q l Hs Ht) as (q2 & Hrun & Hi2 & Ho2 & Hp2 & Hl2 & Hq2 & Hn2).
  exists q2. pose proof (fun u => link_frame t q2 u) as Hf. destruct (Hf t) as [Hh _]. split; [done|].
  assert (heap_timers (link_timer t q2) = heap_timers q2) as Hht by (unfold heap_timers; by rewrite Hh).
  split; [constructor|split; [by rewrite Hh|intros u; destruct (Hf u) as (_ & -> & _); apply Hq2]].
  - by apply link_linked.
  - intros i e He. rewrite Hh in He. destruct (Hf (timer_ e)) as (_ & _ & ->). by apply Hi2.
  - by rewrite Hh.
  - rewrite Hht. intros u Hu. unfold heap_timers in Hu. rewrite Hp2, fmap_app in Hu. apply elem_of_app in Hu as [Hu|Hu].
    + destruct time; simpl in Hu; [|by apply not_elem_of_nil in Hu]. apply list_elem_of_singleton in Hu as ->. apply list_elem_of_here.
    + apply list_elem_of_further. by apply (st_active _ _ Hs).
  - intros u Hu. rewrite Hht in Hu. destruct (Hf u) as (_ & _ & ->). by apply Hn2.
Qed.

(** Pushing [op] on an active timer. *)
Lemma push_op_abstracts t op time ops q l a : structure q l -> t ∈ l ->
  op_queue_ (timer_at t q) = ops -> due q t time -> (forall u, u <> t -> entry_ok q l u (a !! u)) ->
  abstracts (update_timer t (fun d => with_ops (op_queue_ d ++ [op]) d) q) l (<[ t := (time, ops ++ [op]) ]> a).
Proof.
  intros Hs Hin Hops Hdue He. split; [by apply structure_ops|]. intros u. destruct (decide (u = t)) as [->|Hut].
  - rewrite lookup_insert_eq. unfold entry_ok. rewrite ops_update, decide_True, Hops by done. split_and!; try done.
    by destruct ops.
  - rewrite lookup_insert_ne by done. specialize (He u Hut).
    set (q1 := update_timer _ _ q). assert (op_queue_ (timer_at u q1) = op_queue_ (timer_at u q)) as Hop
      by (unfold q1; by rewrite ops_update, decide_False).
    destruct (a !! u) as [[time' ops']|]; unfold entry_ok; by rewrite Hop.
Qed.

Lemma root_index q l a t : abstracts q l a -> heap_index_ (timer_at t q) = Some 0 <-> timer_ <$> head (heap_ q) = Some t.
Proof.
  intros [Hs _]. rewrite head_lookup. split.
  - intros Hix. destruct (decide (t ∈ heap_timers q)) as [(i & e & Hi & <-)%in_heap_timers|Hn].
    + rewrite (st_indexed _ _ Hs i e Hi) in Hix. injection Hix as ->. by rewrite Hi.
    + by rewrite (st_never _ _ Hs t Hn) in Hix.
  - intros (e & He & ->)%fmap_Some. by apply (st_indexed _ _ Hs).
Qed.

Lemma wakes_result q l a t op : abstracts q l a ->
  wakes a t op (bool_decide (heap_index_ (timer_at t q) = Some 0) &&
    bool_decide (wo_op <$> head (op_queue_ (timer_at t q)) = Some (wo_op op))).
Proof.
  intros Hab. pose proof (root_earliest q l a Hab) as Hroot. pose proof (root_index q l a t Hab) as Hix.
  pose proof (entry_ops _ _ _ _ (ab_entries _ _ _ Hab t)) as Hops. split.
  - intros [H1%bool_decide_eq_true%Hix H2%bool_decide_eq_true]%andb_true_iff. rewrite Hops in H2.
    destruct (heap_ q) as [|e h] eqn:Hq; [done|]. injection H1 as H1. exists (time_ e). split; [|done].
    destruct (proj1 (heap_alarms q l a e Hab)) as [ops Ha]; [rewrite Hq; apply list_elem_of_here|].
    rewrite H1 in Ha. rewrite Ha in H2. by exists ops.
  - intros x (ops & Ha & Hhd) Hlt. apply andb_true_iff. rewrite Hops, Ha. split; [|by apply bool_decide_true].
    apply bool_decide_true, Hix. destruct (heap_ q) as [|e h] eqn:Hq; [by destruct (Hroot t x ops)|].
    simpl. f_equal. destruct Hroot as [_ Hmin]. destruct (decide (timer_ e = t)) as [|Hne]; [done|].
    destruct (proj1 (heap_alarms q l a e Hab)) as [ops' Ha']; [rewrite Hq; apply list_elem_of_here|].
    pose proof (Hlt _ _ _ Hne Ha'). pose proof (Hmin _ _ _ Ha). lia.
Qed.

Lemma due_entry_new q q' time t : heap_ q' ≡ₚ new_entry time t ++ heap_ q -> t ∉ heap_timers q -> due q' t time.
Proof.
  intros Hp Hn. destruct time as [x|]; simpl in Hp |- *.
  - rewrite Hp. apply list_elem_of_here.
  - unfold heap_timers. by rewrite Hp.
Qed.

Lemma due_entry_other q q' time t u time' : heap_ q' ≡ₚ new_entry time t ++ heap_ q -> u <> t -> due q u time' -> due q' u time'.
Proof.
  intros Hp Hne. destruct time' as [y|]; simpl.
  - rewrite Hp, elem_of_app. by right.
  - unfold heap_timers. rewrite Hp, fmap_app, elem_of_app. intros Hn [Hin|?]; [|done].
    destruct time; simpl in Hin; [|by apply not_elem_of_nil in Hin]. by apply list_elem_of_singleton in Hin.
Qed.

Lemma enqueue_timer_abstracts time t op q l a : abstracts q l a ->
  exists b q' l', enqueue_timer time t op q = Ok (b, q') /\ abstracts q' l' (alarm_enqueue time t op a) /\
    wakes (alarm_enqueue time t op a) t op b.
Proof.
  intros Hab. pose proof Hab as [Hs He]. unfold enqueue_timer. rewrite (active_linked q l t (st_linked _ _ Hs)).
  pose proof (He t) as Ht. unfold alarm_enqueue. destruct (a !! t) as [[time' ops]|] eqn:Hat.
  - destruct Ht as (Hin & Hops & _ & Hdue). rewrite bool_decide_true by done. cbn [obind].
    pose proof (push_op_abstracts t op time' ops q l a Hs Hin Hops Hdue (fun u _ => He u)) as Hab'.
    eexists _, _, l. split; [done|]. split; [exact Hab'|]. by eapply wakes_result.
  - destruct Ht as (Hn & Hops). rewrite bool_decide_false by done.
    destruct (activate_structure time t q l Hs Hn) as (q2 & Hrun & Hs2 & Hp2 & Hq2).
    rewrite Hrun. cbn [obind]. assert (t ∉ heap_timers q) as Hth by (by intros ?%(st_active _ _ Hs)).
    assert (abstracts (update_timer t (fun d => with_ops (op_queue_ d ++ [op]) d) (link_timer t q2)) (t :: l)
      (<[ t := (time, [] ++ [op]) ]> a)) as Hab'.
    { apply push_op_abstracts; [done|apply list_elem_of_here|by rewrite Hq2|by eapply due_entry_new|].
      intros u Hut. specialize (He u). unfold entry_ok in He |- *.
      destruct (a !! u) as [[time' ops']|]; rewrite Hq2, elem_of_cons.
      - destruct He as (? & ? & ? & ?). split_and!; [by right|done|done|by eapply due_entry_other].
      - destruct He. split; [by intros [?|?]|done]. }
    eexists _, _, (t :: l). split; [done|]. split; [exact Hab'|]. by eapply wakes_result.
Qed.

(** ** Ready timers *)

Lemma alarms_ready_none now q l a ops : abstracts q l a -> (forall e, head (heap_ q) = Some e -> (now < time_ e)%Z) ->
  ops = [] -> alarms_ready now a ops a.
Proof.
  intros Hab Hlt ->. pose proof (root_earliest q l a Hab) as Hroot.
  assert (forall t x l', a !! t = Some (Some x, l') -> ~ (x <= now)%Z) as Hno.
  { intros t x l' Ha. destruct (heap_ q) as [|e h]; [by destruct (Hroot t x l')|].
    pose proof (proj2 Hroot _ _ _ Ha). pose proof (Hlt e eq_refl). lia. }
  exists []. split_and!; [constructor|constructor| |done|].
  - intros e. split; [by intros ?%not_elem_of_nil|]. intros (l' & Ha & Hle). by destruct (Hno _ _ _ Ha).
  - symmetry. apply map_filter_id. intros t [[x|] l'] Ha; [by eapply Hno|by intros []].
Qed.

Lemma alarm_ops_delete (a : alarms) t u : u <> t -> alarm_ops (delete t a) u = alarm_ops a u.
Proof. intros Hne. unfold alarm_ops. by rewrite lookup_delete_ne. Qed.

Lemma bind_ext_elem {A B} (f g : A -> list B) l : (forall x, x ∈ l -> f x = g x) -> l ≫= f = l ≫= g.
Proof.
  induction l as [|x l IH]; intros H; [done|]. rewrite !bind_cons, H by apply list_elem_of_here. f_equal.
  apply IH. intros y Hy. by apply H, list_elem_of_further.
Qed.

(** The earliest timer is ready: it comes first, the others follow. *)
Lemma alarms_ready_cons now (a : alarms) e l ops a' : a !! timer_ e = Some (Some (time_ e), l) ->
  (time_ e <= now)%Z -> earliest a (time_ e) -> alarms_ready now (delete (timer_ e) a) ops a' ->
  alarms_ready now a (((fun op => (op, no_error)) <$> l) ++ ops) a'.
Proof.
  intros Ha Hle [_ Hmin] (es & Hnd & Hsort & Hes & -> & ->).
  assert (forall f, f ∈ es -> timer_ f <> timer_ e /\ exists l', a !! timer_ f = Some (Some (time_ f), l') /\ (time_ f <= now)%Z) as Hin.
  { intros f (l' & Hl' & Hf)%Hes. apply lookup_delete_Some in Hl' as [Hne Hl']. split; [done|]. by exists l'. }
  exists (e :: es). split_and!.
  - apply NoDup_cons. split; [|done]. by intros [? _]%Hin.
  - constructor; [done|]. apply Forall_forall. intros f (_ & l' & Hf & _)%Hin. by apply Hmin in Hf.
  - intros f. rewrite elem_of_cons, Hes. split.
    + intros [->|(l' & [_ Hl']%lookup_delete_Some & Hf)]; [by exists l|by exists l'].
    + intros (l' & Hl' & Hf). destruct (decide (timer_ f = timer_ e)) as [Heq|Hne].
      * left. rewrite Heq, Ha in Hl'. destruct f, e. simpl in *. congruence.
      * right. exists l'. by rewrite lookup_delete_ne.
  - assert (alarm_ops a (timer_ e) = l) as Hl by (unfold alarm_ops; by rewrite Ha). rewrite bind_cons, Hl. f_equal.
    apply bind_ext_elem. intros f [Hne _]%Hin. by rewrite alarm_ops_delete.
  - apply map_filter_delete_not. intros v Hv Hexp. rewrite Ha in Hv. injection Hv as <-. by apply Hexp.
Qed.

Lemma get_ready_timers_abstracts now fuel : forall q l a ops0, abstracts q l a -> length (heap_ q) < fuel ->
  exists ops q' l' a', get_ready_timers fuel now ops0 q = Ok (ops0 ++ ops, q') /\ abstracts q' l' a' /\
    alarms_ready now a ops a'.
Proof.
  induction fuel as [|fuel IH]; intros q l a ops0 Hab Hf; [lia|]. cbn [get_ready_timers].
  pose proof (root_earliest q l a Hab) as Hroot.
  destruct (heap_ q) as [|e h] eqn:Hq.
  { exists [], q, l, a. rewrite app_nil_r. split_and!; [done..|]. eapply alarms_ready_none; [done| |done]. by rewrite Hq. }
  destruct (now <? time_ e)%Z eqn:Hlt.
  { apply Z.ltb_lt in Hlt. exists [], q, l, a. rewrite app_nil_r. split_and!; [done..|].
    eapply alarms_ready_none; [done| |done]. rewrite Hq. by intros ? [= <-]. }
  apply Z.ltb_ge in Hlt. cbv zeta.
  destruct (proj1 (heap_alarms q l a e Hab)) as [lo Ha]; [rewrite Hq; apply list_elem_of_here|].
  pose proof Hab as [Hs He]. pose proof (He (timer_ e)) as Het. rewrite Ha in Het. destruct Het as (Hin & Hops & _ & _).
  set (q1 := update_timer (timer_ e) (with_ops []) q).
  destruct (remove_abstracts (timer_ e) q1 l a) as (q2 & l2 & Hrun & Hab2 & _ & Hlen).
  - by apply structure_ops.
  - done.
  - unfold q1. by rewrite ops_update, decide_True by done.
  - intros u Hut. specialize (He u). assert (op_queue_ (timer_at u q1) = op_queue_ (timer_at u q)) as Hop
      by (unfold q1; by rewrite ops_update, decide_False).
    destruct (a !! u) as [[time' ops']|]; unfold entry_ok; by rewrite Hop.
  - ok_step Hrun. destruct (IH q2 l2 _ (ops0 ++ ((fun op => (op, no_error)) <$> op_queue_ (timer_at (timer_ e) q))) Hab2)
      as (ops & q' & l' & a' & Hrun' & Hab' & Hready).
    + assert (length (heap_ q2) < length (heap_ q1)) as Hl by (apply Hlen, list_elem_of_fmap_2;
        change (heap_ q1) with (heap_ q); rewrite Hq; apply list_elem_of_here).
      change (heap_ q1) with (heap_ q) in Hl. rewrite Hq in Hl. simpl in Hl, Hf. lia.
    + exists (((fun op => (op, no_error)) <$> lo) ++ ops), q', l', a'. rewrite Hrun', Hops, <- app_assoc.
      split_and!; [done..|]. by eapply alarms_ready_cons.
Qed.

(** ** All timers *)

(** No operation waits on [t], and it is not linked. *)
Definition blank (q : timer_queue) (t : timer) : Prop :=
  op_queue_ (timer_at t q) = [] /\ next_ (timer_at t q) = None /\ prev_ (timer_at t q) = None.

Lemma get_all_loop_spec l : forall fuel q ops0, length l < fuel -> NoDup l -> timers_ q = head l ->
  (forall l1 t l2, l = l1 ++ t :: l2 -> next_ (timer_at t q) = head l2) -> (forall t, t ∉ l -> blank q t) ->
  exists q', get_all_loop fuel ops0 q = Ok (ops0 ++ (l ≫= fun t => op_queue_ (timer_at t q)), q') /\
    timers_ q' = None /\ forall t, blank q' t.
Proof.
  induction l as [|t l IH]; intros fuel q ops0 Hf Hnd Hhd Hnext Hout; (destruct fuel as [|fuel]; [simpl in Hf; lia|]).
  { cbn [get_all_loop]. rewrite Hhd, app_nil_r. exists q. split_and!; try done. intros t. apply Hout, not_elem_of_nil. }
  cbn [get_all_loop]. rewrite Hhd. apply NoDup_cons in Hnd as [Ht Hnd]. cbn [head]. cbv zeta.
  set (q1 := update_timer t (with_prev None) _).
  assert (forall u, u <> t -> timer_at u q1 = timer_at u q) as Hu.
  { intros u Hne. unfold q1. rewrite !timer_at_update, !(decide_False (P := t = u)) by done. done. }
  assert (blank q1 t) as Hb.
  { unfold blank, q1. rewrite !timer_at_update, !(decide_True (P := t = t)) by done. done. }
  destruct (IH fuel q1 (ops0 ++ op_queue_ (timer_at t q))) as (q' & Hrun & Ht' & Hb').
  - simpl in Hf. lia.
  - done.
  - change (timers_ q1) with (next_ (timer_at t q)). by apply (Hnext []).
  - intros l1 u l2 Heq. rewrite Hu; [by apply (Hnext (t :: l1)); rewrite Heq|].
    intros ->. apply Ht. rewrite Heq. apply elem_of_app. right. apply list_elem_of_here.
  - intros u Hn. destruct (decide (u = t)) as [->|Hne]; [done|]. unfold blank. rewrite Hu by done.
    apply Hout. by apply not_elem_of_cons.
  - exists q'. split; [|done]. etrans; [exact Hrun|]. rewrite bind_cons, <- app_assoc. do 4 f_equal.
    apply bind_ext_elem. intros u Hin. rewrite Hu; [done|]. by intros ->.
Qed.

Lemma get_all_timers_abstracts fuel q l a ops0 : abstracts q l a -> length l < fuel ->
  exists q', get_all_timers fuel ops0 q = Ok (ops0 ++ (l ≫= alarm_ops a), q') /\
    NoDup l /\ (forall t, t ∈ l <-> is_Some (a !! t)) /\
    tq_empty q' = true /\ heap_ q' = [] /\ forall t, blank q' t.
Proof.
  intros [Hs He] Hf. pose proof (st_linked _ _ Hs) as [Hnd Hhd Hlk Hout]. unfold get_all_timers.
  destruct (get_all_loop_spec l fuel q ops0 Hf Hnd Hhd) as (q' & -> & Ht & Hb).
  - intros l1 t l2 Heq. by apply (Hlk l1 t l2).
  - intros t Hn. specialize (He t). destruct (a !! t) as [[]|]; [by destruct He|]. split; [apply He|]. by apply Hout.
  - cbn [obind]. exists (set_heap [] q'). split.
    { do 3 f_equal. apply bind_ext_elem. intros t _. apply (entry_ops _ _ _ _ (He t)). }
    split; [done|]. split; [|split_and!; [by apply bool_decide_true|done|done]].
    intros t. specialize (He t). destruct (a !! t) as [[]|].
    + split; [done|]. intros _. apply He.
    + split; [|by intros []]. by destruct He.
Qed.

(** ** Waiting for the earliest timer *)

Lemma wait_duration_abstracts subtract ticks now max_duration q l a : abstracts q l a ->
  (wait_duration subtract ticks now max_duration q = Ok max_duration /\ forall t x ops, a !! t <> Some (Some x, ops)) \/
  exists x, earliest a x /\
    wait_duration subtract ticks now max_duration q = (let* d := subtract x now in Ok (to_unit ticks d max_duration)).
Proof.
  intros Hab. pose proof (root_earliest q l a Hab) as Hroot. unfold wait_duration.
  destruct (heap_ q) as [|e h]; [by left|]. right. by exists (time_ e).
Qed.

(** The wait is never past the earliest time by more than a unit, never zero before it,
    and within the bound of the caller. *)
Lemma to_unit_bounds ticks d m : (0 < ticks)%Z -> (0 < m)%Z ->
  (0 <= to_unit ticks d m <= m)%Z /\ (to_unit ticks d m = 0 <-> d <= 0)%Z /\
  (0 < d -> (to_unit ticks d m - 1) * ticks < d)%Z.
Proof.
  intros Ht Hm. unfold to_unit. destruct (Z.leb_spec d 0); [split_and!; lia|].
  rewrite Z.quot_div_nonneg by lia. pose proof (Z.div_mod d ticks). pose proof (Z.mod_pos_bound d ticks).
  pose proof (Z.div_pos d ticks). destruct (Z.eqb_spec (d / ticks) 0); [split_and!; lia|].
  destruct (Z.ltb_spec m (d / ticks)); split_and!; nia.
Qed.

(** ** Moving a timer *)

Lemma move_data_at t s q u : t <> s -> let q' := move_data t s q in
  timers_ q' = timers_ q /\
  heap_ q' = (match heap_index_ (timer_at s q) with
              | Some i => alter (fun e => mkHeapEntry (time_ e) t) i (heap_ q) | None => heap_ q end) /\
  timer_at u q' = (if decide (u = s) then with_index None (with_ops [] (timer_at s q))
    else if decide (u = t) then with_index (heap_index_ (timer_at s q)) (with_ops (op_queue_ (timer_at t q) ++ op_queue_ (timer_at s q)) (timer_at t q))
    else timer_at u q).
Proof.
  intros Hts. cbv zeta. unfold move_data. set (q1 := update_timer t _ q). set (q2 := update_timer s (with_ops []) q1).
  set (q3 := update_timer t _ q2). set (q4 := update_timer s _ q3).
  assert (forall v, timer_at v q1 = if decide (t = v) then with_ops (op_queue_ (timer_at t q) ++ op_queue_ (timer_at s q)) (timer_at t q) else timer_at v q) as H1
    by (intros v; unfold q1; by rewrite timer_at_update).
  assert (forall v, timer_at v q2 = if decide (s = v) then with_ops [] (timer_at s q) else timer_at v q1) as H2
    by (intros v; unfold q2; rewrite timer_at_update, (H1 s), (decide_False (P := t = s)) by done; done).
  assert (forall v, timer_at v q3 = if decide (t = v) then with_index (heap_index_ (timer_at s q))
      (with_ops (op_queue_ (timer_at t q) ++ op_queue_ (timer_at s q)) (timer_at t q)) else timer_at v q2) as H3.
  { intros v. unfold q3. rewrite timer_at_update, (H2 s), (H2 t), (H1 t).
    rewrite (decide_True (P := s = s)), (decide_False (P := s = t)), (decide_True (P := t = t)) by done. done. }
  assert (forall v, timer_at v q4 = if decide (s = v) then with_index None (with_ops [] (timer_at s q)) else timer_at v q3) as H4.
  { intros v. unfold q4. rewrite timer_at_update, (H3 s), (decide_False (P := t = s)), (H2 s) by done.
    by rewrite (decide_True (P := s = s)) by done. }
  assert (heap_index_ (timer_at t q4) = heap_index_ (timer_at s q)) as Hix.
  { rewrite H4, H3, (decide_False (P := s = t)), (decide_True (P := t = t)) by done. done. }
  rewrite Hix.
  assert (timer_at u q4 = if decide (u = s) then with_index None (with_ops [] (timer_at s q))
    else if decide (u = t) then with_index (heap_index_ (timer_at s q)) (with_ops (op_queue_ (timer_at t q) ++ op_queue_ (timer_at s q)) (timer_at t q))
    else timer_at u q) as Hu.
  { rewrite H4, H3, H2, H1. repeat case_decide; congruence. }
  rewrite <- Hu. by destruct (heap_index_ (timer_at s q)).
Qed.

Lemma move_links_at t s q u : t <> s -> prev_ (timer_at s q) <> Some s -> next_ (timer_at s q) <> Some s ->
  let q' := move_links t s q in
  timers_ q' = (if decide (timers_ q = Some s) then Some t else timers_ q) /\ heap_ q' = heap_ q /\
  op_queue_ (timer_at u q') = op_queue_ (timer_at u q) /\ heap_index_ (timer_at u q') = heap_index_ (timer_at u q) /\
  next_ (timer_at u q') = (if decide (u = s) then None else if decide (u = t) then next_ (timer_at s q)
    else if decide (prev_ (timer_at s q) = Some u) then Some t else next_ (timer_at u q)) /\
  prev_ (timer_at u q') = (if decide (u = s) then None else if decide (u = t) then prev_ (timer_at s q)
    else if decide (next_ (timer_at s q) = Some u) then Some t else prev_ (timer_at u q)).
Proof.
  intros Hts Hps Hns. cbv zeta. unfold move_links. set (q1 := if bool_decide _ then _ else q).
  assert (heap_ q1 = heap_ q /\ (timers_ q1 = if decide (timers_ q = Some s) then Some t else timers_ q) /\
    forall v, timer_at v q1 = timer_at v q) as (Hh & Ht & H1).
  { unfold q1. case_bool_decide; by rewrite ?decide_True, ?decide_False by done. }
  rewrite !(H1 s). set (q2 := update_link (prev_ (timer_at s q)) _ q1).
  assert (forall v, timer_at v q2 = if decide (prev_ (timer_at s q) = Some v) then with_next (Some t) (timer_at v q) else timer_at v q) as H2
    by (intros v; unfold q2; by rewrite timer_at_link, H1).
  assert (timer_at s q2 = timer_at s q) as Hs2 by (by rewrite H2, decide_False).
  rewrite !Hs2. set (q3 := update_link (next_ (timer_at s q)) _ q2).
  assert (forall v, timer_at v q3 = if decide (next_ (timer_at s q) = Some v) then with_prev (Some t) (timer_at v q2) else timer_at v q2) as H3
    by (intros v; unfold q3; by rewrite timer_at_link).
  assert (timer_at s q3 = timer_at s q) as Hs3 by (by rewrite H3, decide_False).
  rewrite !Hs3. set (q4 := update_timer t _ q3).
  assert (timer_at s q4 = timer_at s q) as Hs4 by (unfold q4; by rewrite timer_at_update, decide_False).
  rewrite !Hs4. split.
  { trans (timers_ q3); [done|]. unfold q3, q2. by rewrite !(proj2 (heap_update_link _ _ _)). }
  split. { trans (heap_ q3); [done|]. unfold q3, q2. by rewrite !(proj1 (heap_update_link _ _ _)). }
  unfold q4. rewrite !timer_at_update, !H3, !H2.
  repeat case_decide; subst; simpl in *; split_and!; congruence.
Qed.

(** [t] takes the place of [s]. *)
Definition rename (t s u : timer) : timer := if decide (u = s) then t else u.

Lemma rename_ne t s u : u <> s -> rename t s u = u.
Proof. intros H. unfold rename. by rewrite decide_False. Qed.

Lemma rename_eq t s : rename t s s = t.
Proof. unfold rename. by rewrite decide_True. Qed.

Lemma rename_inj t s u v : u <> t -> v <> t -> rename t s u = rename t s v -> u = v.
Proof. unfold rename. repeat case_decide; congruence. Qed.

Lemma rename_neq t s u : t <> s -> rename t s u <> s.
Proof. unfold rename. case_decide; congruence. Qed.

Lemma rename_fmap t s (o : option timer) : rename t s <$> o = if decide (o = Some s) then Some t else o.
Proof. destruct o as [u|]; simpl; [|done]. unfold rename. repeat case_decide; congruence. Qed.

Lemma links_sym q l u v : linked q l -> u ∈ l -> v ∈ l ->
  next_ (timer_at u q) = Some v <-> prev_ (timer_at v q) = Some u.
Proof.
  intros [_ _ Hlk _] Hu Hv. split; intros H.
  - apply list_elem_of_split in Hu as (a & b & ->). destruct (Hlk a u b eq_refl) as [Hn _]. rewrite Hn in H.
    destruct b as [|w b]; simplify_eq/=. destruct (Hlk (a ++ [u]) v b) as [_ ->]; [by rewrite <- app_assoc|].
    by rewrite last_snoc.
  - apply list_elem_of_split in Hv as (a & b & ->). destruct (Hlk a v b eq_refl) as [_ Hp]. rewrite Hp in H.
    apply last_Some in H as [a' ->]. by destruct (Hlk a' u (v :: b)) as [-> _]; [by rewrite <- app_assoc|].
Qed.

(** No timer is linked to itself, or to one off the list. *)
Lemma link_other q l s u : linked q l -> s ∈ l -> next_ (timer_at s q) = Some u \/ prev_ (timer_at s q) = Some u ->
  u ∈ l /\ u <> s.
Proof.
  intros [Hnd _ Hlk _] Hs H. apply list_elem_of_split in Hs as (a & b & ->).
  destruct (Hlk a s b eq_refl) as [Hn Hp]. rewrite Hn, Hp in H. apply NoDup_middle in Hnd as [Hns _].
  assert (u ∈ a ++ b) as Hin.
  { apply elem_of_app. destruct H as [H|H]; [right|left; by apply last_Some_elem_of].
    destruct b; simplify_eq/=. apply list_elem_of_here. }
  split; [|by intros ->]. rewrite <- Permutation_middle. by apply list_elem_of_further.
Qed.

(** The links after the move, for the timers of the list and for the others. *)
Lemma move_links_rename t s q l : linked q l -> s ∈ l -> t ∉ l ->
  (forall u, u ∈ l -> next_ (timer_at (rename t s u) (move_links t s q)) = rename t s <$> next_ (timer_at u q) /\
    prev_ (timer_at (rename t s u) (move_links t s q)) = rename t s <$> prev_ (timer_at u q)) /\
  (forall u, u ∉ rename t s <$> l -> next_ (timer_at u (move_links t s q)) = None /\
    prev_ (timer_at u (move_links t s q)) = None).
Proof.
  intros Hl Hs Ht. assert (t <> s) as Hts by (by intros ->).
  assert (prev_ (timer_at s q) <> Some s /\ next_ (timer_at s q) <> Some s) as [Hp Hn].
  { split; intros H; destruct (link_other q l s s Hl Hs) as [_ H']; [by right|done|by left|done]. }
  pose proof (fun u => move_links_at t s q u Hts Hp Hn) as Hu. cbv zeta in Hu. split.
  - intros u Hin. destruct (Hu (rename t s u)) as (_ & _ & _ & _ & -> & ->). rewrite !rename_fmap.
    destruct (decide (u = s)) as [->|Hus].
    { by rewrite rename_eq, !(decide_False (P := t = s)), !(decide_True (P := t = t)), !decide_False by done. }
    rewrite rename_ne by done. rewrite !(decide_False (P := u = s)), !(decide_False (P := u = t)) by (done || by intros ->).
    pose proof (links_sym q l u s Hl Hin Hs). pose proof (links_sym q l s u Hl Hs Hin).
    split; apply decide_ext; tauto.
  - intros u Hnu. destruct (Hu u) as (_ & _ & _ & _ & -> & ->).
    destruct (decide (u = s)) as [->|Hus]; [done|].
    assert (u ∉ l) as Hul by (intros Hin; apply Hnu; rewrite <- (rename_ne t s u) by done; by apply list_elem_of_fmap_2).
    assert (u <> t) as Hut by (intros ->; apply Hnu; apply list_elem_of_fmap; exists s; by rewrite rename_eq).
    rewrite !(decide_False (P := u = t)) by done. rewrite !decide_False; [by apply (lk_out _ _ Hl)|..].
    + intros H. destruct (link_other q l s u Hl Hs); [by left|done].
    + intros H. destruct (link_other q l s u Hl Hs); [by right|done].
Qed.

Lemma head_fmap {A B} (f : A -> B) l : head (f <$> l) = f <$> head l.
Proof. by destruct l. Qed.

Lemma move_linked t s q l : linked q l -> s ∈ l -> t ∉ l -> linked (move_links t s q) (rename t s <$> l).
Proof.
  intros Hl Hs Ht. destruct (move_links_rename t s q l Hl Hs Ht) as [Hin Hout].
  constructor; [| | |exact Hout].
  - apply NoDup_fmap_2_strong; [|by apply (lk_nodup _ _ Hl)]. intros x y Hx Hy. unfold rename.
    repeat case_decide; subst; done || congruence.
  - assert (t <> s) as Hts by (by intros ->). rewrite head_fmap, rename_fmap, <- (lk_head _ _ Hl).
    destruct (move_links_at t s q t Hts) as (-> & _); [..|done]; intros H; destruct (link_other q l s s Hl Hs); auto.
  - intros a x b Heq. apply fmap_app_inv in Heq as (a0 & b0 & -> & Heq & ->).
    symmetry in Heq. apply fmap_cons_inv in Heq as (x0 & b1 & -> & -> & ->).
    destruct (Hin x0) as [-> ->]; [apply elem_of_app; right; apply list_elem_of_here|].
    destruct (lk_links _ _ Hl a0 x0 b1 eq_refl) as [-> ->]. by rewrite head_fmap, fmap_last.
Qed.

Definition rename_entry (t s : timer) (e : heap_entry) : heap_entry := mkHeapEntry (time_ e) (rename t s (timer_ e)).

(** What the queue has after the move. *)
Lemma move_frame t s q l : structure q l -> s ∈ l -> t ∉ l -> let q' := move_timer t s q in
  linked q' (rename t s <$> l) /\ heap_ q' = rename_entry t s <$> heap_ q /\
  (forall u, u <> t -> heap_index_ (timer_at (rename t s u) q') = heap_index_ (timer_at u q)) /\
  (forall u, op_queue_ (timer_at u q') = if decide (u = s) then [] else if decide (u = t) then op_queue_ (timer_at t q) ++ op_queue_ (timer_at s q) else op_queue_ (timer_at u q)) /\
  heap_index_ (timer_at s q') = None.
Proof.
  intros Hst Hs Ht. pose proof Hst as [Hl Hi Ho Ha Hn]. assert (t <> s) as Hts by (by intros ->).
  cbv zeta. unfold move_timer. pose proof (fun u => move_data_at t s q u Hts) as Hd. cbv zeta in Hd.
  set (q1 := move_data t s q) in *.
  assert (linked q1 l) as Hl1.
  { eapply linked_reordered; [exact Hl|apply (Hd t)|]. intros u. destruct (Hd u) as (_ & _ & ->).
    destruct (decide (u = s)) as [->|]; [done|]. by destruct (decide (u = t)) as [->|]. }
  assert (prev_ (timer_at s q1) <> Some s /\ next_ (timer_at s q1) <> Some s) as [Hp1 Hn1].
  { split; intros H; destruct (link_other q1 l s s Hl1 Hs) as [_ H']; [by right|done|by left|done]. }
  pose proof (fun u => move_links_at t s q1 u Hts Hp1 Hn1) as Hu. cbv zeta in Hu.
  split; [by apply move_linked|]. split; [|split_and!].
  - destruct (Hu t) as (_ & -> & _). destruct (Hd t) as (_ & -> & _). apply list_eq. intros k. rewrite list_lookup_fmap.
    unfold rename_entry. destruct (heap_index_ (timer_at s q)) as [i|] eqn:Hix.
    + destruct (decide (k = i)) as [->|Hki]; [rewrite list_lookup_alter_eq|rewrite list_lookup_alter_ne by done];
        (destruct (heap_ q !! _) as [e|] eqn:He; [|done]); simpl; f_equal; pose proof (Hi _ _ He) as He'.
      * assert (timer_ e = s) as ->; [|by rewrite rename_eq].
        destruct (decide (s ∈ heap_timers q)) as [(j & f & Hf & <-)%in_heap_timers|Hns].
        -- rewrite (Hi j f Hf) in Hix. injection Hix as ->. by rewrite Hf in He; injection He as ->.
        -- by rewrite (Hn s Hns) in Hix.
      * rewrite rename_ne; [by destruct e|]. intros Hes. rewrite Hes, Hix in He'. by injection He' as ->.
    + destruct (heap_ q !! k) as [e|] eqn:He; [|done]. simpl. rewrite rename_ne; [by destruct e|].
      intros Hes. pose proof (Hi _ _ He) as He'. by rewrite Hes, Hix in He'.
  - intros u Hut. destruct (Hu (rename t s u)) as (_ & _ & _ & -> & _). destruct (Hd (rename t s u)) as (_ & _ & ->).
    destruct (decide (u = s)) as [->|Hus]; [rewrite rename_eq|rewrite rename_ne by done]; by repeat case_decide.
  - intros u. destruct (Hu u) as (_ & _ & -> & _). destruct (Hd u) as (_ & _ & ->). by repeat case_decide.
  - destruct (Hu s) as (_ & _ & _ & -> & _). destruct (Hd s) as (_ & _ & ->). by rewrite decide_True.
Qed.

Lemma move_structure t s q l : structure q l -> s ∈ l -> t ∉ l -> structure (move_timer t s q) (rename t s <$> l).
Proof.
  intros Hst Hs Ht. pose proof Hst as [Hl Hi Ho Ha Hn].
  destruct (move_frame t s q l Hst Hs Ht) as (Hl' & Hh & Hix & _ & Hs').
  set (q' := move_timer t s q) in *. clearbody q'.
  assert (heap_timers q' = rename t s <$> heap_timers q) as Hht
    by (unfold heap_timers; rewrite Hh, <- !list_fmap_compose; done).
  constructor.
  - done.
  - intros i e He. rewrite Hh, list_lookup_fmap in He. apply fmap_Some in He as (f & Hf & ->). simpl.
    rewrite Hix; [by apply Hi|]. intros Hft. apply Ht, Ha. rewrite <- Hft. apply list_elem_of_fmap_2. by eapply list_elem_of_lookup_2.
  - intros j Hj a b. rewrite Hh, !list_lookup_fmap. intros (a' & Ha' & ->)%fmap_Some (b' & Hb' & ->)%fmap_Some.
    exact (Ho j Hj a' b' Ha' Hb').
  - rewrite Hht. intros u (v & -> & Hv)%list_elem_of_fmap. by apply list_elem_of_fmap_2, Ha.
  - intros u Hu. rewrite Hht in Hu. destruct (decide (u = s)) as [->|Hus]; [done|].
    destruct (decide (u = t)) as [->|Hut].
    + rewrite <- (rename_eq t s). rewrite Hix by (by intros ->). apply Hn. intros Hin. apply Hu.
      apply list_elem_of_fmap. exists s. by rewrite rename_eq.
    + rewrite <- (rename_ne t s u) by done. rewrite Hix by done. apply Hn. intros Hin. apply Hu.
      apply list_elem_of_fmap. exists u. by rewrite rename_ne.
Qed.

Lemma move_due t s q l u time : structure q l -> s ∈ l -> t ∉ l -> u <> t -> due q u time ->
  due (move_timer t s q) (rename t s u) time.
Proof.
  intros Hst Hs Ht Hut. destruct (move_frame t s q l Hst Hs Ht) as (_ & Hh & _).
  set (q' := move_timer t s q) in *. clearbody q'. destruct time as [x|]; simpl.
  - intros Hin. rewrite Hh. apply list_elem_of_fmap. exists (mkHeapEntry x u). split; [reflexivity|exact Hin].
  - unfold heap_timers. rewrite Hh. intros Hn (e & Heq & (f & -> & Hf)%list_elem_of_fmap)%list_elem_of_fmap.
    simpl in Heq. assert (timer_ f ∈ heap_timers q) as Hft by (by apply list_elem_of_fmap_2).
    assert (timer_ f <> t) as Hne by (intros Hx; apply Ht; rewrite <- Hx; by apply (st_active _ _ Hst)).
    apply Hn. by rewrite (rename_inj t s u (timer_ f)).
Qed.

Lemma abstracts_ext q q' l a : timers_ q' = timers_ q -> heap_ q' = heap_ q ->
  (forall u, timer_at u q' = timer_at u q) -> abstracts q l a -> abstracts q' l a.
Proof.
  intros Ht Hh Hu [[Hl Hi Ho Ha Hn] He]. split; [constructor|].
  - eapply linked_reordered; [exact Hl|done|]. intros u. by rewrite Hu.
  - intros i e Hie. rewrite Hu. rewrite Hh in Hie. by apply Hi.
  - by rewrite Hh.
  - unfold heap_timers. by rewrite Hh.
  - intros u. unfold heap_timers. rewrite Hh, Hu. apply Hn.
  - intros u. specialize (He u). unfold entry_ok, due, heap_timers in *. by rewrite Hu, Hh.
Qed.

Lemma timer_data_eq d d' : op_queue_ d = op_queue_ d' -> heap_index_ d = heap_index_ d' ->
  next_ d = next_ d' -> prev_ d = prev_ d' -> d = d'.
Proof. destruct d, d'. simpl. by intros -> -> -> ->. Qed.

(** Moving an inactive timer changes nothing. *)
Lemma move_inactive t s q l a : abstracts q l a -> t <> s -> a !! t = None -> a !! s = None ->
  abstracts (move_timer t s q) l a.
Proof.
  intros Hab Hts Hat Has. pose proof Hab as [[Hl Hi Ho Ha Hn] He].
  pose proof (He t) as Ht. pose proof (He s) as Hs. rewrite Hat in Ht. rewrite Has in Hs.
  destruct Ht as [Htl Hto]. destruct Hs as [Hsl Hso]. destruct (lk_out _ _ Hl _ Hsl) as [Hns Hps].
  destruct (lk_out _ _ Hl _ Htl) as [Hnt Hpt].
  assert (heap_index_ (timer_at s q) = None /\ heap_index_ (timer_at t q) = None) as [Hxs Hxt]
    by (split; apply Hn; by intros ?%Ha).
  pose proof (fun u => move_data_at t s q u Hts) as Hd. cbv zeta in Hd.
  assert (forall u, timer_at u (move_data t s q) = timer_at u q) as H1.
  { intros u. destruct (Hd u) as (_ & _ & ->). destruct (decide (u = s)) as [->|].
    { by apply timer_data_eq. }
    destruct (decide (u = t)) as [->|]; [|done]. apply timer_data_eq; [|simpl; congruence|done..].
    simpl. by rewrite Hto, Hso. }
  destruct (Hd t) as (Ht1 & Hh1 & _). rewrite Hxs in Hh1. clear Hd.
  unfold move_timer. set (q1 := move_data t s q) in *. clearbody q1.
  pose proof (fun u => move_links_at t s q1 u Hts) as Hu. rewrite !H1, Hns, Hps in Hu. cbv zeta in Hu.
  set (q' := move_links t s q1) in *. clearbody q'.
  assert (timers_ q <> Some s) as Hhd
    by (rewrite (lk_head _ _ Hl); intros H; apply Hsl; destruct l; simplify_eq/=; apply list_elem_of_here).
  eapply abstracts_ext; [| | |exact Hab].
  - destruct (Hu t) as (-> & _); [done..|]. by rewrite Ht1, decide_False.
  - destruct (Hu t) as (_ & -> & _); done.
  - intros u. destruct (Hu u) as (_ & _ & H2 & H3 & H4 & H5); [done..|]. rewrite H1 in H2, H3, H4, H5.
    apply timer_data_eq; [done..| |].
    + rewrite H4. repeat case_decide; congruence.
    + rewrite H5. repeat case_decide; congruence.
Qed.

Lemma move_timer_abstracts t s q l a : abstracts q l a -> t <> s -> a !! t = None ->
  exists l', abstracts (move_timer t s q) l' (alarm_move t s a).
Proof.
  intros Hab Hts Hat. unfold alarm_move. destruct (a !! s) as [v|] eqn:Has; [|exists l; by apply move_inactive].
  pose proof Hab as [Hst He]. pose proof (He s) as Hes. rewrite Has in Hes. destruct v as [time ops].
  destruct Hes as (Hs & Hops & Hne & Hdue). pose proof (He t) as Het. rewrite Hat in Het. destruct Het as [Ht Hto].
  exists (rename t s <$> l). split; [by apply move_structure|].
  destruct (move_frame t s q l Hst Hs Ht) as (_ & Hh & _ & Hq & _).
  pose proof (fun u time => move_due t s q l u time Hst Hs Ht) as Hmd. set (q' := move_timer t s q) in *. clearbody q'.
  assert (forall u, u <> s -> u <> t -> u ∈ rename t s <$> l <-> u ∈ l) as Hin.
  { intros u Hus Hut. rewrite list_elem_of_fmap. split.
    - intros (w & -> & Hw). revert Hus Hut. unfold rename. by case_decide.
    - intros Hu. exists u. by rewrite rename_ne. }
  intros u. destruct (decide (u = t)) as [->|Hut]; [rewrite lookup_insert_eq|rewrite lookup_insert_ne by done].
  - unfold entry_ok. rewrite Hq, decide_False, decide_True, Hto by done. split_and!; [|done..|].
    + apply list_elem_of_fmap. exists s. by rewrite rename_eq.
    + rewrite <- (rename_eq t s). apply Hmd; [by intros ->|done].
  - destruct (decide (u = s)) as [->|Hus]; [rewrite lookup_delete_eq|rewrite lookup_delete_ne by done].
    + unfold entry_ok. rewrite Hq, decide_True by done. split; [|done]. intros (w & Hw & _)%list_elem_of_fmap.
      by eapply (rename_neq t s w).
    + pose proof (He u) as Heu. unfold entry_ok in *.
      destruct (a !! u) as [[time' ops']|]; rewrite Hq, !decide_False, Hin by done; [|done].
      destruct Heu as (? & ? & ? & ?). split_and!; [done..|]. rewrite <- (rename_ne t s u) by done. by apply Hmd.
Qed.

(** ** Sequences of calls *)

Lemma new_queue_abstracts : abstracts new_timer_queue [] ∅.
Proof.
  assert (forall t, timer_at t new_timer_queue = new_timer) as Hn by (intros t; unfold timer_at; simpl; by rewrite lookup_empty).
  split; [constructor|].
  - constructor; [constructor|done|by intros [|]|]. intros t _. by rewrite Hn.
  - intros i e. simpl. by rewrite lookup_nil.
  - intros j _ x y. simpl. by rewrite !lookup_nil.
  - by intros t ?%not_elem_of_nil.
  - intros t _. by rewrite Hn.
  - intros t. rewrite lookup_empty. split; [apply not_elem_of_nil|by rewrite Hn].
Qed.

Lemma tq_step_refines c q l a : abstracts q l a -> tq_allowed c a ->
  exists r q' l', tq_step c q = Ok (r, q') /\ tq_promised c a r /\ abstracts q' l' (alarm_step c a).
Proof.
  intros Hab Hc. destruct c as [time t op|t n|t key|now|target source]; cbn [tq_step alarm_step tq_promised].
  - destruct (enqueue_timer_abstracts time t op q l a Hab) as (b & q' & l' & -> & Hab' & Hw). by exists (Enqueued b), q', l'.
  - destruct (cancel_timer_abstracts t n q l a Hab) as (q' & l' & -> & Hab'). eexists _, q', l'. split; [done|].
    split; [|done]. split; [|done]. symmetry. apply length_fmap.
  - destruct (cancel_by_key_abstracts t key q l a Hab) as (q' & l' & -> & Hab'). by eexists _, q', l'.
  - destruct (get_ready_timers_abstracts now (S (length (heap_ q))) q l a [] Hab) as (ops & q' & l' & a' & -> & Hab' & Hr); [lia|].
    eexists _, q', l'. split; [done|]. pose proof Hr as (_ & _ & _ & _ & _ & Ha'). by rewrite <- Ha'.
  - destruct Hc as [Hne Ht]. destruct (move_timer_abstracts target source q l a Hab Hne Ht) as [l' Hab']. by eexists _, _, l'.
Qed.

Lemma tq_run_refines cs : forall q l a, abstracts q l a -> tq_calls_ok cs a ->
  exists rs q' l', tq_run cs q = Ok (rs, q') /\ tq_results_ok cs rs a /\ abstracts q' l' (alarm_run cs a).
Proof.
  induction cs as [|c cs IH]; intros q l a Hab Hok; [by exists [], q, l|]. destruct Hok as [Hc Hok].
  destruct (tq_step_refines c q l a Hab Hc) as (r & q1 & l1 & Hrun & Hr & Hab1).
  destruct (IH q1 l1 _ Hab1 Hok) as (rs & q' & l' & Hrun' & Hrs & Hab').
  exists (r :: rs), q', l'. cbn [tq_run]. rewrite Hrun. cbn [obind]. by rewrite Hrun'.
Qed.

(** C31: the timer queue (binary heap with back indices, doubly linked list of the
    active timers) implements a map from active timers to their time and waiting
    operations.  From an empty queue, every sequence of calls in which a timer is
    moved only to another, inactive one runs without leaving the bounds of the
    heap or its fuel, and every result is the promised one: an expired timer's operations come out
    with no error, all of them, the earliest time first, and no other timer is touched; cancelling aborts
    the first [max_cancelled] operations, or those with the key, in order; the event
    loop is interrupted only for an operation that is next, and whenever its time is before all others. *)
Theorem timer_queue_refines cs : tq_calls_ok cs ∅ ->
  exists rs q l, tq_run cs new_timer_queue = Ok (rs, q) /\ tq_results_ok cs rs ∅ /\ abstracts q l (alarm_run cs ∅).
Proof. exact (tq_run_refines cs new_timer_queue [] ∅ new_queue_abstracts). Qed.

Definition timer_calls : list tq_call :=
  [EnqueueTimer (Some 30%Z) 1 (mkWaitOp 10 0); EnqueueTimer (Some 20%Z) 2 (mkWaitOp 11 0);
   EnqueueTimer (Some 10%Z) 3 (mkWaitOp 12 0); EnqueueTimer None 4 (mkWaitOp 13 0);
   MoveTimer 5 2; CancelTimer 4 9; GetReadyTimers 25].

Lemma timer_queue_refines_witness : tq_calls_ok timer_calls ∅ /\
  exists rs q l, tq_run timer_calls new_timer_queue = Ok (rs, q) /\ tq_results_ok timer_calls rs ∅ /\
    abstracts q l (alarm_run timer_calls ∅).
Proof.
  assert (tq_calls_ok timer_calls ∅) as H by (cbn [tq_calls_ok timer_calls tq_allowed]; split_and!; done).
  split; [exact H|]. exact (timer_queue_refines timer_calls H).
Defined.

Example timer_calls_run : fst <$> (match tq_run timer_calls new_timer_queue with Ok r => Some r | Fault _ => None end) =
  Some [Enqueued true; Enqueued true; Enqueued true; Enqueued false; Moved;
        Cancelled 1 [(mkWaitOp 13 0, operation_aborted)];
        Dequeued [(mkWaitOp 12 0, no_error); (mkWaitOp 11 0, no_error)]].
Proof. vm_compute. reflexivity. Qed.
