(* ===== verification/IocpTimers.v ===== *)
(** * IocpTimers: timers on the completion port

    [asio/detail/impl/win_iocp_io_context.hpp] ([schedule_timer] and the others),
    the timer thread, the dispatch and [shutdown] of
    [asio/detail/impl/win_iocp_io_context.ipp], the service of the timers
    ([asio/detail/deadline_timer_service.hpp]) and its clock
    ([asio/detail/chrono_time_traits.hpp] over [std::chrono::steady_clock], in
    nanoseconds).  An io_context has one service of a clock, so one timer queue is
    registered and [timer_queue_set] is that queue.  The event loop itself is
    [IocpContext]. *)

From stdpp Require Import base list gmap.
From Stdlib Require Import ZArith Lia.
From S2P Require Import Prelude NetError TimerQueue IocpContext.
Local Open Scope exchange_scope.
Local Open Scope list_scope.
Local Open Scope Z_scope.

(** ** Definitions *)

(** *** The clock

    Times and durations are [int64_t]; what leaves its range has no meaning
    in the language. *)

Definition time_max : Z := 2 ^ 63 - 1.
Definition time_min : Z := - 2 ^ 63.

Definition i64 (z : Z) : outcome Z := if (time_min <=? z) && (z <=? time_max) then Ok z else Fault OutOfRange.

Definition time_add (t d : Z) : outcome Z :=
  if 0 <=? t then
    let* room := i64 (time_max - t) in
    if room <? d then Ok time_max else i64 (t + d)
  else
    let* room := i64 (t - time_min) in
    let* room := i64 (- room) in
    if d <? room then Ok time_min else i64 (t + d).

Definition time_subtract (t1 t2 : Z) : outcome Z :=
  if 0 <=? t1 then
    if 0 <=? t2 then i64 (t1 - t2)
    else if t2 =? time_min then Ok time_max
    else
      let* room := i64 (time_max - t1) in
      let* d := i64 (0 - t2) in
      if room <? d then Ok time_max else i64 (t1 - t2)
  else
    if t2 <? 0 then i64 (t1 - t2)
    else if t1 =? time_min then Ok time_min
    else
      let* room := i64 (time_max - t2) in
      let* d := i64 (0 - t1) in
      if room <? d then Ok time_min
      else
        let* d := i64 (t2 - t1) in
        i64 (- d).

(** *** The timers of an io_context *)

Definition max_timeout_msec : Z := 5 * 60 * 1000.
Definition max_timeout_usec : Z := max_timeout_msec * 1000.

(** A microsecond and a millisecond of the clock. *)
Definition usec : Z := 1000.
Definition msec : Z := 1000 * usec.

(** Where the timer thread is. *)
Inductive timer_thread : Type :=
  | TimerLoop     (* at the test of shutdown_ *)
  | TimerWait     (* in WaitForSingleObject *)
  | TimerSet      (* woken, about to set dispatch_required_ *)
  | TimerPost     (* about to wake the loop *)
  | TimerEnd.

(** [ec_] is that of each [wait_op].  [waitable] is when the waitable timer is
    signalled next, [signaled] whether it is; [now] is the time. *)
Record timer_context : Type := mkTimerContext {
  context : iocp;
  shutdown_ : Z;
  timer_queue_ : timer_queue;
  ec_ : gmap operation error_code;
  waitable : Z;
  signaled : bool;
  timer_thread_ : timer_thread;
  now : Z }.

Definition set_context (x : iocp) (c : timer_context) : timer_context :=
  mkTimerContext x (shutdown_ c) (timer_queue_ c) (ec_ c) (waitable c) (signaled c) (timer_thread_ c) (now c).
Definition set_shutdown (x : Z) (c : timer_context) : timer_context :=
  mkTimerContext (context c) x (timer_queue_ c) (ec_ c) (waitable c) (signaled c) (timer_thread_ c) (now c).
Definition set_queue (x : timer_queue) (c : timer_context) : timer_context :=
  mkTimerContext (context c) (shutdown_ c) x (ec_ c) (waitable c) (signaled c) (timer_thread_ c) (now c).
Definition set_ecs (x : gmap operation error_code) (c : timer_context) : timer_context :=
  mkTimerContext (context c) (shutdown_ c) (timer_queue_ c) x (waitable c) (signaled c) (timer_thread_ c) (now c).
Definition set_thread (x : timer_thread) (c : timer_context) : timer_context :=
  mkTimerContext (context c) (shutdown_ c) (timer_queue_ c) (ec_ c) (waitable c) (signaled c) x (now c).
Definition set_now (x : Z) (c : timer_context) : timer_context :=
  mkTimerContext (context c) (shutdown_ c) (timer_queue_ c) (ec_ c) (waitable c) (signaled c) (timer_thread_ c) x.

(** [SetWaitableTimer]: the timer is not signalled until [at_], and then every
    [max_timeout_msec]. *)
Definition SetWaitableTimer (at_ : Z) (c : timer_context) : timer_context :=
  mkTimerContext (context c) (shutdown_ c) (timer_queue_ c) (ec_ c) at_ false (timer_thread_ c) (now c).

(** The waitable timer is signalled; a wait that returns resets it. *)
Definition timer_signal (c : timer_context) : timer_context :=
  mkTimerContext (context c) (shutdown_ c) (timer_queue_ c) (ec_ c) (waitable c + max_timeout_msec * msec) true
    (timer_thread_ c) (now c).
Definition timer_reset (c : timer_context) : timer_context :=
  mkTimerContext (context c) (shutdown_ c) (timer_queue_ c) (ec_ c) (waitable c) false (timer_thread_ c) (now c).

(** [do_add_timer_queue], the first time. *)
Definition add_timer_queue (c : iocp) (time : Z) : timer_context :=
  mkTimerContext c 0 new_timer_queue ∅ (time + max_timeout_usec * usec) false TimerLoop time.

Definition update_timeout (c : timer_context) : outcome timer_context :=
  let* timeout_usec := wait_duration time_subtract usec (now c) max_timeout_usec (timer_queue_ c) in
  Ok (if timeout_usec <? max_timeout_usec then SetWaitableTimer (now c + timeout_usec * usec) c else c).

(** The results of the operations that leave the queue. *)
Definition store_ecs (ops : list ready_op) (c : timer_context) : timer_context :=
  set_ecs (fold_left (fun m r => <[ wo_op r.1 := r.2 ]> m) ops (ec_ c)) c.

Definition op_ids (ops : list ready_op) : list operation := (fun r => wo_op r.1) <$> ops.

(** [post_immediate_completion] *)
Definition post_immediate_completion (ok : bool) (o : operation) (c : iocp) : iocp :=
  post_deferred_completion ok o (work_started c).

Definition schedule_timer (ok : bool) (time : Z) (t : timer) (op : wait_op) (c : timer_context)
    : outcome timer_context :=
  if negb (shutdown_ c =? 0) then Ok (set_context (post_immediate_completion ok (wo_op op) (context c)) c)
  else
    let* (earliest, q) := enqueue_timer (Some time) t op (timer_queue_ c) in
    let c := set_context (work_started (context c)) (set_queue q c) in
    if earliest : bool then update_timeout c else Ok c.

(** Posting what was cancelled. *)
Definition post_cancelled (oks : list bool) (ops : list ready_op) (c : timer_context) : timer_context :=
  let c := store_ecs ops c in
  set_context (post_deferred_completions oks (op_ids ops) (context c)) c.

Definition cancel_timer (oks : list bool) (t : timer) (max_cancelled : nat) (c : timer_context)
    : outcome (nat * timer_context) :=
  if negb (shutdown_ c =? 0) then Ok (0%nat, c)
  else
    let* (r, q) := TimerQueue.cancel_timer t max_cancelled (timer_queue_ c) in
    Ok (fst r, post_cancelled oks (snd r) (set_queue q c)).

Definition cancel_timer_by_key (oks : list bool) (t : timer) (key : nat) (c : timer_context) : outcome timer_context :=
  if negb (shutdown_ c =? 0) then Ok c
  else
    let* (ops, q) := TimerQueue.cancel_timer_by_key t key (timer_queue_ c) in
    Ok (post_cancelled oks ops (set_queue q c)).

(** [max_cancelled] is the largest [size_t]: no bound on the operations of a timer. *)
Definition cancel_all (t : timer) (q : timer_queue) : outcome (nat * list ready_op * timer_queue) :=
  TimerQueue.cancel_timer t (length (op_queue_ (timer_at t q))) q.

Definition move_timer (oks : list bool) (to from : timer) (c : timer_context) : outcome timer_context :=
  let* (r, q) := cancel_all to (timer_queue_ c) in
  Ok (post_cancelled oks (snd r) (set_queue (TimerQueue.move_timer to from q) c)).

(** The dispatch of [do_one], by the thread that reset [dispatch_required_]; then
    it calls [update_timeout]. *)
Definition dispatch_timers (oks : list bool) (c : timer_context) : outcome timer_context :=
  let completed := completed_ops_ (context c) in
  let c := set_context (set_completed [] (context c)) c in
  let q := timer_queue_ c in
  let* (ops, q) := get_ready_timers (S (length (heap_ q))) (now c) [] q in
  let c := store_ecs ops (set_queue q c) in
  Ok (set_context (post_deferred_completions oks (completed ++ op_ids ops) (context c)) c).

(** *** Shutting down *)

Definition destroy_ops (os : list operation) (c : timer_context) : timer_context :=
  set_context (set_work (outstanding_work_ (context c) - Z.of_nat (length os)) (context c)) c.

(** The loop of [shutdown], with the operations it destroys.  When the port has no
    packet [GetQueuedCompletionStatus] waits, and nothing changes. *)
Fixpoint shutdown_loop (fuel : nat) (destroyed : list operation) (c : timer_context)
    : outcome (list operation * timer_context) :=
  match fuel with
  | O => Fault OutOfFuel
  | S fuel =>
      if 0 <? outstanding_work_ (context c) then
        let q := timer_queue_ c in
        let* (waits, q) := get_all_timers (S (size (data q))) [] q in
        let ops := (wo_op <$> waits) ++ completed_ops_ (context c) in
        let c := set_context (set_completed [] (context c)) (set_queue q c) in
        match ops with
        | _ :: _ => shutdown_loop fuel (destroyed ++ ops) (destroy_ops ops c)
        | [] =>
            match port (context c) with
            | [] => shutdown_loop fuel destroyed c
            | p :: rest =>
                let c := set_context (set_port rest (context c)) c in
                match overlapped p with
                | Some o => shutdown_loop fuel (destroyed ++ [o]) (destroy_ops [o] c)
                | None => shutdown_loop fuel destroyed c
                end
            end
        end
      else Ok (destroyed, c)
  end.

(** [shutdown]; the waitable timer is set to let the timer thread end. *)
Definition shutdown (fuel : nat) (c : timer_context) : outcome (list operation * timer_context) :=
  shutdown_loop fuel [] (SetWaitableTimer (now c) (set_shutdown 1 c)).

(** *** The service of the timers *)

(** [implementation_type]; its [timer_data] is the timer of the same name. *)
Record implementation_type : Type := mkImplementation {
  expiry : Z;
  might_have_pending_waits : bool }.

(** [time_type()] *)
Definition no_expiry : implementation_type := mkImplementation 0 false.

Record service : Type := mkService {
  scheduler_ : timer_context;
  impls : gmap timer implementation_type }.

Definition impl_at (t : timer) (s : service) : implementation_type := default no_expiry (impls s !! t).
Definition set_scheduler (c : timer_context) (s : service) : service := mkService c (impls s).
Definition drop_impl (t : timer) (s : service) : service := mkService (scheduler_ s) (delete t (impls s)).
Definition set_impl (t : timer) (i : implementation_type) (s : service) : service :=
  mkService (scheduler_ s) (<[ t := i ]> (impls s)).

Definition construct (t : timer) (s : service) : service := set_impl t no_expiry s.

Definition with_pending (b : bool) (i : implementation_type) : implementation_type := mkImplementation (expiry i) b.

Definition cancel (oks : list bool) (t : timer) (s : service) : outcome (nat * service) :=
  if negb (might_have_pending_waits (impl_at t s)) then Ok (0%nat, s)
  else
    let q := timer_queue_ (scheduler_ s) in
    let* (count, c) := cancel_timer oks t (length (op_queue_ (timer_at t q))) (scheduler_ s) in
    Ok (count, set_impl t (with_pending false (impl_at t s)) (set_scheduler c s)).

Definition cancel_one (oks : list bool) (t : timer) (s : service) : outcome (nat * service) :=
  if negb (might_have_pending_waits (impl_at t s)) then Ok (0%nat, s)
  else
    let* (count, c) := cancel_timer oks t 1 (scheduler_ s) in
    let s := set_scheduler c s in
    Ok (count, if (count =? 0)%nat then set_impl t (with_pending false (impl_at t s)) s else s).

Definition destroy (oks : list bool) (t : timer) (s : service) : outcome service :=
  let* (_, s) := cancel oks t s in Ok (drop_impl t s).

Definition expires_at (oks : list bool) (t : timer) (time : Z) (s : service) : outcome (nat * service) :=
  let* (count, s) := cancel oks t s in
  Ok (count, set_impl t (mkImplementation time (might_have_pending_waits (impl_at t s))) s).

Definition expires_after (oks : list bool) (t : timer) (d : Z) (s : service) : outcome (nat * service) :=
  let* time := time_add (now (scheduler_ s)) d in
  expires_at oks t time s.

Definition async_wait (ok : bool) (t : timer) (op : wait_op) (s : service) : outcome service :=
  let s := set_impl t (with_pending true (impl_at t s)) s in
  let* c := schedule_timer ok (expiry (impl_at t s)) t op (scheduler_ s) in
  Ok (set_scheduler c s).

(** [move_assign] within the service, and [move_construct]. *)
Definition move_assign (oks : list bool) (t other : timer) (s : service) : outcome service :=
  let* c := move_timer oks t other (scheduler_ s) in
  let s := set_scheduler c s in
  let i := impl_at other s in
  Ok (set_impl other no_expiry (set_impl t i s)).

(** [op_cancellation::operator()] for the types of cancellation it supports. *)
Definition cancel_op (oks : list bool) (t : timer) (key : nat) (s : service) : outcome service :=
  let* c := cancel_timer_by_key oks t key (scheduler_ s) in
  Ok (set_scheduler c s).

(** ** The service, the timer thread and the threads of the loop together

    [dispatchers] counts the threads that have reset [dispatch_required_] and wait
    for [dispatch_mutex_].  [started_waits] are the waits started and [completed_waits]
    those whose handler was called, with its error. *)
Record timer_system : Type := mkTimerSystem {
  timers : service;
  dispatchers : nat;
  started_waits : list (wait_op * Z);
  completed_waits : list (operation * error_code) }.

Definition new_timer_system (time : Z) : timer_system :=
  mkTimerSystem (mkService (add_timer_queue new_iocp time) ∅) 0 [] [].

Definition put_service (s : service) (σ : timer_system) : timer_system :=
  mkTimerSystem s (dispatchers σ) (started_waits σ) (completed_waits σ).
Definition put_timers (c : timer_context) (σ : timer_system) : timer_system :=
  put_service (set_scheduler c (timers σ)) σ.
Definition put_dispatchers (n : nat) (σ : timer_system) : timer_system :=
  mkTimerSystem (timers σ) n (started_waits σ) (completed_waits σ).

Definition scheduler_of (σ : timer_system) : timer_context := scheduler_ (timers σ).

(** The error a handler is called with: [ec_] of its operation. *)
Definition wait_result (o : operation) (c : timer_context) : error_code := default no_error (ec_ c !! o).

(** A thread takes [p] from the port and, when it is an operation, completes it. *)
Definition take_packet (p : packet) (rest : list packet) (σ : timer_system) : timer_system :=
  let c := scheduler_of σ in
  match dequeued p (set_port rest (context c)) with
  | (x, GotOp o _ _) =>
      let (x, complete) := try_complete o x in
      if complete then
        mkTimerSystem (set_scheduler (set_context (fst (work_finished x)) c) (timers σ)) (dispatchers σ)
          (started_waits σ) (completed_waits σ ++ [(o, wait_result o c)])
      else put_timers (set_context x c) σ
  | (x, _) => put_timers (set_context x c) σ
  end.

Inductive timer_step (σ : timer_system) : timer_system -> Prop :=
  (* the callers *)
  | call_construct t : impls (timers σ) !! t = None -> timer_step σ (put_service (construct t (timers σ)) σ)
  | call_async_wait t op s :
      wo_op op ∉ (fun w => wo_op w.1) <$> started_waits σ ->
      async_wait true t op (timers σ) = Ok s ->
      timer_step σ (mkTimerSystem s (dispatchers σ)
        (started_waits σ ++ [(op, expiry (impl_at t (timers σ)))]) (completed_waits σ))
  | call_cancel oks t n s : cancel oks t (timers σ) = Ok (n, s) -> timer_step σ (put_service s σ)
  | call_cancel_one oks t n s : cancel_one oks t (timers σ) = Ok (n, s) -> timer_step σ (put_service s σ)
  | call_cancel_op oks t key s : cancel_op oks t key (timers σ) = Ok s -> timer_step σ (put_service s σ)
  | call_expires_at oks t time n s :
      time_min <= time <= time_max -> expires_at oks t time (timers σ) = Ok (n, s) -> timer_step σ (put_service s σ)
  | call_destroy oks t s : destroy oks t (timers σ) = Ok s -> timer_step σ (put_service s σ)
  | call_move_assign oks t other s :
      t <> other -> move_assign oks t other (timers σ) = Ok s -> timer_step σ (put_service s σ)
  (* time, and the waitable timer *)
  | time_passes d :
      0 <= d -> now (scheduler_of σ) + d <= time_max ->
      timer_step σ (put_timers (set_now (now (scheduler_of σ) + d) (scheduler_of σ)) σ)
  | time_signal :
      waitable (scheduler_of σ) <= now (scheduler_of σ) ->
      timer_step σ (put_timers (timer_signal (scheduler_of σ)) σ)
  (* the timer thread *)
  | thread_loop :
      timer_thread_ (scheduler_of σ) = TimerLoop ->
      timer_step σ (put_timers (set_thread (if shutdown_ (scheduler_of σ) =? 0 then TimerWait else TimerEnd) (scheduler_of σ)) σ)
  | thread_woken :
      timer_thread_ (scheduler_of σ) = TimerWait -> signaled (scheduler_of σ) = true ->
      timer_step σ (put_timers (set_thread TimerSet (timer_reset (scheduler_of σ))) σ)
  | thread_set :
      timer_thread_ (scheduler_of σ) = TimerSet ->
      timer_step σ (put_timers (set_thread TimerPost
        (set_context (set_dispatch 1 (context (scheduler_of σ))) (scheduler_of σ))) σ)
  | thread_post ok :
      timer_thread_ (scheduler_of σ) = TimerPost ->
      timer_step σ (put_timers (set_thread TimerLoop
        (set_context ((if ok : bool then pqcs wake_for_dispatch None else id) (context (scheduler_of σ))) (scheduler_of σ))) σ)
  (* the threads of the loop *)
  | loop_acquire :
      dispatch_required_ (context (scheduler_of σ)) = 1 ->
      timer_step σ (put_dispatchers (S (dispatchers σ))
        (put_timers (set_context (set_dispatch 0 (context (scheduler_of σ))) (scheduler_of σ)) σ))
  | loop_dispatch oks n d c c' :
      dispatchers σ = S n -> dispatch_timers oks (scheduler_of σ) = Ok c ->
      0 <= d -> now c + d <= time_max -> update_timeout (set_now (now c + d) c) = Ok c' ->
      timer_step σ (put_dispatchers n (put_timers c' σ))
  | loop_dequeue p rest :
      port (context (scheduler_of σ)) = p :: rest -> timer_step σ (take_packet p rest σ).

Definition timers_reachable (time : Z) : timer_system -> Prop :=
  reachable (fun σ => σ = new_timer_system time) timer_step.
