(* ===== verification/IocpTimersTheorems.v ===== *)
(** * IocpTimersTheorems: what the timers of an io_context guarantee

    The arithmetic of the clock saturates and never overflows.  Every wait that
    was started is, at every moment, in exactly one place (its timer, the fallback
    queue, the port, or the list of handlers called), the count of work is exact,
    no wait completes before its time, and no timer is forgotten: the waitable timer is due in
    time, or the loop is already about to dispatch. *)

From stdpp Require Import base list gmap.
From Stdlib Require Import ZArith Lia Sorted.
From S2P Require Import Prelude NetError TimerQueue TimerQueueTheorems IocpContext IocpTimers.
Local Open Scope exchange_scope.
Local Open Scope list_scope.
Local Open Scope Z_scope.

(** ** Definitions *)

Definition is_time (t : Z) : Prop := time_min <= t <= time_max.

Definition clamp (z : Z) : Z := Z.max time_min (Z.min time_max z).

(** The operations that wait on some timer. *)
Definition pending_ops (a : alarms) : list wait_op := map_to_list a ≫= fun p => p.2.2.

(** The operations that were handed to the loop. *)
Definition in_port (x : iocp) : list operation := omap overlapped (port x).
Definition posted (x : iocp) : list operation := completed_ops_ x ++ in_port x.

(** [o] may complete with [ec]: not without an error before its time. *)
Definition settled (st : list (wait_op * Z)) (time : Z) (o : operation) (ec : error_code) : Prop :=
  ec = operation_aborted \/
  ec = no_error /\ exists op d, (op, d) ∈ st /\ wo_op op = o /\ d <= time.

Record waits_ok (s : service) (l : list timer) (a : alarms) (st : list (wait_op * Z))
    (done : list (operation * error_code)) : Prop := mkWaitsOk {
  wk_queue : abstracts (timer_queue_ (scheduler_ s)) l a;
  wk_pending t : is_Some (a !! t) -> might_have_pending_waits (impl_at t s) = true;
  wk_expiry t time ops : a !! t = Some (time, ops) -> time = Some (expiry (impl_at t s));
  wk_deadline t time ops op : a !! t = Some (time, ops) -> op ∈ ops -> (op, expiry (impl_at t s)) ∈ st;
  wk_time t : is_time (expiry (impl_at t s));
  wk_now : is_time (now (scheduler_ s));
  wk_open : shutdown_ (scheduler_ s) = 0;
  wk_unique : NoDup ((fun w => wo_op w.1) <$> st);
  wk_places : (fun w => wo_op w.1) <$> st ≡ₚ
    (wo_op <$> pending_ops a) ++ posted (context (scheduler_ s)) ++ (fst <$> done);
  wk_ready o : o ∈ in_port (context (scheduler_ s)) -> ready_ (op_at o (context (scheduler_ s))) = 1;
  wk_work : outstanding_work_ (context (scheduler_ s)) =
    Z.of_nat (length (pending_ops a) + length (posted (context (scheduler_ s))));
  wk_posted o : o ∈ posted (context (scheduler_ s)) ->
    exists ec, ec_ (scheduler_ s) !! o = Some ec /\ settled st (now (scheduler_ s)) o ec;
  wk_done o ec : (o, ec) ∈ done -> settled st (now (scheduler_ s)) o ec }.

(** The waitable timer is due in time for the timers of [a]. *)
Definition due_in_time (a : alarms) (w time : Z) : Prop :=
  forall t x ops, a !! t = Some (Some x, ops) -> w <= Z.max (x + usec) time.

Record armed (c : timer_context) (n : nat) (a : alarms) : Prop := mkArmed {
  ar_flag : dispatch_required_ (context c) = 0 \/ dispatch_required_ (context c) = 1;
  ar_thread : timer_thread_ c <> TimerEnd;
  ar_bound : waitable c <= now c + max_timeout_usec * usec;
  ar_due : dispatch_required_ (context c) = 1 \/ (0 < n)%nat \/ signaled c = true \/ timer_thread_ c = TimerSet \/
    due_in_time a (waitable c) (now c) }.

Definition timers_inv (σ : timer_system) : Prop :=
  exists l a, waits_ok (timers σ) l a (started_waits σ) (completed_waits σ) /\ armed (scheduler_of σ) (dispatchers σ) a.

(** ** The clock *)

Lemma i64_ok z : is_time z -> i64 z = Ok z.
Proof. intros [H1 H2]. unfold i64. by rewrite (proj2 (Z.leb_le _ _) H1), (proj2 (Z.leb_le _ _) H2). Qed.

Ltac time_bounds := unfold is_time, clamp, time_min, time_max in *; lia.

Lemma time_add_clamp t d : is_time t -> is_time d -> time_add t d = Ok (clamp (t + d)).
Proof.
  intros Ht Hd. unfold time_add. case_Z; rewrite !i64_ok by time_bounds; cbn [obind];
    rewrite ?i64_ok by time_bounds; cbn [obind]; case_Z; rewrite ?i64_ok by time_bounds; f_equal; time_bounds.
Qed.

Lemma time_subtract_clamp t1 t2 : is_time t1 -> is_time t2 -> time_subtract t1 t2 = Ok (clamp (t1 - t2)).
Proof.
  intros H1 H2. unfold time_subtract. case_Z; try (rewrite i64_ok by time_bounds; f_equal; time_bounds);
    try (f_equal; time_bounds); rewrite !i64_ok by time_bounds; cbn [obind]; rewrite ?i64_ok by time_bounds; cbn [obind];
    case_Z; rewrite ?i64_ok by time_bounds; cbn [obind]; rewrite ?i64_ok by time_bounds; f_equal; time_bounds.
Qed.

(** ** The pending operations *)

Lemma pending_insert t v (a : alarms) : a !! t = None -> pending_ops (<[ t := v ]> a) ≡ₚ v.2 ++ pending_ops a.
Proof. intros Hn. unfold pending_ops. by rewrite map_to_list_insert, bind_cons by done. Qed.

Lemma pending_lookup t v (a : alarms) : a !! t = Some v -> pending_ops a ≡ₚ v.2 ++ pending_ops (delete t a).
Proof. intros Hv. unfold pending_ops. by rewrite <- (map_to_list_delete a t v), bind_cons by done. Qed.

Lemma pending_replace t v v' (a : alarms) : a !! t = Some v ->
  pending_ops (<[ t := v' ]> a) ≡ₚ v'.2 ++ pending_ops (delete t a).
Proof. intros Hv. rewrite <- insert_delete_eq. apply pending_insert, lookup_delete_eq. Qed.

Lemma pending_enqueue time t op a : pending_ops (alarm_enqueue time t op a) ≡ₚ op :: pending_ops a.
Proof.
  unfold alarm_enqueue. destruct (a !! t) as [[time' ops]|] eqn:Ha.
  - rewrite (pending_replace _ _ _ _ Ha), (pending_lookup _ _ _ Ha). simpl.
    rewrite <- app_assoc. symmetry. apply Permutation_middle.
  - by rewrite pending_insert.
Qed.

Lemma pending_keep f gone t a : (forall ops, a !! t = Some ops -> ops.2 ≡ₚ gone ++ f ops.2) ->
  (a !! t = None -> gone = []) -> pending_ops a ≡ₚ gone ++ pending_ops (alarm_keep f t a).
Proof.
  intros Hf Hn. unfold alarm_keep. destruct (a !! t) as [[time ops]|] eqn:Ha; [|by rewrite Hn].
  specialize (Hf _ eq_refl). simpl in Hf. rewrite (pending_lookup _ _ _ Ha). simpl.
  trans ((gone ++ f ops) ++ pending_ops (delete t a)); [by apply Permutation_app_tail|].
  destruct (f ops) as [|x rest] eqn:Hfo; [by rewrite app_nil_r|].
  rewrite (pending_replace _ _ _ _ Ha). simpl. by rewrite <- app_assoc.
Qed.

Lemma pending_move t s a : t <> s -> a !! t = None -> pending_ops (alarm_move t s a) ≡ₚ pending_ops a.
Proof.
  intros Hts Hat. unfold alarm_move. destruct (a !! s) as [v|] eqn:Hs; [|done].
  rewrite pending_insert by (by rewrite lookup_delete_ne). by rewrite <- pending_lookup.
Qed.

(** The expired timers leave with all their operations. *)
Lemma pending_ready now a ops a' : alarms_ready now a ops a' ->
  pending_ops a ≡ₚ (fst <$> ops) ++ pending_ops a'.
Proof.
  intros (es & Hnd & _ & Hes & -> & ->).
  set (entry e := (timer_ e, (Some (time_ e), alarm_ops a (timer_ e)))).
  assert (map_to_list a ≡ₚ (entry <$> es) ++ map_to_list (filter (fun v => ~ expired now v.2) a)) as Hl.
  { apply NoDup_Permutation; [apply NoDup_map_to_list|apply NoDup_app; split_and!|].
    - apply NoDup_fmap_2; [|done]. intros [] [] [=]. congruence.
    - intros [t v] (e & Heq & He)%list_elem_of_fmap Hin%elem_of_map_to_list. injection Heq as -> ->.
      apply map_lookup_filter_Some in Hin as [_ Hex]. apply Hes in He as (_ & _ & He). by apply Hex.
    - apply NoDup_map_to_list.
    - intros [t v]. rewrite elem_of_app, !elem_of_map_to_list, map_lookup_filter_Some. split.
      + intros Ha. destruct (decide (expired now v)) as [Hex|Hex]; [left|by right].
        destruct v as [[x|] lo]; [|done]. apply list_elem_of_fmap. exists (mkHeapEntry x t). split.
        * unfold entry, alarm_ops. simpl. by rewrite Ha.
        * apply Hes. by exists lo.
      + intros [(e & Heq & He)%list_elem_of_fmap|[Ha _]]; [|done]. injection Heq as -> ->.
        apply Hes in He as (lo & Hlo & _). unfold alarm_ops. by rewrite Hlo. }
  unfold pending_ops at 1. rewrite Hl, bind_app. apply Permutation_app_tail.
  assert (forall l, (entry <$> l) ≫= (fun p => p.2.2) =
    fst <$> (l ≫= fun e => (fun op => (op, no_error)) <$> alarm_ops a (timer_ e))) as Hb; [|by rewrite Hb].
  intros l. induction l as [|e l IH]; [done|]. rewrite fmap_cons, !bind_cons, fmap_app, IH. f_equal. simpl.
  rewrite <- list_fmap_compose. symmetry. apply list_fmap_id.
Qed.

(** ** Posting *)

(** What posting leaves alone; a flag once set stays set. *)
Record same_loop (x x' : iocp) : Prop := mkSameLoop {
  sl_work : outstanding_work_ x' = outstanding_work_ x;
  sl_flag : dispatch_required_ x' = dispatch_required_ x \/ dispatch_required_ x' = 1 }.

Lemma op_at_set_ready o x u : ready_ (op_at u (set_ready o x)) = if decide (u = o) then 1 else ready_ (op_at u x).
Proof.
  unfold set_ready, set_op, op_at at 1. cbn [ops]. case_decide; [subst; by rewrite lookup_insert_eq|].
  by rewrite lookup_insert_ne.
Qed.

Lemma post_deferred_posted os : forall oks x, let x' := post_deferred_completions oks os x in
  same_loop x x' /\ posted x' ≡ₚ os ++ posted x /\
  (forall u, ready_ (op_at u x) = 1 -> ready_ (op_at u x') = 1) /\
  (forall u, u ∈ in_port x' -> u ∈ in_port x \/ ready_ (op_at u x') = 1).
Proof.
  induction os as [|o os IH]; intros oks x; cbn [post_deferred_completions].
  { split_and!; [split; [done|by left]|done|done|by left]. }
  assert (forall oks', let x' := post_deferred_completions oks' os (pqcs 0 (Some o) (set_ready o x)) in
    same_loop x x' /\ posted x' ≡ₚ (o :: os) ++ posted x /\
    (forall u, ready_ (op_at u x) = 1 -> ready_ (op_at u x') = 1) /\
    (forall u, u ∈ in_port x' -> u ∈ in_port x \/ ready_ (op_at u x') = 1)) as Hok.
  { intros oks'. cbv zeta. set (x1 := pqcs 0 (Some o) (set_ready o x)).
    destruct (IH oks' x1) as ([Hw Hfl] & Hp & Hr & Hin).
    assert (in_port x1 = in_port x ++ [o]) as Hx1 by (unfold in_port, x1, pqcs; cbn [port set_port]; by rewrite omap_app).
    assert (ready_ (op_at o x1) = 1) as Ho.
    { change (op_at o x1) with (op_at o (set_ready o x)). by rewrite op_at_set_ready, decide_True. }
    split_and!; [split; [by rewrite Hw|done]| | |].
    - rewrite Hp. unfold posted. rewrite Hx1. change (completed_ops_ x1) with (completed_ops_ x).
      rewrite (app_assoc (completed_ops_ x)), (Permutation_app_comm _ [o]). symmetry. apply Permutation_middle.
    - intros u Hu. apply Hr. change (op_at u x1) with (op_at u (set_ready o x)). rewrite op_at_set_ready. by case_decide.
    - intros u [Hu|Hu]%Hin; [|by right]. rewrite Hx1, elem_of_app, list_elem_of_singleton in Hu.
      destruct Hu as [Hu| ->]; [by left|]. right. by apply Hr. }
  destruct oks as [|[] oks]; [apply (Hok [])|apply (Hok oks)|]. cbv zeta. split_and!.
  - split; [done|by right].
  - unfold posted, in_port. cbn [completed_ops_ port set_dispatch set_completed set_ready set_op].
    rewrite (Permutation_app_comm (completed_ops_ x)), <- app_assoc. done.
  - intros u Hu. change (ready_ (op_at u (set_ready o x)) = 1). rewrite op_at_set_ready. by case_decide.
  - intros u Hu. by left.
Qed.

(** ** Storing the results *)

Lemma store_lookup_ne ops c o : o ∉ op_ids ops -> ec_ (store_ecs ops c) !! o = ec_ c !! o.
Proof.
  unfold store_ecs, op_ids. cbn [ec_ set_ecs]. generalize (ec_ c) as m. induction ops as [|r ops IH]; intros m Hn; [done|].
  cbn [fold_left]. apply not_elem_of_cons in Hn as [Hne Hn]. rewrite IH by done. by rewrite lookup_insert_ne.
Qed.

Lemma store_lookup r ops : forall c, NoDup (op_ids ops) -> r ∈ ops -> ec_ (store_ecs ops c) !! wo_op r.1 = Some r.2.
Proof.
  induction ops as [|r' ops IH]; intros c Hnd Hr; [by apply not_elem_of_nil in Hr|].
  apply NoDup_cons in Hnd as [Hnr Hnd]. change (store_ecs (r' :: ops) c) with (set_ecs (ec_ (store_ecs ops (store_ecs [r'] c))) c).
  apply elem_of_cons in Hr as [->|Hr]; [|by apply (IH (store_ecs [r'] c))].
  cbn [ec_ set_ecs]. rewrite store_lookup_ne by done. apply lookup_insert_eq.
Qed.

(** ** Operations leave their timers *)

(** [a'] has no timer that [a] does not have, and no operation more. *)
Definition shrinks (a a' : alarms) : Prop :=
  forall t time ops', a' !! t = Some (time, ops') ->
    exists ops, a !! t = Some (time, ops) /\ forall op, op ∈ ops' -> op ∈ ops.

Lemma shrinks_refl a : shrinks a a.
Proof. intros t time ops H. by exists ops. Qed.

Lemma shrinks_keep f t a : (forall ops op, op ∈ f ops -> op ∈ ops) -> shrinks a (alarm_keep f t a).
Proof.
  intros Hf u time ops'. unfold alarm_keep. destruct (a !! t) as [[time' ops]|] eqn:Ha; [|intros H; by exists ops'].
  destruct (f ops) as [|x rest] eqn:Hfo.
  - intros [_ H]%lookup_delete_Some. by exists ops'.
  - intros [[<- Heq]|[_ H]]%lookup_insert_Some; [|by exists ops']. injection Heq as <- <-. exists ops. split; [done|].
    intros op Hop. apply Hf. by rewrite Hfo.
Qed.

Lemma shrinks_ready now a ops a' : alarms_ready now a ops a' -> shrinks a a'.
Proof.
  intros (_ & _ & _ & _ & _ & ->) t time ops' [H _]%map_lookup_filter_Some. by exists ops'.
Qed.

Lemma due_shrinks a a' w time : shrinks a a' -> due_in_time a w time -> due_in_time a' w time.
Proof. intros Hs Hd t x ops Ha. destruct (Hs _ _ _ Ha) as (ops' & Ha' & _). by eapply Hd. Qed.

(** The operations of [ops] are posted, with what [pre] took from the fallback queue. *)
Definition after_posting (oks : list bool) (pre : list operation) (ops : list ready_op) (x0 : iocp) (q' : timer_queue)
    (s : service) : service :=
  let c := store_ecs ops (set_queue q' (scheduler_ s)) in
  set_scheduler (set_context (post_deferred_completions oks (pre ++ op_ids ops) x0) c) s.

Lemma settled_mono st st' time time' o ec : (forall w, w ∈ st -> w ∈ st') -> time <= time' ->
  settled st time o ec -> settled st' time' o ec.
Proof.
  intros Hst Ht [?|(-> & op & d & Hin & Ho & Hd)]; [by left|]. right. split; [done|].
  exists op, d. split_and!; [by apply Hst|done|lia].
Qed.

Lemma places_nodup s l a st done : waits_ok s l a st done ->
  NoDup ((wo_op <$> pending_ops a) ++ posted (context (scheduler_ s)) ++ (fst <$> done)).
Proof. intros H. rewrite <- (wk_places _ _ _ _ _ H). apply (wk_unique _ _ _ _ _ H). Qed.

Lemma post_waits oks pre ops x0 q' l' a' s l a st done :
  waits_ok s l a st done -> abstracts q' l' a' -> shrinks a a' ->
  pending_ops a ≡ₚ (fst <$> ops) ++ pending_ops a' ->
  (forall r, r ∈ ops -> settled st (now (scheduler_ s)) (wo_op r.1) r.2) ->
  pre ++ posted x0 ≡ₚ posted (context (scheduler_ s)) ->
  (forall o, o ∈ in_port x0 -> o ∈ in_port (context (scheduler_ s))) ->
  (forall o, op_at o x0 = op_at o (context (scheduler_ s))) ->
  outstanding_work_ x0 = outstanding_work_ (context (scheduler_ s)) ->
  waits_ok (after_posting oks pre ops x0 q' s) l' a' st done.
Proof.
  intros Hw Hab Hsh Hpend Hset Hpre Hport Hops Hwork. pose proof (places_nodup _ _ _ _ _ Hw) as Hnd.
  unfold after_posting. set (c := store_ecs ops (set_queue q' (scheduler_ s))).
  destruct (post_deferred_posted (pre ++ op_ids ops) oks x0) as ([Hw' _] & Hp & Hr & Hin).
  set (x' := post_deferred_completions oks (pre ++ op_ids ops) x0) in *. clearbody x'.
  assert (posted x' ≡ₚ op_ids ops ++ posted (context (scheduler_ s))) as Hposted.
  { rewrite Hp, <- Hpre, (Permutation_app_comm pre), <- app_assoc. done. }
  assert (wo_op <$> pending_ops a ≡ₚ op_ids ops ++ (wo_op <$> pending_ops a')) as Hids.
  { rewrite Hpend, fmap_app, <- list_fmap_compose. done. }
  rewrite Hids, <- !app_assoc in Hnd. apply NoDup_app in Hnd as (Hndo & Hdis & _).
  destruct Hw. constructor; try done.
  - intros t [[time ops'] Ht]. destruct (Hsh _ _ _ Ht) as (ops0 & H0 & _). by apply wk_pending0.
  - intros t time ops' Ht. destruct (Hsh _ _ _ Ht) as (ops0 & H0 & _). by eapply wk_expiry0.
  - intros t time ops' op Ht Hop. destruct (Hsh _ _ _ Ht) as (ops0 & H0 & Hsub). eapply wk_deadline0; [exact H0|by apply Hsub].
  - cbn [scheduler_ set_scheduler context set_context]. rewrite wk_places0, Hids, Hposted, !app_assoc.
    do 2 apply Permutation_app_tail. apply Permutation_app_comm.
  - cbn [scheduler_ set_scheduler context set_context]. intros o [Ho|Ho]%Hin; [|done]. apply Hr. rewrite Hops. by apply wk_ready0, Hport.
  - cbn [scheduler_ set_scheduler context set_context]. rewrite Hw', Hwork, wk_work0, Hposted, length_app.
    unfold op_ids. rewrite Hpend, length_app, !length_fmap. lia.
  - cbn [scheduler_ set_scheduler context set_context]. intros o Ho. rewrite Hposted in Ho.
    change (now (set_context x' c)) with (now (scheduler_ s)). change (ec_ (set_context x' c)) with (ec_ c).
    apply elem_of_app in Ho as [(r & -> & Hr')%list_elem_of_fmap|Ho].
    + exists r.2. split; [by apply store_lookup|by apply Hset].
    + destruct (wk_posted0 o Ho) as (ec & He & Hs). exists ec. split; [|done]. unfold c. rewrite store_lookup_ne; [done|].
      intros Hino. apply (Hdis o Hino). rewrite !elem_of_app. right. by left.
Qed.

(** ** Cancelling *)

(** What cancelling leaves of the waitable timer and of the timer thread. *)
Record quiet (c c' : timer_context) : Prop := mkQuiet {
  qt_waitable : waitable c' = waitable c;
  qt_signaled : signaled c' = signaled c;
  qt_thread : timer_thread_ c' = timer_thread_ c;
  qt_now : now c' = now c;
  qt_flag : dispatch_required_ (context c') = dispatch_required_ (context c) \/ dispatch_required_ (context c') = 1 }.

Lemma quiet_refl c : quiet c c.
Proof. constructor; try done. by left. Qed.

Lemma quiet_posting oks ops q' c : quiet c (post_cancelled oks ops (set_queue q' c)).
Proof.
  constructor; try done. unfold post_cancelled. cbn [context set_context].
  destruct (post_deferred_posted (op_ids ops) oks (context (store_ecs ops (set_queue q' c)))) as ([_ Hf] & _). exact Hf.
Qed.

Lemma armed_quiet c c' n a a' : armed c n a -> quiet c c' -> shrinks a a' -> armed c' n a'.
Proof.
  intros [H1 H2 H3 H4] [Q1 Q2 Q3 Q4 Q5] Hs. constructor.
  - destruct Q5 as [->|]; [done|by right].
  - by rewrite Q3.
  - by rewrite Q1, Q4.
  - rewrite Q1, Q2, Q3, Q4. destruct H4 as [H4|[H4|[H4|[H4|H4]]]].
    + left. destruct Q5 as [->|]; done.
    + by right; left.
    + by right; right; left.
    + by right; right; right; left.
    + right; right; right; right. by eapply due_shrinks.
Qed.

(** The operations [gone] of [t] are aborted and posted. *)
Lemma abort_waits oks t f gone q' l' s l a st done : waits_ok s l a st done ->
  abstracts q' l' (alarm_keep f t a) -> (forall ops, ops ≡ₚ gone ops ++ f ops) ->
  let ops := (fun op => (op, operation_aborted)) <$> gone (alarm_ops a t) in
  waits_ok (set_scheduler (post_cancelled oks ops (set_queue q' (scheduler_ s))) s) l' (alarm_keep f t a) st done.
Proof.
  intros Hw Hab Hg. cbv zeta. apply (post_waits oks [] _ (context (scheduler_ s)) q' l' _ s l a st done Hw Hab); try done.
  - apply shrinks_keep. intros ops op Hop. rewrite (Hg ops). apply elem_of_app. by right.
  - rewrite <- list_fmap_compose. rewrite list_fmap_id. apply pending_keep.
    + intros v Hv. unfold alarm_ops. rewrite Hv. destruct v. apply Hg.
    + intros Hn. unfold alarm_ops. rewrite Hn. pose proof (Permutation_length (Hg [])) as Hl.
      rewrite length_app in Hl. destruct (gone []); [done|]. simpl in Hl. lia.
  - intros r (op & -> & _)%list_elem_of_fmap. by left.
Qed.

Lemma cancel_timer_waits oks t n s l a st done : waits_ok s l a st done ->
  exists c l', cancel_timer oks t n (scheduler_ s) = Ok (length (take n (alarm_ops a t)), c) /\
    waits_ok (set_scheduler c s) l' (alarm_keep (drop n) t a) st done /\ quiet (scheduler_ s) c.
Proof.
  intros Hw. unfold cancel_timer. rewrite (wk_open _ _ _ _ _ Hw). cbn [negb Z.eqb].
  destruct (cancel_timer_abstracts t n _ l a (wk_queue _ _ _ _ _ Hw)) as (q' & l' & -> & Hab). cbn [obind fst snd].
  eexists _, l'. split; [done|]. split; [|apply quiet_posting].
  apply (abort_waits oks t (drop n) (take n) q' l' s l a st done Hw Hab). intros ops. by rewrite take_drop.
Qed.

Lemma cancel_by_key_waits oks t key s l a st done : waits_ok s l a st done ->
  exists c l' a', cancel_timer_by_key oks t key (scheduler_ s) = Ok c /\
    waits_ok (set_scheduler c s) l' a' st done /\ quiet (scheduler_ s) c /\ shrinks a a'.
Proof.
  intros Hw. unfold cancel_timer_by_key. rewrite (wk_open _ _ _ _ _ Hw). cbn [negb Z.eqb].
  destruct (cancel_by_key_abstracts t key _ l a (wk_queue _ _ _ _ _ Hw)) as (q' & l' & -> & Hab). cbn [obind].
  eexists _, l', _. split; [done|]. split; [|split; [apply quiet_posting|]].
  - apply (abort_waits oks t _ (filter (fun op => cancellation_key_ op = key)) q' l' s l a st done Hw Hab).
    intros ops. symmetry. apply filter_app_complement.
  - apply shrinks_keep. by intros ops op [_ ?]%list_elem_of_filter.
Qed.

(** *** The service *)

Lemma impl_at_set t i s u : impl_at u (set_impl t i s) = if decide (u = t) then i else impl_at u s.
Proof.
  unfold impl_at, set_impl. cbn [impls]. case_decide; [subst; by rewrite lookup_insert_eq|by rewrite lookup_insert_ne].
Qed.

Lemma impl_at_drop t s u : impl_at u (drop_impl t s) = if decide (u = t) then no_expiry else impl_at u s.
Proof.
  unfold impl_at, drop_impl. cbn [impls]. case_decide; [subst; by rewrite lookup_delete_eq|by rewrite lookup_delete_ne].
Qed.

(** Changing the implementation of a timer. *)
Lemma waits_impl s s' t l a st done : waits_ok s l a st done -> scheduler_ s' = scheduler_ s ->
  (forall u, u <> t -> impl_at u s' = impl_at u s) -> is_time (expiry (impl_at t s')) ->
  (is_Some (a !! t) -> might_have_pending_waits (impl_at t s') = true /\ expiry (impl_at t s') = expiry (impl_at t s)) ->
  waits_ok s' l a st done.
Proof.
  intros [] Hs Hu Ht Ha. constructor; rewrite ?Hs; try done; intros u.
  - destruct (decide (u = t)) as [->|Hne]; [apply Ha|rewrite Hu by done; apply wk_pending0].
  - intros time ops H. destruct (decide (u = t)) as [->|Hne]; [|rewrite Hu by done; by eapply wk_expiry0].
    destruct Ha as [_ ->]; [done|]. by eapply wk_expiry0.
  - intros time ops op H. destruct (decide (u = t)) as [->|Hne]; [|rewrite Hu by done; by eapply wk_deadline0].
    destruct Ha as [_ ->]; [done|]. by eapply wk_deadline0.
  - destruct (decide (u = t)) as [->|Hne]; [done|by rewrite Hu].
Qed.

Lemma keep_none t (a : alarms) : alarm_keep (fun _ => []) t a = delete t a.
Proof. unfold alarm_keep. destruct (a !! t) as [[]|] eqn:Ha; [done|]. by rewrite delete_id. Qed.

Lemma keep_all n t (a : alarms) : (length (alarm_ops a t) <= n)%nat -> alarm_keep (drop n) t a = delete t a.
Proof.
  intros Hn. rewrite <- keep_none. unfold alarm_keep, alarm_ops in *. destruct (a !! t) as [[time ops]|]; [|done].
  by rewrite drop_ge.
Qed.

Lemma waits_ops s l a st done t : waits_ok s l a st done ->
  op_queue_ (timer_at t (timer_queue_ (scheduler_ s))) = alarm_ops a t.
Proof. intros Hw. apply (entry_ops _ _ _ _ (ab_entries _ _ _ (wk_queue _ _ _ _ _ Hw) t)). Qed.

(** [cancel] aborts every wait of the timer, and counts them. *)
Lemma cancel_waits oks t s l a st done : waits_ok s l a st done ->
  exists s' l', cancel oks t s = Ok (length (alarm_ops a t), s') /\ waits_ok s' l' (delete t a) st done /\
    quiet (scheduler_ s) (scheduler_ s') /\ might_have_pending_waits (impl_at t s') = false /\
    forall u, expiry (impl_at u s') = expiry (impl_at u s).
Proof.
  intros Hw. unfold cancel. destruct (might_have_pending_waits (impl_at t s)) eqn:Hm; cbn [negb].
  - rewrite (waits_ops _ _ _ _ _ t Hw).
    destruct (cancel_timer_waits oks t (length (alarm_ops a t)) s l a st done Hw) as (c & l' & -> & Hw' & Hq).
    cbn [obind]. rewrite take_ge by done. rewrite keep_all in Hw' by done.
    eexists _, l'. split; [done|]. split; [|split; [done|split]].
    + eapply (waits_impl _ _ t); [exact Hw'|done| | |].
      * intros u Hne. by rewrite impl_at_set, decide_False.
      * rewrite impl_at_set, decide_True by done. apply (wk_time _ _ _ _ _ Hw t).
      * intros [v H]. by rewrite lookup_delete_eq in H.
    + by rewrite impl_at_set, decide_True.
    + intros u. rewrite impl_at_set. by case_decide; subst.
  - assert (a !! t = None) as Hn.
    { destruct (a !! t) eqn:Ha; [|done]. rewrite (wk_pending _ _ _ _ _ Hw t) in Hm by done. done. }
    exists s, l. assert (alarm_ops a t = []) as -> by (unfold alarm_ops; by rewrite Hn). split; [done|]. rewrite delete_id by done.
    split_and!; try done. apply quiet_refl.
Qed.

Lemma shrinks_delete t a : shrinks a (delete t a).
Proof. rewrite <- keep_none. apply shrinks_keep. by intros ops op ?%not_elem_of_nil. Qed.

Lemma cancel_one_waits oks t s l a st done : waits_ok s l a st done ->
  exists n s' l' a', cancel_one oks t s = Ok (n, s') /\ waits_ok s' l' a' st done /\
    quiet (scheduler_ s) (scheduler_ s') /\ shrinks a a' /\ n = length (take 1 (alarm_ops a t)).
Proof.
  intros Hw. unfold cancel_one. destruct (might_have_pending_waits (impl_at t s)) eqn:Hm; cbn [negb].
  - destruct (cancel_timer_waits oks t 1 s l a st done Hw) as (c & l' & -> & Hw' & Hq). cbn [obind].
    assert (shrinks a (alarm_keep (drop 1) t a)) as Hs by (apply shrinks_keep; intros ops op Hop; rewrite <- (take_drop 1 ops); apply elem_of_app; by right).
    destruct (Nat.eqb_spec (length (take 1 (alarm_ops a t))) 0) as [H0|H0].
    + eexists _, _, l', _. split; [done|]. split_and!; [|done|exact Hs|done].
      assert (a !! t = None) as Hn.
      { pose proof (ab_entries _ _ _ (wk_queue _ _ _ _ _ Hw) t) as He. unfold alarm_ops in H0.
        destruct (a !! t) as [[time [|x ops]]|]; [by destruct He as (_ & _ & He & _)|by simpl in H0|done]. }
      rewrite keep_absent in Hw' |- * by done. eapply (waits_impl _ _ t); [exact Hw'|done| | |].
      * intros u Hne. by rewrite impl_at_set, decide_False.
      * rewrite impl_at_set, decide_True by done. apply (wk_time _ _ _ _ _ Hw t).
      * rewrite Hn. by intros [].
    + by eexists _, _, l', _.
  - assert (a !! t = None) as Hn.
    { destruct (a !! t) eqn:Ha; [|done]. rewrite (wk_pending _ _ _ _ _ Hw t) in Hm by done. done. }
    eexists _, s, l, a. split; [done|]. unfold alarm_ops. rewrite Hn. split_and!; [done|apply quiet_refl|apply shrinks_refl|done].
Qed.

Lemma expires_at_waits oks t time s l a st done : waits_ok s l a st done -> is_time time ->
  exists s' l', expires_at oks t time s = Ok (length (alarm_ops a t), s') /\ waits_ok s' l' (delete t a) st done /\
    quiet (scheduler_ s) (scheduler_ s').
Proof.
  intros Hw Ht. unfold expires_at. destruct (cancel_waits oks t s l a st done Hw) as (s1 & l1 & -> & Hw1 & Hq & _).
  cbn [obind]. eexists _, l1. split; [done|]. split; [|exact Hq].
  eapply (waits_impl _ _ t); [exact Hw1|done| | |].
  - intros u Hne. by rewrite impl_at_set, decide_False.
  - by rewrite impl_at_set, decide_True.
  - intros [v H]. by rewrite lookup_delete_eq in H.
Qed.

Lemma destroy_waits oks t s l a st done : waits_ok s l a st done ->
  exists s' l', destroy oks t s = Ok s' /\ waits_ok s' l' (delete t a) st done /\ quiet (scheduler_ s) (scheduler_ s').
Proof.
  intros Hw. unfold destroy. destruct (cancel_waits oks t s l a st done Hw) as (s1 & l1 & -> & Hw1 & Hq & _).
  cbn [obind]. eexists _, l1. split; [done|]. split; [|exact Hq].
  eapply (waits_impl _ _ t); [exact Hw1|done| | |].
  - intros u Hne. by rewrite impl_at_drop, decide_False.
  - rewrite impl_at_drop, decide_True by done. unfold no_expiry. simpl. time_bounds.
  - intros [v H]. by rewrite lookup_delete_eq in H.
Qed.

(** *** Waiting *)

Lemma clamp_below z : clamp z <= z \/ clamp z < 0.
Proof. time_bounds. Qed.

(** [update_timeout] changes the waitable timer only, and makes it due in time. *)
Lemma update_timeout_due c l a : abstracts (timer_queue_ c) l a ->
  (forall t x ops, a !! t = Some (Some x, ops) -> is_time x) -> is_time (now c) ->
  waitable c <= now c + max_timeout_usec * usec ->
  exists c', update_timeout c = Ok c' /\ (c' = c \/ exists w, c' = SetWaitableTimer w c) /\
    waitable c' <= now c + max_timeout_usec * usec /\ due_in_time a (waitable c') (now c).
Proof.
  intros Hab Hx Hnow Hb. unfold update_timeout.
  destruct (wait_duration_abstracts time_subtract usec (now c) max_timeout_usec _ l a Hab) as [[-> Hnone]|(x & He & ->)].
  { cbn [obind]. rewrite Z.ltb_irrefl. exists c. split_and!; [done|by left|done|].
    intros t y ops Ha. by destruct (Hnone t y ops). }
  pose proof He as [(t0 & ops0 & H0) Hmin]. pose proof (Hx _ _ _ H0) as Hxt.
  rewrite time_subtract_clamp by done. cbn [obind].
  assert (forall w, w <= Z.max (x + usec) (now c) -> due_in_time a w (now c)) as Hdue.
  { intros w Hw t y ops Ha. pose proof (Hmin _ _ _ Ha). lia. }
  set (n := to_unit usec (clamp (x - now c)) max_timeout_usec).
  destruct (to_unit_bounds usec (clamp (x - now c)) max_timeout_usec) as (Hn & Hz & Hlt); [done|done|]. fold n in Hn, Hz, Hlt.
  assert (usec = 1000 /\ max_timeout_usec = 300000000) as [Hu Hm] by done.
  destruct (Z.ltb_spec n max_timeout_usec) as [Hlo|Hhi].
  - eexists. split; [done|]. split; [right; by eexists|]. cbn [waitable SetWaitableTimer now]. split; [nia|]. apply Hdue.
    destruct (Z.le_gt_cases (clamp (x - now c)) 0) as [Hc|Hc].
    + apply Hz in Hc. rewrite Hc. lia.
    + specialize (Hlt Hc). rewrite Hu in *. pose proof (clamp_below (x - now c)). lia.
  - exists c. split_and!; [done|by left|done|]. apply Hdue.
    destruct (Z.le_gt_cases (clamp (x - now c)) 0) as [Hc|Hc]; [apply Hz in Hc; lia|].
    specialize (Hlt Hc). rewrite Hu in *. pose proof (clamp_below (x - now c)). lia.
Qed.

Lemma enqueue_known s l a st done t op : waits_ok s l a st done ->
  alarm_enqueue (Some (expiry (impl_at t s))) t op a =
    <[ t := (Some (expiry (impl_at t s)), alarm_ops a t ++ [op]) ]> a.
Proof.
  intros Hw. unfold alarm_enqueue, alarm_ops. destruct (a !! t) as [[time ops]|] eqn:Ha; [|done].
  by rewrite (wk_expiry _ _ _ _ _ Hw _ _ _ Ha).
Qed.

(** The loop is not woken only if another timer is due no later. *)
Lemma due_not_woken a a' t e op ops w time : a' = <[ t := (Some e, ops ++ [op]) ]> a ->
  (forall time ops', a !! t = Some (time, ops') -> time = Some e) -> (a !! t = None -> ops = []) ->
  wakes a' t op false -> due_in_time a w time -> due_in_time a' w time.
Proof.
  intros -> Hact Hnew [_ Hwake] Hdue u x ops'. rewrite lookup_insert_Some.
  intros [[<- [= <- <-]]|[_ Hu]]; [|by eapply Hdue].
  destruct (a !! t) as [[time' ops0]|] eqn:Ha.
  - rewrite (Hact time' ops0 eq_refl) in Ha. by eapply Hdue.
  - rewrite Hnew in Hwake by done. destruct (Z.le_gt_cases w (Z.max (e + usec) time)) as [|Hgt]; [done|].
    assert (false = true); [|done]. apply (Hwake e).
    + exists [op]. by rewrite lookup_insert_eq.
    + intros u y ops1 Hne. rewrite lookup_insert_ne by done. intros Hu. pose proof (Hdue u y ops1 Hu). lia.
Qed.

(** A queue that has changed, and one operation more. *)
Lemma enqueue_waits q' l' op t s l a st done : waits_ok s l a st done ->
  wo_op op ∉ (fun w => wo_op w.1) <$> st ->
  let e := expiry (impl_at t s) in
  let a' := alarm_enqueue (Some e) t op a in
  abstracts q' l' a' ->
  waits_ok (set_scheduler (set_context (work_started (context (scheduler_ s))) (set_queue q' (scheduler_ s)))
    (set_impl t (with_pending true (impl_at t s)) s)) l' a' (st ++ [(op, e)]) done.
Proof.
  intros Hw Hfresh e a' Hab. pose proof (enqueue_known s l a st done t op Hw) as Ha'. fold e a' in Ha'.
  pose proof (pending_enqueue (Some e) t op a) as Hp. fold a' in Hp.
  assert (forall u, expiry (impl_at u (set_impl t (with_pending true (impl_at t s)) s)) = expiry (impl_at u s)) as He
    by (intros u; rewrite impl_at_set; by case_decide; subst).
  assert (forall w, w ∈ st -> w ∈ st ++ [(op, e)]) as Hst by (intros w Hin; apply elem_of_app; by left).
  destruct Hw. constructor; try done; cbn [scheduler_ set_scheduler context set_context].
  - intros u. rewrite Ha'. change (impl_at u (set_scheduler ?c ?x)) with (impl_at u x). rewrite impl_at_set.
    destruct (decide (u = t)) as [->|Hne]; [done|]. rewrite lookup_insert_ne by done. apply wk_pending0.
  - intros u time ops. rewrite Ha'. change (impl_at u (set_scheduler ?c ?x)) with (impl_at u x). rewrite He.
    intros [[<- [= <- <-]]|[_ Hu]]%lookup_insert_Some; [done|by eapply wk_expiry0].
  - intros u time ops o. rewrite Ha'. change (impl_at u (set_scheduler ?c ?x)) with (impl_at u x). rewrite He.
    intros [[<- [= <- <-]]|[_ Hu]]%lookup_insert_Some Ho; [|by eapply Hst, wk_deadline0].
    apply elem_of_app in Ho as [Ho|Ho%list_elem_of_singleton].
    + unfold alarm_ops in Ho. destruct (a !! t) as [[time' ops']|] eqn:Hat; [|by apply not_elem_of_nil in Ho].
      by eapply Hst, wk_deadline0.
    + rewrite Ho. apply elem_of_app. right. by apply list_elem_of_singleton.
  - intros u. change (impl_at u (set_scheduler ?c ?x)) with (impl_at u x). rewrite He. apply wk_time0.
  - rewrite fmap_app. apply NoDup_app. split; [done|]. split; [|apply NoDup_singleton].
    intros o Ho Hin%list_elem_of_singleton. subst o. by apply Hfresh.
  - rewrite fmap_app, Hp, wk_places0. simpl. rewrite Permutation_app_comm. done.
  - cbn [outstanding_work_ work_started set_work]. change (posted (work_started ?x)) with (posted x).
    rewrite wk_work0, Hp. simpl. lia.
  - intros o Ho. destruct (wk_posted0 o Ho) as (ec & Hec & Hs). exists ec. split; [done|].
    eapply settled_mono; [exact Hst|reflexivity|exact Hs].
  - intros o ec Ho. eapply settled_mono; [exact Hst|reflexivity|by apply wk_done0].
Qed.

(** Changes that no wait depends on. *)
Lemma waits_frame c' s l a st done : waits_ok s l a st done ->
  timer_queue_ c' = timer_queue_ (scheduler_ s) -> ec_ c' = ec_ (scheduler_ s) -> shutdown_ c' = shutdown_ (scheduler_ s) ->
  now (scheduler_ s) <= now c' <= time_max -> completed_ops_ (context c') = completed_ops_ (context (scheduler_ s)) ->
  in_port (context c') = in_port (context (scheduler_ s)) -> ops (context c') = ops (context (scheduler_ s)) ->
  outstanding_work_ (context c') = outstanding_work_ (context (scheduler_ s)) ->
  waits_ok (set_scheduler c' s) l a st done.
Proof.
  intros [] Hq He Hsh [Hn1 Hn2] Hc Hp Ho Hw.
  assert (posted (context c') = posted (context (scheduler_ s))) as Hpo by (unfold posted; by rewrite Hc, Hp).
  constructor; cbn [scheduler_ set_scheduler]; rewrite ?Hq, ?He, ?Hsh, ?Hpo, ?Hp, ?Hw; try done.
  - destruct wk_now0. split; lia.
  - unfold op_at. by rewrite Ho.
  - intros o Hin. destruct (wk_posted0 o Hin) as (ec & Hec & Hs). exists ec. split; [done|].
    by eapply settled_mono; [..|exact Hs].
  - intros o ec Hin. eapply settled_mono; [done|exact Hn1|by apply wk_done0].
Qed.

Lemma alarm_times s l a st done : waits_ok s l a st done -> forall t x ops, a !! t = Some (Some x, ops) -> is_time x.
Proof.
  intros Hw t x ops Ha. pose proof (wk_expiry _ _ _ _ _ Hw _ _ _ Ha) as Hx. injection Hx as ->. apply (wk_time _ _ _ _ _ Hw).
Qed.

Lemma async_wait_waits t op s l a st done n : waits_ok s l a st done -> armed (scheduler_ s) n a ->
  wo_op op ∉ (fun w => wo_op w.1) <$> st ->
  exists s' l' a', async_wait true t op s = Ok s' /\ waits_ok s' l' a' (st ++ [(op, expiry (impl_at t s))]) done /\
    armed (scheduler_ s') n a'.
Proof.
  intros Hw Har Hfresh. unfold async_wait, schedule_timer. set (s1 := set_impl t (with_pending true (impl_at t s)) s).
  assert (expiry (impl_at t s1) = expiry (impl_at t s)) as -> by (unfold s1; by rewrite impl_at_set, decide_True).
  change (scheduler_ s1) with (scheduler_ s). rewrite (wk_open _ _ _ _ _ Hw). cbn [negb Z.eqb].
  set (e := expiry (impl_at t s)).
  destruct (enqueue_timer_abstracts (Some e) t op _ l a (wk_queue _ _ _ _ _ Hw)) as (b & q' & l' & -> & Hab & Hwake).
  cbn [obind]. pose proof (enqueue_waits q' l' op t s l a st done Hw Hfresh Hab) as Hw'. fold s1 e in Hw'.
  set (a' := alarm_enqueue (Some e) t op a) in *.
  set (c1 := set_context (work_started (context (scheduler_ s))) (set_queue q' (scheduler_ s))) in *.
  pose proof Har as [Hfl Hth Hb Hdue]. destruct b.
  - destruct (update_timeout_due c1 l' a') as (c' & -> & Hsame & Hb' & Hdue'); [done| |apply (wk_now _ _ _ _ _ Hw)|done|].
    { apply (alarm_times _ _ _ _ _ Hw'). }
    cbn [obind]. eexists _, l', a'. split; [done|]. split.
    + apply (waits_frame c' _ _ _ _ _ Hw'); destruct Hsame as [->|[w ->]]; try done; split; try reflexivity; apply (wk_now _ _ _ _ _ Hw).
    + constructor; destruct Hsame as [->|[w ->]]; try done; right; right; right; by right.
  - cbn [obind]. eexists _, l', a'. split; [done|]. split; [done|]. constructor; try done.
    cbn [scheduler_ set_scheduler]. destruct Hdue as [?|[?|[?|[?|Hdue]]]]; [by left|by right; left|by right; right; left|by right; right; right; left|].
    right; right; right; right. eapply due_not_woken; [apply (enqueue_known _ _ _ _ _ _ _ Hw)| | |exact Hwake|exact Hdue].
    + intros time ops Ha. apply (wk_expiry _ _ _ _ _ Hw _ _ _ Ha).
    + unfold alarm_ops. by intros ->.
Qed.

(** *** Moving a timer *)

Lemma move_lookup t o (a : alarms) u v : t <> o -> a !! t = None -> alarm_move t o a !! u = Some v ->
  u <> o /\ if decide (u = t) then a !! o = Some v else a !! u = Some v.
Proof.
  intros Hto Hat. unfold alarm_move. destruct (a !! o) as [w|] eqn:Ho.
  - rewrite lookup_insert_Some, lookup_delete_Some. intros [[<- <-]|[Hne [Hno Hu]]].
    + by rewrite decide_True.
    + by rewrite decide_False.
  - intros Hu. split; [congruence|]. case_decide; [congruence|done].
Qed.

Lemma due_move t o a w time : t <> o -> a !! t = None -> due_in_time a w time -> due_in_time (alarm_move t o a) w time.
Proof.
  intros Hto Hat Hd u x ops [_ Hu]%move_lookup; [|done..]. destruct (decide (u = t)); by eapply Hd.
Qed.

Lemma move_waits t o q2 l2 s l a st done : waits_ok s l a st done -> t <> o -> a !! t = None ->
  abstracts q2 l2 (alarm_move t o a) ->
  waits_ok (set_impl o no_expiry (set_impl t (impl_at o s) (set_scheduler (set_queue q2 (scheduler_ s)) s)))
    l2 (alarm_move t o a) st done.
Proof.
  intros Hw Hto Hat Hab. set (s' := set_impl o _ _).
  assert (forall u, u <> o -> impl_at u s' = if decide (u = t) then impl_at o s else impl_at u s) as Hi.
  { intros u Hne. unfold s'. rewrite impl_at_set, decide_False, impl_at_set by done. by case_decide. }
  pose proof (pending_move t o a Hto Hat) as Hp. destruct Hw. constructor; try done.
  - intros u [v [Hne Hu]%move_lookup]; [|done..]. rewrite Hi by done. case_decide; by apply wk_pending0.
  - intros u time ops [Hne Hu]%move_lookup; [|done..]. rewrite Hi by done. case_decide; by eapply wk_expiry0.
  - intros u time ops op [Hne Hu]%move_lookup; [|done..]. rewrite Hi by done. case_decide; by eapply wk_deadline0.
  - intros u. destruct (decide (u = o)) as [->|Hne].
    + unfold s'. rewrite impl_at_set, decide_True by done. unfold no_expiry. simpl. time_bounds.
    + rewrite Hi by done. case_decide; apply wk_time0.
  - rewrite Hp. exact wk_places0.
  - rewrite Hp. exact wk_work0.
Qed.

Lemma cancel_all_abstracts t q l a : abstracts q l a ->
  exists q' l', cancel_all t q = Ok (length (alarm_ops a t), (fun op => (op, operation_aborted)) <$> alarm_ops a t, q') /\
    abstracts q' l' (delete t a).
Proof.
  intros Hab. unfold cancel_all. rewrite (entry_ops _ _ _ _ (ab_entries _ _ _ Hab t)). fold (alarm_ops a t).
  destruct (cancel_timer_abstracts t (length (alarm_ops a t)) q l a Hab) as (q' & l' & -> & Hab').
  rewrite take_ge by done. rewrite keep_all in Hab' by done. by exists q', l'.
Qed.

Lemma move_assign_waits oks t o s l a st done n : waits_ok s l a st done -> armed (scheduler_ s) n a -> t <> o ->
  exists s' l' a', move_assign oks t o s = Ok s' /\ waits_ok s' l' a' st done /\ armed (scheduler_ s') n a'.
Proof.
  intros Hw Har Hto. unfold move_assign, move_timer.
  destruct (cancel_all_abstracts t _ l a (wk_queue _ _ _ _ _ Hw)) as (q1 & l1 & -> & Hab1). cbn [obind fst snd].
  set (ops := (fun op => (op, operation_aborted)) <$> alarm_ops a t).
  assert (delete t a !! t = None) as Hat by apply lookup_delete_eq.
  destruct (move_timer_abstracts t o q1 l1 (delete t a) Hab1 Hto Hat) as [l2 Hab2].
  set (c1 := post_cancelled oks ops (set_queue q1 (scheduler_ s))).
  assert (waits_ok (set_scheduler c1 s) l1 (delete t a) st done) as Hw1.
  { rewrite <- (keep_none t a) in Hab1 |- *.
    apply (abort_waits oks t (fun _ => []) id q1 l1 s l a st done Hw Hab1). intros ops'. by rewrite app_nil_r. }
  pose proof (move_waits t o (TimerQueue.move_timer t o q1) l2 _ _ _ _ _ Hw1 Hto Hat Hab2) as Hw2.
  eexists _, l2, (alarm_move t o (delete t a)). split; [done|]. split; [exact Hw2|].
  assert (armed c1 n (delete t a)) as [H1 H2 H3 H4] by (eapply armed_quiet; [exact Har|apply quiet_posting|apply shrinks_delete]).
  constructor; [exact H1|exact H2|exact H3|].
  destruct H4 as [?|[?|[?|[?|H4]]]]; [by left|by right; left|by right; right; left|by right; right; right; left|].
  right; right; right; right. by apply due_move.
Qed.

(** *** The loop *)

Lemma dispatch_waits oks s l a st done : waits_ok s l a st done ->
  exists c l' a' ops, dispatch_timers oks (scheduler_ s) = Ok c /\ waits_ok (set_scheduler c s) l' a' st done /\
    alarms_ready (now (scheduler_ s)) a ops a' /\
    waitable c = waitable (scheduler_ s) /\ signaled c = signaled (scheduler_ s) /\
    timer_thread_ c = timer_thread_ (scheduler_ s) /\ now c = now (scheduler_ s) /\
    (dispatch_required_ (context c) = dispatch_required_ (context (scheduler_ s)) \/ dispatch_required_ (context c) = 1).
Proof.
  intros Hw. unfold dispatch_timers. cbn [timer_queue_ set_context].
  destruct (get_ready_timers_abstracts (now (scheduler_ s)) (S (length (heap_ (timer_queue_ (scheduler_ s))))) _ l a []
    (wk_queue _ _ _ _ _ Hw)) as (ops & q' & l' & a' & Hrun & Hab & Hready); [lia|].
  change (now (set_context ?x ?c)) with (now c). rewrite Hrun. cbn [obind app].
  set (pre := completed_ops_ (context (scheduler_ s))). set (x0 := set_completed [] (context (scheduler_ s))).
  eexists _, l', a', ops. split; [done|]. split_and!; try done.
  - apply (post_waits oks pre ops x0 q' l' a' s l a st done); try done.
    + by eapply shrinks_ready.
    + by eapply pending_ready.
    + destruct Hready as (es & _ & _ & Hes & -> & _). intros r (e & (op & -> & Hop)%list_elem_of_fmap & He)%list_elem_of_bind.
      right. split; [done|]. apply Hes in He as (lo & Hlo & Hle). unfold alarm_ops in Hop. rewrite Hlo in Hop.
      exists op, (time_ e). split_and!; [|done|done]. pose proof (wk_expiry _ _ _ _ _ Hw _ _ _ Hlo) as Hx. injection Hx as ->.
      by eapply (wk_deadline _ _ _ _ _ Hw).
  - cbn [context set_context]. destruct (post_deferred_posted (pre ++ op_ids ops) oks x0) as ([_ Hf] & _). exact Hf.
Qed.

(** The context after [o] has been taken from the port, ready. *)
Lemma dequeued_spec p rest x : port x = p :: rest ->
  (forall o, overlapped p = Some o -> ready_ (op_at o x) = 1) ->
  match overlapped p with
  | None => exists pc', dequeued p (set_port rest x) = (set_port rest x, pc') /\ forall o ec n, pc' <> GotOp o ec n
  | Some o => exists x' ec n, dequeued p (set_port rest x) = (x', GotOp o ec n) /\ try_complete o x' = (x', true) /\
      completed_ops_ x' = completed_ops_ x /\ in_port x' = omap overlapped rest /\
      outstanding_work_ x' = outstanding_work_ x /\ dispatch_required_ x' = dispatch_required_ x /\
      forall u, ready_ (op_at u x') = ready_ (op_at u x)
  end.
Proof.
  intros Hp Hr. unfold dequeued. destruct (overlapped p) as [o|] eqn:Ho.
  - specialize (Hr o eq_refl). change (op_at o (set_port rest x)) with (op_at o x).
    destruct (completion_key p =? overlapped_contains_result).
    + eexists _, _, _. split; [done|]. unfold try_complete. change (op_at o (set_port rest x)) with (op_at o x). by rewrite Hr.
    + eexists _, _, _. split; [done|]. set (x' := set_op o _ (set_port rest x)).
      assert (forall u, ready_ (op_at u x') = ready_ (op_at u x)) as Hu.
      { intros u. unfold x', set_op, op_at at 1. cbn [ops]. destruct (decide (u = o)) as [->|Hne].
        - by rewrite lookup_insert_eq.
        - by rewrite lookup_insert_ne. }
      split; [|done]. unfold try_complete. by rewrite Hu, Hr.
  - destruct (completion_key p =? wake_for_dispatch); eexists; split; done.
Qed.

(** A wait that is posted completes. *)
Lemma complete_waits x1 o s l a st done : waits_ok s l a st done ->
  posted (context (scheduler_ s)) ≡ₚ o :: posted x1 ->
  (forall u, u ∈ in_port x1 -> u ∈ in_port (context (scheduler_ s))) ->
  (forall u, ready_ (op_at u x1) = ready_ (op_at u (context (scheduler_ s)))) ->
  outstanding_work_ x1 = outstanding_work_ (context (scheduler_ s)) - 1 ->
  waits_ok (set_scheduler (set_context x1 (scheduler_ s)) s) l a st (done ++ [(o, wait_result o (scheduler_ s))]).
Proof.
  intros Hw Hposted Hin Hr Hwk. assert (o ∈ posted (context (scheduler_ s))) as Ho by (rewrite Hposted; apply list_elem_of_here).
  destruct (wk_posted _ _ _ _ _ Hw o Ho) as (e & He & Hs). unfold wait_result. rewrite He. simpl.
  destruct Hw. constructor; try done; cbn [scheduler_ set_scheduler context set_context].
  - rewrite wk_places0, Hposted, fmap_app. simpl. apply Permutation_app_head.
    rewrite (app_assoc (posted x1)), (Permutation_app_comm _ [o]). done.
  - intros u Hu. rewrite Hr. by apply wk_ready0, Hin.
  - rewrite Hwk, wk_work0, Hposted. simpl. lia.
  - intros u Hu. apply (wk_posted0 u). rewrite Hposted. by apply list_elem_of_further.
  - intros u ec [Hu|Hu%list_elem_of_singleton]%elem_of_app; [by apply wk_done0|]. by injection Hu as -> ->.
Qed.

Lemma armed_context x c n a : armed c n a -> dispatch_required_ x = dispatch_required_ (context c) -> armed (set_context x c) n a.
Proof. intros [] Hf. constructor; cbn [context set_context]; by rewrite ?Hf. Qed.

Lemma take_waits p rest σ l a : waits_ok (timers σ) l a (started_waits σ) (completed_waits σ) ->
  armed (scheduler_of σ) (dispatchers σ) a -> port (context (scheduler_of σ)) = p :: rest ->
  timers_inv (take_packet p rest σ).
Proof.
  intros Hw Har Hp. exists l, a. unfold take_packet.
  assert (in_port (context (scheduler_of σ)) = (match overlapped p with Some o => [o] | None => [] end) ++ omap overlapped rest) as Hin
    by (unfold in_port; rewrite Hp; simpl; by destruct (overlapped p)).
  pose proof (dequeued_spec p rest _ Hp) as Hd. destruct (overlapped p) as [o|] eqn:Ho.
  - destruct Hd as (x & ec & n & -> & -> & Hc & Hpo & Hwk & Hfl & Hr).
    { intros o' [= <-]. apply (wk_ready _ _ _ _ _ Hw). fold (scheduler_of σ). rewrite Hin. apply list_elem_of_here. }
    split; [|by apply armed_context]. apply (complete_waits _ o (timers σ) l a _ _ Hw).
    + fold (scheduler_of σ). unfold posted. change (completed_ops_ (work_finished x).1) with (completed_ops_ x).
      change (in_port (work_finished x).1) with (in_port x). rewrite Hc, Hpo, Hin. symmetry. apply Permutation_middle.
    + intros u Hu. fold (scheduler_of σ). change (in_port (work_finished x).1) with (in_port x) in Hu.
      rewrite Hin, <- Hpo. by apply list_elem_of_further.
    + intros u. apply Hr.
    + fold (scheduler_of σ). cbn [outstanding_work_ work_finished fst set_work]. by rewrite Hwk.
  - destruct Hd as (pc' & -> & Hno); [done|].
    assert (waits_ok (set_scheduler (set_context (set_port rest (context (scheduler_of σ))) (scheduler_of σ)) (timers σ)) l a
        (started_waits σ) (completed_waits σ) /\
      armed (set_context (set_port rest (context (scheduler_of σ))) (scheduler_of σ)) (dispatchers σ) a) as [Hw' Har'].
    { split; [|by apply armed_context]. apply (waits_frame _ _ _ _ _ _ Hw); try done.
      split; [done|]. apply (wk_now _ _ _ _ _ Hw). }
    destruct pc'; try done. by destruct (Hno o ec bytes).
Qed.

(** ** The invariant *)

Lemma new_timers_inv time : is_time time -> timers_inv (new_timer_system time).
Proof.
  intros Ht. exists [], ∅. split; constructor; try done; cbn.
  - apply new_queue_abstracts.
  - intros t. rewrite lookup_empty. by intros [].
  - constructor.
  - intros o. by intros ?%not_elem_of_nil.
  - intros o. by intros ?%not_elem_of_nil.
  - intros o ec. by intros ?%not_elem_of_nil.
  - by left.
  - right; right; right; right. intros t x ops. by rewrite lookup_empty.
Qed.

(** A call that only cancels. *)
Lemma call_inv σ s l' a a' : armed (scheduler_of σ) (dispatchers σ) a ->
  waits_ok s l' a' (started_waits σ) (completed_waits σ) -> quiet (scheduler_of σ) (scheduler_ s) -> shrinks a a' ->
  timers_inv (put_service s σ).
Proof. intros Har Hw Hq Hs. exists l', a'. split; [exact Hw|]. by eapply armed_quiet. Qed.

(** A step of the waitable timer or of the timer thread. *)
Lemma thread_inv σ c l a : waits_ok (timers σ) l a (started_waits σ) (completed_waits σ) ->
  timer_queue_ c = timer_queue_ (scheduler_of σ) -> ec_ c = ec_ (scheduler_of σ) ->
  shutdown_ c = shutdown_ (scheduler_of σ) -> now (scheduler_of σ) <= now c <= time_max ->
  completed_ops_ (context c) = completed_ops_ (context (scheduler_of σ)) ->
  in_port (context c) = in_port (context (scheduler_of σ)) -> ops (context c) = ops (context (scheduler_of σ)) ->
  outstanding_work_ (context c) = outstanding_work_ (context (scheduler_of σ)) ->
  armed c (dispatchers σ) a -> timers_inv (put_timers c σ).
Proof. intros Hw H1 H2 H3 H4 H5 H6 H7 H8 Har. exists l, a. split; [|done]. by apply (waits_frame c _ _ _ _ _ Hw). Qed.

Ltac thread_frame Hw := eapply thread_inv; [exact Hw|..]; try done;
  try (split; [reflexivity|apply (wk_now _ _ _ _ _ Hw)]).

(** *** The waitable timer and its thread *)

Lemma armed_now c n a d : armed c n a -> 0 <= d -> armed (set_now (now c + d) c) n a.
Proof.
  intros [H1 H2 H3 H4] Hd. constructor; cbn [context timer_thread_ waitable now signaled set_now]; [done|done|lia|].
  destruct H4 as [?|[?|[?|[?|H4]]]]; [by left|by right; left|by right; right; left|by right; right; right; left|].
  right; right; right; right. intros t x ops Ha. pose proof (H4 t x ops Ha). lia.
Qed.

Lemma armed_signal c n a : armed c n a -> waitable c <= now c -> armed (timer_signal c) n a.
Proof.
  intros [H1 H2 H3 H4] Hw. constructor; cbn [context timer_thread_ waitable now signaled timer_signal]; [done|done| |by right; right; left].
  assert (max_timeout_msec * msec = max_timeout_usec * usec) as -> by done. lia.
Qed.

Lemma armed_loop c n a p : armed c n a -> timer_thread_ c = TimerLoop \/ timer_thread_ c = TimerPost ->
  p <> TimerEnd -> armed (set_thread p c) n a.
Proof.
  intros [H1 H2 H3 H4] Hl Hp. constructor; cbn [context timer_thread_ waitable now signaled set_thread]; [done|done|done|].
  destruct H4 as [?|[?|[?|[H4|H4]]]]; [by left|by right; left|by right; right; left| |by right; right; right; right].
  rewrite H4 in Hl. by destruct Hl.
Qed.

Lemma armed_woken c n a : armed c n a -> armed (set_thread TimerSet (timer_reset c)) n a.
Proof. intros [H1 H2 H3 H4]. constructor; cbn; [done|done|done|by right; right; right; left]. Qed.

Lemma armed_set c n a : armed c n a -> armed (set_thread TimerPost (set_context (set_dispatch 1 (context c)) c)) n a.
Proof. intros [H1 H2 H3 H4]. constructor; cbn; [by right|done|done|by left]. Qed.

Lemma armed_acquire c n a : armed c n a -> armed (set_context (set_dispatch 0 (context c)) c) (S n) a.
Proof. intros [H1 H2 H3 H4]. constructor; cbn; [by left|done|done|right; left; lia]. Qed.

(** A dispatch leaves the waitable timer due in time for the timers that are left. *)
Lemma dispatch_inv oks n d c c' σ l a : waits_ok (timers σ) l a (started_waits σ) (completed_waits σ) ->
  armed (scheduler_of σ) (dispatchers σ) a -> dispatch_timers oks (scheduler_of σ) = Ok c ->
  0 <= d -> now c + d <= time_max -> update_timeout (set_now (now c + d) c) = Ok c' ->
  timers_inv (put_dispatchers n (put_timers c' σ)).
Proof.
  intros Hw [H1 H2 H3 H4] Hrun Hd Hmax Hup.
  destruct (dispatch_waits oks _ l a _ _ Hw) as (c1 & l' & a' & ops & Hrun' & Hw1 & Hready & E1 & E2 & E3 & E4 & E5).
  unfold scheduler_of in *. rewrite Hrun in Hrun'. injection Hrun' as <-. pose proof (wk_now _ _ _ _ _ Hw1) as Hnow.
  cbn [scheduler_ set_scheduler] in Hnow.
  assert (waits_ok (set_scheduler (set_now (now c + d) c) (timers σ)) l' a' (started_waits σ) (completed_waits σ)) as Hw2.
  { apply (waits_frame _ _ _ _ _ _ Hw1); try done. cbn [now set_now scheduler_ set_scheduler]. lia. }
  destruct (update_timeout_due (set_now (now c + d) c) l' a') as (c2 & Hup' & Hsame & Hb & Hdue).
  - apply (wk_queue _ _ _ _ _ Hw2).
  - apply (alarm_times _ _ _ _ _ Hw2).
  - apply (wk_now _ _ _ _ _ Hw2).
  - cbn [waitable now set_now]. rewrite E1, E4. lia.
  - rewrite Hup in Hup'. injection Hup' as <-. exists l', a'. split.
    + apply (waits_frame c' _ _ _ _ _ Hw2); destruct Hsame as [->|[w ->]]; try done;
        (split; [reflexivity|apply (wk_now _ _ _ _ _ Hw2)]).
    + assert (dispatch_required_ (context c') = 0 \/ dispatch_required_ (context c') = 1) as Hf
        by (destruct Hsame as [->|[w ->]]; cbn [context set_now SetWaitableTimer]; destruct E5 as [->| ->]; auto).
      assert (timer_thread_ c' <> TimerEnd) as Ht by (destruct Hsame as [->|[w ->]]; cbn; by rewrite E3).
      assert (now c' = now c + d) as Hn by (by destruct Hsame as [->|[w ->]]).
      constructor; unfold scheduler_of; cbn [timers put_dispatchers put_timers put_service set_scheduler scheduler_]; [done|done| |].
      * by rewrite Hn.
      * right; right; right; right. by rewrite Hn.
Qed.

Lemma timer_step_inv σ σ' : timers_inv σ -> timer_step σ σ' -> timers_inv σ'.
Proof.
  intros (l & a & Hw & Har) Hst. destruct Hst.
  - (* construct *)
    exists l, a. split; [|exact Har]. apply (waits_impl (timers σ) (construct t (timers σ)) t _ _ _ _ Hw); [done|..].
    + intros u Hne. unfold construct. by rewrite impl_at_set, decide_False.
    + unfold construct. rewrite impl_at_set, decide_True by done. unfold no_expiry. simpl. time_bounds.
    + intros Ha. pose proof (wk_pending _ _ _ _ _ Hw t Ha) as Hp. unfold impl_at in Hp. rewrite H in Hp. done.
  - (* async_wait *)
    destruct (async_wait_waits t op _ l a _ _ (dispatchers σ) Hw Har H) as (s' & l' & a' & Hrun & Hw' & Har').
    rewrite Hrun in H0. injection H0 as <-. by exists l', a'.
  - destruct (cancel_waits oks t _ l a _ _ Hw) as (s' & l' & Hrun & Hw' & Hq & _). rewrite Hrun in H. injection H as <- <-.
    eapply call_inv; [exact Har|exact Hw'|exact Hq|apply shrinks_delete].
  - destruct (cancel_one_waits oks t _ l a _ _ Hw) as (k & s' & l' & a' & Hrun & Hw' & Hq & Hs & _).
    rewrite Hrun in H. injection H as <- <-. by eapply call_inv.
  - unfold cancel_op in H. destruct (cancel_by_key_waits oks t key _ l a _ _ Hw) as (c & l' & a' & Hrun & Hw' & Hq & Hs).
    rewrite Hrun in H. injection H as <-. by eapply call_inv.
  - destruct (expires_at_waits oks t time _ l a _ _ Hw H) as (s' & l' & Hrun & Hw' & Hq). rewrite Hrun in H0. injection H0 as <- <-.
    eapply call_inv; [exact Har|exact Hw'|exact Hq|apply shrinks_delete].
  - destruct (destroy_waits oks t _ l a _ _ Hw) as (s' & l' & Hrun & Hw' & Hq). rewrite Hrun in H. injection H as <-.
    eapply call_inv; [exact Har|exact Hw'|exact Hq|apply shrinks_delete].
  - destruct (move_assign_waits oks t other _ l a _ _ (dispatchers σ) Hw Har H) as (s' & l' & a' & Hrun & Hw' & Har').
    rewrite Hrun in H0. injection H0 as <-. by exists l', a'.
  - (* time_passes *)
    thread_frame Hw; [|by apply armed_now]. cbn [now set_now]. pose proof (wk_now _ _ _ _ _ Hw). lia.
  - thread_frame Hw. by apply armed_signal.
  - thread_frame Hw. apply armed_loop; [done|by left|]. unfold scheduler_of. by rewrite (wk_open _ _ _ _ _ Hw).
  - thread_frame Hw. by apply armed_woken.
  - thread_frame Hw. by apply armed_set.
  - (* thread_post *)
    destruct ok; thread_frame Hw; try (apply armed_loop; [by apply armed_context|by right|done]).
    unfold in_port, pqcs. cbn [context set_thread set_context port set_port]. by rewrite omap_app, app_nil_r.
  - (* loop_acquire *)
    exists l, a. split; [|by apply armed_acquire]. apply (waits_frame _ _ _ _ _ _ Hw); try done.
    split; [reflexivity|apply (wk_now _ _ _ _ _ Hw)].
  - by eapply dispatch_inv.
  - by eapply take_waits.
Qed.

Lemma timers_reachable_inv time σ : is_time time -> timers_reachable time σ -> timers_inv σ.
Proof.
  intros Ht. apply reachable_invariant; [intros s ->; by apply new_timers_inv|]. intros s s'. apply timer_step_inv.
Qed.

(** ** An expired timer is dispatched *)









(** ** The packets of the port are taken *)



(** *** The dispatch, when posts succeed *)





(** ** Shutting down *)

(** Once the timers and the fallback queue are empty, the packets of the port are left. *)
Lemma shutdown_port fuel : forall destroyed c, timers_ (timer_queue_ c) = None -> completed_ops_ (context c) = [] ->
  outstanding_work_ (context c) = Z.of_nat (length (in_port (context c))) ->
  (length (port (context c)) < fuel)%nat ->
  exists c', shutdown_loop fuel destroyed c = Ok (destroyed ++ in_port (context c), c') /\
    outstanding_work_ (context c') = 0 /\ tq_empty (timer_queue_ c') = true.
Proof.
  induction fuel as [|fuel IH]; intros destroyed c Hq Hc Hw Hf; [lia|]. cbn [shutdown_loop].
  destruct (Z.ltb_spec 0 (outstanding_work_ (context c))) as [Hpos|Hz].
  2:{ exists c. destruct (in_port (context c)); [|simpl in Hw; lia]. rewrite app_nil_r. split_and!; [done|done|].
      by apply bool_decide_true. }
  assert (get_all_timers (S (size (data (timer_queue_ c)))) [] (timer_queue_ c) = Ok ([], set_heap [] (timer_queue_ c))) as ->.
  { unfold get_all_timers. cbn [get_all_loop]. by rewrite Hq. }
  cbn [obind fmap list_fmap app]. rewrite Hc. set (c1 := set_context (set_completed [] (context c)) (set_queue _ c)).
  change (port (context c1)) with (port (context c)). unfold in_port in Hw |- *.
  destruct (port (context c)) as [|p rest] eqn:Hp; [simpl in Hw; lia|].
  cbn [omap list_omap] in Hw |- *. destruct (overlapped p) as [o|]; simpl in Hf.
  - edestruct (IH (destroyed ++ [o]) (destroy_ops [o] (set_context (set_port rest (context c1)) c1)))
      as (c' & Hrun & Hw' & He); [done|done| |simpl; lia|].
    + cbn [context set_context destroy_ops outstanding_work_ set_work]. change (outstanding_work_ (set_port rest (context c1))) with (outstanding_work_ (context c)).
      unfold in_port. cbn [port set_work set_port]. rewrite Hw. simpl. lia.
    + exists c'. rewrite Hrun. split; [|done]. by rewrite <- app_assoc.
  - edestruct (IH destroyed (set_context (set_port rest (context c1)) c1)) as (c' & Hrun & Hw' & He); [done|done|done|simpl; lia|].
    exists c'. by rewrite Hrun.
Qed.

Lemma active_size q l a : abstracts q l a -> (length l <= size (data q))%nat.
Proof.
  intros [Hs He]. rewrite <- length_map_to_list, <- (length_fmap fst). apply submseteq_length, NoDup_submseteq.
  - apply (lk_nodup _ _ (st_linked _ _ Hs)).
  - intros t Ht. specialize (He t). destruct (data q !! t) as [d|] eqn:Hd.
    + apply list_elem_of_fmap. exists (t, d). split; [done|]. by apply elem_of_map_to_list.
    + exfalso. assert (op_queue_ (timer_at t q) = []) as Ho by (unfold timer_at; by rewrite Hd).
      unfold entry_ok in He. destruct (a !! t) as [[time ops]|]; [|by destruct He].
      destruct He as (_ & He & Hne & _). congruence.
Qed.

Lemma active_pending l (a : alarms) : NoDup l -> (forall t, t ∈ l <-> is_Some (a !! t)) ->
  l ≫= alarm_ops a ≡ₚ pending_ops a.
Proof.
  intros Hnd Hl. unfold pending_ops. assert (map_to_list a ≡ₚ (fun t => (t, default (None, []) (a !! t))) <$> l) as ->.
  { apply NoDup_Permutation; [apply NoDup_map_to_list|by apply NoDup_fmap_2; [intros ?? [=]|]|].
    intros [t v]. rewrite elem_of_map_to_list, list_elem_of_fmap. split.
    - intros Ha. exists t. rewrite Ha. split; [done|]. by apply Hl.
    - intros (u & Heq & Hu). injection Heq as -> ->. apply Hl in Hu as [w ->]. done. }
  clear. induction l as [|t l IH]; [done|]. rewrite fmap_cons, !bind_cons, IH. apply Permutation_app_tail.
  simpl. unfold alarm_ops. destruct (a !! t) as [[]|]; done.
Qed.

Lemma no_pending_no_timers q l a : abstracts q l a -> pending_ops a = [] -> timers_ q = None.
Proof.
  intros [Hs He] Hp. rewrite (lk_head _ _ (st_linked _ _ Hs)). destruct l as [|t l]; [done|]. exfalso.
  specialize (He t). unfold entry_ok in He. destruct (a !! t) as [[time ops]|] eqn:Ha.
  - destruct He as (_ & _ & Hne & _). pose proof (Permutation_length (pending_lookup t _ a Ha)) as Hl.
    rewrite Hp, length_app in Hl. destruct ops; [done|simpl in Hl; lia].
  - destruct He as [Hn _]. apply Hn, list_elem_of_here.
Qed.

Lemma shutdown_drains fuel s l a st done : waits_ok s l a st done ->
  (length (port (context (scheduler_ s))) + 1 < fuel)%nat ->
  exists destroyed c, shutdown fuel (scheduler_ s) = Ok (destroyed, c) /\
    outstanding_work_ (context c) = 0 /\ tq_empty (timer_queue_ c) = true /\
    destroyed ≡ₚ (wo_op <$> pending_ops a) ++ posted (context (scheduler_ s)).
Proof.
  intros Hw Hf. pose proof (wk_queue _ _ _ _ _ Hw) as Hab. pose proof (wk_work _ _ _ _ _ Hw) as Hwork.
  unfold shutdown. set (c := SetWaitableTimer _ _). change (context (scheduler_ s)) with (context c) in *.
  change (timer_queue_ (scheduler_ s)) with (timer_queue_ c) in Hab.
  unfold posted in Hwork |- *. rewrite length_app in Hwork. destruct (decide (pending_ops a = [] /\ completed_ops_ (context c) = [])) as [[Hp Hc]|Hne].
  { rewrite Hp, Hc in Hwork |- *. simpl in Hwork. destruct (shutdown_port fuel [] c) as (c' & Hrun & H0 & He); [|done|done|lia|].
    - by eapply no_pending_no_timers.
    - by exists (in_port (context c)), c'. }
  destruct fuel as [|fuel]; [lia|]. cbn [shutdown_loop]. rewrite (proj2 (Z.ltb_lt _ _)).
  2:{ rewrite Hwork. destruct (pending_ops a), (completed_ops_ (context c)); simpl; try lia. by destruct Hne. }
  destruct (get_all_timers_abstracts (S (size (data (timer_queue_ c)))) _ l a [] Hab) as (q' & -> & Hnd & Hl & He & Hh & Hb).
  { pose proof (active_size _ _ _ Hab). lia. }
  cbn [obind app]. pose proof (active_pending l a Hnd Hl) as Hpend. set (ids := wo_op <$> (l ≫= alarm_ops a)).
  assert (ids ≡ₚ wo_op <$> pending_ops a) as Hids by (unfold ids; by rewrite Hpend).
  set (c1 := set_context (set_completed [] (context c)) (set_queue q' c)).
  destruct (ids ++ completed_ops_ (context c)) as [|o os] eqn:Hos.
  { destruct Hne. apply app_nil in Hos as [H1 H2]. rewrite H1 in Hids. apply Permutation_nil_l in Hids.
    split; [|done]. symmetry in Hids. by apply fmap_nil_inv in Hids. }
  rewrite <- Hos. destruct (shutdown_port fuel (ids ++ completed_ops_ (context c)) (destroy_ops (ids ++ completed_ops_ (context c)) c1))
    as (c' & Hrun & H0 & He').
  - by apply bool_decide_eq_true in He.
  - done.
  - change (in_port (context (destroy_ops _ _))) with (in_port (context c)).
    cbn [destroy_ops context set_context outstanding_work_ set_work]. change (outstanding_work_ (context c1)) with (outstanding_work_ (context c)).
    rewrite Hwork, length_app, (Permutation_length Hids), length_fmap. lia.
  - change (port (context (destroy_ops _ _))) with (port (context c)). lia.
  - eexists _, c'. split; [exact Hrun|]. split_and!; [done|done|]. change (in_port (context (destroy_ops _ _))) with (in_port (context c)).
    by rewrite Hids, <- app_assoc.
Qed.

(** ** Every wait is in one place *)

(** Where the waits of [σ] are: on the timers [a], with the loop, or completed. *)
Record one_place (σ : timer_system) (a : alarms) : Prop := mkOnePlace {
  op_unique : NoDup ((fun w => wo_op w.1) <$> started_waits σ);
  op_places : (fun w => wo_op w.1) <$> started_waits σ ≡ₚ
    (wo_op <$> pending_ops a) ++ posted (context (scheduler_of σ)) ++ (fst <$> completed_waits σ);
  op_work : outstanding_work_ (context (scheduler_of σ)) =
    Z.of_nat (length (pending_ops a) + length (posted (context (scheduler_of σ))));
  op_result o ec : (o, ec) ∈ completed_waits σ -> settled (started_waits σ) (now (scheduler_of σ)) o ec }.

(** C32: whatever is called in whatever order (async_wait, cancel, cancel_one, the
    cancellation of one operation, changing the expiry, moving and destroying timers) and
    however timer thread and loop interleave, failing posts included, every wait started is in
    exactly one place: waiting on its timer, handed to the loop, or completed once; the
    count of outstanding work is exact; a wait completes without an error only after
    the expiry it was started with, and otherwise with operation_aborted; the next [cancel] aborts
    exactly the waits of its timer; and [shutdown] returns, given fuel for the packets of
    the port and two more rounds, with no work outstanding, having destroyed exactly the
    waits that have not completed. *)
Theorem timers_exactly_once time σ : is_time time -> timers_reachable time σ ->
  exists l a, abstracts (timer_queue_ (scheduler_of σ)) l a /\ one_place σ a /\
    (forall oks t, exists s l', cancel oks t (timers σ) = Ok (length (alarm_ops a t), s) /\
       abstracts (timer_queue_ (scheduler_ s)) l' (delete t a)) /\
    (forall fuel, (length (port (context (scheduler_of σ))) + 1 < fuel)%nat ->
       exists destroyed c, shutdown fuel (scheduler_of σ) = Ok (destroyed, c) /\
         outstanding_work_ (context c) = 0 /\ tq_empty (timer_queue_ c) = true /\
         (fun w => wo_op w.1) <$> started_waits σ ≡ₚ destroyed ++ (fst <$> completed_waits σ)).
Proof.
  intros Ht Hr. destruct (timers_reachable_inv time σ Ht Hr) as (l & a & Hw & _). exists l, a.
  split; [apply Hw|]. split; [constructor; [apply Hw|apply Hw|apply Hw|intros o ec; apply Hw]|]. split.
  - intros oks t. destruct (cancel_waits oks t _ l a _ _ Hw) as (s & l' & Hrun & Hw' & _). exists s, l'. split; [done|apply Hw'].
  - intros fuel Hf. destruct (shutdown_drains fuel _ l a _ _ Hw Hf) as (destroyed & c & Hrun & H0 & He & Hp).
    exists destroyed, c. split_and!; [done..|]. rewrite Hp, <- app_assoc. apply Hw.
Qed.

(** ** Witnesses: one timer of 2 microseconds, and the time 10 microseconds later *)

Definition ok_or {A} (d : A) (o : outcome A) : A := match o with Ok x => x | Fault _ => d end.
Definition is_ok {A} (o : outcome A) : bool := match o with Ok _ => true | Fault _ => false end.

Lemma ok_or_eq {A} (d : A) o : is_ok o = true -> o = Ok (ok_or d o).
Proof. by destruct o. Qed.

Definition demo_timers0 : timer_system := new_timer_system 0.
Definition demo_timers1 : timer_system :=
  put_service (ok_or (0%nat, timers demo_timers0) (expires_at [] 1 2000 (timers demo_timers0))).2 demo_timers0.
Definition demo_wait : wait_op := mkWaitOp 7 0.
Definition demo_timers2 : timer_system :=
  mkTimerSystem (ok_or (timers demo_timers1) (async_wait true 1 demo_wait (timers demo_timers1))) 0
    [(demo_wait, 2000)] [].
Definition demo_timers3 : timer_system := put_timers (set_now 10000 (scheduler_of demo_timers2)) demo_timers2.

Lemma demo_timers_reachable : timers_reachable 0 demo_timers3.
Proof.
  apply (reach_step _ _ demo_timers2); [apply (reach_step _ _ demo_timers1); [apply (reach_step _ _ demo_timers0); [by apply reach_init|]|]|].
  - apply (call_expires_at demo_timers0 [] 1 2000 (ok_or (0%nat, timers demo_timers0) (expires_at [] 1 2000 (timers demo_timers0))).1); [done|].
    rewrite <- surjective_pairing. by apply ok_or_eq.
  - apply (call_async_wait demo_timers1 1 demo_wait).
    + apply not_elem_of_nil.
    + by apply ok_or_eq.
  - by apply (time_passes demo_timers2 10000).
Qed.


Lemma timers_exactly_once_witness : is_time 0 /\
  exists l a, abstracts (timer_queue_ (scheduler_of demo_timers3)) l a /\ one_place demo_timers3 a /\
    (forall oks t, exists s l', cancel oks t (timers demo_timers3) = Ok (length (alarm_ops a t), s) /\
       abstracts (timer_queue_ (scheduler_ s)) l' (delete t a)) /\
    (forall fuel, (length (port (context (scheduler_of demo_timers3))) + 1 < fuel)%nat ->
       exists destroyed c, shutdown fuel (scheduler_of demo_timers3) = Ok (destroyed, c) /\
         outstanding_work_ (context c) = 0 /\ tq_empty (timer_queue_ c) = true /\
         (fun w => wo_op w.1) <$> started_waits demo_timers3 ≡ₚ destroyed ++ (fst <$> completed_waits demo_timers3)).
Proof.
  assert (is_time 0) as H0 by (split; discriminate). split; [exact H0|].
  exact (timers_exactly_once 0 demo_timers3 H0 demo_timers_reachable).
Defined.

(** What the code makes of it: the wait is aborted, or destroyed by the shutdown. *)
Example demo_cancelled : fst (ok_or (0%nat, timers demo_timers3) (cancel [] 1 (timers demo_timers3))) = 1%nat.
Proof. vm_compute. reflexivity. Qed.

Example demo_destroyed : fst (ok_or ([], scheduler_of demo_timers3) (shutdown 2 (scheduler_of demo_timers3))) = [7%nat].
Proof. vm_compute. reflexivity. Qed.
