(* ===== verification/SocketOps.v ===== *)
(** * SocketOps: the portable layer over the socket calls

    [asio/detail/impl/socket_ops.ipp], in the branches compiled on Windows.  The
    operating system is a world [W] and the socket calls are functions of it, a
    parameter ([Winsock]); the layer turns their results into error codes,
    retries, and keeps the state bits of [asio/detail/socket_ops.hpp]. *)

From stdpp Require Import base list.
From Stdlib Require Import ZArith Lia.
From S2P Require Import Prelude NetError.
Local Open Scope exchange_scope.
Local Open Scope Z_scope.

(** ** Definitions *)

(** The state bits; [state_type] is an [unsigned char]. *)
Definition user_set_non_blocking : Z := 1.
Definition internal_non_blocking : Z := 2.
Definition non_blocking : Z := Z.lor user_set_non_blocking internal_non_blocking.
Definition enable_connection_aborted : Z := 4.
Definition user_set_linger : Z := 8.
Definition stream_oriented : Z := 16.
Definition datagram_oriented : Z := 32.
Definition possible_dup : Z := 64.

(** [if (state & bit)] *)
Definition has_bit (state bit : Z) : bool := negb (Z.land state bit =? 0).
(** [state |= bit] and [state &= ~bit] *)
Definition set_bit (state bit : Z) : Z := u8 (Z.lor state bit).
Definition clear_bit (state bit : Z) : Z := u8 (Z.land state (Z.lnot bit)).

Definition invalid_socket : Z := 2 ^ 64 - 1.
Definition socket_error_retval : Z := -1.

Definition SOL_SOCKET : Z := 65535.
Definition SO_ERROR : Z := 4103.
Definition SO_LINGER : Z := 128.
Definition FIONBIO : Z := -2147195266.
Definition custom_socket_option_level : Z := -1525678080.
Definition enable_connection_aborted_option : Z := 1.
Definition always_fail_option : Z := 2.
Definition EPROTO : Z := 134.
Definition ENOTTY : Z := 25.
Definition FIONREAD : Z := 1074030207.
Definition SIOCATMARK : Z := 1074033415.
Definition IPPROTO_IPV6 : Z := 41.
Definition IPV6_V6ONLY : Z := 27.
Definition WSAENOPROTOOPT : Z := 10042.

(** What [select] waits for. *)
Inductive select_kind : Type := Readable | Writable | Exceptional | Connectable.

(** The socket calls; lengths stand for the buffers to fill, bytes for those to
    send or that were received; a [timeval] is seconds and microseconds. *)
Class Winsock (W : Type) : Type := {
  WSAGetLastError : W -> Z;
  WSARecv : W -> Z -> list Z -> Z -> Z * list Z * W;
  WSASend : W -> Z -> list (list Z) -> Z -> Z * Z * W;
  ws_select : W -> Z -> select_kind -> option (Z * Z) -> Z * W;
  ws_accept : W -> Z -> Z * list Z * W;
  ws_bind : W -> Z -> list Z -> Z * W;
  ws_listen : W -> Z -> Z -> Z * W;
  ws_connect : W -> Z -> list Z -> Z * W;
  ws_shutdown : W -> Z -> Z -> Z * W;
  ws_closesocket : W -> Z -> Z * W;
  ws_ioctlsocket : W -> Z -> Z -> Z -> Z * Z * W;
  ws_setsockopt : W -> Z -> Z -> Z -> list Z -> Z * W;
  ws_getsockopt : W -> Z -> Z -> Z -> Z -> Z * list Z * W }.

Section SocketOps.
Context {W : Type} {HW : Winsock W}.

Definition get_last_error (w : W) (ec : error_code) (is_error_condition : bool) : error_code :=
  if negb is_error_condition then clear_error ec else sys (WSAGetLastError w).

(** *** Accepting *)

(** The new socket, the peer's address, [ec] and the world. *)
Definition accept (w : W) (s : Z) (ec : error_code) : Z * list Z * error_code * W :=
  if s =? invalid_socket then (invalid_socket, [], bad_descriptor, w)
  else
    let '(new_s, addr, w) := ws_accept w s in
    let ec := get_last_error w ec (new_s =? invalid_socket) in
    if new_s =? invalid_socket then (new_s, addr, ec, w)
    else (new_s, addr, clear_error ec, w).

(** [select]'s timeout. *)
Definition make_timeout (state msec : Z) : option (Z * Z) :=
  if has_bit state user_set_non_blocking then Some (0, 0)
  else if 0 <=? msec then Some (msec / 1000, (msec mod 1000) * 1000) else None.

Definition poll (kind : select_kind) (w : W) (s state msec : Z) (ec : error_code) : Z * error_code * W :=
  if s =? invalid_socket then (socket_error_retval, bad_descriptor, w)
  else
    let '(result, w) := ws_select w s kind (make_timeout state msec) in
    let ec := get_last_error w ec (result <? 0) in
    let ec := if (result =? 0) && has_bit state user_set_non_blocking then would_block else ec in
    (result, ec, w).

Definition poll_read : W -> Z -> Z -> Z -> error_code -> Z * error_code * W := poll Readable.
Definition poll_write : W -> Z -> Z -> Z -> error_code -> Z * error_code * W := poll Writable.
Definition poll_error : W -> Z -> Z -> Z -> error_code -> Z * error_code * W := poll Exceptional.

Definition poll_connect (w : W) (s msec : Z) (ec : error_code) : Z * error_code * W :=
  if s =? invalid_socket then (socket_error_retval, bad_descriptor, w)
  else
    let timeout := if 0 <=? msec then Some (msec / 1000, (msec mod 1000) * 1000) else None in
    let '(result, w) := ws_select w s Connectable timeout in
    (result, get_last_error w ec (result <? 0), w).

(** [ec == would_block || ec == try_again] *)
Definition is_would_block (ec : error_code) : bool :=
  bool_decide (ec = would_block) || bool_decide (ec = try_again).

Fixpoint sync_accept (fuel : nat) (w : W) (s state : Z) (ec : error_code)
    : outcome (Z * list Z * error_code * W) :=
  match fuel with
  | O => Fault OutOfFuel
  | S fuel =>
      let '(new_socket, addr, ec, w) := accept w s ec in
      let wait :=
        let '(r, ec, w) := poll_read w s 0 (-1) ec in
        if r <? 0 then Ok (invalid_socket, addr, ec, w) else sync_accept fuel w s state ec in
      if negb (new_socket =? invalid_socket) then Ok (new_socket, addr, ec, w)
      else if is_would_block ec then
        if has_bit state user_set_non_blocking then Ok (invalid_socket, addr, ec, w) else wait
      else if bool_decide (ec = connection_aborted) then
        if has_bit state enable_connection_aborted then Ok (invalid_socket, addr, ec, w) else wait
      else if value ec =? EPROTO then
        if has_bit state enable_connection_aborted then Ok (invalid_socket, addr, ec, w) else wait
      else Ok (invalid_socket, addr, ec, w)
  end.

(** *** Opening, closing and options *)

Definition bind (w : W) (s : Z) (addr : list Z) (ec : error_code) : Z * error_code * W :=
  if s =? invalid_socket then (socket_error_retval, bad_descriptor, w)
  else
    let '(result, w) := ws_bind w s addr in
    (result, get_last_error w ec (negb (result =? 0)), w).

Definition listen (w : W) (s backlog : Z) (ec : error_code) : Z * error_code * W :=
  if s =? invalid_socket then (socket_error_retval, bad_descriptor, w)
  else
    let '(result, w) := ws_listen w s backlog in
    (result, get_last_error w ec (negb (result =? 0)), w).

Definition shutdown (w : W) (s what : Z) (ec : error_code) : Z * error_code * W :=
  if s =? invalid_socket then (socket_error_retval, bad_descriptor, w)
  else
    let '(result, w) := ws_shutdown w s what in
    (result, get_last_error w ec (negb (result =? 0)), w).

(** The bytes of an [int]. *)
Definition int_bytes (i : Z) : list Z :=
  [i mod 256; i / 256 mod 256; i / 65536 mod 256; i / 16777216 mod 256].
Definition int_of_bytes (bs : list Z) : Z :=
  fold_right (fun b acc => b + 256 * acc) 0 bs.

(** [setsockopt]: the result, the new [state], [ec] and the world. *)
Definition setsockopt (w : W) (s state level optname : Z) (optval : list Z) (ec : error_code)
    : Z * Z * error_code * W :=
  if s =? invalid_socket then (socket_error_retval, state, bad_descriptor, w)
  else if (level =? custom_socket_option_level) && (optname =? always_fail_option)
  then (socket_error_retval, state, invalid_argument, w)
  else if (level =? custom_socket_option_level) && (optname =? enable_connection_aborted_option) then
    if negb (Z.of_nat (length optval) =? 4) then (socket_error_retval, state, invalid_argument, w)
    else
      let state :=
        if negb (int_of_bytes optval =? 0) then set_bit state enable_connection_aborted
        else clear_bit state enable_connection_aborted in
      (0, state, clear_error ec, w)
  else
    let state :=
      if (level =? SOL_SOCKET) && (optname =? SO_LINGER) then set_bit state user_set_linger else state in
    let '(result, w) := ws_setsockopt w s level optname optval in
    (result, state, get_last_error w ec (negb (result =? 0)), w).

(** [getsockopt]: the result, the bytes of the option, [ec] and the world. *)
Definition getsockopt (w : W) (s state level optname optlen : Z) (ec : error_code)
    : Z * list Z * error_code * W :=
  if s =? invalid_socket then (socket_error_retval, [], bad_descriptor, w)
  else if (level =? custom_socket_option_level) && (optname =? always_fail_option)
  then (socket_error_retval, [], invalid_argument, w)
  else if (level =? custom_socket_option_level) && (optname =? enable_connection_aborted_option) then
    if negb (optlen =? 4) then (socket_error_retval, [], invalid_argument, w)
    else (0, int_bytes (if has_bit state enable_connection_aborted then 1 else 0), clear_error ec, w)
  else
    let '(result, optval, w) := ws_getsockopt w s level optname optlen in
    let ec := get_last_error w ec (negb (result =? 0)) in
    if negb (result =? 0) && (level =? IPPROTO_IPV6) && (optname =? IPV6_V6ONLY)
       && (value ec =? WSAENOPROTOOPT) && (Z.of_nat (length optval) =? 4)
    then (result, int_bytes 1, clear_error ec, w)
    else (result, optval, ec, w).

(** [close]: the result, the new [state], [ec] and the world. *)
Definition close (w : W) (s state : Z) (destruction : bool) (ec : error_code) : Z * Z * error_code * W :=
  if negb (s =? invalid_socket) then
    let '(state, w) :=
      if destruction && has_bit state user_set_linger then
        let '(_, state, _, w) := setsockopt w s state SOL_SOCKET SO_LINGER [0; 0; 0; 0] no_error in (state, w)
      else (state, w) in
    let '(result, w) := ws_closesocket w s in
    let ec := get_last_error w ec (negb (result =? 0)) in
    if negb (result =? 0) && is_would_block ec then
      let '(_, _, w) := ws_ioctlsocket w s FIONBIO 0 in
      let state := clear_bit state non_blocking in
      let '(result, w) := ws_closesocket w s in
      (result, state, get_last_error w ec (negb (result =? 0)), w)
    else (result, state, ec, w)
  else (0, state, ec, w).

Definition set_user_non_blocking (w : W) (s state : Z) (v : bool) (ec : error_code)
    : bool * Z * error_code * W :=
  if s =? invalid_socket then (false, state, bad_descriptor, w)
  else
    let '(result, _, w) := ws_ioctlsocket w s FIONBIO (if v then 1 else 0) in
    let ec := get_last_error w ec (result <? 0) in
    if 0 <=? result then
      (true,
       if v then set_bit state user_set_non_blocking
       else clear_bit state (Z.lor user_set_non_blocking internal_non_blocking), ec, w)
    else (false, state, ec, w).

Definition set_internal_non_blocking (w : W) (s state : Z) (v : bool) (ec : error_code)
    : bool * Z * error_code * W :=
  if s =? invalid_socket then (false, state, bad_descriptor, w)
  else if negb v && has_bit state user_set_non_blocking then (false, state, invalid_argument, w)
  else
    let '(result, _, w) := ws_ioctlsocket w s FIONBIO (if v then 1 else 0) in
    let ec := get_last_error w ec (result <? 0) in
    if 0 <=? result then
      (true, if v then set_bit state internal_non_blocking else clear_bit state internal_non_blocking, ec, w)
    else (false, state, ec, w).

(** [ioctl]: the result, [*arg], the new [state], [ec] and the world. *)
Definition ioctl (w : W) (s state cmd arg : Z) (ec : error_code) : Z * Z * Z * error_code * W :=
  if s =? invalid_socket then (socket_error_retval, arg, state, bad_descriptor, w)
  else
    let '(result, arg, w) := ws_ioctlsocket w s cmd arg in
    let ec := get_last_error w ec (result <? 0) in
    let state :=
      if (0 <=? result) && (cmd =? FIONBIO) then
        if negb (arg =? 0) then set_bit state user_set_non_blocking
        else clear_bit state (Z.lor user_set_non_blocking internal_non_blocking)
      else state in
    (result, arg, state, ec, w).

(** [ec] after an [ioctlsocket] whose error [ENOTTY] says that it is no socket. *)
Definition not_socket_error (w : W) (ec : error_code) (result : Z) : error_code :=
  let ec := get_last_error w ec (result <? 0) in
  if value ec =? ENOTTY then not_socket else ec.

Definition sockatmark (w : W) (s : Z) (ec : error_code) : bool * error_code * W :=
  if s =? invalid_socket then (false, bad_descriptor, w)
  else
    let '(result, v, w) := ws_ioctlsocket w s SIOCATMARK 0 in
    let ec := not_socket_error w ec result in
    (if failed ec then false else negb (v =? 0), ec, w).

Definition available (w : W) (s : Z) (ec : error_code) : Z * error_code * W :=
  if s =? invalid_socket then (0, bad_descriptor, w)
  else
    let '(result, v, w) := ws_ioctlsocket w s FIONREAD 0 in
    let ec := not_socket_error w ec result in
    (if failed ec then 0 else v, ec, w).

(** *** Connecting *)

Definition connect (w : W) (s : Z) (addr : list Z) (ec : error_code) : Z * error_code * W :=
  if s =? invalid_socket then (socket_error_retval, bad_descriptor, w)
  else
    let '(result, w) := ws_connect w s addr in
    (result, get_last_error w ec (negb (result =? 0)), w).

Definition sync_connect (w : W) (s : Z) (addr : list Z) (ec : error_code) : error_code * W :=
  let '(_, ec, w) := connect w s addr ec in
  if negb (bool_decide (ec = in_progress)) && negb (bool_decide (ec = would_block)) then (ec, w)
  else
    let '(r, ec, w) := poll_connect w s (-1) ec in
    if r <? 0 then (ec, w)
    else
      let '(r, optval, ec, w) := getsockopt w s 0 SOL_SOCKET SO_ERROR 4 ec in
      if r =? socket_error_retval then (ec, w)
      else (sys (int_of_bytes optval), w).

(** [complete_iocp_connect] *)
Definition complete_iocp_connect (w : W) (s : Z) (ec : error_code) : error_code * W :=
  let ec :=
    if value ec =? ERROR_CONNECTION_REFUSED then connection_refused
    else if value ec =? ERROR_NETWORK_UNREACHABLE then network_unreachable
    else if value ec =? ERROR_HOST_UNREACHABLE then host_unreachable
    else if value ec =? ERROR_SEM_TIMEOUT then timed_out
    else ec in
  if negb (failed ec) then
    let so_update_connect_context := 28688 in
    let '(_, _, ec, w) := setsockopt w s 0 SOL_SOCKET so_update_connect_context [] ec in (ec, w)
  else (ec, w).

(** *** Receiving *)

(** [recv]: the result, the bytes received, [ec] and the world. *)
Definition recv (w : W) (s : Z) (bufs : list Z) (flags : Z) (ec : error_code) : Z * list Z * error_code * W :=
  let '(result, bytes, w) := WSARecv w s bufs flags in
  let ec := get_last_error w ec true in
  let '(result, ec) :=
    if value ec =? ERROR_NETNAME_DELETED then (result, connection_reset)
    else if value ec =? ERROR_PORT_UNREACHABLE then (result, connection_refused)
    else if (value ec =? WSAEMSGSIZE) || (value ec =? ERROR_MORE_DATA) then (0, ec)
    else (result, ec) in
  if negb (result =? 0) then (socket_error_retval, [], ec, w)
  else (Z.of_nat (length bytes), bytes, clear_error ec, w).

Definition recv1 (w : W) (s size flags : Z) (ec : error_code) : Z * list Z * error_code * W :=
  let '(result, bytes, w) := WSARecv w s [size] flags in
  let ec := get_last_error w ec true in
  let '(result, ec) :=
    if value ec =? ERROR_NETNAME_DELETED then (result, connection_reset)
    else if value ec =? ERROR_PORT_UNREACHABLE then (result, connection_refused)
    else if (value ec =? WSAEMSGSIZE) || (value ec =? ERROR_MORE_DATA) then (0, ec)
    else (result, ec) in
  if negb (result =? 0) then (socket_error_retval, [], ec, w)
  else (Z.of_nat (length bytes), bytes, clear_error ec, w).

Fixpoint sync_recv_loop (fuel : nat) (w : W) (s state : Z) (bufs : list Z) (flags : Z) (ec : error_code)
    : outcome (list Z * error_code * W) :=
  match fuel with
  | O => Fault OutOfFuel
  | S fuel =>
      let '(bytes, data, ec, w) := recv w s bufs flags ec in
      if has_bit state stream_oriented && (bytes =? 0) then Ok ([], eof, w)
      else if 0 <=? bytes then Ok (data, ec, w)
      else if has_bit state user_set_non_blocking || negb (is_would_block ec) then Ok ([], ec, w)
      else
        let '(r, ec, w) := poll_read w s 0 (-1) ec in
        if r <? 0 then Ok ([], ec, w) else sync_recv_loop fuel w s state bufs flags ec
  end.

(** [sync_recv]: the bytes received (their number is the result), [ec] and the world. *)
Definition sync_recv (fuel : nat) (w : W) (s state : Z) (bufs : list Z) (flags : Z) (all_empty : bool)
    (ec : error_code) : outcome (list Z * error_code * W) :=
  if s =? invalid_socket then Ok ([], bad_descriptor, w)
  else if all_empty && has_bit state stream_oriented then Ok ([], clear_error ec, w)
  else sync_recv_loop fuel w s state bufs flags ec.

Fixpoint sync_recv1_loop (fuel : nat) (w : W) (s state size flags : Z) (ec : error_code)
    : outcome (list Z * error_code * W) :=
  match fuel with
  | O => Fault OutOfFuel
  | S fuel =>
      let '(bytes, data, ec, w) := recv1 w s size flags ec in
      if has_bit state stream_oriented && (bytes =? 0) then Ok ([], eof, w)
      else if 0 <=? bytes then Ok (data, ec, w)
      else if has_bit state user_set_non_blocking || negb (is_would_block ec) then Ok ([], ec, w)
      else
        let '(r, ec, w) := poll_read w s 0 (-1) ec in
        if r <? 0 then Ok ([], ec, w) else sync_recv1_loop fuel w s state size flags ec
  end.

Definition sync_recv1 (fuel : nat) (w : W) (s state size flags : Z) (ec : error_code)
    : outcome (list Z * error_code * W) :=
  if s =? invalid_socket then Ok ([], bad_descriptor, w)
  else if (size =? 0) && has_bit state stream_oriented then Ok ([], clear_error ec, w)
  else sync_recv1_loop fuel w s state size flags ec.

(** [complete_iocp_recv]: the error reported for an overlapped receive that
    ended with [ec] and [bytes_transferred]; [expired] is [cancel_token.expired()]. *)
Definition complete_iocp_recv (state : Z) (expired all_empty : bool) (ec : error_code)
    (bytes_transferred : Z) : error_code :=
  if value ec =? ERROR_NETNAME_DELETED then (if expired then operation_aborted else connection_reset)
  else if value ec =? ERROR_PORT_UNREACHABLE then connection_refused
  else if (value ec =? WSAEMSGSIZE) || (value ec =? ERROR_MORE_DATA) then clear_error ec
  else if negb (failed ec) && (bytes_transferred =? 0) && has_bit state stream_oriented && negb all_empty
  then eof
  else ec.

(** *** Sending *)

(** [send]: the result, [ec] and the world. *)
Definition send (w : W) (s : Z) (bufs : list (list Z)) (flags : Z) (ec : error_code) : Z * error_code * W :=
  let '(result, bytes_transferred, w) := WSASend w s bufs flags in
  let ec := get_last_error w ec true in
  let ec :=
    if value ec =? ERROR_NETNAME_DELETED then connection_reset
    else if value ec =? ERROR_PORT_UNREACHABLE then connection_refused else ec in
  if negb (result =? 0) then (socket_error_retval, ec, w)
  else (bytes_transferred, clear_error ec, w).

Definition send1 (w : W) (s : Z) (data : list Z) (flags : Z) (ec : error_code) : Z * error_code * W :=
  let '(result, bytes_transferred, w) := WSASend w s [data] flags in
  let ec := get_last_error w ec true in
  let ec :=
    if value ec =? ERROR_NETNAME_DELETED then connection_reset
    else if value ec =? ERROR_PORT_UNREACHABLE then connection_refused else ec in
  if negb (result =? 0) then (socket_error_retval, ec, w)
  else (bytes_transferred, clear_error ec, w).

Fixpoint sync_send_loop (fuel : nat) (w : W) (s state : Z) (bufs : list (list Z)) (flags : Z) (ec : error_code)
    : outcome (Z * error_code * W) :=
  match fuel with
  | O => Fault OutOfFuel
  | S fuel =>
      let '(bytes, ec, w) := send w s bufs flags ec in
      if 0 <=? bytes then Ok (bytes, ec, w)
      else if has_bit state user_set_non_blocking || negb (is_would_block ec) then Ok (0, ec, w)
      else
        let '(r, ec, w) := poll_write w s 0 (-1) ec in
        if r <? 0 then Ok (0, ec, w) else sync_send_loop fuel w s state bufs flags ec
  end.

Definition sync_send (fuel : nat) (w : W) (s state : Z) (bufs : list (list Z)) (flags : Z) (all_empty : bool)
    (ec : error_code) : outcome (Z * error_code * W) :=
  if s =? invalid_socket then Ok (0, bad_descriptor, w)
  else if all_empty && has_bit state stream_oriented then Ok (0, clear_error ec, w)
  else sync_send_loop fuel w s state bufs flags ec.

Fixpoint sync_send1_loop (fuel : nat) (w : W) (s state : Z) (data : list Z) (flags : Z) (ec : error_code)
    : outcome (Z * error_code * W) :=
  match fuel with
  | O => Fault OutOfFuel
  | S fuel =>
      let '(bytes, ec, w) := send1 w s data flags ec in
      if 0 <=? bytes then Ok (bytes, ec, w)
      else if has_bit state user_set_non_blocking || negb (is_would_block ec) then Ok (0, ec, w)
      else
        let '(r, ec, w) := poll_write w s 0 (-1) ec in
        if r <? 0 then Ok (0, ec, w) else sync_send1_loop fuel w s state data flags ec
  end.

Definition sync_send1 (fuel : nat) (w : W) (s state : Z) (data : list Z) (flags : Z) (ec : error_code)
    : outcome (Z * error_code * W) :=
  if s =? invalid_socket then Ok (0, bad_descriptor, w)
  else if (Z.of_nat (length data) =? 0) && has_bit state stream_oriented then Ok (0, clear_error ec, w)
  else sync_send1_loop fuel w s state data flags ec.

(** [complete_iocp_send] *)
Definition complete_iocp_send (expired : bool) (ec : error_code) : error_code :=
  if value ec =? ERROR_NETNAME_DELETED then (if expired then operation_aborted else connection_reset)
  else if value ec =? ERROR_PORT_UNREACHABLE then connection_refused
  else ec.

End SocketOps.
