(* ===== verification/SocketTheorems.v ===== *)
(** * SocketTheorems: sockets as streams

    From what the operating system promises about its socket calls
    ([WinsockLaws]) the layer of [SocketOps] gives what the composed operations
    of [ComposedIO] need: its synchronous and its overlapped transfers are
    streams, so whole buffers are read and written.  Then the loops that accept
    connections, and the bits that record the blocking mode. *)

From stdpp Require Import base list.
From Stdlib Require Import ZArith Lia.
From S2P Require Import Prelude NetError Buffers ComposedIO SocketOps.
Local Open Scope exchange_scope.
Local Open Scope Z_scope.

(** ** What the socket calls promise

    [inbox] and [outbox] are the bytes a socket has delivered and accepted so
    far.  A call that fails sets an error; one that would block does so only
    finitely often before it succeeds or fails otherwise ([retries]). *)

Definition total_room (bufs : list Z) : Z := sum_by (fun n => n) bufs.

Definition blocks (err : Z) : Prop := err = value would_block \/ err = value try_again.

(** The errors after which [sync_accept] may try again. *)
Definition retryable (err : Z) : Prop := blocks err \/ err = value connection_aborted \/ err = EPROTO.

Class WinsockLaws (W : Type) {HW : Winsock W} : Type := {
  inbox : W -> Z -> list Z;
  outbox : W -> Z -> list Z;
  retries : W -> nat;
  recv_promise w s bufs flags r bytes w' : WSARecv w s bufs flags = (r, bytes, w') -> 0 <= total_room bufs ->
    Z.of_nat (length bytes) <= total_room bufs /\ inbox w' s = inbox w s ++ bytes /\
    (r <> 0 -> WSAGetLastError w' <> 0 /\ (blocks (WSAGetLastError w') -> (retries w' < retries w)%nat) /\
      (WSAGetLastError w' <> WSAEMSGSIZE -> WSAGetLastError w' <> ERROR_MORE_DATA -> bytes = []));
  send_promise w s bufs flags r n w' : WSASend w s bufs flags = (r, n, w') ->
    (r = 0 -> 0 <= n <= Z.of_nat (length (concat bufs)) /\ outbox w' s = outbox w s ++ take (Z.to_nat n) (concat bufs) /\
      (concat bufs <> [] -> 0 < n)) /\
    (r <> 0 -> WSAGetLastError w' <> 0 /\ (blocks (WSAGetLastError w') -> (retries w' < retries w)%nat) /\
      outbox w' s = outbox w s);
  select_promise w s kind timeout r w' : ws_select w s kind timeout = (r, w') ->
    inbox w' s = inbox w s /\ outbox w' s = outbox w s /\ (retries w' <= retries w)%nat /\
    (r < 0 -> WSAGetLastError w' <> 0);
  accept_promise w s new_s addr w' : ws_accept w s = (new_s, addr, w') ->
    new_s = invalid_socket -> WSAGetLastError w' <> 0 /\ (retryable (WSAGetLastError w') -> (retries w' < retries w)%nat) }.

(** ** One call *)

Section Calls.
Context {W : Type} {HW : Winsock W} {HL : WinsockLaws W}.

Lemma failed_sys v : v <> 0 -> failed (sys v) = true.
Proof. intros H. unfold failed. cbn. by apply negb_true_iff, Z.eqb_neq. Qed.

Lemma would_block_blocks ec : is_would_block ec = true -> failed ec = true /\ blocks (value ec).
Proof.
  unfold is_would_block, blocks. intros [H%bool_decide_eq_true|H%bool_decide_eq_true]%orb_true_iff; subst; auto.
Qed.

Lemma recv1_recv w s size flags ec : recv1 w s size flags ec = recv w s [size] flags ec.
Proof. done. Qed.

Lemma recv_spec w s bufs flags ec n data ec' w' : recv w s bufs flags ec = (n, data, ec', w') ->
  0 <= total_room bufs ->
  (n = -1 /\ data = [] /\ failed ec' = true /\ inbox w' s = inbox w s /\
   (is_would_block ec' = true -> (retries w' < retries w)%nat)) \/
  (n = Z.of_nat (length data) /\ failed ec' = false /\ n <= total_room bufs /\ inbox w' s = inbox w s ++ data).
Proof.
  unfold recv. destruct (WSARecv w s bufs flags) as [[r bytes] w1] eqn:Hr. intros H Hroom.
  destruct (recv_promise _ _ _ _ _ _ _ Hr Hroom) as (Hlen & Hin & Hfail). cbn [get_last_error negb sys value] in H.
  assert (forall e : error_code, failed e = true -> (is_would_block e = true -> blocks (WSAGetLastError w1)) ->
    bytes = [] -> r <> 0 -> (socket_error_retval, [], e, w1) = (n, data, ec', w') ->
    (n = -1 /\ data = [] /\ failed ec' = true /\ inbox w' s = inbox w s /\
     (is_would_block ec' = true -> (retries w' < retries w)%nat))) as Hbad.
  { intros e He Hb -> Hne [= <- <- <- <-]. destruct (Hfail Hne) as (_ & Hret & _).
    rewrite Hin, app_nil_r. split_and!; try done. intros Hwb. apply Hret, Hb, Hwb. }
  assert (forall e : error_code, (Z.of_nat (length bytes), bytes, clear_error e, w1) = (n, data, ec', w') ->
    n = Z.of_nat (length data) /\ failed ec' = false /\ n <= total_room bufs /\ inbox w' s = inbox w s ++ data) as Hgood.
  { intros e [= <- <- <- <-]. by split_and!. }
  assert (WSAGetLastError w1 <> WSAEMSGSIZE -> WSAGetLastError w1 <> ERROR_MORE_DATA -> r <> 0 -> bytes = []) as Hnil.
  { intros. by apply Hfail. }
  unfold ERROR_NETNAME_DELETED, ERROR_PORT_UNREACHABLE, WSAEMSGSIZE, ERROR_MORE_DATA in *.
  case_Z_in H; cbn [orb negb] in H; case_Z_in H; cbn [negb] in H; try (right; exact (Hgood _ H)); try lia; left.
  all: refine (Hbad _ _ _ _ _ H); try done; try (apply Hnil; lia).
  - by apply failed_sys, Hfail.
  - intros Hwb. by apply would_block_blocks in Hwb as [_ ?].
Qed.

Lemma poll_spec kind w s msec ec r ec' w' : poll kind w s 0 msec ec = (r, ec', w') ->
  inbox w' s = inbox w s /\ outbox w' s = outbox w s /\ (retries w' <= retries w)%nat /\
  (r < 0 -> failed ec' = true).
Proof.
  unfold poll. destruct (s =? invalid_socket) eqn:Hs; [intros [= <- <- <-]; by split_and!|].
  destruct (ws_select w s kind _) as [r1 w1] eqn:Hsel.
  destruct (select_promise _ _ _ _ _ _ Hsel) as (Hi & Ho & Hret & Herr).
  change (has_bit 0 user_set_non_blocking) with false. rewrite andb_false_r.
  intros [= <- <- <-]. split_and!; try done. intros Hneg.
  apply Z.ltb_lt in Hneg as Hlt. unfold get_last_error. rewrite Hlt. cbn [negb]. by apply failed_sys, Herr.
Qed.

(** ** The receive and send loops *)

Lemma sync_recv1_loop_eq fuel : forall w s state size flags ec,
  sync_recv1_loop fuel w s state size flags ec = sync_recv_loop fuel w s state [size] flags ec.
Proof.
  induction fuel as [|fuel IH]; intros; [done|]. cbn [sync_recv1_loop sync_recv_loop]. rewrite recv1_recv.
  destruct (recv _ _ _ _ _) as [[[n data] ec1] w1]. destruct (_ && _); [done|]. destruct (0 <=? n); [done|].
  destruct (_ || _); [done|]. destruct (poll_read _ _ _ _ _) as [[r ec2] w2]. destruct (r <? 0); [done|]. apply IH.
Qed.

Lemma sync_recv_loop_spec fuel : forall w s state bufs flags ec, has_bit state stream_oriented = true ->
  0 <= total_room bufs -> (retries w < fuel)%nat ->
  exists data ec' w', sync_recv_loop fuel w s state bufs flags ec = Ok (data, ec', w') /\
    Z.of_nat (length data) <= total_room bufs /\ inbox w' s = inbox w s ++ data /\
    (failed ec' = false -> data <> []).
Proof.
  induction fuel as [|fuel IH]; intros w s state bufs flags ec Hst Hroom Hf; [lia|]. cbn [sync_recv_loop].
  destruct (recv w s bufs flags ec) as [[[n data] ec1] w1] eqn:Hr. rewrite Hst. cbn [andb].
  apply recv_spec in Hr as [(-> & -> & Hfail & Hin & Hret)|(-> & Hok & Hlen & Hin)]; [| |done].
  - change (-1 =? 0) with false. change (0 <=? -1) with false. cbn match.
    destruct (has_bit state user_set_non_blocking || negb (is_would_block ec1)) eqn:Hstop.
    + exists [], ec1, w1. cbn. rewrite app_nil_r, Hfail. by split_and!.
    + apply orb_false_iff in Hstop as [_ Hwb%negb_false_iff]. specialize (Hret Hwb).
      destruct (poll_read w1 s 0 (-1) ec1) as [[r ec2] w2] eqn:Hp.
      apply poll_spec in Hp as (Hi2 & _ & Hret2 & Hneg). destruct (r <? 0) eqn:Hr0.
      * apply Z.ltb_lt in Hr0. exists [], ec2, w2. cbn. rewrite app_nil_r, Hneg by done. split_and!; try done. congruence.
      * destruct (IH w2 s state bufs flags ec2 Hst Hroom) as (d & e & w3 & Hrun & Hl & Hi3 & Hne); [lia|].
        exists d, e, w3. split_and!; try done. by rewrite Hi3, Hi2, Hin.
  - destruct (Z.of_nat (length data) =? 0) eqn:Hz.
    + apply Z.eqb_eq in Hz. destruct data; [|cbn in Hz; lia]. exists [], eof, w1. by split_and!.
    + apply Z.eqb_neq in Hz. destruct (0 <=? Z.of_nat (length data)) eqn:Hge; [|apply Z.leb_gt in Hge; lia].
      exists data, ec1, w1. split_and!; try done. intros _ ->. by cbn in Hz.
Qed.

(** A receive that ends with an error has received nothing. *)
Lemma sync_recv_loop_clean fuel : forall w s state bufs flags ec data ec' w',
  sync_recv_loop fuel w s state bufs flags ec = Ok (data, ec', w') -> failed ec' = true -> data = [].
Proof.
  induction fuel as [|fuel IH]; intros w s state bufs flags ec data ec' w'; cbn [sync_recv_loop]; [done|].
  destruct (recv w s bufs flags ec) as [[[n d] ec1] w1] eqn:Hr.
  assert (0 <= n -> failed ec1 = false) as Hok.
  { unfold recv in Hr. destruct (WSARecv w s bufs flags) as [[r b] w2].
    match type of Hr with context [let '(_, _) := ?x in _] => destruct x as [r2 ec2] end.
    destruct (negb (r2 =? 0)); injection Hr as <- _ <- _; [by intros []|done]. }
  destruct (_ && _); [by intros [= <- _ _]|]. destruct (0 <=? n) eqn:Hn.
  - intros [= <- <- <-] Hf. apply Z.leb_le in Hn. rewrite Hok in Hf; done.
  - destruct (_ || _); [by intros [= <- _ _]|]. destruct (poll_read w1 s 0 (-1) ec1) as [[r ec2] w2].
    destruct (r <? 0); [by intros [= <- _ _]|]. apply IH.
Qed.

Lemma send1_send w s data flags ec : send1 w s data flags ec = send w s [data] flags ec.
Proof. done. Qed.

Lemma send_spec w s bufs flags ec n ec' w' : send w s bufs flags ec = (n, ec', w') ->
  (n = -1 /\ failed ec' = true /\ outbox w' s = outbox w s /\
   (is_would_block ec' = true -> (retries w' < retries w)%nat)) \/
  (0 <= n <= Z.of_nat (length (concat bufs)) /\ failed ec' = false /\
   outbox w' s = outbox w s ++ take (Z.to_nat n) (concat bufs) /\ (concat bufs <> [] -> 0 < n)).
Proof.
  unfold send. destruct (WSASend w s bufs flags) as [[r k] w1] eqn:Hs. intros H.
  destruct (send_promise _ _ _ _ _ _ _ Hs) as [Hgood Hbad]. cbn [get_last_error negb sys value] in H.
  destruct (negb (r =? 0)) eqn:Hr.
  - left. apply negb_true_iff, Z.eqb_neq in Hr. destruct (Hbad Hr) as (Herr & Hret & Hout).
    injection H as <- <- <-. split_and!; try done.
    + destruct (_ =? _); [done|]. destruct (_ =? _); [done|]. by apply failed_sys.
    + destruct (_ =? _); [done|]. destruct (_ =? _); [done|]. intros [_ Hb]%would_block_blocks. auto.
  - right. apply negb_false_iff, Z.eqb_eq in Hr. injection H as <- <- <-.
    destruct (Hgood Hr) as (Hk & Hout & Hpos). split_and!; try done; lia.
Qed.

Lemma sync_send1_loop_eq fuel : forall w s state data flags ec,
  sync_send1_loop fuel w s state data flags ec = sync_send_loop fuel w s state [data] flags ec.
Proof.
  induction fuel as [|fuel IH]; intros; [done|]. cbn [sync_send1_loop sync_send_loop]. rewrite send1_send.
  destruct (send _ _ _ _ _) as [[n ec1] w1]. destruct (0 <=? n); [done|].
  destruct (_ || _); [done|]. destruct (poll_write _ _ _ _ _) as [[r ec2] w2]. destruct (r <? 0); [done|]. apply IH.
Qed.

Lemma sync_send_loop_spec fuel : forall w s state bufs flags ec, (retries w < fuel)%nat ->
  exists n ec' w', sync_send_loop fuel w s state bufs flags ec = Ok (n, ec', w') /\
    0 <= n <= Z.of_nat (length (concat bufs)) /\
    outbox w' s = outbox w s ++ take (Z.to_nat n) (concat bufs) /\
    (failed ec' = false -> concat bufs <> [] -> 0 < n).
Proof.
  induction fuel as [|fuel IH]; intros w s state bufs flags ec Hf; [lia|]. cbn [sync_send_loop].
  destruct (send w s bufs flags ec) as [[n ec1] w1] eqn:Hr.
  apply send_spec in Hr as [(-> & Hfail & Hout & Hret)|(Hn & Hok & Hout & Hpos)].
  - change (0 <=? -1) with false. cbn match.
    destruct (has_bit state user_set_non_blocking || negb (is_would_block ec1)) eqn:Hstop.
    + exists 0, ec1, w1. cbn. rewrite app_nil_r, Hfail. split_and!; try done; lia.
    + apply orb_false_iff in Hstop as [_ Hwb%negb_false_iff]. specialize (Hret Hwb).
      destruct (poll_write w1 s 0 (-1) ec1) as [[r ec2] w2] eqn:Hp.
      apply poll_spec in Hp as (_ & Ho2 & Hret2 & Hneg). destruct (r <? 0) eqn:Hr0.
      * apply Z.ltb_lt in Hr0. exists 0, ec2, w2. cbn. rewrite app_nil_r, Hneg by done. split_and!; try done; [lia|congruence].
      * destruct (IH w2 s state bufs flags ec2) as (d & e & w3 & Hrun & Hl & Ho3 & Hne); [lia|].
        exists d, e, w3. split_and!; try done; [lia..|]. by rewrite Ho3, Ho2, Hout.
  - destruct (0 <=? n) eqn:Hge; [|apply Z.leb_gt in Hge; lia]. exists n, ec1, w1. split_and!; try done; lia.
Qed.

End Calls.

(** ** An open stream socket is a stream

    [basic_stream_socket::read_some] and [write_some] on one buffer are
    [sync_recv] and [sync_send] ([win_iocp_socket_service_base::receive] and
    [send]); the loops run until the call no longer blocks, so
    [S (retries w)] turns are enough. *)

Definition open_stream (sock state : Z) : bool :=
  negb (sock =? invalid_socket) && has_bit state stream_oriented.

(** A world in which the socket [sock] with the state bits [state] is open. *)
Record tcp_stream (W : Type) (sock state : Z) : Type := mkTcp {
  ts_world : W;
  ts_open : open_stream sock state = true }.
Arguments mkTcp {W sock state} _ _.
Arguments ts_world {W sock state} _.
Arguments ts_open {W sock state} _.

Section Streams.
Context {W : Type} {HW : Winsock W} {HL : WinsockLaws W} {sock state : Z}.
Implicit Types t : tcp_stream W sock state.

Definition receive t (n : Z) : outcome (list Z * error_code * W) :=
  sync_recv (S (retries (ts_world t))) (ts_world t) sock state [n] 0 (n =? 0) no_error.

Definition transmit t (bytes : list Z) : outcome (Z * error_code * W) :=
  sync_send (S (retries (ts_world t))) (ts_world t) sock state [bytes] 0
    (Z.of_nat (length bytes) =? 0) no_error.

#[export] Instance tcp_read : ReadStream (tcp_stream W sock state) := fun t n =>
  match receive t n with
  | Ok (bytes, ec, w) => (bytes, ec, mkTcp w (ts_open t))
  | Fault _ => ([], invalid_argument, t)
  end.

#[export] Instance tcp_write : WriteStream (tcp_stream W sock state) := fun t bytes =>
  match transmit t bytes with
  | Ok (n, ec, w) => (n, ec, mkTcp w (ts_open t))
  | Fault _ => (0, invalid_argument, t)
  end.

Lemma open_stream_split : open_stream sock state = true ->
  (sock =? invalid_socket) = false /\ has_bit state stream_oriented = true.
Proof. unfold open_stream. intros [H%negb_true_iff ->]%andb_true_iff. done. Qed.

(** The loop of [receive] ends: [Fault] never happens. *)
Lemma receive_spec t n : 0 <= n ->
  exists bytes ec w', receive t n = Ok (bytes, ec, w') /\
    Z.of_nat (length bytes) <= n /\ inbox w' sock = inbox (ts_world t) sock ++ bytes /\
    (failed ec = false -> 0 < n -> bytes <> []).
Proof.
  intros Hn. destruct (open_stream_split (ts_open t)) as [Hs Hst]. unfold receive, sync_recv. rewrite Hs, Hst, andb_true_r.
  destruct (n =? 0) eqn:Hz.
  - apply Z.eqb_eq in Hz. eexists [], _, _. split; [done|]. rewrite app_nil_r. split_and!; try done. lia.
  - assert (total_room [n] = n) as Hroom by (unfold total_room; cbn; lia).
    destruct (sync_recv_loop_spec (S (retries (ts_world t))) (ts_world t) sock state [n] 0 no_error Hst)
      as (d & e & w' & Hrun & Hl & Hi & Hne); [lia..|].
    exists d, e, w'. split_and!; try done; [lia|]. auto.
Qed.

Lemma transmit_spec t bytes :
  exists n ec w', transmit t bytes = Ok (n, ec, w') /\ 0 <= n <= Z.of_nat (length bytes) /\
    outbox w' sock = outbox (ts_world t) sock ++ take (Z.to_nat n) bytes /\
    (failed ec = false -> bytes <> [] -> 0 < n).
Proof.
  destruct (open_stream_split (ts_open t)) as [Hs Hst]. unfold transmit, sync_send. rewrite Hs, Hst, andb_true_r.
  destruct (Z.of_nat (length bytes) =? 0) eqn:Hz.
  - apply Z.eqb_eq in Hz. destruct bytes; [|cbn in Hz; lia].
    eexists 0, _, _. split; [done|]. rewrite app_nil_r. split_and!; try done; lia.
  - assert (concat [bytes] = bytes) as Hc by apply app_nil_r.
    destruct (sync_send_loop_spec (S (retries (ts_world t))) (ts_world t) sock state [bytes] 0 no_error)
      as (d & e & w' & Hrun & Hl & Ho & Hne); [lia|].
    rewrite Hc in *. exists d, e, w'. split_and!; try done; lia.
Qed.

#[export, program] Instance tcp_read_laws : ReadStreamLaws (tcp_stream W sock state) := {
  received t := inbox (ts_world t) sock }.
Next Obligation.
  unfold read_some, tcp_read. intros t n bytes ec t' H Hn.
  destruct (receive_spec t n Hn) as (b & e & w' & Hr & Hl & Hi & Hne). rewrite Hr in H.
  injection H as <- <- <-. by split_and!.
Qed.
Next Obligation.
  unfold read_some, tcp_read, receive, sync_recv. intros t.
  destruct (open_stream_split (ts_open t)) as [-> ->]. cbn. by destruct t.
Qed.

#[export] Instance tcp_read_clean : CleanErrors (tcp_stream W sock state).
Proof using.
  intros t n bytes ec t' H Hn Hf. unfold read_some, tcp_read, receive, sync_recv in H.
  destruct (open_stream_split (ts_open t)) as [Hs Hst]. rewrite Hs, Hst, andb_true_r in H.
  destruct (n =? 0); [injection H as <- _ _; done|].
  destruct (sync_recv_loop _ _ _ _ _ _ _) as [[[d e] w]|] eqn:Hl; [|by injection H as <- _ _].
  injection H as <- <- _. by apply (sync_recv_loop_clean _ _ _ _ _ _ _ _ _ _ Hl).
Qed.

#[export, program] Instance tcp_write_laws : WriteStreamLaws (tcp_stream W sock state) := {
  sent t := outbox (ts_world t) sock }.
Next Obligation.
  unfold write_some, tcp_write. intros t bytes n ec t' H.
  destruct (transmit_spec t bytes) as (b & e & w' & Hr & Hl & Ho & Hne). rewrite Hr in H.
  injection H as <- <- <-. split_and!; try done; lia.
Qed.
Next Obligation.
  unfold write_some, tcp_write, transmit, sync_send. intros t.
  destruct (open_stream_split (ts_open t)) as [-> ->]. cbn. by destruct t.
Qed.

End Streams.

(** ** Accepting *)

Section Accepting.
Context {W : Type} {HW : Winsock W} {HL : WinsockLaws W}.

Lemma accept_spec w s ec new_s addr ec' w' : accept w s ec = (new_s, addr, ec', w') -> s <> invalid_socket ->
  (new_s <> invalid_socket /\ failed ec' = false) \/
  (new_s = invalid_socket /\ failed ec' = true /\ category ec' = system_category /\
   (retryable (value ec') -> (retries w' < retries w)%nat)).
Proof.
  unfold accept. intros H Hs. apply Z.eqb_neq in Hs as Hs'. rewrite Hs' in H.
  destruct (ws_accept w s) as [[n a] w1] eqn:Ha. pose proof (accept_promise _ _ _ _ _ Ha) as Hp.
  case_Z_in H; injection H as <- <- <- <-; [|by left].
  destruct (Hp Ht) as [He Hr]. right. unfold get_last_error. cbn [negb value category sys].
  split_and!; try done. by apply failed_sys.
Qed.

(** The last call of the run was a [select] on the listening socket that failed: it
    ended in the world [w'] with the error [ec]. *)
Definition select_failed (s : Z) (ec : error_code) (w' : W) : Prop :=
  exists w r, ws_select w s Readable None = (r, w') /\ r < 0 /\ value ec = WSAGetLastError w'.

(** What a call that accepted nothing may report. *)
Record accept_error (s state : Z) (ec : error_code) (w' : W) : Prop := mkAcceptError {
  ae_failed : failed ec = true;
  ae_blocks : blocks (value ec) -> has_bit state user_set_non_blocking = true \/ select_failed s ec w';
  ae_aborted : value ec = value connection_aborted \/ value ec = EPROTO ->
    has_bit state enable_connection_aborted = true \/ select_failed s ec w' }.

Lemma poll_read_failed w s ec r ec' w' : poll_read w s 0 (-1) ec = (r, ec', w') -> s <> invalid_socket ->
  r < 0 -> select_failed s ec' w'.
Proof.
  unfold poll_read, poll. intros H Hs. apply Z.eqb_neq in Hs. rewrite Hs in H.
  destruct (ws_select w s Readable _) as [r1 w1] eqn:Hsel. injection H as <- <- <-. intros Hr.
  exists w, r1. split_and!; [done..|]. by rewrite (proj2 (Z.ltb_lt r1 0) Hr), andb_false_r.
Qed.

Lemma system_value_eq ec v : category ec = system_category -> value ec = v -> ec = sys v.
Proof. destruct ec as [c x]. cbn. by intros -> ->. Qed.

Lemma is_would_block_iff ec : category ec = system_category -> is_would_block ec = true <-> blocks (value ec).
Proof.
  intros Hc. split; [by intros [_ ?]%would_block_blocks|]. unfold is_would_block.
  intros [H|H]; apply (system_value_eq _ _ Hc) in H; by rewrite H.
Qed.

Definition accepted (s state : Z) (r : outcome (Z * list Z * error_code * W)) : Prop :=
  exists new_s addr ec' w', r = Ok (new_s, addr, ec', w') /\
    ((new_s <> invalid_socket /\ failed ec' = false) \/ (new_s = invalid_socket /\ accept_error s state ec' w')).

(** Waiting for the socket, then trying again. *)
Lemma accept_wait w s state addr ec (again : W -> error_code -> outcome (Z * list Z * error_code * W)) :
  s <> invalid_socket -> (forall w' ec', (retries w' <= retries w)%nat -> accepted s state (again w' ec')) ->
  accepted s state (let '(r, ec, w) := poll_read w s 0 (-1) ec in
    if r <? 0 then Ok (invalid_socket, addr, ec, w) else again w ec).
Proof.
  intros Hs IH. destruct (poll_read w s 0 (-1) ec) as [[r ec1] w1] eqn:Hp. case_Z.
  - pose proof (poll_read_failed _ _ _ _ _ _ Hp Hs Ht) as Hsel. apply poll_spec in Hp as (_ & _ & _ & Hneg).
    exists invalid_socket, addr, ec1, w1. split; [done|]. right. split; [done|]. constructor; auto.
  - apply IH. by apply poll_spec in Hp as (_ & _ & ? & _).
Qed.

Lemma accept_stops w s state addr ec : failed ec = true ->
  (blocks (value ec) -> has_bit state user_set_non_blocking = true) ->
  (value ec = value connection_aborted \/ value ec = EPROTO -> has_bit state enable_connection_aborted = true) ->
  accepted s state (Ok (invalid_socket, addr, ec, w)).
Proof. intros Hf Hb Ha. exists invalid_socket, addr, ec, w. split; [done|]. right. split; [done|]. constructor; auto. Qed.

Lemma sync_accept_spec fuel : forall w s state ec, s <> invalid_socket -> (retries w < fuel)%nat ->
  accepted s state (sync_accept fuel w s state ec).
Proof.
  induction fuel as [|fuel IH]; intros w s state ec Hs Hf; [lia|]. cbn [sync_accept].
  destruct (accept w s ec) as [[[new_s addr] ec1] w1] eqn:Ha.
  apply accept_spec in Ha as [[Hn Hok]|(-> & Hfail & Hcat & Hret)]; [| |done].
  { apply Z.eqb_neq in Hn as Hn'. rewrite Hn'. exists new_s, addr, ec1, w1. split; [done|]. by left. }
  rewrite Z.eqb_refl. cbn [negb]. unfold retryable in Hret.
  assert (forall w' ec', (retries w1 < retries w)%nat -> (retries w' <= retries w1)%nat ->
    accepted s state (sync_accept fuel w' s state ec')) as Hagain by (intros; apply IH; [done|lia]).
  destruct (is_would_block ec1) eqn:Hwb.
  { apply (is_would_block_iff _ Hcat) in Hwb as Hb. destruct (has_bit state user_set_non_blocking) eqn:Hu.
    - apply accept_stops; [done..|]. by intros [E|E]; destruct Hb as [E'|E']; rewrite E in E'.
    - apply accept_wait; auto. }
  assert (~ blocks (value ec1)) as Hnb by (intros H%(is_would_block_iff _ Hcat); congruence).
  assert (forall b, (value ec1 = value connection_aborted \/ value ec1 = EPROTO) ->
    b = has_bit state enable_connection_aborted ->
    accepted s state (if b then Ok (invalid_socket, addr, ec1, w1) else
      let '(r, ec, w) := poll_read w1 s 0 (-1) ec1 in
      if r <? 0 then Ok (invalid_socket, addr, ec, w) else sync_accept fuel w s state ec)) as Hab.
  { intros [] Hv Hb; [by apply accept_stops|]. apply accept_wait; [done|]. intros. apply Hagain; [|done]. apply Hret. tauto. }
  destruct (bool_decide (ec1 = connection_aborted)) eqn:Hc.
  { apply bool_decide_eq_true in Hc. apply Hab; [|done]. left. by rewrite Hc. }
  destruct (value ec1 =? EPROTO) eqn:Hp; [apply Hab; [|done]; right; by apply Z.eqb_eq|].
  apply bool_decide_eq_false in Hc. apply Z.eqb_neq in Hp.
  apply accept_stops; [done..|]. intros [E|E]; [|done]. destruct Hc. by apply system_value_eq.
Qed.

End Accepting.

(** ** The blocking mode

    [kernel_nb] is the mode the operating system holds for a socket. *)

Class FionbioLaws (W : Type) {HW : Winsock W} : Type := {
  kernel_nb : W -> Z -> bool;
  ioctl_promise w s cmd arg r arg' w' : ws_ioctlsocket w s cmd arg = (r, arg', w') ->
    kernel_nb w' s = (if (0 <=? r) && (cmd =? FIONBIO) then negb (arg' =? 0) else kernel_nb w s) /\
    (cmd = FIONBIO -> arg' = arg);
  setsockopt_promise w s level name val r w' : ws_setsockopt w s level name val = (r, w') ->
    kernel_nb w' s = kernel_nb w s }.

(** The calls of a program that concern the state bits. *)
Inductive mode_call : Type :=
  | SetUser (v : bool)
  | SetInternal (v : bool)
  | Ioctl (cmd arg : Z)
  | SetOption (level optname : Z) (optval : list Z).

Section Modes.
Context {W : Type} {HW : Winsock W} {HF : FionbioLaws W}.

Definition mode_step (s : Z) (st : Z * W) (c : mode_call) : Z * W :=
  let '(state, w) := st in
  match c with
  | SetUser v => let '(_, state, _, w) := set_user_non_blocking w s state v no_error in (state, w)
  | SetInternal v => let '(_, state, _, w) := set_internal_non_blocking w s state v no_error in (state, w)
  | Ioctl cmd arg => let '(_, _, state, _, w) := ioctl w s state cmd arg no_error in (state, w)
  | SetOption level optname optval =>
      let '(_, state, _, w) := setsockopt w s state level optname optval no_error in (state, w)
  end.

Definition mode_exact (s : Z) (st : Z * W) : Prop :=
  is_u8 st.1 /\ has_bit st.1 non_blocking = kernel_nb st.2 s.

(** Facts about the bits of a byte, by going through the bytes. *)
Lemma byte_cases (P : Z -> bool) : forallb P (seqZ 0 256) = true -> forall z, is_u8 z -> P z = true.
Proof.
  intros H z Hz. rewrite forallb_forall in H. apply H. apply list_elem_of_In, elem_of_seqZ. unfold is_u8 in Hz. lia.
Qed.

Definition mode_bits (z : Z) : bool :=
  has_bit (set_bit z user_set_non_blocking) non_blocking
  && negb (has_bit (clear_bit z (Z.lor user_set_non_blocking internal_non_blocking)) non_blocking)
  && has_bit (set_bit z internal_non_blocking) non_blocking
  && (has_bit z user_set_non_blocking || negb (has_bit (clear_bit z internal_non_blocking) non_blocking))
  && Bool.eqb (has_bit (set_bit z enable_connection_aborted) non_blocking) (has_bit z non_blocking)
  && Bool.eqb (has_bit (clear_bit z enable_connection_aborted) non_blocking) (has_bit z non_blocking)
  && Bool.eqb (has_bit (set_bit z user_set_linger) non_blocking) (has_bit z non_blocking)
  && Bool.eqb (has_bit (set_bit z user_set_non_blocking) stream_oriented) (has_bit z stream_oriented).

Lemma mode_bits_all z : is_u8 z -> mode_bits z = true.
Proof. apply byte_cases. vm_compute. reflexivity. Qed.

Lemma set_bit_u8 z b : is_u8 (set_bit z b).
Proof. unfold is_u8, set_bit, u8. apply Z.mod_pos_bound. lia. Qed.

Lemma clear_bit_u8 z b : is_u8 (clear_bit z b).
Proof. unfold is_u8, clear_bit, u8. apply Z.mod_pos_bound. lia. Qed.

(** The bits after each change of the state, from [mode_bits]. *)
Lemma mode_bits_split z : is_u8 z ->
  has_bit (set_bit z user_set_non_blocking) non_blocking = true /\
  has_bit (clear_bit z (Z.lor user_set_non_blocking internal_non_blocking)) non_blocking = false /\
  has_bit (set_bit z internal_non_blocking) non_blocking = true /\
  (has_bit z user_set_non_blocking = false ->
   has_bit (clear_bit z internal_non_blocking) non_blocking = false) /\
  (forall b, b = enable_connection_aborted \/ b = user_set_linger ->
   has_bit (set_bit z b) non_blocking = has_bit z non_blocking) /\
  has_bit (clear_bit z enable_connection_aborted) non_blocking = has_bit z non_blocking.
Proof.
  intros Hz%mode_bits_all. unfold mode_bits in Hz. rewrite !andb_true_iff in Hz.
  destruct Hz as (((((((H1 & H2) & H3) & H4) & H5) & H6) & H7) & _).
  rewrite negb_true_iff in H2. rewrite Bool.eqb_true_iff in H5, H6, H7.
  split_and!; try done.
  - intros Hu. rewrite Hu in H4. by apply negb_true_iff.
  - by intros b [->| ->].
Qed.

Lemma fionbio_mode w s v r arg w' : ws_ioctlsocket w s FIONBIO v = (r, arg, w') ->
  kernel_nb w' s = if 0 <=? r then negb (v =? 0) else kernel_nb w s.
Proof.
  intros H. destruct (ioctl_promise _ _ _ _ _ _ _ H) as [-> Harg]. rewrite Z.eqb_refl, andb_true_r, Harg by done. done.
Qed.

Lemma mode_step_exact s st c : mode_exact s st -> mode_exact s (mode_step s st c).
Proof.
  destruct st as [state w]. intros [Hu8 Hk]. cbn [fst snd] in *.
  destruct (mode_bits_split state Hu8) as (B1 & B2 & B3 & B4 & B5 & B6).
  assert (mode_exact s (state, w)) as Hsame by done. unfold mode_step.
  destruct c as [v|v|cmd arg|level optname optval].
  - unfold set_user_non_blocking. destruct (s =? invalid_socket); [done|].
    destruct (ws_ioctlsocket _ _ _ _) as [[r a] w'] eqn:Hi. apply fionbio_mode in Hi.
    destruct (0 <=? r); split; cbn [fst snd]; try congruence.
    + destruct v; auto using set_bit_u8, clear_bit_u8.
    + rewrite Hi. by destruct v.
  - unfold set_internal_non_blocking. destruct (s =? invalid_socket); [done|].
    destruct (negb v && has_bit state user_set_non_blocking) eqn:Hv; [done|].
    destruct (ws_ioctlsocket _ _ _ _) as [[r a] w'] eqn:Hi. apply fionbio_mode in Hi.
    destruct (0 <=? r); split; cbn [fst snd]; try congruence.
    + destruct v; auto using set_bit_u8, clear_bit_u8.
    + rewrite Hi. destruct v; [done|]. by apply B4.
  - unfold ioctl. destruct (s =? invalid_socket); [done|].
    destruct (ws_ioctlsocket _ _ _ _) as [[r a] w'] eqn:Hi.
    destruct (ioctl_promise _ _ _ _ _ _ _ Hi) as [Hw _].
    destruct ((0 <=? r) && (cmd =? FIONBIO)); split; cbn [fst snd]; try congruence.
    + destruct (negb (a =? 0)); auto using set_bit_u8, clear_bit_u8.
    + rewrite Hw. by destruct (negb (a =? 0)).
  - unfold setsockopt. destruct (s =? invalid_socket); [done|]. destruct (_ && _); [done|]. destruct (_ && _).
    { destruct (negb (Z.of_nat (length optval) =? 4)); [done|].
      destruct (negb _); split; cbn [fst snd]; auto using set_bit_u8, clear_bit_u8; [|congruence].
      rewrite B5; auto. }
    destruct (ws_setsockopt _ _ _ _ _) as [r w'] eqn:Ho. apply setsockopt_promise with (s := s) in Ho.
    destruct (_ && _); split; cbn [fst snd]; auto using set_bit_u8; [|congruence]. rewrite B5; [congruence|auto].
Qed.

End Modes.

(** ** A concrete world

    One connection: the peer sends [dw_pending] and closes, the network moves at
    most [S dw_chunk] bytes a call, the first [dw_busy] calls would block. *)

Record demo_world : Type := mkDemoWorld {
  dw_error : Z;
  dw_busy : nat;
  dw_chunk : nat;
  dw_pending : list Z;
  dw_inbox : list Z;
  dw_outbox : list Z;
  dw_nb : bool }.

Definition demo_blocked (w : demo_world) (busy : nat) : demo_world :=
  mkDemoWorld (value would_block) busy (dw_chunk w) (dw_pending w) (dw_inbox w) (dw_outbox w) (dw_nb w).

#[export] Instance demo_winsock : Winsock demo_world := {
  WSAGetLastError := dw_error;
  WSARecv w s bufs flags :=
    match dw_busy w with
    | S busy => (-1, [], demo_blocked w busy)
    | O =>
        let k := Nat.min (Z.to_nat (total_room bufs)) (S (dw_chunk w)) in
        let bytes := take k (dw_pending w) in
        (0, bytes, mkDemoWorld 0 0 (dw_chunk w) (drop k (dw_pending w)) (dw_inbox w ++ bytes) (dw_outbox w) (dw_nb w))
    end;
  WSASend w s bufs flags :=
    match dw_busy w with
    | S busy => (-1, 0, demo_blocked w busy)
    | O =>
        let k := Nat.min (length (concat bufs)) (S (dw_chunk w)) in
        (0, Z.of_nat k, mkDemoWorld 0 0 (dw_chunk w) (dw_pending w) (dw_inbox w)
                          (dw_outbox w ++ take k (concat bufs)) (dw_nb w))
    end;
  ws_select w s kind timeout := (1, w);
  ws_accept w s :=
    match dw_busy w with
    | S busy => (invalid_socket, [], demo_blocked w busy)
    | O => (77, [127; 0; 0; 1], w)
    end;
  ws_bind w s addr := (0, w);
  ws_listen w s backlog := (0, w);
  ws_connect w s addr := (0, w);
  ws_shutdown w s what := (0, w);
  ws_closesocket w s := (0, w);
  ws_ioctlsocket w s cmd arg :=
    (0, arg,
     if cmd =? FIONBIO
     then mkDemoWorld (dw_error w) (dw_busy w) (dw_chunk w) (dw_pending w) (dw_inbox w) (dw_outbox w) (negb (arg =? 0))
     else w);
  ws_setsockopt w s level name val := (0, w);
  ws_getsockopt w s level name len := (0, [0; 0; 0; 0], w) }.

#[export, program] Instance demo_laws : WinsockLaws demo_world := {
  inbox w s := dw_inbox w;
  outbox w s := dw_outbox w;
  retries := dw_busy }.
Next Obligation.
  intros w s bufs flags r bytes w' H Hroom. unfold WSARecv, demo_winsock in H.
  destruct (dw_busy w) as [|busy] eqn:Hb; injection H as <- <- <-; cbn.
  - split_and!; [rewrite length_take; lia|done|done].
  - rewrite app_nil_r. split_and!; [lia|done|]. intros _. split_and!; [done|intros _; lia|done].
Qed.
Next Obligation.
  intros w s bufs flags r n w' H. unfold WSASend, demo_winsock in H.
  destruct (dw_busy w) as [|busy] eqn:Hb; injection H as <- <- <-; cbn.
  - split; [|done]. intros _. rewrite Nat2Z.id. split_and!; [lia..|done|].
    intros Hne. destruct (concat bufs); [done|]. cbn [length]. lia.
  - split; [done|]. intros _. split_and!; [done|intros _; lia|done].
Qed.
Next Obligation. intros w s kind timeout r w' H. injection H as <- <-. split_and!; try done. Qed.
Next Obligation.
  intros w s new_s addr w' H. unfold ws_accept, demo_winsock in H.
  destruct (dw_busy w) as [|busy] eqn:Hb; injection H as <- <- <-; cbn; [done|].
  intros _. split; [done|]. intros _. lia.
Qed.

#[export, program] Instance demo_fionbio : FionbioLaws demo_world := { kernel_nb w s := dw_nb w }.
Next Obligation.
  intros w s cmd arg r arg' w' H. injection H as <- <- <-. cbn. by destruct (cmd =? FIONBIO).
Qed.
Next Obligation. intros w s level name val r w' H. by injection H as _ <-. Qed.

(** ** Theorems *)

(** [asio::read] on an open stream socket, as the client calls it: whatever
    the socket layer does (short receives, calls that would block, errors), the
    call returns; it returns the size exactly when the buffer was filled with the
    next [size] bytes the socket delivered, and otherwise throws an error; the
    bytes delivered are stored in order and no other memory changes. *)
Theorem socket_read_whole {W} `{WinsockLaws W} {sock state : Z} (t : tcp_stream W sock state) (b : buffer) (m : mem)
    (fuel : nat) (Hb : wf_buffer b) (Hfuel : (Z.to_nat (size_ b) + 2 <= fuel)%nat) :
  exists res m' t' bytes,
    read_all fuel (new_consuming_single_buffer b) m t = Ok (res, m', t') /\
    inbox (ts_world t') sock = inbox (ts_world t) sock ++ bytes /\
    gather (take (length bytes) (addrs b)) m' = bytes /\
    (forall a, a ∉ take (length bytes) (addrs b) -> m' !! a = m !! a) /\
    match res with
    | inr n => n = size_ b /\ Z.of_nat (length bytes) = size_ b
    | inl ec => failed ec = true /\ Z.of_nat (length bytes) <= size_ b
    end.
Proof.
  destruct (read_single b m t fuel Hb Hfuel) as (ec & bytes & t' & Hrun & _ & Hr & Hl & Hg & Hok & _).
  unfold read_all. ok_step Hrun. eexists _, _, t', bytes. split; [done|]. split; [done|]. split; [done|].
  split; [intros; by apply scatter_other|]. destruct (failed ec) eqn:Hec; [done|]. specialize (Hok eq_refl). lia.
Qed.

Lemma socket_read_whole_witness :
  let w := mkDemoWorld 0 3 2 [1; 2; 3; 4; 5; 6; 7; 8; 9] [] [] false in
  let t := @mkTcp demo_world 5 16 w eq_refl in
  exists res m' t' bytes,
    read_all 9 (new_consuming_single_buffer (mkBuffer 1000 7)) ∅ t = Ok (res, m', t') /\
    inbox (ts_world t') 5 = inbox (ts_world t) 5 ++ bytes /\
    gather (take (length bytes) (addrs (mkBuffer 1000 7))) m' = bytes /\
    (forall a, a ∉ take (length bytes) (addrs (mkBuffer 1000 7)) -> m' !! a = (∅ : mem) !! a) /\
    match res with
    | inr n => n = 7 /\ Z.of_nat (length bytes) = 7
    | inl ec => failed ec = true /\ Z.of_nat (length bytes) <= 7
    end.
Proof.
  intros w t. apply (socket_read_whole t (mkBuffer 1000 7) ∅ 9); [unfold wf_buffer, is_u64; cbn [size_]; lia|cbn [size_]; lia].
Defined.

(** [asio::write] on an open stream socket returns; without an error the
    socket accepted exactly the bytes of the buffer, in order, after all it had
    accepted before, and with an error a prefix of them. *)
Theorem socket_write_whole {W} `{WinsockLaws W} {sock state : Z} (t : tcp_stream W sock state) (b : buffer) (m : mem)
    (fuel : nat) (Hb : wf_buffer b) (Hfuel : (Z.to_nat (size_ b) + 2 <= fuel)%nat) :
  exists res t',
    write_all fuel (new_consuming_single_buffer b) m t = Ok (res, t') /\
    match res with
    | inr n => n = size_ b /\ outbox (ts_world t') sock = outbox (ts_world t) sock ++ gather (addrs b) m
    | inl ec => failed ec = true /\
        exists k, outbox (ts_world t') sock = outbox (ts_world t) sock ++ take k (gather (addrs b) m)
    end.
Proof.
  destruct (write_single b m t fuel Hb Hfuel) as (ec & k & t' & Hrun & _ & Hr & Hl & Hok).
  unfold write_all. ok_step Hrun. eexists _, t'. split; [done|].
  destruct (failed ec) eqn:Hec; [split; [done|by exists k]|]. specialize (Hok eq_refl). split; [lia|].
  rewrite take_ge in Hr; [done|]. rewrite length_gather, length_addrs. lia.
Qed.

Lemma socket_write_whole_witness :
  let w := mkDemoWorld 0 1 0 [] [] [9] false in
  let t := @mkTcp demo_world 5 16 w eq_refl in
  let m : mem := <[ 100 := 7 ]> (<[ 101 := 8 ]> ∅) in
  exists res t',
    write_all 4 (new_consuming_single_buffer (mkBuffer 100 2)) m t = Ok (res, t') /\
    match res with
    | inr n => n = 2 /\ outbox (ts_world t') 5 = outbox (ts_world t) 5 ++ gather (addrs (mkBuffer 100 2)) m
    | inl ec => failed ec = true /\
        exists k, outbox (ts_world t') 5 = outbox (ts_world t) 5 ++ take k (gather (addrs (mkBuffer 100 2)) m)
    end.
Proof.
  intros w t m. apply (socket_write_whole t (mkBuffer 100 2) m 4); [unfold wf_buffer, is_u64; cbn [size_]; lia|cbn [size_]; lia].
Defined.

(** Accepting a connection on an open listening socket returns a socket
    without an error, or no socket with one.  Then "would block" is reported only
    when the user made the socket non-blocking, and an aborted connection only
    when the user asked for that error: otherwise the call has waited and tried
    again (unless the wait itself failed). *)
Theorem sync_accept_result {W} `{WinsockLaws W} (w : W) (s state : Z) (ec : error_code)
    (Hs : s <> invalid_socket) :
  exists new_s addr ec' w',
    sync_accept (S (retries w)) w s state ec = Ok (new_s, addr, ec', w') /\
    ((new_s <> invalid_socket /\ failed ec' = false) \/
     (new_s = invalid_socket /\ accept_error s state ec' w')).
Proof. apply sync_accept_spec; [done|lia]. Qed.

Lemma sync_accept_result_witness :
  let w := mkDemoWorld 0 3 0 [] [] [] false in
  exists new_s addr ec' w',
    sync_accept (S (retries w)) w 5 16 no_error = Ok (new_s, addr, ec', w') /\
    ((new_s <> invalid_socket /\ failed ec' = false) \/
     (new_s = invalid_socket /\ accept_error 5 16 ec' w')).
Proof. intros w. apply (sync_accept_result w 5 16 no_error). by vm_compute. Defined.

(** The state bits know the blocking mode: after any sequence of calls that
    set it, by the user or by the library, or that set options, and with any of
    them failing, one of the two non-blocking bits is set exactly when the
    operating system holds the socket in non-blocking mode. *)
Theorem blocking_mode_exact {W} `{FionbioLaws W} (w : W) (s state : Z) (calls : list mode_call)
    (Hu8 : is_u8 state) (Hstart : has_bit state non_blocking = kernel_nb w s) :
  mode_exact s (fold_left (mode_step s) calls (state, w)).
Proof.
  assert (mode_exact s (state, w)) as Hinit by done. revert Hinit. generalize (state, w). clear.
  induction calls as [|c calls IH]; intros st Hst; [done|]. cbn. by apply IH, mode_step_exact.
Qed.

Lemma blocking_mode_exact_witness :
  let w := mkDemoWorld 0 0 0 [] [] [] false in
  mode_exact 5 (fold_left (mode_step 5)
    [SetInternal true; SetUser true; SetInternal false; Ioctl FIONBIO 0; SetOption SOL_SOCKET SO_LINGER [1]; SetUser true]
    (16, w)).
Proof.
  intros w. apply (blocking_mode_exact w 5 16); [unfold is_u8; lia|reflexivity].
Defined.
