(* ===== verification/IocpSocket.v ===== *)
(** * IocpSocket: sockets on the completion port

    [asio/detail/impl/win_iocp_socket_service_base.ipp] and [.hpp],
    [asio/detail/win_iocp_socket_recv_op.hpp], [.._send_op.hpp], [.._accept_op.hpp],
    [asio/detail/socket_holder.hpp]: the service between a [tcp::socket] or
    [tcp::acceptor] and the two layers below, the socket calls of [SocketOps] and
    the event loop of [IocpContext].  A start function tells the loop what it did
    with the operation ([loop_call]); the completion functions turn the result the
    loop hands back into the handler's arguments. *)

From stdpp Require Import base list.
From Stdlib Require Import ZArith Lia.
From S2P Require Import Prelude NetError SocketOps.
Local Open Scope Z_scope.

(** ** Definitions *)

Definition WSA_IO_PENDING : Z := 997.
Definition AF_INET6 : Z := 23.
Definition SOCK_STREAM : Z := 1.
Definition SOCK_DGRAM : Z := 2.
Definition SO_UPDATE_ACCEPT_CONTEXT : Z := 28683.

(** The overlapped calls of the operating system: the result of the call and the
    number of bytes it reports at once; [ws_create_port] is
    [CreateIoCompletionPort] on a handle (0 when it fails), [ws_remote_addr] is the
    peer's address in the buffer [AcceptEx] filled. *)
Class Overlapped (W : Type) : Type := {
  ws_socket : W -> Z -> Z -> Z -> Z * W;
  ws_create_port : W -> Z -> Z * W;
  ws_send_overlapped : W -> Z -> list (list Z) -> Z -> Z * Z * W;
  ws_recv_overlapped : W -> Z -> list Z -> Z -> Z * Z * W;
  ws_accept_ex : W -> Z -> Z -> Z * W;
  ws_remote_addr : W -> Z -> list Z }.

(** What a start function tells the event loop about its operation. *)
Inductive loop_call : Type :=
  | WorkStarted
  | OnCompletion (ec : error_code) (bytes_transferred : Z)
  | OnPending
  | CancelIoEx.

(** [base_implementation_type]: the socket, its state bits and whether
    [cancel_token_] is set. *)
Record base_implementation_type : Type := mkImpl {
  socket_ : Z;
  state_ : Z;
  cancel_token_ : bool }.

Definition is_open (impl : base_implementation_type) : bool := negb (socket_ impl =? invalid_socket).

(** [construct] *)
Definition new_impl : base_implementation_type := mkImpl invalid_socket 0 false.

(** [base_move_construct]: the new implementation and what is left of the other. *)
Definition base_move_construct (other : base_implementation_type)
    : base_implementation_type * base_implementation_type := (other, new_impl).

Section Service.
Context {W : Type} {HW : Winsock W} {HO : Overlapped W}.

(** [socket_ops::socket] *)
Definition socket (w : W) (af type protocol : Z) (ec : error_code) : Z * error_code * W :=
  let '(s, w) := ws_socket w af type protocol in
  let ec := get_last_error w ec (s =? invalid_socket) in
  if s =? invalid_socket then (s, ec, w)
  else if af =? AF_INET6 then
    let '(_, w) := ws_setsockopt w s IPPROTO_IPV6 IPV6_V6ONLY [0; 0; 0; 0] in (s, ec, w)
  else (s, ec, w).

(** [win_iocp_io_context::register_handle] *)
Definition register_handle (w : W) (handle : Z) : error_code * W :=
  let '(port, w) := ws_create_port w handle in
  if port =? 0 then (sys (WSAGetLastError w), w) else (no_error, w).

(** *** Holding a socket *)

(** [socket_holder::reset], also its destructor *)
Definition holder_reset (w : W) (holder : Z) : Z * W :=
  if negb (holder =? invalid_socket) then
    let '(_, _, _, w) := close w holder 0 true no_error in (invalid_socket, w)
  else (holder, w).

(** [socket_holder::reset(s)] *)
Definition holder_set (w : W) (holder s : Z) : Z * W := let '(_, w) := holder_reset w holder in (s, w).

(** *** Opening and closing *)

(** The state bits for a type of socket. *)
Definition type_state (type : Z) : Z :=
  if type =? SOCK_STREAM then stream_oriented
  else if type =? SOCK_DGRAM then datagram_oriented else 0.

Definition do_open (w : W) (impl : base_implementation_type) (family type protocol : Z) (ec : error_code)
    : base_implementation_type * error_code * W :=
  if is_open impl then (impl, already_open, w)
  else
    let '(sock, ec, w) := socket w family type protocol ec in
    if sock =? invalid_socket then (impl, ec, w)
    else
      let '(ec, w) := register_handle w sock in
      if failed ec then let '(_, w) := holder_reset w sock in (impl, ec, w)
      else (mkImpl sock (type_state type) true, no_error, w).

Definition do_assign (w : W) (impl : base_implementation_type) (type native_socket : Z)
    : base_implementation_type * error_code * W :=
  if is_open impl then (impl, already_open, w)
  else
    let '(ec, w) := register_handle w native_socket in
    if failed ec then (impl, ec, w)
    else (mkImpl native_socket (type_state type) true, no_error, w).

(** [close] and [close_for_destruction], when no operation used the reactor. *)
Definition service_close (w : W) (impl : base_implementation_type) (ec : error_code)
    : base_implementation_type * error_code * W :=
  let '(ec, w) :=
    if is_open impl then let '(_, _, ec, w) := close w (socket_ impl) (state_ impl) false ec in (ec, w)
    else (no_error, w) in
  (new_impl, ec, w).

Definition close_for_destruction (w : W) (impl : base_implementation_type) : base_implementation_type * W :=
  let w :=
    if is_open impl then let '(_, _, _, w) := close w (socket_ impl) (state_ impl) true no_error in w else w in
  (new_impl, w).

(** *** Starting operations *)

Definition start_send_op (w : W) (impl : base_implementation_type) (buffers : list (list Z)) (flags : Z) (noop : bool)
    : list loop_call * W :=
  if noop then ([WorkStarted; OnCompletion no_error 0], w)
  else if negb (is_open impl) then ([WorkStarted; OnCompletion bad_descriptor 0], w)
  else
    let '(result, bytes_transferred, w) := ws_send_overlapped w (socket_ impl) buffers flags in
    let last_error := WSAGetLastError w in
    let last_error := if last_error =? ERROR_PORT_UNREACHABLE then value connection_refused else last_error in
    if negb (result =? 0) && negb (last_error =? WSA_IO_PENDING)
    then ([WorkStarted; OnCompletion (sys last_error) bytes_transferred], w)
    else ([WorkStarted; OnPending], w).

Definition start_receive_op (w : W) (impl : base_implementation_type) (buffers : list Z) (flags : Z) (noop : bool)
    : list loop_call * W :=
  if noop then ([WorkStarted; OnCompletion no_error 0], w)
  else if negb (is_open impl) then ([WorkStarted; OnCompletion bad_descriptor 0], w)
  else
    let '(result, bytes_transferred, w) := ws_recv_overlapped w (socket_ impl) buffers flags in
    let last_error := WSAGetLastError w in
    let last_error :=
      if last_error =? ERROR_NETNAME_DELETED then value connection_reset
      else if last_error =? ERROR_PORT_UNREACHABLE then value connection_refused else last_error in
    if negb (result =? 0) && negb (last_error =? WSA_IO_PENDING)
    then ([WorkStarted; OnCompletion (sys last_error) bytes_transferred], w)
    else ([WorkStarted; OnPending], w).

(** [start_accept_op]: also the new content of [new_socket]. *)
Definition start_accept_op (w : W) (impl : base_implementation_type) (peer_is_open : bool) (new_socket : Z)
    (family type protocol : Z) : list loop_call * Z * W :=
  if negb (is_open impl) then ([WorkStarted; OnCompletion bad_descriptor 0], new_socket, w)
  else if peer_is_open then ([WorkStarted; OnCompletion already_open 0], new_socket, w)
  else
    let '(s, ec, w) := socket w family type protocol no_error in
    let '(new_socket, w) := holder_set w new_socket s in
    if new_socket =? invalid_socket then ([WorkStarted; OnCompletion ec 0], new_socket, w)
    else
      let '(result, w) := ws_accept_ex w (socket_ impl) new_socket in
      let last_error := WSAGetLastError w in
      if (result =? 0) && negb (last_error =? WSA_IO_PENDING)
      then ([WorkStarted; OnCompletion (sys last_error) 0], new_socket, w)
      else ([WorkStarted; OnPending], new_socket, w).

(** [restart_accept_op] on the listening socket [s]; the operation can be
    cancelled ([cancellable]), and [cancelled1] and [cancelled2] are what its two
    reads of [cancel_requested] find. *)
Definition restart_accept_op (w : W) (s new_socket family type protocol : Z)
    (cancellable cancelled1 cancelled2 : bool) : list loop_call * Z * W :=
  let '(new_socket, w) := holder_reset w new_socket in
  let calls := WorkStarted :: if cancellable && cancelled1 then [OnCompletion operation_aborted 0] else [] in
  let '(s', ec, w) := socket w family type protocol no_error in
  let '(new_socket, w) := holder_set w new_socket s' in
  if new_socket =? invalid_socket then (calls ++ [OnCompletion ec 0], new_socket, w)
  else
    let '(result, w) := ws_accept_ex w s new_socket in
    let last_error := WSAGetLastError w in
    if (result =? 0) && negb (last_error =? WSA_IO_PENDING)
    then (calls ++ [OnCompletion (sys last_error) 0], new_socket, w)
    else (calls ++ (if cancellable && cancelled2 then [CancelIoEx] else []) ++ [OnPending], new_socket, w).

(** *** Completing operations *)

(** [win_iocp_socket_recv_op::do_complete], [win_iocp_socket_send_op::do_complete]:
    the arguments of the handler. *)
Definition recv_do_complete (state : Z) (expired all_empty : bool) (result_ec : error_code) (bytes_transferred : Z)
    : error_code * Z :=
  (complete_iocp_recv state expired all_empty result_ec bytes_transferred, bytes_transferred).

Definition send_do_complete (expired : bool) (result_ec : error_code) (bytes_transferred : Z) : error_code * Z :=
  (complete_iocp_send expired result_ec, bytes_transferred).

(** The bytes of a [SOCKET]. *)
Definition socket_bytes (s : Z) : list Z := int_bytes s ++ int_bytes (s / 2 ^ 32).

(** [socket_ops::complete_iocp_accept] when the caller asks for the address:
    [addr] with room for [addrlen] bytes; the result is the address and [ec]. *)
Definition complete_iocp_accept (w : W) (s : Z) (addr : list Z) (addrlen : Z) (new_socket : Z) (ec : error_code)
    : list Z * error_code * W :=
  let ec := if value ec =? ERROR_NETNAME_DELETED then connection_aborted else ec in
  if negb (failed ec) then
    let remote_addr := ws_remote_addr w new_socket in
    let '(addr, ec) :=
      if addrlen <? Z.of_nat (length remote_addr) then (addr, invalid_argument) else (remote_addr, ec) in
    let '(_, _, ec, w) := setsockopt w new_socket 0 SOL_SOCKET SO_UPDATE_ACCEPT_CONTEXT (socket_bytes s) ec in
    (addr, ec, w)
  else (addr, ec, w).

(** What [win_iocp_socket_accept_op::do_complete] does next; [endpoint] is a new
    endpoint's memory, of [capacity] bytes.  Before the handler runs the operation
    is destroyed, and the socket its holder still has is closed. *)
Inductive accept_done : Type :=
  | AcceptRestart
  | AcceptHandler (ec : error_code) (peer : base_implementation_type) (address : list Z).

Definition accept_do_complete (w : W) (s new_socket : Z) (peer : base_implementation_type)
    (endpoint : list Z) (capacity type : Z) (enable_aborted : bool) (result_ec : error_code)
    : accept_done * W :=
  let '(address, ec, w) := complete_iocp_accept w s endpoint capacity new_socket result_ec in
  if bool_decide (ec = connection_aborted) && negb enable_aborted then (AcceptRestart, w)
  else
    let '(peer, new_socket, ec, w) :=
      if negb (failed ec) then
        let '(peer, ec, w) := do_assign w peer type new_socket in
        (peer, if failed ec then new_socket else invalid_socket, ec, w)
      else (peer, new_socket, ec, w) in
    let '(_, w) := holder_reset w new_socket in
    (AcceptHandler ec peer address, w).

End Service.
