(* ===== verification/IocpSocketTheorems.v ===== *)
(** * IocpSocketTheorems: the service keeps its contract with the event loop

    Each start function counts the work and then reports its operation to the
    loop once, as [IocpContext] assumes (one exception is a defect of the code);
    overlapped receives are a stream for the composed operations. *)

From stdpp Require Import base list.
From Stdlib Require Import ZArith Lia.
From S2P Require Import Prelude NetError Buffers ComposedIO SocketOps SocketTheorems IocpSocket.
Local Open Scope exchange_scope.
Local Open Scope Z_scope.

(** ** Starting operations *)

(** The calls that say what became of the operation. *)
Definition is_final (c : loop_call) : bool :=
  match c with OnCompletion _ _ | OnPending => true | WorkStarted | CancelIoEx => false end.

Definition final_calls (cs : list loop_call) : nat := length (List.filter is_final cs).

(** The work is counted, then the operation is reported once. *)
Definition reports_once (cs : list loop_call) : Prop :=
  exists c, cs = [WorkStarted; c] /\ is_final c = true.

Section Contract.
Context {W : Type} {HW : Winsock W} {HO : Overlapped W}.

(** Every function that starts an asynchronous send, receive or accept
    counts the work and then reports the operation to the event loop exactly once,
    whatever the operating system answers; on a socket that is not open it calls
    the operating system not at all and reports [bad_descriptor]. *)
Theorem start_ops_report_once (w : W) (impl : base_implementation_type) (bytes : list (list Z)) (rooms : list Z)
    (flags new_socket family type protocol : Z) (noop peer_is_open : bool) :
  let send := start_send_op w impl bytes flags noop in
  let receive := start_receive_op w impl rooms flags noop in
  let accept := start_accept_op w impl peer_is_open new_socket family type protocol in
  reports_once send.1 /\ reports_once receive.1 /\ reports_once accept.1.1 /\
  (is_open impl = false ->
     (noop = false -> send = ([WorkStarted; OnCompletion bad_descriptor 0], w) /\
                      receive = ([WorkStarted; OnCompletion bad_descriptor 0], w)) /\
     accept = ([WorkStarted; OnCompletion bad_descriptor 0], new_socket, w)).
Proof.
  assert (forall c, is_final c = true -> reports_once [WorkStarted; c]) as Hone by (intros c Hc; by exists c).
  cbn zeta. split_and!.
  - unfold start_send_op. destruct noop, (is_open impl); cbn; try by apply Hone.
    destruct (ws_send_overlapped _ _ _ _) as [[r n] w1]. destruct (_ && _); by apply Hone.
  - unfold start_receive_op. destruct noop, (is_open impl); cbn; try by apply Hone.
    destruct (ws_recv_overlapped _ _ _ _) as [[r n] w1]. destruct (_ && _); by apply Hone.
  - unfold start_accept_op. destruct (is_open impl), peer_is_open; cbn; try by apply Hone.
    destruct (socket _ _ _ _ _) as [[s ec] w1]. destruct (holder_set _ _ _) as [h w2].
    destruct (h =? invalid_socket); [by apply Hone|]. destruct (ws_accept_ex _ _ _) as [r w3].
    destruct (_ && _); by apply Hone.
  - unfold start_send_op, start_receive_op, start_accept_op. intros ->. split; [by intros ->|done].
Qed.

Lemma restart_count (w : W) s new_socket family type protocol cancellable c1 c2 :
  final_calls (restart_accept_op w s new_socket family type protocol cancellable c1 c2).1.1
    = if cancellable && c1 then 2%nat else 1%nat.
Proof.
  unfold restart_accept_op, final_calls. destruct (holder_reset w new_socket) as [h w1].
  destruct (socket w1 family type protocol no_error) as [[s' ec] w2]. destruct (holder_set w2 h s') as [h' w3].
  destruct (h' =? invalid_socket); [by destruct (cancellable && c1)|].
  destruct (ws_accept_ex w3 s h') as [r w4]. destruct (_ && negb _); [by destruct (cancellable && c1)|].
  by destruct (cancellable && c1), (cancellable && c2).
Qed.

(** An accept that is restarted after a connection was aborted is reported
    once, unless it was cancelled in between: then the operation is completed with
    [operation_aborted] and, because nothing returns there, started and reported
    again. *)
Theorem restarted_accept_reports (w : W) (s new_socket family type protocol : Z) (cancellable c1 c2 : bool) :
  let calls := (restart_accept_op w s new_socket family type protocol cancellable c1 c2).1.1 in
  final_calls calls = (if cancellable && c1 then 2%nat else 1%nat) /\
  (cancellable && c1 = true -> exists c, calls !! 1%nat = Some (OnCompletion operation_aborted 0) /\
     last calls = Some c /\ is_final c = true).
Proof.
  cbn zeta. split; [apply restart_count|]. intros Hc. unfold restart_accept_op. rewrite Hc.
  destruct (holder_reset w new_socket) as [h w1].
  destruct (socket w1 family type protocol no_error) as [[s' ec] w2]. destruct (holder_set w2 h s') as [h' w3].
  destruct (h' =? invalid_socket); [by exists (OnCompletion ec 0)|].
  destruct (ws_accept_ex w3 s h') as [r w4].
  destruct (_ && negb _); [by exists (OnCompletion (sys (WSAGetLastError w4)) 0)|].
  exists OnPending. destruct (cancellable && c2); split_and!; done.
Qed.

(** Who owns an accepted socket: without error the peer, which was closed before,
    has it and it stays open; with an error the peer is unchanged and the socket,
    the last thing before the handler runs, is closed.  The accept is restarted
    only for a caller that does not want to hear of aborted connections. *)
Theorem accept_ownership (w : W) (s new_socket : Z) (peer : base_implementation_type) (endpoint : list Z)
    (capacity type : Z) (enable_aborted : bool) (result_ec : error_code) :
  new_socket <> invalid_socket ->
  match accept_do_complete w s new_socket peer endpoint capacity type enable_aborted result_ec with
  | (AcceptRestart, _) => enable_aborted = false
  | (AcceptHandler ec peer' _, w') =>
      if failed ec then peer' = peer /\ exists w0, w' = (close w0 new_socket 0 true no_error).2
      else is_open peer = false /\ peer' = mkImpl new_socket (type_state type) true
  end.
Proof.
  intros Hs%Z.eqb_neq. unfold accept_do_complete, do_assign, holder_reset.
  destruct (complete_iocp_accept w s endpoint capacity new_socket result_ec) as [[address ec] w1].
  destruct (bool_decide _ && negb enable_aborted) eqn:Hab; [by apply andb_prop in Hab as [_ ?%negb_true_iff]|].
  destruct (failed ec) eqn:Hf; cbn [negb];
    [|destruct (is_open peer); [|destruct (register_handle w1 new_socket) as [ec2 w2]; destruct (failed ec2) eqn:Hf2]];
    cbv beta iota zeta; rewrite ?Hf2; cbn [failed already_open value no_error Z.eqb negb];
    rewrite ?Z.eqb_refl, ?Hs; cbn [negb]; cbv iota; try done.
  all: match goal with
       | |- context [close ?w0 ?n 0 true no_error] =>
           destruct (close w0 n 0 true no_error) as [[[r st] e] w3] eqn:Hc; rewrite ?Hf, ?Hf2;
           split; [done|]; exists w0; by rewrite Hc
       end.
Qed.

End Contract.

(** ** Overlapped receives as a stream

    [ov_recv w s n] is how an accepted overlapped receive of [n] bytes ends: the
    bytes, the error and the world then. *)

Class OverlappedRecv (W : Type) {HW : Winsock W} {HO : Overlapped W} : Type := {
  ov_recv : W -> Z -> Z -> list Z * Z * W;
  ov_inbox : W -> Z -> list Z;
  ov_start w s n flags r k w' : ws_recv_overlapped w s [n] flags = (r, k, w') ->
    ov_inbox w' s = ov_inbox w s /\
    (r <> 0 -> k = 0 /\ WSAGetLastError w' <> 0 /\
      WSAGetLastError w' <> WSAEMSGSIZE /\ WSAGetLastError w' <> ERROR_MORE_DATA);
  ov_done w s n bytes err w' : ov_recv w s n = (bytes, err, w') -> 0 <= n ->
    Z.of_nat (length bytes) <= n /\ ov_inbox w' s = ov_inbox w s ++ bytes /\
    (err = WSAEMSGSIZE \/ err = ERROR_MORE_DATA -> 0 < n -> bytes <> []) /\
    (err <> 0 -> err <> WSAEMSGSIZE -> err <> ERROR_MORE_DATA -> bytes = []) }.

(** The same for sends: how many of [bytes] an accepted overlapped send transfers,
    and its error. *)
Class OverlappedSend (W : Type) {HW : Winsock W} {HO : Overlapped W} : Type := {
  ov_send : W -> Z -> list Z -> Z * Z * W;
  ov_outbox : W -> Z -> list Z;
  os_start w s bufs flags r k w' : ws_send_overlapped w s bufs flags = (r, k, w') ->
    ov_outbox w' s = ov_outbox w s /\ (r <> 0 -> k = 0 /\ WSAGetLastError w' <> 0);
  os_done w s bytes n err w' : ov_send w s bytes = (n, err, w') ->
    0 <= n <= Z.of_nat (length bytes) /\ ov_outbox w' s = ov_outbox w s ++ take (Z.to_nat n) bytes /\
    (err = 0 -> bytes <> [] -> 0 < n) }.

(** A world in which the socket is open and its cancel token is [expired] or not. *)
Record iocp_stream (W : Type) (sock state : Z) (expired : bool) : Type := mkIocpStream {
  is_world : W;
  is_stream : open_stream sock state = true }.
Arguments mkIocpStream {W sock state expired} _ _.
Arguments is_world {W sock state expired} _.
Arguments is_stream {W sock state expired} _.

Section Stream.
Context {W : Type} {HW : Winsock W} {HO : Overlapped W} {HV : OverlappedRecv W}.
Context {sock state : Z} {expired : bool}.

(** [async_read_some] on a buffer of [n] bytes, up to the call of its handler. *)
Definition iocp_receive (w : W) (n : Z) : list Z * error_code * W :=
  let noop := has_bit state stream_oriented && (n =? 0) in
  let '(calls, w) := start_receive_op w (mkImpl sock state true) [n] 0 noop in
  let '(bytes, ec, w) :=
    match last calls with
    | Some (OnCompletion ec _) => ([], ec, w)
    | _ => let '(bytes, err, w) := ov_recv w sock n in (bytes, sys err, w)
    end in
  (bytes, (recv_do_complete state expired (n =? 0) ec (Z.of_nat (length bytes))).1, w).

#[export] Instance iocp_read : ReadStream (iocp_stream W sock state expired) := fun t n =>
  let '(bytes, ec, w) := iocp_receive (is_world t) n in (bytes, ec, mkIocpStream w (is_stream t)).

(** The translation of the result: without an error there are bytes. *)
Lemma complete_recv_bytes all_empty ec k : has_bit state stream_oriented = true -> 0 <= k ->
  (value ec = WSAEMSGSIZE \/ value ec = ERROR_MORE_DATA -> 0 < k) ->
  failed (complete_iocp_recv state expired all_empty ec k) = false -> all_empty = false -> 0 < k.
Proof.
  intros Hst Hk Hmore. unfold complete_iocp_recv. rewrite Hst.
  destruct (value ec =? ERROR_NETNAME_DELETED); [by destruct expired|].
  destruct (value ec =? ERROR_PORT_UNREACHABLE); [done|].
  destruct ((value ec =? WSAEMSGSIZE) || (value ec =? ERROR_MORE_DATA)) eqn:Hm.
  - intros _ _. apply Hmore. apply orb_true_iff in Hm as [H|H]; apply Z.eqb_eq in H; auto.
  - destruct (failed ec) eqn:Hf; cbn [negb andb]; [congruence|]. intros Hok ->. rewrite andb_true_r in Hok.
    destruct (k =? 0) eqn:Hz; cbn [andb negb] in Hok; [done|]. apply Z.eqb_neq in Hz. lia.
Qed.

(** With one, the call itself failed or there are none. *)
Lemma complete_recv_failed all_empty ec k : failed (complete_iocp_recv state expired all_empty ec k) = true ->
  value ec <> WSAEMSGSIZE /\ value ec <> ERROR_MORE_DATA /\ (failed ec = true \/ k = 0).
Proof.
  unfold complete_iocp_recv, failed.
  destruct (Z.eqb_spec (value ec) ERROR_NETNAME_DELETED) as [->|?]; [intros _; split_and!; [done..|by left]|].
  destruct (Z.eqb_spec (value ec) ERROR_PORT_UNREACHABLE) as [->|?]; [intros _; split_and!; [done..|by left]|].
  destruct (Z.eqb_spec (value ec) WSAEMSGSIZE); [done|]. destruct (Z.eqb_spec (value ec) ERROR_MORE_DATA); [done|].
  cbn [orb]. destruct (value ec =? 0) eqn:Hv; [|intros _; split_and!; [done..|by left]].
  cbn [negb andb]. destruct (Z.eqb_spec k 0); [intros _; split_and!; [done..|by right]|]. cbn [andb]. by rewrite Hv.
Qed.

Lemma iocp_receive_spec w n bytes ec w' : open_stream sock state = true -> 0 <= n ->
  iocp_receive w n = (bytes, ec, w') ->
  Z.of_nat (length bytes) <= n /\ ov_inbox w' sock = ov_inbox w sock ++ bytes /\
  (failed ec = false -> 0 < n -> bytes <> []) /\ (failed ec = true -> bytes = []).
Proof.
  intros [Hs Hst]%open_stream_split Hn. unfold iocp_receive. rewrite Hst. cbn [andb].
  unfold start_receive_op, is_open. cbn [socket_]. rewrite Hs. cbn [negb].
  destruct (n =? 0) eqn:Hz.
  { intros [= <- <- <-]. apply Z.eqb_eq in Hz. rewrite app_nil_r. split_and!; try done; lia. }
  apply Z.eqb_neq in Hz. destruct (ws_recv_overlapped w sock [n] 0) as [[r k] w1] eqn:Hr.
  destruct (ov_start _ _ _ _ _ _ _ Hr) as [Hin Hfail].
  destruct (negb (r =? 0) && _) eqn:Hcond; cbn [last].
  - intros [= <- <- <-]. apply andb_true_iff in Hcond as [Hr0%negb_true_iff%Z.eqb_neq _].
    destruct (Hfail Hr0) as (_ & Hne & H1 & H2). rewrite app_nil_r. split_and!; [cbn; lia|done| |done].
    intros Hok Hpos. exfalso. eapply (complete_recv_bytes false) in Hok; [|done|cbn; lia| |done]; [cbn in Hok; lia|].
    cbn [value sys]. unfold ERROR_NETNAME_DELETED, ERROR_PORT_UNREACHABLE, WSAEMSGSIZE, ERROR_MORE_DATA in *.
    case_Z; cbn; lia.
  - destruct (ov_recv w1 sock n) as [[b err] w2] eqn:Hd. intros [= <- <- <-].
    destruct (ov_done _ _ _ _ _ _ Hd Hn) as (Hl & Hi & Hm & Hclean). split_and!; [done|by rewrite Hi, Hin| |].
    + intros Hok Hpos Hnil. eapply (complete_recv_bytes false) in Hok; [|done|lia| |done]; [subst; cbn in Hok; lia|].
      cbn [value sys]. intros Herr. subst b. by destruct (Hm Herr Hpos).
    + intros (H1 & H2 & [He|Hk])%complete_recv_failed; [|by destruct b].
      apply Hclean; [|done..]. unfold failed in He. by apply negb_true_iff, Z.eqb_neq in He.
Qed.

#[export, program] Instance iocp_read_laws : ReadStreamLaws (iocp_stream W sock state expired) := {
  received t := ov_inbox (is_world t) sock }.
Next Obligation.
  unfold read_some, iocp_read. intros t n bytes ec t' H Hn. destruct (iocp_receive (is_world t) n) as [[b e] w] eqn:Hr.
  injection H as <- <- <-. by destruct (iocp_receive_spec _ _ _ _ _ (is_stream t) Hn Hr) as (? & ? & ? & _).
Qed.
Next Obligation.
  unfold read_some, iocp_read, iocp_receive. intros t. destruct (open_stream_split (is_stream t)) as [_ Hst].
  rewrite Hst. unfold start_receive_op, recv_do_complete, complete_iocp_recv. cbn. rewrite Hst. by destruct t.
Qed.

#[export] Instance iocp_read_clean : CleanErrors (iocp_stream W sock state expired).
Proof using HV.
  intros t n bytes ec t' H Hn. unfold read_some, iocp_read in H.
  destruct (iocp_receive (is_world t) n) as [[b e] w] eqn:Hr. injection H as <- <- <-.
  by destruct (iocp_receive_spec _ _ _ _ _ (is_stream t) Hn Hr) as (_ & _ & _ & ?).
Qed.

End Stream.

Section SendStream.
Context {W : Type} {HW : Winsock W} {HO : Overlapped W} {HV : OverlappedSend W}.
Context {sock state : Z} {expired : bool}.

(** [async_write_some] of [bytes], up to the call of its handler. *)
Definition iocp_transmit (w : W) (bytes : list Z) : Z * error_code * W :=
  let noop := has_bit state stream_oriented && (Z.of_nat (length bytes) =? 0) in
  let '(calls, w) := start_send_op w (mkImpl sock state true) [bytes] 0 noop in
  let '(n, ec, w) :=
    match last calls with
    | Some (OnCompletion ec n) => (n, ec, w)
    | _ => let '(n, err, w) := ov_send w sock bytes in (n, sys err, w)
    end in
  let '(ec, n) := send_do_complete expired ec n in (n, ec, w).

#[export] Instance iocp_write : WriteStream (iocp_stream W sock state expired) := fun t bytes =>
  let '(n, ec, w) := iocp_transmit (is_world t) bytes in (n, ec, mkIocpStream w (is_stream t)).

Lemma complete_send_ok v : failed (complete_iocp_send expired (sys v)) = false -> v = 0.
Proof.
  unfold complete_iocp_send. cbn [value sys]. destruct (v =? _); [by destruct expired|].
  destruct (v =? _); [done|]. unfold failed. cbn [value sys]. intros H%negb_false_iff. by apply Z.eqb_eq.
Qed.

Lemma iocp_transmit_spec w bytes n ec w' : open_stream sock state = true ->
  iocp_transmit w bytes = (n, ec, w') ->
  0 <= n <= Z.of_nat (length bytes) /\ ov_outbox w' sock = ov_outbox w sock ++ take (Z.to_nat n) bytes /\
  (failed ec = false -> bytes <> [] -> 0 < n).
Proof.
  intros [Hs Hst]%open_stream_split. unfold iocp_transmit. rewrite Hst. cbn [andb].
  unfold start_send_op, is_open, send_do_complete. cbn [socket_]. rewrite Hs. cbn [negb].
  destruct (Z.of_nat (length bytes) =? 0) eqn:Hz.
  { apply Z.eqb_eq in Hz. destruct bytes; [|cbn in Hz; lia].
    intros [= <- <- <-]. rewrite app_nil_r. split_and!; try done; lia. }
  destruct (ws_send_overlapped w sock [bytes] 0) as [[r k] w1] eqn:Hr.
  destruct (os_start _ _ _ _ _ _ _ Hr) as [Hout Hfail].
  destruct (negb (r =? 0) && _) eqn:Hcond; cbn [last].
  - intros [= <- <- <-]. apply andb_true_iff in Hcond as [Hr0%negb_true_iff%Z.eqb_neq _].
    destruct (Hfail Hr0) as (-> & Hne). rewrite app_nil_r. split_and!; [lia..|done|].
    intros Hok%complete_send_ok. exfalso. revert Hok. destruct (_ =? ERROR_PORT_UNREACHABLE); [done|lia].
  - destruct (ov_send w1 sock bytes) as [[n1 err] w2] eqn:Hd. intros [= <- <- <-].
    destruct (os_done _ _ _ _ _ _ Hd) as (Hl & Ho & Hp). split_and!; [lia..|by rewrite Ho, Hout|].
    intros Hok%complete_send_ok. auto.
Qed.

#[export, program] Instance iocp_write_laws : WriteStreamLaws (iocp_stream W sock state expired) := {
  sent t := ov_outbox (is_world t) sock }.
Next Obligation.
  unfold write_some, iocp_write. intros t bytes n ec t' H. destruct (iocp_transmit (is_world t) bytes) as [[k e] w] eqn:Hr.
  injection H as <- <- <-. by eapply iocp_transmit_spec, Hr; apply t.
Qed.
Next Obligation.
  unfold write_some, iocp_write, iocp_transmit. intros t. destruct (open_stream_split (is_stream t)) as [_ Hst].
  rewrite Hst. cbn. by destruct t.
Qed.

End SendStream.

(** ** A concrete world *)

#[export] Instance demo_overlapped : Overlapped demo_world := {
  ws_socket w af type protocol := (42, w);
  ws_create_port w handle := (1, w);
  ws_send_overlapped w s bytes flags := (0, 0, w);
  ws_recv_overlapped w s rooms flags := (0, 0, w);
  ws_accept_ex w s new_s := (1, w);
  ws_remote_addr w s := [127; 0; 0; 1] }.

#[export, program] Instance demo_overlapped_recv : OverlappedRecv demo_world := {
  ov_recv w s n := let '(_, bytes, w) := WSARecv (mkDemoWorld 0 0 (dw_chunk w) (dw_pending w) (dw_inbox w) (dw_outbox w) (dw_nb w)) s [n] 0 in
                   (bytes, 0, w);
  ov_inbox w s := dw_inbox w }.
Next Obligation. intros w s n flags r k w' H. injection H as <- <- <-. split; [done|]. by intros []. Qed.
Next Obligation.
  intros w s n bytes err w' H Hn. injection H as <- <- <-. cbn.
  split_and!; [rewrite length_take; unfold total_room; cbn; lia|done|by intros [|]|done].
Qed.

#[export, program] Instance demo_overlapped_send : OverlappedSend demo_world := {
  ov_send w s bytes := let '(_, n, w) := WSASend (mkDemoWorld 0 0 (dw_chunk w) (dw_pending w) (dw_inbox w) (dw_outbox w) (dw_nb w)) s [bytes] 0 in
                       (n, 0, w);
  ov_outbox w s := dw_outbox w }.
Next Obligation. intros w s bufs flags r k w' H. injection H as <- <- <-. done. Qed.
Next Obligation.
  intros w s bytes n err w' H. injection H as <- <- <-. cbn. rewrite app_nil_r, Nat2Z.id.
  split_and!; [lia..|done|]. intros _ Hne. destruct bytes; [done|cbn; lia].
Qed.

(** ** Whole reads *)

(** [async_read] of a buffer over the completion port, as a session reads the
    header and the body of a packet: the operation ends, and without an error the
    handler finds the buffer filled with exactly the next bytes of the connection;
    a connection that ends or fails before gives an error. *)
Theorem iocp_async_read_whole {W} `{OverlappedRecv W} {sock state : Z} {expired : bool}
    (t : iocp_stream W sock state expired) (b : buffer) (m : mem) (fuel : nat)
    (Hb : wf_buffer b) (Hfuel : (Z.to_nat (size_ b) + 2 <= fuel)%nat) :
  exists ec bytes m' t',
    async_read fuel (new_consuming_single_buffer b) m t = Ok (ec, Z.of_nat (length bytes), m', t') /\
    ov_inbox (is_world t') sock = ov_inbox (is_world t) sock ++ bytes /\
    gather (take (length bytes) (addrs b)) m' = bytes /\
    (forall a, a ∉ take (length bytes) (addrs b) -> m' !! a = m !! a) /\
    (failed ec = false -> Z.of_nat (length bytes) = size_ b).
Proof.
  destruct (read_single b m t fuel Hb Hfuel) as (ec & bytes & t' & _ & Hrun & Hr & Hl & Hg & Hok & _).
  exists ec, bytes, (scatter (addrs b) bytes m), t'. split_and!; try done. intros; by apply scatter_other.
Qed.

Lemma iocp_async_read_whole_witness :
  let w := mkDemoWorld 0 0 1 [1; 2; 3; 4; 5; 6] [] [] false in
  let t := @mkIocpStream demo_world 5 16 false w eq_refl in
  exists ec bytes m' t',
    async_read 6 (new_consuming_single_buffer (mkBuffer 1000 4)) ∅ t = Ok (ec, Z.of_nat (length bytes), m', t') /\
    ov_inbox (is_world t') 5 = ov_inbox (is_world t) 5 ++ bytes /\
    gather (take (length bytes) (addrs (mkBuffer 1000 4))) m' = bytes /\
    (forall a, a ∉ take (length bytes) (addrs (mkBuffer 1000 4)) -> m' !! a = (∅ : mem) !! a) /\
    (failed ec = false -> Z.of_nat (length bytes) = 4).
Proof.
  intros w t. apply (iocp_async_read_whole t (mkBuffer 1000 4) ∅ 6); [unfold wf_buffer, is_u64; cbn [size_]; lia|cbn [size_]; lia].
Defined.

(** The handler's arguments in the same world: four bytes, then the end of the
    connection in the middle of a buffer. *)
Example iocp_read_demo :
  let w := mkDemoWorld 0 0 1 [1; 2; 3; 4; 5; 6] [] [] false in
  let t := @mkIocpStream demo_world 5 16 false w eq_refl in
  match async_read 6 (new_consuming_single_buffer (mkBuffer 1000 4)) ∅ t with
  | Ok (ec, n, m, t) => (ec, n, gather [1000; 1001; 1002; 1003] m) = (no_error, 4, [1; 2; 3; 4]) /\
      match async_read 6 (new_consuming_single_buffer (mkBuffer 1000 4)) ∅ t with
      | Ok (ec, n, m, t) => (ec, n) = (eof, 2)
      | Fault _ => False
      end
  | Fault _ => False
  end.
Proof. vm_compute. split; reflexivity. Qed.

(** An accepted connection whose address does not fit: the error is set, and then
    overwritten by the socket option that follows. *)
Example accept_address_error_lost :
  let w := mkDemoWorld 0 0 0 [] [] [] false in
  (complete_iocp_accept w 5 [9; 9] 2 42 no_error).1 = ([9; 9], no_error).
Proof. reflexivity. Qed.
