(* ===== verification/IpText.v ===== *)
(** * IpText: IPv6 addresses as text

    [inet_ntop] and [inet_pton] of [asio/detail/impl/socket_ops.ipp], IPv6, where
    asio does the work itself ([ASIO_WINDOWS_RUNTIME]; elsewhere it asks the
    operating system).  Characters are their codes; a C string is a list without
    its NUL.  The parser is the loop of the source, a state machine. *)

From stdpp Require Import base list.
From Stdlib Require Import ZArith Lia.
From S2P Require Import Prelude NetError.
Local Open Scope exchange_scope.
Local Open Scope list_scope.
Local Open Scope Z_scope.

(** ** Definitions *)

(** *** printf: digits without leading zeros *)

Fixpoint digits (fuel : nat) (base n : Z) : list Z :=
  match fuel with
  | O => []
  | S fuel => if n <? base then [n] else digits fuel base (n / base) ++ [n mod base]
  end.

Definition digit_char (d : Z) : Z := if d <? 10 then 48 + d else 97 + (d - 10).

(** [%x] of a word and [%lu] of an [unsigned long] of 32 bits. *)
Definition hex_word (w : Z) : list Z := digit_char <$> digits 4 16 w.
Definition decimal (n : Z) : list Z := digit_char <$> digits 10 10 n.

Definition colon : Z := 58.
Definition percent : Z := 37.

(** [(bytes[b] << 8) | bytes[b + 1]] *)
Definition word_of (b0 b1 : Z) : Z := Z.lor (Z.shiftl b0 8) b1.

(** *** inet_ntop

    [first] is [b == 0], [z] is [z == 0]; [bytes] are those from [b] on. *)

Fixpoint skip_zeros (bytes : list Z) : list Z :=
  match bytes with
  | b0 :: b1 :: rest => if (b0 =? 0) && (b1 =? 0) then skip_zeros rest else bytes
  | _ => bytes
  end.

Fixpoint ntop_loop (fuel : nat) (first z : bool) (bytes : list Z) : list Z :=
  match fuel, bytes with
  | S fuel, b0 :: b1 :: rest =>
      if (b0 =? 0) && (b1 =? 0) && z then
        let rest := skip_zeros rest in
        colon :: (match rest with [] => [colon] | _ => [] end) ++ ntop_loop fuel false false rest
      else (if first then [] else [colon]) ++ hex_word (word_of b0 b1) ++ ntop_loop fuel false z rest
  | _, _ => []
  end.

Definition inet_ntop6 (bytes : list Z) (scope_id : Z) : list Z :=
  ntop_loop 8 true true bytes ++ (if scope_id =? 0 then [] else percent :: decimal scope_id).

(** The buffer callers pass ([max_addr_v6_str_len]); [sprintf_s] never reaches its end. *)
Definition max_addr_v6_str_len : nat := 256.

(** *** inet_pton *)

Inductive pton_state : Type := fword | fcolon | bword | scope | done.

#[export] Instance pton_state_eq_dec : EqDecision pton_state.
Proof. solve_decision. Defined.

(** The state, [bytes] up to [num_front_bytes], [back_bytes] up to
    [num_back_bytes], [current_word], [*scope_id] and the string from [p] on. *)
Record pton : Type := mkPton {
  state : pton_state;
  front_bytes : list Z;
  back_bytes : list Z;
  current_word : Z;
  scope_id : Z;
  p : list Z }.

(** [*p] *)
Definition star_p (s : list Z) : Z := match s with [] => 0 | c :: _ => c end.

(** The value of a character as a digit; [None] when it is none. *)
Definition hex_value (c : Z) : option Z :=
  if (48 <=? c) && (c <=? 57) then Some (c - 48)
  else if (97 <=? c) && (c <=? 102) then Some (c - 97 + 10)
  else if (65 <=? c) && (c <=? 70) then Some (c - 65 + 10)
  else None.

Definition dec_value (c : Z) : option Z := if (48 <=? c) && (c <=? 57) then Some (c - 48) else None.

(** The two bytes of a word. *)
Definition word_bytes (w : Z) : list Z := [Z.land (Z.shiftr w 8) 255; Z.land w 255].

(** After a word: [next] is the state behind a colon. *)
Definition after_word (next : pton_state) (c : pton) : option pton :=
  let goto s q := Some (mkPton s (front_bytes c) (back_bytes c) (current_word c) (scope_id c) q) in
  if star_p (p c) =? colon then goto next (tail (p c))
  else if star_p (p c) =? percent then goto scope (tail (p c))
  else if star_p (p c) =? 0 then goto done (p c)
  else None.

(** An iteration of the loop; [None] is [invalid_argument]. *)
Definition pton_step (c : pton) : option pton :=
  let word w q := Some (mkPton (state c) (front_bytes c) (back_bytes c) w (scope_id c) q) in
  if 65535 <? current_word c then None
  else
    match state c with
    | fword =>
        match hex_value (star_p (p c)) with
        | Some d => word (current_word c * 16 + d) (tail (p c))
        | None =>
            if (length (front_bytes c) =? 16)%nat then None
            else after_word fcolon
                   (mkPton fword (front_bytes c ++ word_bytes (current_word c)) (back_bytes c) 0 (scope_id c) (p c))
        end
    | fcolon =>
        if star_p (p c) =? colon
        then Some (mkPton bword (front_bytes c) (back_bytes c) (current_word c) (scope_id c) (tail (p c)))
        else Some (mkPton fword (front_bytes c) (back_bytes c) (current_word c) (scope_id c) (p c))
    | bword =>
        match hex_value (star_p (p c)) with
        | Some d => word (current_word c * 16 + d) (tail (p c))
        | None =>
            if (length (front_bytes c) + length (back_bytes c) =? 16)%nat then None
            else after_word bword
                   (mkPton bword (front_bytes c) (back_bytes c ++ word_bytes (current_word c)) 0 (scope_id c) (p c))
        end
    | scope =>
        match dec_value (star_p (p c)) with
        | Some d => word (current_word c * 10 + d) (tail (p c))
        | None =>
            if star_p (p c) =? 0
            then Some (mkPton done (front_bytes c) (back_bytes c) (current_word c) (current_word c) (p c))
            else None
        end
    | done => Some c
    end.

Fixpoint pton_loop (fuel : nat) (c : pton) : outcome (option pton) :=
  match state c with
  | done => Ok (Some c)
  | _ =>
      match fuel with
      | O => Fault OutOfFuel
      | S fuel => match pton_step c with Some c => pton_loop fuel c | None => Ok None end
      end
  end.

(** The bytes at the back go to the end; those in between are zero. *)
Definition assemble (front back : list Z) : list Z :=
  front ++ replicate (16 - length front - length back) 0 ++ back.

(** The result with its error: the bytes and the scope, which callers set to 0. *)
Definition inet_pton6 (fuel : nat) (src : list Z) : outcome (option (list Z * Z)) :=
  let* r := pton_loop fuel (mkPton fword [] [] 0 0 src) in
  Ok (option_map (fun c => (assemble (front_bytes c) (back_bytes c), scope_id c)) r).

(** Every iteration but one for each colon moves on in the string. *)
Definition pton_fuel (src : list Z) : nat := 2 * length src + 3.

Example ntop_loopback : inet_ntop6 (replicate 15 0 ++ [1]) 0 = [58; 58; 49].
Proof. reflexivity. Qed.
Example pton_empty : inet_pton6 3 [] = Ok (Some (replicate 16 0, 0)).
Proof. reflexivity. Qed.

(** ** Runs of the parser *)

Definition pton_steps (c c' : pton) : Prop := state c <> done /\ pton_step c = Some c'.

Abbreviation steps_to := (star pton_steps).

Lemma loop_steps c c' : steps_to c c' -> state c' = done -> forall fuel r, pton_loop fuel c = Ok r -> r = Some c'.
Proof.
  induction 1 as [c|c1 c2 c3 [Hnd Hst] _ IH]; intros Hd fuel r Hrun.
  - destruct fuel; cbn in Hrun; rewrite Hd in Hrun; congruence.
  - destruct fuel as [|fuel]; cbn [pton_loop] in Hrun; destruct (state c1) eqn:Hs; try done; rewrite Hst in Hrun; by eapply IH.
Qed.

Lemma loop_stuck c c' : steps_to c c' -> state c' <> done -> pton_step c' = None ->
  forall fuel r, pton_loop fuel c = Ok r -> r = None.
Proof.
  induction 1 as [c|c1 c2 c3 [Hnd Hst] _ IH]; intros Hd Hn fuel r Hrun.
  - destruct fuel; cbn [pton_loop] in Hrun; destruct (state c); try done; rewrite Hn in Hrun; congruence.
  - destruct fuel as [|fuel]; cbn [pton_loop] in Hrun; destruct (state c1) eqn:Hs; try done; rewrite Hst in Hrun; by eapply IH.
Qed.

(** *** Termination *)

(** What is left to do: characters to read, and states to pass through. *)
Definition measure (c : pton) : nat :=
  2 * length (p c) + match state c with fcolon => 2 | done => 0 | _ => 1 end.

Lemma star_p_cons s : star_p s <> 0 -> exists c s', s = c :: s' /\ tail s = s'.
Proof. destruct s as [|c s]; [done|]. by exists c, s. Qed.

Lemma after_word_measure next c c' : next = fcolon \/ next = bword -> state c = fword \/ state c = bword ->
  after_word next c = Some c' -> (measure c' < measure c)%nat.
Proof.
  intros Hn Hs. unfold after_word. cbv zeta.
  assert (1 <= measure c - 2 * length (p c))%nat as Hm by (unfold measure; destruct Hs as [-> | ->]; lia).
  destruct (Z.eqb_spec (star_p (p c)) colon) as [Hc|Hc].
  { intros [= <-]. destruct (star_p_cons (p c)) as (x & s' & Hp & Ht); [by rewrite Hc|]. unfold measure in *. cbn [p state].
    rewrite Ht. rewrite Hp in *. simpl in *. destruct Hn as [-> | ->]; lia. }
  destruct (Z.eqb_spec (star_p (p c)) percent) as [Hp|Hp].
  { intros [= <-]. destruct (star_p_cons (p c)) as (x & s' & Hq & Ht); [by rewrite Hp|]. unfold measure in *. cbn [p state].
    rewrite Ht. rewrite Hq in *. simpl in *. lia. }
  destruct (star_p (p c) =? 0); [|done]. intros [= <-]. unfold measure in *. cbn [p state]. lia.
Qed.

Lemma hex_value_some c d : hex_value c = Some d -> c <> 0.
Proof. intros H ->. discriminate H. Qed.

Lemma dec_value_some c d : dec_value c = Some d -> c <> 0.
Proof. intros H ->. discriminate H. Qed.

Lemma step_measure c c' : state c <> done -> pton_step c = Some c' -> (measure c' < measure c)%nat.
Proof.
  intros Hnd. unfold pton_step. cbv zeta. destruct (65535 <? current_word c); [done|].
  destruct (state c) eqn:Hs; [| | | |done].
  - destruct (hex_value (star_p (p c))) as [d|] eqn:Hh.
    + intros [= <-]. apply hex_value_some, star_p_cons in Hh as (x & s' & Hp & Ht). unfold measure. cbn [p state].
      rewrite Ht, Hp, Hs. simpl. lia.
    + destruct (length (front_bytes c) =? 16)%nat; [done|]. intros H. apply after_word_measure in H; [|by left|by left].
      unfold measure in *. by rewrite Hs.
  - destruct (Z.eqb_spec (star_p (p c)) colon) as [Hc|Hc]; intros [= <-]; unfold measure; cbn [p state]; rewrite Hs; [|lia].
    destruct (star_p_cons (p c)) as (x & s' & Hp & Ht); [by rewrite Hc|]. rewrite Ht, Hp. simpl. lia.
  - destruct (hex_value (star_p (p c))) as [d|] eqn:Hh.
    + intros [= <-]. apply hex_value_some, star_p_cons in Hh as (x & s' & Hp & Ht). unfold measure. cbn [p state].
      rewrite Ht, Hp, Hs. simpl. lia.
    + destruct (_ =? 16)%nat; [done|]. intros H. apply after_word_measure in H; [|by right|by right].
      unfold measure in *. by rewrite Hs.
  - destruct (dec_value (star_p (p c))) as [d|] eqn:Hh.
    + intros [= <-]. apply dec_value_some, star_p_cons in Hh as (x & s' & Hp & Ht). unfold measure. cbn [p state].
      rewrite Ht, Hp, Hs. simpl. lia.
    + destruct (star_p (p c) =? 0); [|done]. intros [= <-]. unfold measure. cbn [p state]. rewrite Hs. lia.
Qed.

Lemma loop_total fuel : forall c, (measure c <= fuel)%nat -> exists r, pton_loop fuel c = Ok r.
Proof.
  induction fuel as [|fuel IH]; intros c Hf.
  - cbn. destruct (state c) eqn:Hs; unfold measure in Hf; rewrite Hs in Hf; try lia. by eexists.
  - cbn [pton_loop]. destruct (decide (state c = done)) as [Hd|Hd]; [rewrite Hd; by eexists|].
    destruct (pton_step c) as [c'|] eqn:Hst; [|destruct (state c); by eexists].
    pose proof (step_measure c c' Hd Hst). destruct (IH c') as [r Hr]; [lia|]. exists r. by destruct (state c).
Qed.

(** ** Reading back what was printed *)

Lemma hex_digit d : 0 <= d < 16 -> hex_value (digit_char d) = Some d.
Proof. intros Hd. unfold digit_char, hex_value. case_Z; cbn [andb]; try lia; f_equal; lia. Qed.

Lemma dec_digit d : 0 <= d < 10 -> dec_value (digit_char d) = Some d.
Proof. intros Hd. unfold digit_char, dec_value. case_Z; cbn [andb]; try lia; f_equal; lia. Qed.

Definition with_word (w : Z) (q : list Z) (c : pton) : pton :=
  mkPton (state c) (front_bytes c) (back_bytes c) w (scope_id c) q.

(** A number is read digit by digit, if the state's digits have its base. *)
Lemma read_digits base c : 1 < base -> (forall w d q, 0 <= d < base -> 0 <= w <= 65535 ->
    pton_steps (with_word w (digit_char d :: q) c) (with_word (w * base + d) q c)) ->
  forall fuel n q, 0 <= n < base ^ Z.of_nat fuel -> n <= 65535 ->
  steps_to (with_word 0 ((digit_char <$> digits fuel base n) ++ q) c) (with_word n q c).
Proof.
  intros Hb Hstep fuel. induction fuel as [|fuel IH]; intros n q Hn Hmax; cbn [digits].
  { simpl in Hn. assert (n = 0) as -> by lia. apply star_refl. }
  destruct (Z.ltb_spec n base) as [Hlt|Hge].
  - cbn [fmap list_fmap app]. apply star_one. pose proof (Hstep 0 n q) as Hs. by apply Hs; lia.
  - rewrite fmap_app, <- app_assoc. pose proof (Z.div_mod n base). pose proof (Z.mod_pos_bound n base).
    rewrite Nat2Z.inj_succ, Z.pow_succ_r in Hn by lia.
    assert (0 <= n / base < base ^ Z.of_nat fuel) as Hq by (split; [apply Z.div_pos; lia|apply Z.div_lt_upper_bound; lia]).
    assert (n / base <= 65535) by (apply Z.div_le_upper_bound; nia).
    eapply star_trans; [apply IH; lia|]. apply star_one. cbn [fmap list_fmap app].
    assert (n = n / base * base + n mod base) as Heq by lia. rewrite Heq at 3. apply Hstep; lia.
Qed.

(** A number that is too large is noticed when the digits read so far are. *)
Lemma read_too_large base c : 1 < base -> (forall w d q, 0 <= d < base -> 0 <= w <= 65535 ->
    pton_steps (with_word w (digit_char d :: q) c) (with_word (w * base + d) q c)) ->
  forall fuel n q, base <= 65535 -> 65535 < n < base ^ Z.of_nat fuel ->
  exists m q', 65535 < m /\ steps_to (with_word 0 ((digit_char <$> digits fuel base n) ++ q) c) (with_word m q' c).
Proof.
  intros Hb Hstep fuel. induction fuel as [|fuel IH]; intros n q Hbase Hn; cbn [digits]; [simpl in Hn; lia|].
  rewrite (proj2 (Z.ltb_ge _ _)) by lia. rewrite fmap_app, <- app_assoc. cbn [fmap list_fmap app].
  pose proof (Z.div_mod n base). pose proof (Z.mod_pos_bound n base).
  rewrite Nat2Z.inj_succ, Z.pow_succ_r in Hn by lia.
  assert (0 <= n / base < base ^ Z.of_nat fuel) as Hq by (split; [apply Z.div_pos; lia|apply Z.div_lt_upper_bound; lia]).
  destruct (Z.le_gt_cases (n / base) 65535) as [Hle|Hgt]; [|apply IH; lia].
  exists n, q. split; [lia|]. eapply star_trans; [apply (read_digits base c Hb Hstep); lia|].
  apply star_one. assert (n = n / base * base + n mod base) as Heq by lia. rewrite Heq at 3. apply Hstep; lia.
Qed.

Lemma read_hex c w q : state c = fword \/ state c = bword -> 0 <= w <= 65535 ->
  steps_to (with_word 0 (hex_word w ++ q) c) (with_word w q c).
Proof.
  intros Hs Hw. apply (read_digits 16); [lia| |simpl; lia|lia]. intros w' d r Hd Hw'. split.
  - unfold with_word. simpl. by destruct Hs as [-> | ->].
  - unfold pton_step, with_word. cbn [current_word state p star_p tail]. rewrite (proj2 (Z.ltb_ge _ _)) by lia.
    rewrite hex_digit by done. by destruct Hs as [-> | ->].
Qed.

Lemma decimal_step c : state c = scope -> forall w d q, 0 <= d < 10 -> 0 <= w <= 65535 ->
  pton_steps (with_word w (digit_char d :: q) c) (with_word (w * 10 + d) q c).
Proof.
  intros Hs w d q Hd Hw. split.
  - unfold with_word. simpl. by rewrite Hs.
  - unfold pton_step, with_word. cbn [current_word state p star_p tail]. rewrite (proj2 (Z.ltb_ge _ _)) by lia.
    rewrite dec_digit by done. by rewrite Hs.
Qed.

(** ** Words *)

(** An address is eight words of 16 bits; [text] is their digits with a colon
    between them, [colon_words] with a colon in front of each. *)
Definition is_word (w : Z) : Prop := 0 <= w <= 65535.
Definition words_bytes (ws : list Z) : list Z := ws ≫= word_bytes.
Definition colon_words (ws : list Z) : list Z := ws ≫= fun w => colon :: hex_word w.
Definition text (ws : list Z) : list Z := match ws with [] => [] | w :: ws => hex_word w ++ colon_words ws end.

Lemma words_bytes_cons w ws : words_bytes (w :: ws) = word_bytes w ++ words_bytes ws.
Proof. reflexivity. Qed.

Lemma words_bytes_app ws vs : words_bytes (ws ++ vs) = words_bytes ws ++ words_bytes vs.
Proof. apply bind_app. Qed.

Lemma length_words_bytes ws : length (words_bytes ws) = (2 * length ws)%nat.
Proof. induction ws as [|w ws IH]; [done|]. rewrite words_bytes_cons, length_app, IH. simpl. lia. Qed.

Lemma words_bytes_zeros k : words_bytes (replicate k 0) = replicate (2 * k) 0.
Proof.
  induction k as [|k IH]; [done|]. replace (2 * S k)%nat with (S (S (2 * k))) by lia.
  cbn [replicate]. by rewrite words_bytes_cons, IH.
Qed.

Lemma word_bytes_div w : word_bytes w = [w / 256 mod 256; w mod 256].
Proof.
  unfold word_bytes. change 255 with (Z.ones 8). rewrite !Z.land_ones, Z.shiftr_div_pow2 by lia. reflexivity.
Qed.

(** The two halves of a byte pair do not overlap. *)
Lemma word_of_sum b0 b1 : is_u8 b0 -> is_u8 b1 -> word_of b0 b1 = b0 * 256 + b1.
Proof.
  unfold is_u8, word_of. intros H0 H1.
  assert (Z.land (Z.shiftl b0 8) b1 = 0) as Hl.
  { apply Z.bits_inj'. intros i Hi. rewrite Z.land_spec, Z.bits_0. destruct (Z.lt_ge_cases i 8).
    - by rewrite Z.shiftl_spec_low.
    - rewrite <- (Z.mod_small b1 (2 ^ 8)), Z.mod_pow2_bits_high by lia. apply andb_false_r. }
  rewrite <- Z.lxor_lor, <- Z.add_nocarry_lxor, Z.shiftl_mul_pow2 by done || lia. reflexivity.
Qed.

Lemma word_bytes_of b0 b1 : is_u8 b0 -> is_u8 b1 -> word_bytes (word_of b0 b1) = [b0; b1] /\ is_word (word_of b0 b1).
Proof.
  intros H0 H1. rewrite word_of_sum, word_bytes_div by done. unfold is_u8, is_word in *. simpl in *. split; [|lia].
  rewrite Z.div_add_l, Z.div_small, Z.add_0_r, Z.mod_small, Z.add_comm, Z.mod_add, Z.mod_small by lia. done.
Qed.

Lemma word_of_bytes w : is_word w -> exists b0 b1, word_bytes w = [b0; b1] /\ is_u8 b0 /\ is_u8 b1 /\ word_of b0 b1 = w
  /\ (b0 =? 0) && (b1 =? 0) = (w =? 0).
Proof.
  intros Hw. rewrite word_bytes_div. do 2 eexists. split; [done|].
  unfold is_word, is_u8 in *. pose proof (Z.mod_pos_bound (w / 256) 256). pose proof (Z.mod_pos_bound w 256).
  split; [lia|]. split; [lia|].
  assert (w / 256 mod 256 = w / 256) as Hd by (apply Z.mod_small; split; [apply Z.div_pos|apply Z.div_lt_upper_bound]; lia).
  pose proof (Z.div_mod w 256). split; [rewrite word_of_sum; unfold is_u8; lia|].
  case_Z; cbn [andb]; lia.
Qed.

(** Every address of 16 bytes has its words. *)
Lemma words_of n : forall bytes, length bytes = (2 * n)%nat -> Forall is_u8 bytes ->
  exists ws, length ws = n /\ Forall is_word ws /\ bytes = words_bytes ws.
Proof.
  induction n as [|n IH]; intros [|b0 [|b1 bytes]] Hlen Hb; simpl in Hlen; try lia.
  { by exists []. }
  apply Forall_cons in Hb as [H0 Hb]. apply Forall_cons in Hb as [H1 Hb].
  destruct (IH bytes) as (ws & Hl & Hws & ->); [lia|done|]. destruct (word_bytes_of b0 b1 H0 H1) as [He Hw].
  exists (word_of b0 b1 :: ws). split; [simpl; lia|]. split; [by constructor|]. by rewrite words_bytes_cons, He.
Qed.

(** ** What is printed *)

Lemma skip_zeros_words ws : Forall is_word ws ->
  exists k r, ws = replicate k 0 ++ r /\ skip_zeros (words_bytes ws) = words_bytes r.
Proof.
  induction 1 as [|w ws Hw _ (k & r & -> & IH)]; [by exists 0%nat, []|].
  destruct (word_of_bytes w Hw) as (b0 & b1 & He & _ & _ & _ & Hz). rewrite words_bytes_cons, He. cbn [app skip_zeros].
  rewrite Hz. destruct (Z.eqb_spec w 0) as [-> |Hn].
  - by exists (S k), r.
  - exists 0%nat, (w :: replicate k 0 ++ r). split; [done|]. by rewrite words_bytes_cons, He.
Qed.

(** One iteration, by words. *)
Lemma ntop_word fuel first z w ws : is_word w ->
  ntop_loop (S fuel) first z (words_bytes (w :: ws)) =
    if (w =? 0) && z then
      let rest := skip_zeros (words_bytes ws) in
      colon :: (match rest with [] => [colon] | _ => [] end) ++ ntop_loop fuel false false rest
    else (if first then [] else [colon]) ++ hex_word w ++ ntop_loop fuel false z (words_bytes ws).
Proof.
  intros Hw. destruct (word_of_bytes w Hw) as (b0 & b1 & He & _ & _ & Hwo & Hz).
  rewrite words_bytes_cons, He. cbn [app ntop_loop]. by rewrite Hz, Hwo.
Qed.

Lemma ntop_rest ws : Forall is_word ws -> forall fuel, (length ws <= fuel)%nat ->
  ntop_loop fuel false false (words_bytes ws) = colon_words ws.
Proof.
  induction 1 as [|w ws Hw _ IH]; intros fuel Hf; [by destruct fuel|]. destruct fuel as [|fuel]; [simpl in Hf; lia|].
  rewrite ntop_word, andb_false_r, IH by (done || simpl in Hf; lia). reflexivity.
Qed.

(** The text of an address: all its words, or those before and those behind the
    first run of zeros. *)
Definition printed (first : bool) (ws : list Z) : list Z := if first then text ws else colon_words ws.

Lemma ntop_words ws : Forall is_word ws -> forall fuel first, (length ws <= fuel)%nat ->
  ntop_loop fuel first true (words_bytes ws) = printed first ws
  \/ exists f k r, ws = f ++ replicate (S k) 0 ++ r
        /\ ntop_loop fuel first true (words_bytes ws) = printed first f ++ [colon; colon] ++ text r.
Proof.
  induction 1 as [|w ws Hw Hws IH]; intros fuel first Hf; [left; by destruct fuel, first|].
  destruct fuel as [|fuel]; [simpl in Hf; lia|]. rewrite ntop_word by done. destruct (Z.eqb_spec w 0) as [-> |Hn]; cbn [andb].
  - right. destruct (skip_zeros_words ws Hws) as (k & r & -> & Hsk). exists [], k, r. split; [done|].
    rewrite Hsk. cbv zeta. apply Forall_app in Hws as [_ Hr]. simpl in Hf. rewrite length_app in Hf.
    rewrite ntop_rest by (done || lia). destruct r as [|v r]; [by destruct first|].
    assert (exists b bs, words_bytes (v :: r) = b :: bs) as (b & bs & ->) by by do 2 eexists. by destruct first.
  - simpl in Hf. destruct (IH fuel false) as [-> | (f & k & r & -> & ->)]; [lia| |].
    + left. by destruct first.
    + right. exists (w :: f), k, r. split; [done|]. destruct first; cbn [printed text colon_words app].
      * by rewrite <- app_assoc.
      * change (colon_words (w :: f)) with (colon :: hex_word w ++ colon_words f). cbn [app]. by rewrite <- app_assoc.
Qed.

(** ** What is read *)

(** The words in front of the last one are stored, the last is current. *)
Definition front_at (F : list Z) (w : Z) (q : list Z) : pton := mkPton fword F [] w 0 q.
Definition back_at (F B : list Z) (w : Z) (q : list Z) : pton := mkPton bword F B w 0 q.

Ltac pton_reduce := unfold pton_step, after_word, front_at, back_at; cbv beta iota zeta;
  cbn [state front_bytes back_bytes current_word scope_id p star_p tail];
  rewrite (proj2 (Z.ltb_ge 65535 _)) by lia.

Lemma store_front F w q : is_word w -> length F <> 16%nat ->
  pton_steps (front_at F w (colon :: q)) (mkPton fcolon (F ++ word_bytes w) [] 0 0 q).
Proof. unfold is_word. intros Hw HF. split; [done|]. pton_reduce. cbn [hex_value]. by rewrite (proj2 (Nat.eqb_neq _ _) HF). Qed.

Lemma fcolon_front F q : star_p q <> colon -> pton_steps (mkPton fcolon F [] 0 0 q) (front_at F 0 q).
Proof. intros Hq. split; [done|]. pton_reduce. by rewrite (proj2 (Z.eqb_neq _ _) Hq). Qed.

Lemma fcolon_back F q : pton_steps (mkPton fcolon F [] 0 0 (colon :: q)) (back_at F [] 0 q).
Proof. split; [done|]. pton_reduce. done. Qed.

Lemma store_back F B w q : is_word w -> (length F + length B)%nat <> 16%nat ->
  pton_steps (back_at F B w (colon :: q)) (back_at F (B ++ word_bytes w) 0 q).
Proof. unfold is_word. intros Hw HF. split; [done|]. pton_reduce. by rewrite (proj2 (Nat.eqb_neq _ _) HF). Qed.

Lemma digits_nonempty fuel base n : 1 < base -> 0 <= n -> fuel <> 0%nat -> exists d ds, digits fuel base n = d :: ds /\ 0 <= d < base.
Proof.
  intros Hb. revert n. induction fuel as [|fuel IH]; [done|]. intros n Hn _. cbn [digits].
  destruct (Z.ltb_spec n base) as [Hlt|Hge]; [by exists n, []|].
  destruct fuel as [|fuel].
  - exists (n mod base), []. split; [done|]. apply Z.mod_pos_bound; lia.
  - destruct (IH (n / base)) as (d & ds & -> & Hd); [apply Z.div_pos; lia|done|]. by exists d, (ds ++ [n mod base]).
Qed.

Lemma digit_not_colon d : 0 <= d -> digit_char d <> colon.
Proof. unfold digit_char, colon. intros Hd. case_Z; lia. Qed.

Lemma hex_word_head w q : is_word w -> star_p (hex_word w ++ q) <> colon.
Proof.
  intros [Hw _]. unfold hex_word. destruct (digits_nonempty 4 16 w) as (d & ds & -> & Hd); [lia|done|done|].
  apply digit_not_colon. lia.
Qed.

Lemma read_front ws : Forall is_word ws -> forall F q, (length F + 2 * length ws <= 16)%nat ->
  steps_to (front_at F 0 (text ws ++ q)) (front_at (F ++ words_bytes (removelast ws)) (List.last ws 0) q).
Proof.
  induction 1 as [|w ws Hw Hws IH]; intros F q HF.
  { cbn [text removelast List.last app]. rewrite app_nil_r. apply star_refl. }
  destruct ws as [|v ws].
  { cbn [text colon_words app removelast List.last]. rewrite !app_nil_r.
    apply (read_hex (front_at F w q)); [by left|done]. }
  change (text (w :: v :: ws)) with (hex_word w ++ colon :: text (v :: ws)).
  rewrite <- app_assoc. cbn [length] in HF. eapply star_trans; [apply (read_hex (front_at F w q)); [by left|done]|].
  eapply star_step; [apply (store_front F w (text (v :: ws) ++ q)); [done|lia]|].
  eapply star_step; [apply fcolon_front; cbn [text]; rewrite <- app_assoc; apply hex_word_head; by apply Forall_inv in Hws|].
  change (removelast (w :: v :: ws)) with (w :: removelast (v :: ws)). rewrite words_bytes_cons, app_assoc.
  change (List.last (w :: v :: ws) 0) with (List.last (v :: ws) 0).
  apply IH. rewrite length_app. cbn [length word_bytes] in *. lia.
Qed.

Lemma read_back F ws : Forall is_word ws -> forall B q, (length F + length B + 2 * length ws <= 16)%nat ->
  steps_to (back_at F B 0 (text ws ++ q)) (back_at F (B ++ words_bytes (removelast ws)) (List.last ws 0) q).
Proof.
  induction 1 as [|w ws Hw Hws IH]; intros B q HF.
  { cbn [text removelast List.last app]. rewrite app_nil_r. apply star_refl. }
  destruct ws as [|v ws].
  { cbn [text colon_words app removelast List.last]. rewrite !app_nil_r.
    apply (read_hex (back_at F B w q)); [by right|done]. }
  change (text (w :: v :: ws)) with (hex_word w ++ colon :: text (v :: ws)).
  rewrite <- app_assoc. cbn [length] in HF. eapply star_trans; [apply (read_hex (back_at F B w q)); [by right|done]|].
  eapply star_step; [apply (store_back F B w (text (v :: ws) ++ q)); [done|lia]|].
  change (removelast (w :: v :: ws)) with (w :: removelast (v :: ws)). rewrite words_bytes_cons, app_assoc.
  change (List.last (w :: v :: ws) 0) with (List.last (v :: ws) 0).
  apply IH. rewrite length_app. cbn [length word_bytes] in *. lia.
Qed.

(** *** The end of the text *)

Definition scope_text (sc : Z) : list Z := if sc =? 0 then [] else percent :: decimal sc.

(** How the parser ends: what it has stored and the scope, or an error. *)
Definition ends (c : pton) (r : option (list Z * list Z * Z)) : Prop :=
  match r with
  | Some (F, B, sc) => exists v, steps_to c (mkPton done F B v sc [])
  | None => exists c', steps_to c c' /\ state c' <> done /\ pton_step c' = None
  end.

Lemma ends_star c c' r : steps_to c c' -> ends c' r -> ends c r.
Proof.
  intros Hs. destruct r as [[[F B] sc]|]; cbn [ends].
  - intros [v Hv]. exists v. by eapply star_trans.
  - intros (d & Hd & He). exists d. split; [by eapply star_trans|done].
Qed.

Lemma ends_step c c' r : pton_steps c c' -> ends c' r -> ends c r.
Proof. intros Hs. apply ends_star. by apply star_one. Qed.

(** Scopes of more than 16 bits are refused. *)
Definition within (F B : list Z) (sc : Z) : option (list Z * list Z * Z) :=
  if sc <=? 65535 then Some (F, B, sc) else None.

Lemma read_scope F B sc : is_u32 sc -> ends (mkPton scope F B 0 0 (decimal sc)) (within F B sc).
Proof.
  unfold is_u32, within. intros Hsc. pose proof (decimal_step (mkPton scope F B sc 0 []) eq_refl) as Hd.
  change (mkPton scope F B 0 0 (decimal sc)) with (with_word 0 (decimal sc) (mkPton scope F B sc 0 [])).
  rewrite <- (app_nil_r (decimal sc)). destruct (Z.leb_spec sc 65535) as [Hle|Hgt].
  - eapply ends_star; [apply (read_digits 10 _ ltac:(lia) Hd); simpl; lia|].
    eexists. apply star_one. split; [done|]. unfold with_word. pton_reduce. done.
  - destruct (read_too_large 10 _ ltac:(lia) Hd 10 sc []) as (m & q & Hm & Hrun); [lia|simpl; lia|].
    eexists. split; [exact Hrun|]. split; [done|]. unfold pton_step. cbn [with_word current_word].
    by rewrite (proj2 (Z.ltb_lt _ _)).
Qed.

Lemma end_front F w sc : is_word w -> is_u32 sc -> length F <> 16%nat ->
  ends (front_at F w (scope_text sc)) (within (F ++ word_bytes w) [] sc).
Proof.
  intros Hw Hsc HF. unfold is_word in Hw. unfold scope_text. destruct (Z.eqb_spec sc 0) as [-> |Hn].
  - exists 0. apply star_one. split; [done|]. pton_reduce. by rewrite (proj2 (Nat.eqb_neq _ _) HF).
  - eapply ends_step; [|by apply read_scope].
    split; [done|]. pton_reduce. by rewrite (proj2 (Nat.eqb_neq _ _) HF).
Qed.

Lemma end_back F B w sc : is_word w -> is_u32 sc -> (length F + length B)%nat <> 16%nat ->
  ends (back_at F B w (scope_text sc)) (within F (B ++ word_bytes w) sc).
Proof.
  intros Hw Hsc HF. unfold is_word in Hw. unfold scope_text. destruct (Z.eqb_spec sc 0) as [-> |Hn].
  - exists 0. apply star_one. split; [done|]. pton_reduce. by rewrite (proj2 (Nat.eqb_neq _ _) HF).
  - eapply ends_step; [|by apply read_scope].
    split; [done|]. pton_reduce. by rewrite (proj2 (Nat.eqb_neq _ _) HF).
Qed.

(** *** Whole addresses *)

(** What is stored of words that may be missing: none stands for a zero. *)
Definition or_zero (ws : list Z) : list Z := match ws with [] => [0] | _ => ws end.

Lemma stored_words ws : words_bytes (removelast ws) ++ word_bytes (List.last ws 0) = words_bytes (or_zero ws).
Proof.
  destruct ws as [|w ws]; [done|]. unfold or_zero. rewrite (app_removelast_last (l := w :: ws) 0) at 3 by done.
  by rewrite words_bytes_app, words_bytes_cons, app_nil_r.
Qed.

Lemma last_is_word ws : Forall is_word ws -> is_word (List.last ws 0).
Proof.
  induction 1 as [|w ws Hw Hws IH]; [unfold is_word; simpl; lia|]. by destruct ws.
Qed.

Lemma length_removelast {A} (l : list A) : length (removelast l) = (length l - 1)%nat.
Proof. induction l as [|x [|y l] IH]; [done|done|]. cbn [removelast length] in *. lia. Qed.

Lemma read_full ws sc : Forall is_word ws -> is_u32 sc -> length ws = 8%nat ->
  ends (front_at [] 0 (text ws ++ scope_text sc)) (within (words_bytes ws) [] sc).
Proof.
  intros Hws Hsc Hlen. eapply ends_star; [apply read_front; [done|simpl; lia]|].
  replace (words_bytes ws) with (words_bytes (or_zero ws)) by by destruct ws. rewrite <- stored_words.
  apply end_front; [by apply last_is_word|done|]. cbn [app]. rewrite length_words_bytes, length_removelast. lia.
Qed.

Lemma read_gap f r sc : Forall is_word f -> Forall is_word r -> is_u32 sc -> (length f + length r < 8)%nat ->
  ends (front_at [] 0 (text f ++ [colon; colon] ++ text r ++ scope_text sc))
       (within (words_bytes (or_zero f)) (words_bytes (or_zero r)) sc).
Proof.
  intros Hf Hr Hsc Hlen. assert (length (words_bytes (or_zero f)) = 2 * length (or_zero f))%nat as HF by apply length_words_bytes.
  assert (length (or_zero f) = Nat.max 1 (length f)) as Hof by by destruct f.
  eapply ends_star; [apply read_front; [done|simpl; lia]|].
  eapply ends_step; [apply store_front; [by apply last_is_word|]|].
  { cbn [app]. rewrite length_words_bytes, length_removelast. lia. }
  cbn [app]. rewrite stored_words. eapply ends_step; [apply fcolon_back|].
  eapply ends_star; [apply (read_back _ r Hr []); simpl; lia|].
  rewrite <- (stored_words r). apply end_back; [by apply last_is_word|done|].
  cbn [app]. rewrite HF, Hof, length_words_bytes, length_removelast. lia.
Qed.

Lemma assemble_gap f k r : (length f + S k + length r = 8)%nat ->
  assemble (words_bytes (or_zero f)) (words_bytes (or_zero r)) = words_bytes (f ++ replicate (S k) 0 ++ r).
Proof.
  intros Hlen. unfold assemble. rewrite !words_bytes_app, words_bytes_zeros, !length_words_bytes.
  assert (forall n, replicate (S (S n)) 0 = [0; 0] ++ replicate n 0) as Hf by done.
  assert (forall n, replicate (S (S n)) 0 = replicate n 0 ++ [0; 0]) as Hb.
  { intros n. replace (S (S n)) with (n + 2)%nat by lia. by rewrite replicate_add. }
  destruct f as [|x f], r as [|y r]; unfold or_zero; cbn [length] in *.
  - by replace k with 7%nat by lia.
  - replace (16 - 2 * 1 - 2 * S (length r))%nat with (2 * k)%nat by lia.
    replace (2 * S k)%nat with (S (S (2 * k))) by lia. by rewrite Hf.
  - replace (16 - 2 * S (length f) - 2 * 1)%nat with (2 * k)%nat by lia.
    replace (2 * S k)%nat with (S (S (2 * k))) by lia. by rewrite Hb, <- !app_assoc.
  - by replace (16 - 2 * S (length f) - 2 * S (length r))%nat with (2 * S k)%nat by lia.
Qed.

(** The result of a run that is known to end. *)
Lemma pton_ends src r : ends (front_at [] 0 src) r ->
  inet_pton6 (pton_fuel src) src = Ok (option_map (fun '(F, B, sc) => (assemble F B, sc)) r).
Proof.
  intros Hrun. destruct (loop_total (pton_fuel src) (front_at [] 0 src)) as [o Hr].
  { unfold measure, front_at, pton_fuel. cbn [p state]. lia. }
  unfold inet_pton6. change (mkPton fword [] [] 0 0 src) with (front_at [] 0 src). rewrite Hr.
  destruct r as [[[F B] sc]|]; cbn [ends] in Hrun.
  - destruct Hrun as [v Hrun]. by rewrite (loop_steps _ _ Hrun eq_refl _ _ Hr).
  - destruct Hrun as (c & Hrun & Hnd & Hst). by rewrite (loop_stuck _ _ Hrun Hnd Hst _ _ Hr).
Qed.

(** *** The buffers *)

(** Both buffers hold whole words and have room for them: 16 bytes in all. *)
Definition bounded (c : pton) : Prop :=
  exists a b, length (front_bytes c) = (2 * a)%nat /\ length (back_bytes c) = (2 * b)%nat /\ (a + b <= 8)%nat
    /\ Forall is_u8 (front_bytes c) /\ Forall is_u8 (back_bytes c) /\ is_word (scope_id c) /\ 0 <= current_word c
    /\ (state c = fword \/ state c = fcolon -> back_bytes c = []).

Lemma bounded_intro a b s F B w sc q : length F = (2 * a)%nat -> length B = (2 * b)%nat -> (a + b <= 8)%nat ->
  Forall is_u8 F -> Forall is_u8 B -> is_word sc -> 0 <= w -> (s = fword \/ s = fcolon -> B = []) ->
  bounded (mkPton s F B w sc q).
Proof. intros. by exists a, b. Qed.

Lemma word_bytes_u8 w : Forall is_u8 (word_bytes w).
Proof.
  rewrite word_bytes_div. unfold is_u8. pose proof (Z.mod_pos_bound (w / 256) 256). pose proof (Z.mod_pos_bound w 256).
  repeat constructor; lia.
Qed.

Lemma hex_value_range c d : hex_value c = Some d -> 0 <= d < 16.
Proof. unfold hex_value. case_Z; cbn [andb]; intros [= <-] || done; lia. Qed.

Lemma dec_value_range c d : dec_value c = Some d -> 0 <= d < 10.
Proof. unfold dec_value. case_Z; cbn [andb]; intros [= <-] || done; lia. Qed.

Lemma after_word_bounded next c c' : bounded c -> (next = fcolon -> back_bytes c = []) -> next <> fword ->
  after_word next c = Some c' -> bounded c'.
Proof.
  intros (a & b & Ha & Hb & Hab & HF & HB & Hsc & Hw & _) Hn Hnf. unfold after_word. cbv zeta.
  assert (forall s q, (s = fword \/ s = fcolon -> back_bytes c = []) ->
      bounded (mkPton s (front_bytes c) (back_bytes c) (current_word c) (scope_id c) q)) as Hto.
  { intros s q Hs. by exists a, b. }
  case_match; [intros [= <-]; apply Hto; intros [?|?]; [done|by apply Hn]|].
  case_match; [intros [= <-]; apply Hto; by intros [?|?]|].
  case_match; [intros [= <-]; apply Hto; by intros [?|?]|done].
Qed.

Lemma step_bounded c c' : bounded c -> pton_step c = Some c' -> bounded c'.
Proof.
  intros Hbc. pose proof Hbc as (a & b & Ha & Hb & Hab & HF & HB & Hsc & Hw & Hnil). unfold pton_step. cbv zeta.
  destruct (Z.ltb_spec 65535 (current_word c)) as [|Hle]; [done|].
  destruct (state c) eqn:Hs.
  - specialize (Hnil (or_introl eq_refl)). destruct (hex_value (star_p (p c))) as [d|] eqn:Hd.
    + apply hex_value_range in Hd. intros [= <-]. apply (bounded_intro a b); done || lia.
    + destruct (Nat.eqb_spec (length (front_bytes c)) 16) as [|Hne]; [done|].
      apply after_word_bounded; [|done|done]. rewrite Hnil in *. apply (bounded_intro (S a) b); try done || lia.
      { rewrite length_app. cbn [length word_bytes] in *. lia. } { cbn [length] in Hb. lia. }
      apply Forall_app. split; [done|apply word_bytes_u8].
  - specialize (Hnil (or_intror eq_refl)). destruct (_ =? _); intros [= <-]; by exists a, b.
  - destruct (hex_value (star_p (p c))) as [d|] eqn:Hd.
    + apply hex_value_range in Hd. intros [= <-]. apply (bounded_intro a b); try (done || lia); by intros [?|?].
    + destruct (Nat.eqb_spec (length (front_bytes c) + length (back_bytes c)) 16) as [|Hne]; [done|].
      apply after_word_bounded; [|done|done]. apply (bounded_intro a (S b)); try (done || lia || by intros [?|?]).
      { rewrite length_app. cbn [length word_bytes] in *. lia. }
      apply Forall_app. split; [done|apply word_bytes_u8].
  - destruct (dec_value (star_p (p c))) as [d|] eqn:Hd.
    + apply dec_value_range in Hd. intros [= <-]. apply (bounded_intro a b); try (done || lia); by intros [?|?].
    + destruct (_ =? 0); [|done]. intros [= <-]. apply (bounded_intro a b); done || lia || (by split) || by intros [?|?].
  - by intros [= <-].
Qed.

Lemma loop_bounded fuel : forall c c', bounded c -> pton_loop fuel c = Ok (Some c') -> bounded c'.
Proof.
  induction fuel as [|fuel IH]; intros c c' Hb Hrun; cbn [pton_loop] in Hrun.
  - destruct (state c); try done. by injection Hrun as <-.
  - destruct (pton_step c) as [d|] eqn:Hst.
    + apply (step_bounded _ _ Hb) in Hst. destruct (state c); try (by eapply IH). by injection Hrun as <-.
    + destruct (state c); try done. by injection Hrun as <-.
Qed.

Lemma pton_well_formed src : exists r, inet_pton6 (pton_fuel src) src = Ok r
  /\ match r with None => True | Some (bytes, sc) => length bytes = 16%nat /\ Forall is_u8 bytes /\ is_word sc end.
Proof.
  unfold inet_pton6. destruct (loop_total (pton_fuel src) (mkPton fword [] [] 0 0 src)) as [o Hr].
  { unfold measure, pton_fuel. cbn [p state]. lia. }
  rewrite Hr. eexists. split; [reflexivity|]. destruct o as [c|]; [|done]. cbn [option_map].
  apply loop_bounded in Hr as (a & b & Ha & Hb & Hab & HF & HB & Hsc & _).
  - unfold assemble. rewrite !length_app, length_replicate. split; [lia|]. split; [|done].
    apply Forall_app. split; [done|]. apply Forall_app. split; [|done]. apply Forall_replicate. unfold is_u8. lia.
  - apply (bounded_intro 0 0); done || lia || constructor; done || lia.
Qed.

(** *** The length of the text *)

Lemma length_digits fuel base n : (length (digits fuel base n) <= fuel)%nat.
Proof.
  revert n. induction fuel as [|fuel IH]; intros n; cbn [digits]; [done|].
  destruct (n <? base); [simpl; lia|]. rewrite length_app. specialize (IH (n / base)). simpl. lia.
Qed.

Lemma length_ntop fuel : forall first z bytes, (length (ntop_loop fuel first z bytes) <= 5 * fuel)%nat.
Proof.
  induction fuel as [|fuel IH]; intros first z bytes; cbn [ntop_loop]; [simpl; lia|].
  destruct bytes as [|b0 [|b1 rest]]; try (simpl; lia). cbv zeta. destruct (_ && _ && _).
  - specialize (IH false false (skip_zeros rest)). destruct (skip_zeros rest) as [|]; cbn [app length] in *; lia.
  - specialize (IH false z rest). rewrite !length_app. unfold hex_word. rewrite length_fmap.
    pose proof (length_digits 4 16 (word_of b0 b1)). destruct first; cbn [length]; lia.
Qed.

Lemma length_scope_text sc : (length (scope_text sc) <= 11)%nat.
Proof.
  unfold scope_text, decimal. destruct (sc =? 0); cbn [length]; [lia|]. rewrite length_fmap.
  pose proof (length_digits 10 10 sc). lia.
Qed.

(** *** Reading what was printed *)

Lemma read_printed bytes sc : length bytes = 16%nat -> Forall is_u8 bytes -> is_u32 sc ->
  let text := inet_ntop6 bytes sc in
  inet_pton6 (pton_fuel text) text = Ok (if sc <=? 65535 then Some (bytes, sc) else None).
Proof.
  intros Hlen Hb Hsc text.
  destruct (words_of 8 bytes Hlen Hb) as (ws & Hl & Hws & ->). unfold text, inet_ntop6. fold (scope_text sc).
  destruct (ntop_words ws Hws 8 true) as [-> | (f & k & r & -> & ->)]; [lia| |]; cbn [printed].
  - rewrite (pton_ends _ _ (read_full ws sc Hws Hsc Hl)). unfold within. destruct (sc <=? 65535); [|done].
    cbn [option_map]. unfold assemble. rewrite length_words_bytes, Hl. cbn. by rewrite app_nil_r.
  - apply Forall_app in Hws as [Hf Hr]. apply Forall_app in Hr as [_ Hr]. rewrite !length_app, length_replicate in Hl.
    rewrite <- !app_assoc. rewrite (pton_ends _ _ (read_gap f r sc Hf Hr Hsc ltac:(lia))). unfold within.
    destruct (sc <=? 65535); [|done]. cbn [option_map]. rewrite (assemble_gap f k r) by lia. done.
Qed.

(** ** Theorems *)

(** C34: IPv6 addresses as text.  The parser of asio returns on every string, and what it
    accepts has 16 bytes and a scope of 16 bits (its buffers never overflow).  The text of
    an address, with the first run of zero words compressed, is shorter than the buffer of
    256 characters that callers give, and parsing it gives the address and the scope back.
    Only a scope of more than 16 bits, which is printed, is refused when it is read. *)
Theorem address_text_round_trip :
  (forall src, exists r, inet_pton6 (pton_fuel src) src = Ok r
     /\ match r with None => True | Some (bytes, sc) => length bytes = 16%nat /\ Forall is_u8 bytes /\ is_word sc end)
  /\ forall bytes sc, length bytes = 16%nat -> Forall is_u8 bytes -> is_u32 sc ->
       let text := inet_ntop6 bytes sc in
       (length text < max_addr_v6_str_len)%nat
       /\ inet_pton6 (pton_fuel text) text = Ok (if sc <=? 65535 then Some (bytes, sc) else None).
Proof.
  split; [apply pton_well_formed|]. intros bytes sc Hlen Hb Hsc text. split.
  { unfold text, inet_ntop6. fold (scope_text sc). rewrite length_app.
    pose proof (length_ntop 8 true true bytes). pose proof (length_scope_text sc). unfold max_addr_v6_str_len. lia. }
  by apply read_printed.
Qed.

(** ** Witnesses *)

Lemma address_text_round_trip_witness :
  let bytes := [254; 128] ++ replicate 12 0 ++ [0; 1] in
  inet_ntop6 bytes 3 = [102; 101; 56; 48; 58; 58; 49; 37; 51]
  /\ inet_pton6 21 (inet_ntop6 bytes 3) = Ok (Some (bytes, 3)) /\ inet_pton6 29 (inet_ntop6 bytes 65536) = Ok None.
Proof.
  cbv zeta. split; [reflexivity|].
  pose proof (proj2 address_text_round_trip ([254; 128] ++ replicate 12 0 ++ [0; 1])) as Hrt.
  assert (Forall is_u8 ([254; 128] ++ replicate 12 0 ++ [0; 1])) as Hb by (repeat constructor; unfold is_u8; lia).
  split.
  - apply (Hrt 3); [reflexivity|exact Hb|unfold is_u32; lia].
  - apply (Hrt 65536); [reflexivity|exact Hb|unfold is_u32; lia].
Defined.
