(* ===== verification/IpAddress.v ===== *)
(** * IpAddress: IP addresses as values

    [asio/ip/address_v4.hpp], [address_v6.hpp], [address.hpp] and their [.ipp]
    files: the bytes an address keeps in memory, the conversions, the tests on
    an address and the orders.  The byte-order functions are those of
    [socket_ops.ipp] that asio writes itself; [htonl] and [ntohl] do the same. *)

From stdpp Require Import base list.
From Stdlib Require Import ZArith Lia.
From S2P Require Import Prelude NetError IpText.
Local Open Scope exchange_scope.
Local Open Scope list_scope.
Local Open Scope Z_scope.

(** ** Definitions *)

(** [value[i]] *)
Definition byte_at (m : list Z) (i : nat) : Z := nth i m 0.

(** *** Byte order: memory of four bytes *)

Definition network_to_host_long (m : list Z) : Z :=
  Z.lor (Z.lor (Z.lor (Z.shiftl (byte_at m 0) 24) (Z.shiftl (byte_at m 1) 16))
    (Z.shiftl (byte_at m 2) 8)) (byte_at m 3).

Definition host_to_network_long (value : Z) : list Z :=
  [Z.land (Z.shiftr value 24) 255; Z.land (Z.shiftr value 16) 255;
   Z.land (Z.shiftr value 8) 255; Z.land value 255].

(** [memcmp]: only the sign of its result is specified. *)
Fixpoint memcmp (m1 m2 : list Z) : Z :=
  match m1, m2 with
  | b1 :: m1, b2 :: m2 => if b1 =? b2 then memcmp m1 m2 else if b1 <? b2 then -1 else 1
  | _, _ => 0
  end.

(** What the classes throw. *)
Inductive ip_exception : Type := out_of_range | invalid_argument_exception | bad_address_cast.

#[export] Instance ip_exception_eq_dec : EqDecision ip_exception.
Proof. solve_decision. Defined.

(** *** address_v4 *)

Record address_v4 : Type := mkV4 { s_addr : list Z }.

(** The default constructor, and those from bytes and from an integer. *)
Definition v4_any : address_v4 := mkV4 [0; 0; 0; 0].
Definition v4_of_bytes (bytes : list Z) : address_v4 := mkV4 bytes.
Definition v4_of_uint (addr : Z) : address_v4 := mkV4 (host_to_network_long addr).
Definition v4_to_bytes (a : address_v4) : list Z := s_addr a.
Definition to_uint (a : address_v4) : Z := network_to_host_long (s_addr a).

Definition v4_is_loopback (a : address_v4) : bool := Z.land (to_uint a) 0xFF000000 =? 0x7F000000.
Definition v4_is_unspecified (a : address_v4) : bool := to_uint a =? 0.
Definition is_class_a (a : address_v4) : bool := Z.land (to_uint a) 0x80000000 =? 0.
Definition is_class_b (a : address_v4) : bool := Z.land (to_uint a) 0xC0000000 =? 0x80000000.
Definition is_class_c (a : address_v4) : bool := Z.land (to_uint a) 0xE0000000 =? 0xC0000000.
Definition v4_is_multicast (a : address_v4) : bool := Z.land (to_uint a) 0xF0000000 =? 0xE0000000.

(** The deprecated static functions. *)
Definition v4_broadcast (addr mask : address_v4) : address_v4 :=
  v4_of_uint (Z.lor (to_uint addr) (Z.lxor (to_uint mask) 0xFFFFFFFF)).
Definition v4_netmask (addr : address_v4) : address_v4 :=
  if is_class_a addr then v4_of_uint 0xFF000000
  else if is_class_b addr then v4_of_uint 0xFFFF0000
  else if is_class_c addr then v4_of_uint 0xFFFFFF00
  else v4_of_uint 0xFFFFFFFF.

Definition v4_eqb (a1 a2 : address_v4) : bool := forallb (fun i => byte_at (s_addr a1) i =? byte_at (s_addr a2) i) [0; 1; 2; 3]%nat.
Definition v4_ltb (a1 a2 : address_v4) : bool := to_uint a1 <? to_uint a2.

(** *** address_v6 *)

Record address_v6 : Type := mkV6 { s6_addr : list Z; scope_id_ : Z }.

Definition v6_any : address_v6 := mkV6 (replicate 16 0) 0.
Definition v6_loopback : address_v6 := mkV6 (replicate 15 0 ++ [1]) 0.
Definition v6_of_bytes (bytes : list Z) (sc : Z) : address_v6 := mkV6 bytes sc.
Definition v6_to_bytes (a : address_v6) : list Z := s6_addr a.

(** The bytes from [i] to [j - 1] are zero. *)
Definition zero_bytes (m : list Z) (i j : nat) : bool := forallb (fun k => byte_at m k =? 0) (seq i (j - i)).

Definition v6_is_loopback (a : address_v6) : bool := zero_bytes (s6_addr a) 0 15 && (byte_at (s6_addr a) 15 =? 1).
Definition v6_is_unspecified (a : address_v6) : bool := zero_bytes (s6_addr a) 0 16.
Definition is_link_local (a : address_v6) : bool :=
  (byte_at (s6_addr a) 0 =? 0xfe) && (Z.land (byte_at (s6_addr a) 1) 0xc0 =? 0x80).
Definition is_site_local (a : address_v6) : bool :=
  (byte_at (s6_addr a) 0 =? 0xfe) && (Z.land (byte_at (s6_addr a) 1) 0xc0 =? 0xc0).
Definition is_v4_mapped (a : address_v6) : bool :=
  zero_bytes (s6_addr a) 0 10 && (byte_at (s6_addr a) 10 =? 0xff) && (byte_at (s6_addr a) 11 =? 0xff).
Definition is_v4_compatible (a : address_v6) : bool :=
  zero_bytes (s6_addr a) 0 12
  && negb (zero_bytes (s6_addr a) 12 15 && ((byte_at (s6_addr a) 15 =? 0) || (byte_at (s6_addr a) 15 =? 1))).
Definition v6_is_multicast (a : address_v6) : bool := byte_at (s6_addr a) 0 =? 0xff.

(** [is_multicast_global] and its like: the scope in the second byte. *)
Definition is_multicast_scope (code : Z) (a : address_v6) : bool :=
  (byte_at (s6_addr a) 0 =? 0xff) && (Z.land (byte_at (s6_addr a) 1) 0x0f =? code).
Definition is_multicast_global : address_v6 -> bool := is_multicast_scope 0x0e.
Definition is_multicast_link_local : address_v6 -> bool := is_multicast_scope 0x02.
Definition is_multicast_node_local : address_v6 -> bool := is_multicast_scope 0x01.
Definition is_multicast_org_local : address_v6 -> bool := is_multicast_scope 0x08.
Definition is_multicast_site_local : address_v6 -> bool := is_multicast_scope 0x05.

Definition v6_eqb (a1 a2 : address_v6) : bool :=
  (memcmp (s6_addr a1) (s6_addr a2) =? 0) && (scope_id_ a1 =? scope_id_ a2).
Definition v6_ltb (a1 a2 : address_v6) : bool :=
  let memcmp_result := memcmp (s6_addr a1) (s6_addr a2) in
  if memcmp_result <? 0 then true
  else if memcmp_result >? 0 then false
  else scope_id_ a1 <? scope_id_ a2.

(** The last four bytes; [make_address_v4(v4_mapped, a)], the member [to_v4],
    and the ways back. *)
Definition last_bytes (a : address_v6) : list Z := byte_at (s6_addr a) <$> [12; 13; 14; 15]%nat.
Definition make_address_v4_mapped (a : address_v6) : address_v4 + ip_exception :=
  if negb (is_v4_mapped a) then inr bad_address_cast else inl (v4_of_bytes (last_bytes a)).
Definition v6_to_v4 (a : address_v6) : address_v4 + ip_exception :=
  if negb (is_v4_mapped a) && negb (is_v4_compatible a) then inr bad_address_cast
  else inl (v4_of_bytes (last_bytes a)).
Definition make_address_v6_mapped (a : address_v4) : address_v6 :=
  v6_of_bytes (replicate 10 0 ++ [0xFF; 0xFF] ++ v4_to_bytes a) 0.
Definition v4_compatible (a : address_v4) : address_v6 :=
  v6_of_bytes (replicate 12 0 ++ v4_to_bytes a) 0.

(** Text, as in [IpText]: [None] is [invalid_argument]. *)
Definition v6_to_string (a : address_v6) : list Z := inet_ntop6 (s6_addr a) (scope_id_ a).
Definition make_address_v6 (fuel : nat) (str : list Z) : outcome (option address_v6) :=
  let* r := inet_pton6 fuel str in
  Ok (option_map (fun '(bytes, sc) => v6_of_bytes bytes sc) r).

(** *** address: either family *)

Inductive family : Type := ipv4 | ipv6.

#[export] Instance family_eq_dec : EqDecision family.
Proof. solve_decision. Defined.

Record address : Type := mkAddress { type_ : family; ipv4_address_ : address_v4; ipv6_address_ : address_v6 }.

Definition address_of_v4 (a : address_v4) : address := mkAddress ipv4 a v6_any.
Definition address_of_v6 (a : address_v6) : address := mkAddress ipv6 v4_any a.
Definition is_v4 (a : address) : bool := match type_ a with ipv4 => true | ipv6 => false end.
Definition is_v6 (a : address) : bool := match type_ a with ipv6 => true | ipv4 => false end.
Definition to_v4 (a : address) : address_v4 + ip_exception :=
  match type_ a with ipv4 => inl (ipv4_address_ a) | ipv6 => inr bad_address_cast end.
Definition to_v6 (a : address) : address_v6 + ip_exception :=
  match type_ a with ipv6 => inl (ipv6_address_ a) | ipv4 => inr bad_address_cast end.

Definition is_loopback (a : address) : bool :=
  match type_ a with ipv4 => v4_is_loopback (ipv4_address_ a) | ipv6 => v6_is_loopback (ipv6_address_ a) end.
Definition is_unspecified (a : address) : bool :=
  match type_ a with ipv4 => v4_is_unspecified (ipv4_address_ a) | ipv6 => v6_is_unspecified (ipv6_address_ a) end.
Definition is_multicast (a : address) : bool :=
  match type_ a with ipv4 => v4_is_multicast (ipv4_address_ a) | ipv6 => v6_is_multicast (ipv6_address_ a) end.

(** [ipv4 < ipv6] as enumerators. *)
Definition family_ltb (f1 f2 : family) : bool := match f1, f2 with ipv4, ipv6 => true | _, _ => false end.

Definition address_eqb (a1 a2 : address) : bool :=
  if negb (bool_decide (type_ a1 = type_ a2)) then false
  else match type_ a1 with
       | ipv6 => v6_eqb (ipv6_address_ a1) (ipv6_address_ a2)
       | ipv4 => v4_eqb (ipv4_address_ a1) (ipv4_address_ a2)
       end.
Definition address_ltb (a1 a2 : address) : bool :=
  if family_ltb (type_ a1) (type_ a2) then true
  else if family_ltb (type_ a2) (type_ a1) then false
  else match type_ a1 with
       | ipv6 => v6_ltb (ipv6_address_ a1) (ipv6_address_ a2)
       | ipv4 => v4_ltb (ipv4_address_ a1) (ipv4_address_ a2)
       end.

Example to_uint_1 : to_uint (v4_of_bytes [192; 168; 1; 2]) = 3232235778.
Proof. reflexivity. Qed.
Example class_1 : v4_to_bytes (v4_netmask (v4_of_uint 3232235778)) = [255; 255; 255; 0].
Proof. reflexivity. Qed.

(** ** Facts *)

(** *** Bytes as the number they write, the first the most significant *)

Fixpoint be_value (l : list Z) : Z :=
  match l with [] => 0 | b :: l => b * 256 ^ Z.of_nat (length l) + be_value l end.

Lemma pow256_pos n : 0 < 256 ^ Z.of_nat n.
Proof. apply Z.pow_pos_nonneg; lia. Qed.

Lemma pow256_S n : 256 ^ Z.of_nat (S n) = 256 * 256 ^ Z.of_nat n.
Proof. rewrite Nat2Z.inj_succ, Z.pow_succ_r by lia. done. Qed.

Lemma be_value_range l : Forall is_u8 l -> 0 <= be_value l < 256 ^ Z.of_nat (length l).
Proof.
  induction 1 as [|b l Hb _ IH]; cbn [be_value length]; [simpl; lia|]. rewrite pow256_S.
  unfold is_u8 in Hb. nia.
Qed.

Lemma memcmp_value l : forall m, length l = length m -> Forall is_u8 l -> Forall is_u8 m ->
  (memcmp l m < 0 <-> be_value l < be_value m) /\ (memcmp l m = 0 <-> be_value l = be_value m)
  /\ (memcmp l m = 0 <-> l = m).
Proof.
  induction l as [|b l IH]; intros [|c m] Hlen Hl Hm; try discriminate; cbn [memcmp be_value]; [done|].
  injection Hlen as Hlen. rewrite <- Hlen. apply Forall_cons in Hl as [Hb Hl]. apply Forall_cons in Hm as [Hc Hm].
  pose proof (be_value_range l Hl). pose proof (be_value_range m Hm) as Hr. rewrite <- Hlen in Hr.
  destruct (IH m Hlen Hl Hm) as (H1 & H2 & H3). case_Z.
  - subst c. split_and!; [lia|lia|]. rewrite H3. split; [by intros ->|by intros [= ->]].
  - split_and!; [nia|nia|]. split; [lia|intros [= ??]; lia].
  - split_and!; [nia|nia|]. split; [lia|intros [= ??]; lia].
Qed.

(** A value below a power of two and a multiple of it do not overlap. *)
Lemma lor_low a b n : 0 <= n -> 0 <= b < 2 ^ n -> Z.lor (Z.shiftl a n) b = a * 2 ^ n + b.
Proof.
  intros Hn Hb. assert (Z.land (Z.shiftl a n) b = 0) as Hl.
  { apply Z.bits_inj'. intros i Hi. rewrite Z.land_spec, Z.bits_0. destruct (Z.lt_ge_cases i n).
    - by rewrite Z.shiftl_spec_low.
    - rewrite <- (Z.mod_small b (2 ^ n)), Z.mod_pow2_bits_high by lia. apply andb_false_r. }
  rewrite <- Z.lxor_lor, <- Z.add_nocarry_lxor, Z.shiftl_mul_pow2 by done || lia. reflexivity.
Qed.

Definition v4_ok (a : address_v4) : Prop := length (s_addr a) = 4%nat /\ Forall is_u8 (s_addr a).
Definition v6_ok (a : address_v6) : Prop := length (s6_addr a) = 16%nat /\ Forall is_u8 (s6_addr a) /\ is_u32 (scope_id_ a).

Lemma four_bytes (m : list Z) : length m = 4%nat -> exists b0 b1 b2 b3, m = [b0; b1; b2; b3].
Proof. intros H. destruct m as [|b0 [|b1 [|b2 [|b3 [|]]]]]; try discriminate. eauto. Qed.

Lemma to_uint_value a : v4_ok a -> to_uint a = be_value (s_addr a).
Proof.
  intros [Hl Hb]. unfold to_uint, network_to_host_long. destruct (four_bytes _ Hl) as (b0 & b1 & b2 & b3 & Hs).
  rewrite Hs in *. cbn [byte_at nth]. repeat (apply Forall_cons in Hb as [? Hb]). unfold is_u8 in *.
  replace (Z.lor (Z.shiftl b0 24) (Z.shiftl b1 16)) with (Z.shiftl (b0 * 256 + b1) 16).
  2:{ change (b0 * 256) with (b0 * 2 ^ 8). rewrite <- (lor_low b0 b1 8) by lia. rewrite Z.shiftl_lor, Z.shiftl_shiftl by lia. done. }
  replace (Z.lor (Z.shiftl (b0 * 256 + b1) 16) (Z.shiftl b2 8)) with (Z.shiftl ((b0 * 256 + b1) * 256 + b2) 8).
  2:{ change ((b0 * 256 + b1) * 256) with ((b0 * 256 + b1) * 2 ^ 8). rewrite <- (lor_low (b0 * 256 + b1) b2 8) by lia. rewrite Z.shiftl_lor, Z.shiftl_shiftl by lia. done. }
  rewrite lor_low by lia. cbn [be_value length]. simpl. lia.
Qed.

Lemma host_to_network_div v : host_to_network_long v = [v / 2 ^ 24 mod 256; v / 2 ^ 16 mod 256; v / 2 ^ 8 mod 256; v mod 256].
Proof.
  unfold host_to_network_long. change 255 with (Z.ones 8).
  rewrite !Z.land_ones, !Z.shiftr_div_pow2 by lia. reflexivity.
Qed.

Lemma v4_of_uint_ok v : v4_ok (v4_of_uint v).
Proof.
  unfold v4_ok, v4_of_uint. cbn [s_addr]. rewrite host_to_network_div. split; [done|].
  repeat constructor; apply Z.mod_pos_bound; lia.
Qed.

Lemma to_uint_of_uint v : is_u32 v -> to_uint (v4_of_uint v) = v.
Proof.
  intros Hv. rewrite to_uint_value by apply v4_of_uint_ok. unfold v4_of_uint. cbn [s_addr].
  rewrite host_to_network_div. cbn [be_value length]. unfold is_u32 in Hv. simpl.
  Z.div_mod_to_equations. lia.
Qed.

Lemma to_uint_range a : v4_ok a -> is_u32 (to_uint a).
Proof. intros Ha. rewrite to_uint_value by done. destruct Ha as [Hl Hb]. pose proof (be_value_range _ Hb). rewrite Hl in *. done. Qed.

Lemma be_value_inj l m : length l = length m -> Forall is_u8 l -> Forall is_u8 m -> be_value l = be_value m -> l = m.
Proof. intros Hlen Hl Hm. destruct (memcmp_value l m Hlen Hl Hm) as (_ & H2 & H3). intros H. by apply H3, H2. Qed.

Lemma to_uint_inj a b : v4_ok a -> v4_ok b -> to_uint a = to_uint b -> a = b.
Proof.
  intros Ha Hb. rewrite !to_uint_value by done. destruct a as [m], b as [m'], Ha as [Hl Hm], Hb as [Hl' Hm']. cbn [s_addr] in *.
  intros H. f_equal. apply be_value_inj; congruence || done.
Qed.

Lemma v4_eqb_spec a b : v4_ok a -> v4_ok b -> v4_eqb a b = true <-> a = b.
Proof.
  intros Ha Hb. unfold v4_eqb. destruct a as [m], b as [m'], Ha as [Hl _], Hb as [Hl' _]. cbn [s_addr] in *.
  destruct (four_bytes _ Hl) as (b0 & b1 & b2 & b3 & ->), (four_bytes _ Hl') as (c0 & c1 & c2 & c3 & ->). cbn.
  rewrite !andb_true_iff, !Z.eqb_eq. split; [by intros (-> & -> & -> & -> & _)|by intros [= -> -> -> ->]].
Qed.

Lemma v6_eqb_spec a b : v6_ok a -> v6_ok b -> v6_eqb a b = true <-> a = b.
Proof.
  intros (Hl & Hb & _) (Hl' & Hb' & _). unfold v6_eqb. rewrite andb_true_iff, !Z.eqb_eq.
  destruct (memcmp_value (s6_addr a) (s6_addr b)) as (_ & _ & ->); [congruence|done|done|].
  destruct a, b; cbn [s6_addr scope_id_]. split; [by intros [-> ->]|by intros [= -> ->]].
Qed.

Lemma v6_ltb_spec a b : v6_ok a -> v6_ok b -> v6_ltb a b = true <->
  be_value (s6_addr a) < be_value (s6_addr b)
  \/ be_value (s6_addr a) = be_value (s6_addr b) /\ scope_id_ a < scope_id_ b.
Proof.
  intros (Hl & Hb & _) (Hl' & Hb' & _). unfold v6_ltb. rewrite Z.gtb_ltb.
  destruct (memcmp_value (s6_addr a) (s6_addr b)) as (H1 & H2 & _); [congruence|done|done|].
  case_Z; cbv beta iota; rewrite ?Z.ltb_lt; (split; [intros|]); lia || done.
Qed.

Lemma v4_ltb_spec a b : v4_ltb a b = true <-> to_uint a < to_uint b.
Proof. apply Z.ltb_lt. Qed.

(** *** Conversions between the families *)

Lemma sixteen_bytes (m : list Z) : length m = 16%nat -> m = (byte_at m <$> seq 0 16).
Proof. intros H. do 16 (destruct m as [|? m]; [discriminate|]). by destruct m. Qed.

Theorem mapped_round_trip a : v4_ok a ->
  is_v4_mapped (make_address_v6_mapped a) = true /\ make_address_v4_mapped (make_address_v6_mapped a) = inl a
  /\ v6_to_v4 (make_address_v6_mapped a) = inl a.
Proof.
  intros [Hl _]. destruct a as [m]. destruct (four_bytes m Hl) as (b0 & b1 & b2 & b3 & ->). done.
Qed.

(** Every mapped address without a scope comes from one of IPv4. *)
Theorem mapped_onto b : v6_ok b -> scope_id_ b = 0 -> is_v4_mapped b = true ->
  exists a, make_address_v4_mapped b = inl a /\ make_address_v6_mapped a = b.
Proof.
  intros (Hl & _) Hs Hm. unfold make_address_v4_mapped. rewrite Hm. cbn [negb]. eexists. split; [done|].
  destruct b as [m sc]. cbn [s6_addr scope_id_] in *. subst sc. unfold is_v4_mapped, zero_bytes in Hm.
  cbn [s6_addr] in Hm. rewrite !andb_true_iff, forallb_forall, !Z.eqb_eq in Hm. destruct Hm as [[H0 H10] H11].
  unfold make_address_v6_mapped, v6_of_bytes, v4_to_bytes, last_bytes. cbn [s_addr v4_of_bytes s6_addr]. f_equal.
  rewrite (sixteen_bytes m Hl) at 2. cbn [seq fmap list_fmap]. rewrite H10, H11.
  repeat match goal with |- context [byte_at m ?i] => lazymatch i with
    | 12%nat => fail | 13%nat => fail | 14%nat => fail | 15%nat => fail
    | _ => rewrite (proj1 (Z.eqb_eq _ _) (H0 i ltac:(apply list_elem_of_In, elem_of_seq; lia))) end end.
  done.
Qed.

Theorem compatible_round_trip a : v4_ok a -> to_uint a <> 0 -> to_uint a <> 1 ->
  is_v4_compatible (v4_compatible a) = true /\ v6_to_v4 (v4_compatible a) = inl a.
Proof.
  intros Ha H0 H1. rewrite to_uint_value in * by done. destruct Ha as [Hl Hb], a as [m].
  destruct (four_bytes m Hl) as (b0 & b1 & b2 & b3 & ->). cbn [s_addr be_value length] in *.
  assert (is_v4_compatible (v4_compatible (mkV4 [b0; b1; b2; b3])) = true) as Hc.
  { unfold is_v4_compatible, zero_bytes, byte_at. cbn. case_Z; cbn; try done; subst; simpl in *; lia. }
  split; [done|]. unfold v6_to_v4. rewrite Hc, andb_false_r. done.
Qed.

(** *** The orders are total and agree with equality *)

Definition ip_ok (a : address) : Prop := v4_ok (ipv4_address_ a) /\ v6_ok (ipv6_address_ a).

(** What the order compares: the family, the number and the scope. *)
Definition rank (a : address) : Z * Z * Z :=
  match type_ a with
  | ipv4 => (4, to_uint (ipv4_address_ a), 0)
  | ipv6 => (6, be_value (s6_addr (ipv6_address_ a)), scope_id_ (ipv6_address_ a))
  end.
Definition rank_lt (x y : Z * Z * Z) : Prop :=
  x.1.1 < y.1.1 \/ x.1.1 = y.1.1 /\ (x.1.2 < y.1.2 \/ x.1.2 = y.1.2 /\ x.2 < y.2).

Theorem address_ltb_rank a b : ip_ok a -> ip_ok b ->
  (address_ltb a b = true <-> rank_lt (rank a) (rank b)) /\ (address_eqb a b = true <-> rank a = rank b).
Proof.
  intros [Ha4 Ha6] [Hb4 Hb6]. unfold address_ltb, address_eqb, rank, rank_lt.
  destruct (type_ a), (type_ b); cbn [family_ltb negb fst snd].
  - rewrite bool_decide_eq_true_2 by done. cbn [negb]. rewrite v4_ltb_spec, v4_eqb_spec by done.
    split; [lia|]. split; [by intros ->|]. intros [= H]. by apply to_uint_inj.
  - rewrite bool_decide_eq_false_2 by done. cbn [negb]. split; [split; [lia|done]|done].
  - rewrite bool_decide_eq_false_2 by done. cbn [negb]. split; [split; [done|lia]|done].
  - rewrite bool_decide_eq_true_2 by done. cbn [negb]. rewrite v6_ltb_spec, v6_eqb_spec by done.
    split; [lia|]. split; [by intros ->|]. intros [= H Hs]. destruct Ha6 as (Hl & Hb & _), Hb6 as (Hl' & Hb' & _).
    destruct (ipv6_address_ a), (ipv6_address_ b). cbn in *. f_equal; [|done]. apply be_value_inj; congruence.
Qed.

Theorem address_order_total a b c : ip_ok a -> ip_ok b -> ip_ok c ->
  address_ltb a a = false /\ (address_ltb a b = true -> address_ltb b c = true -> address_ltb a c = true)
  /\ (address_ltb a b = true \/ address_eqb a b = true \/ address_ltb b a = true).
Proof.
  intros Ha Hb Hc. rewrite <- not_true_iff_false, (proj1 (address_ltb_rank a a Ha Ha)), (proj1 (address_ltb_rank a b Ha Hb)),
    (proj1 (address_ltb_rank b c Hb Hc)), (proj1 (address_ltb_rank a c Ha Hc)), (proj1 (address_ltb_rank b a Hb Ha)),
    (proj2 (address_ltb_rank a b Ha Hb)).
  unfold rank_lt. destruct (rank a) as [[??]?], (rank b) as [[??]?], (rank c) as [[??]?]. cbn [fst snd].
  split; [lia|]. split; [lia|]. rewrite !pair_equal_spec. lia.
Qed.
