(* ===== verification/AddressRange.v ===== *)
(** * AddressRange: iterators over addresses and the ranges they bound

    [basic_address_iterator] and [basic_address_range] of [asio/ip/], which the
    source specialises for the two families.  [AddressIterator] is what a
    specialisation offers, [AddressLaws] what it promises; the facts on ranges
    are proved from the promise.  The last part is the arithmetic of prefixes. *)

From stdpp Require Import base list list_numbers.
From Stdlib Require Import ZArith Lia.
From S2P Require Import Prelude NetError IpText IpAddress.
Local Open Scope exchange_scope.
Local Open Scope list_scope.
Local Open Scope Z_scope.

(** ** Definitions *)

(** An iterator is the address it points to.  [number] is the address as a
    number below [2 ^ width], [zone] what it holds beside it (the scope id). *)
Class AddressIterator (A : Type) : Type := {
  increment : A -> A;
  decrement : A -> A;
  addr_eqb : A -> A -> bool;
  addr_ltb : A -> A -> bool;
  addr_geb : A -> A -> bool;
  width : Z;
  number : A -> Z;
  zone : A -> Z;
  addr_ok : A -> Prop }.

Record range (A : Type) : Type := mkRange { begin_ : A; end_ : A }.
Arguments mkRange {A}. Arguments begin_ {A}. Arguments end_ {A}.

(** [find]: an iterator to the address, or [end()]. *)
Definition find `{AddressIterator A} (r : range A) (addr : A) : A :=
  if addr_geb addr (begin_ r) && addr_ltb addr (end_ r) then addr else end_ r.

(** [for (it = r.begin(); it != r.end(); ++it)]: the addresses visited. *)
Fixpoint visit `{AddressIterator A} (fuel : nat) (r : range A) : outcome (list A) :=
  match fuel with
  | O => Fault OutOfFuel
  | S fuel =>
      if addr_eqb (begin_ r) (end_ r) then Ok []
      else
        let* rest := visit fuel (mkRange (increment (begin_ r)) (end_ r)) in
        Ok (begin_ r :: rest)
  end.

(** *** IPv4 *)

Definition v4_increment (a : address_v4) : address_v4 := v4_of_uint (Z.land (u32 (to_uint a + 1)) 0xFFFFFFFF).
Definition v4_decrement (a : address_v4) : address_v4 := v4_of_uint (Z.land (u32 (to_uint a - 1)) 0xFFFFFFFF).

#[export] Instance v4_iterator : AddressIterator address_v4 := {|
  increment := v4_increment;
  decrement := v4_decrement;
  addr_eqb := v4_eqb;
  addr_ltb := v4_ltb;
  addr_geb := fun a1 a2 => to_uint a1 >=? to_uint a2;
  width := 32;
  number := to_uint;
  zone := fun _ => 0;
  addr_ok := v4_ok |}.

Definition v4_size (r : range address_v4) : Z := u32 (to_uint (end_ r) - to_uint (begin_ r)).
Definition v4_empty (r : range address_v4) : bool := v4_size r =? 0.

(** *** IPv6

    The loops go from byte 15 to byte 0, here from the head of the reversed bytes. *)

Fixpoint carry (bytes : list Z) : list Z :=
  match bytes with
  | [] => []
  | b :: bytes => if b <? 0xFF then b + 1 :: bytes else 0 :: carry bytes
  end.

Fixpoint borrow (bytes : list Z) : list Z :=
  match bytes with
  | [] => []
  | b :: bytes => if b >? 0 then b - 1 :: bytes else 0xFF :: borrow bytes
  end.

Definition v6_increment (a : address_v6) : address_v6 := mkV6 (reverse (carry (reverse (s6_addr a)))) (scope_id_ a).
Definition v6_decrement (a : address_v6) : address_v6 := mkV6 (reverse (borrow (reverse (s6_addr a)))) (scope_id_ a).

#[export] Instance v6_iterator : AddressIterator address_v6 := {|
  increment := v6_increment;
  decrement := v6_decrement;
  addr_eqb := v6_eqb;
  addr_ltb := v6_ltb;
  addr_geb := fun a1 a2 => negb (v6_ltb a1 a2);
  width := 128;
  number := fun a => be_value (s6_addr a);
  zone := scope_id_;
  addr_ok := v6_ok |}.

Definition v6_empty (r : range address_v6) : bool := v6_eqb (begin_ r) (end_ r).

(** ** What an iterator promises *)

Class AddressLaws (A : Type) `{AddressIterator A} : Prop := {
  width_pos : 0 <= width;
  number_range a : addr_ok a -> 0 <= number a < 2 ^ width;
  number_inj a b : addr_ok a -> addr_ok b -> number a = number b -> zone a = zone b -> a = b;
  increment_ok a : addr_ok a -> addr_ok (increment a) /\ zone (increment a) = zone a
    /\ number (increment a) = (number a + 1) mod 2 ^ width;
  decrement_ok a : addr_ok a -> addr_ok (decrement a) /\ zone (decrement a) = zone a
    /\ number (decrement a) = (number a - 1) mod 2 ^ width;
  eqb_spec a b : addr_ok a -> addr_ok b -> addr_eqb a b = true <-> a = b;
  ltb_number a b : addr_ok a -> addr_ok b -> zone a = zone b -> addr_ltb a b = (number a <? number b);
  geb_number a b : addr_ok a -> addr_ok b -> zone a = zone b -> addr_geb a b = (number b <=? number a) }.

(** ** Ranges *)

Section Ranges.
Context {A : Type} `{AddressLaws A}.

(** Going on and back is where one was. *)
Lemma increment_decrement a : addr_ok a -> decrement (increment a) = a /\ increment (decrement a) = a.
Proof.
  intros Ha. pose proof (number_range a Ha) as Hn. destruct (increment_ok a Ha) as (Hi & Hzi & Hni).
  destruct (decrement_ok a Ha) as (Hd & Hzd & Hnd).
  destruct (decrement_ok _ Hi) as (Hdi & Hzdi & Hndi), (increment_ok _ Hd) as (Hid & Hzid & Hnid).
  split; apply number_inj; try done; try congruence; rewrite ?Hndi, ?Hnid, ?Hni, ?Hnd.
  - rewrite Zminus_mod_idemp_l, Z.add_simpl_r. by apply Z.mod_small.
  - rewrite Zplus_mod_idemp_l, Z.sub_add. by apply Z.mod_small.
Qed.

(** The loop over a range whose end is [n] places behind its begin, perhaps past
    the last address, visits these [n] addresses. *)
Lemma visit_range n : forall fuel r, (n < fuel)%nat -> addr_ok (begin_ r) -> addr_ok (end_ r) ->
  zone (begin_ r) = zone (end_ r) -> number (begin_ r) + Z.of_nat n <= 2 ^ width -> Z.of_nat n < 2 ^ width ->
  number (end_ r) = (number (begin_ r) + Z.of_nat n) mod 2 ^ width ->
  exists l, visit fuel r = Ok l /\ number <$> l = seqZ (number (begin_ r)) (Z.of_nat n)
    /\ Forall (fun a => addr_ok a /\ zone a = zone (begin_ r)) l.
Proof.
  induction n as [|n IH]; intros [|fuel] [b e] Hf Hb He Hz Hle Hlt Hend; try lia; cbn [visit begin_ end_] in *;
    pose proof (number_range b Hb) as Hnb.
  - replace (addr_eqb b e) with true; [by exists []|]. symmetry. apply eqb_spec; try done.
    apply number_inj; try done. rewrite Hend, Z.add_0_r. by rewrite Z.mod_small.
  - destruct (addr_eqb b e) eqn:E.
    { apply eqb_spec in E; try done. subst e. exfalso.
      destruct (Z.eq_dec (number b + Z.of_nat (S n)) (2 ^ width)) as [Hw|].
      - rewrite Hw, Z.mod_same in Hend; lia.
      - rewrite Z.mod_small in Hend; lia. }
    destruct (increment_ok b Hb) as (Hi & Hzi & Hni).
    destruct (Z.eq_dec (number b + 1) (2 ^ width)) as [Hw|Hw].
    + assert (n = 0%nat) as -> by lia. rewrite Hw, Z.mod_same in Hni by lia.
      destruct (IH fuel (mkRange (increment b) e)) as (l & -> & Hl & Hall); cbn [begin_ end_]; try done; try lia; try congruence.
      { rewrite Hend. change (Z.of_nat 1) with 1. rewrite Hw, Hni, Z.mod_same, Z.mod_small by lia. done. }
      exists (b :: l). cbn [obind begin_] in *. split; [done|]. change (seqZ _ (Z.of_nat 0)) with (@nil Z) in Hl.
      apply fmap_nil_inv in Hl as ->. rewrite (seqZ_cons (number b)) by lia. cbn. by repeat constructor.
    + rewrite Z.mod_small in Hni by lia.
      destruct (IH fuel (mkRange (increment b) e)) as (l & -> & Hl & Hall); cbn [begin_ end_]; try done; try lia; try congruence.
      { rewrite Hend, Hni. f_equal. lia. }
      exists (b :: l). cbn [obind begin_] in *. split; [done|]. split.
      * rewrite seqZ_cons by lia. cbn [fmap list_fmap]. f_equal. rewrite Hl, Hni. f_equal; lia.
      * constructor; [done|]. eapply Forall_impl; [exact Hall|]. intros a [? ->]. done.
Qed.

(** [find] on a range that does not pass the last address. *)
Lemma find_range r addr : addr_ok (begin_ r) -> addr_ok (end_ r) -> addr_ok addr ->
  zone (begin_ r) = zone (end_ r) -> zone addr = zone (end_ r) ->
  find r addr = end_ r \/ find r addr = addr /\ number (begin_ r) <= number addr < number (end_ r).
Proof.
  intros Hb He Ha Hz Hza. unfold find. rewrite geb_number, ltb_number by congruence.
  case_Z; cbn [andb]; auto.
Qed.

Lemma find_in_range r addr : addr_ok (begin_ r) -> addr_ok (end_ r) -> addr_ok addr ->
  zone (begin_ r) = zone (end_ r) -> zone addr = zone (end_ r) ->
  number (begin_ r) <= number addr < number (end_ r) -> find r addr = addr.
Proof.
  intros Hb He Ha Hz Hza Hin. unfold find. rewrite geb_number, ltb_number by congruence.
  case_Z; cbn [andb]; done || lia.
Qed.

(** What a loop visits, by [visit_range], and what [find] finds. *)
Definition visits (r : range A) (fuel : nat) (l : list A) (first count : Z) : Prop :=
  visit fuel r = Ok l /\ number <$> l = seqZ first count /\ Forall (fun a => addr_ok a /\ zone a = zone (begin_ r)) l.

Lemma visits_elem r fuel l first count z : visits r fuel l first count -> addr_ok z -> zone z = zone (begin_ r) ->
  z ∈ l <-> first <= number z < first + count.
Proof.
  intros (_ & Hl & Hall) Hz Hzo. trans (number z ∈ number <$> l).
  - rewrite list_elem_of_fmap. split; [by exists z|]. intros (y & Hy & Hin).
    rewrite Forall_forall in Hall. destruct (Hall y Hin) as [Hoy Hzy].
    rewrite (number_inj z y); done || congruence.
  - rewrite Hl, elem_of_seqZ. done.
Qed.

Lemma find_visits r fuel l first count z : visits r fuel l first count -> first = number (begin_ r) ->
  number (end_ r) = first + count -> addr_ok (begin_ r) -> addr_ok (end_ r) -> zone (begin_ r) = zone (end_ r) ->
  addr_ok z -> zone z = zone (begin_ r) -> find r z <> end_ r <-> z ∈ l.
Proof.
  intros Hv -> Hend Hb He Hz Ho Hzz. rewrite (visits_elem r fuel l _ count z) by done. rewrite <- Hend. split.
  - intros Hf. destruct (find_range r z) as [|[_ ?]]; done || congruence.
  - intros Hin. rewrite find_in_range by (done || congruence). intros ->. lia.
Qed.

(** *** Blocks: the addresses whose first [p] bits are those of [a] *)

Definition in_block (p : Z) (a z : A) : Prop :=
  addr_ok z /\ zone z = zone a /\ number z / 2 ^ (width - p) = number a / 2 ^ (width - p).

Definition block_size (p : Z) : Z := 2 ^ (width - p).
Definition block_begin (p : Z) (a : A) : Z := number a / block_size p * block_size p.

Lemma block_size_pos p : p <= width -> 0 < block_size p.
Proof. intros Hp. apply Z.pow_pos_nonneg; lia. Qed.

Lemma in_block_iff p a z : p <= width ->
  in_block p a z <-> addr_ok z /\ zone z = zone a /\ block_begin p a <= number z < block_begin p a + block_size p.
Proof.
  intros Hp. unfold in_block, block_begin. fold (block_size p). pose proof (block_size_pos p Hp).
  split; intros (Hz & Hzo & Hn); (split; [done|]); (split; [done|]).
  - rewrite <- Hn. pose proof (Z.div_mod (number z) (block_size p)). pose proof (Z.mod_pos_bound (number z) (block_size p)). lia.
  - symmetry. apply Z.div_unique with (number z - number a / block_size p * block_size p); lia.
Qed.

Lemma block_fits p a : 0 <= p <= width -> addr_ok a ->
  0 <= block_begin p a /\ block_begin p a + block_size p <= 2 ^ width.
Proof.
  intros Hp Ha. pose proof (number_range a Ha) as Hn. pose proof (block_size_pos p). unfold block_begin.
  assert (2 ^ width = 2 ^ p * block_size p) as Hw by (unfold block_size; rewrite <- Z.pow_add_r by lia; f_equal; lia).
  assert (0 <= number a / block_size p) by (apply Z.div_pos; lia).
  assert (number a / block_size p < 2 ^ p) by (apply Z.div_lt_upper_bound; lia). nia.
Qed.

(** There is an address for every number. *)
Lemma address_at a n : addr_ok a -> 0 <= n < 2 ^ width -> exists b, addr_ok b /\ zone b = zone a /\ number b = n.
Proof.
  intros Ha Hn. assert (forall k : nat, exists b, addr_ok b /\ zone b = zone a
    /\ number b = (number a + Z.of_nat k) mod 2 ^ width) as Hk.
  { induction k as [|k (b & Hb & Hz & Hnb)].
    - exists a. rewrite Z.add_0_r, Z.mod_small by (by apply number_range). done.
    - exists (increment b). destruct (increment_ok b Hb) as (Hi & Hzi & Hni). split; [done|]. split; [congruence|].
      rewrite Hni, Hnb, Zplus_mod_idemp_l. f_equal. lia. }
  destruct (Hk (Z.to_nat ((n - number a) mod 2 ^ width))) as (b & Hb & Hz & Hnb). exists b. split; [done|]. split; [done|].
  pose proof (Z.mod_pos_bound (n - number a) (2 ^ width)). rewrite Hnb, Z2Nat.id, Zplus_mod_idemp_r by lia.
  replace (number a + (n - number a)) with n by lia. by apply Z.mod_small.
Qed.

(** A longer prefix says more. *)
Lemma in_block_shorter p1 p2 a z : p2 <= p1 <= width -> in_block p1 a z -> in_block p2 a z.
Proof.
  intros Hp (Hz & Hzo & Hn). split; [done|]. split; [done|].
  assert (forall x, x / 2 ^ (width - p2) = x / 2 ^ (width - p1) / 2 ^ (p1 - p2)) as Hd.
  { intros x. rewrite Z.div_div, <- Z.pow_add_r by (apply Z.pow_nonzero || apply Z.pow_pos_nonneg || idtac; lia). do 2 f_equal. lia. }
  by rewrite !Hd, Hn.
Qed.

(** A block lies strictly within another exactly when its prefix is longer and one
    of its addresses lies in the other. *)
Lemma block_subset a b p1 p2 : addr_ok a -> addr_ok b -> 0 <= p1 <= width -> 0 <= p2 <= width ->
  p2 < p1 /\ in_block p2 b a
  <-> (forall z, in_block p1 a z -> in_block p2 b z) /\ exists z, in_block p2 b z /\ ~ in_block p1 a z.
Proof.
  intros Ha Hb Hp1 Hp2. split.
  - intros [Hp (_ & Hzo & Hn)]. split.
    + intros z Hz. destruct (in_block_shorter p1 p2 a z) as (? & ? & ?); [lia|done|]. split_and!; done || congruence.
    + destruct (block_fits p2 b) as [Hlo Hhi]; [done..|]. pose proof (block_size_pos p1).
      assert (2 * block_size p1 <= block_size p2) as Hsz.
      { unfold block_size. replace (width - p2) with (width - p1 + 1 + (p1 - p2 - 1)) by lia.
        rewrite !Z.pow_add_r by lia. change (2 ^ 1) with 2. pose proof (Z.pow_pos_nonneg 2 (p1 - p2 - 1)).
        unfold block_size in *. nia. }
      set (n := if decide (block_begin p1 a = block_begin p2 b) then block_begin p2 b + block_size p1 else block_begin p2 b).
      destruct (address_at b n Hb) as (z & Hz & Hzz & Hnz); [unfold n; case_decide; lia|].
      assert (block_begin p1 a <= block_begin p2 b -> block_begin p1 a + block_size p1 <= block_begin p2 b
              \/ block_begin p1 a = block_begin p2 b) as Hle.
      { assert (exists k, block_begin p2 b = k * block_size p1) as [k Hk].
        { exists (number b / block_size p2 * 2 ^ (p1 - p2)). unfold block_begin, block_size.
          rewrite <- Z.mul_assoc, <- Z.pow_add_r by lia. do 2 f_equal. lia. }
        change (block_begin p1 a) with (number a / block_size p1 * block_size p1). rewrite Hk. intros Hq.
        assert (0 < block_size p1) by (apply block_size_pos; lia).
        destruct (Z.lt_trichotomy (number a / block_size p1) k) as [|[->|]]; [left; nia|by right|nia]. }
      exists z. rewrite !in_block_iff by lia. rewrite Hnz. unfold n. case_decide; split.
      * split_and!; done || lia.
      * intros (_ & _ & ?). lia.
      * split_and!; done || lia.
      * intros (_ & _ & ?). lia.
  - intros [Hsub (z & Hz & Hnz)]. assert (in_block p2 b a) as Hba by (by apply Hsub).
    split; [|done]. destruct (Z.lt_ge_cases p2 p1) as [|Hge]; [done|]. exfalso. apply Hnz.
    apply (in_block_shorter p2 p1); [lia|]. destruct Hz as (? & ? & ?), Hba as (_ & ? & ?). split_and!; done || congruence.
Qed.

End Ranges.

(** ** The two families keep the promise *)

#[export] Instance v4_laws : AddressLaws address_v4.
Proof.
  assert (forall z, Z.land (u32 z) 0xFFFFFFFF = z mod 2 ^ 32) as Hland.
  { intros z. change 0xFFFFFFFF with (Z.ones 32). rewrite Z.land_ones by lia. apply Z.mod_mod. lia. }
  constructor; cbn [width number zone addr_ok increment decrement addr_eqb addr_ltb addr_geb v4_iterator].
  - lia.
  - apply to_uint_range.
  - intros a b Ha Hb Hn _. by apply to_uint_inj.
  - intros a Ha. unfold v4_increment. rewrite Hland. split; [apply v4_of_uint_ok|]. split; [done|].
    apply to_uint_of_uint, u32_range.
  - intros a Ha. unfold v4_decrement. rewrite Hland. split; [apply v4_of_uint_ok|]. split; [done|].
    apply to_uint_of_uint, u32_range.
  - apply v4_eqb_spec.
  - reflexivity.
  - intros a b _ _ _. apply Z.geb_leb.
Qed.

(** The value of reversed bytes, the first the least significant. *)
Fixpoint le_value (l : list Z) : Z := match l with [] => 0 | b :: l => b + 256 * le_value l end.

Lemma be_value_snoc l b : be_value (l ++ [b]) = 256 * be_value l + b.
Proof.
  induction l as [|c l IH]; cbn [app be_value length]; [simpl; lia|]. rewrite IH, length_app.
  replace (length l + length [b])%nat with (S (length l)) by (simpl; lia). rewrite pow256_S. lia.
Qed.

Lemma le_value_reverse l : be_value (reverse l) = le_value l.
Proof. induction l as [|b l IH]; [done|]. rewrite reverse_cons, be_value_snoc, IH. cbn [le_value]. lia. Qed.

Lemma le_value_range l : Forall is_u8 l -> 0 <= le_value l < 256 ^ Z.of_nat (length l).
Proof.
  intros Hl. rewrite <- le_value_reverse, <- length_reverse. apply be_value_range. by apply Forall_reverse.
Qed.

Lemma carry_spec l : Forall is_u8 l -> length (carry l) = length l /\ Forall is_u8 (carry l)
  /\ le_value (carry l) = (le_value l + 1) mod 256 ^ Z.of_nat (length l).
Proof.
  induction 1 as [|b l Hb Hl IH]; cbn [carry le_value length]; [done|]. destruct IH as (IH1 & IH2 & IH3).
  pose proof (le_value_range l Hl) as Hr. pose proof (pow256_pos (length l)). rewrite pow256_S. unfold is_u8 in Hb.
  case_Z; cbn [length le_value].
  - split; [done|]. split; [constructor; [unfold is_u8; lia|done]|]. rewrite Z.mod_small; lia.
  - split; [by rewrite IH1|]. split; [constructor; [unfold is_u8; lia|done]|].
    rewrite IH3. replace (b + 256 * le_value l + 1) with (256 * (le_value l + 1)) by lia.
    rewrite Z.mul_mod_distr_l; lia.
Qed.

Lemma borrow_spec l : Forall is_u8 l -> length (borrow l) = length l /\ Forall is_u8 (borrow l)
  /\ le_value (borrow l) = (le_value l - 1) mod 256 ^ Z.of_nat (length l).
Proof.
  induction 1 as [|b l Hb Hl IH]; cbn [borrow le_value length]; [done|]. destruct IH as (IH1 & IH2 & IH3).
  pose proof (le_value_range l Hl) as Hr. pose proof (pow256_pos (length l)). rewrite pow256_S. unfold is_u8 in Hb.
  rewrite Z.gtb_ltb. case_Z; cbn [length le_value].
  - split; [done|]. split; [constructor; [unfold is_u8; lia|done]|]. rewrite Z.mod_small; lia.
  - split; [by rewrite IH1|]. split; [constructor; [unfold is_u8; lia|done]|].
    rewrite IH3. assert (b = 0) as -> by lia.  apply Z.mod_unique with ((le_value l - 1) / 256 ^ Z.of_nat (length l)).
    + pose proof (Z.mod_pos_bound (le_value l - 1) (256 ^ Z.of_nat (length l))). lia.
    + pose proof (Z.div_mod (le_value l - 1) (256 ^ Z.of_nat (length l))). lia.
Qed.

#[export] Instance v6_laws : AddressLaws address_v6.
Proof.
  constructor; cbn [width number zone addr_ok increment decrement addr_eqb addr_ltb addr_geb v6_iterator].
  - lia.
  - intros a (Hl & Hb & _). pose proof (be_value_range _ Hb) as Hr. rewrite Hl in Hr. exact Hr.
  - intros [m s] [m' s'] (Hl & Hb & _) (Hl' & Hb' & _) Hn Hz. cbn in *. f_equal; [|done]. apply be_value_inj; congruence.
  - intros [m s] (Hl & Hb & Hs). unfold v6_increment, v6_ok. cbn [s6_addr scope_id_] in *.
    destruct (carry_spec (reverse m)) as (H1 & H2 & H3); [by apply Forall_reverse|].
    rewrite le_value_reverse, H3, <- le_value_reverse, reverse_involutive, !length_reverse, H1, length_reverse, Hl.
    split; [|done]. split; [done|]. split; [by apply Forall_reverse|done].
  - intros [m s] (Hl & Hb & Hs). unfold v6_decrement, v6_ok. cbn [s6_addr scope_id_] in *.
    destruct (borrow_spec (reverse m)) as (H1 & H2 & H3); [by apply Forall_reverse|].
    rewrite le_value_reverse, H3, <- le_value_reverse, reverse_involutive, !length_reverse, H1, length_reverse, Hl.
    split; [|done]. split; [done|]. split; [by apply Forall_reverse|done].
  - apply v6_eqb_spec.
  - intros a b Ha Hb Hz. apply eq_true_iff_eq. rewrite v6_ltb_spec, Z.ltb_lt by done. lia.
  - intros a b Ha Hb Hz. apply eq_true_iff_eq. rewrite negb_true_iff, <- not_true_iff_false, v6_ltb_spec, Z.leb_le by done. lia.
Qed.
