(* ===== verification/NetworkV4.v ===== *)
(** * NetworkV4: IPv4 networks

    [network_v4] of [asio/ip/network_v4.hpp] and [impl/network_v4.ipp]: the two
    constructors, the mask, the network and broadcast addresses, the hosts and
    the subnet test. *)

From stdpp Require Import base list list_numbers sets.
From Stdlib Require Import ZArith Lia.
From S2P Require Import Prelude NetError IpText IpAddress AddressRange.
Local Open Scope exchange_scope.
Local Open Scope list_scope.
Local Open Scope Z_scope.

(** ** Definitions *)

Record network_v4 : Type := mkNetwork { address_ : address_v4; prefix_length_ : Z }.

(** The default constructor, and the one with a prefix length, an unsigned short. *)
Definition any_network : network_v4 := mkNetwork v4_any 0.
Definition of_prefix (addr : address_v4) (prefix_len : Z) : network_v4 + ip_exception :=
  if prefix_len >? 32 then inr out_of_range else inl (mkNetwork addr prefix_len).

(** The switch on a byte of the mask: the bits its cases fall through to count,
    and whether the mask has ended with it. *)
Definition mask_byte (b : Z) : option (Z * bool) :=
  if b =? 255 then Some (8, false)
  else if b =? 254 then Some (7, true)
  else if b =? 252 then Some (6, true)
  else if b =? 248 then Some (5, true)
  else if b =? 240 then Some (4, true)
  else if b =? 224 then Some (3, true)
  else if b =? 192 then Some (2, true)
  else if b =? 128 then Some (1, true)
  else if b =? 0 then Some (0, true)
  else None.

Fixpoint mask_loop (finished : bool) (prefix_length : Z) (mask_bytes : list Z) : Z + ip_exception :=
  match mask_bytes with
  | [] => inl prefix_length
  | b :: mask_bytes =>
      if finished then
        if negb (b =? 0) then inr invalid_argument_exception else mask_loop finished prefix_length mask_bytes
      else
        match mask_byte b with
        | Some (bits, ended) => mask_loop ended (prefix_length + bits) mask_bytes
        | None => inr out_of_range
        end
  end.

Definition of_mask (addr mask : address_v4) : network_v4 + ip_exception :=
  match mask_loop false 0 (v4_to_bytes mask) with
  | inl prefix_length => inl (mkNetwork addr prefix_length)
  | inr e => inr e
  end.

Definition netmask (n : network_v4) : address_v4 :=
  v4_of_uint (if prefix_length_ n =? 0 then 0 else u32 (Z.shiftl 0xffffffff (32 - prefix_length_ n))).
Definition network (n : network_v4) : address_v4 :=
  v4_of_uint (Z.land (to_uint (address_ n)) (to_uint (netmask n))).
Definition broadcast (n : network_v4) : address_v4 :=
  v4_of_uint (Z.lor (to_uint (network n)) (Z.lxor (to_uint (netmask n)) 0xFFFFFFFF)).
Definition is_host (n : network_v4) : bool := prefix_length_ n =? 32.
Definition hosts (n : network_v4) : range address_v4 :=
  if is_host n then mkRange (address_ n) (v4_of_uint (u32 (to_uint (address_ n) + 1)))
  else mkRange (v4_of_uint (u32 (to_uint (network n) + 1))) (broadcast n).
Definition canonical (n : network_v4) : network_v4 + ip_exception := of_prefix (network n) (prefix_length_ n).

Definition network_eqb (a b : network_v4) : bool :=
  v4_eqb (address_ a) (address_ b) && (prefix_length_ a =? prefix_length_ b).

Definition is_subnet_of (n other : network_v4) : bool + ip_exception :=
  if prefix_length_ other >=? prefix_length_ n then inl false
  else
    match of_prefix (address_ n) (prefix_length_ other) with
    | inr e => inr e
    | inl me =>
        match canonical other, canonical me with
        | inl a, inl b => inl (network_eqb a b)
        | inr e, _ | _, inr e => inr e
        end
    end.

Definition net (b0 b1 b2 b3 p : Z) : network_v4 := mkNetwork (v4_of_bytes [b0; b1; b2; b3]) p.

Example v4_subnet_1 : is_subnet_of (net 10 1 7 0 24) (net 10 1 0 0 16) = inl true.
Proof. reflexivity. Qed.
Example v4_subnet_2 : is_subnet_of (net 10 2 7 0 24) (net 10 1 0 0 16) = inl false.
Proof. reflexivity. Qed.
Example hosts_1 : visit 9 (hosts (net 10 1 7 9 30)) = Ok (v4_of_bytes <$> [[10; 1; 7; 9]; [10; 1; 7; 10]]).
Proof. reflexivity. Qed.

(** ** Facts *)

Definition net_ok (n : network_v4) : Prop := v4_ok (address_ n) /\ 0 <= prefix_length_ n <= 32.

(** The masks as numbers, all thirty-three of them. *)
Lemma all_prefixes (P : Z -> bool) p : forallb P (Z.of_nat <$> seq 0 33) = true -> 0 <= p <= 32 -> P p = true.
Proof.
  intros H Hp. rewrite forallb_forall in H. apply H, list_elem_of_In, list_elem_of_fmap.
  exists (Z.to_nat p). rewrite elem_of_seq. lia.
Qed.

Lemma v4_mask_bits p : 0 <= p <= 32 ->
  to_uint (netmask (mkNetwork v4_any p)) = Z.ldiff (Z.ones 32) (Z.ones (32 - p))
  /\ Z.lxor (to_uint (netmask (mkNetwork v4_any p))) 0xFFFFFFFF = 2 ^ (32 - p) - 1.
Proof.
  intros Hp. rewrite <- (Z.eqb_eq _ (Z.ldiff _ _)), <- (Z.eqb_eq (Z.lxor _ _)), <- andb_true_iff.
  refine (all_prefixes (fun p => _) p _ Hp). vm_compute. reflexivity.
Qed.

Lemma netmask_any n : netmask n = netmask (mkNetwork v4_any (prefix_length_ n)).
Proof. done. Qed.

Lemma land_mask p a : 0 <= p <= 32 -> v4_ok a ->
  Z.land (to_uint a) (to_uint (netmask (mkNetwork v4_any p))) = block_begin p a.
Proof.
  intros Hp Ha. pose proof (to_uint_range _ Ha) as Hr. rewrite (proj1 (v4_mask_bits _ Hp)).
  unfold block_begin, block_size. cbn [width number v4_iterator]. set (s := 32 - p).
  assert (Z.land (to_uint a) (Z.ldiff (Z.ones 32) (Z.ones s)) = Z.ldiff (to_uint a) (Z.ones s)) as ->.
  { rewrite <- (Z.mod_small (to_uint a) (2 ^ 32)), <- Z.land_ones by (done || lia).
    apply Z.bits_inj'. intros i Hi. rewrite ?Z.land_spec, ?Z.ldiff_spec, ?Z.land_spec. by destruct (Z.testbit _ _), (Z.testbit (Z.ones 32) _). }
  rewrite Z.ldiff_ones_r, Z.shiftl_mul_pow2, Z.shiftr_div_pow2 by lia. done.
Qed.

Lemma v4_network_value n : net_ok n -> to_uint (network n) = block_begin (prefix_length_ n) (address_ n).
Proof.
  intros [Ha Hp]. unfold network. rewrite netmask_any, land_mask by done. apply to_uint_of_uint.
  pose proof (block_fits (H0 := v4_laws) _ _ Hp Ha) as Hf. pose proof (block_size_pos (A := address_v4) _ (proj2 Hp)).
  unfold is_u32. cbn [width v4_iterator] in *. lia.
Qed.

(** The tests on an address say in which of these networks it lies. *)
Theorem v4_tests a : v4_ok a ->
  (v4_is_loopback a = true <-> in_block 8 (v4_of_bytes [127; 0; 0; 0]) a)
  /\ (v4_is_multicast a = true <-> in_block 4 (v4_of_bytes [224; 0; 0; 0]) a)
  /\ (is_class_a a = true <-> in_block 1 (v4_of_bytes [0; 0; 0; 0]) a)
  /\ (is_class_b a = true <-> in_block 2 (v4_of_bytes [128; 0; 0; 0]) a)
  /\ (is_class_c a = true <-> in_block 3 (v4_of_bytes [192; 0; 0; 0]) a).
Proof.
  intros Ha. assert (forall p c net, 0 <= p <= 32 -> to_uint (netmask (mkNetwork v4_any p)) = c ->
    Z.land (to_uint a) c =? block_begin p net = true <-> in_block p net a) as H.
  { intros p c net Hp <-. rewrite land_mask, Z.eqb_eq by done. unfold in_block, block_begin, block_size.
    cbn [width number zone addr_ok v4_iterator]. pose proof (Z.pow_pos_nonneg 2 (32 - p)). split.
    - intros Heq. split_and!; [done|done|nia].
    - by intros (_ & _ & ->). }
  split_and!.
  - exact (H 8 _ (v4_of_bytes [127; 0; 0; 0]) ltac:(lia) eq_refl).
  - exact (H 4 _ (v4_of_bytes [224; 0; 0; 0]) ltac:(lia) eq_refl).
  - exact (H 1 _ (v4_of_bytes [0; 0; 0; 0]) ltac:(lia) eq_refl).
  - exact (H 2 _ (v4_of_bytes [128; 0; 0; 0]) ltac:(lia) eq_refl).
  - exact (H 3 _ (v4_of_bytes [192; 0; 0; 0]) ltac:(lia) eq_refl).
Qed.

Lemma broadcast_value n : net_ok n ->
  to_uint (broadcast n) = to_uint (network n) + block_size (A := address_v4) (prefix_length_ n) - 1.
Proof.
  intros Hn. pose proof (v4_network_value n Hn) as Hnet. destruct Hn as [Ha Hp].
  unfold broadcast. rewrite netmask_any, (proj2 (v4_mask_bits _ Hp)), Hnet.
  destruct (block_fits (A := address_v4) (prefix_length_ n) (address_ n)) as [Hlo Hhi]; [done..|].
  unfold block_begin, block_size in *. cbn [width number v4_iterator] in *. set (s := 32 - prefix_length_ n) in *.
  pose proof (Z.pow_pos_nonneg 2 s). rewrite <- (Z.shiftl_mul_pow2 _ s) at 1 by lia. rewrite lor_low by lia.
  rewrite to_uint_of_uint; [lia|]. unfold is_u32. lia.
Qed.

Lemma mask_rest p bytes q : mask_loop true p bytes = inl q -> q = p /\ bytes = replicate (length bytes) 0.
Proof.
  induction bytes as [|b bytes IH]; cbn [mask_loop length replicate]; [by intros [= ->]|].
  case_Z; cbn [negb]; [|done]. intros H. destruct (IH H) as [-> <-]. by subst b.
Qed.

Definition last_bytes_of_masks : list (Z * Z) :=
  [(254, 7); (252, 6); (248, 5); (240, 4); (224, 3); (192, 2); (128, 1); (0, 0)].

Lemma mask_byte_some b bits ended : mask_byte b = Some (bits, ended) ->
  b = 255 /\ bits = 8 /\ ended = false
  \/ ended = true /\ (b, bits) ∈ last_bytes_of_masks.
Proof. unfold mask_byte. case_Z; intros [= <- <-]; subst b; [by left|..]; right; (split; [done|]); unfold last_bytes_of_masks; set_solver. Qed.

Lemma mask_step k b rest q : mask_loop false k (b :: rest) = inl q ->
  b = 255 /\ mask_loop false (k + 8) rest = inl q
  \/ exists bits, (b, bits) ∈ last_bytes_of_masks /\ q = k + bits /\ rest = replicate (length rest) 0.
Proof.
  cbn [mask_loop]. destruct (mask_byte b) as [[bits ended]|] eqn:Hb; [|done].
  apply mask_byte_some in Hb as [(-> & -> & ->) | (-> & Hb)]; [by left|]. intros Hk. right. exists bits.
  by apply mask_rest in Hk as [-> ?].
Qed.

(** The constructor takes exactly the masks of the prefixes. *)
Lemma mask_loop_spec m p : length m = 4%nat ->
  mask_loop false 0 m = inl p <-> 0 <= p <= 32 /\ m = v4_to_bytes (netmask (mkNetwork v4_any p)).
Proof.
  intros Hl. split.
  - destruct (four_bytes m Hl) as (b0 & b1 & b2 & b3 & ->). clear Hl.
    do 4 (intros Hk; apply mask_step in Hk as [[-> Hk] | (bits & Hb & -> & Hk)];
      [revert Hk | cbn [length replicate] in Hk; simplify_eq; unfold last_bytes_of_masks in Hb;
         repeat (apply elem_of_cons in Hb as [[= -> ->] | Hb]; [split; [lia|reflexivity]|]); by apply elem_of_nil in Hb]).
    intros [= <-]. split; [lia|reflexivity].
  - intros [Hp ->]. assert (bool_decide (mask_loop false 0 (v4_to_bytes (netmask (mkNetwork v4_any p))) = inl p) = true) as Hb.
    { refine (all_prefixes (fun p => _) p _ Hp). vm_compute. reflexivity. }
    by apply bool_decide_eq_true in Hb.
Qed.

Lemma v4_of_prefix_ok addr p : p <= 32 -> of_prefix addr p = inl (mkNetwork addr p).
Proof. intros Hp. unfold of_prefix. rewrite Z.gtb_ltb. case_Z; [lia|done]. Qed.

(** The subnet test compares the block of the other network around both addresses. *)
Lemma v4_is_subnet_of_block a b : net_ok a -> net_ok b -> exists r, is_subnet_of a b = inl r
  /\ (r = true <-> prefix_length_ b < prefix_length_ a
        /\ in_block (A := address_v4) (prefix_length_ b) (address_ b) (address_ a)).
Proof.
  intros Ha Hb. destruct Ha as [Ha Hpa]. pose proof Hb as [Hb' Hpb]. unfold is_subnet_of. rewrite Z.geb_leb.
  case_Z; [exists false; split; [done|]; split; [done|lia]|].
  rewrite v4_of_prefix_ok by lia. unfold canonical. rewrite !v4_of_prefix_ok by (cbn [prefix_length_]; lia).
  eexists. split; [done|].
  unfold network_eqb. cbn [prefix_length_ address_]. rewrite Z.eqb_refl, andb_true_r, v4_eqb_spec by apply v4_of_uint_ok.
  set (me := mkNetwork (address_ a) (prefix_length_ b)). assert (net_ok me) as Hme by done.
  assert (network b = network me <-> to_uint (network b) = to_uint (network me)) as ->.
  { split; [congruence|]. apply to_uint_inj; apply v4_of_uint_ok. }
  rewrite !v4_network_value by done. unfold in_block, block_begin. cbn [prefix_length_ address_ me].
  fold (block_size (A := address_v4) (prefix_length_ b)).
  pose proof (block_size_pos (A := address_v4) (prefix_length_ b)). cbn [width v4_iterator] in *. split.
  - intros Heq. split; [lia|]. split; [done|]. split; [done|]. nia.
  - intros (_ & _ & _ & ->). done.
Qed.

(** The first of the hosts and how many there are. *)
Definition first_host (n : network_v4) : Z :=
  if is_host n then to_uint (address_ n) else to_uint (network n) + 1.
Definition host_count (n : network_v4) : Z := if is_host n then 1 else 2 ^ (32 - prefix_length_ n) - 2.

Lemma v4_hosts_value n : net_ok n -> v4_ok (begin_ (hosts n)) /\ v4_ok (end_ (hosts n))
  /\ to_uint (begin_ (hosts n)) = first_host n /\ 0 <= host_count n < 2 ^ 32 /\ first_host n + host_count n <= 2 ^ 32
  /\ to_uint (end_ (hosts n)) = (first_host n + host_count n) mod 2 ^ 32
  /\ (is_host n = false -> first_host n + host_count n < 2 ^ 32).
Proof.
  intros Hn. pose proof (v4_network_value n Hn) as Hnet. pose proof (broadcast_value n Hn) as Hbr. destruct Hn as [Ha Hp].
  pose proof (to_uint_range _ Ha) as Hr. pose proof (block_fits (A := address_v4) (prefix_length_ n) (address_ n) Hp Ha) as Hfit.
  unfold block_size in *. cbn [width number v4_iterator] in *. unfold hosts, first_host, host_count, is_u32 in *.
  unfold is_host in *. case_Z; cbn [begin_ end_].
  - split_and!; try done; try lia; [apply v4_of_uint_ok|]. apply to_uint_of_uint. apply u32_range.
  - assert (2 ^ 1 <= 2 ^ (32 - prefix_length_ n)) by (apply Z.pow_le_mono_r; lia). change (2 ^ 1) with 2 in *.
    split_and!; try apply v4_of_uint_ok; try lia.
    + rewrite to_uint_of_uint by apply u32_range. unfold u32. rewrite Z.mod_small; lia.
    + rewrite Hbr, Z.mod_small; lia.
Qed.

Lemma v4_hosts_visited n fuel : net_ok n -> (Z.to_nat (host_count n) < fuel)%nat ->
  exists l, visits (hosts n) fuel l (first_host n) (host_count n).
Proof.
  intros Hn Hf. destruct (v4_hosts_value n Hn) as (Hb & He & Hfirst & Hc & Hle & Hend & _).
  pose proof (visit_range (A := address_v4) (Z.to_nat (host_count n)) fuel (hosts n) Hf Hb He eq_refl) as Hv.
  cbn [number zone width v4_iterator] in Hv. rewrite Z2Nat.id, Hfirst in Hv by lia.
  destruct Hv as (l & Hv & Hl & Hall); [lia|lia|done|]. by exists l.
Qed.

Lemma hosts_size n : net_ok n -> v4_size (hosts n) = host_count n.
Proof.
  intros Hn. destruct (v4_hosts_value n Hn) as (Hb & He & Hfirst & Hc & Hle & Hend & _).
  unfold v4_size, u32. rewrite Hfirst, Hend, Zminus_mod_idemp_l. rewrite Z.add_simpl_l. by apply Z.mod_small.
Qed.

Definition last_address : Z := 0xFFFFFFFF.

(** ** Theorems *)

(** C38: IPv4 networks are sets of addresses.  On networks with an address of four bytes
    and a prefix of at most 32 bits, [is_subnet_of] does not throw and says that the
    addresses of one network are a proper subset of those of the other.  The constructor
    from a mask accepts exactly the masks that [netmask] gives for a prefix and takes that
    prefix.  The loop over [hosts] ends after [size()] steps and visits, in order, the
    address itself of a network of one and otherwise all addresses between the network's
    and the broadcast address; these are the ones that [find] finds, the case of the last
    address of all apart. *)
Theorem network_v4_correct a b : net_ok a -> net_ok b ->
  (exists r, is_subnet_of a b = inl r
     /\ (r = true <-> (forall z, in_block (prefix_length_ a) (address_ a) z -> in_block (prefix_length_ b) (address_ b) z)
           /\ exists z, in_block (prefix_length_ b) (address_ b) z /\ ~ in_block (prefix_length_ a) (address_ a) z))
  /\ (forall mask n, v4_ok mask -> of_mask (address_ a) mask = inl n
        <-> exists p, 0 <= p <= 32 /\ n = mkNetwork (address_ a) p /\ netmask n = mask)
  /\ forall fuel, (Z.to_nat (v4_size (hosts a)) < fuel)%nat ->
       exists l, visit fuel (hosts a) = Ok l
         /\ to_uint <$> l = (if is_host a then [to_uint (address_ a)]
                             else seqZ (to_uint (network a) + 1) (to_uint (broadcast a) - to_uint (network a) - 1))
         /\ (is_host a = false \/ to_uint (address_ a) <> last_address ->
             forall z, v4_ok z -> find (hosts a) z <> end_ (hosts a) <-> z ∈ l).
Proof.
  intros Ha Hb. split; [|split].
  - destruct (v4_is_subnet_of_block a b Ha Hb) as (r & Hr & Hiff). exists r. split; [done|]. rewrite Hiff.
    destruct Ha as [Ha Hpa], Hb as [Hb Hpb]. by apply (block_subset (A := address_v4)).
  - intros mask n [Hl Hm]. unfold of_mask, v4_to_bytes. destruct (mask_loop false 0 (s_addr mask)) as [p|e] eqn:Hp.
    + apply mask_loop_spec in Hp as [Hp Hs]; [|done]. split.
      * intros [= <-]. exists p. split_and!; try done; try lia. destruct mask as [m]. cbn [s_addr] in Hs. by rewrite Hs.
      * intros (q & Hq & -> & Hn). do 2 f_equal. rewrite netmask_any in Hn. cbn [prefix_length_] in Hn.
        assert (mask_loop false 0 (s_addr mask) = inl q) as Hmq by (apply mask_loop_spec; [done|]; by rewrite <- Hn).
        assert (mask_loop false 0 (s_addr mask) = inl p) as Hmp by (by apply mask_loop_spec). congruence.
    + split; [done|]. intros (q & Hq & -> & Hn). rewrite netmask_any in Hn. cbn [prefix_length_] in Hn.
      assert (mask_loop false 0 (s_addr mask) = inl q) by (apply mask_loop_spec; [done|]; by rewrite <- Hn). congruence.
  - intros fuel Hf. rewrite hosts_size in Hf by done. destruct (v4_hosts_visited a fuel Ha Hf) as (l & Hv).
    destruct (v4_hosts_value a Ha) as (Hbo & Heo & Hfirst & Hc & Hle & Hend & Hlt). pose proof Hv as (Hvis & Hl & _).
    exists l. split; [done|]. split.
    + cbn [number v4_iterator] in Hl. rewrite Hl. unfold first_host, host_count. pose proof (broadcast_value a Ha) as Hbr.
      unfold block_size in Hbr. cbn [width v4_iterator] in Hbr. rewrite Hbr. destruct (is_host a); [done|]. f_equal; lia.
    + intros Hlast z Hz. apply (find_visits _ fuel l (first_host a) (host_count a)); try done.
      cbn [number v4_iterator]. rewrite Hend. apply Z.mod_small. split; [pose proof (to_uint_range _ Hbo); unfold is_u32 in *; lia|].
      destruct Hlast as [|Hne]; [by apply Hlt|]. unfold first_host, host_count, last_address in *.
      destruct (is_host a) eqn:E; [|by apply Hlt]. pose proof (to_uint_range _ (proj1 Ha)). unfold is_u32 in *. lia.
Qed.

(** The range that wraps to 0.0.0.0: [find] misses the only host. *)
Lemma v4_find_misses_last : let n := net 255 255 255 255 32 in
  visit 2 (hosts n) = Ok [address_ n] /\ find (hosts n) (address_ n) = end_ (hosts n).
Proof. by vm_compute. Qed.

(** ** Witnesses *)

Lemma network_v4_correct_witness :
  let a := net 10 1 7 9 30 in let b := net 10 1 0 0 16 in
  (exists r, is_subnet_of a b = inl r /\ r = true)
  /\ of_mask (address_ a) (v4_of_bytes [255; 255; 255; 252]) = inl a
  /\ exists l, visit 9 (hosts a) = Ok l /\ to_uint <$> l = seqZ 167839497 2.
Proof.
  cbv zeta.
  assert (forall b0 b1 b2 b3 p, is_u8 b0 -> is_u8 b1 -> is_u8 b2 -> is_u8 b3 -> 0 <= p <= 32 -> net_ok (net b0 b1 b2 b3 p)) as Hok
    by (intros; split; [split; [done|]|done]; repeat (apply Forall_cons; split; [done|]); by apply Forall_nil).
  destruct (network_v4_correct (net 10 1 7 9 30) (net 10 1 0 0 16)) as (H1 & H2 & H3);
    [apply Hok; unfold is_u8; lia|apply Hok; unfold is_u8; lia|].
  split; [destruct H1 as (r & Hr & _); exists r; split; [exact Hr|]; revert Hr; vm_compute; by intros [= <-]|]. split.
  - apply H2; [split; [done|repeat constructor; unfold is_u8; lia]|]. exists 30. split; [lia|]. split; reflexivity.
  - destruct (H3 9%nat) as (l & Hl & Hn & _); [vm_compute; lia|]. exists l. split; [exact Hl|]. rewrite Hn. reflexivity.
Defined.
