(* ===== verification/NetworkV6.v ===== *)
(** * NetworkV6: IPv6 networks

    [network_v6] of [asio/ip/network_v6.hpp] and [impl/network_v6.ipp]: the
    constructor, the network address, the hosts, the subnet test, and networks
    as text.  Characters are their codes, as in [IpText]. *)

From stdpp Require Import base list list_numbers sets.
From Stdlib Require Import ZArith Lia.
From S2P Require Import Prelude NetError IpText IpAddress AddressRange.
Local Open Scope exchange_scope.
Local Open Scope list_scope.
Local Open Scope Z_scope.

(** ** Definitions *)

Record network_v6 : Type := mkNetwork { address_ : address_v6; prefix_length_ : Z }.

Definition any_network : network_v6 := mkNetwork v6_any 0.
Definition of_prefix (addr : address_v6) (prefix_len : Z) : network_v6 + ip_exception :=
  if prefix_len >? 128 then inr out_of_range else inl (mkNetwork addr prefix_len).

(** What the loops do to [bytes[i]], which is [b]. *)
Definition network_byte (prefix_length : Z) (i : nat) (b : Z) : Z :=
  if prefix_length <=? Z.of_nat i * 8 then 0
  else if prefix_length <? (Z.of_nat i + 1) * 8 then Z.land b (Z.shiftr 0xFF00 (prefix_length mod 8))
  else b.

Definition end_byte (prefix_length : Z) (i : nat) (b : Z) : Z :=
  if prefix_length <=? Z.of_nat i * 8 then 0xFF
  else if prefix_length <? (Z.of_nat i + 1) * 8 then Z.lor b (Z.shiftr 0xFF (prefix_length mod 8))
  else b.

Definition network (n : network_v6) : address_v6 :=
  v6_of_bytes (imap (network_byte (prefix_length_ n)) (v6_to_bytes (address_ n))) (scope_id_ (address_ n)).

Definition hosts (n : network_v6) : range address_v6 :=
  let begin_bytes := imap (network_byte (prefix_length_ n)) (v6_to_bytes (address_ n)) in
  let end_bytes := imap (end_byte (prefix_length_ n)) (v6_to_bytes (address_ n)) in
  mkRange (v6_of_bytes begin_bytes (scope_id_ (address_ n)))
    (v6_increment (v6_of_bytes end_bytes (scope_id_ (address_ n)))).

Definition canonical (n : network_v6) : network_v6 + ip_exception := of_prefix (network n) (prefix_length_ n).
Definition is_host (n : network_v6) : bool := prefix_length_ n =? 128.
Definition network_eqb (a b : network_v6) : bool :=
  v6_eqb (address_ a) (address_ b) && (prefix_length_ a =? prefix_length_ b).

Definition is_subnet_of (n other : network_v6) : bool + ip_exception :=
  if prefix_length_ other >=? prefix_length_ n then inl false
  else
    match of_prefix (address_ n) (prefix_length_ other) with
    | inr e => inr e
    | inl me =>
        match canonical other, canonical me with
        | inl a, inl b => inl (network_eqb a b)
        | inr e, _ | _, inr e => inr e
        end
    end.

(** *** Text *)

Definition slash : Z := 47.
Definition to_string (n : network_v6) : list Z := v6_to_string (address_ n) ++ slash :: decimal (prefix_length_ n).

(** The parts of a string before and behind the first slash. *)
Fixpoint split_slash (str : list Z) : option (list Z * list Z) :=
  match str with
  | [] => None
  | c :: str =>
      if c =? slash then Some ([], str)
      else match split_slash str with Some (before, behind) => Some (c :: before, behind) | None => None end
  end.

(** [std::atoi] of digits; what does not fit in an int has no meaning. *)
Definition INT_MAX : Z := 2 ^ 31 - 1.
Definition atoi (digits : list Z) : outcome Z :=
  let value := fold_left (fun n c => n * 10 + (c - 48)) digits 0 in
  if value <=? INT_MAX then Ok value else Fault IntOverflow.

Definition is_digit (c : Z) : bool := (48 <=? c) && (c <=? 57).

(** [None] is [invalid_argument]. *)
Definition make_network_v6 (str : list Z) : outcome (option network_v6) :=
  match split_slash str with
  | None => Ok None
  | Some (before, behind) =>
      if match behind with [] => true | _ => false end then Ok None
      else if negb (forallb is_digit behind) then Ok None
      else
        let* addr := make_address_v6 (pton_fuel before) before in
        match addr with
        | None => Ok None
        | Some addr =>
            let* prefix_len := atoi behind in
            if (prefix_len <? 0) || (prefix_len >? 128) then Ok None
            else Ok (match of_prefix addr prefix_len with inl n => Some n | inr _ => None end)
        end
  end.

Definition net (bytes : list Z) (p : Z) : network_v6 := mkNetwork (v6_of_bytes bytes 0) p.

(** fe80::/10 *)
Definition link_local : network_v6 := net ([254; 128] ++ replicate 14 0) 10.

Example v6_subnet_1 : is_subnet_of (net ([254; 191] ++ replicate 14 9) 16) link_local = inl true.
Proof. reflexivity. Qed.
Example v6_subnet_2 : is_subnet_of (net ([254; 192] ++ replicate 14 9) 16) link_local = inl false.
Proof. reflexivity. Qed.
Example text_1 : make_network_v6 [102; 101; 56; 48; 58; 58; 47; 49; 48] = Ok (Some link_local).
Proof. reflexivity. Qed.
Example text_2 : to_string link_local = [102; 101; 56; 48; 58; 58; 47; 49; 48].
Proof. reflexivity. Qed.

(** ** Facts *)

Definition net_ok (n : network_v6) : Prop := v6_ok (address_ n) /\ 0 <= prefix_length_ n <= 128.

(** *** Masks of a byte *)

Definition mask_table (r b : Z) : bool :=
  (Z.land b (Z.shiftr 0xFF00 r) =? b / 2 ^ (8 - r) * 2 ^ (8 - r))
  && (Z.lor b (Z.shiftr 0xFF r) =? b / 2 ^ (8 - r) * 2 ^ (8 - r) + (2 ^ (8 - r) - 1)).

Lemma v6_mask_bits r b : 0 < r < 8 -> is_u8 b ->
  Z.land b (Z.shiftr 0xFF00 r) = b / 2 ^ (8 - r) * 2 ^ (8 - r)
  /\ Z.lor b (Z.shiftr 0xFF r) = b / 2 ^ (8 - r) * 2 ^ (8 - r) + (2 ^ (8 - r) - 1).
Proof.
  intros Hr Hb. rewrite <- !Z.eqb_eq, <- andb_true_iff. fold (mask_table r b).
  assert (forallb (fun r => forallb (mask_table r) (seqZ 0 256)) (seqZ 0 8) = true) as H by (vm_compute; reflexivity).
  rewrite forallb_forall in H. specialize (H r). rewrite forallb_forall in H. unfold is_u8 in Hb.
  apply H; apply list_elem_of_In, elem_of_seqZ; lia.
Qed.

Lemma imap_shift (f g : nat -> Z -> Z) (l : list Z) : (forall i b, f (S i) b = g i b) -> imap (f ∘ S) l = imap g l.
Proof. intros H. apply imap_ext. intros i b _. apply H. Qed.

Lemma network_byte_S p i b : network_byte p (S i) b = network_byte (p - 8) i b.
Proof.
  unfold network_byte. rewrite Nat2Z.inj_succ. replace ((p - 8) mod 8) with (p mod 8) by (rewrite <- (Z.mod_add (p - 8) 1); f_equal; lia).
  case_Z; lia || done.
Qed.

Lemma end_byte_S p i b : end_byte p (S i) b = end_byte (p - 8) i b.
Proof.
  unfold end_byte. rewrite Nat2Z.inj_succ. replace ((p - 8) mod 8) with (p mod 8) by (rewrite <- (Z.mod_add (p - 8) 1); f_equal; lia).
  case_Z; lia || done.
Qed.

Definition bits_of (l : list Z) : Z := 8 * Z.of_nat (length l).

Lemma pow256_bits l : 256 ^ Z.of_nat (length l) = 2 ^ bits_of l.
Proof. unfold bits_of. rewrite Z.pow_mul_r by lia. done. Qed.

(** Splitting [2 ^ bits_of (b :: l)] at the prefix. *)
Lemma bits_cons b l : bits_of (b :: l) = bits_of l + 8.
Proof. unfold bits_of. cbn [length]. lia. Qed.

Lemma be_value_cons b l : be_value (b :: l) = b * 2 ^ bits_of l + be_value l.
Proof. cbn [be_value]. by rewrite pow256_bits. Qed.

Lemma be_value_bits l : Forall is_u8 l -> 0 <= be_value l < 2 ^ bits_of l.
Proof. rewrite <- pow256_bits. apply be_value_range. Qed.

Lemma bits_imap (f : nat -> Z -> Z) l : bits_of (imap f l) = bits_of l.
Proof. unfold bits_of. by rewrite length_imap. Qed.

(** Past the prefix every byte is cleared, or set. *)
Lemma cleared l : forall p, p <= 0 -> Forall is_u8 l ->
  be_value (imap (network_byte p) l) = 0 /\ be_value (imap (end_byte p) l) = 2 ^ bits_of l - 1.
Proof.
  induction l as [|b l IH]; intros p Hp Hl; [done|]. apply Forall_cons in Hl as [_ Hl].
  rewrite !imap_cons, (imap_shift _ _ _ (network_byte_S p)), (imap_shift _ _ _ (end_byte_S p)), !be_value_cons, !bits_imap, bits_cons.
  destruct (IH (p - 8)) as [-> ->]; [lia|done|]. unfold network_byte, end_byte. case_Z; try lia.
  rewrite Z.pow_add_r by (unfold bits_of; lia). lia.
Qed.

(** The loop clears the bits behind the prefix, or sets them. *)
Lemma masked l : forall p, 0 <= p <= bits_of l -> Forall is_u8 l ->
  let k := 2 ^ (bits_of l - p) in
  be_value (imap (network_byte p) l) = be_value l / k * k
  /\ be_value (imap (end_byte p) l) = be_value l / k * k + (k - 1).
Proof.
  induction l as [|b l IH]; intros p Hp Hl k.
  { unfold k, bits_of in *. cbn [length] in *. by replace p with 0 by lia. }
  apply Forall_cons in Hl as [Hb Hl]. pose proof (be_value_bits l Hl) as Hr. assert (0 <= bits_of l) by (unfold bits_of; lia).
  rewrite !imap_cons, (imap_shift _ _ _ (network_byte_S p)), (imap_shift _ _ _ (end_byte_S p)), !be_value_cons, !bits_imap.
  rewrite bits_cons in *. destruct (Z.lt_ge_cases p 8) as [Hlt|Hge].
  - destruct (cleared l (p - 8)) as [-> ->]; [lia|done|].
    assert (k = 2 ^ bits_of l * 2 ^ (8 - p)) as Hk by (unfold k; rewrite bits_cons, <- Z.pow_add_r by lia; f_equal; lia).
    assert ((b * 2 ^ bits_of l + be_value l) / k = b / 2 ^ (8 - p)) as ->.
    { assert (0 < 2 ^ (8 - p)) by (apply Z.pow_pos_nonneg; lia).
      rewrite Hk, <- Z.div_div, Z.div_add_l, (Z.div_small (be_value l)), Z.add_0_r by lia. done. }
    rewrite Hk. unfold network_byte, end_byte. change (Z.of_nat 0) with 0. case_Z; try lia.
    + assert (p = 0) as -> by lia. change (2 ^ (8 - 0)) with 256. unfold is_u8 in Hb. rewrite (Z.div_small b) by lia. lia.
    + rewrite Z.mod_small by lia. destruct (v6_mask_bits p b) as [-> ->]; [lia|done|]. split; ring.
  - destruct (IH (p - 8)) as [-> ->]; [lia|done|]. replace (bits_of l - (p - 8)) with (bits_of (b :: l) - p) by (rewrite bits_cons; lia). fold k.
    assert (2 ^ bits_of l = 2 ^ (p - 8) * k) as Hk by (unfold k; rewrite bits_cons, <- Z.pow_add_r by lia; f_equal; lia).
    assert (k <> 0) by (apply Z.pow_nonzero; rewrite ?bits_cons; lia).
    rewrite Hk. replace (b * (2 ^ (p - 8) * k) + be_value l) with (b * 2 ^ (p - 8) * k + be_value l) by ring.
    rewrite Z.div_add_l by done. unfold network_byte, end_byte. change (Z.of_nat 0) with 0.
    case_Z; lia.
Qed.

Lemma byte_range p i b : is_u8 b -> is_u8 (network_byte p i b) /\ is_u8 (end_byte p i b).
Proof.
  intros Hb. unfold network_byte, end_byte. case_Z; try (unfold is_u8 in *; lia).
  destruct (Z.eq_dec (p mod 8) 0) as [Hz|Hz].
  - exfalso. pose proof (Z.div_mod p 8). lia.
  - pose proof (Z.mod_pos_bound p 8). destruct (v6_mask_bits (p mod 8) b) as [-> ->]; [lia|done|].
    assert (2 ^ (8 - p mod 8) * 2 ^ (p mod 8) = 256) as Hk by (rewrite <- Z.pow_add_r by lia; replace (8 - p mod 8 + p mod 8) with 8 by lia; done).
    set (k := 2 ^ (8 - p mod 8)) in *. assert (0 < k) by (apply Z.pow_pos_nonneg; lia).
    pose proof (Z.div_mod b k). pose proof (Z.mod_pos_bound b k). unfold is_u8 in *.
    assert (0 <= b / k) by (apply Z.div_pos; lia). assert (b / k < 2 ^ (p mod 8)) by (apply Z.div_lt_upper_bound; lia). nia.
Qed.

Lemma imap_u8 (f : nat -> Z -> Z) l : (forall i b, is_u8 b -> is_u8 (f i b)) -> Forall is_u8 l -> Forall is_u8 (imap f l).
Proof.
  intros Hf Hl. rewrite Forall_lookup in *. intros i x Hx. rewrite list_lookup_imap in Hx.
  apply fmap_Some in Hx as (y & Hy & ->). eauto.
Qed.

Lemma bits_128 (l : list Z) : length l = 16%nat -> bits_of l = 128.
Proof. unfold bits_of. intros ->. done. Qed.

Abbreviation block_begin6 := (block_begin (A := address_v6)).
Abbreviation block_size6 := (block_size (A := address_v6)).

Lemma v6_network_value n : net_ok n -> v6_ok (network n)
  /\ be_value (s6_addr (network n)) = block_begin6 (prefix_length_ n) (address_ n).
Proof.
  intros [(Hl & Hb & Hs) Hp]. unfold network, v6_of_bytes, v6_to_bytes, v6_ok. cbn [s6_addr scope_id_]. split.
  - rewrite length_imap. split_and!; try done. apply imap_u8; [|done]. intros i b Hi. by apply byte_range.
  - destruct (masked (s6_addr (address_ n)) (prefix_length_ n)) as [-> _]; [rewrite bits_128 by done; lia|done|].
    rewrite bits_128 by done. done.
Qed.

Lemma v6_of_prefix_ok addr p : p <= 128 -> of_prefix addr p = inl (mkNetwork addr p).
Proof. intros Hp. unfold of_prefix. rewrite Z.gtb_ltb. case_Z; [lia|done]. Qed.

(** The subnet test compares the block of the other network around both addresses. *)
Lemma v6_is_subnet_of_block a b : net_ok a -> net_ok b -> exists r, is_subnet_of a b = inl r
  /\ (r = true <-> prefix_length_ b < prefix_length_ a /\ in_block (prefix_length_ b) (address_ b) (address_ a)).
Proof.
  intros Ha Hb. destruct Ha as [Ha Hpa]. pose proof Hb as [Hb' Hpb]. unfold is_subnet_of. rewrite Z.geb_leb.
  case_Z; [exists false; split; [done|]; split; [done|lia]|].
  rewrite v6_of_prefix_ok by lia. unfold canonical. rewrite !v6_of_prefix_ok by (cbn [prefix_length_]; lia).
  eexists. split; [done|]. set (me := mkNetwork (address_ a) (prefix_length_ b)). assert (net_ok me) as Hme by done.
  destruct (v6_network_value b Hb) as [Hnb Hvb], (v6_network_value me Hme) as [Hnm Hvm].
  unfold network_eqb. cbn [prefix_length_ address_]. rewrite Z.eqb_refl, andb_true_r, v6_eqb_spec by done.
  assert (network b = network me <-> block_begin6 (prefix_length_ b) (address_ b) = block_begin6 (prefix_length_ b) (address_ a)
    /\ scope_id_ (address_ b) = scope_id_ (address_ a)) as ->.
  { split.
    - intros He. rewrite <- Hvb, He. split; [exact Hvm|]. by apply (f_equal scope_id_) in He.
    - intros [Hv Hs]. apply (number_inj (A := address_v6)); try done. cbn [number v6_iterator]. by rewrite Hvb, Hvm. }
  unfold in_block, block_begin. fold (block_size6 (prefix_length_ b)).
  pose proof (block_size_pos (A := address_v6) (prefix_length_ b)). cbn [width zone v6_iterator] in *. split.
  - intros [Heq Hs]. split; [lia|]. split; [done|]. split; [done|]. nia.
  - intros (_ & _ & -> & ->). done.
Qed.

(** The hosts are the whole block. *)
Lemma v6_hosts_value n : net_ok n -> v6_ok (begin_ (hosts n)) /\ v6_ok (end_ (hosts n))
  /\ scope_id_ (begin_ (hosts n)) = scope_id_ (address_ n) /\ scope_id_ (end_ (hosts n)) = scope_id_ (address_ n)
  /\ be_value (s6_addr (begin_ (hosts n))) = block_begin6 (prefix_length_ n) (address_ n)
  /\ be_value (s6_addr (end_ (hosts n))) = (block_begin6 (prefix_length_ n) (address_ n) + block_size6 (prefix_length_ n)) mod 2 ^ 128.
Proof.
  intros Hn. destruct (v6_network_value n Hn) as [Hok Hv]. destruct Hn as [(Hl & Hb & Hs) Hp].
  set (last := v6_of_bytes (imap (end_byte (prefix_length_ n)) (s6_addr (address_ n))) (scope_id_ (address_ n))).
  assert (v6_ok last) as Hlast.
  { unfold last, v6_of_bytes, v6_ok. cbn [s6_addr scope_id_]. rewrite length_imap. split_and!; try done.
    apply imap_u8; [|done]. intros i b Hi. by apply byte_range. }
  destruct (increment_ok (AddressLaws := v6_laws) last Hlast) as (Hi & Hz & Hni).
  destruct (masked (s6_addr (address_ n)) (prefix_length_ n)) as [_ Hend]; [rewrite bits_128 by done; lia|done|].
  rewrite bits_128 in Hend by done. unfold hosts. cbv zeta. cbn [begin_ end_]. split_and!; try done.
  change (v6_to_bytes (address_ n)) with (s6_addr (address_ n)). fold last.
  cbn [number width v6_iterator increment] in Hni. rewrite Hni. f_equal. change (s6_addr last) with (imap (end_byte (prefix_length_ n)) (s6_addr (address_ n))).
  rewrite Hend. unfold block_begin, block_size. cbn [number width v6_iterator]. lia.
Qed.

Lemma v6_hosts_visited n fuel : net_ok n -> 0 < prefix_length_ n -> (Z.to_nat (block_size6 (prefix_length_ n)) < fuel)%nat ->
  exists l, visits (hosts n) fuel l (block_begin6 (prefix_length_ n) (address_ n)) (block_size6 (prefix_length_ n)).
Proof.
  intros Hn Hp0 Hf. destruct (v6_hosts_value n Hn) as (Hb & He & Hzb & Hze & Hvb & Hve). destruct Hn as [Ha Hp].
  destruct (block_fits (H0 := v6_laws) (prefix_length_ n) (address_ n) Hp Ha) as [Hlo Hhi].
  pose proof (block_size_pos (A := address_v6) (prefix_length_ n)) as Hs. specialize (Hs (proj2 Hp)).
  assert (block_size6 (prefix_length_ n) < 2 ^ 128).
  { unfold block_size. cbn [width v6_iterator]. apply Z.pow_lt_mono_r; lia. }
  pose proof (visit_range (H0 := v6_laws) (Z.to_nat (block_size6 (prefix_length_ n))) fuel (hosts n) Hf Hb He) as Hv.
  cbn [number zone width v6_iterator] in *. rewrite Z2Nat.id, Hvb, Hve, Hzb, Hze in Hv by lia.
  destruct Hv as (l & Hv & Hl & Hall); [done|lia|lia|done|]. exists l. unfold visits. cbn [number zone addr_ok v6_iterator].
  by rewrite Hzb.
Qed.

Lemma no_hosts n fuel : net_ok n -> prefix_length_ n = 0 -> visit (S fuel) (hosts n) = Ok [].
Proof.
  intros Hn Hp. destruct (v6_hosts_value n Hn) as (Hb & He & Hzb & Hze & Hvb & Hve). cbn [visit].
  assert (begin_ (hosts n) = end_ (hosts n)) as Heq.
  { apply (number_inj (AddressLaws := v6_laws)); try done.
    destruct Hn as [Ha _]. pose proof (number_range (AddressLaws := v6_laws) _ Ha) as Hr. cbn [number width v6_iterator] in Hr.
    cbn [number v6_iterator]. rewrite Hvb, Hve, Hp. unfold block_begin, block_size. cbn [number width v6_iterator]. rewrite Z.sub_0_r, Z.div_small by done. done. }
  replace (addr_eqb (begin_ (hosts n)) (end_ (hosts n))) with true; [done|]. symmetry. by apply v6_eqb_spec.
Qed.

(** *** Text *)

Definition no_slash : list Z -> Prop := Forall (fun c => c <> slash).

Lemma split_slash_app before behind : no_slash before -> split_slash (before ++ slash :: behind) = Some (before, behind).
Proof.
  induction 1 as [|c before Hc _ IH]; cbn [app split_slash]; [by rewrite Z.eqb_refl|].
  apply Z.eqb_neq in Hc. by rewrite Hc, IH.
Qed.

Lemma digits_nonneg fuel base n : 1 < base -> 0 <= n -> Forall (fun d => 0 <= d) (digits fuel base n).
Proof.
  intros Hbase. revert n. induction fuel as [|fuel IH]; intros n Hn; cbn [digits]; [by constructor|].
  destruct (n <? base); [by repeat constructor|]. apply Forall_app. split; [apply IH, Z.div_pos; lia|].
  repeat constructor. apply Z.mod_pos_bound. lia.
Qed.

Lemma digits_no_slash l : Forall (fun d => 0 <= d) l -> no_slash (digit_char <$> l).
Proof. unfold no_slash. rewrite Forall_fmap. intros Hl. eapply Forall_impl; [exact Hl|]. intros d Hd. cbn in *. unfold digit_char, slash. case_Z; lia. Qed.

Lemma skip_zeros_u8 n : forall l, (length l <= n)%nat -> Forall is_u8 l -> Forall is_u8 (skip_zeros l).
Proof.
  induction n as [|n IH]; intros [|b0 [|b1 l]] Hn Hl; cbn [skip_zeros length] in *; try done; try lia.
  destruct (_ && _); [|done]. apply Forall_cons in Hl as [_ Hl]. apply Forall_cons in Hl as [_ Hl]. apply IH; [lia|done].
Qed.

Lemma ntop_no_slash fuel : forall first z bytes, Forall is_u8 bytes -> no_slash (ntop_loop fuel first z bytes).
Proof.
  assert (forall c, c <> slash -> no_slash [c]) as H1 by (intros; by repeat constructor).
  induction fuel as [|fuel IH]; intros first z bytes Hb; cbn [ntop_loop]; [by constructor|].
  destruct bytes as [|b0 [|b1 rest]]; try by constructor.
  apply Forall_cons in Hb as [H0 Hb]. apply Forall_cons in Hb as [Hb1 Hb]. cbv zeta. destruct (_ && _ && _).
  - apply Forall_cons. split; [done|]. apply Forall_app. split; [by destruct (skip_zeros rest); repeat constructor|].
    apply IH. by apply (skip_zeros_u8 (length rest)).
  - apply Forall_app. split; [by destruct first; repeat constructor|]. apply Forall_app. split; [|by apply IH].
    apply digits_no_slash, digits_nonneg; [lia|]. rewrite word_of_sum by done. unfold is_u8 in *. lia.
Qed.

Lemma address_no_slash a : v6_ok a -> no_slash (v6_to_string a).
Proof.
  intros (_ & Hb & Hs). unfold v6_to_string, inet_ntop6. apply Forall_app. split; [by apply ntop_no_slash|].
  case_Z; [by constructor|]. constructor; [done|]. apply digits_no_slash, digits_nonneg; unfold is_u32 in *; lia.
Qed.

(** Every prefix length is read as it is printed. *)
Lemma prefix_text p : 0 <= p <= 128 -> decimal p <> [] /\ forallb is_digit (decimal p) = true /\ atoi (decimal p) = Ok p.
Proof.
  intros Hp.
  assert (forallb (fun p => negb (bool_decide (decimal p = [])) && forallb is_digit (decimal p)
            && match atoi (decimal p) with Ok q => q =? p | Fault _ => false end) (seqZ 0 129) = true) as H by (vm_compute; reflexivity).
  rewrite forallb_forall in H. specialize (H p). rewrite !andb_true_iff, negb_true_iff, bool_decide_eq_false in H.
  destruct H as [[H1 H2] H3]; [apply list_elem_of_In, elem_of_seqZ; lia|]. split; [done|]. split; [done|].
  destruct (atoi _) as [q|]; [|done]. apply Z.eqb_eq in H3. by subst.
Qed.

Lemma make_to_string n : net_ok n -> scope_id_ (address_ n) <= 65535 -> make_network_v6 (to_string n) = Ok (Some n).
Proof.
  intros [Ha Hp] Hsc. unfold make_network_v6, to_string. rewrite split_slash_app by (by apply address_no_slash).
  destruct (prefix_text _ Hp) as (Hne & Hd & Hat).
  replace (match decimal (prefix_length_ n) with [] => true | _ => false end) with false by (by destruct (decimal _)).
  rewrite Hd, Hat. cbn [negb]. destruct n as [[bytes sc] p]. destruct Ha as (Hl & Hb & Hs). cbn [address_ prefix_length_ s6_addr scope_id_] in *.
  unfold make_address_v6, v6_to_string. cbn [s6_addr scope_id_]. rewrite read_printed by done.
  replace (sc <=? 65535) with true by (symmetry; by apply Z.leb_le). cbn [obind option_map]. rewrite v6_of_prefix_ok by lia.
  rewrite Z.gtb_ltb. case_Z; cbn [orb]; done || lia.
Qed.

Lemma split_slash_some str before behind : split_slash str = Some (before, behind) -> str = before ++ slash :: behind.
Proof.
  revert before. induction str as [|c str IH]; intros before; cbn [split_slash]; [done|]. case_Z; [intros [= <- <-]; by subst c|].
  destruct (split_slash str) as [[bf bh]|]; [|done]. intros [= <- <-]. cbn. by rewrite (IH bf).
Qed.

Lemma make_well_formed str : match make_network_v6 str with
  | Ok (Some n) => net_ok n
  | Ok None => True
  | Fault f => f = IntOverflow /\ exists before behind, str = before ++ slash :: behind
                 /\ INT_MAX < fold_left (fun n c => n * 10 + (c - 48)) behind 0
  end.
Proof.
  unfold make_network_v6. destruct (split_slash str) as [[before behind]|] eqn:Hsplit; [|done].
  destruct (match behind with [] => true | _ => false end); [done|]. destruct (negb _); [done|].
  unfold make_address_v6. destruct (pton_well_formed before) as (r & -> & Hr). cbn [obind].
  destruct r as [[bytes sc]|]; cbn [option_map]; [|done]. destruct Hr as (Hl & Hb & Hs).
  unfold atoi. cbv zeta. destruct (_ <=? INT_MAX) eqn:Hv; cbn [obind].
  2:{ split; [done|]. exists before, behind. split; [by apply split_slash_some|by apply Z.leb_gt]. }
  rewrite Z.gtb_ltb. set (v := fold_left _ _ _) in *. case_Z; cbn [orb]; try done. rewrite v6_of_prefix_ok by lia. split; [|done].
  split; [done|]. split; [done|]. unfold is_word, is_u32 in *. cbn [scope_id_ v6_of_bytes address_]. lia.
Qed.

(** ** Theorems *)

(** C39: IPv6 networks are sets of addresses of one scope.  On networks with an address of
    sixteen bytes and a prefix of at most 128 bits, [is_subnet_of] does not throw and says
    that the addresses of one network are a proper subset of those of the other.  The loop
    over [hosts] visits the addresses of the network in order, each of them and no other,
    and [find] finds these in a network that does not reach the last address.  The hosts of
    a network with prefix 0, which has all addresses, are none. *)
Theorem network_v6_correct a b : net_ok a -> net_ok b ->
  (exists r, is_subnet_of a b = inl r
     /\ (r = true <-> (forall z, in_block (prefix_length_ a) (address_ a) z -> in_block (prefix_length_ b) (address_ b) z)
           /\ exists z, in_block (prefix_length_ b) (address_ b) z /\ ~ in_block (prefix_length_ a) (address_ a) z))
  /\ forall fuel, (Z.to_nat (2 ^ (128 - prefix_length_ a)) < fuel)%nat ->
       exists l, visit fuel (hosts a) = Ok l
         /\ number <$> l = seqZ (be_value (s6_addr (network a))) (if prefix_length_ a =? 0 then 0 else 2 ^ (128 - prefix_length_ a))
         /\ (0 < prefix_length_ a -> forall z, z ∈ l <-> in_block (prefix_length_ a) (address_ a) z)
         /\ (be_value (s6_addr (end_ (hosts a))) <> 0 ->
             forall z, v6_ok z -> scope_id_ z = scope_id_ (address_ a) -> find (hosts a) z <> end_ (hosts a) <-> z ∈ l).
Proof.
  intros Ha Hb. split.
  { destruct (v6_is_subnet_of_block a b Ha Hb) as (r & Hr & Hiff). exists r. split; [done|]. rewrite Hiff.
    destruct Ha as [Ha Hpa], Hb as [Hb Hpb]. by apply (block_subset (H0 := v6_laws)). }
  intros fuel Hf. destruct (v6_hosts_value a Ha) as (Hbo & Heo & Hzb & Hze & Hvb & Hve).
  destruct (v6_network_value a Ha) as [Hno Hnv]. pose proof Ha as [Hao Hp].
  destruct (Z.eq_dec (prefix_length_ a) 0) as [Hp0|Hp0].
  - destruct fuel as [|fuel]; [lia|]. exists []. rewrite no_hosts by done. rewrite Hp0 at 1. split; [done|]. split; [done|].
    split; [lia|]. intros Hne. exfalso. apply Hne. rewrite Hve. unfold block_begin, block_size. rewrite Hp0.
    pose proof (number_range (AddressLaws := v6_laws) _ Hao) as Hr. cbn [number width v6_iterator] in *.
    rewrite Z.sub_0_r, Z.div_small by done. done.
  - rewrite (proj2 (Z.eqb_neq _ _) Hp0), Hnv. destruct (v6_hosts_visited a fuel Ha) as (l & Hv); [lia|exact Hf|].
    destruct (block_fits (H0 := v6_laws) (prefix_length_ a) (address_ a) Hp Hao) as [Hlo Hhi].
    pose proof Hv as (Hvis & Hl & Hall). exists l. split; [done|]. split; [done|]. split.
    + intros _ z. rewrite in_block_iff by exact (proj2 Hp). split.
      * intros Hin. rewrite Forall_forall in Hall. destruct (Hall z Hin) as [Hz Hzz]. split; [done|].
        split; [by rewrite Hzz|]. by apply (visits_elem (H0 := v6_laws) _ _ _ _ _ _ Hv).
      * intros (Hz & Hzz & Hin). by apply (visits_elem (H0 := v6_laws) _ _ _ _ _ _ Hv).
    + intros Hne z Hz Hzz. apply (find_visits (H0 := v6_laws) _ _ _ _ _ _ Hv); try done; cbn [number zone v6_iterator].
      rewrite Hve in *. cbn [width v6_iterator] in Hhi. apply Z.mod_small.
      destruct (Z.eq_dec (block_begin6 (prefix_length_ a) (address_ a) + block_size6 (prefix_length_ a)) (2 ^ 128)) as [He|He].
      * rewrite He, Z.mod_same in Hne; lia.
      * pose proof (block_size_pos (A := address_v6) (prefix_length_ a) (proj2 Hp)). lia.
Qed.

(** C40: IPv6 networks as text.  Reading what [to_string] printed gives the network back,
    for scope ids of 16 bits.  On every string the parser returns, with a network whose
    address and prefix are well formed or with an error, unless the digits behind the
    slash are a number beyond [int], on which [std::atoi] has no meaning. *)
Theorem network_text_round_trip :
  (forall n, net_ok n -> scope_id_ (address_ n) <= 65535 -> make_network_v6 (to_string n) = Ok (Some n))
  /\ forall str, match make_network_v6 str with
       | Ok (Some n) => net_ok n
       | Ok None => True
       | Fault f => f = IntOverflow /\ exists before behind, str = before ++ slash :: behind
                      /\ INT_MAX < fold_left (fun n c => n * 10 + (c - 48)) behind 0
       end.
Proof. split; [apply make_to_string|apply make_well_formed]. Qed.

(** The hosts of ::/0, and the host of the last address. *)
Lemma v6_find_misses_last : let n := net (replicate 16 255) 128 in
  visit 2 (hosts n) = Ok [address_ n] /\ find (hosts n) (address_ n) = end_ (hosts n).
Proof. by vm_compute. Qed.

Lemma all_addresses_have_no_host : let n := net (replicate 16 0) 0 in
  v6_empty (hosts n) = true /\ visit 1 (hosts n) = Ok [].
Proof. by vm_compute. Qed.

Lemma atoi_overflow : make_network_v6 [58; 58; 47; 52; 50; 57; 52; 57; 54; 55; 51; 54; 48] = Fault IntOverflow.
Proof. by vm_compute. Qed.

(** ** Witnesses *)

Lemma network_v6_correct_witness :
  let a := net ([254; 128] ++ replicate 13 0 ++ [9]) 126 in
  is_subnet_of a link_local = inl true
  /\ exists l, visit 5 (hosts a) = Ok l /\ number <$> l = seqZ (be_value (s6_addr (network a))) 4
       /\ find (hosts a) (address_ a) <> end_ (hosts a).
Proof.
  cbv zeta. assert (net_ok (net ([254; 128] ++ replicate 13 0 ++ [9]) 126)) as Ha.
  { split; [|done]. split; [done|]. split; [|done]. cbn. repeat (apply Forall_cons; split; [done|]). by apply Forall_nil. }
  assert (net_ok link_local) as Hb.
  { split; [|done]. split; [done|]. split; [|done]. cbn. repeat (apply Forall_cons; split; [done|]). by apply Forall_nil. }
  destruct (network_v6_correct _ _ Ha Hb) as [H1 H2]. split.
  - destruct H1 as (r & Hr & _). rewrite Hr. revert Hr. vm_compute. by intros [= <-].
  - destruct (H2 5%nat) as (l & Hl & Hn & Hin & Hfind); [vm_compute; lia|]. exists l. split; [exact Hl|]. split; [exact Hn|].
    apply Hfind; [vm_compute; done|apply Ha|done|]. apply Hin; [done|]. split; [apply Ha|]. done.
Defined.

Lemma network_text_round_trip_witness :
  make_network_v6 (to_string link_local) = Ok (Some link_local)
  /\ to_string link_local = [102; 101; 56; 48; 58; 58; 47; 49; 48].
Proof.
  split; [|reflexivity]. apply (proj1 network_text_round_trip).
  - split; [|done]. split; [done|]. split; [|done]. cbn. repeat (apply Forall_cons; split; [done|]). by apply Forall_nil.
  - cbn. lia.
Defined.
