(* ===== verification/Strand.v ===== *)
(** * Strand: handlers that never run at the same time

    The two strand services of asio: [detail/impl/strand_executor_service.ipp] and
    [.hpp] (behind [asio::strand]) and [detail/impl/strand_service.ipp] and [.hpp]
    (behind [io_context::strand]).  A strand is a lock that is held from the first
    function handed to it until its queues are empty: [locked_] is set with the
    mutex held, and whoever set it schedules the strand on the inner executor.
    Threads are stacks of the functions they are in; a critical section of a
    mutex is one step, as are the push after it and each turn of the loop over
    the ready queue.  What the functions run by a strand do is left open: a thread
    inside one may call any strand, return or throw.  The inner executor runs each
    invoker it was given once, on any thread; where the caller may block it may
    do so at once. *)

From stdpp Require Import base list gmap.
From Stdlib Require Import ZArith Lia.
From S2P Require Import Prelude.
Local Open Scope exchange_scope.
Local Open Scope list_scope.
Local Open Scope Z_scope.

(** ** Data *)

(** Functions are identified by a number, implementations by their address. *)
Definition op : Type := nat.

Inductive service : Type := executor_service | io_service.

#[export] Instance service_eq_dec : EqDecision service.
Proof. solve_decision. Defined.

(** [strand_impl] of either service; [shutdown_], [next_] and [prev_] are those
    of [strand_executor_service].  The last three fields are not in the code:
    what was handed to the strand, in the order of its mutex, what it has begun
    to run, and what was destroyed without being run. *)
Record strand_impl : Type := mkStrand {
  of_service : service;
  locked_ : bool;
  shutdown_ : bool;
  waiting_queue_ : list op;
  ready_queue_ : list op;
  next_ : Z;
  prev_ : Z;
  submitted : list op;
  started : list op;
  destroyed : list op }.

Definition new_strand (sv : service) : strand_impl := mkStrand sv false false [] [] 0 0 [] [] [].

(** What a thread is in the middle of, innermost first. *)
Inductive frame : Type :=
  | Enqueueing (impl : Z) (o : op) (inl : bool)  (* locked_ is set, ready_queue_.push(op) to come *)
  | Scheduling (impl : Z) (inl : bool)           (* the invoker is to be handed to the executor *)
  | Running (impl : Z) (current : option op)     (* the loop over the ready queue, and the function it runs *)
  | Dispatched (impl : Z) (o : op)               (* do_dispatch runs the function itself *)
  | Nested (impl : Z) (o : op)                   (* in the strand already, run at once *)
  | Exiting (impl : Z).                          (* the destructor of on_invoker_exit, on_do_complete_exit or on_dispatch_exit *)

Inductive call : Type := Execute (never : bool) | Dispatch | Post | Defer.

(** The caller lets itself be blocked by the function. *)
Definition may_block (c : call) : bool :=
  match c with Execute never => negb never | Dispatch => true | Post | Defer => false end.

(** ** One strand *)

Definition set_locked (b : bool) (s : strand_impl) : strand_impl :=
  mkStrand (of_service s) b (shutdown_ s) (waiting_queue_ s) (ready_queue_ s) (next_ s) (prev_ s)
    (submitted s) (started s) (destroyed s).
Definition set_waiting (q : list op) (s : strand_impl) : strand_impl :=
  mkStrand (of_service s) (locked_ s) (shutdown_ s) q (ready_queue_ s) (next_ s) (prev_ s)
    (submitted s) (started s) (destroyed s).
Definition set_ready_queue (q : list op) (s : strand_impl) : strand_impl :=
  mkStrand (of_service s) (locked_ s) (shutdown_ s) (waiting_queue_ s) q (next_ s) (prev_ s)
    (submitted s) (started s) (destroyed s).
Definition set_links (next prev : Z) (s : strand_impl) : strand_impl :=
  mkStrand (of_service s) (locked_ s) (shutdown_ s) (waiting_queue_ s) (ready_queue_ s) next prev
    (submitted s) (started s) (destroyed s).
Definition submit (o : op) (s : strand_impl) : strand_impl :=
  mkStrand (of_service s) (locked_ s) (shutdown_ s) (waiting_queue_ s) (ready_queue_ s) (next_ s) (prev_ s)
    (submitted s ++ [o]) (started s) (destroyed s).
Definition start (o : op) (s : strand_impl) : strand_impl :=
  mkStrand (of_service s) (locked_ s) (shutdown_ s) (waiting_queue_ s) (ready_queue_ s) (next_ s) (prev_ s)
    (submitted s) (started s ++ [o]) (destroyed s).
Definition destroy (os : list op) (s : strand_impl) : strand_impl :=
  mkStrand (of_service s) (locked_ s) (shutdown_ s) (waiting_queue_ s) (ready_queue_ s) (next_ s) (prev_ s)
    (submitted s) (started s) (destroyed s ++ os).

(** [call_stack<strand_impl>::contains(impl)] *)
Definition runs (impl : Z) (f : frame) : bool :=
  match f with
  | Running i _ | Dispatched i _ => bool_decide (i = impl)
  | _ => false
  end.

Definition running_in_this_thread (impl : Z) (stack : list frame) : bool := existsb (runs impl) stack.

(** [strand_executor_service::enqueue] up to the end of its critical section;
    [true] when the caller has got the lock of the strand. *)
Definition enqueue (o : op) (s : strand_impl) : strand_impl * bool :=
  let s := submit o s in
  if shutdown_ s then (destroy [o] s, false)
  else if locked_ s then (set_waiting (waiting_queue_ s ++ [o]) s, false)
  else (set_locked true s, true).

(** [execute] (or [do_execute]), [dispatch], [post] and [defer] of
    [strand_executor_service] *)
Definition executor_call (impl : Z) (c : call) (o : op) (s : strand_impl) (stack : list frame) : strand_impl * list frame :=
  if may_block c && running_in_this_thread impl stack then (s, Nested impl o :: stack)
  else
    let '(s, first) := enqueue o s in
    (s, if first : bool then Enqueueing impl o (may_block c) :: stack else stack).

(** [strand_service::do_post] *)
Definition do_post (impl : Z) (o : op) (s : strand_impl) (stack : list frame) : strand_impl * list frame :=
  let s := submit o s in
  if locked_ s then (set_waiting (waiting_queue_ s ++ [o]) s, stack)
  else (set_locked true s, Enqueueing impl o false :: stack).

(** [strand_service::do_dispatch]; [can_dispatch] says that the thread is inside
    the io_context. *)
Definition do_dispatch (impl : Z) (can_dispatch : bool) (o : op) (s : strand_impl) (stack : list frame) : strand_impl * list frame :=
  if can_dispatch && negb (locked_ s) then (start o (set_locked true (submit o s)), Dispatched impl o :: stack)
  else do_post impl o s stack.

(** [strand_service::dispatch] and [post] *)
Definition io_call (impl : Z) (c : call) (can_dispatch : bool) (o : op) (s : strand_impl) (stack : list frame) : strand_impl * list frame :=
  match c with
  | Dispatch =>
      if running_in_this_thread impl stack then (s, Nested impl o :: stack) else do_dispatch impl can_dispatch o s stack
  | _ => do_post impl o s stack
  end.

Definition make_call (impl : Z) (c : call) (can_dispatch : bool) (o : op) (s : strand_impl) (stack : list frame)
    : strand_impl * list frame :=
  match of_service s with
  | executor_service => executor_call impl c o s stack
  | io_service => io_call impl c can_dispatch o s stack
  end.

(** A turn of the loop in [run_ready_handlers] or [do_complete]; when the queue is
    empty the destructor of the exit object comes next. *)
Definition next_handler (impl : Z) (s : strand_impl) : strand_impl * frame :=
  match ready_queue_ s with
  | [] => (s, Exiting impl)
  | o :: rest => (start o (set_ready_queue rest s), Running impl (Some o))
  end.

(** [push_waiting_to_ready], and the same lines in the destructors of
    [strand_service] *)
Definition push_waiting_to_ready (s : strand_impl) : strand_impl * bool :=
  let ready := ready_queue_ s ++ waiting_queue_ s in
  let more_handlers := negb (bool_decide (ready = [])) in
  (set_locked more_handlers (set_ready_queue ready (set_waiting [] s)), more_handlers).

(** ** All strands *)

(** [pending] are the invokers (or the implementations posted as operations) that
    the inner executor holds, [threads] the stacks.  [implementations_] is the
    array of [strand_service] and [salt_] its salt.  A strand of the other service shares
    its mutex with those whose address and salt hash to the same of its mutexes; no
    critical section is inside another, so which one it is makes no difference. *)
Record system : Type := mkSystem {
  impls : gmap Z strand_impl;
  impl_list_ : Z;
  implementations_ : gmap Z Z;
  salt_ : Z;
  pending : list Z;
  threads : list (list frame);
  down : bool }.

Definition set_impls (m : gmap Z strand_impl) (y : system) : system :=
  mkSystem m (impl_list_ y) (implementations_ y) (salt_ y) (pending y) (threads y) (down y).
Definition set_impl_list (p : Z) (y : system) : system :=
  mkSystem (impls y) p (implementations_ y) (salt_ y) (pending y) (threads y) (down y).
Definition set_pending (l : list Z) (y : system) : system :=
  mkSystem (impls y) (impl_list_ y) (implementations_ y) (salt_ y) l (threads y) (down y).
Definition set_threads (l : list (list frame)) (y : system) : system :=
  mkSystem (impls y) (impl_list_ y) (implementations_ y) (salt_ y) (pending y) l (down y).

(** The state of a strand and the stack of a thread after a step of it. *)
Definition update (impl : Z) (s : strand_impl) (i : nat) (stack : list frame) (y : system) : system :=
  set_impls (<[ impl := s ]> (impls y)) (set_threads (<[ i := stack ]> (threads y)) y).

(** *** The list of implementations *)

Definition num_implementations : Z := 193.

(** The index computed from an address and the salt, in 64 bits. *)
Definition hash_index (address salt : Z) : Z :=
  let i := u64 (address + Z.shiftr address 3) in
  Z.lxor i (u64 (salt + 2654435769 + u64 (Z.shiftl i 6) + Z.shiftr i 2)).

(** [p->next_ = n] and [p->prev_ = n]; [p] is not null. *)
Definition set_next (p n : Z) (m : gmap Z strand_impl) : outcome (gmap Z strand_impl) :=
  let* s := of_option UseAfterFree (m !! p) in Ok (<[ p := set_links n (prev_ s) s ]> m).
Definition set_prev (p n : Z) (m : gmap Z strand_impl) : outcome (gmap Z strand_impl) :=
  let* s := of_option UseAfterFree (m !! p) in Ok (<[ p := set_links (next_ s) n s ]> m).

(** [create_implementation]; [p] is the address of the new object. *)
Definition create_implementation (p : Z) (y : system) : outcome system :=
  let m := <[ p := set_links (impl_list_ y) 0 (new_strand executor_service) ]> (impls y) in
  let* m := if impl_list_ y =? 0 then Ok m else set_prev (impl_list_ y) p m in
  Ok (set_impl_list p (set_impls m y)).

(** [~strand_impl] *)
Definition destroy_implementation (p : Z) (y : system) : outcome system :=
  let* s := of_option UseAfterFree (impls y !! p) in
  let head := if impl_list_ y =? p then next_ s else impl_list_ y in
  let* m := if prev_ s =? 0 then Ok (impls y) else set_next (prev_ s) (next_ s) (impls y) in
  let* m := if next_ s =? 0 then Ok m else set_prev (next_ s) (prev_ s) m in
  Ok (set_impl_list head (set_impls (delete p m) y)).

(** [strand_service::construct]; [p] is the address of [impl], [fresh] that of the
    implementation made when the place in the array is free. *)
Definition construct (p fresh : Z) (y : system) : system :=
  let index := hash_index p (salt_ y) mod num_implementations in
  let y := mkSystem (impls y) (impl_list_ y) (implementations_ y) (u64 (salt_ y + 1)) (pending y) (threads y) (down y) in
  match implementations_ y !! index with
  | Some _ => y
  | None =>
      mkSystem (<[ fresh := new_strand io_service ]> (impls y)) (impl_list_ y) (<[ index := fresh ]> (implementations_ y))
        (salt_ y) (pending y) (threads y) (down y)
  end.

(** What [shutdown] does to an implementation of its service: the queues are moved
    to a local queue, whose operations are destroyed when it ends. *)
Definition shutdown_impl (s : strand_impl) : strand_impl :=
  mkStrand (of_service s) (locked_ s) (match of_service s with executor_service => true | io_service => shutdown_ s end)
    [] [] (next_ s) (prev_ s) (submitted s) (started s) (destroyed s ++ waiting_queue_ s ++ ready_queue_ s).

(** [strand_executor_service::shutdown] *)
Fixpoint shutdown_list (fuel : nat) (p : Z) (m : gmap Z strand_impl) : outcome (gmap Z strand_impl) :=
  match fuel with
  | O => Fault OutOfFuel
  | S fuel =>
      if p =? 0 then Ok m
      else
        let* s := of_option UseAfterFree (m !! p) in
        shutdown_list fuel (next_ s) (<[ p := shutdown_impl s ]> m)
  end.

(** [strand_service::shutdown] *)
Definition shutdown_array (array : gmap Z Z) (m : gmap Z strand_impl) : gmap Z strand_impl :=
  foldr (alter shutdown_impl) m (map_to_list array).*2.

(** Both services, when the execution context is shut down. *)
Definition shutdown (fuel : nat) (y : system) : outcome system :=
  let* m := shutdown_list fuel (impl_list_ y) (impls y) in
  Ok (mkSystem (shutdown_array (implementations_ y) m) (impl_list_ y) (implementations_ y) (salt_ y) (pending y) (threads y) true).

(** ** Steps *)

(** The thread is in code outside this file, which may call any strand. *)
Definition user_code (stack : list frame) : bool :=
  match stack with
  | [] | Running _ (Some _) :: _ | Dispatched _ _ :: _ | Nested _ _ :: _ => true
  | _ => false
  end.

(** Thread [i] has this stack. *)
Notation "y '@' i" := (threads y !! i) (at level 30).

(** What threads do by themselves, without a new call. *)
Inductive internal : system -> system -> Prop :=
  (** [ready_queue_.push(op)], without the mutex *)
  | push_ready y i impl s o inl st : y @ i = Some (Enqueueing impl o inl :: st) -> impls y !! impl = Some s ->
      internal y (update impl (set_ready_queue (ready_queue_ s ++ [o]) s) i (Scheduling impl inl :: st) y)
  (** the invoker is given to the executor, which keeps it *)
  | schedule y i impl inl st : y @ i = Some (Scheduling impl inl :: st) ->
      internal y (set_pending (pending y ++ [impl]) (set_threads (<[ i := st ]> (threads y)) y))
  (** ... or runs it at once *)
  | schedule_inline y i impl st : y @ i = Some (Scheduling impl true :: st) ->
      internal y (set_threads (<[ i := Running impl None :: st ]> (threads y)) y)
  (** a thread of the executor, or one that calls it, runs an invoker *)
  | invoke y i impl before behind st : y @ i = Some st -> user_code st = true -> pending y = before ++ impl :: behind ->
      internal y (set_pending (before ++ behind) (set_threads (<[ i := Running impl None :: st ]> (threads y)) y))
  | turn y i impl s st : y @ i = Some (Running impl None :: st) -> impls y !! impl = Some s ->
      internal y (update impl (next_handler impl s).1 i ((next_handler impl s).2 :: st) y)
  (** functions return *)
  | return_running y i impl o st : y @ i = Some (Running impl (Some o) :: st) ->
      internal y (set_threads (<[ i := Running impl None :: st ]> (threads y)) y)
  | return_dispatched y i impl o st : y @ i = Some (Dispatched impl o :: st) ->
      internal y (set_threads (<[ i := Exiting impl :: st ]> (threads y)) y)
  | return_nested y i impl o st : y @ i = Some (Nested impl o :: st) ->
      internal y (set_threads (<[ i := st ]> (threads y)) y)
  | exit y i impl s st : y @ i = Some (Exiting impl :: st) -> impls y !! impl = Some s ->
      let r := push_waiting_to_ready s in
      internal y (update impl r.1 i (if r.2 then Scheduling impl false :: st else st) y).

(** Nobody but the list refers to an implementation: no frame, no invoker. *)
Definition frame_impl (f : frame) : Z :=
  match f with
  | Enqueueing i _ _ | Scheduling i _ | Running i _ | Dispatched i _ | Nested i _ | Exiting i => i
  end.

Definition unreferenced (impl : Z) (y : system) : Prop :=
  impl ∉ pending y /\ forall st f, st ∈ threads y -> f ∈ st -> frame_impl f <> impl.

(** What callers do.  An exception leaves the loop over the ready queue; the exit
    object is destroyed as always.  The last reference to a strand of
    [strand_executor_service] may go when no frame and no invoker holds one.  The
    context is shut down when no thread is inside; after that the
    [io_context]'s own strands are gone. *)
Inductive client : system -> system -> Prop :=
  | calls y i impl s st c can_dispatch o : y @ i = Some st -> user_code st = true -> impls y !! impl = Some s ->
      (of_service s = io_service -> down y = false /\ (c = Dispatch \/ c = Post)) ->
      let r := make_call impl c can_dispatch o s st in
      client y (update impl r.1 i r.2 y)
  | throw y i impl o st : y @ i = Some (Running impl (Some o) :: st) ->
      client y (set_threads (<[ i := Exiting impl :: st ]> (threads y)) y)
  | creates y y' p : down y = false -> p <> 0 -> impls y !! p = None -> create_implementation p y = Ok y' -> client y y'
  | constructs y p fresh : down y = false -> fresh <> 0 -> impls y !! fresh = None -> client y (construct p fresh y)
  | destroys y y' p s : impls y !! p = Some s -> of_service s = executor_service -> unreferenced p y ->
      destroy_implementation p y = Ok y' -> client y y'
  | shuts_down y y' fuel : down y = false -> Forall (fun st => st = []) (threads y) -> shutdown fuel y = Ok y' -> client y y'.

Inductive step (y y' : system) : Prop :=
  | step_internal : internal y y' -> step y y'
  | step_client : client y y' -> step y y'.

Definition initial (y : system) : Prop :=
  exists n salt, y = mkSystem ∅ 0 ∅ salt [] (replicate n []) false.
