(* ===== verification/StrandTheorems.v ===== *)
(** * StrandTheorems: a strand runs one function at a time, and all of them

    The lock of a strand is a token: exactly one frame or invoker of the whole
    system stands for it while it is set.  From this: the functions of a strand
    never overlap and run in the order of its mutex, its ready queue is never
    touched by two threads, no function is forgotten, and all can be run. *)

From stdpp Require Import base list gmap sorting.
From Stdlib Require Import ZArith Lia.
From S2P Require Import Prelude Counting Strand.
Local Open Scope exchange_scope.
Local Open Scope list_scope.
Local Open Scope Z_scope.

(** ** The token of a strand *)

Definition holds (impl : Z) (f : frame) : Z :=
  match f with
  | Enqueueing i _ _ | Scheduling i _ | Running i _ | Dispatched i _ | Exiting i => if decide (i = impl) then 1 else 0
  | Nested _ _ => 0
  end.

Definition stack_tokens (impl : Z) (st : list frame) : Z := sum_by (holds impl) st.
Definition thread_tokens (impl : Z) (l : list (list frame)) : Z := sum_by (stack_tokens impl) l.
Definition tokens (impl : Z) (y : system) : Z := thread_tokens impl (threads y) + occurrences impl (pending y).

(** The function between [enqueue] and the push that follows it. *)
Definition frame_limbo (impl : Z) (f : frame) : list op :=
  match f with Enqueueing i o _ => if decide (i = impl) then [o] else [] | _ => [] end.
Definition stack_limbo (impl : Z) (st : list frame) : list op := st ≫= frame_limbo impl.
Definition limbo (impl : Z) (l : list (list frame)) : list op := l ≫= stack_limbo impl.

Lemma holds_nonneg impl f : 0 <= holds impl f.
Proof. destruct f; cbn; try case_decide; lia. Qed.

Lemma stack_tokens_nonneg impl st : 0 <= stack_tokens impl st.
Proof. apply sum_by_nonneg, Forall_forall. intros f _. apply holds_nonneg. Qed.

Lemma thread_tokens_nonneg impl l : 0 <= thread_tokens impl l.
Proof. apply sum_by_nonneg, Forall_forall. intros f _. apply stack_tokens_nonneg. Qed.

Lemma stack_tokens_app impl st1 st2 : stack_tokens impl (st1 ++ st2) = stack_tokens impl st1 + stack_tokens impl st2.
Proof. apply sum_by_app. Qed.

Lemma thread_tokens_insert impl l i st st' : l !! i = Some st ->
  thread_tokens impl (<[ i := st' ]> l) = thread_tokens impl l - stack_tokens impl st + stack_tokens impl st'.
Proof. apply sum_by_insert. Qed.

Lemma thread_tokens_ge impl l i st : l !! i = Some st -> stack_tokens impl st <= thread_tokens impl l.
Proof. apply sum_by_ge, Forall_forall. intros ? _. apply stack_tokens_nonneg. Qed.

Lemma frame_limbo_length impl f : Z.of_nat (length (frame_limbo impl f)) <= holds impl f.
Proof. destruct f; cbn; try case_decide; cbn; lia. Qed.

Lemma stack_limbo_length impl st : Z.of_nat (length (stack_limbo impl st)) <= stack_tokens impl st.
Proof.
  induction st as [|f st IH]; [done|]. unfold stack_limbo, stack_tokens in *. rewrite bind_cons, length_app. cbn [sum_by].
  pose proof (frame_limbo_length impl f). lia.
Qed.

Lemma limbo_length impl l : Z.of_nat (length (limbo impl l)) <= thread_tokens impl l.
Proof.
  induction l as [|st l IH]; [done|]. unfold limbo, thread_tokens in *. rewrite bind_cons, length_app. cbn [sum_by].
  pose proof (stack_limbo_length impl st). lia.
Qed.

Lemma no_limbo impl l : thread_tokens impl l = 0 -> limbo impl l = [].
Proof. intros Hz. pose proof (limbo_length impl l). apply length_zero_iff_nil. lia. Qed.

(** What is in limbo on the other threads and further down the stack. *)
Lemma limbo_split impl l i st : l !! i = Some st -> exists before behind,
  (forall st', limbo impl (<[ i := st' ]> l) = before ++ stack_limbo impl st' ++ behind)
  /\ Z.of_nat (length before) + Z.of_nat (length behind) + stack_tokens impl st <= thread_tokens impl l.
Proof.
  revert i. induction l as [|st0 l IH]; intros [|i] Hi; try done.
  - injection Hi as ->. exists [], (limbo impl l). split; [done|].
    pose proof (limbo_length impl l). unfold thread_tokens in *. cbn [sum_by length]. lia.
  - destruct (IH i Hi) as (before & behind & Heq & Hle). exists (stack_limbo impl st0 ++ before), behind. split.
    + intros st'. change (limbo impl (<[ S i := st' ]> (st0 :: l))) with (stack_limbo impl st0 ++ limbo impl (<[ i := st' ]> l)).
      by rewrite Heq, app_assoc.
    + pose proof (stack_limbo_length impl st0). unfold thread_tokens in *. cbn [sum_by]. rewrite length_app. lia.
Qed.

(** A thread replaces the frames on top of its stack. *)
Section Replace.
Context (impl : Z) (l : list (list frame)) (i : nat) (old new st : list frame) (Hi : l !! i = Some (old ++ st)).

Lemma tokens_replace : thread_tokens impl (<[ i := new ++ st ]> l) =
  thread_tokens impl l - stack_tokens impl old + stack_tokens impl new.
Proof. rewrite (thread_tokens_insert impl l i _ _ Hi), !stack_tokens_app. lia. Qed.

Lemma stack_limbo_app st1 st2 : stack_limbo impl (st1 ++ st2) = stack_limbo impl st1 ++ stack_limbo impl st2.
Proof. apply bind_app. Qed.

Lemma limbo_replace_same : stack_limbo impl old = stack_limbo impl new ->
  limbo impl (<[ i := new ++ st ]> l) = limbo impl l.
Proof.
  intros He. destruct (limbo_split impl l i _ Hi) as (before & behind & Heq & _).
  rewrite <- (list_insert_id l i _ Hi) at 2. by rewrite !Heq, !stack_limbo_app, He.
Qed.

(** While the token is that of this thread, or there is none, nothing else is in
    limbo. *)
Lemma limbo_replace : thread_tokens impl l = stack_tokens impl old ->
  limbo impl l = stack_limbo impl old /\ limbo impl (<[ i := new ++ st ]> l) = stack_limbo impl new.
Proof.
  intros Ht. destruct (limbo_split impl l i _ Hi) as (before & behind & Heq & Hle). rewrite stack_tokens_app in Hle.
  pose proof (stack_limbo_length impl st) as Hst.
  assert (before = [] /\ behind = [] /\ stack_limbo impl st = []) as (-> & -> & Hn).
  { rewrite <- !length_zero_iff_nil. lia. }
  rewrite <- (list_insert_id l i _ Hi) at 1. by rewrite !Heq, !stack_limbo_app, Hn, !app_nil_r.
Qed.

End Replace.

(** ** One strand *)

(** [n] tokens are out for it and [lim] is in limbo. *)
Definition strand_ok (n : Z) (lim : list op) (dn : bool) (s : strand_impl) : Prop :=
  n = (if locked_ s then 1 else 0)
  /\ (locked_ s = false -> ready_queue_ s = [] /\ waiting_queue_ s = [])
  /\ started s `prefix_of` submitted s
  /\ shutdown_ s = (match of_service s with executor_service => dn | io_service => false end)
  /\ (if dn then ready_queue_ s = [] /\ waiting_queue_ s = [] /\ lim = [] /\ submitted s ≡ₚ started s ++ destroyed s
      else destroyed s = [] /\ submitted s = started s ++ ready_queue_ s ++ lim ++ waiting_queue_ s).

Lemma ok_one n lim dn s : strand_ok n lim dn s -> 0 <= n <= 1.
Proof. intros (-> & _). destruct (locked_ s); lia. Qed.

Lemma ok_new sv dn n p : dn = false -> strand_ok 0 [] dn (set_links n p (new_strand sv)).
Proof. intros ->. unfold strand_ok. cbn. by destruct sv. Qed.

Lemma ok_links n lim dn s nx pv : strand_ok n lim dn s -> strand_ok n lim dn (set_links nx pv s).
Proof. by destruct s. Qed.

Lemma ok_push_ready o dn s : strand_ok 1 [o] dn s -> strand_ok 1 [] dn (set_ready_queue (ready_queue_ s ++ [o]) s).
Proof.
  intros (Hn & _ & Hp & Hs & Hq). unfold strand_ok. cbn. destruct (locked_ s); [|done].
  do 4 (split; [done|]). destruct dn; [by destruct Hq as (_ & _ & ? & _)|]. by rewrite <- app_assoc.
Qed.

Lemma ok_next impl lim dn s : strand_ok 1 lim dn s -> lim = [] -> strand_ok 1 lim dn (next_handler impl s).1.
Proof.
  intros (Hn & Hu & Hp & Hs & Hq) ->. unfold next_handler. destruct (ready_queue_ s) as [|o rest] eqn:Hr; cbn [fst].
  { unfold strand_ok. by rewrite Hr. }
  unfold strand_ok. cbn. destruct (locked_ s); [|done].
  do 2 (split; [done|]). destruct dn; [by destruct Hq|]. destruct Hq as [Hd Hq].
  split; [exists (rest ++ waiting_queue_ s); by rewrite Hq, <- app_assoc|]. do 2 (split; [done|]).
  by rewrite <- app_assoc.
Qed.

Lemma ok_exit dn s : strand_ok 1 [] dn s -> let r := push_waiting_to_ready s in
  strand_ok (if r.2 then 1 else 0) [] dn r.1 /\ (r.2 = true -> ready_queue_ r.1 <> []).
Proof.
  intros (Hn & Hu & Hp & Hs & Hq) r. subst r. unfold push_waiting_to_ready. cbn. split.
  - unfold strand_ok. cbn. split; [by case_bool_decide|]. split; [by case_bool_decide|]. do 2 (split; [done|]).
    destruct dn.
    + destruct Hq as (-> & -> & _ & Hq). done.
    + cbn [app] in Hq. by rewrite app_nil_r.
  - by case_bool_decide.
Qed.

(** What a call can make of a strand and of the caller's stack. *)
Inductive call_result (impl : Z) (o : op) (s : strand_impl) (st : list frame) : strand_impl * list frame -> Prop :=
  | cr_nested : running_in_this_thread impl st = true -> call_result impl o s st (s, Nested impl o :: st)
  | cr_refused : shutdown_ s = true -> call_result impl o s st (destroy [o] (submit o s), st)
  | cr_waits : locked_ s = true -> shutdown_ s = false ->
      call_result impl o s st (set_waiting (waiting_queue_ s ++ [o]) (submit o s), st)
  | cr_first inl : locked_ s = false -> shutdown_ s = false ->
      call_result impl o s st (set_locked true (submit o s), Enqueueing impl o inl :: st)
  | cr_dispatched : locked_ s = false -> shutdown_ s = false ->
      call_result impl o s st (start o (set_locked true (submit o s)), Dispatched impl o :: st).

Lemma make_call_cases impl c cd o s st : (of_service s = io_service -> shutdown_ s = false) ->
  call_result impl o s st (make_call impl c cd o s st).
Proof.
  intros Hio. unfold make_call, executor_call, io_call, do_dispatch, do_post, enqueue. cbv zeta.
  cbn [shutdown_ locked_ waiting_queue_ submit].
  destruct (of_service s); [|specialize (Hio eq_refl); destruct c].
  - destruct (may_block c && _) eqn:Hn; [apply andb_prop in Hn as [_ Hn]; by constructor|].
    destruct (shutdown_ s) eqn:Hs; [by constructor|]. destruct (locked_ s) eqn:Hl; by constructor.
  - destruct (locked_ s) eqn:Hl; by constructor.
  - destruct (running_in_this_thread impl st) eqn:Hr; [by constructor|].
    destruct cd, (locked_ s) eqn:Hl; by constructor.
  - destruct (locked_ s) eqn:Hl; by constructor.
  - destruct (locked_ s) eqn:Hl; by constructor.
Qed.

Lemma prefix_app_r {A} (l1 l2 l3 : list A) : l1 `prefix_of` l2 -> l1 `prefix_of` l2 ++ l3.
Proof. intros [k ->]. exists (k ++ l3). by rewrite app_assoc. Qed.

Lemma ok_refused n lim dn o s : strand_ok n lim dn s -> shutdown_ s = true -> strand_ok n lim dn (destroy [o] (submit o s)).
Proof.
  intros (Hn & Hu & Hp & Hs & Hq) Hsd. unfold strand_ok. cbn. do 2 (split; [done|]).
  split; [by apply prefix_app_r|]. split; [done|]. rewrite Hsd in Hs. destruct (of_service s), dn; try done.
  destruct Hq as (-> & -> & -> & Hq). by rewrite Hq, app_assoc.
Qed.

Lemma not_down n lim dn s : strand_ok n lim dn s -> shutdown_ s = false -> (of_service s = io_service -> dn = false) -> dn = false.
Proof. intros (_ & _ & _ & Hs & _) Hf Hio. rewrite Hf in Hs. destruct (of_service s); [done|by apply Hio]. Qed.

Lemma ok_waits n lim o s : strand_ok n lim false s -> locked_ s = true ->
  strand_ok n lim false (set_waiting (waiting_queue_ s ++ [o]) (submit o s)).
Proof.
  intros (Hn & Hu & Hp & Hs & Hd & Hq) Hl. unfold strand_ok. cbn. rewrite Hl in *. do 2 (split; [done|]).
  split; [by apply prefix_app_r|]. do 2 (split; [done|]). rewrite Hq. by rewrite <- !app_assoc.
Qed.

(** Who finds the strand unlocked has the token. *)
Lemma ok_first n lim o s : strand_ok n lim false s -> lim = [] -> locked_ s = false ->
  n = 0 /\ strand_ok 1 [o] false (set_locked true (submit o s)) /\ strand_ok 1 [] false (start o (set_locked true (submit o s))).
Proof.
  intros (Hn & Hu & Hp & Hs & Hd & Hq) -> Hl. rewrite Hl in Hn. destruct (Hu Hl) as [Hr Hw]. split; [done|].
  rewrite Hr, Hw, !app_nil_r in Hq. cbn [app] in Hq.
  unfold strand_ok. cbn. rewrite Hr, Hw, Hq. split; (do 2 (split; [done|])).
  - split; [by apply prefix_app_r|]. done.
  - split; [done|]. do 2 (split; [done|]). cbn. by rewrite !app_nil_r.
Qed.

Lemma ok_shutdown n s : strand_ok n [] false s -> strand_ok n [] true (shutdown_impl s).
Proof.
  intros (Hn & Hu & Hp & Hs & Hd & Hq). unfold strand_ok, shutdown_impl. cbn. do 2 (split; [done|]). split; [done|].
  split; [by destruct (of_service s)|]. do 3 (split; [done|]). rewrite Hq, Hd. cbn.
  by rewrite (Permutation_app_comm (ready_queue_ s)).
Qed.

(** ** The list of implementations *)

(** [l] is linked from [p], with [prev] in front of it; behind it are [last] and
    [q]. *)
Fixpoint segment (m : gmap Z strand_impl) (prev p : Z) (l : list Z) (last q : Z) : Prop :=
  match l with
  | [] => last = prev /\ q = p
  | k :: l => p = k /\ k <> 0 /\ exists s, m !! k = Some s /\ of_service s = executor_service /\ prev_ s = prev
      /\ segment m k (next_ s) l last q
  end.

Lemma segment_app m prev p l1 l2 last q : segment m prev p (l1 ++ l2) last q <->
  exists mid_last mid, segment m prev p l1 mid_last mid /\ segment m mid_last mid l2 last q.
Proof.
  revert prev p. induction l1 as [|k l1 IH]; intros prev p; cbn [app segment].
  - split; [by exists prev, p|]. by intros (? & ? & [-> ->] & ?).
  - split.
    + intros (-> & Hk & s & Hs & Hsv & Hp & Hseg). apply IH in Hseg as (ml & mi & H1 & H2). exists ml, mi. split; [|done].
      do 2 (split; [done|]). by exists s.
    + intros (ml & mi & (-> & Hk & s & Hs & Hsv & Hp & H1) & H2). do 2 (split; [done|]). exists s.
      do 3 (split; [done|]). apply IH. by exists ml, mi.
Qed.

(** Links that stay the same. *)
Definition same_links (s s' : strand_impl) : Prop :=
  of_service s' = of_service s /\ next_ s' = next_ s /\ prev_ s' = prev_ s.

Lemma segment_frame m m' l : (forall k s, k ∈ l -> m !! k = Some s -> exists s', m' !! k = Some s' /\ same_links s s') ->
  forall prev p last q, segment m prev p l last q -> segment m' prev p l last q.
Proof.
  induction l as [|k l IH]; intros Hm prev p last q; [done|]. cbn [segment]. intros (-> & Hk & s & Hs & Hsv & Hp & Hseg).
  do 2 (split; [done|]). destruct (Hm k s) as (s' & Hs' & Ho & Hn & Hpv); [left|done|]. exists s'. split; [done|].
  rewrite Ho, Hn, Hpv. do 2 (split; [done|]). apply IH; [|done]. intros k' t Hin. apply Hm. by right.
Qed.

Lemma segment_insert m prev p l last q k s : segment m prev p l last q -> k ∉ l -> segment (<[ k := s ]> m) prev p l last q.
Proof.
  intros Hseg Hk. eapply segment_frame; [|done]. intros k' t Hin Ht. exists t. split; [|done].
  rewrite lookup_insert_ne; [done|]. by intros ->.
Qed.

Lemma segment_delete m prev p l last q k : segment m prev p l last q -> k ∉ l -> segment (delete k m) prev p l last q.
Proof.
  intros Hseg Hk. eapply segment_frame; [|done]. intros k' t Hin Ht. exists t. split; [|done].
  rewrite lookup_delete_ne; [done|]. by intros ->.
Qed.

(** The first and the last element have the neighbours' addresses; changing those
    moves the segment. *)
Lemma segment_set_prev m prev prev' p k l last q : segment m prev p (k :: l) last q -> NoDup (k :: l) ->
  exists m', set_prev p prev' m = Ok m' /\ segment m' prev' p (k :: l) last q
    /\ (forall i, i <> k -> m' !! i = m !! i)
    /\ (forall s, m !! k = Some s -> m' !! k = Some (set_links (next_ s) prev' s)).
Proof.
  intros (-> & Hk & s & Hs & Hsv & Hp & Hseg) [Hnin _]%NoDup_cons. unfold set_prev. rewrite Hs. cbn. eexists.
  split; [reflexivity|]. split; [|split].
  - cbn [segment]. do 2 (split; [done|]). eexists. rewrite lookup_insert. rewrite decide_True by done.
    do 3 (split; [done|]). by apply segment_insert.
  - intros i Hi. by rewrite lookup_insert_ne.
  - intros t [= <-]. by rewrite lookup_insert, decide_True.
Qed.

Lemma segment_set_next m prev p l k q q' : segment m prev p (l ++ [k]) k q -> NoDup (l ++ [k]) ->
  exists m', set_next k q' m = Ok m' /\ segment m' prev p (l ++ [k]) k q'
    /\ (forall i, i <> k -> m' !! i = m !! i)
    /\ (forall s, m !! k = Some s -> m' !! k = Some (set_links q' (prev_ s) s)).
Proof.
  rewrite segment_app. intros (ml & mi & H1 & (-> & Hk & s & Hs & Hsv & Hp & _)) Hnd.
  apply NoDup_app in Hnd as (_ & Hnin & _). unfold set_next. rewrite Hs. cbn. eexists.
  split; [reflexivity|]. split; [|split].
  - apply segment_app. exists ml, k. split.
    + apply segment_insert; [done|]. intros Hin. apply (Hnin k Hin). by left.
    + cbn [segment]. do 2 (split; [done|]). eexists. rewrite lookup_insert, decide_True by done. done.
  - intros i Hi. by rewrite lookup_insert_ne.
  - intros t [= <-]. by rewrite lookup_insert, decide_True.
Qed.

Lemma segment_bounded m prev p l last q : segment m prev p l last q -> NoDup l -> (length l <= size m)%nat.
Proof.
  intros Hseg Hnd. assert (l ⊆ elements (dom m)) as Hsub.
  { intros k Hin. apply elem_of_elements, elem_of_dom. revert prev p Hseg Hin. clear Hnd.
    induction l as [|k' l IH]; intros prev p Hseg Hin; [by apply elem_of_nil in Hin|].
    destruct Hseg as (_ & _ & s & Hs & _ & _ & Hseg). apply elem_of_cons in Hin as [-> |Hin]; [by exists s|by eapply IH]. }
  rewrite <- (size_dom m). unfold size, set_size. cbn. by apply submseteq_length, NoDup_submseteq.
Qed.

(** [shutdown] walks the whole list. *)
Lemma shutdown_list_spec l : forall m prev p last fuel, segment m prev p l last 0 -> NoDup l -> (length l < fuel)%nat ->
  exists m', shutdown_list fuel p m = Ok m'
    /\ forall k, m' !! k = if decide (k ∈ l) then shutdown_impl <$> m !! k else m !! k.
Proof.
  induction l as [|k l IH]; intros m prev p last fuel Hseg Hnd Hf; destruct fuel as [|fuel]; try (cbn in Hf; lia).
  - destruct Hseg as [_ <-]. exists m. split; [done|]. intros k. by rewrite decide_False by apply not_elem_of_nil.
  - destruct Hseg as (-> & Hk & s & Hs & Hsv & Hp & Hseg). apply NoDup_cons in Hnd as [Hnin Hnd].
    cbn [shutdown_list]. rewrite (proj2 (Z.eqb_neq _ _) Hk), Hs. cbn [of_option obind].
    destruct (IH (<[ k := shutdown_impl s ]> m) k (next_ s) last fuel) as (m' & -> & Hm'); [by apply segment_insert|done|cbn in Hf; lia|].
    exists m'. split; [done|]. intros i. rewrite Hm'. destruct (decide (i = k)) as [-> |Hne].
    + rewrite decide_False by done. rewrite decide_True by left. by rewrite lookup_insert, decide_True, Hs.
    + rewrite lookup_insert_ne by done. destruct (decide (i ∈ l)) as [Hin|Hnin'].
      * by rewrite decide_True by (by right).
      * rewrite decide_False; [done|]. intros [? |?]%elem_of_cons; done.
Qed.

(** ** The invariant *)

(** A nested function has a function of its strand further down the stack. *)
Fixpoint nested_ok (st : list frame) : Prop :=
  match st with
  | [] => True
  | Nested impl _ :: st => running_in_this_thread impl st = true /\ nested_ok st
  | _ :: st => nested_ok st
  end.

Record inv (y : system) : Prop := mkInv {
  inv_strands : forall k s, impls y !! k = Some s -> strand_ok (tokens k y) (limbo k (threads y)) (down y) s;
  inv_absent : forall k, impls y !! k = None -> tokens k y = 0;
  inv_nested : Forall nested_ok (threads y);
  inv_list : exists l last, NoDup l /\ segment (impls y) 0 (impl_list_ y) l last 0
    /\ forall k s, impls y !! k = Some s -> of_service s = executor_service -> k ∈ l;
  inv_array : forall k s, impls y !! k = Some s -> of_service s = io_service ->
    exists index, implementations_ y !! index = Some k }.

Lemma nested_pop f st : nested_ok (f :: st) -> nested_ok st.
Proof. by destruct f; cbn; try destruct 1. Qed.

(** Frames of other strands do not count. *)
Lemma foreign k f : frame_impl f <> k -> holds k f = 0 /\ frame_limbo k f = [].
Proof. intros Hf. destruct f; cbn in *; try rewrite !decide_False by done; done. Qed.

(** Frames that a strand counts alike. *)
Definition alike (k : Z) (old new : list frame) : Prop :=
  stack_tokens k old = stack_tokens k new /\ stack_limbo k old = stack_limbo k new.

Lemma foreign_alike k old new : Forall (fun f => frame_impl f <> k) (old ++ new) -> alike k old new.
Proof.
  intros Hf. assert (forall st, Forall (fun f => frame_impl f <> k) st -> stack_tokens k st = 0 /\ stack_limbo k st = []) as Hz.
  { induction 1 as [|f st Hfk _ [IH1 IH2]]; [done|]. destruct (foreign k f Hfk) as [H1 H2].
    unfold stack_tokens, stack_limbo in *. cbn [sum_by]. rewrite bind_cons, H1, H2, IH1, IH2. done. }
  unfold alike. apply Forall_app in Hf as [H1 H2]. destruct (Hz _ H1) as [-> ->], (Hz _ H2) as [-> ->]. done.
Qed.

Section Preservation.
Context (y : system) (Hinv : inv y).

(** A step of a thread in a strand. *)
Lemma inv_update i old new st k s s' : y @ i = Some (old ++ st) -> impls y !! k = Some s -> same_links s s' ->
  nested_ok (new ++ st) -> Forall (fun f => frame_impl f = k) (old ++ new) ->
  strand_ok (tokens k y - stack_tokens k old + stack_tokens k new) (limbo k (<[ i := new ++ st ]> (threads y))) (down y) s' ->
  inv (update k s' i (new ++ st) y).
Proof.
  intros Hi Hk Hl Hnest Hfr Hok.
  assert (forall j, tokens j (update k s' i (new ++ st) y) = tokens j y - stack_tokens j old + stack_tokens j new) as Htok.
  { intros j. unfold tokens, update. cbn [threads pending set_impls set_threads]. rewrite (tokens_replace j _ _ _ _ _ Hi). lia. }
  assert (forall j, j <> k -> alike j old new) as Halike.
  { intros j Hj. apply foreign_alike. eapply Forall_impl; [exact Hfr|]. by intros f ->. }
  split.
  - intros j t Hj. cbn in Hj. destruct (decide (j = k)) as [-> |Hne].
    + rewrite lookup_insert, decide_True in Hj by done. injection Hj as <-. by rewrite Htok.
    + rewrite lookup_insert_ne in Hj by done. rewrite Htok. destruct (Halike j Hne) as [Ht Hlim]. cbn [threads update set_threads set_impls].
      rewrite (limbo_replace_same j _ _ _ _ _ Hi Hlim), Ht, Z.sub_add. by apply (inv_strands y Hinv).
  - intros j Hj. cbn in Hj. apply lookup_insert_None in Hj as [Hj Hne]. rewrite Htok.
    destruct (Halike j (not_eq_sym Hne)) as [-> _]. rewrite Z.sub_add. by apply inv_absent.
  - apply Forall_insert; [by apply inv_nested|done].
  - destruct (inv_list y Hinv) as (l & last & Hnd & Hseg & Hall). exists l, last. split; [done|]. split.
    + eapply segment_frame; [|exact Hseg]. intros j t _ Hj. cbn. destruct (decide (j = k)) as [-> |Hne].
      * rewrite Hk in Hj. injection Hj as <-. exists s'. by rewrite lookup_insert, decide_True.
      * exists t. by rewrite lookup_insert_ne.
    + intros j t Hj Hex. cbn in Hj. destruct (decide (j = k)) as [-> |Hne]; [|rewrite lookup_insert_ne in Hj by done; by eapply Hall].
      rewrite lookup_insert, decide_True in Hj by done. injection Hj as <-. apply (Hall k s Hk). rewrite <- (proj1 Hl). exact Hex.
  - intros j t Hj Hio. cbn in Hj. destruct (decide (j = k)) as [-> |Hne]; [|rewrite lookup_insert_ne in Hj by done; exact (inv_array y Hinv j t Hj Hio)].
    rewrite lookup_insert, decide_True in Hj by done. injection Hj as <-. apply (inv_array y Hinv k s Hk). rewrite <- (proj1 Hl). exact Hio.
Qed.

(** A step that moves the token of a strand and changes no strand. *)
Lemma inv_stack_move i old new st pending' : y @ i = Some (old ++ st) -> nested_ok (new ++ st) ->
  (forall k, stack_limbo k old = stack_limbo k new
     /\ stack_tokens k new + occurrences k pending' = stack_tokens k old + occurrences k (pending y)) ->
  inv (set_pending pending' (set_threads (<[ i := new ++ st ]> (threads y)) y)).
Proof.
  intros Hi Hnest Hk. set (y' := set_pending _ _).
  assert (forall j, tokens j y' = tokens j y /\ limbo j (threads y') = limbo j (threads y)) as Hsame.
  { intros j. destruct (Hk j) as [Hlim Htok]. subst y'. unfold tokens. cbn [threads pending set_pending set_threads]. split.
    - rewrite (tokens_replace j _ _ _ _ _ Hi). lia.
    - by rewrite (limbo_replace_same j _ _ _ _ _ Hi Hlim). }
  split.
  - intros j t Hj. destruct (Hsame j) as [-> ->]. by apply (inv_strands y Hinv).
  - intros j Hj. destruct (Hsame j) as [-> _]. by apply (inv_absent y Hinv).
  - apply Forall_insert; [by apply inv_nested|done].
  - exact (inv_list y Hinv).
  - exact (inv_array y Hinv).
Qed.

(** The frame on top of a stack that holds the token of a strand is the only one. *)
Lemma holder i f st k s : y @ i = Some (f :: st) -> holds k f = 1 -> impls y !! k = Some s ->
  tokens k y = 1 /\ thread_tokens k (threads y) = 1 /\ occurrences k (pending y) = 0
  /\ limbo k (threads y) = frame_limbo k f /\ strand_ok 1 (frame_limbo k f) (down y) s
  /\ forall new, limbo k (<[ i := new ++ st ]> (threads y)) = stack_limbo k new.
Proof.
  intros Hi Hf Hk. pose proof (inv_strands y Hinv k s Hk) as Hok. pose proof (ok_one _ _ _ _ Hok) as Hone.
  pose proof (thread_tokens_ge k _ _ _ Hi) as Hge. pose proof (stack_tokens_nonneg k st) as Hst.
  pose proof (occurrences_nonneg k (pending y)) as Hocc. unfold stack_tokens in *. cbn [sum_by] in Hge. unfold tokens in *.
  assert (thread_tokens k (threads y) = 1) as Ht by lia.
  assert (thread_tokens k (threads y) = stack_tokens k [f]) as Hst1 by (unfold stack_tokens; cbn; lia).
  assert (stack_limbo k [f] = frame_limbo k f) as Hlf by apply app_nil_r.
  destruct (limbo_replace k (threads y) i [f] [f] st Hi Hst1) as [Hl _]. rewrite Hlf in Hl.
  split; [lia|]. split; [done|]. split; [lia|]. split; [done|]. split.
  - rewrite Hl in Hok. replace 1 with (thread_tokens k (threads y) + occurrences k (pending y)) by lia. done.
  - intros new. apply (limbo_replace k (threads y) i [f] new st Hi Hst1).
Qed.

End Preservation.

(** Whoever refers to a strand keeps it: an implementation that is not there is
    in no frame that holds its token. *)
Lemma holder_present y i f st k : inv y -> y @ i = Some (f :: st) -> holds k f = 1 -> exists s, impls y !! k = Some s.
Proof.
  intros Hinv Hi Hf. destruct (impls y !! k) as [s|] eqn:Hk; [by exists s|]. exfalso.
  pose proof (inv_absent y Hinv k Hk) as Hz. pose proof (thread_tokens_ge k _ _ _ Hi) as Hge.
  pose proof (stack_tokens_nonneg k st) as Hst. pose proof (occurrences_nonneg k (pending y)).
  unfold tokens, stack_tokens in *. cbn [sum_by] in Hge. lia.
Qed.

(** *** Threads *)

Lemma nested_top y i f st : inv y -> y @ i = Some (f :: st) -> nested_ok st.
Proof.
  intros Hinv Hi. apply (nested_pop f). pose proof (inv_nested y Hinv) as Hn. rewrite Forall_forall in Hn.
  apply Hn. by eapply list_elem_of_lookup_2.
Qed.

Lemma nested_stack y i st : inv y -> y @ i = Some st -> nested_ok st.
Proof.
  intros Hinv Hi. pose proof (inv_nested y Hinv) as Hn. rewrite Forall_forall in Hn. apply Hn. by eapply list_elem_of_lookup_2.
Qed.

Lemma inv_push_ready y i impl s o inl st : inv y -> y @ i = Some (Enqueueing impl o inl :: st) -> impls y !! impl = Some s ->
  inv (update impl (set_ready_queue (ready_queue_ s ++ [o]) s) i (Scheduling impl inl :: st) y).
Proof.
  intros Hinv Hi Hs. destruct (holder y Hinv i _ st impl s Hi) as (Ht & _ & _ & _ & Hok & Hlim); [by cbn; rewrite decide_True|done|].
  apply (inv_update y Hinv i [Enqueueing impl o inl] [Scheduling impl inl] st impl s); try done.
  - exact (nested_top y i _ st Hinv Hi).
  - by repeat constructor.
  - rewrite Hlim, Ht. cbn in Hok. unfold stack_tokens. cbn. rewrite !decide_True by done.
    rewrite decide_True in Hok by done. by apply (ok_push_ready o).
Qed.

Lemma inv_turn y i impl s st : inv y -> y @ i = Some (Running impl None :: st) -> impls y !! impl = Some s ->
  inv (update impl (next_handler impl s).1 i ((next_handler impl s).2 :: st) y).
Proof.
  intros Hinv Hi Hs. destruct (holder y Hinv i _ st impl s Hi) as (Ht & _ & _ & _ & Hok & Hlim); [by cbn; rewrite decide_True|done|].
  apply (inv_update y Hinv i [Running impl None] [(next_handler impl s).2] st impl s); try done.
  - unfold next_handler. by destruct (ready_queue_ s).
  - pose proof (nested_top y i _ st Hinv Hi). unfold next_handler. by destruct (ready_queue_ s).
  - unfold next_handler. by destruct (ready_queue_ s); repeat constructor.
  - rewrite Hlim, Ht. replace (stack_limbo impl [(next_handler impl s).2]) with (@nil op) by (unfold next_handler; by destruct (ready_queue_ s)).
    replace (1 - stack_tokens impl [Running impl None] + stack_tokens impl [(next_handler impl s).2]) with 1.
    + by apply ok_next.
    + unfold next_handler, stack_tokens. destruct (ready_queue_ s); cbn; rewrite decide_True by done; lia.
Qed.

Lemma inv_exit y i impl s st : inv y -> y @ i = Some (Exiting impl :: st) -> impls y !! impl = Some s ->
  let r := push_waiting_to_ready s in
  inv (update impl r.1 i (if r.2 then Scheduling impl false :: st else st) y).
Proof.
  intros Hinv Hi Hs r. destruct (holder y Hinv i _ st impl s Hi) as (Ht & _ & _ & _ & Hok & Hlim); [by cbn; rewrite decide_True|done|].
  destruct (ok_exit _ s Hok) as [Hr _]. fold r in Hr.
  set (new := if r.2 then [Scheduling impl false] else []).
  replace (if r.2 then Scheduling impl false :: st else st) with (new ++ st) by (subst new; by destruct r.2).
  apply (inv_update y Hinv i [Exiting impl] new st impl s); try done.
  - pose proof (nested_top y i _ st Hinv Hi). subst new. by destruct r.2.
  - subst new. destruct r.2; by repeat constructor.
  - rewrite Hlim, Ht. replace (stack_limbo impl new) with (@nil op) by (subst new; by destruct r.2).
    replace (1 - stack_tokens impl [Exiting impl] + stack_tokens impl new) with (if r.2 then 1 else 0); [done|].
    subst new. unfold stack_tokens. destruct r.2; cbn; rewrite !decide_True by done; lia.
Qed.

(** Frames of the same strand with the token stand for each other. *)
Lemma inv_replace y i f g st : inv y -> y @ i = Some (f :: st) ->
  (forall k, holds k g = holds k f) -> (forall k, frame_limbo k f = [] /\ frame_limbo k g = []) ->
  (forall k o, g <> Nested k o) -> inv (set_threads (<[ i := g :: st ]> (threads y)) y).
Proof.
  intros Hinv Hi Hg Hl Hn.
  apply (inv_stack_move y Hinv i [f] [g] st (pending y)); [done| |].
  - pose proof (nested_top y i _ st Hinv Hi). destruct g; try done. by destruct (Hn impl o).
  - intros k. destruct (Hl k) as [H1 H2]. unfold stack_limbo, stack_tokens. cbn. rewrite H1, H2, (Hg k). done.
Qed.

Lemma inv_internal y y' : inv y -> internal y y' -> inv y'.
Proof.
  intros Hinv Hstep. destruct Hstep.
  - by apply inv_push_ready.
  - apply (inv_stack_move y Hinv i [Scheduling impl inl] [] st); [done|by apply (nested_top y i _ st Hinv H)|].
    intros k. split; [done|]. rewrite occurrences_app, occurrences_one. unfold stack_tokens. cbn. lia.
  - by apply (inv_replace y i (Scheduling impl true)).
  - apply (inv_stack_move y Hinv i [] [Running impl None] st); [done|by apply (nested_stack y i st Hinv)|].
    intros k. split; [done|]. rewrite H1. rewrite !occurrences_app. unfold stack_tokens, occurrences. cbn. lia.
  - by apply inv_turn.
  - by apply (inv_replace y i (Running impl (Some o))).
  - by apply (inv_replace y i (Dispatched impl o)).
  - apply (inv_stack_move y Hinv i [Nested impl o] [] st (pending y)); [done|by apply (nested_top y i _ st Hinv H)|done].
  - by apply inv_exit.
Qed.

Lemma inv_call y i impl s st c cd o : inv y -> y @ i = Some st -> impls y !! impl = Some s ->
  (of_service s = io_service -> down y = false /\ (c = Dispatch \/ c = Post)) ->
  let r := make_call impl c cd o s st in inv (update impl r.1 i r.2 y).
Proof.
  intros Hinv Hi Hs Hio r. pose proof (inv_strands y Hinv impl s Hs) as Hok.
  assert (of_service s = io_service -> shutdown_ s = false) as Hsd.
  { intros He. destruct Hok as (_ & _ & _ & Hsh & _). by rewrite He in Hsh. }
  assert (limbo impl (<[ i := st ]> (threads y)) = limbo impl (threads y)) as Hid by by rewrite list_insert_id.
  assert (forall new s', same_links s s' -> nested_ok (new ++ st) -> Forall (fun f => frame_impl f = impl) new ->
      strand_ok (tokens impl y + stack_tokens impl new) (limbo impl (<[ i := new ++ st ]> (threads y))) (down y) s' ->
      inv (update impl s' i (new ++ st) y)) as Hup.
  { intros new s' Hl Hn Hf Hk. apply (inv_update y Hinv i [] new st impl s); try done. by rewrite Z.sub_0_r. }
  assert (stack_tokens impl [] = 0) as Hnil by done.
  pose proof (nested_stack y i st Hinv Hi) as Hns.
  assert (shutdown_ s = false -> down y = false) as Hdn.
  { intros Hf. eapply not_down; [exact Hok|done|]. intros He. by destruct (Hio He). }
  assert (locked_ s = false -> thread_tokens impl (threads y) = 0 /\ tokens impl y = 0) as Hun.
  { intros Hl. destruct Hok as (Ht & _). rewrite Hl in Ht. split; [|done]. unfold tokens in Ht.
    pose proof (thread_tokens_nonneg impl (threads y)). pose proof (occurrences_nonneg impl (pending y)). lia. }
  destruct (make_call_cases impl c cd o s st Hsd) as [Hrun|Hsh|Hlk Hsh|inl Hlk Hsh|Hlk Hsh]; cbn [fst snd] in *.
  - apply (Hup [Nested impl o] s); [done|by split|by repeat constructor|].
    change (stack_tokens impl [Nested impl o]) with 0. rewrite Z.add_0_r.
    by rewrite (limbo_replace_same impl (threads y) i [] [Nested impl o] st Hi).
  - apply (Hup []); [done|done|done|]. rewrite Hnil, Z.add_0_r. cbn [app]. rewrite Hid. by apply ok_refused.
  - apply (Hup []); [done|done|done|]. rewrite Hnil, Z.add_0_r. cbn [app]. rewrite Hid. rewrite (Hdn Hsh) in Hok |- *. by apply ok_waits.
  - destruct (Hun Hlk) as [Ht Hz]. rewrite (Hdn Hsh), (no_limbo _ _ Ht) in Hok.
    destruct (ok_first _ _ o s Hok eq_refl Hlk) as (_ & Hf & _).
    apply (Hup [Enqueueing impl o inl]); [done|done|by repeat constructor|]. rewrite (Hdn Hsh).
    destruct (limbo_replace impl (threads y) i [] [Enqueueing impl o inl] st Hi Ht) as [_ ->].
    rewrite Hz. unfold stack_tokens, stack_limbo. cbn. rewrite !decide_True by done. exact Hf.
  - destruct (Hun Hlk) as [Ht Hz]. rewrite (Hdn Hsh), (no_limbo _ _ Ht) in Hok.
    destruct (ok_first _ _ o s Hok eq_refl Hlk) as (_ & _ & Hf).
    apply (Hup [Dispatched impl o]); [done|done|by repeat constructor|]. rewrite (Hdn Hsh).
    destruct (limbo_replace impl (threads y) i [] [Dispatched impl o] st Hi Ht) as [_ ->].
    rewrite Hz. unfold stack_tokens, stack_limbo. cbn. rewrite !decide_True by done. exact Hf.
Qed.

(** *** Implementations come and go *)

(** The same strands with other links. *)
Definition relinked (m m' : gmap Z strand_impl) : Prop := forall k, exists nx pv, m' !! k = set_links nx pv <$> m !! k.

Lemma set_links_links nx pv nx' pv' s : set_links nx pv (set_links nx' pv' s) = set_links nx pv s.
Proof. by destruct s. Qed.

Lemma relinked_refl m : relinked m m.
Proof. intros k. destruct (m !! k) as [s|]; [exists (next_ s), (prev_ s); by destruct s|by exists 0, 0]. Qed.

Lemma relinked_trans m1 m2 m3 : relinked m1 m2 -> relinked m2 m3 -> relinked m1 m3.
Proof.
  intros H12 H23 k. destruct (H12 k) as (nx & pv & H2), (H23 k) as (nx' & pv' & ->). exists nx', pv'. rewrite H2.
  destruct (m1 !! k); [|done]. cbn. by rewrite set_links_links.
Qed.

Lemma relinked_insert m p s nx pv : m !! p = Some s -> relinked m (<[ p := set_links nx pv s ]> m).
Proof.
  intros Hp k. destruct (decide (k = p)) as [-> |Hne].
  - exists nx, pv. by rewrite lookup_insert, decide_True, Hp.
  - destruct (relinked_refl m k) as (a & b & Hab). exists a, b. by rewrite lookup_insert_ne.
Qed.

Lemma set_prev_relinks p n m m' : set_prev p n m = Ok m' -> relinked m m'.
Proof. unfold set_prev. destruct (m !! p) eqn:Hp; [|done]. intros [= <-]. by apply relinked_insert. Qed.

Lemma set_next_relinks p n m m' : set_next p n m = Ok m' -> relinked m m'.
Proof. unfold set_next. destruct (m !! p) eqn:Hp; [|done]. intros [= <-]. by apply relinked_insert. Qed.

(** Strands that are linked differently, taken out or new keep the invariant. *)
Lemma inv_impls y m0 m head array salt : inv y -> relinked m0 m ->
  (forall k s, m0 !! k = Some s -> impls y !! k = Some s
     \/ impls y !! k = None /\ down y = false /\ exists sv nx pv, s = set_links nx pv (new_strand sv)) ->
  (forall k, m0 !! k = None -> tokens k y = 0) ->
  (exists l last, NoDup l /\ segment m 0 head l last 0
    /\ forall k s, m0 !! k = Some s -> of_service s = executor_service -> k ∈ l) ->
  (forall k s, m0 !! k = Some s -> of_service s = io_service -> exists index, array !! index = Some k) ->
  inv (mkSystem m head array salt (pending y) (threads y) (down y)).
Proof.
  intros Hinv Hrel Hm Habs (l & last & Hnd & Hseg & Hall) Ha.
  assert (forall k s', m !! k = Some s' -> exists s nx pv, m0 !! k = Some s /\ s' = set_links nx pv s) as Hback.
  { intros k s' Hk. destruct (Hrel k) as (nx & pv & He). rewrite Hk in He. destruct (m0 !! k) as [s|]; [|done].
    injection He as ->. by exists s, nx, pv. }
  split; cbn [impls threads implementations_ impl_list_ down]; [| |exact (inv_nested y Hinv)| |].
  - intros k s' Hk. destruct (Hback k s' Hk) as (s & nx & pv & Hs & ->). apply ok_links.
    destruct (Hm k s Hs) as [Hy|(Hn & Hd & sv & nx' & pv' & ->)]; [exact (inv_strands y Hinv k s Hy)|].
    pose proof (inv_absent y Hinv k Hn) as Ht. change (tokens k _) with (tokens k y). rewrite Ht.
    rewrite no_limbo; [by apply ok_new|]. unfold tokens in Ht.
    pose proof (thread_tokens_nonneg k (threads y)). pose proof (occurrences_nonneg k (pending y)). lia.
  - intros k Hk. apply (Habs k). destruct (Hrel k) as (nx & pv & He). rewrite Hk in He. by destruct (m0 !! k).
  - exists l, last. do 2 (split; [done|]). intros k s' Hk Hex. destruct (Hback k s' Hk) as (s & nx & pv & Hs & ->). by apply (Hall k s).
  - intros k s' Hk Hio. destruct (Hback k s' Hk) as (s & nx & pv & Hs & ->). by apply (Ha k s).
Qed.

Lemma segment_null m prev l last : segment m prev 0 l last 0 -> l = [].
Proof. destruct l as [|k l]; [done|]. by intros (<- & Hk & _). Qed.

Lemma segment_in m prev p l last q k : segment m prev p l last q -> k ∈ l -> exists s, m !! k = Some s /\ of_service s = executor_service.
Proof.
  revert prev p. induction l as [|k' l IH]; intros prev p Hseg Hin; [by apply elem_of_nil in Hin|].
  destruct Hseg as (_ & _ & s & Hs & Hsv & _ & Hseg). apply elem_of_cons in Hin as [-> |Hin]; [by exists s|by eapply IH].
Qed.

(** [create_implementation] links the new object in front. *)
Lemma link_front m p l last head : segment m 0 head l last 0 -> NoDup l -> p <> 0 -> p ∉ l ->
  m !! p = Some (set_links head 0 (new_strand executor_service)) ->
  exists m' last', (if head =? 0 then Ok m else set_prev head p m) = Ok m' /\ relinked m m' /\ segment m' 0 p (p :: l) last' 0.
Proof.
  intros Hseg Hnd Hp Hpl Hm. destruct (Z.eqb_spec head 0) as [-> |Hz].
  - pose proof (segment_null _ _ _ _ Hseg) as ->. exists m, p. split; [done|]. split; [apply relinked_refl|].
    cbn [segment]. do 2 (split; [done|]). by eexists.
  - destruct l as [|h l]; [by destruct Hseg as [_ <-]|].
    destruct (segment_set_prev _ 0 p head h l last 0 Hseg Hnd) as (m' & Hm' & Hsm & Hother & _).
    exists m', last. split; [done|]. split; [by eapply set_prev_relinks|]. cbn [segment] in Hsm |- *.
    do 2 (split; [done|]). eexists. rewrite Hother by (intros ->; apply Hpl; left). split; [exact Hm|]. done.
Qed.

Lemma create_ok y p : inv y -> down y = false -> p <> 0 -> impls y !! p = None ->
  exists y', create_implementation p y = Ok y' /\ inv y'.
Proof.
  intros Hinv Hd Hp Hn. destruct (inv_list y Hinv) as (l & last & Hnd & Hseg & Hall).
  assert (p ∉ l) as Hpl by (intros Hin; destruct (segment_in _ _ _ _ _ _ p Hseg Hin) as (s & Hs & _); by rewrite Hn in Hs).
  set (new := set_links (impl_list_ y) 0 (new_strand executor_service)).
  destruct (link_front (<[ p := new ]> (impls y)) p l last (impl_list_ y)) as (m & last' & Hm & Hrel & Hsm); try done.
  { by apply segment_insert. } { by rewrite lookup_insert, decide_True. }
  unfold create_implementation. cbv zeta. fold new. rewrite Hm. cbn [obind]. eexists. split; [reflexivity|].
  apply (inv_impls y (<[ p := new ]> (impls y))); [done|done| | | |].
  - intros k s Hk. destruct (decide (k = p)) as [-> |Hne]; [|rewrite lookup_insert_ne in Hk by done; by left].
    rewrite lookup_insert, decide_True in Hk by done. injection Hk as <-. right. do 2 (split; [done|]). by do 3 eexists.
  - intros k [Hk _]%lookup_insert_None. by apply (inv_absent y Hinv).
  - exists (p :: l), last'. split; [by constructor|]. split; [done|]. intros k s Hk Hex.
    destruct (decide (k = p)) as [-> |Hne]; [left|]. rewrite lookup_insert_ne in Hk by done. right. by apply (Hall k s).
  - intros k s Hk Hio. destruct (decide (k = p)) as [-> |Hne].
    + rewrite lookup_insert, decide_True in Hk by done. injection Hk as <-. done.
    + rewrite lookup_insert_ne in Hk by done. by apply (inv_array y Hinv k s).
Qed.

(** [~strand_impl] takes it out of the list, wherever it is: the two halves. *)
Lemma unlink_left m l1 p q n head : segment m 0 head l1 q p -> NoDup l1 -> p ∉ l1 -> p <> 0 ->
  exists m1, (if q =? 0 then Ok m else set_next q n m) = Ok m1 /\ relinked m m1
    /\ segment m1 0 (if head =? p then n else head) l1 q n /\ forall i, i ∉ l1 -> m1 !! i = m !! i.
Proof.
  intros Hseg Hnd Hpl Hp. destruct (list_eq_nil_dec l1) as [-> |Hne].
  { destruct Hseg as [-> ->]. exists m. rewrite !Z.eqb_refl. split; [done|]. split; [apply relinked_refl|]. done. }
  assert (head <> p) as Hh by (destruct l1 as [|h l1]; [done|destruct Hseg as (-> & _); intros ->; apply Hpl; left]).
  rewrite (proj2 (Z.eqb_neq _ _) Hh). destruct (exists_last Hne) as (l & k & ->).
  pose proof Hseg as Hq. apply segment_app in Hq as (? & ? & _ & (-> & Hk & ? & _ & _ & _ & [-> _])).
  rewrite (proj2 (Z.eqb_neq _ _) Hk). destruct (segment_set_next m 0 head l k p n Hseg Hnd) as (m1 & Hm1 & Hs1 & Ho & _).
  exists m1. split; [done|]. split; [by eapply set_next_relinks|]. split; [done|]. intros i Hi. apply Ho. intros ->.
  apply Hi, elem_of_app. right. by left.
Qed.

Lemma unlink_right m l2 p q n last : segment m p n l2 last 0 -> NoDup l2 ->
  exists m2 last', (if n =? 0 then Ok m else set_prev n q m) = Ok m2 /\ relinked m m2
    /\ segment m2 q n l2 last' 0 /\ forall i, i ∉ l2 -> m2 !! i = m !! i.
Proof.
  intros Hseg Hnd. destruct l2 as [|h l2].
  { destruct Hseg as [_ <-]. exists m, q. split; [done|]. split; [apply relinked_refl|]. done. }
  assert (n = h /\ h <> 0) as [-> Hh] by (destruct Hseg as (-> & ? & _); done).
  rewrite (proj2 (Z.eqb_neq _ _) Hh). destruct (segment_set_prev m p q h h l2 last 0 Hseg Hnd) as (m2 & Hm2 & Hs2 & Ho & _).
  exists m2, last. split; [done|]. split; [by eapply set_prev_relinks|]. split; [done|]. intros i Hi. apply Ho. intros ->.
  apply Hi. by left.
Qed.

Lemma segment_same m m' l : (forall k, k ∈ l -> m' !! k = m !! k) ->
  forall prev p last q, segment m prev p l last q -> segment m' prev p l last q.
Proof.
  intros Hm prev p last q. apply segment_frame. intros k s Hin Hs. exists s. by rewrite (Hm k Hin).
Qed.

Lemma unlink_one m l1 p l2 head last s : segment m 0 head (l1 ++ p :: l2) last 0 -> NoDup (l1 ++ p :: l2) -> m !! p = Some s ->
  exists m1 m2 last', (if prev_ s =? 0 then Ok m else set_next (prev_ s) (next_ s) m) = Ok m1
    /\ (if next_ s =? 0 then Ok m1 else set_prev (next_ s) (prev_ s) m1) = Ok m2
    /\ relinked m m2 /\ segment m2 0 (if head =? p then next_ s else head) (l1 ++ l2) last' 0.
Proof.
  intros Hseg Hnd Hp. apply segment_app in Hseg as (q & mid & H1 & (-> & Hp0 & s' & Hs' & Hsv & Hprev & H2)).
  rewrite Hp in Hs'. injection Hs' as <-. apply NoDup_app in Hnd as (Hnd1 & Hdis & [Hp2 Hnd2]%NoDup_cons).
  assert (p ∉ l1) as Hp1 by (intros Hin; apply (Hdis p Hin); left).
  rewrite Hprev. destruct (unlink_left m l1 p q (next_ s) head H1 Hnd1 Hp1 Hp0) as (m1 & Hm1 & Hr1 & Hs1 & Ho1).
  assert (segment m1 p (next_ s) l2 last 0) as H2'.
  { eapply segment_same; [|exact H2]. intros k Hin. apply Ho1. intros Hin1. apply (Hdis k Hin1). by right. }
  destruct (unlink_right m1 l2 p q (next_ s) last H2' Hnd2) as (m2 & last' & Hm2 & Hr2 & Hs2 & Ho2).
  exists m1, m2, last'. do 2 (split; [done|]). split; [by eapply relinked_trans|].
  apply segment_app. exists q, (next_ s). split; [|done]. eapply segment_same; [|exact Hs1].
  intros k Hin. apply Ho2. intros Hin2. apply (Hdis k Hin). by right.
Qed.

Lemma unreferenced_no_tokens y p : unreferenced p y -> tokens p y = 0.
Proof.
  intros [Hp Ht]. unfold tokens. rewrite (occurrences_not_in p _ Hp), Z.add_0_r. unfold thread_tokens.
  assert (forall l, (forall st f, st ∈ l -> f ∈ st -> frame_impl f <> p) -> sum_by (stack_tokens p) l = 0) as Hz; [|by apply Hz].
  induction l as [|st l IH]; intros Hl; [done|]. cbn [sum_by]. rewrite IH by (intros; eapply Hl; [by right|done]).
  assert (alike p st []) as [-> _]; [|done]. apply foreign_alike. rewrite app_nil_r. apply Forall_forall. intros f Hf.
  eapply Hl; [by left|done].
Qed.

Lemma destroy_ok y p s : inv y -> impls y !! p = Some s -> of_service s = executor_service -> unreferenced p y ->
  exists y', destroy_implementation p y = Ok y' /\ inv y'.
Proof.
  intros Hinv Hp Hsv Hun. destruct (inv_list y Hinv) as (l & last & Hnd & Hseg & Hall).
  destruct (list_elem_of_split l p (Hall p s Hp Hsv)) as (l1 & l2 & ->).
  destruct (unlink_one _ l1 p l2 _ last s Hseg Hnd Hp) as (m1 & m2 & last' & Hm1 & Hm2 & Hrel & Hs2).
  unfold destroy_implementation. rewrite Hp. cbn [of_option obind]. cbv zeta. rewrite Hm1. cbn [obind]. rewrite Hm2. cbn [obind].
  eexists. split; [reflexivity|]. apply NoDup_app in Hnd as (Hnd1 & Hdis & [Hp2 Hnd2]%NoDup_cons).
  assert (p ∉ l1 ++ l2) as Hpl by (intros [Hin|Hin]%elem_of_app; [apply (Hdis p Hin); left|done]).
  apply (inv_impls y (delete p (impls y))); [done| | | | |].
  - intros k. cbn [impls set_impls]. destruct (decide (k = p)) as [-> |Hne].
    + exists 0, 0. by rewrite !lookup_delete_eq.
    + destruct (Hrel k) as (nx & pv & Hk). exists nx, pv. by rewrite !lookup_delete_ne.
  - intros k t [Hne Hk]%lookup_delete_Some. by left.
  - intros k [<- |Hk]%lookup_delete_None; [by apply unreferenced_no_tokens|by apply (inv_absent y Hinv)].
  - exists (l1 ++ l2), last'. split; [apply NoDup_app; split; [done|split; [|done]]; intros k Hin Hin2; apply (Hdis k Hin); by right|].
    split; [by apply segment_delete|]. intros k t [Hne Hk]%lookup_delete_Some Hex. pose proof (Hall k t Hk Hex) as Hin.
    rewrite elem_of_app, elem_of_cons in Hin. rewrite elem_of_app. by destruct Hin as [?|[->|?]]; [left| |right].
  - intros k t [Hne Hk]%lookup_delete_Some Hio. by apply (inv_array y Hinv k t).
Qed.

Lemma construct_ok y p fresh : inv y -> down y = false -> impls y !! fresh = None -> inv (construct p fresh y).
Proof.
  intros Hinv Hd Hn. unfold construct. cbv zeta. cbn [implementations_].
  destruct (implementations_ y !! _) as [i|] eqn:Ha.
  { apply (inv_impls y (impls y)); [done|apply relinked_refl|by left|by apply (inv_absent y Hinv)| |by apply (inv_array y Hinv)].
    exact (inv_list y Hinv). }
  destruct (inv_list y Hinv) as (l & last & Hnd & Hseg & Hall).
  assert (fresh ∉ l) as Hfl by (intros Hin; destruct (segment_in _ _ _ _ _ _ fresh Hseg Hin) as (s & Hs & _); by rewrite Hn in Hs).
  apply (inv_impls y (<[ fresh := new_strand io_service ]> (impls y))); [done|apply relinked_refl| | | |].
  - intros k s Hk. destruct (decide (k = fresh)) as [-> |Hne]; [|rewrite lookup_insert_ne in Hk by done; by left].
    rewrite lookup_insert, decide_True in Hk by done. injection Hk as <-. right. do 2 (split; [done|]). by exists io_service, 0, 0.
  - intros k [Hk _]%lookup_insert_None. by apply (inv_absent y Hinv).
  - exists l, last. split; [done|]. split; [by apply segment_insert|]. intros k s Hk Hex.
    destruct (decide (k = fresh)) as [-> |Hne].
    + rewrite lookup_insert, decide_True in Hk by done. injection Hk as <-. done.
    + rewrite lookup_insert_ne in Hk by done. by apply (Hall k s).
  - intros k s Hk Hio. destruct (decide (k = fresh)) as [-> |Hne].
    + eexists. by rewrite lookup_insert, decide_True.
    + rewrite lookup_insert_ne in Hk by done. destruct (inv_array y Hinv k s Hk Hio) as [j Hj].
      exists j. rewrite lookup_insert_ne; [done|]. intros <-. by rewrite Ha in Hj.
Qed.

(** *** Shutdown *)

Lemma shutdown_impl_twice s : shutdown_impl (shutdown_impl s) = shutdown_impl s.
Proof. unfold shutdown_impl. cbn. rewrite app_nil_r. by destruct (of_service s). Qed.

Lemma alter_all (l : list Z) (m : gmap Z strand_impl) k :
  foldr (alter shutdown_impl) m l !! k = if decide (k ∈ l) then shutdown_impl <$> m !! k else m !! k.
Proof.
  induction l as [|i l IH]; cbn [foldr]; [by rewrite decide_False by apply not_elem_of_nil|].
  destruct (decide (i = k)) as [-> |Hne].
  - rewrite lookup_alter_eq, IH, (decide_True (P := k ∈ k :: l)) by left. case_decide; [|done].
    destruct (m !! k); [|done]. cbn. by rewrite shutdown_impl_twice.
  - rewrite lookup_alter_ne, IH by done. destruct (decide (k ∈ l)) as [Hin|Hnin].
    + by rewrite decide_True by (by right).
    + rewrite decide_False; [done|]. intros [?|?]%elem_of_cons; [by subst|done].
Qed.

Lemma idle_limbo k l : Forall (fun st => st = []) l -> limbo k l = [] /\ thread_tokens k l = 0.
Proof.
  induction 1 as [|st l -> _ [IH1 IH2]]; [done|]. unfold limbo, thread_tokens in *. by rewrite bind_cons, IH1.
Qed.

(** Every implementation is shut down, through the list or through the array. *)
Lemma shutdown_all y fuel : inv y -> (size (impls y) < fuel)%nat ->
  exists m, shutdown fuel y = Ok (mkSystem m (impl_list_ y) (implementations_ y) (salt_ y) (pending y) (threads y) true)
    /\ forall k, m !! k = shutdown_impl <$> impls y !! k.
Proof.
  intros Hinv Hf. destruct (inv_list y Hinv) as (l & last & Hnd & Hseg & Hall).
  pose proof (segment_bounded _ _ _ _ _ _ Hseg Hnd) as Hb.
  destruct (shutdown_list_spec l (impls y) 0 (impl_list_ y) last fuel Hseg Hnd) as (m & Hm & Hk); [lia|].
  unfold shutdown. rewrite Hm. cbn [obind]. eexists. split; [reflexivity|]. intros k. unfold shutdown_array.
  rewrite alter_all, Hk. destruct (impls y !! k) as [s|] eqn:Hs; [|by repeat case_decide].
  destruct (of_service s) eqn:Hsv.
  - rewrite (decide_True (P := k ∈ l)) by (by apply (Hall k s)). case_decide; [|done]. cbn. by rewrite shutdown_impl_twice.
  - destruct (inv_array y Hinv k s Hs Hsv) as [j Hj].
    rewrite (decide_True (P := k ∈ (map_to_list (implementations_ y)).*2)).
    + case_decide; [|done]. cbn. by rewrite shutdown_impl_twice.
    + apply list_elem_of_fmap. exists (j, k). split; [done|]. by apply elem_of_map_to_list.
Qed.

Lemma shutdown_list_fuel fuel : forall fuel' p m m', shutdown_list fuel p m = Ok m' -> (fuel <= fuel')%nat -> shutdown_list fuel' p m = Ok m'.
Proof.
  induction fuel as [|fuel IH]; intros fuel' p m m' Hrun Hf; [done|]. destruct fuel' as [|fuel']; [lia|].
  cbn [shutdown_list] in *. destruct (p =? 0); [done|]. destruct (m !! p) as [s|]; [|done]. cbn [of_option obind] in *.
  apply IH; [done|lia].
Qed.

Lemma inv_shutdown y y' fuel : inv y -> down y = false -> Forall (fun st => st = []) (threads y) -> shutdown fuel y = Ok y' -> inv y'.
Proof.
  intros Hinv Hd Hidle Hrun. destruct (shutdown_all y (fuel + S (size (impls y))) Hinv) as (m & Hm & Hk); [lia|].
  assert (shutdown (fuel + S (size (impls y))) y = Ok y') as Hrun'.
  { unfold shutdown in *. destruct (shutdown_list fuel (impl_list_ y) (impls y)) as [m0|] eqn:Hl; [|done].
    by rewrite (shutdown_list_fuel _ _ _ _ _ Hl) by lia. }
  rewrite Hm in Hrun'. injection Hrun' as <-.
  assert (forall k s', m !! k = Some s' -> exists s, impls y !! k = Some s /\ s' = shutdown_impl s) as Hback.
  { intros k s' Hs'. rewrite Hk in Hs'. destruct (impls y !! k) as [s|]; [|done]. injection Hs' as <-. by exists s. }
  split; cbn [impls threads implementations_ impl_list_ down].
  - intros k s' Hs'. destruct (Hback k s' Hs') as (s & Hs & ->). pose proof (inv_strands y Hinv k s Hs) as Hok.
    destruct (idle_limbo k (threads y) Hidle) as [Hl _]. rewrite Hl, Hd in *. by apply ok_shutdown.
  - intros k Hn. change (tokens k _) with (tokens k y). apply (inv_absent y Hinv). rewrite Hk in Hn. by destruct (impls y !! k).
  - exact (inv_nested y Hinv).
  - destruct (inv_list y Hinv) as (l & last & Hnd & Hseg & Hall). exists l, last. split; [done|]. split.
    + eapply segment_frame; [|exact Hseg]. intros k s _ Hs. exists (shutdown_impl s). by rewrite Hk, Hs.
    + intros k s' Hs' Hex. destruct (Hback k s' Hs') as (s & Hs & ->). by apply (Hall k s).
  - intros k s' Hs' Hio. destruct (Hback k s' Hs') as (s & Hs & ->). by apply (inv_array y Hinv k s).
Qed.

(** *** All steps *)

Lemma inv_client y y' : inv y -> client y y' -> inv y'.
Proof.
  intros Hinv Hstep. destruct Hstep as [y i impl s st c cd o Hi Hu Hs Hio|y i impl o st Hi|y y' p Hd Hp Hn Hc|y p fresh Hd Hp Hn|y y' p s Hs Hsv Hu Hc|y y' fuel Hd Hid Hc].
  - by apply inv_call.
  - by apply (inv_replace y i (Running impl (Some o))).
  - destruct (create_ok y p) as (y2 & Hy & Hi); try done. rewrite Hc in Hy. by injection Hy as <-.
  - by apply construct_ok.
  - destruct (destroy_ok y p s) as (y2 & Hy & Hi); try done. rewrite Hc in Hy. by injection Hy as <-.
  - by eapply inv_shutdown.
Qed.

Lemma inv_step y y' : inv y -> step y y' -> inv y'.
Proof. intros Hinv [Hs|Hs]; [by eapply inv_internal|by eapply inv_client]. Qed.

Lemma inv_initial y : initial y -> inv y.
Proof.
  intros (n & salt & ->). assert (forall k, thread_tokens k (replicate n []) = 0) as Ht.
  { intros k. apply idle_limbo, Forall_replicate. done. }
  split; cbn [impls threads implementations_ impl_list_ down].
  - intros k s Hk. by rewrite lookup_empty in Hk.
  - intros k _. unfold tokens. cbn [threads pending]. by rewrite Ht.
  - by apply Forall_replicate.
  - exists [], 0. split; [constructor|]. split; [done|]. intros k s Hk. by rewrite lookup_empty in Hk.
  - intros k s Hk. by rewrite lookup_empty in Hk.
Qed.

Lemma inv_reachable y : reachable initial step y -> inv y.
Proof. apply reachable_invariant; [exact inv_initial|exact inv_step]. Qed.

(** ** One at a time *)

Lemma sum_by_two {A} (f : A -> Z) (l : list A) i j x y : (forall a, 0 <= f a) -> l !! i = Some x -> l !! j = Some y -> i <> j ->
  f x + f y <= sum_by f l.
Proof.
  intros Hf Hi Hj Hij. assert (sum_by f (<[ i := y ]> l) = sum_by f l - f x + f y) as Hins by by apply sum_by_insert.
  assert (forall l', 0 <= sum_by f l') as Hnn by (intros l'; apply sum_by_nonneg, Forall_forall; intros a _; apply Hf).
  revert i j Hi Hj Hij Hins. induction l as [|a l IH]; intros i j Hi Hj Hij Hins; [done|].
  destruct i as [|i], j as [|j]; cbn in Hi, Hj; try done.
  - injection Hi as ->. cbn [sum_by].
    pose proof (sum_by_ge f l j y ltac:(apply Forall_forall; intros a _; apply Hf) Hj). lia.
  - injection Hj as ->. cbn [sum_by].
    pose proof (sum_by_ge f l i x ltac:(apply Forall_forall; intros a _; apply Hf) Hi). lia.
  - cbn [sum_by]. specialize (IH i j Hi Hj ltac:(lia)). pose proof (Hf a). rewrite (sum_by_insert f l i x y Hi) in IH. lia.
Qed.

(** A frame that stands for the lock of the strand. *)
Definition is_holder (k : Z) (f : frame) : Prop := frame_impl f = k /\ forall i o, f <> Nested i o.

Lemma holder_holds k f : is_holder k f -> holds k f = 1.
Proof. intros [<- Hn]. destruct f; cbn; try by rewrite decide_True. by destruct (Hn impl o). Qed.

Lemma holder_unique y k s i1 st1 j1 f1 i2 st2 j2 f2 : inv y -> impls y !! k = Some s ->
  y @ i1 = Some st1 -> st1 !! j1 = Some f1 -> is_holder k f1 ->
  y @ i2 = Some st2 -> st2 !! j2 = Some f2 -> is_holder k f2 -> i1 = i2 /\ j1 = j2.
Proof.
  intros Hinv Hs Hi1 Hj1 Hf1%holder_holds Hi2 Hj2 Hf2%holder_holds. pose proof (ok_one _ _ _ _ (inv_strands y Hinv k s Hs)) as Hone.
  unfold tokens in Hone. pose proof (occurrences_nonneg k (pending y)).
  assert (forall st j f, st !! j = Some f -> holds k f <= stack_tokens k st) as Hge.
  { intros st j f. apply sum_by_ge, Forall_forall. intros ? _. apply holds_nonneg. }
  pose proof (Hge _ _ _ Hj1). pose proof (Hge _ _ _ Hj2).
  destruct (decide (i1 = i2)) as [<- |Hne].
  - rewrite Hi1 in Hi2. injection Hi2 as <-. split; [done|]. destruct (decide (j1 = j2)) as [|Hne]; [done|].
    pose proof (sum_by_two (holds k) st1 j1 j2 f1 f2 (holds_nonneg k) Hj1 Hj2 Hne).
    pose proof (thread_tokens_ge k _ _ _ Hi1). unfold stack_tokens in *. lia.
  - pose proof (sum_by_two (stack_tokens k) (threads y) i1 i2 st1 st2 (stack_tokens_nonneg k) Hi1 Hi2 Hne).
    unfold thread_tokens in *. lia.
Qed.

(** The frame of a function that the strand runs. *)
Definition in_strand (k : Z) (f : frame) : Prop :=
  match f with Running i (Some _) | Dispatched i _ | Nested i _ => i = k | _ => False end.

Lemma in_strand_holder k st j f : nested_ok st -> st !! j = Some f -> in_strand k f ->
  exists j' f', st !! j' = Some f' /\ is_holder k f'.
Proof.
  revert j. induction st as [|g st IH]; intros j Hn Hj Hf; [done|]. destruct j as [|j].
  - injection Hj as ->. destruct f as [| |i [o|]| | |]; cbn in Hf; try done; subst; try (exists 0%nat; by eexists).
    destruct Hn as [Hr _]. unfold running_in_this_thread in Hr. apply existsb_exists in Hr as (f & Hin & Hf).
    apply list_elem_of_In, list_elem_of_lookup in Hin as [j' Hj']. exists (S j'), f. split; [done|].
    destruct f; cbn in Hf; try done; apply bool_decide_eq_true in Hf; by subst.
  - destruct (IH j (nested_pop g st Hn) Hj Hf) as (j' & f' & Hj' & Hh). by exists (S j'), f'.
Qed.

Lemma in_strand_thread y k s i1 st1 f1 i2 st2 f2 : inv y -> impls y !! k = Some s ->
  y @ i1 = Some st1 -> f1 ∈ st1 -> in_strand k f1 -> y @ i2 = Some st2 -> f2 ∈ st2 -> in_strand k f2 -> i1 = i2.
Proof.
  intros Hinv Hs Hi1 [j1 Hj1]%list_elem_of_lookup Hf1 Hi2 [j2 Hj2]%list_elem_of_lookup Hf2.
  destruct (in_strand_holder k st1 j1 f1) as (a1 & g1 & Hg1 & Hh1); [by eapply nested_stack|done|done|].
  destruct (in_strand_holder k st2 j2 f2) as (a2 & g2 & Hg2 & Hh2); [by eapply nested_stack|done|done|].
  by destruct (holder_unique y k s i1 st1 a1 g1 i2 st2 a2 g2).
Qed.

Lemma unlocked_done y k s : inv y -> impls y !! k = Some s -> tokens k y = 0 ->
  ready_queue_ s = [] /\ waiting_queue_ s = [] /\ (down y = false -> started s = submitted s).
Proof.
  intros Hinv Hs Ht. destruct (inv_strands y Hinv k s Hs) as (Hn & Hu & _ & _ & Hq).
  destruct (locked_ s); [lia|]. destruct (Hu eq_refl) as [Hr Hw]. do 2 (split; [done|]). intros Hd. rewrite Hd in Hq.
  destruct Hq as [_ Hq]. rewrite Hr, Hw, no_limbo in Hq; [by rewrite Hq, !app_nil_r|].
  unfold tokens in Ht. pose proof (thread_tokens_nonneg k (threads y)). pose proof (occurrences_nonneg k (pending y)). lia.
Qed.

(** ** Everything can be run *)

Definition emp (m : gmap Z strand_impl) (k : Z) : bool :=
  match m !! k with Some s => bool_decide (ready_queue_ s = []) | None => true end.

(** How far a frame is from its end; a turn with nothing to run has the exit and
    another round before it. *)
Definition weight (m : gmap Z strand_impl) (f : frame) : Z :=
  match f with
  | Enqueueing _ _ _ => 18
  | Scheduling k _ => if emp m k then 11 else 7
  | Running k None => if emp m k then 9 else 5
  | Running _ (Some _) => 12
  | Dispatched _ _ => 9
  | Nested _ _ => 1
  | Exiting _ => 8
  end.
Definition invoker_weight (m : gmap Z strand_impl) (k : Z) : Z := if emp m k then 10 else 6.
Definition queued (ks : Z * strand_impl) : Z := Z.of_nat (length (ready_queue_ ks.2) + length (waiting_queue_ ks.2)).
Definition all_queued (m : gmap Z strand_impl) : Z := sum_by queued (map_to_list m).

Definition work (y : system) : Z :=
  sum_by (sum_by (weight (impls y))) (threads y) + sum_by (invoker_weight (impls y)) (pending y) + 10 * all_queued (impls y).

Lemma weight_nonneg m f : 0 <= weight m f.
Proof. destruct f as [| |k [o|]| | |]; cbn; try case_match; lia. Qed.

Lemma work_nonneg y : 0 <= work y.
Proof.
  unfold work. assert (forall l, 0 <= sum_by (sum_by (weight (impls y))) l) as Hw.
  { intros l. apply sum_by_nonneg, Forall_forall. intros st _. apply sum_by_nonneg, Forall_forall. intros f _. apply weight_nonneg. }
  assert (0 <= all_queued (impls y)) by (apply sum_by_nonneg, Forall_forall; intros x _; unfold queued; lia).
  assert (0 <= sum_by (invoker_weight (impls y)) (pending y)).
  { apply sum_by_nonneg, Forall_forall. intros k _. unfold invoker_weight. case_match; lia. }
  specialize (Hw (threads y)). lia.
Qed.

Lemma all_queued_insert m k s s' : m !! k = Some s ->
  all_queued (<[ k := s' ]> m) = all_queued m - queued (k, s) + queued (k, s').
Proof.
  intros Hk. unfold all_queued. rewrite <- (insert_delete_id m k s Hk) at 2.
  rewrite <- insert_delete_eq.
  rewrite !(sum_by_perm queued _ _ (map_to_list_insert (delete k m) k _ (lookup_delete_eq m k))). cbn [sum_by]. lia.
Qed.

(** The token's frame is alone, so what the strand's queue is matters to no other. *)
Lemma threads_split y i f st k s : inv y -> y @ i = Some (f :: st) -> holds k f = 1 -> impls y !! k = Some s ->
  forall m', (forall j, j <> k -> emp m' j = emp (impls y) j) -> forall g,
  sum_by (sum_by (weight m')) (<[ i := g ++ st ]> (threads y)) + sum_by (invoker_weight m') (pending y)
  = sum_by (sum_by (weight (impls y))) (threads y) + sum_by (invoker_weight (impls y)) (pending y)
    - weight (impls y) f + sum_by (weight m') g.
Proof.
  intros Hinv Hi Hf Hk m' Hm g.
  destruct (holder y Hinv i f st k s Hi Hf Hk) as (_ & Ht & Ho & _).
  assert (forall f', holds k f' = 0 -> weight m' f' = weight (impls y) f') as Hsame.
  { intros f' Hz. destruct f' as [|j|j [o|]| | |]; cbn in *; try done; (destruct (decide (j = k)); [lia|]); by rewrite Hm. }
  assert (forall l, stack_tokens k l = 0 -> sum_by (weight m') l = sum_by (weight (impls y)) l) as Hst.
  { intros l Hz. apply sum_by_ext, Forall_forall. intros f' Hin. apply Hsame.
    eapply (sum_by_zero (holds k)); [apply Forall_forall; intros ? _; apply holds_nonneg|exact Hz|done]. }
  assert (forall l, thread_tokens k l = 0 -> sum_by (sum_by (weight m')) l = sum_by (sum_by (weight (impls y))) l) as Hth.
  { intros l Hz. apply sum_by_ext, Forall_forall. intros st' Hin. apply Hst.
    eapply (sum_by_zero (stack_tokens k)); [apply Forall_forall; intros ? _; apply stack_tokens_nonneg|exact Hz|done]. }
  assert (sum_by (invoker_weight m') (pending y) = sum_by (invoker_weight (impls y)) (pending y)) as ->.
  { apply sum_by_ext, Forall_forall. intros j Hin. unfold invoker_weight. rewrite Hm; [done|]. intros ->.
    apply occurrences_in in Hin. lia. }
  assert (forall x, sum_by (sum_by (weight m')) (<[ i := x ]> (threads y))
      = sum_by (sum_by (weight (impls y))) (take i (threads y)) + sum_by (weight m') x
        + sum_by (sum_by (weight (impls y))) (drop (S i) (threads y)) /\ stack_tokens k st = 0) as Hins.
  { intros x. rewrite <- (take_drop_middle _ _ _ Hi) in Ht. unfold thread_tokens in Ht.
    rewrite sum_by_app in Ht. cbn [sum_by] in Ht. fold (thread_tokens k (take i (threads y))) (thread_tokens k (drop (S i) (threads y))) in Ht.
    change (stack_tokens k (f :: st)) with (holds k f + stack_tokens k st) in Ht.
    pose proof (thread_tokens_nonneg k (take i (threads y))). pose proof (thread_tokens_nonneg k (drop (S i) (threads y))).
    pose proof (stack_tokens_nonneg k st). split; [|lia].
    rewrite (insert_take_drop _ _ _ (lookup_lt_Some _ _ _ Hi)), sum_by_app. cbn [sum_by].
    rewrite (Hth (take i (threads y))), (Hth (drop (S i) (threads y))) by lia. lia. }
  destruct (Hins (g ++ st)) as [-> Hz]. rewrite sum_by_app, (Hst st Hz).
  rewrite <- (take_drop_middle _ _ _ Hi) at 3. rewrite sum_by_app. cbn [sum_by]. lia.
Qed.

(** A step of the token's thread: what it takes from the work. *)
Lemma work_update y i f g st k s s' : inv y -> y @ i = Some (f :: st) -> holds k f = 1 -> impls y !! k = Some s ->
  sum_by (weight (<[ k := s' ]> (impls y))) g + 10 * queued (k, s') < weight (impls y) f + 10 * queued (k, s) ->
  work (update k s' i (g ++ st) y) < work y.
Proof.
  intros Hinv Hi Hf Hk Hlt. unfold work, update. cbn [impls threads pending set_impls set_threads].
  rewrite (all_queued_insert _ k s s' Hk).
  rewrite (threads_split y i f st k s Hinv Hi Hf Hk (<[ k := s' ]> (impls y))); [lia|].
  intros j Hj. unfold emp. by rewrite lookup_insert_ne.
Qed.

(** A step that changes no strand. *)
Lemma work_move y i f st st' pending' : y @ i = Some (f :: st) ->
  sum_by (weight (impls y)) st' + sum_by (invoker_weight (impls y)) pending'
    < weight (impls y) f + sum_by (weight (impls y)) st + sum_by (invoker_weight (impls y)) (pending y) ->
  work (set_pending pending' (set_threads (<[ i := st' ]> (threads y)) y)) < work y.
Proof.
  intros Hi Hlt. unfold work. cbn [impls threads pending set_pending set_threads].
  rewrite (sum_by_insert _ _ i _ st' Hi). cbn [sum_by]. lia.
Qed.

Lemma emp_insert m k s : emp (<[ k := s ]> m) k = bool_decide (ready_queue_ s = []).
Proof. unfold emp. by rewrite lookup_insert, decide_True. Qed.

(** Whatever frame is on top, its thread can go on. *)
Lemma thread_progress y i f st : inv y -> y @ i = Some (f :: st) -> exists y', internal y y' /\ work y' < work y.
Proof.
  intros Hinv Hi. assert (holds (frame_impl f) f = 1 -> exists s, impls y !! frame_impl f = Some s) as Hpres by by eapply holder_present.
  destruct f as [k o inl|k inl|k [o|]|k o|k o|k]; cbn [frame_impl] in Hpres.
  - destruct Hpres as [s Hs]; [by cbn; rewrite decide_True|]. eexists. split; [by eapply push_ready|].
    apply (work_update y i _ [Scheduling k inl] st k s _ Hinv Hi); [by cbn; rewrite decide_True|done|].
    cbn [sum_by weight]. rewrite emp_insert, bool_decide_eq_false_2 by (cbn; by destruct (ready_queue_ s)).
    unfold queued. cbn. rewrite length_app. cbn [length]. lia.
  - eexists. split; [by eapply schedule|]. apply (work_move y i (Scheduling k inl) st st); [done|]. rewrite sum_by_app. cbn [sum_by weight].
    unfold invoker_weight. destruct (emp (impls y) k); lia.
  - eexists. split; [by eapply return_running|]. apply (work_move y i (Running k (Some o)) st (Running k None :: st) (pending y)); [done|].
    cbn [sum_by weight]. destruct (emp (impls y) k); lia.
  - destruct Hpres as [s Hs]; [by cbn; rewrite decide_True|]. eexists. split; [by eapply turn|].
    apply (work_update y i _ [(next_handler k s).2] st k s _ Hinv Hi); [by cbn; rewrite decide_True|done|].
    cbn [weight]. unfold emp. rewrite Hs. unfold next_handler. destruct (ready_queue_ s) as [|o rest] eqn:Hr; cbn [fst snd sum_by weight].
    + rewrite bool_decide_eq_true_2 by done. lia.
    + rewrite bool_decide_eq_false_2 by done. unfold queued. cbn [snd start set_ready_queue ready_queue_ waiting_queue_]. rewrite Hr. cbn [length]. lia.
  - eexists. split; [by eapply return_dispatched|]. apply (work_move y i (Dispatched k o) st (Exiting k :: st) (pending y)); [done|].
    cbn [sum_by weight]. lia.
  - eexists. split; [by eapply return_nested|]. apply (work_move y i (Nested k o) st st (pending y)); [done|]. cbn [sum_by weight]. lia.
  - destruct Hpres as [s Hs]; [by cbn; rewrite decide_True|]. eexists. split; [by eapply exit|].
    set (r := push_waiting_to_ready s).
    replace (if r.2 then Scheduling k false :: st else st) with ((if r.2 then [Scheduling k false] else []) ++ st) by by destruct r.2.
    apply (work_update y i _ _ st k s _ Hinv Hi); [by cbn; rewrite decide_True|done|].
    assert (queued (k, r.1) = queued (k, s)) as -> by (unfold queued, r, push_waiting_to_ready; cbn; rewrite length_app; cbn; lia).
    subst r. unfold push_waiting_to_ready. cbn [fst snd]. case_bool_decide as He; cbn [negb sum_by weight]; [lia|].
    rewrite emp_insert, bool_decide_eq_false_2 by done. lia.
Qed.

Definition at_rest (y : system) : Prop := Forall (fun st => st = []) (threads y) /\ pending y = [].

Lemma progress y : inv y -> threads y <> [] -> at_rest y \/ exists y', internal y y' /\ work y' < work y.
Proof.
  intros Hinv Hne. destruct (decide (Forall (fun st => st = []) (threads y))) as [Hidle|Hbusy].
  - destruct (pending y) as [|k rest] eqn:Hp; [by left|]. right.
    destruct (threads y) as [|st l] eqn:Hth; [done|]. pose proof (Forall_inv Hidle) as ->.
    assert (y @ 0%nat = Some []) as Hi by by rewrite Hth. eexists. split; [by apply (invoke y 0 k [] rest [])|].
    unfold work. cbn [impls threads pending set_pending set_threads]. rewrite (sum_by_insert _ _ 0 _ _ Hi), Hp.
    cbn [sum_by weight app]. unfold invoker_weight at 2. destruct (emp (impls y) k); lia.
  - right. apply not_Forall_Exists in Hbusy; [|apply _]. apply Exists_exists in Hbusy as (st & Hin & Hst).
    destruct st as [|f st]; [by destruct Hst|]. apply list_elem_of_lookup in Hin as [i Hi]. by eapply thread_progress.
Qed.

(** Nothing is handed to a strand meanwhile. *)
Definition no_calls (y y' : system) : Prop :=
  down y' = down y /\ length (threads y') = length (threads y)
  /\ forall k, submitted <$> impls y' !! k = submitted <$> impls y !! k.

Lemma internal_no_calls y y' : internal y y' -> no_calls y y'.
Proof.
  assert (forall k s s' i st, impls y !! k = Some s -> submitted s' = submitted s -> no_calls y (update k s' i st y)) as Hup.
  { intros k s s' i st Hs Hsub. split; [done|]. split; [apply length_insert|]. intros j. cbn.
    destruct (decide (j = k)) as [-> |Hne]; [|by rewrite lookup_insert_ne]. rewrite lookup_insert, decide_True, Hs by done. cbn. by rewrite Hsub. }
  assert (forall l i st, no_calls y (set_pending l (set_threads (<[ i := st ]> (threads y)) y))) as Hmv.
  { intros l i st. split; [done|]. split; [apply length_insert|done]. }
  destruct 1; try (by apply Hmv); try (by apply (Hmv (pending y))); eapply Hup; try done.
  unfold next_handler. by destruct (ready_queue_ s).
Qed.

Lemma completes n : forall y, (Z.to_nat (work y) < n)%nat -> inv y -> threads y <> [] ->
  exists y', star internal y y' /\ at_rest y' /\ no_calls y y' /\ inv y'.
Proof.
  induction n as [|n IH]; intros y Hn Hinv Hne; [lia|].
  destruct (progress y Hinv Hne) as [Hrest|(y1 & Hs & Hw)].
  { exists y. split; [apply star_refl|]. by split. }
  pose proof (work_nonneg y1). pose proof (internal_no_calls y y1 Hs) as (Hd & Hl & Hsub).
  destruct (IH y1) as (y2 & Hstar & Hrest & (Hd2 & Hl2 & Hsub2) & Hinv2); [lia|by eapply inv_internal|by intros Hz; rewrite Hz in Hl; destruct (threads y)|].
  exists y2. split; [by eapply star_step|]. split; [done|]. split; [|done].
  split; [by rewrite Hd2|]. split; [by rewrite Hl2|]. intros k. by rewrite Hsub2.
Qed.

(** ** Theorems *)

(** C35: Strands.  In every reachable state of any number of strands and threads: two functions
    that a strand is running, nested ones included, are on the same thread; at most one frame in
    the whole system stands for the lock of a strand (so one function of its queue runs at a time,
    and nobody else touches the ready queue, which has no mutex); functions are begun in the order
    in which they were handed over, none twice; none is lost: until the shutdown each is begun,
    about to be queued or queued, and what the shutdown finds in a queue is destroyed; a strand
    nobody refers to any more has nothing left to run. *)
Theorem strand_serialises y : reachable initial step y -> forall k s, impls y !! k = Some s ->
  (forall i1 st1 f1 i2 st2 f2, y @ i1 = Some st1 -> f1 ∈ st1 -> in_strand k f1 ->
     y @ i2 = Some st2 -> f2 ∈ st2 -> in_strand k f2 -> i1 = i2)
  /\ (forall i1 st1 j1 f1 i2 st2 j2 f2, y @ i1 = Some st1 -> st1 !! j1 = Some f1 -> is_holder k f1 ->
     y @ i2 = Some st2 -> st2 !! j2 = Some f2 -> is_holder k f2 -> i1 = i2 /\ j1 = j2)
  /\ started s `prefix_of` submitted s
  /\ (down y = false -> submitted s = started s ++ ready_queue_ s ++ limbo k (threads y) ++ waiting_queue_ s)
  /\ (down y = true -> submitted s ≡ₚ started s ++ destroyed s)
  /\ (unreferenced k y -> ready_queue_ s = [] /\ waiting_queue_ s = [] /\ (down y = false -> started s = submitted s)).
Proof.
  intros Hinv%inv_reachable k s Hs. destruct (inv_strands y Hinv k s Hs) as (_ & _ & Hp & _ & Hq).
  split; [by intros; eapply (in_strand_thread y k s)|]. split; [by intros; eapply (holder_unique y k s)|].
  split; [done|]. split; [by intros Hd; rewrite Hd in Hq; destruct Hq|]. split.
  { intros Hd. rewrite Hd in Hq. by destruct Hq as (_ & _ & _ & Hq). }
  intros Hu. apply (unlocked_done y k s Hinv Hs). by apply unreferenced_no_tokens.
Qed.

(** C36: Strands, liveness.  From every reachable state that is not shut down the threads can go
    on by themselves, without a new call, until no thread is inside a strand and the executor
    holds no invoker; then every function handed to any strand has been begun.  At every state
    creating an implementation, destroying one nobody refers to, and the shutdown with enough
    fuel for the list complete: the links are never followed to a freed object. *)
Theorem strand_completes y : reachable initial step y ->
  (down y = false -> threads y <> [] -> exists y', star internal y y' /\ at_rest y'
     /\ forall k s', impls y' !! k = Some s' -> started s' = submitted s'
          /\ exists s, impls y !! k = Some s /\ submitted s' = submitted s)
  /\ (forall p, down y = false -> p <> 0 -> impls y !! p = None -> exists y', create_implementation p y = Ok y')
  /\ (forall p s, impls y !! p = Some s -> of_service s = executor_service -> unreferenced p y ->
        exists y', destroy_implementation p y = Ok y')
  /\ exists y', shutdown (S (size (impls y))) y = Ok y'.
Proof.
  intros Hinv%inv_reachable. split; [|split; [|split]].
  - intros Hd Hne. destruct (completes (S (Z.to_nat (work y))) y) as (y' & Hstar & Hrest & (Hd' & _ & Hsub) & Hinv'); [lia|done|done|].
    exists y'. split; [done|]. split; [done|]. intros k s' Hs'. split.
    + destruct Hrest as [Hidle Hp]. apply (unlocked_done y' k s' Hinv' Hs'); [|congruence]. unfold tokens.
      by rewrite Hp, (proj2 (idle_limbo k _ Hidle)).
    + specialize (Hsub k). rewrite Hs' in Hsub. destruct (impls y !! k) as [s|]; [|done]. injection Hsub as Hsub. by exists s.
  - intros p Hd Hp Hn. destruct (create_ok y p Hinv Hd Hp Hn) as (y' & Hy & _). by exists y'.
  - intros p s Hs Hsv Hu. destruct (destroy_ok y p s Hinv Hs Hsv Hu) as (y' & Hy & _). by exists y'.
  - destruct (shutdown_all y (S (size (impls y))) Hinv) as (m & Hm & _); [lia|]. by eexists.
Qed.

(** ** Witnesses

    Two threads post a function each to a new strand; the second thread runs the
    first one. *)

Definition ok_or {A : Type} (d : A) (o : outcome A) : A := match o with Ok a => a | Fault _ => d end.

Definition two_threads : system := mkSystem ∅ 0 ∅ 0 [] [[]; []] false.
Definition with_strand : system := ok_or two_threads (create_implementation 64 two_threads).

(** [Post] by thread [i], and a step of its top frame that changes the strand. *)
Definition post_by (i : nat) (o : op) (y : system) : system :=
  match impls y !! 64, y @ i with
  | Some s, Some st => let r := make_call 64 Post false o s st in update 64 r.1 i r.2 y
  | _, _ => y
  end.

Definition posted : system := post_by 1 2%nat (post_by 0 1%nat with_strand).

Definition running_one : system :=
  match impls posted !! 64 with
  | Some s =>
      let y := update 64 (set_ready_queue (ready_queue_ s ++ [1%nat]) s) 0 [Scheduling 64 false] posted in
      let y := set_pending [64] (set_threads (<[ 0%nat := [] ]> (threads y)) y) in
      let y := set_pending [] (set_threads (<[ 1%nat := [Running 64 None] ]> (threads y)) y) in
      match impls y !! 64 with
      | Some s => update 64 (next_handler 64 s).1 1 [(next_handler 64 s).2] y
      | None => y
      end
  | None => posted
  end.

Lemma post_by_step i o y s st : y @ i = Some st -> user_code st = true -> impls y !! 64 = Some s ->
  of_service s = executor_service -> step y (post_by i o y).
Proof.
  intros Hi Hu Hs Hsv. apply step_client. unfold post_by. rewrite Hs, Hi. apply (calls y i 64 s st Post false o); try done.
  intros Hio. by rewrite Hsv in Hio.
Qed.

Lemma running_one_reachable : reachable initial step running_one.
Proof.
  assert (reachable initial step with_strand) as Hr.
  { eapply reach_step; [apply reach_init; by exists 2%nat, 0|]. apply step_client. by apply (creates _ _ 64). }
  assert (reachable initial step (post_by 0 1%nat with_strand)) as Hr1.
  { eapply reach_step; [exact Hr|]. by eapply (post_by_step 0 1%nat with_strand). }
  assert (reachable initial step posted) as Hr2.
  { eapply reach_step; [exact Hr1|]. by eapply (post_by_step 1 2%nat (post_by 0 1%nat with_strand)). }
  destruct (impls posted !! 64) as [s|] eqn:Hs; [|by vm_compute in Hs].
  unfold running_one. rewrite Hs. cbv zeta.
  eapply reach_step.
  - eapply reach_step; [eapply reach_step; [eapply reach_step; [exact Hr2|]|]|].
    + apply step_internal. by apply (push_ready posted 0 64 s 1%nat false []).
    + apply step_internal. by eapply (schedule _ 0 64 false []).
    + apply step_internal. by apply (invoke _ 1 64 [] [] []).
  - cbn [impls set_pending set_threads update set_impls]. rewrite lookup_insert, decide_True by done.
    apply step_internal. apply (turn _ 1 64 _ []); [done|]. cbn. by rewrite lookup_insert, decide_True.
Qed.

Lemma strand_serialises_witness :
  exists s, impls running_one !! 64 = Some s /\ started s = [1%nat] /\ waiting_queue_ s = [2%nat]
    /\ threads running_one = [[]; [Running 64 (Some 1%nat)]] /\ submitted s = started s ++ ready_queue_ s ++ [] ++ waiting_queue_ s.
Proof.
  eexists. split; [reflexivity|]. split; [reflexivity|]. split; [reflexivity|]. split; [reflexivity|].
  apply (strand_serialises running_one running_one_reachable 64); reflexivity.
Defined.

Lemma strand_completes_witness :
  exists y', star internal running_one y' /\ at_rest y'
    /\ forall k s', impls y' !! k = Some s' -> started s' = submitted s'
         /\ exists s, impls running_one !! k = Some s /\ submitted s' = submitted s.
Proof. apply (strand_completes running_one running_one_reachable); [reflexivity|discriminate]. Defined.
