(* ===== verification/SessionStack.v ===== *)
(** * SessionStack: a session on its connection

    [gateway/session.hpp] over the network library: [read_header] and [read_body]
    are [async_read]s into the session's memory, [write_next] is an [async_write]
    of the front of its queue, each made of overlapped transfers of the socket.
    [Session] takes for granted that a read gives exactly the bytes asked for and
    that a write is whole or fails; here this follows from what the operating
    system promises about a socket. *)

From stdpp Require Import base list gmap sets strings.
From Stdlib Require Import ZArith Lia Ascii.
From S2P Require Import Prelude Types Bytes BinarySerializer SerializerTheorems RiskChecker ThreadPool NetError Buffers ComposedIO.
From S2P Require Import SocketOps SocketTheorems IocpSocket IocpSocketTheorems Session SessionTheorems.
Local Open Scope exchange_scope.
Local Open Scope list_scope.
Local Open Scope Z_scope.

(** ** Definitions *)

Section Definitions.
Context {T : Type} {HR : ReadStream T} {HW : WriteStream T}.

(** [async_read(socket_, buffer(a, n), handler)]: whether the handler gets an
    error, what it finds at [a], the memory and the stream. *)
Definition stack_read (a n : Z) (m : mem) (t : T) : outcome (bool * list ascii * mem * T) :=
  let b := mkBuffer a n in
  let* (ec, _, m, t) := async_read (Z.to_nat n + 2) (new_consuming_single_buffer b) m t in
  Ok (failed ec, map byte_of (gather (addrs b) m), m, t).

(** The read side of a session from its first [read_header] on; [header] is the
    address of [incoming_header_] and [body] that of the data of
    [incoming_body_]. *)
Fixpoint session_over_stack (header body : Z) (fuel : nat) (m : mem) (t : T) (s : Session) (rc : RiskChecker)
    (env : Env) : outcome (Session * list effect * RiskChecker * Env * T) :=
  match fuel with
  | O => Fault OutOfFuel
  | S fuel =>
      let* (ec, data, m, t) := stack_read header (Z.of_nat (sizeof MsgHeader)) m t in
      let '(s, effects1) := on_header ec data s in
      if ec then Ok (s, effects1, rc, env, t)
      else
        let* (ec, data, m, t) := stack_read body (h_length (incoming_header_ s)) m t in
        let* (s, effects2, rc, env) := on_body ec data s rc env in
        if ec then Ok (s, effects1 ++ effects2, rc, env, t)
        else
          let* (s, effects3, rc, env, t) := session_over_stack header body fuel m t s rc env in
          Ok (s, effects1 ++ effects2 ++ effects3, rc, env, t)
  end.

(** [async_write(socket_, buffer(write_queue_.front()), handler)]: the vector's
    data is at [a]. *)
Definition stack_write (a : Z) (buffer : list ascii) (m : mem) (t : T) : outcome (error_code * Z * T) :=
  let b := mkBuffer a (Z.of_nat (length buffer)) in
  async_write (length buffer + 2) (new_consuming_single_buffer b) (scatter (addrs b) (map byte_val buffer) m) t.

Context (junk_symbol junk_reason : ExecutionReport -> list ascii) (a : Z) (m : mem).

(** The write side: the session's own steps, and ([None]) the completion of the
    write in flight with what the stack makes of it.  A vector's size is a
    [size_t]. *)
Definition stack_ostep (act : option out_action) (σ : Output * T) : option (Output * T) :=
  let '(o, t) := σ in
  match act with
  | Some (O_written | O_failed _) => None
  | Some act => ostep junk_symbol junk_reason act o ≫= fun o => Some (o, t)
  | None =>
      match out_in_flight o with
      | None => None
      | Some buffer =>
          if Z.of_nat (length buffer) <? 2 ^ 64 then
            match stack_write a buffer m t with
            | Ok (ec, n, t) =>
                let '(s, effects) := on_write (failed ec) (out_session o) in
                Some (mkOutput s (out_posted o) (write_request effects None)
                        (out_wire o ++ take (Z.to_nat n) buffer) (out_sent o), t)
            | Fault _ => None
            end
          else None
      end
  end.

Definition stack_step (σ σ' : Output * T) : Prop := exists act, stack_ostep act σ = Some σ'.

Definition stack_reachable (id : Z) (t0 : T) : Output * T -> Prop :=
  reachable (fun σ => σ = (init_output id, t0)) stack_step.

Fixpoint stack_run (acts : list (option out_action)) (σ : Output * T) : option (Output * T) :=
  match acts with
  | [] => Some σ
  | act :: acts => stack_ostep act σ ≫= stack_run acts
  end.

End Definitions.

(** ** Reading *)

Section Reading.
Context {T : Type} {HR : ReadStream T} {HRL : ReadStreamLaws T} {HC : CleanErrors T}.

Lemma stack_read_spec a n m t : is_u64 n ->
  exists ec data m' t' bytes, stack_read a n m t = Ok (ec, data, m', t') /\ received t' = received t ++ bytes /\
    if ec then Z.of_nat (length bytes) < n else Z.of_nat (length bytes) = n /\ data = map byte_of bytes.
Proof using HRL HC.
  intros Hn. set (b := mkBuffer a n).
  destruct (read_single b m t (Z.to_nat n + 2) Hn) as (ec & bytes & t' & _ & Hrun & Hr & Hl & Hg & Hok & Hbad); [done|].
  cbn [b size_] in *. do 5 eexists. split; [unfold stack_read; fold b; ok_step Hrun; reflexivity|]. split; [exact Hr|].
  destruct (failed ec) eqn:Hec; [auto|]. specialize (Hok eq_refl). split; [done|]. f_equal.
  rewrite take_ge in Hg; [done|]. rewrite length_addrs. cbn [b size_]. lia.
Qed.

Lemma header_length_u64 data s : length data = sizeof MsgHeader ->
  is_u64 (h_length (incoming_header_ (on_header false data s).1)).
Proof.
  intros Hl. destruct (pack_unpack (A := MsgHeader) data Hl) as [[_ Hok] _]. unfold fits, is_u64 in *. cbn in *. lia.
Qed.

(** Cutting a read off the front of the bytes. *)
Lemma cut_bytes k (b rest : list Z) : length b = k ->
  (length (map byte_of (b ++ rest)) <? k)%nat = false /\
  take k (map byte_of (b ++ rest)) = map byte_of b /\ drop k (map byte_of (b ++ rest)) = map byte_of rest.
Proof using.
  intros <-. rewrite map_app, length_app. split; [apply Nat.ltb_ge; rewrite length_map; lia|].
  by rewrite take_app_length', drop_app_length' by (by rewrite length_map).
Qed.

(** A turn of [read_session] whose header is the bytes [b]. *)
Lemma read_turn fuel (b rest : list Z) s rc env s1 effects1 : length b = sizeof MsgHeader ->
  on_header false (map byte_of b) s = (s1, effects1) ->
  read_session (S fuel) (map byte_of (b ++ rest)) s rc env =
    let n := Z.to_nat (h_length (incoming_header_ s1)) in
    if (length rest <? n)%nat then
      let* (s, effects2, rc, env) := on_body true (map byte_of rest) s1 rc env in
      Ok (s, effects1 ++ effects2, rc, env)
    else
      let* (s, effects2, rc, env) := on_body false (map byte_of (take n rest)) s1 rc env in
      let* (s, effects3, rc, env) := read_session fuel (map byte_of (drop n rest)) s rc env in
      Ok (s, effects1 ++ effects2 ++ effects3, rc, env).
Proof using.
  intros Hb Hh. destruct (cut_bytes _ b rest Hb) as (Hx & Hy & Hz).
  cbn [read_session]. rewrite Hx, Hy, Hz, Hh, length_map. cbv zeta.
  by rewrite <- firstn_map, <- skipn_map.
Qed.

(** On the bytes the stream delivered the session does what [read_session] does. *)
Lemma session_over_stack_spec header body fuel : forall m t s rc env,
  exists bytes t', received t' = received t ++ bytes /\
    session_over_stack header body fuel m t s rc env =
      let* (s, effects, rc, env) := read_session fuel (map byte_of bytes) s rc env in Ok (s, effects, rc, env, t').
Proof using HRL HC.
  induction fuel as [|fuel IH]; intros m t s rc env; [by exists [], t; rewrite app_nil_r|].
  cbn [session_over_stack].
  destruct (stack_read_spec header (Z.of_nat (sizeof MsgHeader)) m t) as (ec & data & m1 & t1 & b1 & Hr & Hrec & Hdata).
  { by vm_compute. }
  ok_step Hr. destruct ec.
  { exists b1, t1. split; [done|]. cbn [read_session]. rewrite (proj2 (Nat.ltb_lt _ _)) by (rewrite length_map; lia).
    unfold on_header. cbn [negb]. by destruct (session_close s). }
  destruct Hdata as [Hl1%Nat2Z.inj ->].
  pose proof (header_length_u64 (map byte_of b1) s) as Hlen. rewrite length_map in Hlen. specialize (Hlen Hl1).
  destruct (on_header false (map byte_of b1) s) as [s1 effects1] eqn:Hh. cbn [fst] in Hlen.
  pose proof (fun rest => read_turn fuel b1 rest s rc env s1 effects1 Hl1 Hh) as Hturn. cbv zeta in Hturn.
  destruct (stack_read_spec body (h_length (incoming_header_ s1)) m1 t1 Hlen)
    as (ec & data & m2 & t2 & b2 & Hr2 & Hrec2 & Hdata).
  ok_step Hr2. destruct ec.
  { exists (b1 ++ b2), t2. split; [by rewrite Hrec2, Hrec, app_assoc|].
    rewrite Hturn, (proj2 (Nat.ltb_lt _ _)) by lia. unfold on_body. cbn [negb]. by destruct (session_close s1). }
  destruct Hdata as [Hl2 ->]. replace (Z.to_nat (h_length (incoming_header_ s1))) with (length b2) in Hturn by lia.
  assert (forall rest, read_session (S fuel) (map byte_of (b1 ++ b2 ++ rest)) s rc env =
    let* (s, effects2, rc, env) := on_body false (map byte_of b2) s1 rc env in
    let* (s, effects3, rc, env) := read_session fuel (map byte_of rest) s rc env in
    Ok (s, effects1 ++ effects2 ++ effects3, rc, env)) as Hrun.
  { intros rest. rewrite Hturn, length_app, (proj2 (Nat.ltb_ge _ _)) by lia.
    by rewrite take_app_length, drop_app_length. }
  destruct (on_body false (map byte_of b2) s1 rc env) as [[[[s2 effects2] rc2] env2]|f] eqn:Hob; cbn [obind] in *.
  - destruct (IH m2 t2 s2 rc2 env2) as (b3 & t3 & Hrec3 & Hrest). exists (b1 ++ b2 ++ b3), t3.
    split; [by rewrite Hrec3, Hrec2, Hrec, !app_assoc|]. rewrite Hrun, Hrest.
    by destruct (read_session fuel (map byte_of b3) s2 rc2 env2) as [[[[? ?] ?] ?]|].
  - exists (b1 ++ b2), t2. split; [by rewrite Hrec2, Hrec, app_assoc|].
    specialize (Hrun []). rewrite app_nil_r in Hrun. by rewrite Hrun.
Qed.

End Reading.

(** ** Writing *)

Section Writing.
Context {T : Type} {HW : WriteStream T} {HWL : WriteStreamLaws T}.
Context (junk_symbol junk_reason : ExecutionReport -> list ascii) (a : Z) (m : mem).

Lemma bytes_of_vals bs : map byte_of (map byte_val bs) = bs.
Proof using. rewrite map_map. erewrite map_ext by apply byte_of_val. apply map_id. Qed.

Lemma gather_whole (addresses bytes : list Z) m0 : NoDup addresses -> length addresses = length bytes ->
  gather addresses (scatter addresses bytes m0) = bytes.
Proof using.
  intros Hnd Hl. pose proof (gather_scatter addresses bytes m0 Hnd) as H. rewrite <- Hl, firstn_all in H. by apply H.
Qed.

Lemma stack_write_spec buffer m0 t : Z.of_nat (length buffer) < 2 ^ 64 ->
  exists ec k t', stack_write a buffer m0 t = Ok (ec, Z.of_nat k, t') /\
    map byte_of (sent t') = map byte_of (sent t) ++ take k buffer /\ (failed ec = false -> k = length buffer).
Proof using HWL.
  intros Hl. unfold stack_write. set (b := mkBuffer a (Z.of_nat (length buffer))).
  assert (wf_buffer b) as Hb by (unfold wf_buffer, is_u64, b; cbn [size_]; lia).
  assert (length (addrs b) = length (map byte_val buffer)) as Hlen
    by (rewrite length_addrs, length_map; unfold b; cbn [size_]; lia).
  destruct (write_single b (scatter (addrs b) (map byte_val buffer) m0) t (length buffer + 2) Hb)
    as (ec & k & t' & _ & Hrun & Hs & Hk & Hok); [unfold b; cbn [size_]; lia|].
  exists ec, k, t'. split; [done|]. split.
  - rewrite Hs, map_app, gather_whole by (done || apply NoDup_seqZ). f_equal.
    by rewrite <- firstn_map, bytes_of_vals.
  - intros Hf. specialize (Hok Hf). unfold b in Hok. cbn [size_] in Hok. lia.
Qed.

(** Each step of the session on its stream is a step of the session alone, and
    what that one puts on the wire the stream has sent. *)
Lemma stack_ostep_simulates act o t o' t' : stack_ostep junk_symbol junk_reason a m act (o, t) = Some (o', t') ->
  exists act', ostep junk_symbol junk_reason act' o = Some o' /\
    exists wire, out_wire o' = out_wire o ++ wire /\ map byte_of (sent t') = map byte_of (sent t) ++ wire.
Proof using HWL.
  unfold stack_ostep. destruct act as [act|].
  - intros H. exists act. assert (ostep junk_symbol junk_reason act o = Some o' /\ t' = t /\
      match act with O_written | O_failed _ => False | _ => True end) as (Ho & -> & Hact).
    { destruct act; try done; apply bind_Some in H as (o1 & Ho & [= <- <-]); done. }
    split; [done|]. exists []. rewrite !app_nil_r. split; [|done].
    destruct act; try done; cbn [ostep] in Ho;
      repeat case_match; simplify_eq; reflexivity.
  - destruct (out_in_flight o) as [buffer|] eqn:Hfl; [|done].
    destruct (Z.ltb_spec (Z.of_nat (length buffer)) (2 ^ 64)) as [Hsize|]; [|done].
    destruct (stack_write_spec buffer m t Hsize) as (ec & k & t1 & -> & Hsent & Hok).
    destruct (on_write (failed ec) (out_session o)) as [s effects] eqn:Hw. intros [= <- <-].
    exists (if failed ec then O_failed k else O_written). rewrite Nat2Z.id. destruct (failed ec) eqn:Hec.
    + split; [|by eexists]. cbn [ostep]. rewrite Hfl, Hw. unfold on_write, session_close in Hw. cbn [negb] in Hw.
      by destruct (active_ (out_session o)); injection Hw as <- <-.
    + rewrite (Hok eq_refl), firstn_all in *. split; [|by eexists]. cbn [ostep]. by rewrite Hfl, Hw.
Qed.

Lemma stack_reachable_simulates id t0 o t : stack_reachable junk_symbol junk_reason a m id t0 (o, t) ->
  out_reachable junk_symbol junk_reason id o /\ map byte_of (sent t) = map byte_of (sent t0) ++ out_wire o.
Proof using HWL.
  intros Hr. change ((fun σ : Output * T => out_reachable junk_symbol junk_reason id σ.1 /\
    map byte_of (sent σ.2) = map byte_of (sent t0) ++ out_wire σ.1) (o, t)).
  revert Hr. apply reachable_invariant.
  - intros ? ->. split; [by apply reach_init|]. by rewrite app_nil_r.
  - intros [o1 t1] [o2 t2] [Hr Hw] [act Hact]. cbn [fst snd] in *.
    destruct (stack_ostep_simulates _ _ _ _ _ Hact) as (act' & Ho & wire & Hwire & Hsent).
    split; [eapply reach_step; [exact Hr|by exists act']|]. by rewrite Hsent, Hw, Hwire, app_assoc.
Qed.

Lemma stack_run_reachable id t0 acts : forall σ σ', stack_reachable junk_symbol junk_reason a m id t0 σ ->
  stack_run junk_symbol junk_reason a m acts σ = Some σ' -> stack_reachable junk_symbol junk_reason a m id t0 σ'.
Proof using.
  induction acts as [|act acts IH]; intros σ σ' Hr; cbn [stack_run]; [by intros [= <-]|].
  intros (σ1 & Hact & Hrun)%bind_Some. eapply IH, Hrun. eapply reach_step; [exact Hr|by exists act].
Qed.

End Writing.

(** ** Witness data *)

Definition w_incoming : list Z :=
  map byte_val (frames_bytes [w_frame_order; w_frame_bad] ++ w_uninit 2).

(** The server's end of a connection on which a client sent two packets and part
    of a third header; the network moves at most seven bytes at a time. *)
Definition w_connection : iocp_stream demo_world 5 16 false :=
  @mkIocpStream _ 5 16 false (mkDemoWorld 0 0 6 w_incoming [] [] false) eq_refl.

Definition w_output_acts : list (option out_action) :=
  [Some (O_send (w_report 1)); Some (O_send (w_report 2)); Some O_run; Some O_run; None; None].

(** ** Theorems *)

(** C27: a session on a TCP connection, over the composed reads, the socket
    service and the completion of overlapped receives: whatever the sizes of the
    transfers and however they fail, it makes exactly the state changes and
    requests that [Session] gives for the bytes the operating system delivered;
    when these are whole packets and part of a header, it processes exactly those
    packets and closes. *)
Theorem session_reads_connection {W} `{OverlappedRecv W} {sock state : Z} {expired : bool}
    (t : iocp_stream W sock state expired) (header body : Z) (m : mem) (fuel : nat)
    (s : Session) (rc : RiskChecker) (env : Env) :
  exists bytes t', ov_inbox (is_world t') sock = ov_inbox (is_world t) sock ++ bytes /\
    session_over_stack header body fuel m t s rc env
      = (let* (s, effects, rc, env) := read_session fuel (map byte_of bytes) s rc env in
         Ok (s, effects, rc, env, t')) /\
    forall fs tail, map byte_of bytes = frames_bytes fs ++ tail ->
      Forall frame_ok fs -> torn_header tail -> (length fs < fuel)%nat ->
      session_over_stack header body fuel m t s rc env
        = let* (s, effs, rc, env) := process_all fs s rc env in
          Ok ((session_close s).1, read_effects fs effs ++ (session_close s).2, rc, env, t').
Proof.
  destruct (session_over_stack_spec header body fuel m t s rc env) as (bytes & t' & Hrec & Hrun).
  exists bytes, t'. split; [exact Hrec|]. split; [exact Hrun|]. intros fs tail Hb Hfs Ht Hl.
  rewrite Hrun, Hb, read_session_frames by done. by destruct (process_all fs s rc env) as [[[[? ?] ?] ?]|].
Qed.

(** C28: the reports of a session on a TCP connection: at every moment what the
    operating system has accepted for sending is a prefix of the reports sent to
    the session, whole and in order; it is all of them when nothing is waiting and
    the session is still open; and the write in flight always ends. *)
Theorem session_writes_connection {W} `{OverlappedSend W} {sock state : Z} {expired : bool}
    (junk_symbol junk_reason : ExecutionReport -> list ascii) (a : Z) (m : mem) (id : Z)
    (t0 t : iocp_stream W sock state expired) (o : Output)
    (Hreach : stack_reachable junk_symbol junk_reason a m id t0 (o, t)) :
  exists wire, map byte_of (ov_outbox (is_world t) sock) = map byte_of (ov_outbox (is_world t0) sock) ++ wire /\
    (exists rest, wire_of junk_symbol junk_reason (out_sent o) = wire ++ rest) /\
    (active_ (out_session o) = true -> out_posted o = [] -> out_in_flight o = None ->
       wire = wire_of junk_symbol junk_reason (out_sent o)) /\
    (forall buffer, out_in_flight o = Some buffer -> Z.of_nat (length buffer) < 2 ^ 64 ->
       exists σ', stack_ostep junk_symbol junk_reason a m None (o, t) = Some σ').
Proof.
  destruct (stack_reachable_simulates _ _ _ _ _ _ _ _ Hreach) as [Hr Hsent].
  destruct (out_prefix _ _ _ _ Hr) as (Hp & _ & Hall).
  exists (out_wire o). split; [exact Hsent|]. split; [exact Hp|]. split; [exact Hall|].
  intros buffer Hfl Hsize. cbn [stack_ostep]. rewrite Hfl, (proj2 (Z.ltb_lt _ _) Hsize).
  destruct (stack_write_spec a buffer m t Hsize) as (ec & k & t' & -> & _).
  destruct (on_write (failed ec) (out_session o)). by eexists.
Qed.

Lemma session_reads_connection_witness :
  exists bytes t', ov_inbox (is_world t') 5 = [] ++ bytes /\
    session_over_stack 100 200 3 ∅ w_connection w_session w_checker w_senv
      = (let* (s, effects, rc, env) := read_session 3 (map byte_of bytes) w_session w_checker w_senv in
         Ok (s, effects, rc, env, t')) /\
    forall fs tail, map byte_of bytes = frames_bytes fs ++ tail ->
      Forall frame_ok fs -> torn_header tail -> (length fs < 3)%nat ->
      session_over_stack 100 200 3 ∅ w_connection w_session w_checker w_senv
        = let* (s, effs, rc, env) := process_all fs w_session w_checker w_senv in
          Ok ((session_close s).1, read_effects fs effs ++ (session_close s).2, rc, env, t').
Proof. exact (session_reads_connection w_connection 100 200 ∅ 3 w_session w_checker w_senv). Defined.

(** What that session does, computed on the connection: one order goes to the
    thread pool. *)
Example session_on_connection :
  match session_over_stack 100 200 3 ∅ w_connection w_session w_checker w_senv with
  | Ok (s, effects, _, _, t) =>
      filter is_request effects = [E_submit (mkTask T_Submit
        (ReqOrder (mkOrder 1001 "AAPL" Buy Limit 15000 100 100 1001 5)) "AAPL")] /\
      active_ s = false /\ ov_inbox (is_world t) 5 = w_incoming
  | Fault _ => False
  end.
Proof. vm_compute. split_and!; reflexivity. Qed.

Lemma session_writes_connection_witness : exists o t,
  stack_reachable w_js w_jr 300 ∅ 5 w_connection (o, t) /\
  map byte_of (ov_outbox (is_world t) 5) = wire_of w_js w_jr [w_report 1; w_report 2].
Proof.
  assert (exists o t, stack_run w_js w_jr 300 ∅ w_output_acts (init_output 5, w_connection) = Some (o, t) /\
    out_sent o = [w_report 1; w_report 2] /\
    active_ (out_session o) = true /\ out_posted o = [] /\ out_in_flight o = None) as (o & t & Hrun & Hsent & Ha & Hp & Hf).
  { do 2 eexists. split; [vm_compute; reflexivity|done]. }
  exists o, t.
  assert (stack_reachable w_js w_jr 300 ∅ 5 w_connection (o, t)) as Hr.
  { eapply stack_run_reachable; [apply reach_init; reflexivity|exact Hrun]. }
  split; [exact Hr|].
  destruct (session_writes_connection w_js w_jr 300 ∅ 5 w_connection t o Hr) as (wire & Hw & _ & Hall & _).
  rewrite Hw, (Hall Ha Hp Hf), Hsent. reflexivity.
Defined.
