(* ===== verification/ClientStack.v ===== *)
(** * The demo's client on its connection

    [DemoClient] of [demo_main.cpp] on its socket: [send_order], [send_modify]
    and [send_cancel] through [asio::write], the loop of [start_read_loop]
    through [asio::read], both over any stream and so over the synchronous
    operations of the socket layer.  With [SessionStack] at the other end of the
    connection, what arrives are the client's requests. *)

From stdpp Require Import base list gmap strings.
From Stdlib Require Import ZArith Lia Ascii.
From S2P Require Import Prelude Types Bytes BinarySerializer SerializerTheorems RiskChecker Recovery ThreadPool NetError Buffers ComposedIO.
From S2P Require Import SocketOps SocketTheorems IocpSocket IocpSocketTheorems Session SessionTheorems SessionStack Demo.
Local Open Scope exchange_scope.
Local Open Scope list_scope.
Local Open Scope Z_scope.

(** ** Definitions *)

Inductive client_request : Type :=
  | RqOrder (o : Order)
  | RqModify (m : ModifyRequest)
  | RqCancel (c : CancelRequest).

(** The buffer of a request and the client with its count of requests; [u] are
    the characters of the uninitialised symbol. *)
Definition client_buffer (u : list ascii) (rq : client_request) (c : DemoClient) : list ascii * DemoClient :=
  match rq with
  | RqOrder o => send_order u o c
  | RqModify m => send_modify u m c
  | RqCancel x => send_cancel u x c
  end.

Section Client.
Context {T : Type} {HR : ReadStream T} {HW : WriteStream T}.

(** [send_..]: when [asio::write] throws, the count is not reached.  The
    vector's data is at [a]. *)
Definition client_send (u : list ascii) (a : Z) (rq : client_request) (m : mem) (c : DemoClient) (t : T)
    : outcome (option error_code * DemoClient * T) :=
  let '(buffer, c') := client_buffer u rq c in
  let b := mkBuffer a (Z.of_nat (length buffer)) in
  let* (res, t) := write_all (length buffer + 2) (new_consuming_single_buffer b)
                     (scatter (addrs b) (map byte_val buffer) m) t in
  Ok (match res with inl ec => (Some ec, c, t) | inr _ => (None, c', t) end).

(** Requests one after the other; an exception leaves the rest unsent. *)
Fixpoint client_sends (u : list ascii) (a : Z) (rqs : list client_request) (m : mem) (c : DemoClient) (t : T)
    : outcome (option error_code * DemoClient * T) :=
  match rqs with
  | [] => Ok (None, c, t)
  | rq :: rqs =>
      let* (e, c, t) := client_send u a rq m c t in
      match e with
      | Some ec => Ok (Some ec, c, t)
      | None => client_sends u a rqs m c t
      end
  end.

(** [asio::read(socket_, buffer(a, n))]: whether it throws, and what it finds at [a]. *)
Definition client_read (a n : Z) (m : mem) (t : T) : outcome (bool * list ascii * mem * T) :=
  let b := mkBuffer a n in
  let* (res, m, t) := read_all (Z.to_nat n + 2) (new_consuming_single_buffer b) m t in
  Ok (match res with inl _ => true | inr _ => false end, map byte_of (gather (addrs b) m), m, t).

(** The thread of [start_read_loop]; [running] tells what each test of
    [running_] reads, [header] and [report] are the addresses of its variables. *)
Fixpoint client_read_loop (fuel : nat) (running : nat -> bool) (header report : Z) (m : mem) (c : DemoClient)
    (t : T) : outcome (DemoClient * T) :=
  match fuel with
  | O => Fault OutOfFuel
  | S fuel =>
      if negb (running fuel) then Ok (c, t)
      else
        let* (throws, data, m, t) := client_read header (Z.of_nat (sizeof MsgHeader)) m t in
        if throws then Ok (c, t)
        else
          let h : MsgHeader := unpack data in
          if negb (h_type h =? MsgType_to_u16 MsgExecutionReport) then Ok (c, t)
          else
            let* (throws, _, m, t) := client_read report (Z.of_nat (sizeof NetExecutionReport)) m t in
            if throws then Ok (c, t)
            else client_read_loop fuel running header report m
                   (mkDemoClient (dc_connected c) (dc_sent_count c) (u32 (dc_received_count c + 1))) t
  end.
End Client.

(** ** The packets of the client's requests *)

Definition request_ok (rq : client_request) : Prop :=
  match rq with
  | RqOrder o => order_fields_ok o
  | RqModify m => modify_fields_ok m
  | RqCancel c => cancel_fields_ok c
  end.

Definition frame_of (u : list ascii) (rq : client_request) : frame :=
  match rq with
  | RqOrder o => mkFrame 1 (pack (to_net_order u o))
  | RqModify m => mkFrame 3 (pack (to_net_modify u m))
  | RqCancel c => mkFrame 2 (pack (to_net_cancel u c))
  end.

Lemma client_buffer_frame u rq c : request_ok rq -> length u = 8%nat ->
  client_buffer u rq c = (frame_bytes (frame_of u rq),
    mkDemoClient (dc_connected c) (u32 (dc_sent_count c + 1)) (dc_received_count c)) /\
  frame_ok (frame_of u rq).
Proof.
  intros Hok Hu.
  destruct rq as [o|m|x]; simpl in Hok; unfold client_buffer, send_order, send_modify, send_cancel, send,
    frame_bytes, frame_of, frame_ok; cbn [fr_type fr_body];
    rewrite pack_length by (by auto using to_net_order_fields, to_net_modify_fields, to_net_cancel_fields);
    split; done.
Qed.

(** The tasks that a list of requests of handlers submits. *)
Definition tasks_of (es : list effect) : list Task :=
  omap (fun e => match e with E_submit t => Some t | _ => None end) es.

(** The tasks of the client's requests once they have passed the risk checker:
    stamped with the client id, symbols cut to what the wire carries. *)
Fixpoint accepted (id : Z) (rqs : list client_request) (rc : RiskChecker) : list Task :=
  match rqs with
  | [] => []
  | RqOrder o :: rqs =>
      let order := set_client id (wire_order o) in
      let '(ok, _, rc) := validate_order order "" rc in
      (if ok then [mkTask T_Submit (ReqOrder order) (kept 8 (o_symbol o))] else []) ++ accepted id rqs rc
  | RqModify m :: rqs =>
      mkTask T_Modify (ReqModify (mkModifyRequest (m_order_id m) (kept 8 (m_symbol m)) (m_price m)
        (m_quantity m) (m_timestamp m) id)) (kept 8 (m_symbol m)) :: accepted id rqs rc
  | RqCancel c :: rqs =>
      mkTask T_Cancel (ReqCancel (mkCancelRequest (c_order_id c) (kept 8 (c_symbol c)) (c_timestamp c) id))
        (kept 8 (c_symbol c)) :: accepted id rqs rc
  end.

(** One packet of the client's at the session. *)
Lemma process_request u rq s rc env : request_ok rq -> length u = 8%nat ->
  exists es rc' env', process_packet (with_frame (frame_of u rq) s) rc env = Ok (es, rc', env') /\
    forall rqs, accepted (client_id_ s) (rq :: rqs) rc = tasks_of es ++ accepted (client_id_ s) rqs rc'.
Proof.
  intros Hok Hu. destruct rq as [o|m|x]; simpl in Hok; unfold process_packet;
    cbn [frame_of incoming_body_ incoming_header_ with_frame set_body set_header fr_body fr_type h_type client_id_].
  - pose proof (to_net_order_fields u o Hok Hu) as Hf. pose proof (unpack_pack _ [] Hf) as Hup.
    rewrite app_nil_r in Hup. change (MsgType_of_u16 1) with MsgOrder. cbn iota.
    rewrite (pack_length _ Hf), Nat.eqb_refl, Hup, from_to_order by apply Hok. cbn [negb obind accepted].
    change (o_symbol (set_client (client_id_ s) (wire_order o))) with (kept 8 (o_symbol o)).
    destruct (validate_order _ _ _) as [[ok reason] rc']. destruct ok; cbn [negb]; by eexists _, _, _.
  - pose proof (to_net_modify_fields u m Hok Hu) as Hf. pose proof (unpack_pack _ [] Hf) as Hup.
    rewrite app_nil_r in Hup. change (MsgType_of_u16 3) with MsgModify. cbn iota.
    rewrite (pack_length _ Hf), Nat.eqb_refl, Hup, from_to_modify. cbn [negb obind]. by eexists _, _, _.
  - pose proof (to_net_cancel_fields u x Hok Hu) as Hf. pose proof (unpack_pack _ [] Hf) as Hup.
    rewrite app_nil_r in Hup. change (MsgType_of_u16 2) with MsgCancel. cbn iota.
    rewrite (pack_length _ Hf), Nat.eqb_refl, Hup, from_to_cancel. cbn [negb obind]. by eexists _, _, _.
Qed.

Lemma tasks_of_app es1 es2 : tasks_of (es1 ++ es2) = tasks_of es1 ++ tasks_of es2.
Proof. apply omap_app. Qed.

Lemma tasks_of_close s : tasks_of (session_close s).2 = [].
Proof. unfold session_close. by destruct (active_ s). Qed.

(** ** A stream that ends anywhere *)

(** The session on the first part of a packet. *)
Lemma read_torn fuel f tail rest s rc env : frame_ok f -> frame_bytes f = tail ++ rest -> rest <> [] ->
  exists s' es, read_session (S fuel) tail s rc env = Ok (s', es, rc, env) /\ tasks_of es = [].
Proof.
  intros Hf Hb Hrest. pose proof (header_fields f Hf) as Hh. pose proof (pack_length _ Hh) as Hl.
  cbn [read_session]. destruct (Nat.ltb_spec (length tail) (sizeof MsgHeader)) as [Ht|Ht].
  { unfold on_header. cbn [negb]. pose proof (tasks_of_close s) as Hc.
    destruct (session_close s) as [s' es]. by exists s', es. }
  unfold frame_bytes in Hb.
  set (hdr := pack (mkMsgHeader (fr_type f) (Z.of_nat (length (fr_body f))))) in *.
  assert (exists b, tail = hdr ++ b /\ fr_body f = b ++ rest) as (b & -> & Hbody).
  { apply app_eq_app in Hb as (k & [[Hk1 Hk2]|[Hk1 Hk2]]); [|by exists k].
    exists []. assert (length k = 0%nat) as Hk by (rewrite Hk1, length_app in Hl; lia).
    apply length_zero_iff_nil in Hk as ->. rewrite app_nil_r in Hk1. by rewrite <- Hk1, app_nil_r. }
  rewrite take_app_length', drop_app_length' by done. unfold on_header. cbn [negb].
  pose proof (unpack_pack _ [] Hh) as Hu. rewrite app_nil_r in Hu. fold hdr in Hu. rewrite Hu.
  cbn [set_header set_body incoming_header_ h_length]. rewrite Nat2Z.id, Hbody.
  rewrite (proj2 (Nat.ltb_lt _ _)).
  2:{ rewrite length_app. destruct rest; [done|]. simpl. lia. }
  unfold on_body. cbn [negb].
  match goal with |- context [session_close ?x] => pose proof (tasks_of_close x) as Hc; destruct (session_close x) as [s' es] end.
  cbn [obind]. eexists _, _. split; [done|]. done.
Qed.

(** Bytes off the front of packets are whole packets and part of one. *)
Lemma cut_frames fs bytes rest : Forall frame_ok fs -> frames_bytes fs = bytes ++ rest ->
  exists k tail, (k <= length fs)%nat /\ bytes = frames_bytes (take k fs) ++ tail /\
    ((k = length fs /\ tail = [] /\ rest = []) \/
     rest <> [] /\ exists f rest', fs !! k = Some f /\ frame_bytes f = tail ++ rest' /\ rest' <> []).
Proof.
  intros Hfs. revert bytes. induction Hfs as [|f fs Hf Hfs IH]; intros bytes Hb.
  { symmetry in Hb. apply app_eq_nil in Hb as [-> ->]. exists 0%nat, []. split; [done|]. split; [done|]. by left. }
  change (frames_bytes (f :: fs)) with (frame_bytes f ++ frames_bytes fs) in Hb.
  destruct (decide (length bytes < length (frame_bytes f))%nat) as [Hlt|Hge].
  - exists 0%nat, bytes. split; [lia|]. split; [done|]. right.
    apply app_eq_app in Hb as (k & [[Hk1 Hk2]|[Hk1 Hk2]]).
    + assert (k <> []) as Hk by (intros ->; rewrite app_nil_r in Hk1; subst; lia).
      split; [rewrite Hk2; by destruct k|]. by exists f, k.
    + rewrite Hk1, length_app in Hlt. lia.
  - assert (exists b, bytes = frame_bytes f ++ b /\ frames_bytes fs = b ++ rest) as (b & -> & Hb').
    { apply app_eq_app in Hb as (k & [[Hk1 Hk2]|[Hk1 Hk2]]); [|by exists k].
      exists []. assert (length k = 0%nat) as Hk by (rewrite Hk1, length_app in Hge; lia).
      apply length_zero_iff_nil in Hk as ->. rewrite app_nil_r in Hk1. by rewrite Hk1, app_nil_r. }
    destruct (IH b Hb') as (k & tail & Hk & -> & Hcase). exists (S k), tail. split; [simpl; lia|].
    split; [by apply (app_assoc (frame_bytes f) (frames_bytes (take k fs)) tail)|].
    destruct Hcase as [(-> & -> & ->)|(Hrest & g & r & Hg)]; [by left|right]. split; [done|]. by exists g, r.
Qed.

(** The session on the first [k] of the client's requests and part of another. *)
Lemma session_takes_requests u fuel : length u = 8%nat -> forall rqs tail s rc env, Forall request_ok rqs ->
  (length rqs < fuel)%nat ->
  (tail = [] \/ exists f rest, frame_ok f /\ frame_bytes f = tail ++ rest /\ rest <> []) ->
  exists s' es rc' env',
    read_session fuel (frames_bytes (frame_of u <$> rqs) ++ tail) s rc env = Ok (s', es, rc', env') /\
    tasks_of es = accepted (client_id_ s) rqs rc.
Proof.
  intros Hu. induction fuel as [|fuel IH]; intros rqs tail s rc env Hok Hfuel Htail; [lia|].
  destruct Hok as [|rq rqs Hrq Hrqs].
  - change (frames_bytes (frame_of u <$> []) ++ tail) with tail. destruct Htail as [->|(f & rest & Hf & Hb & Hr)].
    + cbn [read_session]. change (length [] <? sizeof MsgHeader)%nat with true. cbn match.
      unfold on_header. cbn [negb]. pose proof (tasks_of_close s) as Hc. destruct (session_close s) as [s' es].
      by exists s', es, rc, env.
    + destruct (read_torn fuel f tail rest s rc env Hf Hb Hr) as (s' & es & Hrun & Hes). by exists s', es, rc, env.
  - destruct (client_buffer_frame u rq new_client Hrq Hu) as [_ Hf].
    change (frames_bytes (frame_of u <$> rq :: rqs)) with
      (frame_bytes (frame_of u rq) ++ frames_bytes (frame_of u <$> rqs)). rewrite <- app_assoc.
    rewrite read_frame by done.
    destruct (process_request u rq s rc env Hrq Hu) as (es1 & rc1 & env1 & -> & Hacc). cbn [obind].
    destruct (IH rqs tail (with_frame (frame_of u rq) s) rc1 env1 Hrqs) as (s' & es & rc' & env' & -> & Hes);
      [simpl in Hfuel; lia|done|]. cbn [obind]. do 4 eexists. split; [done|].
    rewrite Hacc. cbn [tasks_of omap list_omap]. fold (tasks_of ((es1 ++ [E_read_header]) ++ es)).
    rewrite !tasks_of_app, Hes. cbn [tasks_of omap list_omap]. by rewrite app_nil_r.
Qed.

Section Facts.
Context {T : Type} {HR : ReadStream T} {HW : WriteStream T} {HRL : ReadStreamLaws T} {HWL : WriteStreamLaws T}.

Lemma client_send_spec u a rq m c t : request_ok rq -> length u = 8%nat ->
  exists e c' t' k, client_send u a rq m c t = Ok (e, c', t') /\
    map byte_of (sent t') = map byte_of (sent t) ++ take k (frame_bytes (frame_of u rq)) /\
    match e with
    | None => k = length (frame_bytes (frame_of u rq)) /\ dc_sent_count c' = u32 (dc_sent_count c + 1)
    | Some ec => failed ec = true /\ c' = c
    end.
Proof using HWL.
  intros Hok Hu. unfold client_send. destruct (client_buffer_frame u rq c Hok Hu) as [-> Hf].
  set (buffer := frame_bytes (frame_of u rq)). set (b := mkBuffer a (Z.of_nat (length buffer))).
  assert (Z.of_nat (length buffer) < 2 ^ 64) as Hsz.
  { unfold buffer, frame_bytes. rewrite length_app, pack_length by by apply header_fields. destruct Hf as [_ Hlen].
    change (sizeof MsgHeader) with 4%nat. lia. }
  assert (wf_buffer b) as Hb by (unfold wf_buffer, is_u64, b; cbn [size_]; lia).
  assert (length (addrs b) = length (map byte_val buffer)) as Hla
    by (rewrite length_addrs, length_map; unfold b; cbn [size_]; lia).
  destruct (write_single b (scatter (addrs b) (map byte_val buffer) m) t (length buffer + 2) Hb)
    as (ec & k & t' & Hrun & _ & Hr & Hl & Hdone); [unfold b; cbn [size_]; lia|].
  rewrite gather_whole in Hr by (done || apply NoDup_seqZ).
  unfold write_all. ok_step Hrun. exists (if failed ec then Some ec else None).
  exists (if failed ec then c else
    mkDemoClient (dc_connected c) (u32 (dc_sent_count c + 1)) (dc_received_count c)), t', k.
  split; [by destruct (failed ec)|].
  split; [rewrite Hr, map_app, <- firstn_map, bytes_of_vals; done|].
  destruct (failed ec) eqn:Hec; [done|]. specialize (Hdone eq_refl). unfold b in Hdone. cbn [size_] in Hdone.
  split; [lia|done].
Qed.

Lemma client_sends_spec u a rqs m : length u = 8%nat -> Forall request_ok rqs -> forall c t,
  exists e c' t' n, client_sends u a rqs m c t = Ok (e, c', t') /\
    map byte_of (sent t') = map byte_of (sent t) ++ take n (frames_bytes (frame_of u <$> rqs)) /\
    match e with
    | None => n = length (frames_bytes (frame_of u <$> rqs)) /\
              (is_u32 (dc_sent_count c) -> dc_sent_count c' = u32 (dc_sent_count c + Z.of_nat (length rqs)))
    | Some ec => failed ec = true
    end.
Proof using HWL.
  intros Hu Hok. induction Hok as [|rq rqs Hrq Hrqs IH]; intros c t.
  { exists None, c, t, 0%nat. split; [done|]. split; [by rewrite app_nil_r|]. split; [done|].
    intros Hc. rewrite Z.add_0_r. by rewrite u32_small. }
  change (frames_bytes (frame_of u <$> rq :: rqs)) with
    (frame_bytes (frame_of u rq) ++ frames_bytes (frame_of u <$> rqs)).
  set (f := frame_bytes (frame_of u rq)). set (fs := frames_bytes (frame_of u <$> rqs)) in *.
  destruct (client_send_spec u a rq m c t Hrq Hu) as (e & c1 & t1 & k & Hrun & Hs1 & He). fold f in Hs1, He.
  cbn [client_sends]. ok_step Hrun. destruct e as [ec|].
  - exists (Some ec), c1, t1, (Nat.min k (length f)). split; [done|]. split; [|apply He].
    rewrite Hs1. f_equal. rewrite take_app_le by lia. destruct (Nat.min_spec k (length f)) as [[? ->]|[? ->]]; [done|].
    rewrite !take_ge by lia. done.
  - destruct He as [-> Hcnt]. rewrite take_ge in Hs1 by lia.
    destruct (IH c1 t1) as (e & c' & t' & n & -> & Hs & He). exists e, c', t', (length f + n)%nat.
    split; [done|]. split; [by rewrite Hs, Hs1, <- app_assoc, take_app_add|].
    destruct e as [ec|]; [done|]. destruct He as [-> Hc']. split; [by rewrite length_app|].
    intros Hc. rewrite Hc' by (rewrite Hcnt; apply u32_range). rewrite Hcnt. unfold u32.
    rewrite Zplus_mod_idemp_l. f_equal. cbn [length]. lia.
Qed.

(** ** Reports read by the client *)

Context {HC : CleanErrors T}.

Lemma client_read_spec a n m t : is_u64 n ->
  exists throws data m' t' bytes, client_read a n m t = Ok (throws, data, m', t') /\
    received t' = received t ++ bytes /\
    if throws : bool then Z.of_nat (length bytes) < n else Z.of_nat (length bytes) = n /\ data = map byte_of bytes.
Proof using HRL HC.
  intros Hn. set (b := mkBuffer a n).
  destruct (read_single b m t (Z.to_nat n + 2) Hn) as (ec & bytes & t' & Hrun & _ & Hr & Hl & Hg & Hok & Hbad); [done|].
  cbn [b size_] in *. exists (failed ec). do 4 eexists.
  split; [unfold client_read; fold b; unfold read_all; ok_step Hrun; by destruct (failed ec)|]. split; [exact Hr|].
  destruct (failed ec) eqn:Hec; [auto|]. specialize (Hok eq_refl). split; [done|]. f_equal.
  rewrite take_ge in Hg; [done|]. rewrite length_addrs. cbn [b size_]. lia.
Qed.

Context (junk_symbol junk_reason : ExecutionReport -> list ascii).
Context (Hjs : forall r, length (junk_symbol r) = 8%nat) (Hjr : forall r, length (junk_reason r) = 32%nat).

Definition report_size : nat := sizeof MsgHeader + sizeof NetExecutionReport.

(** The first bytes of what a session writes are the header of a report. *)
Lemma report_header rs (b : list ascii) rest : Forall report_fields_ok rs -> length b = sizeof MsgHeader ->
  wire_of junk_symbol junk_reason rs = b ++ rest ->
  h_type (unpack b) = MsgType_to_u16 MsgExecutionReport /\
  exists r rs' body, rs = r :: rs' /\ length body = sizeof NetExecutionReport /\
    rest = body ++ wire_of junk_symbol junk_reason rs'.
Proof using Hjs Hjr.
  intros Hrs Hb Hw. destruct Hrs as [|r rs Hr Hrs].
  { change (wire_of junk_symbol junk_reason []) with (@nil ascii) in Hw. symmetry in Hw.
    apply app_eq_nil in Hw as [-> _]. discriminate Hb. }
  change (wire_of junk_symbol junk_reason (r :: rs))
    with (buffer_of junk_symbol junk_reason r ++ wire_of junk_symbol junk_reason rs) in Hw.
  destruct (report_buffer_split (junk_symbol r) (junk_reason r) r Hr (Hjs r) (Hjr r))
    as (hdr & body & Hbuf & Hh & Hu & Hl).
  change (report_buffer (junk_symbol r) (junk_reason r) r) with (buffer_of junk_symbol junk_reason r) in Hbuf.
  rewrite Hbuf, <- app_assoc in Hw. apply app_inj_1 in Hw as [-> <-]; [|congruence].
  rewrite Hu. split; [done|]. by exists r, rs, body.
Qed.

Lemma few_bytes (bytes : list Z) count : (length bytes < report_size)%nat -> is_u32 count ->
  count = u32 (count + Z.of_nat (length bytes / report_size)).
Proof using. intros Hl Hc. rewrite Nat.div_small, Z.add_0_r by done. by rewrite u32_small. Qed.

(** The loop ends once it finds [running_] unset, and counts the whole reports
    it has read. *)
Lemma client_read_loop_spec running header report : running 0%nat = false -> forall fuel m c t,
  exists c' t' bytes, client_read_loop (S fuel) running header report m c t = Ok (c', t') /\
    received t' = received t ++ bytes /\
    forall rs rest, Forall report_fields_ok rs -> is_u32 (dc_received_count c) ->
      wire_of junk_symbol junk_reason rs = map byte_of bytes ++ rest ->
      dc_received_count c' = u32 (dc_received_count c + Z.of_nat (length bytes / report_size)).
Proof using HRL HC Hjs Hjr.
  intros Hrun. induction fuel as [|fuel IH]; intros m c t.
  { cbn [client_read_loop]. rewrite Hrun. cbn [negb]. exists c, t, []. split; [done|]. rewrite app_nil_r.
    split; [done|]. intros rs rest _ Hc _. apply few_bytes; [vm_compute; lia|done]. }
  remember (S fuel) as n eqn:Hn. cbn [client_read_loop].
  destruct (running n); cbn [negb].
  2:{ exists c, t, []. split; [done|]. rewrite app_nil_r. split; [done|]. intros _ _ _ Hc _. apply few_bytes; [|done].
      vm_compute. lia. }
  destruct (client_read_spec header (Z.of_nat (sizeof MsgHeader)) m t) as (th & data & m1 & t1 & b1 & Hr1 & Hb1 & Hd1).
  { by vm_compute. }
  ok_step Hr1. destruct th.
  { exists c, t1, b1. split; [done|]. split; [done|]. intros rs rest _ Hc _. apply few_bytes; [|done].
    unfold report_size. lia. }
  destruct Hd1 as [Hl1%Nat2Z.inj ->].
  destruct (negb (h_type (unpack (map byte_of b1)) =? MsgType_to_u16 MsgExecutionReport)) eqn:Hty.
  { exists c, t1, b1. split; [done|]. split; [done|]. intros rs rest Hrs Hc Hw.
    apply report_header in Hw as [Hh _]; [|done|by rewrite length_map]. rewrite Hh in Hty. by vm_compute in Hty. }
  destruct (client_read_spec report (Z.of_nat (sizeof NetExecutionReport)) m1 t1)
    as (th & data & m2 & t2 & b2 & Hr2 & Hb2 & Hd2).
  { by vm_compute. }
  ok_step Hr2. destruct th.
  { exists c, t2, (b1 ++ b2). split; [done|]. split; [by rewrite Hb2, Hb1, app_assoc|].
    intros rs rest _ Hc _. apply few_bytes; [|done]. rewrite length_app. unfold report_size. lia. }
  destruct Hd2 as [Hl2%Nat2Z.inj _].
  set (c1 := mkDemoClient (dc_connected c) (dc_sent_count c) (u32 (dc_received_count c + 1))).
  destruct (IH m2 c1 t2) as (c' & t' & b3 & Hrun3 & Hb3 & Hcnt). subst n. rewrite Hrun3.
  exists c', t', (b1 ++ b2 ++ b3). split; [done|]. split; [by rewrite Hb3, Hb2, Hb1, !app_assoc|].
  intros rs rest Hrs Hc Hw. rewrite !map_app, <- !app_assoc in Hw.
  apply report_header in Hw as (_ & r & rs' & body & -> & Hlb & Hw); [|done|by rewrite length_map].
  apply app_inj_1 in Hw as [_ Hw]; [|rewrite length_map; congruence]. apply Forall_cons in Hrs as [_ Hrs].
  rewrite (Hcnt rs' rest Hrs (u32_range _) (eq_sym Hw)). unfold c1. cbn [dc_received_count]. unfold u32.
  rewrite Zplus_mod_idemp_l. f_equal. rewrite !length_app, Hl1, Hl2, Nat.add_assoc. fold report_size.
  replace (report_size + length b3)%nat with (1 * report_size + length b3)%nat by lia.
  rewrite Nat.div_add_l by done. lia.
Qed.
End Facts.

(** ** Witness data *)

Definition w_requests : list client_request :=
  [RqOrder (mkOrder 1001 "AAPL" Buy Limit 15000 100 100 1001 0); RqCancel (mkCancelRequest 1001 "AAPL" 6000 0)].

(** The client's end, which sends at most five bytes at a time, and the server's
    end, which has been delivered the order and part of the cancellation. *)
Definition w_client_end : tcp_stream demo_world 7 16 :=
  @mkTcp demo_world 7 16 (mkDemoWorld 0 0 4 [] [] [] false) eq_refl.

Definition w_delivered : list Z :=
  take 50 (map byte_val (frames_bytes (frame_of (w_uninit 8) <$> w_requests))).

Definition w_server_end : iocp_stream demo_world 5 16 false :=
  @mkIocpStream _ 5 16 false (mkDemoWorld 0 0 6 w_delivered [] [] false) eq_refl.

Lemma w_requests_ok : Forall request_ok w_requests.
Proof. repeat constructor; simpl; unfold is_u64, is_u32; lia || done. Qed.

(** ** Theorems *)

(** C26: a client's requests arrive.  The client of the demo sends requests with
    [asio::write] on its socket; a session at the other end reads them through
    the overlapped operations of the event loop.  Whatever the sizes of the
    transfers and wherever either side fails, if what was delivered to the
    session is the beginning of what the client's side accepted, the session
    submits exactly the tasks of the client's first requests, those the risk
    checker accepts, in order, stamped with its client id; of all of them if
    nothing failed and all was delivered. *)
Theorem client_requests_arrive {W1 W2} `{WinsockLaws W1} `{OverlappedRecv W2}
    {sock1 state1 sock2 state2 : Z} {expired : bool}
    (tc : tcp_stream W1 sock1 state1) (ts : iocp_stream W2 sock2 state2 expired)
    u a rqs m c header body ms fuel s rc env :
  Forall request_ok rqs -> length u = 8%nat -> (length rqs < fuel)%nat ->
  exists e c' tc' wire bytes ts',
    client_sends u a rqs m c tc = Ok (e, c', tc') /\
    map byte_of (outbox (ts_world tc') sock1) = map byte_of (outbox (ts_world tc) sock1) ++ wire /\
    ov_inbox (is_world ts') sock2 = ov_inbox (is_world ts) sock2 ++ bytes /\
    session_over_stack header body fuel ms ts s rc env
      = (let* (s, es, rc, env) := read_session fuel (map byte_of bytes) s rc env in Ok (s, es, rc, env, ts')) /\
    forall rest, wire = map byte_of bytes ++ rest ->
      exists k s' es rc' env',
        session_over_stack header body fuel ms ts s rc env = Ok (s', es, rc', env', ts') /\
        (k <= length rqs)%nat /\ tasks_of es = accepted (client_id_ s) (take k rqs) rc /\
        (e = None -> rest = [] -> k = length rqs).
Proof.
  intros Hok Hu Hfuel. destruct (client_sends_spec u a rqs m Hu Hok c tc) as (e & c' & tc' & n & Hsend & Hsent & He).
  destruct (session_over_stack_spec header body fuel ms ts s rc env) as (bytes & ts' & Hrec & Hrun).
  exists e, c', tc', (take n (frames_bytes (frame_of u <$> rqs))), bytes, ts'.
  split; [exact Hsend|]. split; [exact Hsent|]. split; [exact Hrec|]. split; [exact Hrun|]. intros rest Hw.
  assert (Forall frame_ok (frame_of u <$> rqs)) as Hfs.
  { apply Forall_fmap. eapply Forall_impl; [exact Hok|]. intros rq Hrq. by apply (client_buffer_frame u rq new_client). }
  assert (frames_bytes (frame_of u <$> rqs) = map byte_of bytes ++ (rest ++ drop n (frames_bytes (frame_of u <$> rqs))))
    as Hb by (by rewrite app_assoc, <- Hw, take_drop).
  destruct (cut_frames _ _ _ Hfs Hb) as (k & tail & Hk & Hbytes & Hcase). rewrite length_fmap in Hk.
  destruct (session_takes_requests u fuel Hu (take k rqs) tail s rc env) as (s' & es & rc' & env' & Hses & Htasks).
  { by apply Forall_take. }
  { rewrite length_take. lia. }
  { destruct Hcase as [(_ & -> & _)|(_ & f & r & Hf & Hfb & Hr)]; [by left|right]. exists f, r. split; [|done].
    by eapply Forall_lookup_1. }
  exists k, s', es, rc', env'. rewrite Hrun, Hbytes, <- fmap_take, Hses. split; [done|]. split; [done|].
  split; [done|]. intros -> ->. destruct He as [Hn _].
  destruct Hcase as [(-> & _ & _)|[Hrest _]]; [by rewrite length_fmap|]. exfalso. apply Hrest. by rewrite Hn, drop_all.
Qed.

Lemma client_requests_arrive_witness : exists e c' tc' s' es rc' env' ts',
  client_sends (w_uninit 8) 900 w_requests ∅ new_client w_client_end = Ok (e, c', tc') /\
  dc_sent_count c' = 2 /\
  outbox (ts_world tc') 7 = map byte_val (frames_bytes (frame_of (w_uninit 8) <$> w_requests)) /\
  session_over_stack 100 200 3 ∅ w_server_end w_session w_checker w_senv = Ok (s', es, rc', env', ts') /\
  exists k, (k <= 2)%nat /\ tasks_of es = accepted 5 (take k w_requests) w_checker.
Proof.
  assert (length w_requests < 3)%nat as Hl by (simpl; lia).
  destruct (client_requests_arrive w_client_end w_server_end (w_uninit 8) 900 w_requests ∅ new_client
    100 200 ∅ 3 w_session w_checker w_senv w_requests_ok eq_refl Hl)
    as (e & c' & tc' & wire & bytes & ts' & Hsend & Hw & Hb & Hrun & Harr).
  assert (dc_sent_count c' = 2 /\ outbox (ts_world tc') 7
    = map byte_val (frames_bytes (frame_of (w_uninit 8) <$> w_requests))) as (Hc & Ho)
    by (vm_compute in Hsend; injection Hsend as <- <- <-; vm_compute; split; reflexivity).
  assert (bytes = w_delivered) as ->.
  { destruct (read_session 3 (map byte_of bytes) w_session w_checker w_senv) as [[[[s0 es0] rc0] env0]|f];
      vm_compute in Hrun; [|discriminate Hrun]. injection Hrun as _ _ _ _ <-. vm_compute in Hb |- *. exact (eq_sym Hb). }
  rewrite Ho in Hw.
  destruct (Harr (map byte_of (drop 50 (map byte_val (frames_bytes (frame_of (w_uninit 8) <$> w_requests))))))
    as (k & s' & es & rc' & env' & Hses & Hk & Htasks & _).
  { rewrite <- map_app. unfold w_delivered. rewrite take_drop. exact (eq_sym Hw). }
  exists e, c', tc', s', es, rc', env', ts'. split; [exact Hsend|]. split; [exact Hc|]. split; [exact Ho|].
  split; [exact Hses|]. exists k. split; [exact Hk|exact Htasks].
Defined.

(** A session's reports reach the client's count.  Whatever the client's read
    loop has read of what the session's end has sent, when it ends it has counted
    exactly the whole reports in it; the loop ends when its socket fails or
    [running_] is unset. *)
Theorem client_hears_session {W1 W2} `{WinsockLaws W1} `{OverlappedSend W2}
    {sock1 state1 sock2 state2 : Z} {expired : bool} js jr a m id
    (t0 t : iocp_stream W2 sock2 state2 expired) o
    (tc : tcp_stream W1 sock1 state1) running header report fuel mc c :
  stack_reachable js jr a m id t0 (o, t) ->
  (forall r, length (js r) = 8%nat) -> (forall r, length (jr r) = 32%nat) ->
  Forall report_fields_ok (out_sent o) -> running 0%nat = false -> is_u32 (dc_received_count c) ->
  exists c' tc' bytes, client_read_loop (S fuel) running header report mc c tc = Ok (c', tc') /\
    inbox (ts_world tc') sock1 = inbox (ts_world tc) sock1 ++ bytes /\
    forall rest, map byte_of (ov_outbox (is_world t) sock2)
        = map byte_of (ov_outbox (is_world t0) sock2) ++ map byte_of bytes ++ rest ->
      dc_received_count c' = u32 (dc_received_count c + Z.of_nat (length bytes / report_size)).
Proof.
  intros Hr Hjs Hjr Hok Hrun Hc.
  destruct (stack_reachable_simulates _ _ _ _ _ _ _ _ Hr) as [Hout Hsent].
  destruct (out_prefix _ _ _ _ Hout) as ([rest2 Hp] & _ & _).
  destruct (client_read_loop_spec js jr Hjs Hjr running header report Hrun fuel mc c tc)
    as (c' & tc' & bytes & Hloop & Hrec & Hcount).
  exists c', tc', bytes. split; [exact Hloop|]. split; [exact Hrec|]. intros rest Hw.
  apply (Hcount (out_sent o) (rest ++ rest2) Hok Hc).
  assert (map byte_of (ov_outbox (is_world t) sock2)
    = map byte_of (ov_outbox (is_world t0) sock2) ++ out_wire o) as Hsent' by exact Hsent.
  rewrite Hsent' in Hw. apply app_inv_head in Hw. by rewrite Hp, Hw, app_assoc.
Qed.

Definition w_reader_end : tcp_stream demo_world 7 16 :=
  @mkTcp demo_world 7 16
    (mkDemoWorld 0 3 30 (map byte_val (take 100 (wire_of w_js w_jr [w_report 1; w_report 2]))) [] [] false) eq_refl.

Lemma client_hears_session_witness : exists o t c' tc',
  stack_reachable w_js w_jr 300 ∅ 5 w_connection (o, t) /\
  client_read_loop 4 (fun n => negb (Nat.eqb n 0)) 1000 2000 ∅ new_client w_reader_end = Ok (c', tc') /\
  dc_received_count c' = 1.
Proof.
  assert (exists o t, stack_run w_js w_jr 300 ∅ w_output_acts (init_output 5, w_connection) = Some (o, t) /\
    out_sent o = [w_report 1; w_report 2] /\
    map byte_of (ov_outbox (is_world t) 5) = wire_of w_js w_jr [w_report 1; w_report 2]) as (o & t & Hrun & Hs & Hw).
  { do 2 eexists. split; [vm_compute; reflexivity|]. split; vm_compute; reflexivity. }
  assert (stack_reachable w_js w_jr 300 ∅ 5 w_connection (o, t)) as Hr.
  { eapply stack_run_reachable; [apply reach_init; reflexivity|exact Hrun]. }
  assert (Forall report_fields_ok (out_sent o)) as Hok
    by (rewrite Hs; repeat constructor; simpl; unfold is_u64, is_u32; lia || done).
  destruct (client_hears_session w_js w_jr 300 ∅ 5 w_connection t o w_reader_end
    (fun n => negb (Nat.eqb n 0)) 1000 2000 3 ∅ new_client Hr (fun _ => eq_refl) (fun _ => eq_refl) Hok eq_refl)
    as (c' & tc' & bytes & Hloop & Hin & Hcount); [simpl; unfold is_u32; lia|].
  exists o, t, c', tc'. split; [exact Hr|]. split; [exact Hloop|].
  assert (bytes = map byte_val (take 100 (wire_of w_js w_jr [w_report 1; w_report 2]))) as ->.
  { vm_compute in Hloop. injection Hloop as _ <-. vm_compute in Hin |- *. exact (eq_sym Hin). }
  rewrite (Hcount (drop 100 (wire_of w_js w_jr [w_report 1; w_report 2]))); [vm_compute; reflexivity|].
  rewrite Hw. change (ov_outbox (is_world w_connection) 5) with (@nil Z).
  rewrite bytes_of_vals, take_drop. reflexivity.
Defined.
