(* ===== verification/PipelineSystem.v ===== *)
(** * The execution pipeline under concurrency

    [pipeline/execution_pipeline.cpp] with any number of threads in
    [publish_execution_report] and [publish_trade], the dispatch thread, a thread
    in [stop], and sessions that come and go in the connection manager,
    interleaved at every access of [running_] and at every operation of the
    queues and of the manager.  The queues are any implementations of [Fifo]. *)

From stdpp Require Import base list gmap strings.
From Stdlib Require Import ZArith Lia.
From S2P Require Import Prelude Types Fifo MpscQueue ConnectionManager ExecutionPipeline.
Local Open Scope exchange_scope.
Local Open Scope list_scope.

(** ** Definitions *)

(** What a publishing call publishes. *)
Inductive message : Type :=
  | M_report (r : ExecutionReport)
  | M_trade (t : Trade).

(** Where the call is: before [if (!running_) return], before the test of the
    loop, before [enqueue]. *)
Inductive publisher : Type :=
  | P_check (m : message)
  | P_test (m : message)
  | P_enqueue (m : message).

(** The dispatcher: before reading [running_], before [report_queue_.empty()],
    before [trade_queue_.empty()], before the first [dequeue], before
    [get_session], before [send_execution_report], before the second [dequeue],
    returned. *)
Inductive dispatcher (S : Type) : Type :=
  | D_test
  | D_reports
  | D_trades
  | D_report
  | D_session (r : ExecutionReport)
  | D_send (s : S) (r : ExecutionReport)
  | D_trade
  | D_done.

Arguments D_test {S}.
Arguments D_reports {S}.
Arguments D_trades {S}.
Arguments D_report {S}.
Arguments D_session {S} r.
Arguments D_send {S} s r.
Arguments D_trade {S}.
Arguments D_done {S}.

(** The thread that stops the pipeline: not yet, past the exchange of
    [running_], past the first and the second [close], past the join. *)
Inductive pipe_stopper : Type := PS_idle | PS_close_reports | PS_close_trades | PS_join | PS_end.

Section System.
Context {S QR QT : Type} `{Fifo QR ExecutionReport} `{Fifo QT Trade}.

(** [queued] and [queued_trades] list what [enqueue] accepted, in order;
    [looked_up] the reports taken out, with the session [get_session] gave for
    each; [handed] the calls of [send_execution_report]. *)
Record PipelineSystem : Type := mkPipelineSystem {
  pp_pipe : ExecutionPipeline QR QT;
  pp_sessions : ConnectionManager S;
  pp_publishers : gmap nat publisher;
  pp_dispatcher : dispatcher S;
  pp_stopper : pipe_stopper;
  queued : list ExecutionReport;
  queued_trades : list Trade;
  looked_up : list (ExecutionReport * option S);
  handed : list (S * ExecutionReport) }.

(** A pipeline that was just started. *)
Definition init_pipeline_system : PipelineSystem :=
  mkPipelineSystem (pipeline_start new_pipeline) new_manager ∅ D_test PS_idle [] [] [] [].

Definition set_reports (q : QR) (p : ExecutionPipeline QR QT) : ExecutionPipeline QR QT :=
  mkExecutionPipeline q (trade_queue_ p) (running_ p) (dispatch_thread_ p).
Definition set_trades (q : QT) (p : ExecutionPipeline QR QT) : ExecutionPipeline QR QT :=
  mkExecutionPipeline (report_queue_ p) q (running_ p) (dispatch_thread_ p).
Definition set_flags (running thread : bool) (p : ExecutionPipeline QR QT) : ExecutionPipeline QR QT :=
  mkExecutionPipeline (report_queue_ p) (trade_queue_ p) running thread.

(** [enqueue] on the queue of the message. *)
Definition enqueue_message (m : message) (p : ExecutionPipeline QR QT)
    : outcome (bool * ExecutionPipeline QR QT) :=
  match m with
  | M_report r =>
      let* (ok, q) := fifo_enqueue r (report_queue_ p) in Ok (ok, set_reports q p)
  | M_trade t =>
      let* (ok, q) := fifo_enqueue t (trade_queue_ p) in Ok (ok, set_trades q p)
  end.

Definition reports_of (m : message) : list ExecutionReport :=
  match m with M_report r => [r] | M_trade _ => [] end.
Definition trades_of (m : message) : list Trade :=
  match m with M_report _ => [] | M_trade t => [t] end.

Definition publisher_step (tid : nat) (s : PipelineSystem) : option (outcome PipelineSystem) :=
  let upd ps p qr qt := mkPipelineSystem p (pp_sessions s) ps (pp_dispatcher s) (pp_stopper s) qr qt
                          (looked_up s) (handed s) in
  match pp_publishers s !! tid with
  | None => None
  | Some (P_check m) =>
      Some (Ok (upd (if running_ (pp_pipe s) then <[ tid := P_test m ]> (pp_publishers s)
                     else delete tid (pp_publishers s)) (pp_pipe s) (queued s) (queued_trades s)))
  | Some (P_test m) =>
      Some (Ok (upd (if running_ (pp_pipe s) then <[ tid := P_enqueue m ]> (pp_publishers s)
                     else delete tid (pp_publishers s)) (pp_pipe s) (queued s) (queued_trades s)))
  | Some (P_enqueue m) =>
      Some (let* (ok, p) := enqueue_message m (pp_pipe s) in
            Ok (if ok then upd (delete tid (pp_publishers s)) p
                             (queued s ++ reports_of m) (queued_trades s ++ trades_of m)
                else upd (<[ tid := P_test m ]> (pp_publishers s)) p (queued s) (queued_trades s)))
  end.

Definition dispatcher_step (s : PipelineSystem) : option (outcome PipelineSystem) :=
  let upd d p lu hd := mkPipelineSystem p (pp_sessions s) (pp_publishers s) d (pp_stopper s)
                         (queued s) (queued_trades s) lu hd in
  let p := pp_pipe s in
  match pp_dispatcher s with
  | D_test => Some (Ok (upd (if running_ p then D_report else D_reports) p (looked_up s) (handed s)))
  | D_reports =>
      Some (let* empty := fifo_empty (report_queue_ p) in
            Ok (upd (if empty then D_trades else D_report) p (looked_up s) (handed s)))
  | D_trades =>
      Some (let* empty := fifo_empty (trade_queue_ p) in
            Ok (upd (if empty then D_done else D_report) p (looked_up s) (handed s)))
  | D_report =>
      Some (let* (report_opt, q) := fifo_dequeue (report_queue_ p) in
            Ok (upd (match report_opt with Some r => D_session r | None => D_trade end)
                  (set_reports q p) (looked_up s) (handed s)))
  | D_session r =>
      let session := get_session (er_client_id r) (pp_sessions s) in
      Some (Ok (upd (match session with Some c => D_send c r | None => D_trade end)
                  p (looked_up s ++ [(r, session)]) (handed s)))
  | D_send c r => Some (Ok (upd D_trade p (looked_up s) (handed s ++ [(c, r)])))
  | D_trade =>
      Some (let* (trade_opt, q) := fifo_dequeue (trade_queue_ p) in
            Ok (upd D_test (set_trades q p) (looked_up s) (handed s)))
  | D_done => None
  end.

Definition pipe_stopper_step (s : PipelineSystem) : option (outcome PipelineSystem) :=
  let upd st p := mkPipelineSystem p (pp_sessions s) (pp_publishers s) (pp_dispatcher s) st
                    (queued s) (queued_trades s) (looked_up s) (handed s) in
  let p := pp_pipe s in
  match pp_stopper s with
  | PS_idle => Some (Ok (upd PS_close_reports (set_flags false (dispatch_thread_ p) p)))
  | PS_close_reports =>
      Some (Ok (upd PS_close_trades (set_reports (fifo_close (report_queue_ p)) p)))
  | PS_close_trades => Some (Ok (upd PS_join (set_trades (fifo_close (trade_queue_ p)) p)))
  | PS_join =>
      match pp_dispatcher s with
      | D_done => Some (Ok (upd PS_end (set_flags (running_ p) false p)))
      | _ => None
      end
  | PS_end => None
  end.

Inductive pipe_action : Type :=
  | PA_publish (tid : nat) (m : message)
  | PA_publisher (tid : nat)
  | PA_dispatcher
  | PA_stopper
  | PA_add (client_id : Z) (session : S)
  | PA_remove (client_id : Z).

Definition set_sessions (m : ConnectionManager S) (s : PipelineSystem) : PipelineSystem :=
  mkPipelineSystem (pp_pipe s) m (pp_publishers s) (pp_dispatcher s) (pp_stopper s)
    (queued s) (queued_trades s) (looked_up s) (handed s).

Definition start_publish (tid : nat) (m : message) (s : PipelineSystem) : PipelineSystem :=
  mkPipelineSystem (pp_pipe s) (pp_sessions s) (<[ tid := P_check m ]> (pp_publishers s))
    (pp_dispatcher s) (pp_stopper s) (queued s) (queued_trades s) (looked_up s) (handed s).

Definition pipe_step (a : pipe_action) (s : PipelineSystem) : option (outcome PipelineSystem) :=
  match a with
  | PA_publish tid m =>
      match pp_publishers s !! tid with
      | Some _ => None
      | None => Some (Ok (start_publish tid m s))
      end
  | PA_publisher tid => publisher_step tid s
  | PA_dispatcher => dispatcher_step s
  | PA_stopper => pipe_stopper_step s
  | PA_add c session => Some (Ok (set_sessions (add_session c session (pp_sessions s)) s))
  | PA_remove c => Some (Ok (set_sessions (remove_session c (pp_sessions s)) s))
  end.

Definition pipeline_step (s s' : PipelineSystem) : Prop := exists a, pipe_step a s = Some (Ok s').

Definition pipeline_reachable : PipelineSystem -> Prop :=
  reachable (fun s => s = init_pipeline_system) pipeline_step.

(** A step that starts no publishing call. *)
Definition pipeline_quiet (s s' : PipelineSystem) : Prop :=
  exists a, (forall tid m, a <> PA_publish tid m) /\ pipe_step a s = Some (Ok s').

Fixpoint pipe_run (acts : list pipe_action) (s : PipelineSystem) : option (outcome PipelineSystem) :=
  match acts with
  | [] => Some (Ok s)
  | a :: acts =>
      match pipe_step a s with
      | Some (Ok s') => pipe_run acts s'
      | r => r
      end
  end.
End System.

Arguments PipelineSystem S QR QT : clear implicits.
Arguments pipe_action S : clear implicits.

(** ** The invariant *)

(** The report the dispatcher has taken and not yet looked up. *)
Definition in_hand {S} (d : dispatcher S) : list ExecutionReport :=
  match d with D_session r => [r] | _ => [] end.

(** The call of [send_execution_report] it is about to make. *)
Definition sending {S} (d : dispatcher S) : list (S * ExecutionReport) :=
  match d with D_send s r => [(s, r)] | _ => [] end.

(** The calls that a list of looked-up reports gives rise to. *)
Definition sends_of {S} (l : list (ExecutionReport * option S)) : list (S * ExecutionReport) :=
  omap (fun '(r, o) => match o with Some s => Some (s, r) | None => None end) l.

(** What the stop thread has done, against the flags of the two queues. *)
Definition pipe_phase (st : pipe_stopper) (running cr ct : bool) : Prop :=
  match st with
  | PS_idle => running = true /\ cr = false /\ ct = false
  | PS_close_reports => running = false /\ cr = false /\ ct = false
  | PS_close_trades => running = false /\ cr = true /\ ct = false
  | PS_join | PS_end => running = false /\ cr = true /\ ct = true
  end.

Section Facts.
Context {S QR QT : Type} `{FifoLaws QR ExecutionReport} `{FifoLaws QT Trade}.
Implicit Types s : PipelineSystem S QR QT.

Record pp_inv (s : PipelineSystem S QR QT) : Prop := mkPpInv {
  pv_queues : exists cr ct rs ts, fifo_repr (report_queue_ (pp_pipe s)) cr rs /\
    fifo_repr (trade_queue_ (pp_pipe s)) ct ts /\
    queued s = (looked_up s).*1 ++ in_hand (pp_dispatcher s) ++ rs /\
    pipe_phase (pp_stopper s) (running_ (pp_pipe s)) cr ct;
  pv_handed : sends_of (looked_up s) = handed s ++ sending (pp_dispatcher s);
  pv_late : pp_dispatcher s = D_reports \/ pp_dispatcher s = D_trades \/ pp_dispatcher s = D_done ->
    running_ (pp_pipe s) = false;
  pv_end : pp_stopper s = PS_end -> pp_dispatcher s = D_done }.

Lemma sends_of_app (l1 l2 : list (ExecutionReport * option S)) :
  sends_of (l1 ++ l2) = sends_of l1 ++ sends_of l2.
Proof using. apply omap_app. Qed.

Lemma init_pipeline_inv : pp_inv (init_pipeline_system (S:=S)).
Proof using.
  constructor; simpl; [|done|by intros [?|[?|?]]|done].
  exists false, false, [], []. split_and!; try apply fifo_new_repr; done.
Qed.

(** [enqueue] appends to the queue of the message, or finds it closed. *)
Lemma enqueue_message_repr m (p : ExecutionPipeline QR QT) cr ct rs ts :
  fifo_repr (report_queue_ p) cr rs -> fifo_repr (trade_queue_ p) ct ts ->
  exists ok p', enqueue_message m p = Ok (ok, p') /\ running_ p' = running_ p /\
    fifo_repr (report_queue_ p') cr (if ok then rs ++ reports_of m else rs) /\
    fifo_repr (trade_queue_ p') ct (if ok then ts ++ trades_of m else ts).
Proof using.
  intros Hr Ht. destruct m as [r|t]; simpl.
  - destruct cr.
    + exists false. rewrite (fifo_enqueue_closed _ _ r Hr). simpl. by eexists.
    + destruct (fifo_enqueue_open _ _ r Hr) as (q & -> & Hq). simpl. exists true. eexists.
      rewrite app_nil_r. done.
  - destruct ct.
    + exists false. rewrite (fifo_enqueue_closed _ _ t Ht). simpl. by eexists.
    + destruct (fifo_enqueue_open _ _ t Ht) as (q & -> & Hq). simpl. exists true. eexists.
      rewrite app_nil_r. done.
Qed.

Lemma publisher_step_inv tid s r : pp_inv s -> publisher_step tid s = Some r ->
  exists s', r = Ok s' /\ pp_inv s'.
Proof using.
  intros [(cr & ct & rs & ts & Hr & Ht & Hq & Hp) Hh Hl He]. unfold publisher_step.
  destruct (pp_publishers s !! tid) as [[m|m|m]|]; [| | |done].
  1,2: intros [= <-]; eexists; split; [done|]; constructor; simpl; eauto 10.
  intros [= <-]. destruct (enqueue_message_repr m _ _ _ _ _ Hr Ht) as (ok & p' & -> & Hrun & Hr' & Ht').
  cbn [obind]. eexists. split; [done|].
  destruct ok; constructor; simpl; rewrite ?Hrun; eauto 10.
  exists cr, ct, (rs ++ reports_of m), (ts ++ trades_of m). split_and!; try done.
  by rewrite Hq, <- !app_assoc.
Qed.

Lemma dequeue_repr {Q T} `{FifoLaws Q T} (q : Q) c (vs : list T) : fifo_repr q c vs ->
  exists q', fifo_dequeue q = Ok (head vs, q') /\ fifo_repr q' c (tail vs).
Proof using.
  intros Hq. destruct vs as [|v vs]; [|by apply fifo_dequeue_cons].
  exists q. split; [by apply fifo_dequeue_nil with c|done].
Qed.

(** Closes the four parts of the invariant after a step, the queues being
    described by the given flags and contents. *)
Local Ltac pp_close cr ct rs ts He :=
  constructor; simpl; [exists cr, ct, rs, ts; split_and!| | |]; try done;
    try (by intros [?|[?|?]]); try (intros Hs; by specialize (He Hs)).

Lemma dispatcher_step_inv s r : pp_inv s -> dispatcher_step s = Some r ->
  exists s', r = Ok s' /\ pp_inv s'.
Proof using.
  intros [(cr & ct & rs & ts & Hr & Ht & Hq & Hp) Hh Hl He]. unfold dispatcher_step.
  destruct (pp_dispatcher s) eqn:Ed; simpl in Hq, Hh; intros [= <-].
  - eexists. split; [done|]. destruct (running_ (pp_pipe s)) eqn:Er; pp_close cr ct rs ts He; by rewrite Er.
  - rewrite (fifo_empty_repr _ _ _ Hr). cbn [obind]. eexists. split; [done|].
    destruct rs as [|x rs]; [pp_close cr ct (@nil ExecutionReport) ts He|pp_close cr ct (x :: rs) ts He];
      intros _; apply Hl; auto.
  - rewrite (fifo_empty_repr _ _ _ Ht). cbn [obind]. eexists. split; [done|].
    destruct ts as [|x ts]; [pp_close cr ct rs (@nil Trade) He|pp_close cr ct rs (x :: ts) He];
      intros _; apply Hl; auto.
  - destruct (dequeue_repr _ _ _ Hr) as (q' & -> & Hq'). cbn [obind]. eexists. split; [done|].
    destruct rs as [|x rs]; [pp_close cr ct (@nil ExecutionReport) ts He|pp_close cr ct rs ts He].
  - eexists. split; [done|].
    destruct (get_session (er_client_id r0) (pp_sessions s)); pp_close cr ct rs ts He;
      rewrite ?sends_of_app, ?Hq, ?fmap_app, <- ?app_assoc, ?Hh, ?app_nil_r; done.
  - eexists. split; [done|]. pp_close cr ct rs ts He. by rewrite app_nil_r.
  - destruct (dequeue_repr _ _ _ Ht) as (q' & -> & Hq'). cbn [obind]. eexists. split; [done|].
    pp_close cr ct rs (tail ts) He.
Qed.

Lemma pipe_stopper_step_inv s r : pp_inv s -> pipe_stopper_step s = Some r ->
  exists s', r = Ok s' /\ pp_inv s'.
Proof using.
  intros [(cr & ct & rs & ts & Hr & Ht & Hq & Hp) Hh Hl He]. unfold pipe_stopper_step.
  destruct (pp_stopper s) eqn:Es; simpl in Hp; destruct_and? Hp; subst; try done.
  - intros [= <-]. eexists. split; [done|]. constructor; simpl; [|done|done|done]. by exists false, false, rs, ts.
  - intros [= <-]. eexists. split; [done|]. constructor; simpl; [|done|tauto|done].
    exists true, false, rs, ts. split_and!; try done. by eapply fifo_close_repr.
  - intros [= <-]. eexists. split; [done|]. constructor; simpl; [|done|tauto|done].
    exists true, true, rs, ts. split_and!; try done. by eapply fifo_close_repr.
  - destruct (pp_dispatcher s) eqn:Ed; try done. intros [= <-]. eexists. split; [done|].
    constructor; simpl; rewrite ?Ed; [|done|done|done]. exists true, true, rs, ts. done.
Qed.

Lemma pipe_step_inv a s r : pp_inv s -> pipe_step a s = Some r -> exists s', r = Ok s' /\ pp_inv s'.
Proof using.
  intros Hi. destruct a as [tid m|tid| | |c x|c]; simpl.
  - destruct (pp_publishers s !! tid); [done|]. intros [= <-]. eexists. split; [done|].
    destruct Hi. by constructor.
  - by apply publisher_step_inv.
  - by apply dispatcher_step_inv.
  - by apply pipe_stopper_step_inv.
  - intros [= <-]. eexists. split; [done|]. destruct Hi. by constructor.
  - intros [= <-]. eexists. split; [done|]. destruct Hi. by constructor.
Qed.

Lemma pipeline_reachable_inv s : pipeline_reachable s -> pp_inv s.
Proof using.
  apply reachable_invariant; [intros ? ->; apply init_pipeline_inv|].
  intros s1 s2 Hi [a Ha]. by destruct (pipe_step_inv _ _ _ Hi Ha) as (s' & [= <-] & Hi').
Qed.

(** ** Stopping with no publishing call in progress *)

Record pp_quiet (s0 s : PipelineSystem S QR QT) : Prop := mkPpQuiet {
  pq_inv : pp_inv s;
  pq_publishers : pp_publishers s = ∅;
  pq_queued : queued s = queued s0;
  pq_empty : pp_dispatcher s = D_trades \/ pp_dispatcher s = D_done ->
    (looked_up s).*1 = queued s;
  pq_trades : pp_dispatcher s = D_done -> exists c, fifo_repr (trade_queue_ (pp_pipe s)) c [] }.

Lemma pp_quiet_step s0 s s' : pp_quiet s0 s -> pipeline_quiet s s' -> pp_quiet s0 s'.
Proof using.
  intros [Hi Hpub Hq He Hte] (a & Ha & Hs).
  destruct (pipe_step_inv _ _ _ Hi Hs) as (s2 & [= <-] & Hi').
  destruct Hi as [(cr & ct & rs & ts & Hr & Ht & Hqs & Hp) _ _ _].
  destruct a as [tid m|tid| | |c x|c]; simpl in Hs; [by destruct (Ha tid m)| | | | |].
  - unfold publisher_step in Hs. by rewrite Hpub, lookup_empty in Hs.
  - unfold dispatcher_step in Hs. destruct (pp_dispatcher s) eqn:Ed; simpl in Hqs.
    + injection Hs as <-. constructor; simpl; try done;
        destruct (running_ _); first [by intros [?|?]|done].
    + rewrite (fifo_empty_repr _ _ _ Hr) in Hs. injection Hs as <-.
      constructor; simpl; try done; destruct rs; try done.
      * intros _. by rewrite Hqs, app_nil_r.
      * by intros [?|?].
    + rewrite (fifo_empty_repr _ _ _ Ht) in Hs. injection Hs as <-.
      constructor; simpl; try done; destruct ts; try done.
      * intros _. apply He. by left.
      * by intros [?|?].
      * by exists ct.
    + destruct (dequeue_repr _ _ _ Hr) as (q' & Hdq & Hq'). rewrite Hdq in Hs. injection Hs as <-.
      constructor; simpl; try done; destruct rs; first [by intros [?|?]|done].
    + injection Hs as <-.
      constructor; simpl; try done; destruct (get_session _ _); first [by intros [?|?]|done].
    + injection Hs as <-. constructor; simpl; try done. by intros [?|?].
    + destruct (dequeue_repr _ _ _ Ht) as (q' & Hdq & Hq'). rewrite Hdq in Hs. injection Hs as <-.
      constructor; simpl; try done. by intros [?|?].
    + done.
  - unfold pipe_stopper_step in Hs. destruct (pp_stopper s); [| | |destruct (pp_dispatcher s) eqn:Ed|];
      try done; injection Hs as <-; constructor; simpl; rewrite ?Ed; try done; try tauto.
    intros Hd. destruct (Hte Hd) as [c Hc]. exists true. by eapply fifo_close_repr.
  - injection Hs as <-. by constructor.
  - injection Hs as <-. by constructor.
Qed.
End Facts.

Lemma pp_quiet_star {S QR QT} `{FifoLaws QR ExecutionReport} `{FifoLaws QT Trade}
    (s0 s s' : PipelineSystem S QR QT) :
  pp_quiet s0 s -> star pipeline_quiet s s' -> pp_quiet s0 s'.
Proof. intros Hq Hs. induction Hs; [done|]. apply IHHs. by eapply pp_quiet_step. Qed.

(** When [stop] has not begun and no call is in progress, the dispatcher has not
    seen [running_] false. *)
Lemma pp_quiet_start {S QR QT} `{FifoLaws QR ExecutionReport} `{FifoLaws QT Trade}
    (s : PipelineSystem S QR QT) :
  pp_inv s -> pp_publishers s = ∅ -> pp_stopper s = PS_idle -> pp_quiet s s.
Proof.
  intros Hi Hp Hs. assert (running_ (pp_pipe s) = true) as Hrun.
  { destruct Hi as [(cr & ct & rs & ts & _ & _ & _ & Hph) _ _ _]. rewrite Hs in Hph. apply Hph. }
  destruct Hi as [Hqs Hh Hl He]. constructor; try done.
  - intros Hd. rewrite Hl in Hrun by tauto. done.
  - intros Hd. rewrite Hl in Hrun by tauto. done.
Qed.

(** A report that was looked up was looked up at some moment of the run. *)
Lemma looked_up_at {S QR QT} `{Fifo QR ExecutionReport} `{Fifo QT Trade}
    (s : PipelineSystem S QR QT) : pipeline_reachable s ->
  forall r o, (r, o) ∈ looked_up s ->
  exists s0, pipeline_reachable s0 /\ star pipeline_step s0 s /\
    get_session (er_client_id r) (pp_sessions s0) = o.
Proof.
  induction 1 as [s Hs|s s' Hr IH Hstep]; intros r o Hin.
  { rewrite Hs in Hin. by apply elem_of_nil in Hin. }
  assert ((r, o) ∈ looked_up s \/
    pp_dispatcher s = D_session r /\ o = get_session (er_client_id r) (pp_sessions s)) as [Hold|[_ ->]].
  - destruct Hstep as [a Ha]. destruct a as [tid m|tid| | |c x|c]; simpl in Ha.
    + destruct (pp_publishers s !! tid); [done|]. injection Ha as <-. by left.
    + unfold publisher_step in Ha. destruct (pp_publishers s !! tid) as [[m|m|m]|]; [| | |done];
        injection Ha as Ha; [by subst; left..|].
      apply obind_ok in Ha as ([[|] p] & _ & [= <-]); by left.
    + unfold dispatcher_step in Ha. destruct (pp_dispatcher s) eqn:Ed; try done; injection Ha as Ha;
        try (apply obind_ok in Ha as ([? ?] & _ & [= <-]); by left);
        try (apply obind_ok in Ha as (? & _ & [= <-]); by left); subst s'; simpl in Hin; try by left.
      apply elem_of_app in Hin as [Hin|Hin%list_elem_of_singleton]; [by left|].
      injection Hin as -> ->. by right.
    + unfold pipe_stopper_step in Ha. destruct (pp_stopper s); try done;
        [..|destruct (pp_dispatcher s); try done]; injection Ha as <-; by left.
    + injection Ha as <-. by left.
    + injection Ha as <-. by left.
  - destruct (IH r o Hold) as (s0 & Hs0 & Hstar & Hg). exists s0. split; [done|]. split; [|done].
    eapply star_trans; [done|by apply star_one].
  - exists s. split; [done|]. split; [by apply star_one|done].
Qed.

(** ** Properties *)

(** At every moment, under any interleaving of publishers, dispatcher,
    [stop] and sessions that come and go, the reports taken out are a prefix of
    the reports accepted, in that order; the calls of [send_execution_report]
    are those reports whose client had a session when it was looked up, each
    once, in order and to that session; and no step faults. *)
Theorem pipeline_in_order {S QR QT} `{FifoLaws QR ExecutionReport} `{FifoLaws QT Trade}
    (s : PipelineSystem S QR QT) :
  pipeline_reachable s ->
  (exists rest, queued s = (looked_up s).*1 ++ rest) /\
  (exists rest, sends_of (looked_up s) = handed s ++ rest) /\
  (forall r o, (r, o) ∈ looked_up s -> exists s0, pipeline_reachable s0 /\
     star pipeline_step s0 s /\ get_session (er_client_id r) (pp_sessions s0) = o) /\
  (forall a res, pipe_step a s = Some res -> exists s', res = Ok s').
Proof.
  intros Hr. pose proof (pipeline_reachable_inv s Hr) as Hi. split_and!.
  - destruct Hi as [(cr & ct & rs & ts & _ & _ & -> & _) _ _ _]. eauto.
  - destruct Hi as [_ -> _ _]. eauto.
  - by apply looked_up_at.
  - intros a res Ha. destruct (pipe_step_inv _ _ _ Hi Ha) as (s' & -> & _). eauto.
Qed.

Lemma pipe_run_reachable {S QR QT} `{Fifo QR ExecutionReport} `{Fifo QT Trade} acts :
  forall s s' : PipelineSystem S QR QT,
  pipeline_reachable s -> pipe_run acts s = Some (Ok s') -> pipeline_reachable s'.
Proof.
  induction acts as [|a acts IH]; intros s s' Hr; simpl; [by intros [= <-]|].
  destruct (pipe_step a s) as [[s1|f]|] eqn:Ha; try done. apply IH. eapply reach_step; [exact Hr|by exists a].
Qed.

Lemma pipe_run_quiet {S QR QT} `{Fifo QR ExecutionReport} `{Fifo QT Trade} acts :
  forall s s' : PipelineSystem S QR QT,
  Forall (fun a => forall tid m, a <> PA_publish tid m) acts ->
  pipe_run acts s = Some (Ok s') -> star pipeline_quiet s s'.
Proof.
  induction acts as [|a acts IH]; intros s s' Hq; simpl; [intros [= <-]; apply star_refl|].
  apply Forall_cons in Hq as [Ha Hq].
  destruct (pipe_step a s) as [[s1|f]|] eqn:Hs; try done. intros Hrun.
  eapply star_step; [by exists a|]. by apply IH.
Qed.

(** Two workers publish reports and a trade; client 2's session leaves and
    another takes its place between its two reports. *)
Definition w_pipe_actions : list (pipe_action nat) :=
  [PA_add 1 10; PA_add 2 20; PA_publish 1 (M_report (w_pipe_report 7 2));
   PA_publish 2 (M_report (w_pipe_report 8 3)); PA_publisher 2; PA_publisher 1; PA_publisher 1;
   PA_publisher 1; PA_publisher 2; PA_publisher 2; PA_dispatcher; PA_dispatcher; PA_dispatcher;
   PA_remove 2; PA_dispatcher; PA_add 2 21; PA_publish 1 (M_report (w_pipe_report 9 2));
   PA_publisher 1; PA_publisher 1; PA_publisher 1; PA_publish 1 (M_trade (mkTrade 1 "AAPL" 100 10 5));
   PA_publisher 1; PA_publisher 1; PA_publisher 1].

Definition w_pipe_stop : list (pipe_action nat) :=
  PA_stopper :: PA_stopper :: PA_stopper :: replicate 15 PA_dispatcher ++ [PA_stopper].

Definition w_pipe_system : PipelineSystem nat (MPSCQueue ExecutionReport) (MPSCQueue Trade) :=
  match pipe_run w_pipe_actions init_pipeline_system with Some (Ok s) => s | _ => init_pipeline_system end.

Lemma w_pipe_ran : pipe_run w_pipe_actions init_pipeline_system = Some (Ok w_pipe_system).
Proof. vm_compute. reflexivity. Qed.

Lemma w_pipe_reachable : pipeline_reachable w_pipe_system.
Proof. eapply pipe_run_reachable; [by apply reach_init|exact w_pipe_ran]. Qed.

Lemma pipeline_in_order_witness :
  pipeline_reachable w_pipe_system /\
  (looked_up w_pipe_system).*1 = [w_pipe_report 7 2] /\
  exists rest, queued w_pipe_system = (looked_up w_pipe_system).*1 ++ rest.
Proof.
  split; [exact w_pipe_reachable|]. split; [vm_compute; reflexivity|].
  exact (proj1 (pipeline_in_order w_pipe_system w_pipe_reachable)).
Defined.

(** When [stop] begins with no publishing call in progress and none starts,
    then once it has returned every report accepted before was taken out and
    handed to the session its client had at that moment, and no trade is left. *)
Theorem pipeline_drains {S QR QT} `{FifoLaws QR ExecutionReport} `{FifoLaws QT Trade}
    (s s' : PipelineSystem S QR QT) :
  pipeline_reachable s -> pp_publishers s = ∅ -> pp_stopper s = PS_idle ->
  star pipeline_quiet s s' -> pp_stopper s' = PS_end ->
  (looked_up s').*1 = queued s /\ handed s' = sends_of (looked_up s') /\
  exists c, fifo_repr (trade_queue_ (pp_pipe s')) c [].
Proof.
  intros Hi%pipeline_reachable_inv Hp Hs Hstar Hend.
  destruct (pp_quiet_star s s s' (pp_quiet_start s Hi Hp Hs) Hstar) as [[_ Hh _ He] _ Hq Hem Ht].
  specialize (He Hend). rewrite He in *. rewrite Hem, Hq by auto. split; [done|]. split; [|auto].
  rewrite Hh. simpl. by rewrite app_nil_r.
Qed.

Lemma pipeline_drains_witness : exists s' : PipelineSystem nat (MPSCQueue ExecutionReport) (MPSCQueue Trade),
  star pipeline_quiet w_pipe_system s' /\ pp_stopper s' = PS_end /\
  handed s' = [(20, w_pipe_report 7 2); (21, w_pipe_report 9 2)] /\ (looked_up s').*1 = queued w_pipe_system.
Proof.
  destruct (pipe_run w_pipe_stop w_pipe_system) as [[s'|]|] eqn:E.
  2,3: exfalso; vm_compute in E; discriminate E.
  exists s'. pose proof E as Hend. apply pipe_run_quiet in E; [|repeat constructor; done].
  assert (pp_stopper s' = PS_end /\ handed s' = [(20, w_pipe_report 7 2); (21, w_pipe_report 9 2)]) as [He Hh].
  { vm_compute in Hend. injection Hend as <-. split; reflexivity. }
  split; [exact E|]. split; [exact He|]. split; [exact Hh|].
  exact (proj1 (pipeline_drains w_pipe_system s' w_pipe_reachable eq_refl eq_refl E He)).
Defined.
