(* ===== verification/Ownership.v ===== *)
(** * Whose order a report is about

    Reports are routed by the client id they carry
    ([pipeline/execution_pipeline.cpp], [get_session(report.client_id)]).  The
    book copies it from the order the report is about: every report an operation
    of [engine/order_book.cpp] makes names an order and the client who submitted
    it, and so does every order that rests. *)

From stdpp Require Import base list gmap strings.
From Stdlib Require Import ZArith Lia.
From S2P Require Import Prelude StdMap Types MatchingEngine OrderIndex OrderBook Matching BookInv BookOps.
Local Open Scope exchange_scope.
Local Open Scope list_scope.

(** ** Definitions *)

Section Ownership.
(** Which client an order id belongs to; an id used twice belongs to both. *)
Context (own : OrderID -> Z -> Prop).

Definition owned (o : Order) : Prop := own (o_order_id o) (o_client_id o).
Definition report_owned (r : ExecutionReport) : Prop := own (er_order_id r) (er_client_id r).
Definition nodes_owned (ns : list (Z * Node)) : Prop := Forall (fun pn => owned (n_order pn.2)) ns.
Definition book_owned (b : OrderBook) : Prop := nodes_owned (book_nodes b).
Definition result_owned (res : MatchResult) : Prop := Forall report_owned (mr_execution_reports res).

(** Only a submitted order brings a new owner. *)
Definition op_owned (op : book_op) : Prop :=
  match op with OpSubmit o => owned o | _ => True end.

(** ** Facts *)

Lemma push_owned er res : report_owned er -> result_owned res -> result_owned (push_report er res).
Proof using. intros. apply Forall_app. split; [done|]. by constructor. Qed.

Lemma book_owned_sided t b :
  book_owned b <-> nodes_owned (flat (own_levels t b)) /\ nodes_owned (flat (opp_levels t b)).
Proof using.
  unfold book_owned, nodes_owned, book_nodes. rewrite Forall_app.
  destruct t; cbn [own_levels opp_levels]; tauto.
Qed.

Lemma trade_reports_owned t sym r x q : owned (r_incoming r) -> owned x ->
  Forall report_owned (trade_reports t sym r x q).
Proof using. intros Hi Hx. by destruct t; repeat constructor. Qed.

(** Matching trades between owned orders. *)
Lemma sweeps_owned t sym ns r ns' r' : Sweeps t sym ns r ns' r' ->
  nodes_owned ns -> owned (r_incoming r) -> result_owned (r_result r) ->
  nodes_owned ns' /\ owned (r_incoming r') /\ result_owned (r_result r').
Proof using.
  induction 1 as [r|ns r _|p n ns r _ _|p n ns r ns' r' _ _ _ IH|p n ns r _ _]; intros Hn Hi Hr; try done.
  - apply Forall_cons in Hn as [Hx Hn]. apply IH; [done|done|].
    apply Forall_app. split; [done|]. by apply trade_reports_owned.
  - apply Forall_cons in Hn as [Hx Hn]. split; [by constructor|]. split; [done|].
    apply Forall_app. split; [done|]. by apply trade_reports_owned.
Qed.

Lemma rest_order_owned t o b : book_ok b -> owned o -> book_owned b -> book_owned (rest_order t o b).
Proof using.
  intros Hb Ho [Hown Hopp]%(book_owned_sided t). apply (book_owned_sided t).
  pose proof (lv_sorted _ _ _ (sd_own _ _ _ _ _ (proj1 (book_sided t b) Hb))) as Hs.
  destruct (push_level (own_cmp t) (o_price o) (mkNode (next_addr b) o) _ Hs) as (l1 & l2 & Hf & Hf' & _).
  assert (flat (own_levels t (rest_order t o b)) = l1 ++ (o_price o, mkNode (next_addr b) o) :: l2) as ->
    by (rewrite <- Hf'; by destruct t).
  assert (opp_levels t (rest_order t o b) = opp_levels t b) as -> by by destruct t.
  split; [|done]. unfold nodes_owned in *. rewrite Hf in Hown. rewrite Forall_app, Forall_cons in *. naive_solver.
Qed.

Lemma finish_owned t b r : book_ok b -> owned (r_incoming r) -> result_owned (r_result r) ->
  book_owned b -> book_owned (finish_order t b r).1.1 /\ result_owned (finish_order t b r).1.2.
Proof using.
  intros Hb Hi Hr Hown. unfold finish_order. destruct (0 <? _)%Z; [|done].
  destruct (is_limit _); simpl.
  - destruct (_ =? _)%Z; simpl; split; try (by apply rest_order_owned); [by apply push_owned|done].
  - split; [done|]. by apply push_owned.
Qed.

Lemma submit_internal_owned o res b env b' res' env' :
  book_ok b -> rem_ok o -> owned o -> result_owned res -> book_owned b ->
  submitOrderInternal o res b env = Ok (b', res', env') -> book_owned b' /\ result_owned res'.
Proof using.
  intros Hb Hrem Ho Hres Hown Hs.
  destruct (submit_unfold o res b env Hb Hrem) as (opp' & r' & gone & left & He & Hsw & _ & Hb' & _).
  rewrite He in Hs. injection Hs as Hs.
  apply (book_owned_sided (taker_of (o_side o))) in Hown as [Hown Hopp].
  destruct (sweeps_owned _ _ _ _ _ _ Hsw Hopp Ho Hres) as (Hopp' & Hi & Hr).
  destruct (finish_owned (taker_of (o_side o)) _ r' Hb' Hi Hr) as [H1 H2].
  - apply (book_owned_sided (taker_of (o_side o))). unfold matched_book.
    rewrite own_set_index, opp_set_index, own_set_sides, opp_set_sides. done.
  - by rewrite Hs in H1, H2.
Qed.

(** What is left of a book after the order at a node was taken out. *)
Lemma unlinked_owned t ix own' l1 l2 pn b : book_owned b ->
  flat (own_levels t b) = l1 ++ pn :: l2 -> flat own' = l1 ++ l2 ->
  owned (n_order pn.2) /\ book_owned (set_index ix (set_sides t own' (opp_levels t b) b)).
Proof using.
  intros [Hown Hopp]%(book_owned_sided t) Hf Hf'. unfold nodes_owned in *. rewrite Hf in Hown.
  rewrite Forall_app, Forall_cons in Hown. destruct Hown as (H1 & Hx & H2). split; [done|].
  apply (book_owned_sided t). rewrite own_set_index, opp_set_index, own_set_sides, opp_set_sides.
  split; [|done]. unfold nodes_owned. rewrite Hf', Forall_app. done.
Qed.

(** Every operation keeps the owners of the resting orders and reports to them. *)
Lemma apply_op_owned {L} (lf : option (L -> L)) op b env l b' res env' l' :
  book_ok b -> op_ok op -> op_owned op -> book_owned b ->
  apply_op op lf b env l = Ok (b', res, env', l') -> book_owned b' /\ result_owned res.
Proof using.
  intros Hb Hok Hop Hown Ha. assert (result_owned empty_result) as He by constructor.
  destruct op as [o|id|req]; simpl in Ha.
  - unfold submitOrder in Ha. apply obind_ok in Ha as ([[b1 r1] e1] & Hs & [=]). subst.
    by eapply submit_internal_owned in Hs.
  - pose proof (cancel_unfold lf l id empty_result b env Hb) as Hc.
    destruct (order_index_ b !! id) as [e|].
    + destruct Hc as (n & own' & l1 & l2 & Hc & Hid & _ & Hf & Hf' & _). rewrite Hc in Ha.
      injection Ha as <- <- _ _. destruct (unlinked_owned _ (delete id (order_index_ b)) _ _ _ _ b Hown Hf Hf')
        as [Hn Hb']. split; [done|]. apply push_owned; [|done].
      unfold report_owned. simpl. unfold owned in Hn. simpl in Hn. by rewrite Hid in Hn.
    + rewrite Hc in Ha. by injection Ha as <- <- _ _.
  - pose proof (modify_unfold lf l req empty_result b env Hb) as Hm.
    destruct (order_index_ b !! m_order_id req) as [e|].
    + destruct Hm as (n & own' & l1 & l2 & Hm & Hid & _ & Hf & Hf' & Hb'). rewrite Hm in Ha.
      apply obind_ok in Ha as ([[[[f b2] r2] e2] l2'] & Ha & [=]). subst.
      apply obind_ok in Ha as ([[b3 r3] e3] & Hs & [=]). subst.
      destruct (unlinked_owned _ (delete (m_order_id req) (order_index_ b)) _ _ _ _ b Hown Hf Hf') as [Hn Hb2].
      by eapply submit_internal_owned in Hs.
    + rewrite Hm in Ha. by injection Ha as <- <- _ _.
Qed.

Lemma new_book_owned sym : book_owned (new_book sym).
Proof using. constructor. Qed.
End Ownership.

Lemma book_owned_mono (own own' : OrderID -> Z -> Prop) b :
  (forall i c, own i c -> own' i c) -> book_owned own b -> book_owned own' b.
Proof. intros Hi Hb. eapply Forall_impl; [exact Hb|]. intros pn. unfold owned. auto. Qed.
