(* ===== verification/PoolTrace.v ===== *)
(** * What becomes of every task

    The pool of [ThreadPool] with a record of the tasks it was given and of the
    result of each book operation, and the invariant that relates them: every
    task is waiting, with a worker, or has been executed once; every report and
    trade of a result is with the worker or has been published once, the reports
    of one operation in order; and every report names an order and the client who
    submitted it. *)

From stdpp Require Import base list gmap strings.
From Stdlib Require Import ZArith Lia Ascii.
From S2P Require Import Prelude Types Bytes BinarySerializer OrderBook BookInv BookOps BookRegistry SafeQueue Wal ThreadPool Recovery Ownership.
Local Open Scope exchange_scope.
Local Open Scope list_scope.

(** ** Definitions *)

Record PoolTrace : Type := mkPoolTrace {
  pt_pool : PoolSystem;
  pt_submitted : list Task;
  pt_results : list (Task * MatchResult) }.

(** A worker that leaves the critical section has a result. *)
Definition record_result (i : nat) (p p' : PoolSystem) (rs : list (Task * MatchResult))
    : list (Task * MatchResult) :=
  match ps_workers p !! i, ps_workers p' !! i with
  | Some (WK_locked t _), Some (WK_fills res _) => rs ++ [(t, res)]
  | _, _ => rs
  end.

Definition pool_action_ok (a : pool_action) : Prop :=
  match a with PA_submit t => task_ok t | PA_worker _ => True end.

(** A step of the pool, over some bytes on the stack. *)
Definition trace_step (q q' : PoolTrace) : Prop :=
  exists (junk junk8 : nat -> list ascii) (a : pool_action),
    (forall n, length (junk n) = 52) /\ (forall n, length (junk8 n) = 8) /\ pool_action_ok a /\
    pstep true true junk junk8 a (pt_pool q) = Some (Ok (pt_pool q')) /\
    pt_submitted q' = match a with PA_submit t => pt_submitted q ++ [t] | _ => pt_submitted q end /\
    pt_results q' = match a with
                    | PA_worker i => record_result i (pt_pool q) (pt_pool q') (pt_results q)
                    | _ => pt_results q end.

(** What a worker has in hand. *)
Definition task_in_hand (w : worker) : list Task :=
  match w with WK_task t | WK_book t | WK_locked t _ => [t] | _ => [] end.

Definition reports_in_hand (w : worker) : list ExecutionReport :=
  match w with
  | WK_fills res _ => mr_execution_reports res
  | WK_reports rs _ => rs
  | _ => []
  end.

Definition trades_in_hand (w : worker) : list Trade :=
  match w with
  | WK_fills res _ => trade_of <$> mr_fills res
  | WK_reports _ fs | WK_trades fs => trade_of <$> fs
  | _ => []
  end.

(** All that the workers have in hand. *)
Definition in_hands {A} (f : worker -> list A) (ws : gmap nat worker) : list A :=
  map_to_list ws ≫= fun iw => f iw.2.

Definition at_worker {A} (f : worker -> list A) (ws : gmap nat worker) (i : nat) : list A :=
  match ws !! i with Some w => f w | None => [] end.

Definition result_reports (rs : list (Task * MatchResult)) : list ExecutionReport :=
  rs ≫= fun tr => mr_execution_reports tr.2.

Definition result_trades (rs : list (Task * MatchResult)) : list Trade :=
  rs ≫= fun tr => trade_of <$> mr_fills tr.2.

(** The clients who submitted an order of the given id. *)
Definition owner (ts : list Task) (id : OrderID) (c : Z) : Prop :=
  exists t o, t ∈ ts /\ task_type t = T_Submit /\ task_request t = ReqOrder o /\
    o_order_id o = id /\ o_client_id o = c.

(** The reports of a result are published in order, the worker having the rest. *)
Definition in_order (p : PoolSystem) (res : MatchResult) : Prop :=
  exists sent rest, mr_execution_reports res = sent ++ rest /\
    sublist sent (published_reports (ps_sinks p)) /\
    (rest = [] \/ exists i w, ps_workers p !! i = Some w /\ reports_in_hand w = rest).

Record trace_inv (env0 : Env) (q : PoolTrace) : Prop := mkTraceInv {
  ti_pool : pool_inv env0 (pt_pool q);
  ti_tasks : pt_submitted q ≡ₚ
    ps_tasks (pt_pool q) ++ in_hands task_in_hand (ps_workers (pt_pool q)) ++ (pt_results q).*1;
  ti_reports : result_reports (pt_results q) ≡ₚ
    published_reports (ps_sinks (pt_pool q)) ++ in_hands reports_in_hand (ps_workers (pt_pool q));
  ti_trades : result_trades (pt_results q) ≡ₚ
    published_trades (ps_sinks (pt_pool q)) ++ in_hands trades_in_hand (ps_workers (pt_pool q));
  ti_order : Forall (fun tr => in_order (pt_pool q) tr.2) (pt_results q);
  ti_books : map_Forall (fun _ b => book_owned (owner (pt_submitted q)) b) (books_ (ps_registry (pt_pool q)));
  ti_owned : Forall (fun tr => result_owned (owner (pt_submitted q)) tr.2) (pt_results q) }.

(** ** What is in the workers' hands *)

Lemma in_hands_split {A} (f : worker -> list A) ws i :
  in_hands f ws ≡ₚ at_worker f ws i ++ in_hands f (delete i ws).
Proof.
  unfold in_hands, at_worker. destruct (ws !! i) as [w|] eqn:Hi.
  - rewrite <- (insert_delete_id ws i w Hi) at 1.
    rewrite map_to_list_insert by apply lookup_delete_eq. done.
  - by rewrite delete_id by done.
Qed.

Lemma in_hands_empty {A} (f : worker -> list A) : in_hands f ∅ = [].
Proof. unfold in_hands. by rewrite map_to_list_empty. Qed.

(** A step moves one worker. *)
Lemma worker_step_others wal pipe junk junk8 i p p' : worker_step wal pipe junk junk8 i p = Some (Ok p') ->
  delete i (ps_workers p') = delete i (ps_workers p).
Proof.
  unfold worker_step. intros Hs.
  destruct (ps_workers p !! i) as [[t|t|t op|res [|f fs]|[|er rs] fs|[|f fs]]|];
    try (destruct (task_op t); [destruct (bool_decide _); [|done]|]); try (destruct (ps_tasks p); [done|]);
    injection Hs as Hs; try (apply obind_ok in Hs as ([r [res env]] & _ & [= <-])); try subst p'; simpl;
    by rewrite ?delete_insert_eq, ?delete_delete_eq.
Qed.

Lemma perm_pull {A} (x y h z : list A) : x ++ (y ++ h) ++ z ≡ₚ h ++ x ++ y ++ z.
Proof.
  rewrite (Permutation_app_comm y h), <- app_assoc, (app_assoc x h), (Permutation_app_comm x h).
  by rewrite <- app_assoc.
Qed.

(** When worker [i] has moved, only its part matters. *)
Lemma perm_around {A} (f : worker -> list A) ws ws' i (l l' m m' : list A) :
  delete i ws' = delete i ws -> l' ++ at_worker f ws' i ++ m' ≡ₚ l ++ at_worker f ws i ++ m ->
  l' ++ in_hands f ws' ++ m' ≡ₚ l ++ in_hands f ws ++ m.
Proof.
  intros Hd Hp. rewrite (in_hands_split f ws' i), (in_hands_split f ws i), Hd, !perm_pull. by rewrite Hp.
Qed.

(** The cases of a worker's step; [Hi] is the state of the worker. *)
Local Ltac worker_cases Hs Hi :=
  unfold worker_step in Hs;
  match type of Hs with
  | context [ps_workers ?p !! ?i] =>
      destruct (ps_workers p !! i) as [[t|t|t op|res [|f fs]|[|er rs'] fs|[|f fs]]|] eqn:Hi
  end.

Section Steps.
Context (env0 : Env) (junk junk8 : nat -> list ascii).
Implicit Types p : PoolSystem.

Lemma worker_task_op i t p : pool_inv env0 p -> ps_workers p !! i = Some (WK_book t) ->
  exists op, task_op t = Some op.
Proof using.
  intros Hinv Hi. destruct (pi_workers _ _ Hinv _ _ Hi) as [Hok _].
  destruct (task_op_ok t Hok) as (op & Hop & _). eauto.
Qed.

Lemma tasks_moved i p p' rs : pool_inv env0 p -> worker_step true true junk junk8 i p = Some (Ok p') ->
  ps_tasks p' ++ at_worker task_in_hand (ps_workers p') i ++ (record_result i p p' rs).*1
    ≡ₚ ps_tasks p ++ at_worker task_in_hand (ps_workers p) i ++ rs.*1.
Proof using.
  intros Hinv Hs. unfold at_worker, record_result. worker_cases Hs Hi.
  3:{ injection Hs as Hs. apply obind_ok in Hs as ([r [res env]] & _ & [= <-]). simpl.
      rewrite lookup_insert_eq. simpl. rewrite fmap_app. simpl. f_equiv. apply Permutation_app_comm. }
  2:{ destruct (worker_task_op i t p Hinv Hi) as [op Hop]. rewrite Hop in Hs.
      destruct (bool_decide _); [|done]. injection Hs as <-. simpl. by rewrite lookup_insert_eq. }
  8:{ destruct (ps_tasks p) as [|t ts]; [done|]. injection Hs as <-. simpl. rewrite lookup_insert_eq.
      simpl. symmetry. apply Permutation_middle. }
  all: injection Hs as <-; simpl; by rewrite ?lookup_insert_eq, ?lookup_delete_eq.
Qed.

(** The reports of the result a step produces, if it does. *)
Lemma reports_moved i p p' rs : pool_inv env0 p -> worker_step true true junk junk8 i p = Some (Ok p') ->
  exists new, result_reports (record_result i p p' rs) = result_reports rs ++ new /\
    published_reports (ps_sinks p') ++ at_worker reports_in_hand (ps_workers p') i
      ≡ₚ published_reports (ps_sinks p) ++ at_worker reports_in_hand (ps_workers p) i ++ new.
Proof using.
  intros Hinv Hs. unfold at_worker, record_result. worker_cases Hs Hi.
  3:{ injection Hs as Hs. apply obind_ok in Hs as ([r [res env]] & _ & [= <-]). simpl.
      exists (mr_execution_reports res). rewrite lookup_insert_eq. simpl. unfold result_reports.
      rewrite bind_app. simpl. by rewrite app_nil_r. }
  2:{ destruct (worker_task_op i t p Hinv Hi) as [op Hop]. rewrite Hop in Hs.
      destruct (bool_decide _); [|done]. injection Hs as <-. exists []. simpl.
      rewrite lookup_insert_eq, app_nil_r. split; [done|]. simpl. unfold log_action. done. }
  8:{ destruct (ps_tasks p) as [|t ts]; [done|]. injection Hs as <-. exists []. simpl.
      by rewrite lookup_insert_eq, !app_nil_r. }
  all: injection Hs as <-; exists []; simpl;
    rewrite ?lookup_insert_eq, ?lookup_delete_eq, ?app_nil_r; try done.
  split; [done|]. simpl. by rewrite <- app_assoc.
Qed.

Lemma trades_moved i p p' rs : pool_inv env0 p -> worker_step true true junk junk8 i p = Some (Ok p') ->
  exists new, result_trades (record_result i p p' rs) = result_trades rs ++ new /\
    published_trades (ps_sinks p') ++ at_worker trades_in_hand (ps_workers p') i
      ≡ₚ published_trades (ps_sinks p) ++ at_worker trades_in_hand (ps_workers p) i ++ new.
Proof using.
  intros Hinv Hs. unfold at_worker, record_result. worker_cases Hs Hi.
  3:{ injection Hs as Hs. apply obind_ok in Hs as ([r [res env]] & _ & [= <-]). simpl.
      exists (trade_of <$> mr_fills res). rewrite lookup_insert_eq. simpl. unfold result_trades.
      rewrite bind_app. simpl. by rewrite app_nil_r. }
  2:{ destruct (worker_task_op i t p Hinv Hi) as [op Hop]. rewrite Hop in Hs.
      destruct (bool_decide _); [|done]. injection Hs as <-. exists []. simpl.
      by rewrite lookup_insert_eq, app_nil_r. }
  8:{ destruct (ps_tasks p) as [|t ts]; [done|]. injection Hs as <-. exists []. simpl.
      by rewrite lookup_insert_eq, !app_nil_r. }
  all: injection Hs as <-; exists []; simpl;
    rewrite ?lookup_insert_eq, ?lookup_delete_eq, ?app_nil_r; try done.
  split; [done|]. simpl. by rewrite <- app_assoc.
Qed.

(** Publishing keeps the order within each result. *)
Lemma in_order_step i p p' res : worker_step true true junk junk8 i p = Some (Ok p') ->
  in_order p res -> in_order p' res.
Proof using.
  intros Hs (sent & rest & He & Hsub & Hw). pose proof (worker_step_others _ _ _ _ _ _ _ Hs) as Hoth.
  assert (forall j w, j <> i -> ps_workers p !! j = Some w -> ps_workers p' !! j = Some w) as Hj.
  { intros j w Hne Hj. rewrite <- (lookup_delete_ne _ i j), Hoth, lookup_delete_ne by done. done. }
  assert (exists new, published_reports (ps_sinks p') = published_reports (ps_sinks p) ++ new /\
    (new = [] /\ (forall rest, rest <> [] -> at_worker reports_in_hand (ps_workers p) i = rest ->
                    at_worker reports_in_hand (ps_workers p') i = rest) \/
     exists r rs, new = [r] /\ at_worker reports_in_hand (ps_workers p) i = r :: rs /\
       at_worker reports_in_hand (ps_workers p') i = rs)) as (new & Hnew & Hcase).
  { clear -Hs. unfold at_worker. worker_cases Hs Hi.
    3:{ injection Hs as Hs. apply obind_ok in Hs as ([r [res env]] & _ & [= <-]). exists [].
        rewrite app_nil_r. split; [done|]. left. by split; [|intros [|] ? [=]]. }
    2:{ destruct (task_op t); [destruct (bool_decide _); [|done]|]; injection Hs as <-; exists [];
        rewrite app_nil_r; (split; [done|]; left; by split; [|intros [|] ? [=]]). }
    8:{ destruct (ps_tasks p); [done|]. injection Hs as <-. exists []. rewrite app_nil_r.
        split; [done|]. left. by split; [|intros [|] ? [=]]. }
    5:{ injection Hs as <-. exists [er]. split; [done|]. right. exists er, rs'. simpl. by rewrite lookup_insert_eq. }
    all: injection Hs as <-; exists []; rewrite app_nil_r; (split; [done|]); left; (split; [done|]);
      intros [|r rest] Hne He; try done; simpl; by rewrite ?lookup_insert_eq. }
  assert (sublist sent (published_reports (ps_sinks p'))) as Hsub'.
  { rewrite Hnew. etrans; [exact Hsub|]. by apply sublist_inserts_r. }
  destruct Hw as [->|(j & w & Hjw & Hr)]; [exists sent, []; auto|].
  destruct (decide (rest = [])) as [->|Hne]; [exists sent, []; auto|].
  destruct (decide (j = i)) as [->|Hji].
  2:{ exists sent, rest. split; [done|]. split; [done|]. right. exists j, w. auto. }
  assert (at_worker reports_in_hand (ps_workers p) i = rest) as Hat by (unfold at_worker; by rewrite Hjw).
  assert (forall rest', at_worker reports_in_hand (ps_workers p') i = rest' ->
    rest' = [] \/ exists i w, ps_workers p' !! i = Some w /\ reports_in_hand w = rest') as Hback.
  { unfold at_worker. intros rest'. destruct (ps_workers p' !! i) as [w'|] eqn:Hw'; [|by left].
    intros Hr'. right. by exists i, w'. }
  destruct Hcase as [[-> Hkeep]|(r & rs & -> & Hat1 & Hat2)].
  - exists sent, rest. auto.
  - rewrite Hat1 in Hat. subst rest. exists (sent ++ [r]), rs. rewrite <- app_assoc.
    split; [by rewrite He, <- Hat|]. split; [|auto]. rewrite Hnew. by apply sublist_app.
Qed.
End Steps.

(** ** Owners *)

Lemma owner_mono ts ts' id c : ts ⊆ ts' -> owner ts id c -> owner ts' id c.
Proof. intros Hsub (t & o & Ht & H). exists t, o. split; [by apply Hsub|done]. Qed.

Lemma books_owned_mono (ts ts' : list Task) (r : BookRegistry) : ts ⊆ ts' ->
  map_Forall (fun _ b => book_owned (owner ts) b) (books_ r) ->
  map_Forall (fun _ b => book_owned (owner ts') b) (books_ r).
Proof.
  intros Hsub Hb sym b Hsym. eapply book_owned_mono; [|exact (Hb sym b Hsym)].
  intros id c. by apply owner_mono.
Qed.

Lemma results_owned_mono (ts ts' : list Task) (rs : list (Task * MatchResult)) : ts ⊆ ts' ->
  Forall (fun tr => result_owned (owner ts) tr.2) rs -> Forall (fun tr => result_owned (owner ts') tr.2) rs.
Proof.
  intros Hsub Hrs. eapply Forall_impl; [exact Hrs|]. intros tr Htr. eapply Forall_impl; [exact Htr|].
  intros r. by apply owner_mono.
Qed.

Lemma task_op_owned ts t op : t ∈ ts -> task_op t = Some op -> op_owned (owner ts) op.
Proof.
  unfold task_op. intros Ht. destruct (task_type t) eqn:Hty, (task_request t) eqn:Hreq; try done;
    intros [= <-]; [|done..]. exists t, o. done.
Qed.

(** The books and the results keep their owners. *)
Lemma owned_step env0 junk junk8 i p p' rs ts :
  pool_inv env0 p -> worker_step true true junk junk8 i p = Some (Ok p') ->
  (forall t op, ps_workers p !! i = Some (WK_locked t op) -> t ∈ ts) ->
  map_Forall (fun _ b => book_owned (owner ts) b) (books_ (ps_registry p)) ->
  Forall (fun tr => result_owned (owner ts) tr.2) rs ->
  map_Forall (fun _ b => book_owned (owner ts) b) (books_ (ps_registry p')) /\
  Forall (fun tr => result_owned (owner ts) tr.2) (record_result i p p' rs).
Proof.
  intros Hinv Hs Hin Hb Hr. unfold record_result. worker_cases Hs Hi.
  3:{ injection Hs as Hs. apply obind_ok in Hs as ([r [res env]] & Hwb & [= <-]). simpl.
      rewrite lookup_insert_eq.
      destruct (pi_workers _ _ Hinv _ _ Hi) as (Htok & Hop & [b Hbk]). simpl in Hbk.
      destruct (task_op_ok t Htok) as (op1 & Hop1 & Hok). rewrite Hop in Hop1. injection Hop1 as <-.
      destruct (pi_registry _ _ Hinv _ _ Hbk) as [_ Hbok].
      unfold with_book in Hwb. rewrite Hbk in Hwb. cbn [of_option obind] in Hwb.
      apply obind_ok in Hwb as ([b' a] & Ha & [= <- ->]).
      apply obind_ok in Ha as ([[[b2 res2] env2] u] & Ha & [= -> -> ->]).
      destruct (apply_op_owned (owner ts) None op b (ps_env p) tt b' res env u Hbok Hok) as [Hb' Hres].
      - eapply task_op_owned; [by eapply Hin|exact Hop].
      - exact (Hb _ _ Hbk).
      - exact Ha.
      - split; [by apply map_Forall_insert_2|]. apply Forall_app. split; [done|]. by constructor. }
  2:{ destruct (worker_task_op env0 i t p Hinv Hi) as [op Hop]. rewrite Hop in Hs.
      destruct (bool_decide _); [|done]. by injection Hs as <-. }
  8:{ destruct (ps_tasks p) as [|t ts']; [done|]. by injection Hs as <-. }
  all: injection Hs as <-; try done.
  split; [|done]. simpl. destruct (get_order_book_spec (task_symbol t) (ps_registry p)) as [_ ->].
  apply map_Forall_insert_2; [|done]. unfold book_of.
  destruct (books_ (ps_registry p) !! task_symbol t) as [b|] eqn:Hbk; [exact (Hb _ _ Hbk)|].
  apply new_book_owned.
Qed.

(** ** The invariant *)

Lemma init_trace_inv env0 env : trace_inv env0 (mkPoolTrace (init_pool env) [] []).
Proof. constructor; simpl; try done. apply init_pool_inv. Qed.

Lemma trace_submit_inv env0 t q : trace_inv env0 q -> task_ok t ->
  let p := pt_pool q in
  trace_inv env0 (mkPoolTrace
    (mkPoolSystem (ps_registry p) (ps_env p) (ps_sinks p) (ps_tasks p ++ [t]) (ps_workers p))
    (pt_submitted q ++ [t]) (pt_results q)).
Proof.
  intros [Hp Ht Hr Htr Ho Hb Hres] Hok p.
  assert (pt_submitted q ⊆ pt_submitted q ++ [t]) as Hsub by set_solver.
  constructor; simpl; try done.
  - destruct Hp. constructor; try done. simpl. apply Forall_app. auto.
  - fold p. rewrite Ht. fold p. generalize (in_hands task_in_hand (ps_workers p) ++ (pt_results q).*1).
    intros l. rewrite <- !app_assoc. f_equiv. apply Permutation_app_comm.
  - by eapply books_owned_mono.
  - by eapply results_owned_mono.
Qed.

Lemma trace_worker_inv env0 junk junk8 i p' q : (forall n, length (junk n) = 52) ->
  (forall n, length (junk8 n) = 8) -> trace_inv env0 q ->
  worker_step true true junk junk8 i (pt_pool q) = Some (Ok p') ->
  trace_inv env0 (mkPoolTrace p' (pt_submitted q) (record_result i (pt_pool q) p' (pt_results q))).
Proof.
  intros Hj Hj8 [Hp Ht Hr Htr Ho Hb Hres] Hs. set (p := pt_pool q) in *.
  pose proof (worker_step_others _ _ _ _ _ _ _ Hs) as Hd.
  destruct (owned_step env0 junk junk8 i p p' (pt_results q) (pt_submitted q) Hp Hs) as [Hb' Hres'];
    [|done|done|].
  { intros t op Hi. rewrite Ht, (in_hands_split task_in_hand _ i). unfold at_worker. rewrite Hi. set_solver. }
  constructor; simpl; try done.
  - by destruct (worker_step_inv true junk junk8 env0 Hj Hj8 i p _ Hp Hs) as (s' & [= <-] & Hp').
  - rewrite Ht. symmetry. apply perm_around with i; [done|].
    exact (tasks_moved env0 junk junk8 i p p' (pt_results q) Hp Hs).
  - destruct (reports_moved env0 junk junk8 i p p' (pt_results q) Hp Hs) as (new & -> & Hm).
    rewrite Hr, <- app_assoc. symmetry. rewrite <- (app_nil_r (in_hands _ (ps_workers p'))).
    apply perm_around with i; [done|]. by rewrite app_nil_r.
  - destruct (trades_moved env0 junk junk8 i p p' (pt_results q) Hp Hs) as (new & -> & Hm).
    rewrite Htr, <- app_assoc. symmetry. rewrite <- (app_nil_r (in_hands _ (ps_workers p'))).
    apply perm_around with i; [done|]. by rewrite app_nil_r.
  - assert (Forall (fun tr => in_order p' tr.2) (pt_results q)) as Hold.
    { eapply Forall_impl; [exact Ho|]. intros tr. by apply (in_order_step junk junk8 i). }
    unfold record_result. destruct (ps_workers p !! i) as [[]|]; try done.
    destruct (ps_workers p' !! i) as [[| | |res fs| |]|] eqn:Hi'; try done.
    apply Forall_app. split; [done|]. constructor; [|constructor]. simpl.
    exists [], (mr_execution_reports res). split; [done|]. split; [apply sublist_nil_l|]. right. eauto.
Qed.

Lemma trace_step_inv env0 q q' : trace_inv env0 q -> trace_step q q' -> trace_inv env0 q'.
Proof.
  intros Hinv (junk & junk8 & a & Hj & Hj8 & Hok & Hs & Hsub & Hres).
  destruct q' as [p' sub' rs']. simpl in *. subst. destruct a as [t|i]; simpl in Hs.
  - injection Hs as <-. by apply trace_submit_inv.
  - by eapply trace_worker_inv.
Qed.
