(* ===== verification/Exchange.v ===== *)
(** * The exchange: workers, log and pipeline together

    The threads of [demo_main.cpp] from the task queue on: the workers of
    [threadpool/thread_pool.cpp], each in its calls of [wal_->log_..] and
    [pipeline_->publish_..] step by step ([WalSystem], [PipelineSystem]), the
    flusher, the dispatcher, sessions that come and go, and the main thread,
    which shuts the pool, the log and the pipeline down in that order.  The
    mutex of a book is held from before the logging call to the end of the
    match. *)

From stdpp Require Import base list gmap strings.
From Stdlib Require Import ZArith Lia Ascii.
From S2P Require Import Prelude Types Bytes BinarySerializer Fifo OrderBook BookOps BookRegistry SafeQueue Wal WalSystem ConnectionManager PipelineSystem ThreadPool PoolTrace.
Local Open Scope exchange_scope.
Local Open Scope list_scope.

(** ** Definitions *)

(** The main thread: serving, in [pool.shutdown()] joining the workers, in
    [wal.stop()], in [pipeline.stop()], past it. *)
Inductive main_phase : Type := MP_run | MP_join | MP_wal | MP_pipeline | MP_done.

Section Exchange.
Context {S QW QR QT : Type} `{Fifo QW WALEntry} `{Fifo QR ExecutionReport} `{Fifo QT Trade}.

(** [ex_submitted] lists the tasks accepted and [ex_results] the results of the
    book operations, in order. *)
Record ExchangeSystem : Type := mkExchangeSystem {
  ex_registry : BookRegistry;
  ex_env : Env;
  ex_tasks : list Task;
  ex_workers : gmap nat worker;
  ex_wal : WalSystem QW;
  ex_pipe : PipelineSystem S QR QT;
  ex_phase : main_phase;
  ex_submitted : list Task;
  ex_results : list (Task * MatchResult) }.

Definition init_exchange (env : Env) : ExchangeSystem :=
  mkExchangeSystem new_registry env [] ∅ init_wal_system init_pipeline_system MP_run [] [].

(** The pool of [ThreadPool], whose records and reports are those that the
    queues accepted. *)
Definition pool_of (x : ExchangeSystem) : PoolSystem :=
  mkPoolSystem (ex_registry x) (ex_env x)
    (mkSinks (logged (ex_wal x)) (queued (ex_pipe x)) (queued_trades (ex_pipe x)))
    (ex_tasks x) (ex_workers x).

Definition trace_of (x : ExchangeSystem) : PoolTrace :=
  mkPoolTrace (pool_of x) (ex_submitted x) (ex_results x).

Definition set_pool (p : PoolSystem) (results : list (Task * MatchResult)) (x : ExchangeSystem) : ExchangeSystem :=
  mkExchangeSystem (ps_registry p) (ps_env p) (ps_tasks p) (ps_workers p) (ex_wal x) (ex_pipe x)
    (ex_phase x) (ex_submitted x) results.
Definition set_wal (w : WalSystem QW) (x : ExchangeSystem) : ExchangeSystem :=
  mkExchangeSystem (ex_registry x) (ex_env x) (ex_tasks x) (ex_workers x) w (ex_pipe x)
    (ex_phase x) (ex_submitted x) (ex_results x).
Definition set_pipe (p : PipelineSystem S QR QT) (x : ExchangeSystem) : ExchangeSystem :=
  mkExchangeSystem (ex_registry x) (ex_env x) (ex_tasks x) (ex_workers x) (ex_wal x) p
    (ex_phase x) (ex_submitted x) (ex_results x).
Definition put_worker (i : nat) (w : worker) (x : ExchangeSystem) : ExchangeSystem :=
  mkExchangeSystem (ex_registry x) (ex_env x) (ex_tasks x) (<[ i := w ]> (ex_workers x)) (ex_wal x)
    (ex_pipe x) (ex_phase x) (ex_submitted x) (ex_results x).
Definition set_phase (ph : main_phase) (x : ExchangeSystem) : ExchangeSystem :=
  mkExchangeSystem (ex_registry x) (ex_env x) (ex_tasks x) (ex_workers x) (ex_wal x) (ex_pipe x)
    ph (ex_submitted x) (ex_results x).

(** Whether worker [i], in state [w], holds the mutex of the book of [sym]. *)
Definition holds (sym : Symbol) (wal : WalSystem QW) (i : nat) (w : worker) : bool :=
  match w with
  | WK_locked t _ => bool_decide (task_symbol t = sym)
  | WK_book t => bool_decide (task_symbol t = sym) && bool_decide (is_Some (ws_writers wal !! i))
  | _ => false
  end.

Definition book_free (sym : Symbol) (x : ExchangeSystem) : Prop :=
  map_Forall (fun i w => holds sym (ex_wal x) i w = false) (ex_workers x).

#[export] Instance book_free_dec sym x : Decision (book_free sym x).
Proof using. unfold book_free. apply _. Defined.

(** The state of a worker after the call it makes in state [w] has returned. *)
Definition call_returned (w : worker) : worker :=
  match w with
  | WK_book t => match task_op t with Some op => WK_locked t op | None => w end
  | WK_fills res (_ :: fs) => WK_fills res fs
  | WK_reports (_ :: rs) fs => WK_reports rs fs
  | WK_trades (_ :: fs) => WK_trades fs
  | w => w
  end.

Definition return_if (returned : bool) (i : nat) (x : ExchangeSystem) : ExchangeSystem :=
  match ex_workers x !! i with
  | Some w => if returned then put_worker i (call_returned w) x else x
  | None => x
  end.

(** A step of worker [i] inside [wal_->log_..]. *)
Definition in_wal_call (i : nat) (x : ExchangeSystem) : option (outcome ExchangeSystem) :=
  match writer_step i (ex_wal x) with
  | None => None
  | Some r => Some (let* w := r in
      Ok (return_if (bool_decide (ws_writers w !! i = None)) i (set_wal w x)))
  end.

(** A step of worker [i] inside [pipeline_->publish_..]. *)
Definition in_pipe_call (i : nat) (x : ExchangeSystem) : option (outcome ExchangeSystem) :=
  match publisher_step i (ex_pipe x) with
  | None => None
  | Some r => Some (let* p := r in
      Ok (return_if (bool_decide (pp_publishers p !! i = None)) i (set_pipe p x)))
  end.

Definition call_wal (i : nat) (e : WALEntry) (x : ExchangeSystem) : option (outcome ExchangeSystem) :=
  match wstep (WA_call i e) (ex_wal x) with
  | None => None
  | Some r => Some (let* w := r in Ok (set_wal w x))
  end.

Definition call_pipe (i : nat) (m : message) (x : ExchangeSystem) : option (outcome ExchangeSystem) :=
  match pipe_step (PA_publish i m) (ex_pipe x) with
  | None => None
  | Some r => Some (let* p := r in Ok (set_pipe p x))
  end.

(** The steps that call neither the log nor the pipeline. *)
Definition plain_step (i : nat) (x : ExchangeSystem) : option (outcome ExchangeSystem) :=
  match worker_step true true (fun _ => []) (fun _ => []) i (pool_of x) with
  | None => None
  | Some r => Some (let* p := r in
      Ok (set_pool p (record_result i (pool_of x) p (ex_results x)) x))
  end.

(** A step of worker [i]; [u] and [v] are the bytes on the stack that a record
    is built over. *)
Definition exchange_worker (i : nat) (u v : list ascii) (x : ExchangeSystem)
    : option (outcome ExchangeSystem) :=
  match ws_writers (ex_wal x) !! i, pp_publishers (ex_pipe x) !! i with
  | Some _, _ => in_wal_call i x
  | None, Some _ => in_pipe_call i x
  | None, None =>
      match ex_workers x !! i with
      | Some (WK_book t) =>
          match task_op t with
          | None => plain_step i x
          | Some _ =>
              if bool_decide (book_free (task_symbol t) x)
              then call_wal i (request_entry (fun _ => u) (fun _ => v) 0 (task_request t)) x
              else None
          end
      | Some (WK_fills res (f :: fs)) => call_wal i (fill_entry u f) x
      | Some (WK_reports (r :: rs) fs) => call_pipe i (M_report r) x
      | Some (WK_trades (f :: fs)) => call_pipe i (M_trade (trade_of f)) x
      | _ => plain_step i x
      end
  end.

(** The main thread. *)
Definition main_step (x : ExchangeSystem) : option (outcome ExchangeSystem) :=
  match ex_phase x with
  | MP_run => Some (Ok (set_phase MP_join x))
  | MP_join =>
      match ex_tasks x with
      | [] => if bool_decide (ex_workers x = ∅) then Some (Ok (set_phase MP_wal x)) else None
      | _ => None
      end
  | MP_wal =>
      match ws_stopper (ex_wal x) with
      | S_end => Some (Ok (set_phase MP_pipeline x))
      | _ => match stopper_step (ex_wal x) with
             | None => None
             | Some r => Some (let* w := r in Ok (set_wal w x))
             end
      end
  | MP_pipeline =>
      match pp_stopper (ex_pipe x) with
      | PS_end => Some (Ok (set_phase MP_done x))
      | _ => match pipe_stopper_step (ex_pipe x) with
             | None => None
             | Some r => Some (let* p := r in Ok (set_pipe p x))
             end
      end
  | MP_done => None
  end.

Inductive exchange_action : Type :=
  | EX_submit (t : Task)                       (* pool.submit(t), accepted *)
  | EX_worker (i : nat) (u v : list ascii)
  | EX_flusher
  | EX_dispatcher
  | EX_add (client_id : Z) (session : S)
  | EX_remove (client_id : Z)
  | EX_main.

Definition add_task (t : Task) (x : ExchangeSystem) : ExchangeSystem :=
  mkExchangeSystem (ex_registry x) (ex_env x) (ex_tasks x ++ [t]) (ex_workers x) (ex_wal x) (ex_pipe x)
    (ex_phase x) (ex_submitted x ++ [t]) (ex_results x).

Definition on_pipe (a : pipe_action S) (x : ExchangeSystem) : option (outcome ExchangeSystem) :=
  match pipe_step a (ex_pipe x) with
  | None => None
  | Some r => Some (let* p := r in Ok (set_pipe p x))
  end.

(** [submit] refuses tasks once [shutdown] has begun. *)
Definition exchange_action_step (a : exchange_action) (x : ExchangeSystem)
    : option (outcome ExchangeSystem) :=
  match a with
  | EX_submit t =>
      match ex_phase x with MP_run => Some (Ok (add_task t x)) | _ => None end
  | EX_worker i u v => exchange_worker i u v x
  | EX_flusher =>
      match flusher_step (ex_wal x) with
      | None => None
      | Some r => Some (let* w := r in Ok (set_wal w x))
      end
  | EX_dispatcher => on_pipe PA_dispatcher x
  | EX_add c s => on_pipe (PA_add c s) x
  | EX_remove c => on_pipe (PA_remove c) x
  | EX_main => main_step x
  end.

Fixpoint exchange_run (acts : list exchange_action) (x : ExchangeSystem)
    : option (outcome ExchangeSystem) :=
  match acts with
  | [] => Some (Ok x)
  | a :: acts =>
      match exchange_action_step a x with
      | Some (Ok x') => exchange_run acts x'
      | r => r
      end
  end.
End Exchange.

Arguments ExchangeSystem S QW QR QT : clear implicits.
Arguments exchange_action S : clear implicits.
