(* ===== verification/ExchangeInv.v ===== *)
(** * The invariant of the exchange

    Every step of [Exchange] completes, keeps the invariant below, and is seen
    from the pool of [ThreadPool] as one of its steps or as none: the calls of
    the log and of the pipeline act as the single steps of the pool at which
    their [enqueue] succeeds. *)

From stdpp Require Import base list gmap strings.
From Stdlib Require Import ZArith Lia Ascii.
From S2P Require Import Prelude Types Bytes BinarySerializer Fifo OrderBook BookOps BookRegistry SafeQueue Wal WalSystem ConnectionManager PipelineSystem ThreadPool ReplayEngine Recovery PoolTrace Exchange.
Local Open Scope exchange_scope.
Local Open Scope list_scope.

(** ** Definitions *)

Definition action_ok {S} (a : exchange_action S) : Prop :=
  match a with
  | EX_submit t => task_ok t
  | EX_worker _ u v => length u = 52 /\ length v = 8
  | _ => True
  end.

Definition writer_entry (w : writer) : WALEntry :=
  match w with W_check e | W_test e | W_enqueue e => e end.

Definition publisher_message (p : publisher) : message :=
  match p with P_check m | P_test m | P_enqueue m => m end.

(** The record a worker in state [w] logs is [e]. *)
Definition wal_call_ok (w : worker) (e : WALEntry) : Prop :=
  match w with
  | WK_book t => exists u v op, length u = 52 /\ length v = 8 /\ task_op t = Some op /\
      e = request_entry (fun _ => u) (fun _ => v) 0 (task_request t)
  | WK_fills _ (f :: _) => exists u, length u = 52 /\ e = fill_entry u f
  | _ => False
  end.

(** The message a worker in state [w] publishes is [m]. *)
Definition pipe_call_ok (w : worker) (m : message) : Prop :=
  match w with
  | WK_reports (r :: _) _ => m = M_report r
  | WK_trades (f :: _) => m = M_trade (trade_of f)
  | _ => False
  end.

Section Inv.
Context {S QW QR QT : Type} `{FifoLaws QW WALEntry} `{FifoLaws QR ExecutionReport} `{FifoLaws QT Trade}.
Context (env0 : Env).
Implicit Types x : ExchangeSystem S QW QR QT.

Definition exchange_step x x' : Prop :=
  exists a, action_ok a /\ exchange_action_step a x = Some (Ok x').

Definition exchange_reachable : ExchangeSystem S QW QR QT -> Prop :=
  reachable (fun x => exists env, x = init_exchange env) exchange_step.

(** Worker [i] holds the mutex of the book of [sym]. *)
Definition held x (sym : Symbol) (i : nat) : bool :=
  match ex_workers x !! i with Some w => holds sym (ex_wal x) i w | None => false end.

Definition drained x : Prop :=
  ex_tasks x = [] /\ ex_workers x = ∅ /\ quiet_inv (ex_wal x) (ex_wal x) /\
  pp_quiet (ex_pipe x) (ex_pipe x).

Definition phase_ok x : Prop :=
  match ex_phase x with
  | MP_run | MP_join => ws_stopper (ex_wal x) = S_idle /\ pp_stopper (ex_pipe x) = PS_idle
  | MP_wal => drained x /\ pp_stopper (ex_pipe x) = PS_idle
  | MP_pipeline => drained x /\ ws_stopper (ex_wal x) = S_end
  | MP_done => drained x /\ ws_stopper (ex_wal x) = S_end /\ pp_stopper (ex_pipe x) = PS_end
  end.

Record ex_inv x : Prop := mkExInv {
  xi_wal : ws_inv (ex_wal x);
  xi_pipe : pp_inv (ex_pipe x);
  xi_trace : trace_inv env0 (trace_of x);
  xi_writers : forall i wr, ws_writers (ex_wal x) !! i = Some wr ->
    exists w, ex_workers x !! i = Some w /\ wal_call_ok w (writer_entry wr);
  xi_publishers : forall i p, pp_publishers (ex_pipe x) !! i = Some p ->
    exists w, ex_workers x !! i = Some w /\ pipe_call_ok w (publisher_message p);
  xi_excl : forall sym i j, held x sym i = true -> held x sym j = true -> i = j;
  xi_phase : phase_ok x }.

(** ** Facts *)

Lemma init_exchange_inv env : ex_inv (init_exchange env).
Proof using.
  constructor; simpl; try done.
  - apply init_wal_inv.
  - apply init_pipeline_inv.
  - apply (init_trace_inv env0 env).
Qed.

Lemma book_free_held sym x : book_free sym x <-> forall i, held x sym i = false.
Proof using.
  unfold book_free, held. split.
  - intros Hf i. destruct (ex_workers x !! i) eqn:Hi; [exact (Hf _ _ Hi)|done].
  - intros Hf i w Hi. specialize (Hf i). by rewrite Hi in Hf.
Qed.

(** Workers only run while the log and the pipeline do. *)
Lemma serving_running x : ws_inv (ex_wal x) -> ws_stopper (ex_wal x) = S_idle ->
  running_ (ws_wal (ex_wal x)) = true /\ exists vs, fifo_repr (queue_ (ws_wal (ex_wal x))) false vs.
Proof using.
  intros [(c & vs & Hq & _ & Hp) _ _ _] Hs. rewrite Hs in Hp. destruct Hp as [Hr ->]. eauto.
Qed.

Lemma pipe_open (s : PipelineSystem S QR QT) : pp_inv s -> pp_stopper s = PS_idle ->
  ExecutionPipeline.running_ (pp_pipe s) = true /\
  exists rs ts, fifo_repr (ExecutionPipeline.report_queue_ (pp_pipe s)) false rs /\
    fifo_repr (ExecutionPipeline.trade_queue_ (pp_pipe s)) false ts.
Proof using.
  intros [(cr & ct & rs & ts & Hr & Ht & _ & Hp) _ _ _] Hs. rewrite Hs in Hp.
  destruct Hp as (Hp & -> & ->). eauto.
Qed.

(** A step of worker [i]: the others are where they were, and the books it holds
    it held before or were free. *)
Lemma ex_inv_worker i x x' :
  ex_inv x -> ws_inv (ex_wal x') -> pp_inv (ex_pipe x') -> trace_inv env0 (trace_of x') ->
  (forall j, j <> i -> ws_writers (ex_wal x') !! j = ws_writers (ex_wal x) !! j) ->
  (forall j, j <> i -> pp_publishers (ex_pipe x') !! j = pp_publishers (ex_pipe x) !! j) ->
  (forall j, j <> i -> ex_workers x' !! j = ex_workers x !! j) ->
  (forall wr, ws_writers (ex_wal x') !! i = Some wr ->
     exists w, ex_workers x' !! i = Some w /\ wal_call_ok w (writer_entry wr)) ->
  (forall p, pp_publishers (ex_pipe x') !! i = Some p ->
     exists w, ex_workers x' !! i = Some w /\ pipe_call_ok w (publisher_message p)) ->
  (forall sym, held x' sym i = true -> held x sym i = true \/ book_free sym x) ->
  phase_ok x' -> ex_inv x'.
Proof using.
  intros [Hw Hp Hpool Hwr Hpu He _] Hw' Hp' Hpool' Hjw Hjp Hjk Hiw Hip Hih Hph. constructor; try done.
  - intros j wr Hj. destruct (decide (j = i)) as [->|Hne]; [by apply Hiw|].
    rewrite Hjk by done. apply Hwr. by rewrite <- Hjw.
  - intros j p Hj. destruct (decide (j = i)) as [->|Hne]; [by apply Hip|].
    rewrite Hjk by done. apply Hpu. by rewrite <- Hjp.
  - assert (forall sym j, j <> i -> held x' sym j = held x sym j) as Hjh.
    { intros sym j Hne. unfold held. rewrite Hjk by done. destruct (ex_workers x !! j) as [w|]; [|done].
      unfold holds. destruct w; try done. by rewrite Hjw. }
    intros sym j1 j2 H1' H2'. destruct (decide (j1 = i)) as [->|N1], (decide (j2 = i)) as [->|N2]; try done.
    + rewrite Hjh in H2' by done. destruct (Hih sym H1') as [Hh|Hf]; [by eapply He|].
      rewrite book_free_held in Hf. by rewrite Hf in H2'.
    + rewrite Hjh in H1' by done. destruct (Hih sym H2') as [Hh|Hf]; [by eapply He|].
      rewrite book_free_held in Hf. by rewrite Hf in H1'.
    + rewrite !Hjh in * by done. by eapply He.
Qed.

(** A step of worker [i] of the pool. *)
Lemma worker_trace_step u v i p p' sub rs : length u = 52 -> length v = 8 ->
  worker_step true true (fun _ => u) (fun _ => v) i p = Some (Ok p') ->
  trace_step (mkPoolTrace p sub rs) (mkPoolTrace p' sub (record_result i p p' rs)).
Proof using. intros Hu Hv Hs. by exists (fun _ => u), (fun _ => v), (PA_worker i). Qed.

Lemma worker_trace_same u v i p p' sub rs : length u = 52 -> length v = 8 ->
  (forall t op, ps_workers p !! i <> Some (WK_locked t op)) ->
  worker_step true true (fun _ => u) (fun _ => v) i p = Some (Ok p') ->
  trace_step (mkPoolTrace p sub rs) (mkPoolTrace p' sub rs).
Proof using.
  intros Hu Hv Hn Hs. eapply eq_rect; [by apply (worker_trace_step u v i)|]. f_equal.
  unfold record_result. destruct (ps_workers p !! i) as [[]|] eqn:Hi; try done. by destruct (Hn t op).
Qed.

(** ** The workers' steps *)

(** A step completes, keeps the invariant, and is a step of the pool or none. *)
Definition good x (r : outcome (ExchangeSystem S QW QR QT)) : Prop :=
  exists x', r = Ok x' /\ ex_inv x' /\ (trace_of x' = trace_of x \/ trace_step (trace_of x) (trace_of x')).

Definition serving x : Prop := ws_stopper (ex_wal x) = S_idle /\ pp_stopper (ex_pipe x) = PS_idle.

(** While a worker runs, the main thread has not begun to stop the log. *)
Lemma phase_serving x : phase_ok x -> ex_workers x <> ∅ \/ ex_tasks x <> [] ->
  serving x /\ forall x', serving x' -> ex_phase x' = ex_phase x -> phase_ok x'.
Proof using.
  unfold phase_ok, serving, drained. intros Hp Hw.
  assert (forall P, (ex_tasks x = [] /\ ex_workers x = ∅ /\ P) -> False) as Hd by naive_solver.
  destruct (ex_phase x) eqn:Eph; try (exfalso; eapply Hd; naive_solver); split; try done;
    intros x' Hs Hph; by rewrite Hph.
Qed.

Lemma worker_present i w x : ex_workers x !! i = Some w -> ex_workers x <> ∅.
Proof using. intros Hi He. by rewrite He, lookup_empty in Hi. Qed.

Lemma held_mono i x x' sym : ex_workers x' !! i = ex_workers x !! i ->
  (is_Some (ws_writers (ex_wal x') !! i) -> is_Some (ws_writers (ex_wal x) !! i)) ->
  held x' sym i = true -> held x sym i = true.
Proof using.
  intros Hk Hw. unfold held, holds. rewrite Hk. destruct (ex_workers x !! i) as [[]|]; try done.
  rewrite !andb_true_iff, !bool_decide_eq_true. tauto.
Qed.

(** Worker [i] moves on inside a call of the log. *)
Lemma wal_stage_inv i wr wr' x :
  ex_inv x -> ws_writers (ex_wal x) !! i = Some wr -> writer_entry wr' = writer_entry wr ->
  let w := ex_wal x in
  let w' := mkWalSystem (ws_wal w) (<[ i := wr' ]> (ws_writers w)) (ws_flusher w) (ws_stopper w)
              (logged w) (wrote w) in
  ws_inv w' -> ex_inv (set_wal w' x).
Proof using.
  intros Hinv Hi He w w' Hw'. destruct (xi_writers _ Hinv i wr Hi) as (k & Hk & Hok).
  destruct (phase_serving x (xi_phase _ Hinv)) as [Hs Hph]; [left; by eapply worker_present|].
  apply (ex_inv_worker i x); simpl; try done.
  - apply Hinv.
  - apply Hinv.
  - intros j Hj. by rewrite lookup_insert_ne.
  - intros wr0. rewrite lookup_insert_eq. intros [= <-]. exists k. by rewrite He.
  - apply Hinv.
  - intros sym Hh. left. eapply held_mono; [..|exact Hh]; [done|]. intros _. by rewrite Hi.
  - by apply Hph.
Qed.

(** The mutual exclusion that the pool asks for. *)
Lemma caller_unlocks i t wr x : ex_inv x -> ws_writers (ex_wal x) !! i = Some wr ->
  ex_workers x !! i = Some (WK_book t) -> unlocked (task_symbol t) (ex_workers x).
Proof using.
  intros Hinv Hi Hk j w Hj. destruct (locks (task_symbol t) w) eqn:El; [|done]. exfalso.
  assert (i = j) as <-.
  { apply (xi_excl _ Hinv (task_symbol t)); unfold held; [rewrite Hk|rewrite Hj]; simpl.
    - rewrite Hi. rewrite !bool_decide_eq_true_2; [done|by eexists|done].
    - by destruct w. }
  rewrite Hk in Hj. injection Hj as <-. done.
Qed.

(** Seen from the pool, the return of a logging call logs the record. *)
Lemma wal_return_pool i k e x :
  ex_inv x -> ws_writers (ex_wal x) !! i = Some (W_enqueue e) -> ex_workers x !! i = Some k ->
  wal_call_ok k e ->
  trace_step (trace_of x)
    (mkPoolTrace
      (set_worker i (call_returned k) (set_sinks (add_record e (ps_sinks (pool_of x))) (pool_of x)))
      (ex_submitted x) (ex_results x)).
Proof using.
  intros Hinv Hi Hk Hok. destruct k as [t|t|t op|res [|f fs]|rs fs|fs]; try done; simpl in Hok.
  - destruct Hok as (u & v & op & Hu & Hv & Hop & ->). apply (worker_trace_same u v i); try done;
      [simpl; by rewrite Hk|]. unfold worker_step. simpl. rewrite Hk, Hop, bool_decide_eq_true_2 by by eapply caller_unlocks.
    unfold log_action, request_entry. by destruct (task_request t).
  - destruct Hok as (u & Hu & ->). apply (worker_trace_same u (replicate 8 "000"%char) i); try done;
      [simpl; by rewrite Hk|]. unfold worker_step. simpl. by rewrite Hk.
Qed.

Lemma in_wal_call_good i wr x r : ex_inv x -> ws_writers (ex_wal x) !! i = Some wr ->
  in_wal_call i x = Some r -> good x r.
Proof using.
  intros Hinv Hi. destruct (xi_writers _ Hinv i wr Hi) as (k & Hk & Hok).
  destruct (phase_serving x (xi_phase _ Hinv)) as [Hs Hph]; [left; by eapply worker_present|].
  destruct (serving_running x (xi_wal _ Hinv) (proj1 Hs)) as (Hrun & vs & Hq).
  unfold in_wal_call. destruct (writer_step i (ex_wal x)) as [ws|] eqn:Hstep; [|done]. intros [= <-].
  destruct (writer_step_inv _ _ _ (xi_wal _ Hinv) Hstep) as (w' & -> & Hw').
  unfold writer_step in Hstep. rewrite Hi in Hstep. cbn [obind].
  destruct wr as [e|e|e]; [rewrite Hrun in Hstep; injection Hstep as <-..|].
  1,2: cbn [ws_writers]; rewrite lookup_insert_eq; unfold return_if; simpl; rewrite Hk;
    (eexists; split; [done|]; split; [by eapply wal_stage_inv|by left]).
  destruct (fifo_enqueue_open _ _ e Hq) as (q' & Hen & _). rewrite Hen in Hstep. injection Hstep as <-.
  cbn [ws_writers]. rewrite lookup_delete_eq, bool_decide_eq_true_2 by done.
  unfold return_if. simpl. rewrite Hk. eexists. split; [done|].
  pose proof (wal_return_pool i k e x Hinv Hi Hk Hok) as Hmove. split; [|by right].
  apply (ex_inv_worker i x); simpl; try done.
  - apply Hinv.
  - eapply trace_step_inv; [apply Hinv|exact Hmove].
  - intros j Hj. by rewrite lookup_delete_ne.
  - intros j Hj. by rewrite lookup_insert_ne.
  - by rewrite lookup_delete_eq.
  - intros p Hp. destruct (xi_publishers _ Hinv i p Hp) as (k' & Hk' & Hpc). rewrite Hk in Hk'.
    injection Hk' as <-. destruct k as [| | |? []| |]; done.
  - intros sym Hh. left. revert Hh. unfold held. simpl. rewrite lookup_insert_eq, Hk.
    destruct k as [t|t|t op|res [|f fs]|rs fs|fs]; try done; simpl.
    destruct Hok as (u & v & op & _ & _ & -> & _). simpl. rewrite Hi. intros ->.
    by rewrite bool_decide_eq_true_2 by by eexists.
  - by apply Hph.
Qed.

(** Seen from the pool, the return of a publishing call publishes. *)
Lemma pipe_return_pool i k m x : ex_workers x !! i = Some k -> pipe_call_ok k m ->
  trace_step (trace_of x)
    (mkPoolTrace (set_worker i (call_returned k)
      (set_sinks (mkSinks (logged (ex_wal x)) (queued (ex_pipe x) ++ reports_of m)
         (queued_trades (ex_pipe x) ++ trades_of m)) (pool_of x))) (ex_submitted x) (ex_results x)).
Proof using.
  intros Hk Hok. set (u := replicate 52 "000"%char). set (v := replicate 8 "000"%char).
  destruct k as [t|t|t op|res fs|[|r rs] fs|[|f fs]]; try done; simpl in Hok; subst m;
    (apply (worker_trace_same u v i); try done; [simpl; by rewrite Hk|]); unfold worker_step; simpl;
    rewrite Hk; unfold publish_report, publish_trade, add_report, add_trade, reports_of, trades_of; simpl;
    by rewrite ?app_nil_r.
Qed.

(** Worker [i] moves on inside a call of the pipeline. *)
Lemma pipe_stage_inv i p p' x :
  ex_inv x -> pp_publishers (ex_pipe x) !! i = Some p -> publisher_message p' = publisher_message p ->
  let s := ex_pipe x in
  let s' := mkPipelineSystem (pp_pipe s) (pp_sessions s) (<[ i := p' ]> (pp_publishers s))
              (pp_dispatcher s) (pp_stopper s) (queued s) (queued_trades s) (looked_up s) (handed s) in
  pp_inv s' -> ex_inv (set_pipe s' x).
Proof using.
  intros Hinv Hi He s s' Hs'. destruct (xi_publishers _ Hinv i p Hi) as (k & Hk & Hok).
  destruct (phase_serving x (xi_phase _ Hinv)) as [Hs Hph]; [left; by eapply worker_present|].
  apply (ex_inv_worker i x); simpl; try done.
  - apply Hinv.
  - apply Hinv.
  - intros j Hj. by rewrite lookup_insert_ne.
  - apply Hinv.
  - intros p0. rewrite lookup_insert_eq. intros [= <-]. exists k. by rewrite He.
  - intros sym Hh. left. by eapply held_mono; [..|exact Hh].
  - by apply Hph.
Qed.

Lemma in_pipe_call_good i p x r : ex_inv x -> pp_publishers (ex_pipe x) !! i = Some p ->
  in_pipe_call i x = Some r -> good x r.
Proof using.
  intros Hinv Hi. destruct (xi_publishers _ Hinv i p Hi) as (k & Hk & Hok).
  destruct (phase_serving x (xi_phase _ Hinv)) as [Hs Hph]; [left; by eapply worker_present|].
  destruct (pipe_open _ (xi_pipe _ Hinv) (proj2 Hs)) as (Hrun & rs & ts & Hqr & Hqt).
  unfold in_pipe_call. destruct (publisher_step i (ex_pipe x)) as [ps|] eqn:Hstep; [|done]. intros [= <-].
  destruct (publisher_step_inv _ _ _ (xi_pipe _ Hinv) Hstep) as (s' & -> & Hs').
  unfold publisher_step in Hstep. rewrite Hi in Hstep. cbn [obind].
  destruct p as [m|m|m]; [rewrite Hrun in Hstep; injection Hstep as <-..|].
  1,2: cbn [pp_publishers]; rewrite lookup_insert_eq; unfold return_if; simpl; rewrite Hk;
    (eexists; split; [done|]; split; [by eapply pipe_stage_inv|by left]).
  assert (exists p', enqueue_message m (pp_pipe (ex_pipe x)) = Ok (true, p')) as (p' & Hen).
  { destruct m as [er|t]; simpl.
    - destruct (fifo_enqueue_open _ _ er Hqr) as (q & -> & _). by eexists.
    - destruct (fifo_enqueue_open _ _ t Hqt) as (q & -> & _). by eexists. }
  rewrite Hen in Hstep. injection Hstep as <-.
  cbn [pp_publishers]. rewrite lookup_delete_eq, bool_decide_eq_true_2 by done.
  unfold return_if. simpl. rewrite Hk. eexists. split; [done|].
  pose proof (pipe_return_pool i k m x Hk Hok) as Hmove. split; [|by right].
  apply (ex_inv_worker i x); simpl; try done.
  - apply Hinv.
  - eapply trace_step_inv; [apply Hinv|exact Hmove].
  - intros j Hj. by rewrite lookup_delete_ne.
  - intros j Hj. by rewrite lookup_insert_ne.
  - intros wr Hw. destruct (xi_writers _ Hinv i wr Hw) as (k' & Hk' & Hwc). rewrite Hk in Hk'.
    injection Hk' as <-. destruct k as [| | |? []| |]; done.
  - by rewrite lookup_delete_eq.
  - intros sym. unfold held. simpl. rewrite lookup_insert_eq, Hk.
    by destruct k as [t|t|t op|res fs|[|er rs'] fs|[|f fs]].
  - by apply Hph.
Qed.

(** A worker enters a call of the log, taking the mutex of the book where the
    call is made under it. *)
Lemma call_wal_good i k e x r : ex_inv x -> ex_workers x !! i = Some k ->
  ws_writers (ex_wal x) !! i = None -> wal_call_ok k e ->
  (forall t, k = WK_book t -> book_free (task_symbol t) x) ->
  call_wal i e x = Some r -> good x r.
Proof using.
  intros Hinv Hk Hi Hok Hfree. unfold call_wal. cbn [wstep]. rewrite Hi. intros [= <-]. cbn [obind].
  destruct (phase_serving x (xi_phase _ Hinv)) as [Hs Hph]; [left; by eapply worker_present|].
  eexists. split; [done|]. split; [|by left]. apply (ex_inv_worker i x); simpl; try done.
  - destruct Hinv as [[] _ _ _ _ _ _]. by constructor.
  - apply Hinv.
  - apply Hinv.
  - intros j Hj. by rewrite lookup_insert_ne.
  - intros wr. rewrite lookup_insert_eq. intros [= <-]. by exists k.
  - apply Hinv.
  - intros sym. unfold held. simpl. rewrite Hk. unfold holds.
    destruct k as [t|t|t op|res fs|rs fs|fs]; try done.
    rewrite andb_true_iff, !bool_decide_eq_true. intros [<- _]. right. by apply Hfree.
  - by apply Hph.
Qed.

Lemma call_pipe_good i k m x r : ex_inv x -> ex_workers x !! i = Some k ->
  pp_publishers (ex_pipe x) !! i = None -> pipe_call_ok k m ->
  call_pipe i m x = Some r -> good x r.
Proof using.
  intros Hinv Hk Hi Hok. unfold call_pipe. cbn [pipe_step]. rewrite Hi. intros [= <-]. cbn [obind].
  destruct (phase_serving x (xi_phase _ Hinv)) as [Hs Hph]; [left; by eapply worker_present|].
  eexists. split; [done|]. split; [|by left]. apply (ex_inv_worker i x); simpl; try done.
  - apply Hinv.
  - destruct Hinv as [_ [] _ _ _ _ _]. by constructor.
  - apply Hinv.
  - intros j Hj. by rewrite lookup_insert_ne.
  - apply Hinv.
  - intros p. rewrite lookup_insert_eq. intros [= <-]. by exists k.
  - intros sym Hh. left. by eapply held_mono; [..|exact Hh].
  - by apply Hph.
Qed.

(** The states from which a worker makes a step of its own. *)
Definition plain_worker (w : option worker) : Prop :=
  match w with
  | Some (WK_book t) => task_op t = None
  | Some (WK_fills _ (_ :: _)) | Some (WK_reports (_ :: _) _) | Some (WK_trades (_ :: _)) => False
  | _ => True
  end.

(** Such a step leaves the sinks and the other workers alone. *)
Lemma plain_worker_step junk junk8 i p p' : plain_worker (ps_workers p !! i) ->
  worker_step true true junk junk8 i p = Some (Ok p') ->
  ps_sinks p' = ps_sinks p /\ (forall j, j <> i -> ps_workers p' !! j = ps_workers p !! j) /\
  (forall t op, ps_workers p' !! i <> Some (WK_locked t op)) /\
  (ps_workers p <> ∅ \/ ps_tasks p <> []).
Proof using.
  unfold worker_step. intros Hpl Hs.
  assert (ps_workers p <> ∅ \/ ps_tasks p <> []) as Hne.
  { destruct (ps_workers p !! i) eqn:Hi.
    - left. intros He. by rewrite He, lookup_empty in Hi.
    - destruct (ps_tasks p); [done|by right]. }
  destruct (ps_workers p !! i) as [[t|t|t op|res [|f fs]|[|er rs] fs|[|f fs]]|] eqn:Hi;
    simpl in Hpl; try done; rewrite ?Hpl in Hs; try (destruct (ps_tasks p); [done|]);
    injection Hs as Hs; try (apply obind_ok in Hs as ([r [res env]] & _ & [= <-])); try subst p';
    split_and!; simpl; try done; intros; rewrite ?lookup_insert_ne, ?lookup_delete_ne by done; try done;
    by rewrite ?lookup_insert_eq, ?lookup_delete_eq.
Qed.

Lemma plain_worker_junk j1 j2 k1 k2 i p : plain_worker (ps_workers p !! i) ->
  worker_step true true j1 k1 i p = worker_step true true j2 k2 i p.
Proof using.
  unfold worker_step. intros Hpl.
  destruct (ps_workers p !! i) as [[t|t|t op|res [|f fs]|[|er rs] fs|[|f fs]]|]; simpl in Hpl; try done.
  by rewrite Hpl.
Qed.

Lemma trace_of_set_pool p rs x : ps_sinks p = ps_sinks (pool_of x) ->
  trace_of (set_pool p rs x) = mkPoolTrace p (ex_submitted x) rs.
Proof using. unfold trace_of, pool_of, set_pool. simpl. intros <-. by destruct p. Qed.

Lemma plain_step_good i x r : ex_inv x -> plain_worker (ex_workers x !! i) ->
  ws_writers (ex_wal x) !! i = None -> pp_publishers (ex_pipe x) !! i = None ->
  plain_step i x = Some r -> good x r.
Proof using.
  intros Hinv Hpl Hwi Hpi. unfold plain_step.
  set (u := replicate 52 "000"%char). set (v := replicate 8 "000"%char).
  rewrite (plain_worker_junk _ (fun _ => u) _ (fun _ => v)) by exact Hpl.
  destruct (worker_step _ _ _ _ i (pool_of x)) as [ps|] eqn:Hstep; [|done]. intros [= <-].
  assert (forall n : nat, length u = 52) as Hu by done. assert (forall n : nat, length v = 8) as Hv by done.
  destruct (worker_step_inv true (fun _ => u) (fun _ => v) env0 Hu Hv i _ _ (ti_pool _ _ (xi_trace _ Hinv)) Hstep)
    as (p' & -> & _).
  destruct (plain_worker_step _ _ i (pool_of x) _ Hpl Hstep) as (Hsk & Hoth & Hnl & Hne).
  destruct (phase_serving x (xi_phase _ Hinv) Hne) as [Hs Hph].
  cbn [obind]. eexists. split; [done|]. rewrite trace_of_set_pool by done. split.
  2:{ right. by apply (worker_trace_step u v i). }
  apply (ex_inv_worker i x); simpl; try done.
  - apply Hinv.
  - apply Hinv.
  - rewrite trace_of_set_pool by done. eapply trace_step_inv; [apply Hinv|]. by apply (worker_trace_step u v i).
  - intros wr. by rewrite Hwi.
  - intros q. by rewrite Hpi.
  - intros sym. unfold held. simpl. destruct (ps_workers p' !! i) as [[t|t|t op| | |]|] eqn:Hi; try done.
    + simpl. rewrite Hwi, (bool_decide_eq_false_2 (is_Some None)) by apply is_Some_None. by rewrite andb_false_r.
    + by destruct (Hnl t op).
  - by apply Hph.
Qed.

Lemma exchange_worker_good i u v x r : ex_inv x -> length u = 52 -> length v = 8 ->
  exchange_worker i u v x = Some r -> good x r.
Proof using.
  intros Hinv Hu Hv. unfold exchange_worker.
  destruct (ws_writers (ex_wal x) !! i) as [wr|] eqn:Hwi; [by apply in_wal_call_good with wr|].
  destruct (pp_publishers (ex_pipe x) !! i) as [p|] eqn:Hpi; [by apply in_pipe_call_good with p|].
  destruct (ex_workers x !! i) as [k|] eqn:Hk; [|apply plain_step_good; by rewrite ?Hk].
  destruct k as [t|t|t op|res [|f fs]|[|er rs] fs|[|f fs]].
  2:{ destruct (task_op t) as [op|] eqn:Hop; [|apply plain_step_good; by rewrite ?Hk].
      destruct (bool_decide _) eqn:Hf; [|done]. apply bool_decide_eq_true in Hf.
      apply (call_wal_good i (WK_book t)); try done; [by exists u, v, op|by intros t' [= <-]]. }
  4:{ apply (call_wal_good i (WK_fills res (f :: fs))); try done. by exists u. }
  5:{ by apply (call_pipe_good i (WK_reports (er :: rs) fs)). }
  6:{ by apply (call_pipe_good i (WK_trades (f :: fs))). }
  all: apply plain_step_good; by rewrite ?Hk.
Qed.

(** ** The other threads *)

(** A step of the log or the pipeline that no worker makes. *)
Lemma set_wal_inv w' x : ex_inv x -> ws_inv w' -> ws_writers w' = ws_writers (ex_wal x) ->
  logged w' = logged (ex_wal x) -> phase_ok (set_wal w' x) -> good x (Ok (set_wal w' x)).
Proof using.
  intros [Hw Hp Hpool Hwr Hpu He _] Hw' Hws Hl Hph. eexists. split; [done|].
  assert (trace_of (set_wal w' x) = trace_of x) as Hpo by (unfold trace_of, pool_of; simpl; by rewrite Hl).
  split; [|by left]. constructor; try done.
  - by rewrite Hpo.
  - simpl. by rewrite Hws.
  - intros sym i j. specialize (He sym i j). revert He. unfold held, holds. simpl. by rewrite Hws.
Qed.

Lemma set_pipe_inv p' x : ex_inv x -> pp_inv p' -> pp_publishers p' = pp_publishers (ex_pipe x) ->
  queued p' = queued (ex_pipe x) -> queued_trades p' = queued_trades (ex_pipe x) ->
  phase_ok (set_pipe p' x) -> good x (Ok (set_pipe p' x)).
Proof using.
  intros [Hw Hp Hpool Hwr Hpu He _] Hp' Hps Hq Hqt Hph. eexists. split; [done|].
  assert (trace_of (set_pipe p' x) = trace_of x) as Hpo
    by (unfold trace_of, pool_of; simpl; by rewrite Hq, Hqt).
  split; [|by left]. constructor; try done.
  - by rewrite Hpo.
  - simpl. by rewrite Hps.
Qed.

(** What the flusher and the stopping thread leave alone. *)
Lemma flusher_step_frame (w w' : WalSystem QW) : flusher_step w = Some (Ok w') ->
  ws_writers w' = ws_writers w /\ logged w' = logged w /\ ws_stopper w' = ws_stopper w.
Proof using.
  unfold flusher_step. destruct (ws_flusher w); try done; intros [= Hs]; [by subst w'|..];
    apply obind_ok in Hs as (r & _ & Hs); [|destruct r as [[e|] q]]; by injection Hs as <-.
Qed.

Lemma stopper_step_frame (w w' : WalSystem QW) : stopper_step w = Some (Ok w') ->
  ws_writers w' = ws_writers w /\ logged w' = logged w.
Proof using.
  unfold stopper_step. destruct (ws_stopper w); try done; [..|destruct (ws_flusher w); try done];
    by intros [= <-].
Qed.

Lemma dispatcher_step_frame (s s' : PipelineSystem S QR QT) : dispatcher_step s = Some (Ok s') ->
  pp_publishers s' = pp_publishers s /\ queued s' = queued s /\ queued_trades s' = queued_trades s /\
  pp_stopper s' = pp_stopper s.
Proof using.
  unfold dispatcher_step. destruct (pp_dispatcher s); try done; intros [= Hs]; try by subst s'.
  1,2: by apply obind_ok in Hs as (r & _ & [= <-]).
  1,2: by apply obind_ok in Hs as ([r q] & _ & [= <-]).
Qed.

Lemma pipe_stopper_step_frame (s s' : PipelineSystem S QR QT) : pipe_stopper_step s = Some (Ok s') ->
  pp_publishers s' = pp_publishers s /\ queued s' = queued s /\ queued_trades s' = queued_trades s.
Proof using.
  unfold pipe_stopper_step. destruct (pp_stopper s); try done; [..|destruct (pp_dispatcher s); try done];
    by intros [= <-].
Qed.

Lemma quiet_self (w w' : WalSystem QW) a : (forall tid e, a <> WA_call tid e) ->
  wstep a w = Some (Ok w') -> quiet_inv w w -> quiet_inv w' w'.
Proof using.
  intros Ha Hs Hq. destruct (quiet_step_inv w w w' Hq) as [Hi Hw Hl Hd]; [by exists a|]. by constructor.
Qed.

Lemma pp_quiet_self (s s' : PipelineSystem S QR QT) a : (forall tid m, a <> PA_publish tid m) ->
  pipe_step a s = Some (Ok s') -> pp_quiet s s -> pp_quiet s' s'.
Proof using.
  intros Ha Hs Hq. destruct (pp_quiet_step s s s' Hq) as [Hi Hp Hl Hd Ht]; [by exists a|]. by constructor.
Qed.

Lemma drained_wal w' a x : (forall tid e, a <> WA_call tid e) -> wstep a (ex_wal x) = Some (Ok w') ->
  drained x -> drained (set_wal w' x).
Proof using. intros Ha Hs (Ht & Hw & Hq & Hp). split_and!; try done. by eapply quiet_self. Qed.

Lemma drained_pipe p' a x : (forall tid m, a <> PA_publish tid m) ->
  pipe_step a (ex_pipe x) = Some (Ok p') -> drained x -> drained (set_pipe p' x).
Proof using. intros Ha Hs (Ht & Hw & Hq & Hp). split_and!; try done. by eapply pp_quiet_self. Qed.

Lemma set_phase_inv ph x : ex_inv x -> phase_ok (set_phase ph x) -> good x (Ok (set_phase ph x)).
Proof using. intros [] Hph. eexists. split; [done|]. split; [by constructor|by left]. Qed.

(** Once the workers are joined no call is in progress. *)
Lemma joined_drained x : ex_inv x -> serving x -> ex_tasks x = [] -> ex_workers x = ∅ -> drained x.
Proof using.
  intros [Hw Hp _ Hwr Hpu _ _] [Hs1 Hs2] Ht Hk.
  assert (ws_writers (ex_wal x) = ∅) as Hws.
  { apply map_empty. intros i. destruct (ws_writers (ex_wal x) !! i) as [wr|] eqn:Hi; [|done].
    destruct (Hwr i wr Hi) as (k & Hk' & _). by rewrite Hk, lookup_empty in Hk'. }
  assert (pp_publishers (ex_pipe x) = ∅) as Hps.
  { apply map_empty. intros i. destruct (pp_publishers (ex_pipe x) !! i) as [p|] eqn:Hi; [|done].
    destruct (Hpu i p Hi) as (k & Hk' & _). by rewrite Hk, lookup_empty in Hk'. }
  split_and!; try done; [|by apply pp_quiet_start]. constructor; try done. intros Hd.
  destruct (serving_running x Hw Hs1) as [Hrun _]. rewrite (wi_done _ Hw) in Hrun by by right. done.
Qed.

Lemma main_wal_good w' x : ex_inv x -> ex_phase x = MP_wal -> stopper_step (ex_wal x) = Some (Ok w') ->
  good x (Ok (set_wal w' x)).
Proof using.
  intros Hinv Hph Hs. pose proof (xi_phase _ Hinv) as Hpk. unfold phase_ok in Hpk. rewrite Hph in Hpk.
  destruct (stopper_step_frame _ _ Hs) as [Hws Hl].
  destruct (stopper_step_inv _ _ (xi_wal _ Hinv) Hs) as (w2 & [= <-] & Hw').
  apply set_wal_inv; try done. unfold phase_ok. simpl. rewrite Hph. destruct Hpk as [Hd Hp].
  split; [|done]. by eapply (drained_wal _ WA_stopper).
Qed.

Lemma main_pipe_good p' x : ex_inv x -> ex_phase x = MP_pipeline ->
  pipe_stopper_step (ex_pipe x) = Some (Ok p') -> good x (Ok (set_pipe p' x)).
Proof using.
  intros Hinv Hph Hs. pose proof (xi_phase _ Hinv) as Hpk. unfold phase_ok in Hpk. rewrite Hph in Hpk.
  destruct (pipe_stopper_step_frame _ _ Hs) as (Hps & Hq & Hqt).
  destruct (pipe_stopper_step_inv _ _ (xi_pipe _ Hinv) Hs) as (p2 & [= <-] & Hp').
  apply set_pipe_inv; try done. unfold phase_ok. simpl. rewrite Hph. destruct Hpk as [Hd Hp].
  split; [|done]. by eapply (drained_pipe _ PA_stopper).
Qed.

Lemma main_step_good x r : ex_inv x -> main_step x = Some r -> good x r.
Proof using.
  intros Hinv. pose proof (xi_phase _ Hinv) as Hpk. unfold phase_ok in Hpk. unfold main_step.
  destruct (ex_phase x) eqn:Hph.
  - intros [= <-]. by apply set_phase_inv.
  - destruct (ex_tasks x) eqn:Ht; [|done]. destruct (bool_decide _) eqn:Hk; [|done]. intros [= <-].
    apply bool_decide_eq_true in Hk. apply set_phase_inv; [done|]. split; [|apply Hpk].
    exact (joined_drained x Hinv Hpk Ht Hk).
  - destruct (stopper_step (ex_wal x)) as [ws|] eqn:Hs.
    + destruct (stopper_step_inv _ _ (xi_wal _ Hinv) Hs) as (w' & -> & _).
      destruct (ws_stopper (ex_wal x)) eqn:Es; intros [= <-]; simpl; try by apply main_wal_good.
      unfold stopper_step in Hs. by rewrite Es in Hs.
    + destruct (ws_stopper (ex_wal x)) eqn:Es; try done. intros [= <-]. apply set_phase_inv; [done|].
      split; [apply Hpk|done].
  - destruct (pipe_stopper_step (ex_pipe x)) as [ps|] eqn:Hs.
    + destruct (pipe_stopper_step_inv _ _ (xi_pipe _ Hinv) Hs) as (p' & -> & _).
      destruct (pp_stopper (ex_pipe x)) eqn:Es; intros [= <-]; simpl; try by apply main_pipe_good.
      unfold pipe_stopper_step in Hs. by rewrite Es in Hs.
    + destruct (pp_stopper (ex_pipe x)) eqn:Es; try done. intros [= <-]. apply set_phase_inv; [done|].
      split; [apply Hpk|]. split; [apply Hpk|done].
  - done.
Qed.

Lemma flusher_good x r : ex_inv x -> exchange_action_step EX_flusher x = Some r -> good x r.
Proof using.
  intros Hinv. simpl. destruct (flusher_step (ex_wal x)) as [ws|] eqn:Hs; [|done]. intros [= <-].
  destruct (flusher_step_inv _ _ (xi_wal _ Hinv) Hs) as (w' & -> & Hw'). simpl.
  destruct (flusher_step_frame _ _ Hs) as (Hws & Hl & Hst). apply set_wal_inv; try done.
  pose proof (xi_phase _ Hinv) as Hpk. revert Hpk. unfold phase_ok. simpl. rewrite Hst.
  destruct (ex_phase x); try done; intros [Hd Hr]; (split; [by eapply (drained_wal _ WA_flusher)|done]).
Qed.

Lemma on_pipe_good a x r : ex_inv x -> on_pipe a x = Some r ->
  match a with PA_dispatcher | PA_add _ _ | PA_remove _ => good x r | _ => True end.
Proof using.
  intros Hinv. unfold on_pipe. destruct (pipe_step a (ex_pipe x)) as [ps|] eqn:Hs; [|done]. intros [= <-].
  destruct (pipe_step_inv _ _ _ (xi_pipe _ Hinv) Hs) as (p' & -> & Hp'). simpl.
  assert (match a with PA_dispatcher | PA_add _ _ | PA_remove _ => True | _ => False end ->
    good x (Ok (set_pipe p' x))) as Hgood; [|by destruct a; auto].
  intros Ha. assert (pp_publishers p' = pp_publishers (ex_pipe x) /\ queued p' = queued (ex_pipe x) /\
    queued_trades p' = queued_trades (ex_pipe x) /\ pp_stopper p' = pp_stopper (ex_pipe x))
    as (Hps & Hq & Hqt & Hst).
  { destruct a; try done; simpl in Hs; [by apply dispatcher_step_frame|..]; by injection Hs as <-. }
  apply set_pipe_inv; try done. pose proof (xi_phase _ Hinv) as Hpk. revert Hpk.
  unfold phase_ok. simpl. rewrite Hst.
  destruct (ex_phase x); try done; intros [Hd Hr];
    (split; [eapply (drained_pipe _ a); [by destruct a|done|done]|done]).
Qed.

Lemma add_task_good t x : ex_inv x -> task_ok t -> ex_phase x = MP_run -> good x (Ok (add_task t x)).
Proof using.
  intros Hinv Ht Hph. eexists. split; [done|].
  assert (trace_step (trace_of x) (trace_of (add_task t x))) as Hm.
  { exists (fun _ => replicate 52 "000"%char), (fun _ => replicate 8 "000"%char), (PA_submit t).
    done. }
  split; [|by right]. destruct Hinv as [Hw Hp Hpool Hwr Hpu He Hpk]. constructor; try done.
  - by eapply trace_step_inv.
  - unfold phase_ok in *. simpl. by rewrite Hph in *.
Qed.

(** Every step is good. *)
Lemma exchange_step_good a x r : ex_inv x -> action_ok a -> exchange_action_step a x = Some r -> good x r.
Proof using.
  intros Hinv Hok Hs. destruct a as [t|i u v| | |c s|c|].
  - simpl in Hs. destruct (ex_phase x) eqn:Hph; try done. injection Hs as <-. by apply add_task_good.
  - destruct Hok as [Hu Hv]. by eapply exchange_worker_good.
  - by apply flusher_good.
  - by apply (on_pipe_good PA_dispatcher).
  - by apply (on_pipe_good (PA_add c s)).
  - by apply (on_pipe_good (PA_remove c)).
  - by apply main_step_good.
Qed.

Lemma exchange_step_inv x x' : ex_inv x -> exchange_step x x' ->
  ex_inv x' /\ (trace_of x' = trace_of x \/ trace_step (trace_of x) (trace_of x')).
Proof using.
  intros Hinv (a & Hok & Hs). by destruct (exchange_step_good a x _ Hinv Hok Hs) as (x2 & [= <-] & ?).
Qed.

Lemma exchange_reachable_inv x : exchange_reachable x -> ex_inv x.
Proof using.
  apply reachable_invariant; [intros ? [env ->]; apply init_exchange_inv|].
  intros x1 x2 Hi Hs. by apply (exchange_step_inv x1 x2).
Qed.
End Inv.
