(* ===== verification/ExchangeTheorems.v ===== *)
(** * Theorems about the exchange

    What a crash and an orderly shutdown of [Exchange] leave in the log's file,
    and what the replay rebuilds from it. *)

From stdpp Require Import base list gmap strings.
From Stdlib Require Import ZArith Lia Ascii.
From S2P Require Import Prelude Types Bytes BinarySerializer SerializerTheorems Fifo MpscQueue OrderBook ClientErasure BookInv BookOps BookRegistry SafeQueue Wal WalSystem ConnectionManager PipelineSystem ThreadPool ReplayEngine Recovery PoolTheorems Ownership PoolTrace Exchange ExchangeInv.
Local Open Scope exchange_scope.
Local Open Scope list_scope.

(** ** Facts *)

Section Facts.
Context {S QW QR QT : Type} `{FifoLaws QW WALEntry} `{FifoLaws QR ExecutionReport} `{FifoLaws QT Trade}.
Implicit Types x : ExchangeSystem S QW QR QT.

(** A step of the pipeline that is not a session's coming or going. *)
Definition pipeline_works (p p' : PipelineSystem S QR QT) : Prop :=
  exists a, (forall c s, a <> PA_add c s) /\ (forall c, a <> PA_remove c) /\ pipe_step a p = Some (Ok p').

Lemma pipeline_works_step p p' : pipeline_works p p' -> pipeline_step p p'.
Proof using. intros (a & _ & _ & Ha). by exists a. Qed.

(** Only the dispatcher hands over reports, and to the session it looked up. *)
Lemma pipeline_works_sends p p' : pipeline_works p p' ->
  pp_sessions p' = pp_sessions p /\
  (exists new, handed p' = handed p ++ new /\
     Forall (fun cr => pp_dispatcher p = D_send cr.1 cr.2) new) /\
  (forall c r, pp_dispatcher p' = D_send c r ->
     pp_dispatcher p = D_send c r \/ get_session (er_client_id r) (pp_sessions p) = Some c).
Proof using.
  assert (forall q : PipelineSystem S QR QT, pp_sessions q = pp_sessions p -> handed q = handed p ->
    pp_dispatcher q = pp_dispatcher p ->
    pp_sessions q = pp_sessions p /\
    (exists new, handed q = handed p ++ new /\ Forall (fun cr => pp_dispatcher p = D_send cr.1 cr.2) new) /\
    (forall c r, pp_dispatcher q = D_send c r ->
       pp_dispatcher p = D_send c r \/ get_session (er_client_id r) (pp_sessions p) = Some c)) as Hid.
  { intros q Hq Hh Hd. split; [done|]. split; [exists []; by rewrite Hh, app_nil_r|].
    intros c r. rewrite Hd. auto. }
  intros ([tid m|tid| | |c s|c] & Hna & Hnr & Ha); simpl in Ha; [| | | |by destruct (Hna c s)|by destruct (Hnr c)].
  - destruct (pp_publishers p !! tid); [done|]. injection Ha as <-. unfold start_publish. auto.
  - unfold publisher_step in Ha. destruct (pp_publishers p !! tid) as [[m|m|m]|]; [| | |done];
      injection Ha as Ha; [by rewrite <- Ha; auto..|].
    apply obind_ok in Ha as ([[|] q] & _ & [= <-]); auto.
  - unfold dispatcher_step in Ha. destruct (pp_dispatcher p) as [| | | |r|c r| |] eqn:Hd; [..|done].
    5: { injection Ha as <-. simpl. split; [done|]. split; [exists []; by rewrite app_nil_r|].
         intros c' r'. case_match eqn:Hg; [|done]. intros [= <- <-]. auto. }
    5: { injection Ha as <-. simpl. split; [done|]. split; [|done]. exists [(c, r)]. by repeat constructor. }
    all: injection Ha as Ha; first [apply obind_ok in Ha as (? & _ & Ha)|idtac].
    all: case_match; simplify_eq; simpl; (split; [done|]).
    all: split; [exists []; by rewrite app_nil_r|]; intros; by repeat case_match.
  - unfold pipe_stopper_step in Ha. destruct (pp_stopper p); try done; try (injection Ha as <-; by auto).
    destruct (pp_dispatcher p) eqn:Hd; try done. injection Ha as <-. by apply Hid.
Qed.

(** The log and the pipeline of the exchange move by their own steps. *)
Lemma exchange_worker_parts i u v x x' : exchange_worker i u v x = Some (Ok x') ->
  (ex_wal x' = ex_wal x \/ wal_step (ex_wal x) (ex_wal x')) /\
  (ex_pipe x' = ex_pipe x \/ pipeline_works (ex_pipe x) (ex_pipe x')) /\ ex_submitted x' = ex_submitted x.
Proof using.
  assert (forall b (y : ExchangeSystem S QW QR QT), ex_wal (return_if b i y) = ex_wal y /\
    ex_pipe (return_if b i y) = ex_pipe y /\ ex_submitted (return_if b i y) = ex_submitted y) as Hret.
  { intros b y. unfold return_if. destruct (ex_workers y !! i); [|done]. by destruct b. }
  assert (plain_step i x = Some (Ok x') -> ex_wal x' = ex_wal x /\ ex_pipe x' = ex_pipe x /\
    ex_submitted x' = ex_submitted x) as Hplain.
  { unfold plain_step. destruct (worker_step _ _ _ _ _ _); [|done]. by intros [= (p & _ & [= <-])%obind_ok]. }
  assert (forall e, call_wal i e x = Some (Ok x') ->
    wal_step (ex_wal x) (ex_wal x') /\ ex_pipe x' = ex_pipe x /\ ex_submitted x' = ex_submitted x) as Hcw.
  { intros e. unfold call_wal. destruct (wstep _ _) eqn:Hw; [|done]. intros [= (w & -> & [= <-])%obind_ok].
    split; [by eexists|done]. }
  assert (forall m, call_pipe i m x = Some (Ok x') ->
    ex_wal x' = ex_wal x /\ pipeline_works (ex_pipe x) (ex_pipe x') /\ ex_submitted x' = ex_submitted x) as Hcp.
  { intros m. unfold call_pipe. destruct (pipe_step _ _) eqn:Hp; [|done]. intros [= (p & -> & [= <-])%obind_ok].
    split_and!; [done| |done]. by exists (PA_publish i m). }
  unfold exchange_worker, in_wal_call, in_pipe_call.
  destruct (ws_writers (ex_wal x) !! i).
  { destruct (writer_step i (ex_wal x)) eqn:Hw; [|done]. intros [= (w' & -> & [= <-])%obind_ok].
    destruct (Hret (bool_decide (ws_writers w' !! i = None)) (set_wal w' x)) as (-> & -> & ->).
    split_and!; [right; by exists (WA_writer i)|by left|done]. }
  destruct (pp_publishers (ex_pipe x) !! i).
  { destruct (publisher_step i (ex_pipe x)) eqn:Hp; [|done]. intros [= (p' & -> & [= <-])%obind_ok].
    destruct (Hret (bool_decide (pp_publishers p' !! i = None)) (set_pipe p' x)) as (-> & -> & ->).
    split_and!; [by left|right; by exists (PA_publisher i)|done]. }
  destruct (ex_workers x !! i) as [[t|t|t op|res [|f fs]|[|er rs] fs|[|f fs]]|];
    try (destruct (task_op t); [destruct (bool_decide _); [|done]|]); naive_solver.
Qed.

(** An action of one of the threads of the exchange. *)
Definition thread_action (a : exchange_action S) : Prop :=
  match a with EX_submit _ | EX_add _ _ | EX_remove _ => False | _ => True end.

Lemma exchange_thread_parts a x x' : thread_action a -> exchange_action_step a x = Some (Ok x') ->
  (ex_wal x' = ex_wal x \/ wal_step (ex_wal x) (ex_wal x')) /\
  (ex_pipe x' = ex_pipe x \/ pipeline_works (ex_pipe x) (ex_pipe x')) /\ ex_submitted x' = ex_submitted x.
Proof using.
  intros Ha Hs. destruct a as [t|i u v| | |c s|c|]; try done; simpl in Hs.
  - by eapply exchange_worker_parts.
  - destruct (flusher_step (ex_wal x)) eqn:Hf; [|done]. injection Hs as (w & -> & [= <-])%obind_ok.
    split_and!; [right; by exists WA_flusher|by left|done].
  - unfold on_pipe in Hs. simpl in Hs. destruct (dispatcher_step _) eqn:Hd; [|done].
    injection Hs as (p & -> & [= <-])%obind_ok. split_and!; [by left|right; by exists PA_dispatcher|done].
  - unfold main_step in Hs. destruct (ex_phase x); try done.
    + injection Hs as <-. auto.
    + destruct (ex_tasks x); [|done]. destruct (bool_decide _); [|done]. injection Hs as <-. auto.
    + destruct (stopper_step (ex_wal x)) eqn:Hf; destruct (ws_stopper (ex_wal x)); try done;
        try (injection Hs as <-; by auto); injection Hs as (w & -> & [= <-])%obind_ok;
        (split_and!; [right; by exists WA_stopper|by left|done]).
    + destruct (pipe_stopper_step (ex_pipe x)) eqn:Hf; destruct (pp_stopper (ex_pipe x)); try done;
        try (injection Hs as <-; by auto); injection Hs as (w & -> & [= <-])%obind_ok;
        (split_and!; [by left|right; by exists PA_stopper|done]).
Qed.

Lemma exchange_parts x x' : exchange_step x x' ->
  (ex_wal x' = ex_wal x \/ wal_step (ex_wal x) (ex_wal x')) /\
  (ex_pipe x' = ex_pipe x \/ pipeline_step (ex_pipe x) (ex_pipe x')).
Proof using.
  intros (a & _ & Hs). destruct a as [t|i u v| | |c s|c|];
    try (match type of Hs with exchange_action_step ?a _ = _ =>
           destruct (exchange_thread_parts a x x' I Hs) as (Hw & [->|Hp%pipeline_works_step] & _); by auto end);
    simpl in Hs.
  - destruct (ex_phase x); try done. injection Hs as <-. auto.
  - injection Hs as <-. split; [by left|right; by exists (PA_add c s)].
  - injection Hs as <-. split; [by left|right; by exists (PA_remove c)].
Qed.

Lemma exchange_pipe_reachable x : exchange_reachable x -> pipeline_reachable (ex_pipe x).
Proof using.
  induction 1 as [x [env ->]|x x' Hr IH Hs]; [by apply reach_init|].
  destruct (exchange_parts x x' Hs) as [_ [->|Hp]]; [done|]. by eapply reach_step.
Qed.

(** The log grows by one record at a time. *)
Lemma logged_step x x' : exchange_step x x' ->
  logged (ex_wal x') = logged (ex_wal x) \/ exists e, logged (ex_wal x') = logged (ex_wal x) ++ [e].
Proof using.
  intros Hs. destruct (exchange_parts x x' Hs) as [[->|[a Ha]] _]; [by left|].
  destruct a as [tid e|tid| |]; simpl in Ha.
  - destruct (ws_writers _ !! tid); [done|]. injection Ha as <-. by left.
  - unfold writer_step in Ha. destruct (ws_writers _ !! tid) as [[e|e|e]|]; [| | |done];
      injection Ha as Ha; [by rewrite <- Ha; left..|].
    apply obind_ok in Ha as ([[|] q] & _ & [= <-]); simpl; eauto.
  - left. by apply flusher_step_frame.
  - left. by apply stopper_step_frame.
Qed.

(** Every prefix of the log was the log at an earlier moment. *)
Lemma log_moment x : exchange_reachable x -> forall es rest, logged (ex_wal x) = es ++ rest ->
  exists x0, exchange_reachable x0 /\ star exchange_step x0 x /\ logged (ex_wal x0) = es.
Proof using.
  induction 1 as [x Hx|x x' Hr IH Hs]; intros es rest Hl.
  - destruct Hx as [env ->]. simpl in Hl. symmetry in Hl. apply app_nil in Hl as [-> ->].
    exists (init_exchange env). split; [apply reach_init; by exists env|]. split; [apply star_refl|done].
  - destruct rest as [|e rest _] using rev_ind.
    { rewrite app_nil_r in Hl. exists x'. split; [by eapply reach_step|]. split; [apply star_refl|done]. }
    rewrite app_assoc in Hl.
    assert (logged (ex_wal x) = es ++ rest \/ logged (ex_wal x) = (es ++ rest) ++ [e]) as [Hx|Hx].
    { destruct (logged_step x x' Hs) as [He|[e' He]]; rewrite He in Hl; [by right|left].
      by apply app_inj_tail in Hl as [? _]. }
    + destruct (IH es rest Hx) as (x0 & Hx0 & Hstar & Hl0). exists x0. split; [done|]. split; [|done].
      eapply star_trans; [done|by apply star_one].
    + rewrite <- app_assoc in Hx. destruct (IH es _ Hx) as (x0 & Hx0 & Hstar & Hl0). exists x0.
      split; [done|]. split; [|done]. eapply star_trans; [done|by apply star_one].
Qed.

(** Replaying a file that holds a log and a torn record. *)
Lemma replay_of_records es st torn env : Forall fields_ok es ->
  replay_all es (mkReplayState new_registry (reset_ids 1 env) 0) = Ok st ->
  (length torn < sizeof WALEntry)%nat ->
  replay (Some (wal_bytes es ++ torn)) new_registry env = Ok (true, st).
Proof using.
  intros Hes Hall Ht. unfold replay. rewrite replay_loop_records; [by rewrite Hall|done..|].
  pose proof (wal_bytes_length _ Hes). rewrite length_app. lia.
Qed.

Lemma replay_of_log es rep torn env : Forall fields_ok es -> replays_to (reset_ids 1 env) es rep ->
  (length torn < sizeof WALEntry)%nat ->
  exists st, replay (Some (wal_bytes es ++ torn)) new_registry env = Ok (true, st) /\ rs_registry st = rep.
Proof using.
  intros Hes (st & Hall & Hst) Ht. exists st. split; [by apply replay_of_records|done].
Qed.

Lemma result_report_owned x r : exchange_reachable x -> r ∈ result_reports (ex_results x) ->
  owner (ex_submitted x) (er_order_id r) (er_client_id r).
Proof using All.
  intros Hr Hrr. destruct (exchange_reachable_inv w_env x Hr) as [_ _ [_ _ _ _ _ _ Hown] _ _ _ _].
  apply list_elem_of_bind in Hrr as (tr & Hrr & Htr). rewrite Forall_forall in Hown.
  specialize (Hown tr Htr). unfold result_owned in Hown. rewrite Forall_forall in Hown. by apply Hown.
Qed.

(** A report that has been looked up is one of a result. *)
Lemma looked_up_result x r o : exchange_reachable x -> (r, o) ∈ looked_up (ex_pipe x) ->
  r ∈ result_reports (ex_results x).
Proof using All.
  intros Hr Hlu. destruct (exchange_reachable_inv w_env x Hr) as [_ Hp [_ _ Hrep _ _ _ _] _ _ _ _].
  simpl in Hrep. rewrite Hrep. apply elem_of_app. left.
  destruct Hp as [(cr & ct & rs & ts & _ & _ & -> & _) _ _ _].
  apply elem_of_app. left. apply list_elem_of_fmap. by exists (r, o).
Qed.

(** What is handed to a session, or about to be, has been looked up. *)
Lemma sent_looked_up x c r : exchange_reachable x ->
  (c, r) ∈ handed (ex_pipe x) \/ pp_dispatcher (ex_pipe x) = D_send c r ->
  (r, Some c) ∈ looked_up (ex_pipe x).
Proof using All.
  intros Hr Hin. destruct (exchange_reachable_inv w_env x Hr) as [_ Hp _ _ _ _ _].
  assert ((c, r) ∈ sends_of (looked_up (ex_pipe x))) as Hs.
  { rewrite (pv_handed _ Hp). apply elem_of_app. destruct Hin as [Hin| ->]; [by left|right; set_solver]. }
  apply list_elem_of_omap in Hs as ([r' [c'|]] & Hs & [= -> ->]). done.
Qed.

Lemma exchange_reachable_any env x : exchange_reachable x -> ex_inv env x.
Proof using. apply exchange_reachable_inv. Qed.
End Facts.

(** ** A run of four tasks on two workers *)

(** Make the steps that can be made, in the given order. *)
Definition exchange_try {S QW QR QT} `{Fifo QW WALEntry} `{Fifo QR ExecutionReport} `{Fifo QT Trade}
    (acts : list (exchange_action S)) (x : ExchangeSystem S QW QR QT) : ExchangeSystem S QW QR QT :=
  foldl (fun x a => match exchange_action_step a x with Some (Ok x') => x' | _ => x end) x acts.

Lemma exchange_try_reachable {S QW QR QT} `{Fifo QW WALEntry} `{Fifo QR ExecutionReport} `{Fifo QT Trade}
    (acts : list (exchange_action S)) : forall x : ExchangeSystem S QW QR QT,
  exchange_reachable x -> Forall action_ok acts -> exchange_reachable (exchange_try acts x).
Proof.
  induction acts as [|a acts IH]; intros x Hr Hok; [done|]. apply Forall_cons in Hok as [Ha Hok].
  simpl. apply IH; [|done]. destruct (exchange_action_step a x) as [[x'|f]|] eqn:Hs; try done.
  eapply reach_step; [exact Hr|]. by exists a.
Qed.

Definition w_tasks : list (exchange_action nat) :=
  [EX_add 1 10; EX_add 2 20; EX_submit (w_task_order 1 "AAPL" Buy 100 10 1);
   EX_submit (w_task_order 2 "MSFT" Sell 300 5 2); EX_submit (w_task_order 3 "AAPL" Sell 100 4 2);
   EX_submit (w_modify_task 2 "MSFT" 290 7 2)].

Definition w_worker (i : nat) : exchange_action nat := EX_worker i (w_uninit 52) (w_uninit 8).

Definition w_exchange (turns flushes : nat) : list (exchange_action nat) :=
  w_tasks ++ concat (replicate turns [w_worker 1; w_worker 2; w_worker 1; EX_dispatcher]) ++
  replicate flushes EX_flusher.

Definition w_exchange_stop : list (exchange_action nat) :=
  w_tasks ++ concat (replicate 60 [w_worker 1; w_worker 2]) ++
  concat (replicate 80 [EX_main; EX_flusher; EX_dispatcher]).

Definition w_started : ExchangeSystem nat (MPSCQueue WALEntry) (MPSCQueue ExecutionReport) (MPSCQueue Trade) :=
  init_exchange w_env.

Lemma w_tasks_action_ok : Forall action_ok w_tasks.
Proof.
  repeat constructor; simpl; unfold is_u64, is_u32, fits_chars; simpl; try lia; try done;
    intros Hin; repeat (apply elem_of_cons in Hin as [Hin|Hin]; [discriminate Hin|]);
    by apply not_elem_of_nil in Hin.
Qed.

Lemma w_exchange_reachable turns flushes :
  exchange_reachable (exchange_try (w_exchange turns flushes) w_started).
Proof.
  apply exchange_try_reachable; [apply reach_init; by exists w_env|].
  apply Forall_app. split; [exact w_tasks_action_ok|]. apply Forall_app. split.
  - induction turns as [|n IH]; [constructor|]. by repeat constructor.
  - induction flushes as [|n IH]; [constructor|]. by constructor.
Qed.

Lemma w_stop_reachable : exchange_reachable (exchange_try w_exchange_stop w_started).
Proof.
  apply exchange_try_reachable; [apply reach_init; by exists w_env|].
  apply Forall_app. split; [exact w_tasks_action_ok|]. repeat constructor.
Qed.

(** ** Properties *)

(** C10: the exchange implements the pool of [ThreadPool].  Under any
    interleaving every step of every thread completes and is, in the books, the
    tasks, the workers, the log accepted, the reports published and the results,
    one step of the pool or none: the calls of the log and of the pipeline act as
    single steps. *)
Theorem exchange_refines_pool {S QW QR QT} `{FifoLaws QW WALEntry} `{FifoLaws QR ExecutionReport}
    `{FifoLaws QT Trade} (x : ExchangeSystem S QW QR QT) a r :
  exchange_reachable x -> action_ok a -> exchange_action_step a x = Some r ->
  exists x', r = Ok x' /\ (trace_of x' = trace_of x \/ trace_step (trace_of x) (trace_of x')).
Proof.
  intros Hr Ha Hs.
  destruct (exchange_step_good w_env a x r (exchange_reachable_any _ x Hr) Ha Hs) as (x' & -> & _ & Hm).
  by exists x'.
Qed.

Lemma exchange_refines_pool_witness : exists x',
  let x := exchange_try (w_exchange 4 0) w_started in
  exchange_action_step (w_worker 1) x = Some (Ok x') /\ length (logged (ex_wal x')) = 1 /\
  (trace_of x' = trace_of x \/ trace_step (trace_of x) (trace_of x')).
Proof.
  destruct (exchange_action_step (w_worker 1) (exchange_try (w_exchange 4 0) w_started)) as [[x'|f]|] eqn:E;
    [|exfalso; vm_compute in E; discriminate E..].
  exists x'. split; [exact E|]. split.
  { pose proof (f_equal (fun r => match r with Some (Ok x) => length (logged (ex_wal x)) | _ => 0 end) E)
      as El. vm_compute in El. symmetry. exact El. }
  destruct (exchange_refines_pool _ (w_worker 1) _ (w_exchange_reachable 4 0) (conj eq_refl eq_refl) E)
    as (x2 & [= <-] & Hm). exact Hm.
Defined.

(** C3: crash recovery.  Whatever has reached the file when the process dies, a
    torn last record included, replays into the books of one earlier moment of
    the run, up to client ids: each book is what the live book was then, or what
    it became by the one operation that was inside its critical section. *)
Theorem exchange_crash_recovery {S QW QR QT} `{FifoLaws QW WALEntry} `{FifoLaws QR ExecutionReport}
    `{FifoLaws QT Trade} (x : ExchangeSystem S QW QR QT) torn env :
  exchange_reachable x -> (length torn < sizeof WALEntry)%nat ->
  exists x0 st, exchange_reachable x0 /\ star exchange_step x0 x /\
    logged (ex_wal x0) = wrote (ex_wal x) /\
    replay (Some (disk (ws_wal (ex_wal x)) ++ torn)) new_registry env = Ok (true, st) /\
    forall sym,
      (unlocked sym (ex_workers x0) ->
         book_sim (book_of sym (rs_registry st)) (book_of sym (ex_registry x0))) /\
      (forall i t op, ex_workers x0 !! i = Some (WK_locked t op) -> task_symbol t = sym ->
         exists b res env' u,
           apply_op op (None : option (unit -> unit)) (book_of sym (ex_registry x0)) (reset_ids 1 env) tt
             = Ok (b, res, env', u) /\ book_sim (book_of sym (rs_registry st)) b).
Proof.
  intros Hr Ht. pose proof (xi_wal _ _ (exchange_reachable_any env x Hr)) as [(c & vs & _ & Hl & _) Hd _ _].
  destruct (log_moment x Hr _ _ Hl) as (x0 & Hx0 & Hstar & Hl0).
  destruct (xi_trace _ _ (exchange_reachable_any (reset_ids 1 env) x0 Hx0))
    as [[_ _ _ _ Hf (rep & Hrep & _ & Hsim)] _ _ _ _ _ _]. simpl in Hf, Hrep, Hsim.
  destruct (replay_of_log _ _ torn env Hf Hrep Ht) as (st & Hst & <-).
  exists x0, st. rewrite Hd, <- Hl0. split_and!; try done.
Qed.

Lemma exchange_crash_recovery_witness : exists x0 st,
  let x := exchange_try (w_exchange 40 4) w_started in
  length (wrote (ex_wal x)) = 2 /\ length (logged (ex_wal x)) = 5 /\ star exchange_step x0 x /\
  replay (Some (disk (ws_wal (ex_wal x)) ++ w_uninit 20)) new_registry w_env = Ok (true, st) /\
  forall sym, unlocked sym (ex_workers x0) ->
    book_sim (book_of sym (rs_registry st)) (book_of sym (ex_registry x0)).
Proof.
  assert (length (w_uninit 20) < sizeof WALEntry)%nat as Hl by (vm_compute; lia).
  destruct (exchange_crash_recovery _ (w_uninit 20) w_env (w_exchange_reachable 40 4) Hl)
    as (x0 & st & _ & Hstar & _ & Hst & Hsim).
  exists x0, st. split; [vm_compute; reflexivity|]. split; [vm_compute; reflexivity|].
  split; [exact Hstar|]. split; [exact Hst|]. intros sym. exact (proj1 (Hsim sym)).
Defined.

(** Recovery after a shutdown.  Once the main thread has shut down the pool,
    the log and the pipeline, replaying the log's file rebuilds exactly the books
    the exchange ended with, up to client ids. *)
Theorem exchange_shutdown_recovers {S QW QR QT} `{FifoLaws QW WALEntry} `{FifoLaws QR ExecutionReport}
    `{FifoLaws QT Trade} (x : ExchangeSystem S QW QR QT) env :
  exchange_reachable x -> ex_phase x = MP_done ->
  exists st, replay (Some (disk (ws_wal (ex_wal x)))) new_registry env = Ok (true, st) /\
    registry_sim (rs_registry st) (ex_registry x).
Proof.
  intros Hr Hph. destruct (exchange_reachable_any (reset_ids 1 env) x Hr) as [Hw _ [Hpool _ _ _ _ _ _] _ _ _ Hpk].
  unfold phase_ok in Hpk. rewrite Hph in Hpk. destruct Hpk as ((_ & Hk & Hq & _) & Hend & _).
  destruct Hpool as [_ _ _ _ Hf (rep & Hrep & _ & Hsim)]. simpl in Hf, Hrep, Hsim.
  destruct (replay_of_log _ _ [] env Hf Hrep) as (st & Hst & <-); [vm_compute; lia|].
  exists st. destruct Hw as [_ Hd _ He]. rewrite Hd, (qi_done _ _ Hq (He Hend)).
  rewrite app_nil_r in Hst. split; [exact Hst|]. intros sym. apply Hsim. rewrite Hk. apply map_Forall_empty.
Qed.

Lemma exchange_shutdown_recovers_witness : exists st,
  let x := exchange_try w_exchange_stop w_started in
  ex_phase x = MP_done /\ length (wrote (ex_wal x)) = 5 /\
  replay (Some (disk (ws_wal (ex_wal x)))) new_registry w_env = Ok (true, st) /\
  registry_sim (rs_registry st) (ex_registry x).
Proof.
  assert (ex_phase (exchange_try w_exchange_stop w_started) = MP_done) as Hph by (vm_compute; reflexivity).
  destruct (exchange_shutdown_recovers _ w_env w_stop_reachable Hph) as (st & Hst & Hsim).
  exists st. split; [exact Hph|]. split; [vm_compute; reflexivity|]. exact (conj Hst Hsim).
Defined.

(** C8: nothing is lost by a shutdown.  Once it is over, every task accepted has
    been executed exactly once, and the reports of all executions, and no others,
    have been taken out by the dispatcher, those of one execution in order; each
    whose client had a session then was handed to that session. *)
Theorem exchange_shutdown_delivers {S QW QR QT} `{FifoLaws QW WALEntry} `{FifoLaws QR ExecutionReport}
    `{FifoLaws QT Trade} (x : ExchangeSystem S QW QR QT) :
  exchange_reachable x -> ex_phase x = MP_done ->
  ex_submitted x ≡ₚ (ex_results x).*1 /\
  (looked_up (ex_pipe x)).*1 ≡ₚ result_reports (ex_results x) /\
  Forall (fun tr => sublist (mr_execution_reports tr.2) (looked_up (ex_pipe x)).*1) (ex_results x) /\
  handed (ex_pipe x) = sends_of (looked_up (ex_pipe x)).
Proof.
  intros Hr Hph. destruct (exchange_reachable_any w_env x Hr) as [_ Hp [_ Ht Hrep _ Ho _ _] _ _ _ Hpk].
  unfold phase_ok in Hpk. rewrite Hph in Hpk. destruct Hpk as ((Hts & Hk & _ & Hq) & _ & Hend).
  simpl in Ht, Hrep, Ho. rewrite Hts, Hk, in_hands_empty in Ht. rewrite Hk, in_hands_empty, app_nil_r in Hrep.
  pose proof (pv_end _ Hp Hend) as Hd. rewrite (pq_empty _ _ Hq) by by right.
  split; [done|]. split; [by symmetry|]. split.
  - eapply Forall_impl; [exact Ho|]. intros tr (sent & rest & -> & Hsub & Hrest). simpl in Hsub, Hrest.
    destruct Hrest as [->|(i & w & Hi & _)]; [by rewrite app_nil_r|]. by rewrite Hk, lookup_empty in Hi.
  - rewrite (pv_handed _ Hp), Hd. simpl. by rewrite app_nil_r.
Qed.

Lemma exchange_shutdown_delivers_witness :
  let x := exchange_try w_exchange_stop w_started in
  ex_phase x = MP_done /\ length (handed (ex_pipe x)) = 5 /\ length (ex_submitted x) = 4 /\
  ex_submitted x ≡ₚ (ex_results x).*1 /\ (looked_up (ex_pipe x)).*1 ≡ₚ result_reports (ex_results x).
Proof.
  assert (ex_phase (exchange_try w_exchange_stop w_started) = MP_done) as Hph by (vm_compute; reflexivity).
  destruct (exchange_shutdown_delivers _ w_stop_reachable Hph) as (Ht & Hr & _).
  split; [exact Hph|]. split; [vm_compute; reflexivity|]. split; [vm_compute; reflexivity|].
  exact (conj Ht Hr).
Defined.

(** Reports reach their owners.  At every moment, each report handed to a
    session names an order and a client who submitted an order of that id, and
    the session was that client's when the report was looked up. *)
Theorem exchange_reports_to_owner {S QW QR QT} `{FifoLaws QW WALEntry} `{FifoLaws QR ExecutionReport}
    `{FifoLaws QT Trade} (x : ExchangeSystem S QW QR QT) c r :
  exchange_reachable x -> (c, r) ∈ handed (ex_pipe x) ->
  owner (ex_submitted x) (er_order_id r) (er_client_id r) /\
  exists s0, pipeline_reachable s0 /\ star pipeline_step s0 (ex_pipe x) /\
    get_session (er_client_id r) (pp_sessions s0) = Some c.
Proof.
  intros Hr Hin. assert ((r, Some c) ∈ looked_up (ex_pipe x)) as Hlu by (apply sent_looked_up; auto).
  split; [|by apply looked_up_at; [apply exchange_pipe_reachable|]].
  apply result_report_owned; [done|]. by eapply looked_up_result.
Qed.

Lemma exchange_reports_to_owner_witness :
  let x := exchange_try w_exchange_stop w_started in
  exists c r, (c, r) ∈ handed (ex_pipe x) /\ er_order_id r = 2%Z /\ er_client_id r = 2%Z /\
    owner (ex_submitted x) (er_order_id r) (er_client_id r).
Proof.
  destruct (list_find (fun cr => er_order_id cr.2 = 2%Z)
    (handed (ex_pipe (exchange_try w_exchange_stop w_started)))) as [[n [c r]]|] eqn:E.
  2: exfalso; vm_compute in E; discriminate E.
  assert (er_order_id r = 2%Z /\ er_client_id r = 2%Z) as [Hi Hc].
  { vm_compute in E. injection E as <- <- <-. split; reflexivity. }
  apply list_find_Some in E as (Hl & _). apply list_elem_of_lookup_2 in Hl.
  exists c, r. split; [exact Hl|]. split; [exact Hi|]. split; [exact Hc|].
  exact (proj1 (exchange_reports_to_owner _ c r w_stop_reachable Hl)).
Defined.

(** The log is not written ahead of the reports: a client's session can be
    handed the report that its order was accepted while the file is still empty,
    so that a crash then loses an order that was acknowledged. *)
Theorem exchange_report_before_record :
  exists x : ExchangeSystem nat (MPSCQueue WALEntry) (MPSCQueue ExecutionReport) (MPSCQueue Trade),
    exchange_reachable x /\ disk (ws_wal (ex_wal x)) = [] /\
    (fun '(session, r) => (session, er_order_id r, er_status r)) <$> handed (ex_pipe x)
      = [(10, 1%Z, New)].
Proof.
  exists (exchange_try (w_exchange 10 0) w_started). split; [apply w_exchange_reachable|].
  split; vm_compute; reflexivity.
Qed.

(** ** Orders of execution *)

(** A client's order and its cancellation, each taken by a worker of its own; the
    second worker gets to the book first. *)
Definition w_overtaking : list (exchange_action nat) :=
  [EX_submit (w_task_order 1 "AAPL" Buy 100 10 1); EX_submit (w_cancel_task 1 "AAPL" 1); w_worker 1] ++
  replicate 20 (w_worker 2) ++ replicate 20 (w_worker 1).

Lemma w_overtaking_reachable : exchange_reachable (exchange_try w_overtaking w_started).
Proof.
  apply exchange_try_reachable; [apply reach_init; by exists w_env|].
  repeat constructor; simpl; unfold is_u64, is_u32, fits_chars; simpl; try lia; try done;
    intros Hin; repeat (apply elem_of_cons in Hin as [Hin|Hin]; [discriminate Hin|]);
    by apply not_elem_of_nil in Hin.
Qed.

(** Tasks of one symbol can overtake each other.  A client sends an order
    and then cancels it; the cancellation is executed first, finds nothing and
    is not answered; the order then rests in the book. *)
Theorem exchange_cancel_overtakes :
  exists x : ExchangeSystem nat (MPSCQueue WALEntry) (MPSCQueue ExecutionReport) (MPSCQueue Trade),
    exchange_reachable x /\
    ex_submitted x = [w_task_order 1 "AAPL" Buy 100 10 1; w_cancel_task 1 "AAPL" 1] /\
    (ex_results x).*1 = [w_cancel_task 1 "AAPL" 1; w_task_order 1 "AAPL" Buy 100 10 1] /\
    ex_tasks x = [] /\ ex_workers x = ∅ /\
    (fun r => (er_order_id r, er_status r)) <$> result_reports (ex_results x) = [(1%Z, New)] /\
    resting_ids (book_of "AAPL" (ex_registry x)) = [1%Z].
Proof.
  exists (exchange_try w_overtaking w_started). split; [apply w_overtaking_reachable|].
  split_and!; vm_compute; reflexivity.
Qed.
