(* ===== verification/ExchangeLiveness.v ===== *)
(** * The exchange can always be shut down

    From every state the exchange can reach, the steps of its own threads alone,
    with no task and no session arriving, can take the main thread to the end of
    [pipeline.stop()]: no thread waits for ever for the mutex of a book, for a
    queue that stays closed, or for a thread that does not end. *)

From stdpp Require Import base list gmap strings.
From Stdlib Require Import ZArith Lia Ascii Wellfounded Lexicographic_Product Relation_Operators.
From S2P Require Import Prelude Types Bytes BinarySerializer SerializerTheorems Fifo MpscQueue OrderBook BookInv BookOps BookRegistry SafeQueue Wal WalSystem ConnectionManager PipelineSystem ThreadPool ReplayEngine Recovery PoolTheorems PoolTrace Exchange ExchangeInv ExchangeTheorems.
Local Open Scope exchange_scope.
Local Open Scope list_scope.

(** ** Definitions *)

(** A step of one of the threads of the exchange. *)
Definition thread_action {S} (a : exchange_action S) : Prop :=
  match a with
  | EX_worker _ u v => length u = 52 /\ length v = 8
  | EX_flusher | EX_dispatcher | EX_main => True
  | EX_submit _ | EX_add _ _ | EX_remove _ => False
  end.

(** The steps left to a worker after the match, calls included. *)
Definition work (w : worker) : nat :=
  match w with
  | WK_trades fs => 1 + 5 * length fs
  | WK_reports rs fs => 2 + 5 * length rs + 5 * length fs
  | WK_fills res fs =>
      3 + 5 * length fs + 5 * length (mr_execution_reports res) + 5 * length (mr_fills res)
  | WK_locked _ _ => 1
  | WK_book _ => 6
  | WK_task _ => 7
  end.

(** Whether the match is still to come. *)
Definition unmatched (w : worker) : nat :=
  match w with WK_task _ | WK_book _ | WK_locked _ _ => 1 | _ => 0 end.

Definition total (f : nat -> worker -> nat) (ws : gmap nat worker) : nat :=
  sum_list_with (fun iw => f iw.1 iw.2) (map_to_list ws).

#[local] Instance flusher_eq_dec : EqDecision flusher.
Proof. solve_decision. Defined.

Section Liveness.
Context {S QW QR QT : Type} `{FifoLaws QW WALEntry} `{FifoLaws QR ExecutionReport} `{FifoLaws QT Trade}.
Implicit Types x : ExchangeSystem S QW QR QT.

Definition thread_step x x' : Prop :=
  exists a, thread_action a /\ exchange_action_step a x = Some (Ok x').

(** How far worker [i] is in a call. *)
Definition call_depth x (i : nat) : nat :=
  match ws_writers (ex_wal x) !! i, pp_publishers (ex_pipe x) !! i with
  | Some (W_check _), _ => 1 | Some (W_test _), _ => 2 | Some (W_enqueue _), _ => 3
  | None, Some (P_check _) => 1 | None, Some (P_test _) => 2 | None, Some (P_enqueue _) => 3
  | None, None => 0
  end.

(** The tasks not yet matched, and the steps of the workers. *)
Definition to_match x : nat := 2 * length (ex_tasks x) + total (fun _ => unmatched) (ex_workers x).
Definition to_do x : nat := total (fun i w => work w - call_depth x i) (ex_workers x).

(** ** Sums over the workers *)

Lemma total_split f (ws : gmap nat worker) i w : ws !! i = Some w ->
  total f ws = f i w + total f (delete i ws).
Proof using.
  intros Hi. unfold total. rewrite <- (insert_delete_id ws i w Hi) at 1.
  rewrite map_to_list_insert by apply lookup_delete_eq. done.
Qed.

Lemma total_ext f g (ws : gmap nat worker) : (forall i w, ws !! i = Some w -> f i w = g i w) ->
  total f ws = total g ws.
Proof using.
  intros Hfg. unfold total. assert (forall iw, iw ∈ map_to_list ws -> f iw.1 iw.2 = g iw.1 iw.2) as Hl.
  { intros [i w] Hin. apply elem_of_map_to_list in Hin. by apply Hfg. }
  induction (map_to_list ws) as [|iw l IH]; [done|]. simpl. rewrite Hl by set_solver.
  rewrite IH; [done|]. set_solver.
Qed.

(** Moving worker [i] changes its share only. *)
Lemma total_moved f g (ws ws' : gmap nat worker) i w : ws !! i = Some w ->
  delete i ws' = delete i ws -> (forall j v, j <> i -> ws' !! j = Some v -> f j v = g j v) ->
  total f ws' + g i w = total g ws + match ws' !! i with Some w' => f i w' | None => 0 end.
Proof using.
  intros Hi Hd Hfg. rewrite (total_split g ws i w Hi).
  assert (total f (delete i ws') = total g (delete i ws)) as Ht.
  { rewrite <- Hd. apply total_ext. intros j v [Hne Hj]%lookup_delete_Some. by apply Hfg. }
  destruct (ws' !! i) as [w'|] eqn:Hi'.
  - rewrite (total_split f ws' i w' Hi'). lia.
  - rewrite delete_id in Ht by done. lia.
Qed.

(** ** A worker's step makes progress *)

(** Worker [i], in state [w], moves: it matches, or has less to do. *)
Record moves i w x x' : Prop := mkMoves {
  mv_step : thread_step x x';
  mv_phase : ex_phase x' = ex_phase x;
  mv_tasks : ex_tasks x' = ex_tasks x;
  mv_workers : delete i (ex_workers x') = delete i (ex_workers x);
  mv_depth : forall j, j <> i -> call_depth x' j = call_depth x j;
  mv_less : match ex_workers x' !! i with
            | None => unmatched w = 0 /\ call_depth x i < work w
            | Some w' => unmatched w' < unmatched w \/
                unmatched w' = unmatched w /\ work w' - call_depth x' i < work w - call_depth x i
            end }.

Definition junk52 : list ascii := replicate 52 "000"%char.
Definition junk8 : list ascii := replicate 8 "000"%char.

Lemma worker_thread_step i x x' : exchange_worker i junk52 junk8 x = Some (Ok x') -> thread_step x x'.
Proof using. intros Hs. by exists (EX_worker i junk52 junk8). Qed.

Lemma wal_call_work w e : wal_call_ok w e -> 6 <= work w /\ work (call_returned w) + 3 < work w /\
  unmatched (call_returned w) = unmatched w.
Proof using.
  destruct w as [t|t|t op|res [|f fs]|rs fs|fs]; try done; simpl; [|lia].
  intros (u & v & op & _ & _ & -> & _). simpl. lia.
Qed.

Lemma pipe_call_work w m : pipe_call_ok w m -> 6 <= work w /\ work (call_returned w) + 3 < work w /\
  unmatched (call_returned w) = unmatched w.
Proof using. destruct w as [t|t|t op|res fs|[|r rs] fs|[|f fs]]; try done; simpl; lia. Qed.

Lemma in_wal_call_moves i wr w x : ex_inv w_env x -> ws_writers (ex_wal x) !! i = Some wr ->
  ex_workers x !! i = Some w -> exists x', moves i w x x'.
Proof using.
  intros Hinv Hi Hk. destruct (xi_writers _ _ Hinv i wr Hi) as (k & Hk' & Hok). rewrite Hk in Hk'.
  injection Hk' as <-. destruct (wal_call_work _ _ Hok) as (Hw6 & Hw3 & Hum).
  destruct (phase_serving x (xi_phase _ _ Hinv)) as [Hs _]; [left; by eapply worker_present|].
  destruct (serving_running x (xi_wal _ _ Hinv) (proj1 Hs)) as (Hrun & vs & Hq).
  assert (forall x', in_wal_call i x = Some (Ok x') -> thread_step x x') as Hstep.
  { intros x' Hx. apply worker_thread_step with i. unfold exchange_worker. by rewrite Hi. }
  unfold in_wal_call, writer_step in Hstep. rewrite Hi in Hstep.
  destruct wr as [e|e|e]; [rewrite Hrun in Hstep..|].
  1,2: eexists; constructor; [apply Hstep; cbn [obind ws_writers]; rewrite lookup_insert_eq;
         unfold return_if; simpl; rewrite Hk; reflexivity|done..| |];
       [intros j Hj; unfold call_depth; simpl; by rewrite lookup_insert_ne|];
       simpl; rewrite Hk; right; unfold call_depth; simpl; rewrite lookup_insert_eq, Hi; lia.
  destruct (fifo_enqueue_open _ _ e Hq) as (q' & Hen & _). rewrite Hen in Hstep.
  eexists; constructor; [apply Hstep; cbn [obind ws_writers]; rewrite lookup_delete_eq,
    bool_decide_eq_true_2 by done; unfold return_if; simpl; rewrite Hk; reflexivity|done|done|..].
  - simpl. by rewrite delete_insert_eq.
  - intros j Hj. unfold call_depth. simpl. by rewrite lookup_delete_ne.
  - simpl. rewrite lookup_insert_eq. right. unfold call_depth. simpl. rewrite lookup_delete_eq, Hi.
    destruct (pp_publishers (ex_pipe x) !! i) as [p|] eqn:Hp; [|lia].
    destruct (xi_publishers _ _ Hinv i p Hp) as (k & Hk' & Hpc). rewrite Hk in Hk'. injection Hk' as <-.
    by destruct w as [| | |? []| |].
Qed.

Lemma in_pipe_call_moves i p w x : ex_inv w_env x -> ws_writers (ex_wal x) !! i = None ->
  pp_publishers (ex_pipe x) !! i = Some p -> ex_workers x !! i = Some w -> exists x', moves i w x x'.
Proof using.
  intros Hinv Hwi Hi Hk. destruct (xi_publishers _ _ Hinv i p Hi) as (k & Hk' & Hok). rewrite Hk in Hk'.
  injection Hk' as <-. destruct (pipe_call_work _ _ Hok) as (Hw6 & Hw3 & Hum).
  destruct (phase_serving x (xi_phase _ _ Hinv)) as [Hs _]; [left; by eapply worker_present|].
  destruct (pipe_open _ (xi_pipe _ _ Hinv) (proj2 Hs)) as (Hrun & rs & ts & Hqr & Hqt).
  assert (forall x', in_pipe_call i x = Some (Ok x') -> thread_step x x') as Hstep.
  { intros x' Hx. apply worker_thread_step with i. unfold exchange_worker. by rewrite Hwi, Hi. }
  unfold in_pipe_call, publisher_step in Hstep. rewrite Hi in Hstep.
  destruct p as [m|m|m]; [rewrite Hrun in Hstep..|].
  1,2: eexists; constructor; [apply Hstep; cbn [obind pp_publishers]; rewrite lookup_insert_eq;
         unfold return_if; simpl; rewrite Hk; reflexivity|done..| |];
       [intros j Hj; unfold call_depth; simpl; by rewrite lookup_insert_ne|];
       simpl; rewrite Hk; right; unfold call_depth; simpl; rewrite lookup_insert_eq, Hwi, Hi; lia.
  destruct (enqueue_message_repr m _ _ _ _ _ Hqr Hqt) as (ok & p' & Hen & _ & _). rewrite Hen in Hstep.
  assert (ok = true) as ->.
  { destruct m as [er|t]; simpl in Hen.
    - destruct (fifo_enqueue_open _ _ er Hqr) as (q & Hq & _). rewrite Hq in Hen. by injection Hen.
    - destruct (fifo_enqueue_open _ _ t Hqt) as (q & Hq & _). rewrite Hq in Hen. by injection Hen. }
  eexists; constructor; [apply Hstep; cbn [obind pp_publishers]; rewrite lookup_delete_eq,
    bool_decide_eq_true_2 by done; unfold return_if; simpl; rewrite Hk; reflexivity|done|done|..].
  - simpl. by rewrite delete_insert_eq.
  - intros j Hj. unfold call_depth. simpl. by rewrite lookup_delete_ne.
  - simpl. rewrite lookup_insert_eq. right. unfold call_depth. simpl. rewrite lookup_delete_eq, Hwi, Hi. lia.
Qed.

(** A worker in no call, about to make a call. *)
Lemma call_moves i w x : ex_workers x !! i = Some w ->
  ws_writers (ex_wal x) !! i = None -> pp_publishers (ex_pipe x) !! i = None -> 6 <= work w ->
  (exists e, exchange_worker i junk52 junk8 x = call_wal i e x) \/
  (exists m, exchange_worker i junk52 junk8 x = call_pipe i m x) ->
  exists x', moves i w x x'.
Proof using.
  intros Hk Hwi Hpi H6 [[e He]|[m Hm]].
  - eexists. constructor; [apply worker_thread_step with i; rewrite He; unfold call_wal; cbn [wstep];
      rewrite Hwi; reflexivity|done..| |].
    + intros j Hj. unfold call_depth. simpl. by rewrite lookup_insert_ne.
    + simpl. rewrite Hk. right. unfold call_depth. simpl. rewrite lookup_insert_eq, Hwi, Hpi. lia.
  - eexists. constructor; [apply worker_thread_step with i; rewrite Hm; unfold call_pipe; cbn [pipe_step];
      rewrite Hpi; reflexivity|done..| |].
    + intros j Hj. unfold call_depth. simpl. by rewrite lookup_insert_ne.
    + simpl. rewrite Hk. right. unfold call_depth. simpl. rewrite lookup_insert_eq, Hwi, Hpi. lia.
Qed.

(** The steps of a worker's own. *)
Lemma plain_moves i w x : ex_inv w_env x -> ex_workers x !! i = Some w -> plain_worker (Some w) ->
  ws_writers (ex_wal x) !! i = None -> pp_publishers (ex_pipe x) !! i = None ->
  exchange_worker i junk52 junk8 x = plain_step i x -> exists x', moves i w x x'.
Proof using.
  intros Hinv Hk Hpl Hwi Hpi He.
  assert (forall x', plain_step i x = Some (Ok x') -> thread_step x x') as Hstep.
  { intros x' Hx. apply worker_thread_step with i. by rewrite He. }
  unfold plain_step, worker_step in Hstep. simpl in Hstep. rewrite Hk in Hstep.
  destruct w as [t|t|t op|res [|f fs]|[|er rs'] fs|[|f fs]]; simpl in Hpl; try done.
  2:{ destruct (worker_task_op w_env i t (pool_of x)) as [op Hop]; [exact (ti_pool _ _ (xi_trace _ _ Hinv))|done|].
      congruence. }
  2:{ destruct (inv_match (fun _ => junk52) (fun _ => junk8) w_env (fun _ => eq_refl) (fun _ => eq_refl)
        i t op (pool_of x)) as (b' & res & env' & Hwb & _); [exact (ti_pool _ _ (xi_trace _ _ Hinv))|done|].
      simpl in Hwb. rewrite Hwb in Hstep.
      eexists. constructor; [apply Hstep; reflexivity|done|done|simpl; by rewrite delete_insert_eq|done|].
      simpl. rewrite lookup_insert_eq. left. simpl. lia. }
  all: eexists; constructor; [apply Hstep; reflexivity|done|done| |done|]; simpl;
    rewrite ?delete_insert_eq, ?delete_delete_eq, ?lookup_insert_eq, ?lookup_delete_eq; try done;
    try right; unfold call_depth; simpl; rewrite Hwi, Hpi; simpl; lia.
Qed.

(** A worker that does not wait for a mutex moves. *)
Lemma worker_moves i w x : ex_inv w_env x -> ex_workers x !! i = Some w ->
  (forall t, w = WK_book t -> ws_writers (ex_wal x) !! i = None -> book_free (task_symbol t) x) ->
  exists x', moves i w x x'.
Proof using.
  intros Hinv Hk Hfree.
  destruct (ws_writers (ex_wal x) !! i) as [wr|] eqn:Hwi; [by eapply in_wal_call_moves|].
  destruct (pp_publishers (ex_pipe x) !! i) as [p|] eqn:Hpi; [by eapply in_pipe_call_moves|].
  assert (exchange_worker i junk52 junk8 x = exchange_worker i junk52 junk8 x) as He by done.
  unfold exchange_worker at 2 in He. rewrite Hwi, Hpi, Hk in He.
  destruct w as [t|t|t op|res [|f fs]|[|er rs] fs|[|f fs]].
  2:{ destruct (worker_task_op w_env i t (pool_of x)) as [op Hop]; [exact (ti_pool _ _ (xi_trace _ _ Hinv))|done|].
      rewrite Hop, bool_decide_eq_true_2 in He by by apply Hfree.
      apply call_moves; [done..|simpl; lia|left; eauto]. }
  4:{ apply call_moves; [done..|simpl; lia|left; eauto]. }
  5:{ apply call_moves; [done..|simpl; lia|right; eauto]. }
  6:{ apply call_moves; [done..|simpl; lia|right; eauto]. }
  all: by apply plain_moves.
Qed.

(** Some worker can always move: who waits for a mutex waits for one that moves. *)
Lemma some_worker_moves x : ex_inv w_env x -> ex_workers x <> ∅ ->
  exists i w x', ex_workers x !! i = Some w /\ moves i w x x'.
Proof using.
  intros Hinv (i & w & Hi)%map_choose.
  assert ((forall t, w = WK_book t -> ws_writers (ex_wal x) !! i = None -> book_free (task_symbol t) x) \/
    exists t, ~ book_free (task_symbol t) x) as [Hfree|[t Hnf]].
  { destruct w as [t|t|t op|res fs|rs fs|fs]; try (by left).
    destruct (decide (book_free (task_symbol t) x)); [left|right; by exists t]. by intros t' [= <-]. }
  { destruct (worker_moves i w x Hinv Hi Hfree) as [x' Hx']. eauto. }
  unfold book_free in Hnf. apply map_not_Forall in Hnf as (j & v & Hj & Hh); [|apply _].
  apply not_false_is_true in Hh.
  destruct (worker_moves j v x Hinv Hj) as [x' Hx']; [|by exists j, v, x'].
  intros t' -> Hnone. simpl in Hh. rewrite Hnone in Hh. rewrite (bool_decide_eq_false_2 (is_Some None)) in Hh
    by apply is_Some_None. by rewrite andb_false_r in Hh.
Qed.

(** Its progress in the measure. *)
Lemma moves_less i w x x' : ex_workers x !! i = Some w -> moves i w x x' ->
  to_match x' < to_match x \/ to_match x' = to_match x /\ to_do x' < to_do x.
Proof using.
  intros Hi [_ _ Ht Hd Hj Hless]. unfold to_match, to_do. rewrite Ht.
  pose proof (total_moved (fun _ => unmatched) (fun _ => unmatched) _ _ i w Hi Hd (fun _ _ _ _ => eq_refl)) as Hm.
  pose proof (total_moved (fun j v => work v - call_depth x' j) (fun j v => work v - call_depth x j)
    _ _ i w Hi Hd) as Hw.
  rewrite (total_split (fun i w => work w - call_depth x i) _ i w Hi) in Hw |- *.
  simpl in Hm, Hw. destruct (ex_workers x' !! i) as [w'|] eqn:Hi'.
  - destruct Hless as [Hu|[Hu Hl]]; [left; lia|]. right. split; [lia|].
    specialize (Hw ltac:(intros j v Hne _; by rewrite Hj)). lia.
  - right. split; [lia|]. specialize (Hw ltac:(intros j v Hne _; by rewrite Hj)). lia.
Qed.

(** ** The flusher and the dispatcher end *)

Definition flushes (w w' : WalSystem QW) : Prop := flusher_step w = Some (Ok w').
Definition dispatches (p p' : PipelineSystem S QR QT) : Prop := dispatcher_step p = Some (Ok p').

Definition flusher_rank (f : flusher) (n : nat) : nat :=
  match f with F_done => 0 | F_empty => 1 | F_test => 2 | F_dequeue => match n with 0 => 3 | _ => 0 end end.

Lemma flusher_moves (w : WalSystem QW) c vs : fifo_repr (queue_ (ws_wal w)) c vs ->
  running_ (ws_wal w) = false -> ws_flusher w <> F_done ->
  exists w' vs', flushes w w' /\ running_ (ws_wal w') = false /\ fifo_repr (queue_ (ws_wal w')) c vs' /\
    4 * length vs' + flusher_rank (ws_flusher w') (length vs') <
      4 * length vs + flusher_rank (ws_flusher w) (length vs).
Proof using.
  intros Hq Hr Hf. unfold flushes, flusher_step. destruct (ws_flusher w); try done; rewrite ?Hr.
  - eexists _, vs. split; [done|]. split; [done|]. split; [done|]. simpl. lia.
  - rewrite (fifo_empty_repr _ _ _ Hq). cbn [obind].
    eexists _, vs. split; [done|]. split; [done|]. split; [done|]. destruct vs; simpl; lia.
  - destruct vs as [|e vs].
    + rewrite (fifo_dequeue_nil _ _ Hq). cbn [obind]. eexists _, []. split; [done|]. split; [done|].
      split; [done|]. simpl. lia.
    + destruct (fifo_dequeue_cons _ _ _ _ Hq) as (q' & -> & Hq'). cbn [obind].
      eexists _, vs. split; [done|]. split; [done|]. split; [done|]. simpl. lia.
Qed.

Lemma flusher_ends (w : WalSystem QW) c vs : fifo_repr (queue_ (ws_wal w)) c vs ->
  running_ (ws_wal w) = false -> exists w', star flushes w w' /\ ws_flusher w' = F_done.
Proof using.
  remember (4 * length vs + flusher_rank (ws_flusher w) (length vs)) as n eqn:Hn.
  revert w vs Hn. induction n as [n IH] using lt_wf_ind. intros w vs Hn Hq Hr.
  destruct (decide (ws_flusher w = F_done)) as [|Hne]; [exists w; split; [apply star_refl|done]|].
  destruct (flusher_moves w c vs Hq Hr Hne) as (w1 & vs1 & Hs & Hr1 & Hq1 & Hlt).
  destruct (IH _ ltac:(rewrite Hn; exact Hlt) w1 vs1 eq_refl Hq1 Hr1) as (w' & Hstar & Hd).
  exists w'. split; [by eapply star_step|done].
Qed.

Definition dispatcher_rank (d : dispatcher S) (n m : nat) : nat :=
  match d with
  | D_done => 0 | D_trades => 2 | D_reports => 3 | D_test => 4 | D_send _ _ => 7 | D_session _ => 8
  | D_trade => match m with 0 => 5 | _ => 0 end
  | D_report => match n, m with 0, 0 => 6 | _, _ => 1 end
  end.

(** Two queues: [rs] and [ts] are what they still hold. *)
Definition pipe_left (p : PipelineSystem S QR QT) (rs : list ExecutionReport) (ts : list Trade) : Prop :=
  ExecutionPipeline.running_ (pp_pipe p) = false /\
  exists c c', fifo_repr (ExecutionPipeline.report_queue_ (pp_pipe p)) c rs /\
    fifo_repr (ExecutionPipeline.trade_queue_ (pp_pipe p)) c' ts.

Definition dispatcher_left (d : dispatcher S) (rs : list ExecutionReport) (ts : list Trade) : nat :=
  10 * length rs + 20 * length ts + dispatcher_rank d (length rs) (length ts).

Lemma dispatcher_moves (p : PipelineSystem S QR QT) rs ts : pipe_left p rs ts ->
  pp_dispatcher p = D_done \/
  exists p' rs' ts', dispatches p p' /\ pipe_left p' rs' ts' /\
    dispatcher_left (pp_dispatcher p') rs' ts' < dispatcher_left (pp_dispatcher p) rs ts.
Proof using.
  intros (Hr & c & c' & Hqr & Hqt). unfold dispatches, dispatcher_step, pipe_left, dispatcher_left.
  destruct (pp_dispatcher p) as [| | | |r|s r| |] eqn:Ed; [right..|by left]; rewrite ?Hr.
  - eexists _, rs, ts. split; [done|]. simpl. split; [eauto|lia].
  - rewrite (fifo_empty_repr _ _ _ Hqr). cbn [obind]. eexists _, rs, ts. split; [done|]. simpl.
    split; [eauto|]. destruct rs; simpl; lia.
  - rewrite (fifo_empty_repr _ _ _ Hqt). cbn [obind]. eexists _, rs, ts. split; [done|]. simpl.
    split; [eauto|]. destruct ts, rs; simpl; lia.
  - destruct (dequeue_repr _ _ _ Hqr) as (q' & -> & Hq'). cbn [obind]. eexists _, (tail rs), ts.
    split; [done|]. simpl. split; [eauto|]. destruct rs, ts; simpl; lia.
  - destruct (get_session _ _); eexists _, rs, ts; (split; [done|]); simpl; (split; [eauto|]);
      destruct ts; simpl; lia.
  - eexists _, rs, ts. split; [done|]. simpl. split; [eauto|]. destruct ts; simpl; lia.
  - destruct (dequeue_repr _ _ _ Hqt) as (q' & -> & Hq'). cbn [obind]. eexists _, rs, (tail ts).
    split; [done|]. simpl. split; [eauto|]. destruct rs, ts; simpl; lia.
Qed.

Lemma dispatcher_ends (p : PipelineSystem S QR QT) rs ts : pipe_left p rs ts ->
  exists p', star dispatches p p' /\ pp_dispatcher p' = D_done.
Proof using.
  remember (dispatcher_left (pp_dispatcher p) rs ts) as n eqn:Hn.
  revert p rs ts Hn. induction n as [n IH] using lt_wf_ind. intros p rs ts Hn Hl.
  destruct (dispatcher_moves p rs ts Hl) as [Hd|(p1 & rs1 & ts1 & Hs & Hl1 & Hlt)].
  { exists p. split; [apply star_refl|done]. }
  destruct (IH _ ltac:(rewrite Hn; exact Hlt) p1 rs1 ts1 eq_refl Hl1) as (p' & Hstar & Hd).
  exists p'. split; [by eapply star_step|done].
Qed.

(** ** Shutting down *)

Lemma thread_exchange_step x x' : thread_step x x' -> exchange_step x x'.
Proof using. intros (a & Ha & Hs). exists a. split; [by destruct a|done]. Qed.

Lemma thread_star_inv x x' : ex_inv w_env x -> star thread_step x x' -> ex_inv w_env x'.
Proof using.
  intros Hi Hs. induction Hs; [done|]. apply IHHs.
  by apply (exchange_step_inv w_env s1 s2 Hi), thread_exchange_step.
Qed.

(** The workers end. *)
Lemma pool_joins x : ex_inv w_env x -> ex_phase x = MP_join ->
  exists x', star thread_step x x' /\ ex_phase x' = MP_join /\ ex_tasks x' = [] /\ ex_workers x' = ∅.
Proof using.
  remember (to_match x) as n eqn:Hn. remember (to_do x) as m eqn:Hm. revert m x Hn Hm.
  induction n as [n IHn] using lt_wf_ind. induction m as [m IHm] using lt_wf_ind. intros x Hn Hm Hinv Hph.
  assert (forall x1, thread_step x x1 -> ex_phase x1 = MP_join ->
    to_match x1 < n \/ to_match x1 = n /\ to_do x1 < m ->
    exists x', star thread_step x x' /\ ex_phase x' = MP_join /\ ex_tasks x' = [] /\ ex_workers x' = ∅) as Hgo.
  { intros x1 Hs Hp1 Hlt.
    assert (ex_inv w_env x1) as Hi1 by by eapply thread_star_inv; [|apply star_one].
    assert (exists x', star thread_step x1 x' /\ ex_phase x' = MP_join /\ ex_tasks x' = [] /\ ex_workers x' = ∅)
      as (x' & Hstar & Hx').
    { destruct Hlt as [Hlt|[Heq Hlt]]; [by eapply IHn|by eapply IHm]. }
    exists x'. split; [by eapply star_step|done]. }
  destruct (decide (ex_workers x = ∅)) as [Hk|Hk].
  - destruct (ex_tasks x) as [|t ts] eqn:Ht; [exists x; split; [apply star_refl|done]|].
    assert (ws_writers (ex_wal x) !! 0 = None) as Hwi.
    { destruct (ws_writers (ex_wal x) !! 0) eqn:Hw; [|done].
      destruct (xi_writers _ _ Hinv _ _ Hw) as (k & Hk' & _). by rewrite Hk, lookup_empty in Hk'. }
    assert (pp_publishers (ex_pipe x) !! 0 = None) as Hpi.
    { destruct (pp_publishers (ex_pipe x) !! 0) eqn:Hp; [|done].
      destruct (xi_publishers _ _ Hinv _ _ Hp) as (k & Hk' & _). by rewrite Hk, lookup_empty in Hk'. }
    eapply Hgo.
    + apply worker_thread_step with 0. unfold exchange_worker. rewrite Hwi, Hpi, Hk, lookup_empty.
      unfold plain_step, worker_step. simpl. rewrite Hk, lookup_empty, Ht. reflexivity.
    + done.
    + left. rewrite Hn. unfold to_match, total. simpl. rewrite Hk, Ht. simpl.
      rewrite map_to_list_insert, map_to_list_empty by apply lookup_empty. simpl. lia.
  - destruct (some_worker_moves x Hinv Hk) as (i & w & x1 & Hi & Hmv). apply (Hgo x1).
    + apply Hmv.
    + rewrite (mv_phase _ _ _ _ Hmv). done.
    + rewrite Hn, Hm. by apply (moves_less i w).
Qed.

(** A step of the main thread, and runs of the flusher and the dispatcher. *)
Lemma main_thread_step x x' : main_step x = Some (Ok x') -> thread_step x x'.
Proof using. intros Hs. by exists EX_main. Qed.

Lemma flusher_star w' x : star flushes (ex_wal x) w' -> star thread_step x (set_wal w' x).
Proof using.
  remember (ex_wal x) as w eqn:Hw. intros Hs. revert x Hw.
  induction Hs as [w|w w1 w' Hstep Hs IH]; intros x ->.
  - destruct x. apply star_refl.
  - apply star_step with (set_wal w1 x).
    + exists EX_flusher. split; [done|]. simpl. unfold flushes in Hstep. by rewrite Hstep.
    + by apply (IH (set_wal w1 x)).
Qed.

Lemma dispatcher_star p' x : star dispatches (ex_pipe x) p' -> star thread_step x (set_pipe p' x).
Proof using.
  remember (ex_pipe x) as p eqn:Hp. intros Hs. revert x Hp.
  induction Hs as [p|p p1 p' Hstep Hs IH]; intros x ->.
  - destruct x. apply star_refl.
  - apply star_step with (set_pipe p1 x).
    + exists EX_dispatcher. split; [done|]. simpl. unfold dispatches in Hstep. unfold on_pipe. simpl.
      by rewrite Hstep.
    + by apply (IH (set_pipe p1 x)).
Qed.

Lemma flushes_keep w w' : star flushes w w' -> ws_stopper w' = ws_stopper w.
Proof using. induction 1 as [|w w1 w' Hs _ IH]; [done|]. rewrite IH. by apply flusher_step_frame. Qed.

Lemma dispatches_keep p p' : star dispatches p p' -> pp_stopper p' = pp_stopper p.
Proof using. induction 1 as [|p p1 p' Hs _ IH]; [done|]. rewrite IH. by apply dispatcher_step_frame. Qed.

(** The main thread's calls of [stop], from the last step back. *)
Lemma wal_ends x : ex_phase x = MP_wal -> ws_stopper (ex_wal x) = S_end ->
  exists x', star thread_step x x' /\ ex_phase x' = MP_pipeline.
Proof using.
  intros Hp Hs. exists (set_phase MP_pipeline x). split; [|done]. apply star_one, main_thread_step.
  unfold main_step. by rewrite Hp, Hs.
Qed.

Lemma wal_joins x : ex_inv w_env x -> ex_phase x = MP_wal -> ws_stopper (ex_wal x) = S_join ->
  exists x', star thread_step x x' /\ ex_phase x' = MP_pipeline.
Proof using.
  intros Hi Hp Hs. destruct (xi_wal _ _ Hi) as [(c & vs & Hq & _ & Hst) _ _ _]. rewrite Hs in Hst.
  destruct (flusher_ends _ c vs Hq (proj1 Hst)) as (w' & Hstar & Hd).
  pose proof (flushes_keep _ _ Hstar) as Hks. apply flusher_star in Hstar.
  edestruct (wal_ends (set_wal (mkWalSystem (mkWAL false (disk (ws_wal w')) (queue_ (ws_wal w'))
    (running_ (ws_wal w')) false) (ws_writers w') (ws_flusher w') S_end (logged w') (wrote w')) x))
    as (x' & Hstar' & Hx'); [done|done|].
  exists x'. split; [|done]. eapply star_trans; [exact Hstar|]. eapply star_step; [|exact Hstar'].
  apply main_thread_step. unfold main_step, stopper_step. simpl. by rewrite Hp, Hks, Hs, Hd.
Qed.

Lemma wal_stops x : ex_inv w_env x -> ex_phase x = MP_wal ->
  exists x', star thread_step x x' /\ ex_phase x' = MP_pipeline.
Proof using.
  intros Hinv Hph.
  assert (exists x1, star thread_step x x1 /\ ex_phase x1 = MP_wal /\
    (ws_stopper (ex_wal x1) = S_join \/ ws_stopper (ex_wal x1) = S_end)) as (x1 & Hs1 & Hp1 & Hst).
  { destruct (ws_stopper (ex_wal x)) eqn:Hs; [| |by exists x; split; [apply star_refl|auto]..].
    - eexists. split.
      { do 2 (eapply star_step; [apply main_thread_step; unfold main_step, stopper_step; simpl;
          rewrite Hph, ?Hs; reflexivity|]). apply star_refl. }
      by split; [|left].
    - eexists. split.
      { eapply star_step; [apply main_thread_step; unfold main_step, stopper_step; simpl;
          rewrite Hph, ?Hs; reflexivity|]. apply star_refl. }
      by split; [|left]. }
  pose proof (thread_star_inv _ _ Hinv Hs1) as Hi1.
  destruct Hst as [Hst|Hst]; [destruct (wal_joins x1 Hi1 Hp1 Hst) as (x' & Hs' & Hx')|
    destruct (wal_ends x1 Hp1 Hst) as (x' & Hs' & Hx')]; exists x'; (split; [by eapply star_trans|done]).
Qed.

Lemma pipeline_ends x : ex_phase x = MP_pipeline -> pp_stopper (ex_pipe x) = PS_end ->
  exists x', star thread_step x x' /\ ex_phase x' = MP_done.
Proof using.
  intros Hp Hs. exists (set_phase MP_done x). split; [|done]. apply star_one, main_thread_step.
  unfold main_step. by rewrite Hp, Hs.
Qed.

Lemma pipeline_joins x : ex_inv w_env x -> ex_phase x = MP_pipeline -> pp_stopper (ex_pipe x) = PS_join ->
  exists x', star thread_step x x' /\ ex_phase x' = MP_done.
Proof using.
  intros Hi Hp Hs. destruct (xi_pipe _ _ Hi) as [(c & c' & rs & ts & Hqr & Hqt & _ & Hst) _ _ _].
  rewrite Hs in Hst. destruct Hst as (Hrun & _).
  destruct (dispatcher_ends (ex_pipe x) rs ts) as (p' & Hstar & Hd); [by split; [|eauto]|].
  pose proof (dispatches_keep _ _ Hstar) as Hks. apply dispatcher_star in Hstar.
  edestruct (pipeline_ends (set_pipe (mkPipelineSystem (set_flags
    (ExecutionPipeline.running_ (pp_pipe p')) false (pp_pipe p')) (pp_sessions p') (pp_publishers p')
    (pp_dispatcher p') PS_end (queued p') (queued_trades p') (looked_up p') (handed p')) x))
    as (x' & Hstar' & Hx'); [done|done|].
  exists x'. split; [|done]. eapply star_trans; [exact Hstar|]. eapply star_step; [|exact Hstar'].
  apply main_thread_step. unfold main_step, pipe_stopper_step. simpl. by rewrite Hp, Hks, Hs, Hd.
Qed.

Lemma pipeline_stops x : ex_inv w_env x -> ex_phase x = MP_pipeline ->
  exists x', star thread_step x x' /\ ex_phase x' = MP_done.
Proof using.
  intros Hinv Hph.
  assert (exists x1, star thread_step x x1 /\ ex_phase x1 = MP_pipeline /\
    (pp_stopper (ex_pipe x1) = PS_join \/ pp_stopper (ex_pipe x1) = PS_end)) as (x1 & Hs1 & Hp1 & Hst).
  { destruct (pp_stopper (ex_pipe x)) eqn:Hs; [| | |by exists x; split; [apply star_refl|auto]..].
    - eexists. split.
      { do 3 (eapply star_step; [apply main_thread_step; unfold main_step, pipe_stopper_step; simpl;
          rewrite Hph, ?Hs; reflexivity|]). apply star_refl. }
      by split; [|left].
    - eexists. split.
      { do 2 (eapply star_step; [apply main_thread_step; unfold main_step, pipe_stopper_step; simpl;
          rewrite Hph, ?Hs; reflexivity|]). apply star_refl. }
      by split; [|left].
    - eexists. split.
      { eapply star_step; [apply main_thread_step; unfold main_step, pipe_stopper_step; simpl;
          rewrite Hph, ?Hs; reflexivity|]. apply star_refl. }
      by split; [|left]. }
  pose proof (thread_star_inv _ _ Hinv Hs1) as Hi1.
  destruct Hst as [Hst|Hst]; [destruct (pipeline_joins x1 Hi1 Hp1 Hst) as (x' & Hs' & Hx')|
    destruct (pipeline_ends x1 Hp1 Hst) as (x' & Hs' & Hx')]; exists x'; (split; [by eapply star_trans|done]).
Qed.

Lemma shuts_down x : ex_inv w_env x -> exists x', star thread_step x x' /\ ex_phase x' = MP_done.
Proof using.
  assert (forall x, ex_inv w_env x -> ex_phase x = MP_wal ->
    exists x', star thread_step x x' /\ ex_phase x' = MP_done) as Hwal.
  { intros y Hi Hp. destruct (wal_stops y Hi Hp) as (y1 & Hs1 & Hp1).
    destruct (pipeline_stops y1 (thread_star_inv _ _ Hi Hs1) Hp1) as (y2 & Hs2 & Hp2).
    exists y2. split; [by eapply star_trans|done]. }
  assert (forall x, ex_inv w_env x -> ex_phase x = MP_join ->
    exists x', star thread_step x x' /\ ex_phase x' = MP_done) as Hjoin.
  { intros y Hi Hp. destruct (pool_joins y Hi Hp) as (y1 & Hs1 & Hp1 & Ht1 & Hk1).
    assert (thread_step y1 (set_phase MP_wal y1)) as Hstep.
    { apply main_thread_step. unfold main_step. by rewrite Hp1, Ht1, bool_decide_eq_true_2. }
    assert (star thread_step y (set_phase MP_wal y1)) as Hs2 by (eapply star_trans; [done|by apply star_one]).
    destruct (Hwal _ (thread_star_inv _ _ Hi Hs2)) as (y2 & Hs3 & Hp2); [done|].
    exists y2. split; [by eapply star_trans|done]. }
  intros Hi. destruct (ex_phase x) eqn:Hp; [|by apply Hjoin|by apply Hwal|by apply pipeline_stops|].
  - assert (thread_step x (set_phase MP_join x)) as Hstep.
    { apply main_thread_step. unfold main_step. by rewrite Hp. }
    destruct (Hjoin _ (thread_star_inv _ _ Hi (star_one _ _ Hstep))) as (y & Hs & Hy); [done|].
    exists y. split; [by eapply star_step|done].
  - exists x. split; [apply star_refl|done].
Qed.
End Liveness.

(** C9: no deadlock.  From every state the exchange can reach, steps of its own
    threads, with no task and no session arriving, can complete the shutdown: a
    worker that waits for a book's mutex waits for one that can move, every call
    of the log and of the pipeline returns, and flusher and dispatcher end. *)
Theorem exchange_shuts_down {S QW QR QT} `{FifoLaws QW WALEntry} `{FifoLaws QR ExecutionReport}
    `{FifoLaws QT Trade} (x : ExchangeSystem S QW QR QT) :
  exchange_reachable x -> exists x', star thread_step x x' /\ ex_phase x' = MP_done.
Proof. intros Hr. by apply shuts_down, exchange_reachable_any. Qed.

Lemma exchange_shuts_down_witness : exists x',
  star thread_step (exchange_try (w_exchange 4 1) w_started) x' /\ ex_phase x' = MP_done.
Proof. exact (exchange_shuts_down _ (w_exchange_reachable 4 1)). Defined.
