(* ===== verification/Server.v ===== *)
(** * The server: connections and exchange together

    [gateway/gateway_server.hpp] and [gateway/session.hpp] on top of [Exchange]:
    the thread of the [io_context] accepts connections and runs the handlers of
    their sessions one at a time; the tasks they submit go to the pool, the
    sessions they register to the connection manager, and what the dispatcher
    hands to a session is posted to that thread.  What the clients send, and when
    transfers end or fail, is up to the network. *)

From stdpp Require Import base list gmap strings.
From Stdlib Require Import ZArith Lia Ascii.
From S2P Require Import Prelude Types Bytes BinarySerializer SerializerTheorems RiskChecker Fifo MpscQueue BookRegistry SafeQueue Wal WalSystem ConnectionManager PipelineSystem ThreadPool Recovery PoolTheorems Ownership PoolTrace Session SessionTheorems Exchange ExchangeInv ExchangeTheorems.
Local Open Scope exchange_scope.
Local Open Scope list_scope.

(** ** Definitions *)

(** The read a session waits for. *)
Inductive reading : Type := R_header | R_body.

(** A connection is known by its number; [cn_reading] is [None] once a read has
    failed. *)
Record Connection : Type := mkConnection {
  cn_output : Output;
  cn_reading : option reading }.

Inductive server_action : Type :=
  | SA_accept                                          (* async_accept gives a socket *)
  | SA_header (i : nat) (ec : bool) (data : list ascii) (* the header's async_read completes *)
  | SA_body (i : nat) (ec : bool) (data : list ascii)   (* the body's async_read completes *)
  | SA_posted (i : nat)                                (* the oldest posted handler runs *)
  | SA_written (i : nat)                               (* the async_write completes *)
  | SA_failed (i : nat) (n : nat)                      (* it fails after [n] bytes *)
  | SA_thread (a : exchange_action nat).               (* another thread *)

Section Server.
Context {QW QR QT : Type} `{Fifo QW WALEntry} `{Fifo QR ExecutionReport} `{Fifo QT Trade}.
Context (junk_symbol junk_reason : ExecutionReport -> list ascii).

(** [sv_opened] is the number of connections accepted, [sv_next_client_id] the
    static counter of [Session::Session], [sv_env] the clock the sessions read;
    [sv_requests] lists the tasks submitted, each with its connection. *)
Record Server : Type := mkServer {
  sv_exchange : ExchangeSystem nat QW QR QT;
  sv_connections : gmap nat Connection;
  sv_opened : nat;
  sv_next_client_id : Z;
  sv_risk : RiskChecker;
  sv_env : Env;
  sv_requests : list (nat * Task) }.

Definition init_server (rc : RiskChecker) (env clock : Env) : Server :=
  mkServer (init_exchange env) ∅ 0 1 rc clock [].

Definition set_exchange (x : ExchangeSystem nat QW QR QT) (sv : Server) : Server :=
  mkServer x (sv_connections sv) (sv_opened sv) (sv_next_client_id sv) (sv_risk sv) (sv_env sv) (sv_requests sv).
Definition set_connection (i : nat) (c : Connection) (sv : Server) : Server :=
  mkServer (sv_exchange sv) (<[ i := c ]> (sv_connections sv)) (sv_opened sv) (sv_next_client_id sv)
    (sv_risk sv) (sv_env sv) (sv_requests sv).
Definition set_checks (rc : RiskChecker) (env : Env) (sv : Server) : Server :=
  mkServer (sv_exchange sv) (sv_connections sv) (sv_opened sv) (sv_next_client_id sv) rc env (sv_requests sv).

Definition set_out_session (s : Session) (o : Output) : Output :=
  mkOutput s (out_posted o) (out_in_flight o) (out_wire o) (out_sent o).

(** [session->send_execution_report(r)] on connection [i]. *)
Definition post_report (i : nat) (r : ExecutionReport) (sv : Server) : Server :=
  match sv_connections sv !! i with
  | None => sv
  | Some c =>
      match ostep junk_symbol junk_reason (O_send r) (cn_output c) with
      | Some o => set_connection i (mkConnection o (cn_reading c)) sv
      | None => sv
      end
  end.

Definition set_reading (i : nat) (r : option reading) (sv : Server) : Server :=
  match sv_connections sv !! i with
  | None => sv
  | Some c => set_connection i (mkConnection (cn_output c) r) sv
  end.

Definition submit_task (i : nat) (t : Task) (sv : Server) : Server :=
  mkServer (add_task t (sv_exchange sv)) (sv_connections sv) (sv_opened sv) (sv_next_client_id sv)
    (sv_risk sv) (sv_env sv) (sv_requests sv ++ [(i, t)]).

Definition change_sessions (f : ConnectionManager nat -> ConnectionManager nat) (sv : Server) : Server :=
  let p := ex_pipe (sv_exchange sv) in
  set_exchange (set_pipe (set_sessions (f (pp_sessions p)) p) (sv_exchange sv)) sv.

(** What a request of a handler of connection [i] does; the writes are in
    [Session.ostep]. *)
Definition run_effect (i : nat) (sv : Server) (e : effect) : Server :=
  match e with
  | E_add_session c => change_sessions (add_session c i) sv
  | E_remove_session c => change_sessions (remove_session c) sv
  | E_read_header => set_reading i (Some R_header) sv
  | E_read_body _ => set_reading i (Some R_body) sv
  | E_post r => post_report i r sv
  | E_submit t => submit_task i t sv
  | E_close_socket | E_write _ => sv
  end.

Definition run_effects (i : nat) (es : list effect) (sv : Server) : Server := foldl (run_effect i) sv es.

(** The handler of the acceptor; after an error it only waits again. *)
Definition accept_step (sv : Server) : Server :=
  let i := sv_opened sv in
  let '(s, next) := new_session (sv_next_client_id sv) in
  let '(s, effects) := session_start s in
  run_effects i effects
    (mkServer (sv_exchange sv) (<[ i := mkConnection (mkOutput s [] None [] []) None ]> (sv_connections sv))
       (S i) next (sv_risk sv) (sv_env sv) (sv_requests sv)).

(** The handlers of the two reads. *)
Definition header_step (i : nat) (ec : bool) (data : list ascii) (c : Connection) (sv : Server) : Server :=
  let '(s, effects) := on_header ec data (out_session (cn_output c)) in
  run_effects i effects (set_connection i (mkConnection (set_out_session s (cn_output c)) None) sv).

Definition body_step (i : nat) (ec : bool) (data : list ascii) (c : Connection) (sv : Server) : outcome Server :=
  let* (s, effects, rc, env) := on_body ec data (out_session (cn_output c)) (sv_risk sv) (sv_env sv) in
  Ok (run_effects i effects
        (set_checks rc env (set_connection i (mkConnection (set_out_session s (cn_output c)) None) sv))).

(** The write side of connection [i]; a failed write closes the session. *)
Definition output_step (i : nat) (a : out_action) (c : Connection) (sv : Server) : option Server :=
  match ostep junk_symbol junk_reason a (cn_output c) with
  | None => None
  | Some o =>
      let effects := match a with O_failed _ => (on_write true (out_session (cn_output c))).2 | _ => [] end in
      Some (run_effects i effects (set_connection i (mkConnection o (cn_reading c)) sv))
  end.

(** The calls of [send_execution_report] made between two states. *)
Definition new_sends (x x' : ExchangeSystem nat QW QR QT) : list (nat * ExecutionReport) :=
  drop (length (handed (ex_pipe x))) (handed (ex_pipe x')).

Definition thread_step_of (a : exchange_action nat) (sv : Server) : option (outcome Server) :=
  match a with
  | EX_submit _ | EX_add _ _ | EX_remove _ => None
  | _ =>
      match exchange_action_step a (sv_exchange sv) with
      | None => None
      | Some r => Some (let* x := r in
          Ok (foldl (fun sv ir => post_report ir.1 ir.2 sv) (set_exchange x sv)
                (new_sends (sv_exchange sv) x)))
      end
  end.

(** The thread of the [io_context] runs until the main thread has joined it,
    before [pool.shutdown()]. *)
Definition server_step (a : server_action) (sv : Server) : option (outcome Server) :=
  match a with
  | SA_thread a => thread_step_of a sv
  | SA_accept =>
      match ex_phase (sv_exchange sv) with MP_run => Some (Ok (accept_step sv)) | _ => None end
  | SA_header i ec data =>
      match ex_phase (sv_exchange sv), sv_connections sv !! i with
      | MP_run, Some (mkConnection o (Some R_header) as c) => Some (Ok (header_step i ec data c sv))
      | _, _ => None
      end
  | SA_body i ec data =>
      match ex_phase (sv_exchange sv), sv_connections sv !! i with
      | MP_run, Some (mkConnection o (Some R_body) as c) => Some (body_step i ec data c sv)
      | _, _ => None
      end
  | SA_posted i | SA_written i | SA_failed i _ =>
      let a := match a with SA_posted _ => O_run | SA_written _ => O_written | SA_failed _ n => O_failed n | _ => O_close end in
      match ex_phase (sv_exchange sv), sv_connections sv !! i with
      | MP_run, Some c => option_map Ok (output_step i a c sv)
      | _, _ => None
      end
  end.

(** A read without an error gives exactly the bytes asked for. *)
Definition server_action_ok (a : server_action) (sv : Server) : Prop :=
  match a with
  | SA_header _ false data => length data = sizeof MsgHeader
  | SA_body i false data =>
      match sv_connections sv !! i with
      | Some c => Z.of_nat (length data) = h_length (incoming_header_ (out_session (cn_output c)))
      | None => True
      end
  | SA_thread a => action_ok a
  | _ => True
  end.

Definition server_moves (sv sv' : Server) : Prop :=
  exists a, server_action_ok a sv /\ server_step a sv = Some (Ok sv').

Definition server_reachable : Server -> Prop :=
  reachable (fun sv => exists rc env clock, sv = init_server rc env clock) server_moves.
End Server.

Arguments Server QW QR QT : clear implicits.
