(* ===== verification/ServerTheorems.v ===== *)
(** * Theorems about the server

    What a client gets: the bytes on its connection are whole reports, in the
    order in which they were sent to its session, and each is about an order the
    client itself submitted over that connection. *)

From stdpp Require Import base list gmap strings.
From Stdlib Require Import ZArith Lia Ascii.
From S2P Require Import Prelude Types Bytes BinarySerializer SerializerTheorems RiskChecker Fifo MpscQueue BookRegistry SafeQueue Wal WalSystem ConnectionManager PipelineSystem ThreadPool Recovery PoolTheorems Ownership PoolTrace Session SessionTheorems Exchange ExchangeInv ExchangeTheorems Server.
Local Open Scope exchange_scope.
Local Open Scope list_scope.

(** ** Definitions *)

(** The client id of the [i]-th connection. *)
Definition client_of (i : nat) : Z := u32 (1 + Z.of_nat i).

Section Inv.
Context {QW QR QT : Type} `{FifoLaws QW WALEntry} `{FifoLaws QR ExecutionReport} `{FifoLaws QT Trade}.
Context (junk_symbol junk_reason : ExecutionReport -> list ascii).
Implicit Types sv : Server QW QR QT.

Abbreviation reachable_server := (server_reachable junk_symbol junk_reason).

(** A report that may be sent on connection [i]. *)
Definition sent_ok (ts : list Task) (i : nat) (r : ExecutionReport) : Prop :=
  er_client_id r = client_of i /\
  (er_status r = Rejected \/ owner ts (er_order_id r) (er_client_id r)).

Definition connection_ok (ts : list Task) (i : nat) (c : Connection) : Prop :=
  client_id_ (out_session (cn_output c)) = client_of i /\
  out_inv junk_symbol junk_reason (cn_output c) /\
  Forall (sent_ok ts i) (out_sent (cn_output c)).

Record sv_inv sv : Prop := mkSvInv {
  si_exchange : exchange_reachable (sv_exchange sv);
  si_next : sv_next_client_id sv = client_of (sv_opened sv);
  si_connections : map_Forall (fun i c => i < sv_opened sv /\
    connection_ok (ex_submitted (sv_exchange sv)) i c) (sv_connections sv);
  si_manager : forall c i, get_session c (pp_sessions (ex_pipe (sv_exchange sv))) = Some i ->
    client_of i = c;
  si_sending : forall i r, pp_dispatcher (ex_pipe (sv_exchange sv)) = D_send i r ->
    client_of i = er_client_id r;
  si_submitted : (sv_requests sv).*2 = ex_submitted (sv_exchange sv);
  si_requests : Forall (fun it => it.1 < sv_opened sv /\ request_client it.2 = client_of it.1)
    (sv_requests sv) }.

(** ** The invariant of one connection *)

Lemma sent_ok_mono ts ts' i r : ts ⊆ ts' -> sent_ok ts i r -> sent_ok ts' i r.
Proof using. intros Hs [Hc [Hr|Ho]]; split; auto. right. by eapply owner_mono. Qed.

Lemma connection_ok_mono ts ts' i c : ts ⊆ ts' -> connection_ok ts i c -> connection_ok ts' i c.
Proof using.
  intros Hs (Hc & Ho & Hr). split_and!; try done. eapply Forall_impl; [exact Hr|].
  intros r. by apply sent_ok_mono.
Qed.

Lemma connections_mono ts ts' n (cs : gmap nat Connection) : ts ⊆ ts' ->
  map_Forall (fun i c => i < n /\ connection_ok ts i c) cs ->
  map_Forall (fun i c => i < n /\ connection_ok ts' i c) cs.
Proof using. intros Hs Hc i c Hi. destruct (Hc i c Hi). split; [done|]. by eapply connection_ok_mono. Qed.

(** A handler that leaves the write queue alone, and closes at most. *)
Lemma out_inv_session s o : out_inv junk_symbol junk_reason o ->
  write_queue_ s = write_queue_ (out_session o) ->
  (active_ (out_session o) = false -> active_ s = false) ->
  out_inv junk_symbol junk_reason (set_out_session s o).
Proof using.
  intros [[Hf Hw]|(Hf & Hq & Ha & Hr)] Hs Hact; [left|right]; simpl; rewrite Hs; auto.
Qed.

(** The steps of the write side keep the session's client id, and only
    [send_execution_report] adds a report. *)
Lemma ostep_frame a o o' : ostep junk_symbol junk_reason a o = Some o' ->
  client_id_ (out_session o') = client_id_ (out_session o) /\
  out_sent o' = out_sent o ++ match a with O_send r => [r] | _ => [] end.
Proof using.
  destruct a as [r| | |n|]; unfold ostep.
  - by intros [= <-].
  - destruct (out_posted o); [done|]. unfold on_post. intros [= <-]. simpl. by rewrite app_nil_r.
  - destruct (out_in_flight o); [|done]. unfold on_write. intros [= <-]. simpl. by rewrite app_nil_r.
  - destruct (out_in_flight o); [|done]. unfold on_write, session_close. simpl.
    destruct (active_ _); intros [= <-]; simpl; by rewrite app_nil_r.
  - unfold session_close. destruct (active_ _); intros [= <-]; simpl; by rewrite app_nil_r.
Qed.

Lemma ostep_ok ts i a c o' : connection_ok ts i c ->
  ostep junk_symbol junk_reason a (cn_output c) = Some o' ->
  (forall r, a = O_send r -> sent_ok ts i r) ->
  forall rd, connection_ok ts i (mkConnection o' rd).
Proof using.
  intros (Hc & Ho & Hr) Hs Ha rd. destruct (ostep_frame _ _ _ Hs) as [Hid Hsent].
  split_and!; simpl.
  - by rewrite Hid.
  - eapply out_step_inv; [exact Ho|]. by exists a.
  - rewrite Hsent. apply Forall_app. split; [done|]. destruct a; constructor; auto.
Qed.

(** ** What the effects of a handler keep *)

(** The effects a handler of connection [i] may ask for. *)
Definition effect_ok (i : nat) (e : effect) : Prop :=
  match e with
  | E_post r => er_status r = Rejected /\ er_client_id r = client_of i
  | E_submit t => task_ok t /\ request_client t = client_of i
  | E_add_session c => c = client_of i
  | _ => True
  end.

Lemma set_connection_inv i c sv : sv_inv sv -> i < sv_opened sv ->
  connection_ok (ex_submitted (sv_exchange sv)) i c -> sv_inv (set_connection i c sv).
Proof using. intros [] Hi Hc. constructor; simpl; try done. by apply map_Forall_insert_2. Qed.

Lemma post_report_inv i r sv : sv_inv sv -> sent_ok (ex_submitted (sv_exchange sv)) i r ->
  sv_inv (post_report junk_symbol junk_reason i r sv).
Proof using.
  intros Hinv Hr. unfold post_report. destruct (sv_connections sv !! i) as [c|] eqn:Hi; [|done].
  destruct (si_connections _ Hinv _ _ Hi) as [Hlt Hc].
  destruct (ostep _ _ _ _) as [o|] eqn:Ho; [|done]. apply set_connection_inv; [done..|].
  eapply ostep_ok; [exact Hc|exact Ho|]. by intros r' [= <-].
Qed.

Lemma set_reading_inv i rd sv : sv_inv sv -> sv_inv (set_reading i rd sv).
Proof using.
  intros Hinv. unfold set_reading. destruct (sv_connections sv !! i) as [c|] eqn:Hi; [|done].
  destruct (si_connections _ Hinv _ _ Hi) as [Hlt Hc]. by apply set_connection_inv.
Qed.

(** Posting a report and starting a read leave the exchange alone. *)
Lemma post_report_frame i r sv :
  let sv' := post_report junk_symbol junk_reason i r sv in
  sv_exchange sv' = sv_exchange sv /\ sv_opened sv' = sv_opened sv /\ sv_requests sv' = sv_requests sv.
Proof using.
  unfold post_report. destruct (sv_connections sv !! i); [|done]. by destruct (ostep _ _ _ _).
Qed.

Lemma set_reading_frame i rd sv :
  sv_exchange (set_reading i rd sv) = sv_exchange sv /\ sv_opened (set_reading i rd sv) = sv_opened sv.
Proof using. unfold set_reading. by destruct (sv_connections sv !! i). Qed.

Lemma change_sessions_inv f a sv : sv_inv sv -> action_ok a ->
  exchange_action_step a (sv_exchange sv) = Some (Ok (sv_exchange (change_sessions f sv))) ->
  (forall c i, get_session c (f (pp_sessions (ex_pipe (sv_exchange sv)))) = Some i -> client_of i = c) ->
  sv_inv (change_sessions f sv).
Proof using.
  intros [Hx Hn Hc Hm Hd Hs Hr] Ha Hstep Hf. constructor; try done.
  eapply reach_step; [exact Hx|]. by exists a.
Qed.

Lemma submit_task_inv i t sv : sv_inv sv -> ex_phase (sv_exchange sv) = MP_run -> i < sv_opened sv ->
  task_ok t -> request_client t = client_of i -> sv_inv (submit_task i t sv).
Proof using.
  intros [Hx Hn Hc Hm Hd Hs Hr] Hph Hi Ht Hcl. constructor; simpl; try done.
  - eapply reach_step; [exact Hx|]. exists (EX_submit t). split; [done|]. simpl. by rewrite Hph.
  - eapply connections_mono; [|exact Hc]. set_solver.
  - by rewrite fmap_app, Hs.
  - apply Forall_app. split; [done|]. by constructor.
Qed.

Lemma run_effect_inv i e sv : sv_inv sv -> ex_phase (sv_exchange sv) = MP_run -> i < sv_opened sv ->
  effect_ok i e ->
  let sv' := run_effect junk_symbol junk_reason i sv e in
  sv_inv sv' /\ ex_phase (sv_exchange sv') = MP_run /\ sv_opened sv' = sv_opened sv.
Proof using.
  intros Hinv Hph Hi He. destruct e as [c|c| | |n|b|r|t]; simpl in He; cbv zeta; simpl run_effect; try done.
  - subst c. split; [|done]. apply (change_sessions_inv _ (EX_add (client_of i) i)); try done.
    intros c j. unfold get_session, add_session. simpl. intros [[<- <-]|[_ Hg]]%lookup_insert_Some; [done|].
    by apply (si_manager _ Hinv).
  - split; [|done]. apply (change_sessions_inv _ (EX_remove c)); try done.
    intros c' j. unfold get_session, remove_session. simpl. intros [_ Hg]%lookup_delete_Some.
    by apply (si_manager _ Hinv).
  - split; [by apply set_reading_inv|]. by destruct (set_reading_frame i (Some R_header) sv) as [-> ->].
  - split; [by apply set_reading_inv|]. by destruct (set_reading_frame i (Some R_body) sv) as [-> ->].
  - split.
    + apply post_report_inv; [done|]. split; [apply He|left; apply He].
    + by destruct (post_report_frame i r sv) as (-> & -> & _).
  - destruct He as [Ht Hc]. split; [|done]. by apply submit_task_inv.
Qed.

Lemma run_effects_inv i es : forall sv, sv_inv sv -> ex_phase (sv_exchange sv) = MP_run ->
  i < sv_opened sv -> Forall (effect_ok i) es -> sv_inv (run_effects junk_symbol junk_reason i es sv).
Proof using.
  induction es as [|e es IH]; intros sv Hinv Hph Hi Hes; [done|]. apply Forall_cons in Hes as [He Hes].
  destruct (run_effect_inv i e sv Hinv Hph Hi He) as (Hinv' & Hph' & Hop). simpl. apply IH; try done.
  by rewrite Hop.
Qed.

(** ** The handlers *)

Lemma close_frame s : let s' := (session_close s).1 in
  client_id_ s' = client_id_ s /\ write_queue_ s' = write_queue_ s /\
  (active_ s = false -> active_ s' = false).
Proof using. unfold session_close. by destruct (active_ s) eqn:Ha. Qed.

Lemma close_effects_ok i s : Forall (effect_ok i) (session_close s).2.
Proof using. unfold session_close. destruct (active_ s); by repeat constructor. Qed.

(** A handler of connection [i] that leaves the write queue alone. *)
Lemma handler_inv i s es rd c sv : sv_inv sv -> ex_phase (sv_exchange sv) = MP_run ->
  sv_connections sv !! i = Some c ->
  client_id_ s = client_id_ (out_session (cn_output c)) ->
  write_queue_ s = write_queue_ (out_session (cn_output c)) ->
  (active_ (out_session (cn_output c)) = false -> active_ s = false) ->
  Forall (effect_ok i) es ->
  sv_inv (run_effects junk_symbol junk_reason i es
    (set_connection i (mkConnection (set_out_session s (cn_output c)) rd) sv)).
Proof using.
  intros Hinv Hph Hi Hid Hq Ha Hes. destruct (si_connections _ Hinv _ _ Hi) as (Hlt & Hc & Ho & Hr).
  apply run_effects_inv; [|done..]. apply set_connection_inv; [done..|].
  split_and!; simpl; [by rewrite Hid|by apply out_inv_session|done].
Qed.

Lemma set_checks_inv rc env sv : sv_inv sv -> sv_inv (set_checks rc env sv).
Proof using. by intros []. Qed.

Lemma process_packet_effects_ok i s rc env es rc' env' : client_id_ s = client_of i ->
  process_packet s rc env = Ok (es, rc', env') -> Forall (effect_ok i) es.
Proof using.
  intros Hid Hp. apply process_packet_effects in Hp as [->|[(t & -> & Ht & Hc)|(r & -> & Hr & Hc)]];
    repeat constructor; simpl; by rewrite ?Hc, ?Hid.
Qed.

Lemma accept_step_inv sv : sv_inv sv -> ex_phase (sv_exchange sv) = MP_run ->
  sv_inv (accept_step junk_symbol junk_reason sv).
Proof using.
  intros [Hx Hn Hc Hm Hd Hs Hr] Hph. unfold accept_step, new_session, session_start.
  apply run_effects_inv; simpl; [|done|lia|by repeat constructor].
  constructor; simpl; try done.
  - rewrite Hn. unfold client_of, u32. rewrite Zplus_mod_idemp_l. f_equal. lia.
  - apply map_Forall_insert_2.
    + split; [lia|]. split_and!; simpl; [done|by left|constructor].
    + intros i c Hi. destruct (Hc i c Hi). split; [lia|done].
  - eapply Forall_impl; [exact Hr|]. intros it [? ?]. split; [lia|done].
Qed.

Lemma header_step_inv i ec data c sv : sv_inv sv -> ex_phase (sv_exchange sv) = MP_run ->
  sv_connections sv !! i = Some c -> sv_inv (header_step junk_symbol junk_reason i ec data c sv).
Proof using.
  intros Hinv Hph Hi. unfold header_step, on_header. destruct ec; cbn [negb].
  - destruct (close_frame (out_session (cn_output c))) as (? & ? & ?).
    pose proof (close_effects_ok i (out_session (cn_output c))).
    destruct (session_close _) as [s es]. by apply handler_inv.
  - apply handler_inv; try done. by repeat constructor.
Qed.

Lemma body_step_inv i ec data c sv sv' : sv_inv sv -> ex_phase (sv_exchange sv) = MP_run ->
  sv_connections sv !! i = Some c ->
  body_step junk_symbol junk_reason i ec data c sv = Ok sv' -> sv_inv sv'.
Proof using.
  intros Hinv Hph Hi. unfold body_step, on_body. destruct ec; cbn [negb].
  - destruct (close_frame (out_session (cn_output c))) as (? & ? & ?).
    pose proof (close_effects_ok i (out_session (cn_output c))).
    destruct (session_close _) as [s es]. intros [= <-].
    apply (handler_inv i s es None c (set_checks _ _ sv)); try done. by apply set_checks_inv.
  - intros ([[[s es] rc] env] & Hb & [= <-])%obind_ok.
    apply obind_ok in Hb as ([[es' rc'] env'] & Hp & [= <- <- <- <-]).
    apply (handler_inv i _ _ None c (set_checks rc' env' sv)); try done; [by apply set_checks_inv|].
    apply Forall_app. split; [|by repeat constructor]. eapply process_packet_effects_ok; [|exact Hp].
    apply (si_connections _ Hinv _ _ Hi).
Qed.

Lemma output_step_inv i a c sv sv' : sv_inv sv -> ex_phase (sv_exchange sv) = MP_run ->
  sv_connections sv !! i = Some c -> (forall r, a <> O_send r) ->
  output_step junk_symbol junk_reason i a c sv = Some sv' -> sv_inv sv'.
Proof using.
  intros Hinv Hph Hi Ha. unfold output_step. destruct (ostep _ _ _ _) as [o|] eqn:Ho; [|done].
  intros [= <-]. destruct (si_connections _ Hinv _ _ Hi) as [Hlt Hc].
  apply run_effects_inv; [|done|done|].
  - apply set_connection_inv; [done..|]. eapply ostep_ok; [exact Hc|exact Ho|]. intros r ->. by destruct (Ha r).
  - destruct a; try constructor. apply close_effects_ok.
Qed.

(** ** The other threads *)

Lemma post_reports_inv rs : forall sv, sv_inv sv ->
  Forall (fun ir => sent_ok (ex_submitted (sv_exchange sv)) ir.1 ir.2) rs ->
  sv_inv (foldl (fun sv ir => post_report junk_symbol junk_reason ir.1 ir.2 sv) sv rs).
Proof using.
  induction rs as [|[i r] rs IH]; intros sv Hinv Hrs; [done|]. apply Forall_cons in Hrs as [Hr Hrs].
  simpl. apply IH; [by apply post_report_inv|]. by destruct (post_report_frame i r sv) as (-> & _).
Qed.

(** What a step of one of the other threads does to the pipeline's state. *)
Lemma thread_step_moves a sv sv' : thread_step_of junk_symbol junk_reason a sv = Some (Ok sv') ->
  exists x new, exchange_action_step a (sv_exchange sv) = Some (Ok x) /\
    ex_submitted x = ex_submitted (sv_exchange sv) /\
    pp_sessions (ex_pipe x) = pp_sessions (ex_pipe (sv_exchange sv)) /\
    handed (ex_pipe x) = handed (ex_pipe (sv_exchange sv)) ++ new /\
    Forall (fun cr => pp_dispatcher (ex_pipe (sv_exchange sv)) = D_send cr.1 cr.2) new /\
    (forall c r, pp_dispatcher (ex_pipe x) = D_send c r ->
       pp_dispatcher (ex_pipe (sv_exchange sv)) = D_send c r \/
       get_session (er_client_id r) (pp_sessions (ex_pipe (sv_exchange sv))) = Some c) /\
    sv' = foldl (fun sv ir => post_report junk_symbol junk_reason ir.1 ir.2 sv) (set_exchange x sv) new.
Proof using.
  intros Hst.
  assert (thread_action a /\ exists x, exchange_action_step a (sv_exchange sv) = Some (Ok x) /\
    sv' = foldl (fun sv ir => post_report junk_symbol junk_reason ir.1 ir.2 sv) (set_exchange x sv)
                (new_sends (sv_exchange sv) x)) as (Hta & x & Hstep & ->).
  { unfold thread_step_of in Hst. destruct a as [t|i u v| | |c s|c|]; try done; (split; [done|]);
      destruct (exchange_action_step _ _) as [r|]; try done;
      injection Hst as (x & -> & [= <-])%obind_ok; by exists x. }
  destruct (exchange_thread_parts a _ _ Hta Hstep) as (_ & Hp & Hsub). exists x.
  assert (ex_pipe x = ex_pipe (sv_exchange sv) -> new_sends (sv_exchange sv) x = []) as Hnil.
  { intros He. unfold new_sends. rewrite He. by apply drop_ge. }
  destruct Hp as [He|(Hps & (new & Hnew & Hall) & Hdis)%pipeline_works_sends].
  - exists []. rewrite (Hnil He), He, app_nil_r. split_and!; try done. auto.
  - exists new. unfold new_sends. by rewrite Hnew, drop_app_length.
Qed.

Lemma thread_step_inv a sv sv' : sv_inv sv -> action_ok a ->
  thread_step_of junk_symbol junk_reason a sv = Some (Ok sv') -> sv_inv sv'.
Proof using All.
  intros [Hx Hn Hc Hm Hd Hs Hr] Ha Hst.
  destruct (thread_step_moves a sv sv' Hst) as (x & new & Hstep & Hsub & Hps & Hnew & Hall & Hdis & ->).
  assert (exchange_reachable x) as Hrx by (eapply reach_step; [exact Hx|by exists a]).
  apply post_reports_inv.
  - constructor; simpl; rewrite ?Hps, ?Hsub; try done.
    intros c r [?|?]%Hdis; [by apply Hd|by apply Hm].
  - rewrite Forall_forall in Hall |- *. intros [c r] Hin. specialize (Hall _ Hin). simpl in Hall |- *.
    split; [symmetry; by apply Hd|]. right.
    apply (result_report_owned x); [done|]. eapply (looked_up_result x); [done|].
    apply sent_looked_up; [done|]. left. rewrite Hnew. apply elem_of_app. by right.
Qed.

Lemma server_step_inv sv sv' : sv_inv sv -> server_moves junk_symbol junk_reason sv sv' -> sv_inv sv'.
Proof using All.
  intros Hinv (a & Ha & Hst). destruct a as [|i ec data|i ec data|i|i|i n|a]; simpl in Hst;
    [..|by eapply thread_step_inv]; destruct (ex_phase (sv_exchange sv)) eqn:Hph; try done.
  { injection Hst as <-. by apply accept_step_inv. }
  all: destruct (sv_connections sv !! i) as [[o rd]|] eqn:Hi; try done.
  1-2: destruct rd as [[]|]; try done; injection Hst as Hst.
  { subst sv'. by apply header_step_inv. }
  { by eapply body_step_inv. }
  all: destruct (output_step _ _ _ _ _ _) eqn:Ho; [|done]; injection Hst as <-.
  all: eapply output_step_inv; [..|exact Ho]; done.
Qed.

Lemma server_reachable_inv sv : reachable_server sv -> sv_inv sv.
Proof using All.
  intros Hr. induction Hr as [sv (rc & env & clock & ->)|sv sv' _ IH Hs]; [|by eapply server_step_inv].
  constructor; simpl; try done. apply reach_init. by exists env.
Qed.
End Inv.

(** ** Facts about client ids *)

(** No two of the first [2^32] connections share a client id. *)
Lemma client_of_inj i j : (Z.of_nat i < 2 ^ 32)%Z -> (Z.of_nat j < 2 ^ 32)%Z ->
  client_of i = client_of j -> i = j.
Proof.
  unfold client_of, u32. intros Hi Hj Heq.
  assert (Z.of_nat i mod 2 ^ 32 = Z.of_nat j mod 2 ^ 32)%Z as H.
  { replace (Z.of_nat i) with ((1 + Z.of_nat i) - 1)%Z by lia.
    replace (Z.of_nat j) with ((1 + Z.of_nat j) - 1)%Z by lia.
    rewrite <- (Zminus_mod_idemp_l (1 + Z.of_nat i)), Heq, Zminus_mod_idemp_l. done. }
  rewrite !Z.mod_small in H by lia. lia.
Qed.

(** The order behind a report came over the connection of its client. *)
Lemma owner_connection (reqs : list (nat * Task)) n i id :
  (Z.of_nat n <= 2 ^ 32)%Z -> i < n ->
  Forall (fun it => it.1 < n /\ request_client it.2 = client_of it.1) reqs ->
  owner reqs.*2 id (client_of i) ->
  exists t o, (i, t) ∈ reqs /\ task_type t = T_Submit /\ task_request t = ReqOrder o /\ o_order_id o = id.
Proof.
  intros Hn Hi Hr (t & o & Ht & Hty & Hreq & Hid & Hc). apply list_elem_of_fmap in Ht as ([j t'] & -> & Hin).
  rewrite Forall_forall in Hr. destruct (Hr _ Hin) as [Hj Hcl]. simpl in *.
  unfold request_client in Hcl. rewrite Hreq, Hc in Hcl.
  apply client_of_inj in Hcl as ->; [|lia..]. by exists t', o.
Qed.

(** ** Two clients trade *)

(** [server_action_ok] as a test, for the actions used here. *)
Definition allowed {QW QR QT} (a : server_action) (sv : Server QW QR QT) : bool :=
  match a with
  | SA_header _ false data => bool_decide (length data = sizeof MsgHeader)
  | SA_body i false data =>
      match sv_connections sv !! i with
      | Some c => bool_decide (Z.of_nat (length data) = h_length (incoming_header_ (out_session (cn_output c))))
      | None => true
      end
  | SA_thread (EX_worker _ u v) => bool_decide (length u = 52) && bool_decide (length v = 8)
  | SA_thread (EX_submit _) => false
  | _ => true
  end.

(** Make the steps that can be made, in the given order. *)
Definition server_try {QW QR QT} `{Fifo QW WALEntry} `{Fifo QR ExecutionReport} `{Fifo QT Trade}
    js jr (acts : list server_action) (sv : Server QW QR QT) : Server QW QR QT :=
  foldl (fun sv a => match allowed a sv, server_step js jr a sv with
                     | true, Some (Ok sv') => sv' | _, _ => sv end) sv acts.

Lemma server_try_reachable {QW QR QT} `{Fifo QW WALEntry} `{Fifo QR ExecutionReport} `{Fifo QT Trade}
    js jr (acts : list server_action) : forall sv : Server QW QR QT,
  server_reachable js jr sv -> server_reachable js jr (server_try js jr acts sv).
Proof.
  induction acts as [|a acts IH]; intros sv Hr; [done|]. simpl. apply IH.
  destruct (allowed a sv) eqn:Ha; [|done]. destruct (server_step js jr a sv) as [[sv'|f]|] eqn:Hs; try done.
  eapply reach_step; [exact Hr|]. exists a. split; [|done].
  destruct a as [|i [] data|i [] data|i|i|i n|[]]; simpl in *; try done.
  - by apply bool_decide_eq_true in Ha.
  - destruct (sv_connections sv !! i); [|done]. by apply bool_decide_eq_true in Ha.
  - by apply andb_true_iff in Ha as [?%bool_decide_eq_true ?%bool_decide_eq_true].
Qed.

Definition w_order_body (id : Z) (side : Side) (quantity : Z) : list ascii :=
  pack (to_net_order (w_uninit 8) (mkOrder id "AAPL" side Limit 15000 quantity quantity id 0)).

(** A client on connection [i] sends an order. *)
Definition w_packet (i : nat) (id : Z) (side : Side) (quantity : Z) : list server_action :=
  let body := w_order_body id side quantity in
  [SA_header i false (pack (mkMsgHeader 1 (Z.of_nat (length body)))); SA_body i false body].

(** Two clients trade, and the reports reach their connections. *)
Definition w_server_acts : list server_action :=
  [SA_accept; SA_accept] ++ w_packet 0 1 Sell 100 ++ w_packet 1 2 Buy 60 ++
  concat (replicate 100 [SA_thread (EX_worker 1 (w_uninit 52) (w_uninit 8)); SA_thread EX_dispatcher]) ++
  concat (replicate 4 [SA_posted 0; SA_posted 1; SA_written 0; SA_written 1]).

Definition w_server : Server (MPSCQueue WALEntry) (MPSCQueue ExecutionReport) (MPSCQueue Trade) :=
  server_try w_js w_jr w_server_acts (init_server w_checker PoolTheorems.w_env w_senv).

Lemma w_server_reachable : server_reachable w_js w_jr w_server.
Proof. apply server_try_reachable, reach_init. by exists w_checker, PoolTheorems.w_env, w_senv. Qed.

(** ** What is handed to a session is sent on its connection *)

Section Delivery.
Context {QW QR QT : Type} `{FifoLaws QW WALEntry} `{FifoLaws QR ExecutionReport} `{FifoLaws QT Trade}.
Context (junk_symbol junk_reason : ExecutionReport -> list ascii).
Implicit Types sv : Server QW QR QT.

Definition sent_to (i : nat) sv : list ExecutionReport :=
  match sv_connections sv !! i with Some c => out_sent (cn_output c) | None => [] end.

(** The reports handed to the session of connection [i]. *)
Definition handed_to (i : nat) (hs : list (nat * ExecutionReport)) : list ExecutionReport :=
  (filter (fun ir => ir.1 = i) hs).*2.

(** [hs] are the reports handed over so far. *)
Record delivered (hs : list (nat * ExecutionReport)) sv : Prop := mkDelivered {
  sd_connected : forall i, i < sv_opened sv -> is_Some (sv_connections sv !! i);
  sd_manager : forall c i, get_session c (pp_sessions (ex_pipe (sv_exchange sv))) = Some i -> i < sv_opened sv;
  sd_sending : forall i r, pp_dispatcher (ex_pipe (sv_exchange sv)) = D_send i r -> i < sv_opened sv;
  sd_sent : forall i, sublist (handed_to i hs) (sent_to i sv) }.

Lemma handed_to_snoc i hs j r :
  handed_to i (hs ++ [(j, r)]) = handed_to i hs ++ (if decide (j = i) then [r] else []).
Proof using.
  unfold handed_to. rewrite filter_app, fmap_app. f_equal. rewrite filter_cons, filter_nil.
  simpl. by destruct (decide (j = i)).
Qed.

(** Replacing a connection by one that has sent no less. *)
Lemma set_connection_delivered hs i c c' sv : delivered hs sv -> sv_connections sv !! i = Some c ->
  (exists new, out_sent (cn_output c') = out_sent (cn_output c) ++ new) ->
  delivered hs (set_connection i c' sv).
Proof using.
  intros [Hc Hm Hd Hs] Hi [new Hnew]. constructor; simpl; try done.
  - intros j Hj. destruct (decide (i = j)) as [<-|Hne]; [by rewrite lookup_insert_eq|].
    rewrite lookup_insert_ne by done. by apply Hc.
  - intros j. specialize (Hs j). unfold sent_to in *. simpl. destruct (decide (i = j)) as [<-|Hne].
    + rewrite lookup_insert_eq, Hnew. rewrite Hi in Hs. by apply sublist_inserts_r.
    + by rewrite lookup_insert_ne by done.
Qed.

Lemma post_report_delivered hs i r sv : delivered hs sv ->
  delivered hs (post_report junk_symbol junk_reason i r sv) /\
  (i < sv_opened sv -> delivered (hs ++ [(i, r)]) (post_report junk_symbol junk_reason i r sv)).
Proof using.
  intros Hd. assert (delivered hs (post_report junk_symbol junk_reason i r sv)) as Hd'.
  { unfold post_report. destruct (sv_connections sv !! i) as [c|] eqn:Hi; [|done]. simpl.
    eapply set_connection_delivered; [done..|]. by exists [r]. }
  split; [done|]. intros Hlt. destruct Hd' as [Hc Hm Hdis Hs]. constructor; try done.
  intros j. rewrite handed_to_snoc. destruct (decide (i = j)) as [<-|Hne]; [|by rewrite app_nil_r].
  destruct (sd_connected _ _ Hd i Hlt) as [c Hi]. pose proof (sd_sent _ _ Hd i) as Hsi.
  unfold sent_to in *. unfold post_report. rewrite Hi in *. simpl. rewrite lookup_insert_eq. simpl.
  by apply sublist_app.
Qed.

Lemma run_effect_delivered hs i e sv : delivered hs sv -> i < sv_opened sv ->
  delivered hs (run_effect junk_symbol junk_reason i sv e) /\
  sv_opened (run_effect junk_symbol junk_reason i sv e) = sv_opened sv.
Proof using.
  intros Hd Hi. destruct e as [c|c| | |n|b|r|t]; simpl; try done.
  - split; [|done]. destruct Hd as [Hc Hm Hdis Hs]. constructor; simpl; try done.
    intros c' j. unfold get_session, add_session. simpl. intros [[_ <-]|[_ Hg]]%lookup_insert_Some; [done|].
    by eapply Hm.
  - split; [|done]. destruct Hd as [Hc Hm Hdis Hs]. constructor; simpl; try done.
    intros c' j. unfold get_session, remove_session. simpl. intros [_ Hg]%lookup_delete_Some. by eapply Hm.
  - unfold set_reading. destruct (sv_connections sv !! i) as [c|] eqn:Hc; [|done]. split; [|done].
    eapply set_connection_delivered; [done..|]. exists []. by rewrite app_nil_r.
  - unfold set_reading. destruct (sv_connections sv !! i) as [c|] eqn:Hc; [|done]. split; [|done].
    eapply set_connection_delivered; [done..|]. exists []. by rewrite app_nil_r.
  - split; [by apply post_report_delivered|]. apply (post_report_frame junk_symbol junk_reason i r sv).
  - split; [|done]. by destruct Hd.
Qed.

Lemma run_effects_delivered hs i es : forall sv, delivered hs sv -> i < sv_opened sv ->
  delivered hs (run_effects junk_symbol junk_reason i es sv).
Proof using.
  induction es as [|e es IH]; intros sv Hd Hi; [done|]. simpl.
  destruct (run_effect_delivered hs i e sv Hd Hi) as [Hd' Hop]. apply IH; [done|]. by rewrite Hop.
Qed.
(** *** The steps *)

Definition handed_by sv : list (nat * ExecutionReport) := handed (ex_pipe (sv_exchange sv)).

Lemma run_effects_handed i es : forall sv,
  handed_by (run_effects junk_symbol junk_reason i es sv) = handed_by sv.
Proof using.
  induction es as [|e es IH]; intros sv; [done|]. simpl. rewrite IH. unfold handed_by.
  destruct e as [c|c| | |n|b|r|t]; simpl; try done.
  - by destruct (set_reading_frame i (Some R_header) sv) as [-> _].
  - by destruct (set_reading_frame i (Some R_body) sv) as [-> _].
  - by destruct (post_report_frame junk_symbol junk_reason i r sv) as (-> & _).
Qed.

(** A handler of connection [i]. *)
Lemma handler_delivered hs i c c' es sv : delivered hs sv -> i < sv_opened sv ->
  sv_connections sv !! i = Some c -> (exists new, out_sent (cn_output c') = out_sent (cn_output c) ++ new) ->
  hs = handed_by sv ->
  let sv' := run_effects junk_symbol junk_reason i es (set_connection i c' sv) in delivered (handed_by sv') sv'.
Proof using.
  intros Hd Hi Hc Hnew ->. cbv zeta. rewrite run_effects_handed. apply run_effects_delivered; [|done].
  by eapply set_connection_delivered.
Qed.

Lemma set_checks_delivered hs rc env sv : delivered hs sv -> delivered hs (set_checks rc env sv).
Proof using. by intros []. Qed.

Lemma accept_delivered sv : sv_inv junk_symbol junk_reason sv -> delivered (handed_by sv) sv ->
  let sv' := accept_step junk_symbol junk_reason sv in delivered (handed_by sv') sv'.
Proof using.
  intros Hinv [Hc Hm Hdis Hs]. cbv zeta. unfold accept_step, new_session, session_start.
  rewrite run_effects_handed. apply run_effects_delivered; [|simpl; lia].
  assert (sv_connections sv !! sv_opened sv = None) as Hnone.
  { destruct (sv_connections sv !! sv_opened sv) eqn:Hi; [|done].
    destruct (si_connections _ _ _ Hinv _ _ Hi). lia. }
  constructor; simpl.
  - intros i Hi. destruct (decide (sv_opened sv = i)) as [<-|Hne]; [by rewrite lookup_insert_eq|].
    rewrite lookup_insert_ne by done. apply Hc. lia.
  - intros c i Hg. apply Hm in Hg. lia.
  - intros i r Hg. apply Hdis in Hg. lia.
  - intros i. specialize (Hs i). unfold sent_to in *. simpl.
    destruct (decide (sv_opened sv = i)) as [<-|Hne]; [|by rewrite lookup_insert_ne by done].
    rewrite lookup_insert_eq. simpl. by rewrite Hnone in Hs.
Qed.

Lemma post_reports_delivered rs : forall hs sv, delivered hs sv ->
  Forall (fun ir => ir.1 < sv_opened sv) rs ->
  delivered (hs ++ rs) (foldl (fun sv ir => post_report junk_symbol junk_reason ir.1 ir.2 sv) sv rs).
Proof using.
  induction rs as [|[i r] rs IH]; intros hs sv Hd Hrs; [by rewrite app_nil_r|].
  apply Forall_cons in Hrs as [Hr Hrs]. simpl. rewrite cons_middle, app_assoc.
  apply IH; [by apply post_report_delivered|].
  by destruct (post_report_frame junk_symbol junk_reason i r sv) as (_ & -> & _).
Qed.

Lemma post_reports_handed rs : forall sv,
  handed_by (foldl (fun sv ir => post_report junk_symbol junk_reason ir.1 ir.2 sv) sv rs) = handed_by sv.
Proof using.
  induction rs as [|[i r] rs IH]; intros sv; [done|]. simpl. rewrite IH. unfold handed_by.
  by destruct (post_report_frame junk_symbol junk_reason i r sv) as (-> & _).
Qed.
Lemma thread_step_delivered a sv sv' : delivered (handed_by sv) sv ->
  thread_step_of junk_symbol junk_reason a sv = Some (Ok sv') -> delivered (handed_by sv') sv'.
Proof using.
  intros [Hc Hm Hdis Hs] Hst.
  destruct (thread_step_moves _ _ a sv sv' Hst) as (x & new & _ & _ & Hps & Hnew & Hall & Hd & ->).
  rewrite post_reports_handed. unfold handed_by at 1. simpl. rewrite Hnew. apply post_reports_delivered.
  - constructor; simpl; rewrite ?Hps; try done. intros c r [?|?]%Hd; [by eapply Hdis|by eapply Hm].
  - rewrite Forall_forall in Hall |- *. intros [c r] Hin. by apply (Hdis c r), (Hall _ Hin).
Qed.

Lemma output_step_delivered i a c sv sv' : delivered (handed_by sv) sv -> i < sv_opened sv ->
  sv_connections sv !! i = Some c ->
  output_step junk_symbol junk_reason i a c sv = Some sv' -> delivered (handed_by sv') sv'.
Proof using.
  intros Hd Hi Hc. unfold output_step. destruct (ostep _ _ _ _) as [o|] eqn:Ho; [|done]. intros [= <-].
  eapply handler_delivered; [done..| |done]. apply ostep_frame in Ho as [_ Ho]. simpl. rewrite Ho. by eexists.
Qed.

Lemma read_step_delivered i s es rd c sv : delivered (handed_by sv) sv -> i < sv_opened sv ->
  sv_connections sv !! i = Some c ->
  let sv' := run_effects junk_symbol junk_reason i es
    (set_connection i (mkConnection (set_out_session s (cn_output c)) rd) sv) in
  delivered (handed_by sv') sv'.
Proof using.
  intros Hd Hi Hc. eapply handler_delivered; [done..| |done]. exists []. by rewrite app_nil_r.
Qed.

Lemma server_step_delivered sv sv' : sv_inv junk_symbol junk_reason sv -> delivered (handed_by sv) sv ->
  server_moves junk_symbol junk_reason sv sv' -> delivered (handed_by sv') sv'.
Proof using All.
  intros Hinv Hd (a & _ & Hst). destruct a as [|i ec data|i ec data|i|i|i n|a]; simpl in Hst;
    [..|by eapply thread_step_delivered]; destruct (ex_phase (sv_exchange sv)) eqn:Hph; try done.
  { injection Hst as <-. by apply accept_delivered. }
  all: destruct (sv_connections sv !! i) as [[o rd]|] eqn:Hi; try done;
    destruct (si_connections _ _ _ Hinv _ _ Hi) as [Hlt _].
  1-2: destruct rd as [[]|]; try done; injection Hst as Hst.
  { subst sv'. unfold header_step. destruct (on_header _ _ _) as [s es]. by apply read_step_delivered. }
  { unfold body_step in Hst. apply obind_ok in Hst as ([[[s es] rc] env] & _ & [= <-]).
    apply (read_step_delivered i s es None (mkConnection o (Some R_body)) (set_checks rc env sv)); try done. by destruct Hd. }
  all: destruct (output_step _ _ _ _ _ _) eqn:Ho; [|done]; injection Hst as <-.
  all: by eapply output_step_delivered.
Qed.

Lemma server_reachable_delivered sv : server_reachable junk_symbol junk_reason sv ->
  delivered (handed_by sv) sv.
Proof using All.
  intros Hr. induction Hr as [sv (rc & env & clock & ->)|sv sv' Hr IH Hs].
  - constructor; simpl; [lia|done..|]. intros i. apply sublist_nil_l.
  - eapply server_step_delivered; [|done..]. by apply server_reachable_inv.
Qed.
End Delivery.

(** ** What can go wrong *)

(** The symbol of a packet's body; [None] when the body is not decoded. *)
Definition packet_symbol (ty : Z) (body : list ascii) : option (list ascii) :=
  match MsgType_of_u16 ty with
  | MsgOrder => if (length body =? sizeof NetOrder)%nat then Some (no_symbol (unpack body)) else None
  | MsgCancel => if (length body =? sizeof NetCancel)%nat then Some (nc_symbol (unpack body)) else None
  | MsgModify => if (length body =? sizeof NetModify)%nat then Some (nm_symbol (unpack body)) else None
  | _ => None
  end.

Lemma process_packet_fault s rc env f : process_packet s rc env = Fault f ->
  exists symbol, packet_symbol (h_type (incoming_header_ s)) (incoming_body_ s) = Some symbol /\ NUL ∉ symbol.
Proof.
  assert (forall array, NUL ∉ array \/ exists sym, c_string array = Ok sym) as Hcs.
  { intros array. rewrite <- c_string_undefined. destruct (c_string array) as [sym|[]] eqn:E; eauto;
      unfold c_string in E; by destruct (until_nul array). }
  unfold process_packet, packet_symbol.
  destruct (MsgType_of_u16 _); try done; destruct (length _ =? _)%nat; cbn [negb]; try done;
    intros Hf; (eexists; split; [done|]); revert Hf;
    unfold from_net_order, from_net_cancel, from_net_modify;
    match goal with |- context [c_string ?array] => destruct (Hcs array) as [?|[sym ->]] end; try done.
  cbn [obind]. destruct (validate_order _ _ _) as [[[] ?] ?]; done.
Qed.

Lemma body_step_fault {QW QR QT} js jr i ec data c (sv : Server QW QR QT) f :
  body_step js jr i ec data c sv = Fault f -> ec = false /\
  exists symbol, packet_symbol (h_type (incoming_header_ (out_session (cn_output c)))) data = Some symbol /\
    NUL ∉ symbol.
Proof.
  unfold body_step, on_body. destruct ec; cbn [negb].
  - by destruct (session_close _).
  - destruct (process_packet _ _ _) as [[[es rc] env]|f'] eqn:Hp; [done|]. intros _. split; [done|].
    by apply process_packet_fault in Hp.
Qed.

Lemma thread_step_completes {QW QR QT} `{FifoLaws QW WALEntry} `{FifoLaws QR ExecutionReport}
    `{FifoLaws QT Trade} js jr a (sv : Server QW QR QT) r :
  exchange_reachable (sv_exchange sv) -> action_ok a -> thread_step_of js jr a sv = Some r ->
  exists sv', r = Ok sv'.
Proof.
  intros Hx Ha Hs.
  assert (exists r', exchange_action_step a (sv_exchange sv) = Some r' /\ r = let* x := r' in
    Ok (foldl (fun sv ir => post_report js jr ir.1 ir.2 sv) (set_exchange x sv) (new_sends (sv_exchange sv) x)))
    as (r' & Hst & ->).
  { unfold thread_step_of in Hs. destruct a; try done; destruct (exchange_action_step _ _) as [r'|]; try done;
      injection Hs as <-; by exists r'. }
  destruct (exchange_step_good PoolTheorems.w_env a _ r' (exchange_reachable_any _ _ Hx) Ha Hst)
    as (x' & -> & _). simpl. by eexists.
Qed.

(** ** Properties *)

(** C6: clients are isolated.  Until the client ids wrap, what the server has
    written to a connection is a prefix of whole reports, in the order they were
    sent to its session, each carrying the client id of that very connection; and
    a report that is no rejection is about an order that was submitted over that
    connection. *)
Theorem server_clients_isolated {QW QR QT} `{FifoLaws QW WALEntry} `{FifoLaws QR ExecutionReport}
    `{FifoLaws QT Trade} js jr (sv : Server QW QR QT) i c :
  server_reachable js jr sv -> (Z.of_nat (sv_opened sv) <= 2 ^ 32)%Z -> sv_connections sv !! i = Some c ->
  (exists rest, wire_of js jr (out_sent (cn_output c)) = out_wire (cn_output c) ++ rest) /\
  forall r, r ∈ out_sent (cn_output c) ->
    er_client_id r = client_id_ (out_session (cn_output c)) /\
    (forall j c', sv_connections sv !! j = Some c' ->
       client_id_ (out_session (cn_output c')) = er_client_id r -> j = i) /\
    (er_status r = Rejected \/
     exists t o, (i, t) ∈ sv_requests sv /\ task_type t = T_Submit /\ task_request t = ReqOrder o /\
       o_order_id o = er_order_id r).
Proof.
  intros Hr Hn Hi. destruct (server_reachable_inv js jr sv Hr) as [_ _ Hc _ _ Hs Hq].
  destruct (Hc i c Hi) as (Hlt & Hid & Ho & Hsent). split.
  { destruct Ho as [[_ ->]|(_ & _ & _ & Hrest)]; [by eexists|done]. }
  intros r Hin. rewrite Forall_forall in Hsent. destruct (Hsent r Hin) as [Hcl Hst].
  rewrite Hid. split; [done|]. split.
  - intros j c' Hj Heq. destruct (Hc j c' Hj) as (Hjn & Hidj & _). apply client_of_inj; [lia..|congruence].
  - destruct Hst as [?|Hst]; [by left|right]. rewrite <- Hs, Hcl in Hst. by eapply owner_connection.
Qed.

Lemma server_clients_isolated_witness : exists c,
  sv_connections w_server !! 0 = Some c /\
  er_order_id <$> out_sent (cn_output c) = [1%Z; 1%Z] /\ length (out_wire (cn_output c)) = 180 /\
  exists rest, wire_of w_js w_jr (out_sent (cn_output c)) = out_wire (cn_output c) ++ rest.
Proof.
  destruct (sv_connections w_server !! 0) as [c|] eqn:Hc; [|exfalso; vm_compute in Hc; discriminate Hc].
  assert (Z.of_nat (sv_opened w_server) <= 2 ^ 32)%Z as Hn by (vm_compute; discriminate).
  exists c. split; [reflexivity|].
  split; [vm_compute in Hc; injection Hc as <-; vm_compute; reflexivity|].
  split; [vm_compute in Hc; injection Hc as <-; vm_compute; reflexivity|].
  exact (proj1 (server_clients_isolated w_js w_jr w_server 0 c w_server_reachable Hn Hc)).
Defined.

(** C16: the only step of the whole server that can go wrong is the one that
    handles a packet whose symbol has no terminator; every other step of every
    thread, on any input of any client, completes. *)
Theorem server_fault_source {QW QR QT} `{FifoLaws QW WALEntry} `{FifoLaws QR ExecutionReport}
    `{FifoLaws QT Trade} js jr (sv : Server QW QR QT) a r :
  server_reachable js jr sv -> server_action_ok a sv -> server_step js jr a sv = Some r ->
  (exists sv', r = Ok sv') \/
  exists i data c symbol, a = SA_body i false data /\ sv_connections sv !! i = Some c /\
    packet_symbol (h_type (incoming_header_ (out_session (cn_output c)))) data = Some symbol /\
    NUL ∉ symbol.
Proof.
  intros Hr Ha Hs. pose proof (si_exchange _ _ _ (server_reachable_inv js jr sv Hr)) as Hx.
  destruct r as [sv'|f]; [left; by eexists|right].
  destruct a as [|i ec data|i ec data|i|i|i n|a]; simpl in Hs;
    [..|by destruct (thread_step_completes js jr a sv _ Hx Ha Hs)];
    destruct (ex_phase (sv_exchange sv)); try done;
    destruct (sv_connections sv !! i) as [[o rd]|] eqn:Hi; try done.
  1-2: destruct rd as [[]|]; try done.
  { injection Hs as Hs. apply body_step_fault in Hs as (-> & symbol & Hsym & Hnul).
    by exists i, data, (mkConnection o (Some R_body)), symbol. }
  all: by destruct (output_step _ _ _ _ _ sv).
Qed.

(** The second client answers its order with a packet without a terminator. *)
Definition w_bad_body : list ascii := replicate (sizeof NetOrder) "A"%char.

Definition w_attacked : Server (MPSCQueue WALEntry) (MPSCQueue ExecutionReport) (MPSCQueue Trade) :=
  server_try w_js w_jr [SA_header 1 false (pack (mkMsgHeader 1 (Z.of_nat (sizeof NetOrder))))] w_server.

Lemma server_fault_source_witness :
  exists c symbol, sv_connections w_attacked !! 1 = Some c /\
    packet_symbol (h_type (incoming_header_ (out_session (cn_output c)))) w_bad_body = Some symbol /\
    NUL ∉ symbol.
Proof.
  assert (server_action_ok (SA_body 1 false w_bad_body) w_attacked) as Hok by (vm_compute; reflexivity).
  assert (server_reachable w_js w_jr w_attacked) as Hr by (apply server_try_reachable, w_server_reachable).
  destruct (server_step w_js w_jr (SA_body 1 false w_bad_body) w_attacked) as [r|] eqn:Hs;
    [|exfalso; vm_compute in Hs; discriminate Hs].
  destruct (server_fault_source w_js w_jr w_attacked _ r Hr Hok Hs) as [[sv' ->]|(i & data & c & symbol & H)].
  - exfalso. vm_compute in Hs. discriminate Hs.
  - destruct H as ([= <- <-] & Hc & Hsym & Hnul). exists c, symbol. exact (conj Hc (conj Hsym Hnul)).
Defined.

(** C7: what is handed to a session arrives.  Every report that the dispatcher
    handed to the session of a connection has been sent on that connection, in
    that order; and whenever an open session has no handler and no write pending,
    all it was sent is on the wire. *)
Theorem server_delivers {QW QR QT} `{FifoLaws QW WALEntry} `{FifoLaws QR ExecutionReport}
    `{FifoLaws QT Trade} js jr (sv : Server QW QR QT) i c :
  server_reachable js jr sv -> sv_connections sv !! i = Some c ->
  sublist (handed_to i (handed (ex_pipe (sv_exchange sv)))) (out_sent (cn_output c)) /\
  (active_ (out_session (cn_output c)) = true -> out_posted (cn_output c) = [] ->
   out_in_flight (cn_output c) = None ->
   out_wire (cn_output c) = wire_of js jr (out_sent (cn_output c))).
Proof.
  intros Hr Hi. pose proof (sd_sent _ _ (server_reachable_delivered js jr sv Hr) i) as Hs.
  unfold sent_to in Hs. rewrite Hi in Hs. split; [exact Hs|]. intros Ha Hp Hf.
  destruct (si_connections _ _ _ (server_reachable_inv js jr sv Hr) i c Hi) as (_ & _ & [[Hh Hw]|(_ & _ & Hx & _)] & _);
    [|congruence].
  rewrite Hw, Hp. rewrite Hf in Hh. destruct (write_queue_ _); [|done].
  change (concat []) with (@nil ascii). change (wire_of js jr []) with (@nil ascii). by rewrite !app_nil_r.
Qed.

Lemma server_delivers_witness : exists c,
  sv_connections w_server !! 0 = Some c /\
  er_status <$> handed_to 0 (handed (ex_pipe (sv_exchange w_server))) = [New; PartiallyFilled] /\
  sublist (handed_to 0 (handed (ex_pipe (sv_exchange w_server)))) (out_sent (cn_output c)) /\
  out_wire (cn_output c) = wire_of w_js w_jr (out_sent (cn_output c)).
Proof.
  destruct (sv_connections w_server !! 0) as [c|] eqn:Hc; [|exfalso; vm_compute in Hc; discriminate Hc].
  destruct (server_delivers w_js w_jr w_server 0 c w_server_reachable Hc) as [Hs Hw].
  assert (active_ (out_session (cn_output c)) = true /\ out_posted (cn_output c) = [] /\
    out_in_flight (cn_output c) = None) as (Ha & Hp & Hf)
    by (vm_compute in Hc; injection Hc as <-; repeat split).
  exists c. split; [reflexivity|]. split; [vm_compute; reflexivity|].
  exact (conj Hs (Hw Ha Hp Hf)).
Defined.
