(* ===== verification/TradeIds.v ===== *)
(** * Trade ids after a recovery

    [engine/replay_engine.cpp] sets the generator of trade ids back to 1 and
    lets the replayed operations draw from it.  Here the ids drawn are counted:
    after an orderly shutdown the replay leaves the generator exactly where the
    exchange left it, so that the ids that follow are fresh.  The ids of the
    recovered trades themselves need not be those of the original run when
    several workers were at work. *)

From stdpp Require Import base list gmap strings.
From Stdlib Require Import ZArith Lia Ascii.
From S2P Require Import Prelude StdMap Types Bytes BinarySerializer SerializerTheorems MatchingEngine Fifo MpscQueue OrderIndex OrderBook ClientErasure BookInv BookSpec BookOps BookRegistry SafeQueue Wal WalSystem PipelineSystem ThreadPool ReplayEngine Recovery PoolTheorems Ownership PoolTrace Exchange ExchangeInv ExchangeTheorems.
Local Open Scope exchange_scope.
Local Open Scope list_scope.

(** ** The ids an operation draws *)

(** From [c] on, as many ids were drawn as there are fills. *)
Definition counted (c : Z) (res : MatchResult) (env : Env) : Prop :=
  counter_ env = u64 (c + Z.of_nat (length (mr_fills res))).

Lemma u64_shift_l a b : u64 (u64 a + b) = u64 (a + b).
Proof. unfold u64. by rewrite Zplus_mod_idemp_l. Qed.

Lemma counted_match c buy sell sym res env : counted c res env ->
  let '(_, _, res', env') := matchOrders buy sell sym res env in counted c res' env'.
Proof.
  unfold counted, matchOrders. intros Hc. case_Z; simpl; [done|].
  rewrite length_app, Hc, u64_shift_l. simpl. f_equal. lia.
Qed.

Lemma counted_resting c t sym r x : counted c (r_result r) (r_env r) ->
  let r' := (match_resting t sym r x).2 in counted c (r_result r') (r_env r').
Proof.
  intros Hc. unfold match_resting.
  destruct t; [pose proof (counted_match c (r_incoming r) x sym _ _ Hc)|pose proof (counted_match c x (r_incoming r) sym _ _ Hc)];
    by destruct (matchOrders _ _ _ _ _) as [[[] ] ].
Qed.

Lemma counted_queue c t sym fuel : forall q r q' r', counted c (r_result r) (r_env r) ->
  match_queue fuel t sym q r = Ok (q', r') -> counted c (r_result r') (r_env r').
Proof.
  induction fuel as [|fuel IH]; intros q r q' r' Hc; simpl; [done|].
  destruct q as [|n q]; [by intros [= <- <-]|]. destruct (0 <? _)%Z; [|by intros [= <- <-]].
  pose proof (counted_resting c t sym r (n_order n) Hc) as Hc'.
  destruct (match_resting t sym r (n_order n)) as [x r1]. simpl in Hc'.
  destruct (_ =? _)%Z; by apply IH.
Qed.

Lemma counted_levels c t sym fuel : forall ls r ls' r', counted c (r_result r) (r_env r) ->
  match_levels fuel t sym ls r = Ok (ls', r') -> counted c (r_result r') (r_env r').
Proof.
  induction fuel as [|fuel IH]; intros ls r ls' r' Hc; cbn [match_levels]; [done|].
  destruct ls as [|[p q] ls]; [by intros [= <- <-]|]. destruct (0 <? _)%Z; [|by intros [= <- <-]].
  destruct (price_stops _ _ _); [by intros [= <- <-]|].
  intros ([q1 r1] & Hq & Hl)%obind_ok. pose proof (counted_queue c t sym _ _ _ _ _ Hc Hq) as Hc1.
  destruct q1; [by apply (IH _ _ _ _ Hc1 Hl)|].
  apply obind_ok in Hl as ([ls2 r2] & Hl & [= <- <-]). by apply (IH _ _ _ _ Hc1 Hl).
Qed.

Lemma counted_submit c o res b env b' res' env' : counted c res env ->
  submitOrderInternal o res b env = Ok (b', res', env') -> counted c res' env'.
Proof.
  intros Hc. unfold submitOrderInternal. intros ([ls r] & Hl & Hf)%obind_ok.
  apply (counted_levels c) in Hl; [|done]. injection Hf as Hf. unfold finish_order in Hf.
  destruct (0 <? _)%Z; [|by injection Hf as _ <- <-].
  destruct (is_limit _); [destruct (_ =? _)%Z|]; by injection Hf as _ <- <-.
Qed.

(** An operation draws one id for each of its fills. *)
Lemma apply_op_counted {L} op (lf : option (L -> L)) b env l b' res env' l' :
  env_ok env -> apply_op op lf b env l = Ok (b', res, env', l') -> counted (counter_ env) res env'.
Proof.
  intros Henv. assert (counted (counter_ env) empty_result env) as H0
    by (unfold counted; simpl; rewrite Z.add_0_r; by rewrite u64_small).
  destruct op as [o|id|req]; simpl; unfold submitOrder, cancelOrder, modifyOrder.
  - intros ([[b1 res1] env1] & Hs & [= _ <- <- _])%obind_ok. by eapply counted_submit.
  - intros ([[[[f b1] res1] env1] l1] & Hs & [= _ <- <- _])%obind_ok.
    destruct (index_get _ _); [|by injection Hs as _ _ <- <- _].
    apply obind_ok in Hs as (x & _ & Hs). apply obind_ok in Hs as (b2 & _ & Hs).
    by injection Hs as _ _ <- <- _.
  - intros ([[[[f b1] res1] env1] l1] & Hs & [= _ <- <- _])%obind_ok.
    destruct (index_get _ _); [|by injection Hs as _ _ <- <- _].
    apply obind_ok in Hs as (x & _ & Hs). apply obind_ok in Hs as (b2 & _ & Hs).
    apply obind_ok in Hs as ([[b3 res3] env3] & Hs & [= _ _ <- <- _]). by eapply counted_submit.
Qed.

(** ** The ids of the live exchange and of its replay *)

Section Counting.
Context (env0 : Env).

(** The fills of the operation a worker is about to run. *)
Definition pending_of (r : BookRegistry) (w : worker) : nat :=
  match w with
  | WK_locked t op =>
      match apply_op op (None : option (unit -> unit)) (book_of (task_symbol t) r) env0 tt with
      | Ok (_, res, _, _) => length (mr_fills res)
      | Fault _ => 0
      end
  | _ => 0
  end.

Definition pending (r : BookRegistry) (ws : gmap nat worker) : nat :=
  sum_list_with (fun iw => pending_of r iw.2) (map_to_list ws).

Definition fills_made (rs : list (Task * MatchResult)) : nat :=
  sum_list_with (fun tr => length (mr_fills tr.2)) rs.

(** The generator of the exchange started at [c]; a replay of the log is ahead
    by the fills of the operations inside their critical sections. *)
Record count_inv (c : Z) (q : PoolTrace) : Prop := mkCountInv {
  co_live : counter_ (ps_env (pt_pool q)) = u64 (c + Z.of_nat (fills_made (pt_results q)));
  co_replay : forall st,
    replay_all (log_records (ps_sinks (pt_pool q))) (mkReplayState new_registry env0 0) = Ok st ->
    counter_ (rs_env st) = u64 (counter_ env0 + Z.of_nat (fills_made (pt_results q) +
      pending (ps_registry (pt_pool q)) (ps_workers (pt_pool q)))) }.

Definition pending_at (r : BookRegistry) (ws : gmap nat worker) (i : nat) : nat :=
  match ws !! i with Some w => pending_of r w | None => 0 end.

Lemma pending_split r ws i : pending r ws = pending_at r ws i + pending r (delete i ws).
Proof using.
  unfold pending, pending_at. destruct (ws !! i) as [w|] eqn:Hi; [|by rewrite delete_id].
  rewrite <- (insert_delete_id ws i w Hi) at 1.
  by rewrite map_to_list_insert by apply lookup_delete_eq.
Qed.

Lemma pending_agree r r' ws : (forall j w, ws !! j = Some w -> pending_of r' w = pending_of r w) ->
  pending r' ws = pending r ws.
Proof using.
  intros Hw. unfold pending.
  assert (Forall (fun jw : nat * worker => pending_of r' jw.2 = pending_of r jw.2) (map_to_list ws)) as Hf.
  { apply Forall_forall. intros [j w] Hin%elem_of_map_to_list. by eapply Hw. }
  induction Hf as [|jw l Hjw _ IH]; [done|]. simpl. by rewrite Hjw, IH.
Qed.

(** A step of worker [i] that leaves the books of the others alone. *)
Lemma pending_moved i r r' ws ws' : delete i ws' = delete i ws ->
  (forall j w, j <> i -> ws !! j = Some w -> pending_of r' w = pending_of r w) ->
  pending r' ws' + pending_at r ws i = pending r ws + pending_at r' ws' i.
Proof using.
  intros Hd Hw. rewrite (pending_split r ws i), (pending_split r' ws' i), Hd.
  rewrite (pending_agree r r' (delete i ws)); [lia|].
  intros j w [Hne Hj]%lookup_delete_Some. by apply (Hw j).
Qed.

Lemma pending_of_books r r' w : (forall sym, book_of sym r' = book_of sym r) -> pending_of r' w = pending_of r w.
Proof using. intros Hb. destruct w; simpl; by rewrite ?Hb. Qed.

(** The fills of an operation do not depend on the environment. *)
Lemma fills_any_env op b env1 env2 b1 res1 env1' u1 b2 res2 env2' u2 :
  apply_op op (None : option (unit -> unit)) b env1 tt = Ok (b1, res1, env1', u1) ->
  apply_op op (None : option (unit -> unit)) b env2 tt = Ok (b2, res2, env2', u2) -> fills_sim res1 res2.
Proof using.
  intros H1 H2. assert (op_sim op op) as Hs by (destruct op; simpl; done).
  pose proof (apply_op_sim op op (None : option (unit -> unit)) (None : option (unit -> unit))
    b b env1 env2 tt tt Hs (reflexivity b)) as Hr.
  rewrite H1, H2 in Hr. apply Hr.
Qed.

Lemma pending_of_locked t op r env b res env' u :
  apply_op op (None : option (unit -> unit)) (book_of (task_symbol t) r) env tt = Ok (b, res, env', u) ->
  pending_of r (WK_locked t op) = length (mr_fills res).
Proof using.
  intros Ha. simpl. pose proof (fun b2 res2 e2 u2 => fills_any_env _ _ _ env0 _ _ _ _ b2 res2 e2 u2 Ha) as Hf.
  destruct (apply_op op _ _ env0 tt) as [[[[b2 res2] e2] u2]|f] eqn:E.
  - symmetry. by eapply Hf.
  - exfalso. assert (op_sim op op) as Hs by (destruct op; simpl; done).
    pose proof (apply_op_sim op op (None : option (unit -> unit)) (None : option (unit -> unit))
      _ _ env env0 tt tt Hs (reflexivity (book_of (task_symbol t) r))) as Hr. by rewrite Ha, E in Hr.
Qed.

Section Steps.
Context (junk junk8 : nat -> list ascii).
Context (Hjunk : forall n, length (junk n) = 52) (Hjunk8 : forall n, length (junk8 n) = 8).

Definition replayed (p : PoolSystem) (st : ReplayState) : Prop :=
  replay_all (log_records (ps_sinks p)) (mkReplayState new_registry env0 0) = Ok st.

(** Replaying the record of a task draws the ids its operation is about to draw. *)
Lemma replay_request_counted i t op n p st st' : pool_inv env0 p ->
  ps_workers p !! i = Some (WK_book t) -> task_op t = Some op -> unlocked (task_symbol t) (ps_workers p) ->
  replayed p st -> replay_entry (request_entry junk junk8 n (task_request t)) st = Ok st' ->
  env_ok (rs_env st) ->
  counter_ (rs_env st') = u64 (counter_ (rs_env st) + Z.of_nat (pending_of (ps_registry p) (WK_locked t op))).
Proof using All.
  intros [Hr _ Hw _ _ (rep & (st0 & Hall & Hst) & Hrr & Hs)] Hi Hop Hu Hrep He.
  intros Henv. unfold replayed in Hrep. rewrite Hall in Hrep. injection Hrep as ->. subst rep.
  destruct (Hw _ _ Hi) as [Htok _]. destruct (task_op_ok t Htok) as (op1 & Hop1 & Hok).
  rewrite Hop in Hop1. injection Hop1 as <-.
  destruct (replay_request junk junk8 Hjunk Hjunk8 n t op st Htok Hop) as (op' & Hre & Hsim & Hok').
  destruct (book_of_ok (task_symbol t) _ Hr) as [_ Hb].
  destruct (apply_op_ok (None : option (unit -> unit)) op _ (ps_env p) tt Hb Hok) as (b & res & env & Ha & _).
  destruct (registry_op_ok (task_symbol t) op' (None : option (unit -> unit)) _ (rs_env st) tt Hrr Hok')
    as (b2 & res2 & env2 & Ha2 & Hro & _).
  rewrite Hre in He. unfold replay_op in He. rewrite Hro in He. injection He as <-. simpl rs_env.
  rewrite (apply_op_counted _ _ _ _ _ _ _ _ _ Henv Ha2), (pending_of_locked t op _ _ _ _ _ _ Ha).
  assert (fills_sim res res2) as ->; [|done].
  pose proof (apply_op_sim op op' (None : option (unit -> unit)) (None : option (unit -> unit))
    _ _ (ps_env p) (rs_env st) tt tt Hsim (symmetry (proj1 (Hs (task_symbol t)) Hu))) as Hrel.
  rewrite Ha, Ha2 in Hrel. apply Hrel.
Qed.

(** A step that runs no book operation and logs nothing but a fill. *)
Lemma count_move c p p' sub sub' rs : count_inv c (mkPoolTrace p sub rs) ->
  ps_env p' = ps_env p ->
  (log_records (ps_sinks p') = log_records (ps_sinks p) \/
   exists u f, log_records (ps_sinks p') = log_records (ps_sinks p) ++ [fill_entry u f]) ->
  pending (ps_registry p') (ps_workers p') = pending (ps_registry p) (ps_workers p) ->
  count_inv c (mkPoolTrace p' sub' rs).
Proof using.
  intros [Hl Hr] He Hlog Hp. simpl in *. constructor; simpl; [by rewrite He|]. rewrite Hp.
  intros st. destruct Hlog as [->|(u & f & ->)]; [apply Hr|].
  rewrite replay_all_app. intros (st0 & H0 & H1)%obind_ok. injection H1 as <-. by apply Hr.
Qed.

(** A worker that stays outside its critical section. *)
Lemma count_outside c i p p' sub sub' rs : count_inv c (mkPoolTrace p sub rs) ->
  delete i (ps_workers p') = delete i (ps_workers p) ->
  ~ in_critical (ps_workers p !! i) -> ~ in_critical (ps_workers p' !! i) ->
  ps_env p' = ps_env p -> (forall sym, book_of sym (ps_registry p') = book_of sym (ps_registry p)) ->
  (log_records (ps_sinks p') = log_records (ps_sinks p) \/
   exists u f, log_records (ps_sinks p') = log_records (ps_sinks p) ++ [fill_entry u f]) ->
  count_inv c (mkPoolTrace p' sub' rs).
Proof using.
  intros Hc Hd Hn Hn' He Hb Hlog. eapply count_move; [exact Hc|done..|].
  assert (forall r ws, ~ in_critical (ws !! i) -> pending_at r ws i = 0) as Hz.
  { intros r ws. unfold pending_at. destruct (ws !! i) as [[]|]; simpl; tauto. }
  pose proof (pending_moved i (ps_registry p) (ps_registry p') _ _ Hd
    (fun j w _ _ => pending_of_books _ _ w Hb)) as Hm.
  rewrite !Hz in Hm by done. lia.
Qed.

(** Entering the critical section. *)
Lemma count_lock c i t op p sub rs : pool_inv env0 p -> count_inv c (mkPoolTrace p sub rs) ->
  ps_workers p !! i = Some (WK_book t) -> task_op t = Some op -> unlocked (task_symbol t) (ps_workers p) ->
  count_inv c (mkPoolTrace (set_worker i (WK_locked t op)
    (set_sinks (log_action true junk junk8 t (ps_sinks p)) p)) sub rs).
Proof using All.
  intros Hp [Hl Hr] Hi Hop Hu. constructor; simpl in *; [done|]. intros st'.
  rewrite replay_all_app. intros (st & Hall & He)%obind_ok. simpl in He.
  apply obind_ok in He as (st1 & He & [= <-]).
  assert (env_ok (rs_env st)) as Henv by (unfold env_ok; rewrite (Hr st Hall); apply u64_range).
  rewrite (replay_request_counted i t op _ p st st1 Hp Hi Hop Hu Hall He Henv), (Hr st Hall), u64_shift_l.
  assert (delete i (<[ i := WK_locked t op ]> (ps_workers p)) = delete i (ps_workers p)) as Hd
    by by rewrite delete_insert_eq.
  pose proof (pending_moved i (ps_registry p) (ps_registry p) _ _ Hd (fun _ _ _ _ => eq_refl)) as Hm.
  unfold pending_at in Hm. rewrite Hi, lookup_insert_eq in Hm. f_equal.
  change (pending_of (ps_registry p) (WK_book t)) with 0%nat in Hm. lia.
Qed.

(** Leaving it. *)
Lemma count_match c i t op p p' sub rs : pool_inv env0 p -> count_inv c (mkPoolTrace p sub rs) ->
  ps_workers p !! i = Some (WK_locked t op) ->
  worker_step true true junk junk8 i p = Some (Ok p') ->
  count_inv c (mkPoolTrace p' sub (record_result i p p' rs)).
Proof using All.
  intros Hp [Hl Hr] Hi Hs. pose proof (worker_step_others _ _ _ _ _ _ _ Hs) as Hd.
  unfold record_result. unfold worker_step in Hs. rewrite Hi in Hs |- *.
  injection Hs as ([r [res env]] & Hwb & [= <-])%obind_ok.
  destruct (pi_workers _ _ Hp _ _ Hi) as (_ & _ & [b Hb]). unfold with_book in Hwb. rewrite Hb in Hwb. simpl in Hwb.
  apply obind_ok in Hwb as ([b' [res' env']] & Ha & [= <- <- <-]).
  apply obind_ok in Ha as ([[[b1 res1] env1] u] & Ha & [= -> -> ->]).
  assert (book_of (task_symbol t) (ps_registry p) = b) as Hbo by (unfold book_of; by rewrite Hb).
  assert (env_ok (ps_env p)) as Henv by (unfold env_ok; simpl in Hl; rewrite Hl; apply u64_range).
  pose proof (apply_op_counted _ _ _ _ _ _ _ _ _ Henv Ha) as Hcnt. unfold counted in Hcnt.
  rewrite <- Hbo in Ha. apply pending_of_locked in Ha. simpl in Hl, Hr, Hd |- *. rewrite lookup_insert_eq.
  assert (fills_made (rs ++ [(t, res')]) = fills_made rs + length (mr_fills res')) as Hfm.
  { unfold fills_made. rewrite sum_list_with_app. simpl. lia. }
  constructor; simpl; rewrite Hfm.
  - rewrite Hcnt, Hl, u64_shift_l. f_equal. lia.
  - intros st Hall. rewrite (Hr st Hall).
    pose proof (pending_moved i (ps_registry p)
      (mkBookRegistry (<[ task_symbol t := b' ]> (books_ (ps_registry p)))) _ _ Hd) as Hm.
    unfold pending_at in Hm. rewrite Hi, lookup_insert_eq, Ha in Hm.
    change (pending_of _ (WK_fills res' (mr_fills res'))) with 0%nat in Hm. f_equal.
    lapply Hm; [clear Hm; intros Hm; lia|]. intros j w Hne Hj. destruct w as [| |t2 op2| | |]; try done. simpl.
    rewrite book_of_insert_ne; [done|]. intros Heq. apply Hne.
    by apply (pi_excl _ _ Hp j i t2 t op2 op Hj Hi).
Qed.

Lemma count_worker c i p p' sub rs : pool_inv env0 p -> count_inv c (mkPoolTrace p sub rs) ->
  worker_step true true junk junk8 i p = Some (Ok p') ->
  count_inv c (mkPoolTrace p' sub (record_result i p p' rs)).
Proof using All.
  intros Hp Hc Hs. pose proof (worker_step_others _ _ _ _ _ _ _ Hs) as Hd. pose proof Hs as Hs0.
  unfold worker_step in Hs0. destruct (ps_workers p !! i) as [[t|t|t op|res [|f fs]|[|er rs'] fs|[|f fs]]|] eqn:Hi.
  3: by eapply count_match.
  2:{ destruct (worker_task_op env0 i t p Hp Hi) as [op Hop]. rewrite Hop in Hs0.
      destruct (bool_decide _) eqn:Hu; [|done]. apply bool_decide_eq_true in Hu. injection Hs0 as <-.
      unfold record_result. rewrite Hi. by apply count_lock. }
  all: assert (record_result i p p' rs = rs) as -> by (unfold record_result; by rewrite Hi).
  8: destruct (ps_tasks p) as [|t ts]; [done|].
  all: injection Hs0 as <-; eapply count_outside; [exact Hc|exact Hd|rewrite Hi; simpl; tauto| | |..];
    simpl; rewrite ?lookup_insert_eq, ?lookup_delete_eq; simpl; auto.
  - intros sym. apply book_of_get.
  - right. by eexists _, _.
Qed.
End Steps.
End Counting.

(** ** The exchange *)

Section Exchange.
Context {S QW QR QT : Type} `{FifoLaws QW WALEntry} `{FifoLaws QR ExecutionReport} `{FifoLaws QT Trade}.
Implicit Types x : ExchangeSystem S QW QR QT.

Lemma count_step env0 c q q' : trace_inv env0 q -> count_inv env0 c q -> trace_step q q' -> count_inv env0 c q'.
Proof using.
  intros Hq Hc (junk & junk8 & a & Hj & Hj8 & _ & Hs & _ & Hres).
  destruct q as [p sub rs], q' as [p' sub' rs']. simpl in *. subst. destruct a as [t|i]; simpl in Hs.
  - injection Hs as <-. by destruct Hc as [Hl Hr].
  - assert (count_inv env0 c (mkPoolTrace p' sub (record_result i p p' rs))) as [Hl Hr]
      by (eapply (count_worker env0 junk junk8); [done|done|apply Hq|done|exact Hs]).
    by constructor.
Qed.

Lemma star_reachable env x : star exchange_step (init_exchange env) x -> exchange_reachable x.
Proof using.
  intros Hs. assert (exchange_reachable (init_exchange (S := S) (QW := QW) (QR := QR) (QT := QT) env)) as Hi
    by (apply reach_init; by exists env).
  revert Hi. induction Hs as [x|x y z Hxy _ IH]; intros Hi; [done|]. apply IH. by eapply reach_step.
Qed.

Lemma exchange_counts env0 env x : env_ok env -> env_ok env0 -> star exchange_step (init_exchange env) x ->
  count_inv env0 (counter_ env) (trace_of x).
Proof using All.
  intros He He0 Hs. remember (init_exchange env) as x0 eqn:Hx0.
  assert (exchange_reachable x0 /\ count_inv env0 (counter_ env) (trace_of x0)) as [Hr Hc].
  { subst x0. split; [apply reach_init; by exists env|].
    constructor; simpl; [rewrite Z.add_0_r; by rewrite u64_small|].
    intros st [= <-]. simpl. rewrite Z.add_0_r. by rewrite u64_small. }
  clear Hx0. induction Hs as [x|x y z Hxy _ IH]; [done|]. apply IH; [by eapply reach_step|].
  destruct Hxy as (a & Ha & Hst).
  pose proof (exchange_reachable_any env0 x Hr) as Hinv.
  destruct (exchange_step_good env0 a x _ Hinv Ha Hst) as (y' & [= <-] & _ & [->|Ht]); [done|].
  eapply count_step; [apply (xi_trace _ _ Hinv)|exact Hc|exact Ht].
Qed.
End Exchange.

(** ** A run in which the log and the books order two trades differently *)

(** Two orders rest; then worker 1 logs the buy order for AAPL, worker 2 logs
    the one for MSFT and matches it, and only then worker 1 matches. *)
Definition w_race : list (exchange_action nat) :=
  [EX_add 1 10; EX_submit (w_task_order 1 "AAPL" Sell 100 10 1);
   EX_submit (w_task_order 2 "MSFT" Sell 300 5 1)] ++
  replicate 40 (w_worker 1) ++
  [EX_submit (w_task_order 3 "AAPL" Buy 100 10 1); EX_submit (w_task_order 4 "MSFT" Buy 300 5 1)] ++
  replicate 6 (w_worker 1) ++ replicate 40 (w_worker 2) ++ replicate 40 (w_worker 1) ++
  concat (replicate 80 [EX_main; EX_flusher; EX_dispatcher]).

Definition w_raced : ExchangeSystem nat (MPSCQueue WALEntry) (MPSCQueue ExecutionReport) (MPSCQueue Trade) :=
  exchange_try w_race w_started.

Lemma exchange_try_star {S QW QR QT} `{Fifo QW WALEntry} `{Fifo QR ExecutionReport} `{Fifo QT Trade}
    (acts : list (exchange_action S)) : forall x : ExchangeSystem S QW QR QT,
  Forall action_ok acts -> star exchange_step x (exchange_try acts x).
Proof.
  induction acts as [|a acts IH]; intros x Hok; [apply star_refl|]. apply Forall_cons in Hok as [Ha Hok].
  simpl. destruct (exchange_action_step a x) as [[x'|f]|] eqn:Hs; [|by apply IH..].
  eapply star_step; [by exists a|by apply IH].
Qed.

Lemma w_race_star : star exchange_step w_started w_raced.
Proof.
  apply exchange_try_star. repeat (apply Forall_app; split); try (by repeat constructor);
    repeat constructor; simpl; unfold is_u64, is_u32, fits_chars; simpl; try lia; try done;
    intros Hin; repeat (apply elem_of_cons in Hin as [Hin|Hin]; [discriminate Hin|]);
    by apply not_elem_of_nil in Hin.
Qed.

(** ** Properties *)

(** C2: recovery after a shutdown.  Once the main thread has shut down the pool,
    the log and the pipeline, replaying the log's file rebuilds exactly the books
    the exchange ended with, up to client ids, and leaves the generator of trade
    ids where the exchange left it, so that no id given out is given out again. *)
Theorem shutdown_recovery {S QW QR QT} `{FifoLaws QW WALEntry} `{FifoLaws QR ExecutionReport}
    `{FifoLaws QT Trade} env renv (x : ExchangeSystem S QW QR QT) :
  star exchange_step (init_exchange env) x -> counter_ env = initial_counter -> ex_phase x = MP_done ->
  exists st, replay (Some (disk (ws_wal (ex_wal x)))) new_registry renv = Ok (true, st) /\
    registry_sim (rs_registry st) (ex_registry x) /\
    counter_ (rs_env st) = counter_ (ex_env x).
Proof.
  intros Hs He Hph. set (env0 := reset_ids 1 renv). pose proof (star_reachable env x Hs) as Hr.
  assert (env_ok env /\ env_ok env0) as [Hok Hok0] by (unfold env_ok; rewrite He; by split).
  pose proof (exchange_counts env0 env x Hok Hok0 Hs) as [Hl Hc].
  destruct (exchange_reachable_any env0 x Hr) as [Hw _ [Hpool _ _ _ _ _ _] _ _ _ Hpk].
  unfold phase_ok in Hpk. rewrite Hph in Hpk. destruct Hpk as ((_ & Hk & Hq & _) & Hend & _).
  destruct Hpool as [_ _ _ _ Hf (rep & (st & Hall & Hst) & _ & Hsim)]. simpl in Hf, Hall, Hsim, Hl, Hc.
  exists st. destruct Hw as [_ Hd _ Hlog]. rewrite Hd, (qi_done _ _ Hq (Hlog Hend)). split.
  { rewrite <- (app_nil_r (wal_bytes _)). apply replay_of_records; [done|exact Hall|vm_compute; lia]. }
  split; [intros sym; rewrite Hst; apply Hsim; rewrite Hk; apply map_Forall_empty|].
  rewrite (Hc st Hall), Hl, He, Hk. f_equal. unfold pending. rewrite map_to_list_empty. simpl.
  change (u64 1) with 1%Z. unfold initial_counter. lia.
Qed.

Lemma shutdown_recovery_witness : exists st,
  ex_phase w_raced = MP_done /\
  replay (Some (disk (ws_wal (ex_wal w_raced)))) new_registry w_env = Ok (true, st) /\
  counter_ (rs_env st) = 3%Z /\ registry_sim (rs_registry st) (ex_registry w_raced).
Proof.
  assert (ex_phase w_raced = MP_done) as Hph by (vm_compute; reflexivity).
  destruct (shutdown_recovery w_env w_env w_raced w_race_star eq_refl Hph) as (st & Hst & Hsim & Hc).
  exists st. split; [exact Hph|]. split; [exact Hst|]. split; [|exact Hsim].
  rewrite Hc. vm_compute. reflexivity.
Defined.

(** The recovered trades need not have their original ids.  Here the trade in
    MSFT was number 1 and the one in AAPL number 2; the replay of the same file,
    up to and including the buy order for AAPL, gives number 1 to the latter. *)
Theorem recovered_trade_ids_differ :
  exchange_reachable w_raced /\ ex_phase w_raced = MP_done /\
  (ex_results w_raced ≫= fun tr => (fun f => (f_symbol f, f_trade_id f)) <$> mr_fills tr.2)
    = [("MSFT", 1%Z); ("AAPL", 2%Z)] /\
  exists st, replay (Some (wal_bytes (take 3 (wrote (ex_wal w_raced))))) new_registry w_env = Ok (true, st) /\
    counter_ (rs_env st) = 2%Z /\ resting_ids (book_of "AAPL" (rs_registry st)) = [] /\
    resting_ids (book_of "MSFT" (rs_registry st)) = [2%Z].
Proof.
  split; [exact (star_reachable w_env _ w_race_star)|]. split; [vm_compute; reflexivity|].
  split; [vm_compute; reflexivity|]. eexists. split; [vm_compute; reflexivity|].
  repeat split; vm_compute; reflexivity.
Qed.
